(* ===== verification/_CoqProject ===== *)
-Q . S2P
Prelude.v
Calendar.v
CalendarFacts.v
Schema.v
Store.v
Logic.v
Frame.v
Ledger.v
Demo.v
Quota.v
Subscription.v
TopUp.v
SubscriptionFacts.v
ResetFacts.v
Reservation.v
WildFlowOperations.v
WildFlowBilling.v
ReservationRules.v
WildFlowFacts.v
WildFlowBooks.v
WildFlowTheorems.v
WildFlowProjection.v
TopUpFacts.v
TopUpTheorems.v
ReservationSpec.v
ReservationFacts.v
ReservationTheorems.v
SubscriptionTheorems.v
Maintenance.v
WildFlowSubmission.v
WildFlowSubmissionTheorems.v
UserQuota.v
BillingSession.v
TaskOperations.v
BillingSessionTheorems.v
Tasks.v
TaskBilling.v
TaskPolling.v
TaskFacts.v
TaskTheorems.v
TaskRefunds.v
Interleave.v
Marked.v
Focus.v
Topology.v
SystemTasks.v
SystemTaskRunner.v
SystemTaskFacts.v
SystemTaskTheorems.v
SystemTaskCleanup.v
GoStrings.v
Channels.v
ChannelRouting.v
ChannelSelect.v
ChannelTheorems.v
ChannelChoice.v
ChannelKeys.v
ChannelTable.v
ChannelRoutingTheorems.v
ChannelDemo.v
UserCache.v
UserCacheFacts.v
UserUpdates.v
UserCacheTheorems.v
TokenCache.v
TokenCacheFacts.v
TokenCacheTheorems.v
Sessions.v
SessionFacts.v
SessionTopology.v
LoginSessions.v
SessionClients.v
SessionRights.v
SessionTheorems.v
