(* ===== verification/Prelude.v ===== *)
(** * A verification library for the billing and routing core of wildflow-api

    wildflow-api relays requests to AI providers and charges its users for them.
    This library models the part of the program that moves money - the wallets,
    API keys and subscriptions, the ledgers that reserve and settle them, the
    ways quota enters a wallet, the tasks that clean up -, the part that
    decides which provider account serves a request, and the part that decides
    whether a request is let in at all.  All of it is in
    [src/model] and [src/service]; function names are the source's.

    ** How the parts interact

    A relayed request reserves quota before a provider is called and settles or
    releases it afterwards ([src/model/billing_reservation.go]); the money comes
    from the wallet ([users.quota]) or from a subscription
    ([src/model/subscription.go]), and always also from the API key
    ([tokens.remain_quota]).  The request itself holds a session
    ([src/service/billing_session.go]) that drives the ledger from its start to
    its end.  A request for a video or a picture that takes minutes becomes a
    task ([src/model/task.go]): its submission closes the reservation
    ([task_operation.go]), a poller asks the provider until the task ends and
    then corrects or refunds its charge ([src/service/task_polling.go],
    [task_billing.go]).  Asynchronous WildFlow jobs have their own durable
    record ([src/model/wildflow_operation.go]), are submitted to the inference
    server under a lease ([wildflow_submission.go]), and are billed by
    reservation, evidence of usage and settlement or refund
    ([wildflow_billing.go], [wildflow_usage_event.go]), with a canonical audit
    log copied to the generic log.  Orders and redemption codes fill wallets
    ([topup.go], [redemption.go]).  A maintenance task expires and resets
    subscriptions and releases stale reservations
    ([src/service/subscription_reset_task.go]); other jobs of the cluster are rows
    of a table that its nodes claim under leases ([system_task.go]).
    Before a request is sent, and again for every retry, a channel is chosen from
    a table in memory that is rebuilt from the database from time to time
    ([channel_cache.go]); a failure may disable the channel or one of its keys.
    Every request is first authenticated: its API key and its user come from
    Redis hashes that mirror the tables ([token_cache.go], [user_cache.go]), and
    a change of rights - a password, a role, a status, a deleted key - must not
    be undone by a copy made before it ([user_auth_cache.go], [cache_fence.go]).
    A request to the dashboard presents an access token instead, which names a
    login session ([user_session.go]), a version of it and a version of its
    user's rights; a refresh token, replaced at every use, gets the next access
    token, and a change of rights ends the user's sessions
    ([src/service/auth_session.go], [auth_token.go]).

    ** The layers of the library

    - [Prelude]: record update notation, 64-bit integers ([i64]), small lemmas on
      lists and strings, the hint databases.
    - [Schema]: one record per gorm model, and [DB], all tables.
      [Store]: the monad [M] in which every operation is written: environment,
      tables, a stream of driver outcomes, emitted effects, Go errors; SQL
      statements, transactions, retries.
    - [Logic] ([wp] and its rules), [Frame] ([respects]: what a computation
      cannot touch; [hoare]: an invariant of a row), [Ledger] (observables of
      the tables and elementary movements of a balance), [Demo] (a concrete
      database for the witnesses).
    - [Calendar] (Go's [time] as far as the reset schedule uses it, in a location
      whose offset changes with daylight saving time), [CalendarFacts] (its days
      and midnights), [Quota] ([src/common/quota_math.go]).
    - [Subscription], [SubscriptionFacts], [ResetFacts], [SubscriptionTheorems]:
      subscription.go.
    - [Reservation] (billing_reservation.go), [ReservationRules] (proof rules of
      its statements), [ReservationSpec] (the abstract ledger of events and the
      refinement), [ReservationFacts] (properties of events),
      [ReservationTheorems] (the operations' guarantees).
    - [WildFlowOperations], [WildFlowBilling], [WildFlowFacts], [WildFlowBooks],
      [WildFlowTheorems], [WildFlowProjection]: WildFlow records, billing, usage
      evidence and the audit log's projection.  [WildFlowSubmission],
      [WildFlowSubmissionTheorems]: the submission lease.
    - [TopUp], [TopUpFacts], [TopUpTheorems]: orders and redemption codes.
    - [Maintenance]: the maintenance task.
    - [UserQuota]: direct changes of wallets, keys and counters ([user.go],
      [token.go], [channel.go], [quota_reserve.go]).
    - [BillingSession] (billing_session.go, funding_source.go, the per-call
      part of [src/service/quota.go]), [BillingSessionTheorems]: a session
      under the interference of everybody else, as a step relation.
    - [TaskOperations] (task_operation.go), [Tasks] (task.go), [TaskBilling]
      (task_billing.go with the ratio tables it reads), [TaskPolling]
      (task_polling.go; a provider is an instance of the class
      [TaskPollingAdaptor], the interface of that name), [TaskFacts] (what each
      operation does to a wallet), [TaskTheorems] (the system of pollers),
      [TaskRefunds] (exact refunds).
    - [Interleave] (programs whose statements interleave, and the rely-guarantee
      rule for them), [SystemTasks] (system_task.go), [SystemTaskRunner]
      ([src/service/system_task.go]), [SystemTaskFacts], [SystemTaskTheorems],
      [SystemTaskCleanup]: the jobs of the cluster, on any number of nodes whose
      statements interleave, may lose their answers, and may stop anywhere.
    - [GoStrings] (the functions of package strings that routing uses),
      [Channels] (channel.go, ability.go), [ChannelRouting] (channel_cache.go,
      channel_constraint.go, channel_satisfy.go), [ChannelSelect]
      ([src/service/channel_select.go], the retry loop of
      [src/controller/relay.go]); [ChannelTable] and [ChannelRoutingTheorems]
      (what the table holds and answers), [ChannelChoice] (counting draws),
      [ChannelKeys] (the keys of a channel), [ChannelTheorems] (retries),
      [ChannelDemo] (concrete channels).
    - [Marked] (rely-guarantee rules for programs that report a milestone on
      the way), [Focus] (a program run on a part of the state, with its rules),
      [Topology] (a cluster of nodes that share a Redis, have one each, or none,
      over one database: what is kept on one Redis is kept on each, if it
      survives what nodes elsewhere do to the database).
    - [UserCache] (the user's row, hash, floor and fence, with the
      statements of the code), [UserCacheFacts], [UserUpdates] (the operations of
      user.go and [src/controller/user.go] on them), [UserCacheTheorems].
    - [TokenCache] (the API key's row, hash and revocation fence, with an
      explicit clock), [TokenCacheFacts], [TokenCacheTheorems].
    - [Sessions] (user_session.go: rows, hashes, tombstones, clock),
      [SessionFacts] (the invariant of one session, and that each statement keeps
      it), [SessionTopology] (it survives statements on other Redis instances),
      [LoginSessions] (auth_session.go, auth_token.go and the functions of
      user.go that end sessions, on all users and all sessions),
      [SessionClients] (the requests, and what is true of every run of them),
      [SessionRights] (the same for the versions of a user's rights),
      [SessionTheorems].

    ** What the theorems show

    - Reservation ledger, C1-C7 and C9: the operations refine an
      abstract ledger under every driver failure and every order of operations;
      hence no balance goes negative, balances are conserved, a request that was
      settled or released stays as it is, whatever operations follow; reserving is all or nothing, and releasing undoes it; stale
      recovery is safe; an open request can be closed.
      Without a number: what a settlement charges ([reserve_then_settle]), repeating a closed request has no effect
      ([closed_request_is_final]), the cache follows the wallet
      ([user_cache_follows_wallet]), clean-up keeps open records.
    - Sessions, C8: a request pays exactly what it used, whatever
      happens in between.  After the provider was called a session cannot raise
      its reservation ([reserve_after_start_fails]).
    - Subscriptions, C10-C13: the reset schedule is the
      calendar's, daylight saving time included, where every day begins at
      midnight and only once; the catch-up loop then ends, at the first boundary
      after now (and need not where a midnight is skipped, or for an overflowing
      period); usage stays within the total.  Without a number: a pre-consumption
      charges one subscription ([preconsume_charges_one]) and is undone by its
      refund ([preconsume_refund_roundtrip]).
    - WildFlow billing, C14-C16: wallet plus held or consumed quota is
      constant through any history; the life cycle; the audit log is projected exactly once, under
      exclusive leases ([projection_lease_exclusive]).  Without a number: the
      exact amounts of reservation, settlement and refund
      ([wildflow_reserve_exact], [wildflow_settle_exact],
      [wildflow_refund_exact]).
    - Money in, C17: an order or code is credited once.
      Without a number: it stays below the ceiling ([topups_within_ceiling]);
      the Epay callback in full ([epay_exact]); the wrong amount of a manual
      Creem completion ([manual_completion_of_creem]).
    - Maintenance, C18: the reset drain need not end; the expiry drain does
      ([expiry_drain_terminates]).
    - Submission leases, C19: one worker submits at a time.
    - Tasks, C20-C21: the end of tasks never pays out more than was charged;
      a timed-out task is refunded exactly, once.  Without a number: a task a
      subscription paid for is refunded to the wallet
      ([subscription_task_refunds_wallet]).
    - System tasks, C22-C25: one task of a type at a time; a lease has one
      holder; a lost answer can block a type for ever; the log clean-up deletes
      exactly the old rows.
    - Routing, C26-C30: a request gets a channel exactly when one is eligible, of
      the priority its retry asks for; a disabled channel gets no more requests
      (unless it names a model twice, [duplicate_model_stays_routed]); channels
      are drawn in proportion to their weights (and from the database nearly so,
      [ability_choice_biased]); the keys of a channel are used in turn, never
      a disabled one ([disabled_key_unused]); the number of retries is bounded.
    - Users, C31-C33: once a change of rights has been reported, no reader on the same Redis
      is served the rights from before it, whatever the interleaving, but for an
      update that overwrote a right and a hard deletion that could not be
      published; two ways in which the handlers fall short (an update from a stale
      copy, a failed read that passes for rank 0).
    - API keys, C34 and C35: a deleted key is not accepted once its deletion
      was reported on the same Redis, as long as fills are quicker than the fence lives; the
      fence's epoch, reused after it expired, re-admits a key ([late_fill_readmits_key]
      is the case of a slow fill).
    - Login sessions, C36-C40: no request that began after a revocation was
      reported on the same Redis is let through, but where the tombstone after it
      was lost, which does happen; and on any Redis none that began later than a
      snapshot lives; refresh tokens form one chain per session; an access token
      dies with the rights it was made for; the sessions and their hashes are
      well formed.

    ** Conventions, bounds and idealisations

    Each SQL statement consumes one driver outcome of the initial state, so a
    theorem about all initial states covers a failure of any statement, [BEGIN]
    or [COMMIT]; the text of a driver error is not modelled beyond being an
    SQLite lock or not.  A transaction runs without interference and restores
    the tables on error: the row locks and compare-and-swap updates of the
    source are what makes this a fair reading.  A column holds an unbounded
    integer, while Go arithmetic on [int] and [int64] wraps ([i64]).  One
    operation sees one clock value.  A map iterated by [range] is visited in an
    arbitrary order given as a parameter.  In [TaskTheorems] one handling of one
    task runs to its end before another starts, but on a copy of the task that
    may be arbitrarily old, as the poller's is.  The number of rows an UPDATE
    affected counts the rows it matched (MySQL can be set to count only those it
    changed, which the system tasks model by a switch).  In the caches every SQL
    statement and every Redis command or script is one atomic step, between two
    of which any other program of any node may run; a script runs as a whole; a
    hash may expire at any time, a committed floor has no time to live, a fence
    lives exactly its own.  The state of one of these components ([World],
    [Keyring], [Slot]) is the database with one Redis; a cluster has one for every
    Redis, with the same database in all of them, and a node uses one of them or
    none ([src/README.en.md] has the table of the topologies).  What is reported
    by a node on another Redis binds a reader only through the database: the
    caches of users and of keys there may be as old as their hashes' time to live,
    which no theorem here counts, those of sessions as C36 says.  Redis and
    the nodes share one clock, and a session's
    hash lives exactly the time it was given, tombstones among them: that Redis
    evicts no key is assumed there.  That no two refresh secrets have the same
    digest is a hypothesis of C37 only.  Text that is only shown is kept where it is short and is a
    parameter where a formatter of the repository makes it.

    A location is a first offset and a list of changes, as long as one likes: the
    rule that continues Go's table past its end stands for its entries.  That
    these are two days apart, that offsets are less than a day, and that clocks do
    not jump over a midnight is asked of a calendar period only ([tame]).

    Fuel: [Subscription.reset_loop] takes its number of rounds, which the operation
    sets to [reset_fuel]: more than the instants between 1 and now, of which none
    can come twice in a loop that ends.  C11 shows that it ends, and
    C12 that these rounds reach every outcome there is, and that in two
    cases no number does.
    [Store.retry] and [WildFlowBilling.record_attempts] carry the source's own
    bounds (3 and 8 attempts).  [Maintenance.drain] takes its rounds;
    [expiry_drain_terminates] and C18 say which suffice.  The loops of the log
    clean-up take theirs, and C25 gives a number that is enough;
    [ChannelSelect.relay_attempts] takes its attempts, and C30 bounds them.
    The bulk revocation and the clean-up of sessions take their rounds, and what
    is shown of them holds for every number.  [trim_space] and [SplitBy] recurse on the length of their string.

    Parameters, because their code is outside the repository: the operations of
    github.com/shopspring/decimal ([Quota.DecimalOps]), UUIDs, the plan cache and
    the Redis caches (environment fields and emitted effects), the hash of a
    WildFlow result; the expression engine that evaluates a price tier
    ([RunExpr]); the provider's answers ([TaskPollingAdaptor]) and the store of
    pictures; [sort.Slice], [math/rand], [regexp], and the parsing of JSON (a
    channel's keys, the payload and state of a system task); HMAC, its hexadecimal
    form, the syntax of a UUID, random secrets, the hash of a password and the
    signature of an access token; the normalized name
    of a model, which the price tables define; the tables of prices and ratios ([RatioSettings]), which an
    administrator edits at run time.

    ** Not modelled

    - The other ways to sign in (WebAuthn, OAuth, one-time codes), whose logic is
      that of outside libraries; cookies, and the parsing of access tokens.
    - HTTP handlers and middleware: decoding, dispatch, rate limits in Redis.
      Those that decide rights of users are in [UserUpdates]; the others call
      the operations above.
    - The provider adaptors and the conversions between message formats: JSON
      in, JSON out, for some forty providers, on untyped maps; a faithful
      model needs a model of Go's JSON decoding first.
    - The JavaScript plugins: they run in an engine outside the repository.
    - The batch updater ([src/model/utils.go]), which defers counters and, if it
      is switched on, changes of wallets: every theorem about wallets is for the
      setting without it.
    - Editing channels and tags, and channel affinity: forms of an
      administrator, and a cache of preferences that routing may ignore.
    - The pricing of synchronous requests: floating point on price tables.
    - Statistics, settings, migrations, the desktop shell: display and set-up. *)

From stdpp Require Import base numbers option strings list.
From Stdlib Require Import ZArith Lia.
Open Scope Z_scope.


Create HintDb quota.
Create HintDb ledger.
Create Rewrite HintDb ledger_rw.

(** ** Functional record update

    [r <| fld := v |>] and [r <| fld ::= f |>] for any record that declares its
    field-by-field identity as an instance of [Eta]. *)

Class Eta (R : Type) := eta : R -> R.

Definition setter_ty {R T : Type} (p : R -> T) : Type := (T -> T) -> R -> R.

Ltac setter_of p :=
  lazymatch type of p with
  | ?R -> ?T =>
      let body := eval hnf in (@eta R _) in
      lazymatch eval pattern p in body with
      | ?g p => exact (fun (F : T -> T) (r : R) => g (fun x : R => F (p x)) r)
      end
  end.

Notation "r '<|' p '::=' f '|>'" := ((ltac:(setter_of p) : setter_ty p) f r)
  (at level 1, p at level 9, f at level 99, left associativity, only parsing).
Notation "r '<|' p ':=' v '|>'" := ((ltac:(setter_of p) : setter_ty p) (fun _ => v) r)
  (at level 1, p at level 9, v at level 99, left associativity, only parsing).

(** ** Machine integers

    Go's [int] and [int64] are both 64-bit two's complement here; [i64] is the
    value an arithmetic expression of that type has after wrap-around. *)

Definition min_int64 : Z := - 2 ^ 63.
Definition max_int64 : Z := 2 ^ 63 - 1.
Definition in_i64 (z : Z) : Prop := min_int64 <= z <= max_int64.
Definition i64 (z : Z) : Z := (z + 2 ^ 63) mod 2 ^ 64 - 2 ^ 63.

(** A Go [int] that is not negative, or positive. *)
Definition go_int (x : Z) : Prop := 0 <= x < 2 ^ 63.
Definition positive_int (x : Z) : Prop := 0 < x < 2 ^ 63.

Lemma i64_small z : in_i64 z -> i64 z = z.
Proof.
  unfold in_i64, i64, min_int64, max_int64. intros H.
  rewrite Z.mod_small; lia.
Qed.

Lemma i64_range z : in_i64 (i64 z).
Proof.
  unfold in_i64, i64, min_int64, max_int64.
  pose proof (Z.mod_pos_bound (z + 2 ^ 63) (2 ^ 64) ltac:(lia)). lia.
Qed.

Lemma i64_idem z : i64 (i64 z) = i64 z.
Proof. apply i64_small, i64_range. Qed.

(** Discharge [i64] from the context when the argument is in range. *)
Ltac i64_simpl :=
  repeat match goal with
  | |- context [i64 ?z] =>
      rewrite (i64_small z) by (unfold in_i64, min_int64, max_int64 in *; lia)
  | H : context [i64 ?z] |- _ =>
      rewrite (i64_small z) in H by (unfold in_i64, min_int64, max_int64 in *; lia)
  end.

(** ** Loops

    [step] is one round: another state, or the result.  [loop fuel] makes up to
    [fuel] rounds, and evaluates no more than it needs. *)
Section Loops.
Context {S R : Type} (step : S -> S + R).
Fixpoint loop (fuel : positive) (s : S) : S + R :=
  match fuel with
  | xH => step s
  | xO p => match loop p s with inl s' => loop p s' | inr r => inr r end
  | xI p =>
      match step s with
      | inl s' => match loop p s' with inl s'' => loop p s'' | inr r => inr r end
      | inr r => inr r
      end
  end.
Fixpoint rounds (n : nat) (s : S) : S + R :=
  match n with
  | O => inl s
  | Datatypes.S n => match step s with inl s' => rounds n s' | inr r => inr r end
  end.

Lemma rounds_add n m s : rounds (n + m)%nat s = match rounds n s with inl s' => rounds m s' | inr r => inr r end.
Proof. revert s. induction n as [|n IH]; intros s; [done|]. cbn. destruct (step s); [apply IH | done]. Qed.
Lemma loop_rounds p s : loop p s = rounds (Pos.to_nat p) s.
Proof.
  revert s. induction p as [p IH|p IH|]; intros s; cbn [loop].
  - replace (Pos.to_nat p~1) with (Datatypes.S (Pos.to_nat p + Pos.to_nat p)%nat) by lia. cbn [rounds].
    destruct (step s) as [s'|r]; [|done]. rewrite rounds_add, IH. destruct (rounds (Pos.to_nat p) s'); [apply IH | done].
  - replace (Pos.to_nat p~0) with (Pos.to_nat p + Pos.to_nat p)%nat by lia. rewrite rounds_add, IH.
    destruct (rounds (Pos.to_nat p) s); [apply IH | done].
  - change (Pos.to_nat 1) with 1%nat. cbn. by destruct (step s).
Qed.
Lemma rounds_more n m s r : rounds n s = inr r -> (n <= m)%nat -> rounds m s = inr r.
Proof. intros H Hle. replace m with (n + (m - n))%nat by lia. by rewrite rounds_add, H. Qed.
End Loops.

(** ** Strings *)

#[global] Instance string_eqb_dec (s t : string) : Decision (s = t) := String.string_dec s t.

(** [s == t] and friends as booleans, the way Go's comparisons are used. *)
Definition str_eqb (s t : string) : bool := String.eqb s t.

Lemma str_eqb_true s t : str_eqb s t = true <-> s = t.
Proof. apply String.eqb_eq. Qed.
Lemma str_eqb_false s t : str_eqb s t = false <-> s <> t.
Proof. apply String.eqb_neq. Qed.
Lemma str_eqb_refl s : str_eqb s s = true.
Proof. apply String.eqb_refl. Qed.

(** [strings.Contains]. *)
Fixpoint str_contains (s sub : string) : bool :=
  String.prefix sub s ||
  match s with
  | EmptyString => false
  | String _ s' => str_contains s' sub
  end.

Fixpoint str_drop (n : nat) (s : string) : string :=
  match n, s with
  | O, _ => s
  | S n', String _ s' => str_drop n' s'
  | S _, EmptyString => EmptyString
  end.

Fixpoint str_rev (s acc : string) : string :=
  match s with
  | EmptyString => acc
  | String c s' => str_rev s' (String c acc)
  end.

Definition bytes (l : list nat) : string :=
  List.fold_right (fun n s => String (Ascii.ascii_of_nat n) s) EmptyString l.

(** The UTF-8 encodings of Unicode's White_Space code points, which
    [strings.TrimSpace] removes from both ends. *)
Definition go_spaces : list string :=
  List.map bytes
    ([[9]; [10]; [11]; [12]; [13]; [32]; [194; 133]; [194; 160]; [225; 154; 128]]%nat ++
     List.map (fun n => [226; 128; 128 + n]%nat) (List.seq 0 11) ++
     [[226; 128; 168]; [226; 128; 169]; [226; 128; 175]; [226; 129; 159]; [227; 128; 128]]%nat).

Fixpoint trim_left_with (spaces : list string) (fuel : nat) (s : string) : string :=
  match fuel with
  | O => s
  | S fuel' =>
      match List.find (fun sp => String.prefix sp s) spaces with
      | Some sp => trim_left_with spaces fuel' (str_drop (String.length sp) s)
      | None => s
      end
  end.

(** [strings.TrimSpace]: the length of the string is enough fuel, since every
    removed sequence is at least one byte. *)
Definition trim_space (s : string) : string :=
  let s1 := trim_left_with go_spaces (String.length s) s in
  let s2 := trim_left_with (List.map (fun sp => str_rev sp EmptyString) go_spaces)
              (String.length s1) (str_rev s1 EmptyString) in
  str_rev s2 EmptyString.

Example trim_space_ascii : trim_space " ab c	" = "ab c".
Proof. reflexivity. Qed.
Example trim_space_blank : trim_space "  " = "".
Proof. reflexivity. Qed.
