(* ===== verification/Calendar.v ===== *)
(** * Calendar: the part of Go's [time] package the subscriptions rely on

    A [time.Time] of [time.Local] is its Unix second count; the location has an
    offset from UTC, which changes with daylight saving time.  Dates are
    proleptic Gregorian and counted in days since 1970-01-01. *)

From S2P Require Import Prelude.
From stdpp Require Import base numbers.
From Stdlib Require Import ZArith Lia.
Open Scope Z_scope.

(** Day number of a civil date; [month] must be in 1..12, any [day]. *)
Definition days_from_civil (year month day : Z) : Z :=
  let y := if month <=? 2 then year - 1 else year in
  let mp := if 2 <? month then month - 3 else month + 9 in
  let yoe := y mod 400 in
  (y / 400) * 146097 + (yoe * 365 + yoe / 4 - yoe / 100 + ((153 * mp + 2) / 5 + day - 1)) - 719468.

(** Civil date (year, month, day) of a day number. *)
Definition civil_from_days (z : Z) : Z * Z * Z :=
  let z' := z + 719468 in
  let doe := z' mod 146097 in
  let yoe := (doe - doe / 1460 + doe / 36524 - doe / 146096) / 365 in
  let doy := doe - (365 * yoe + yoe / 4 - yoe / 100) in
  let mp := (5 * doy + 2) / 153 in
  let month := if mp <? 10 then mp + 3 else mp - 9 in
  let y := yoe + (z' / 146097) * 400 in
  (if month <=? 2 then y + 1 else y, month, doy - (153 * mp + 2) / 5 + 1).

(** ** Locations

    A location starts with an offset (seconds east of UTC) and changes it at
    given instants, as for daylight saving time.  (The rule by which Go continues
    its table stands for as many entries as one likes.) *)

Record Location := mkLocation { loc_first : Z; loc_changes : list (Z * Z) }.
Definition fixed_zone (offset : Z) : Location := mkLocation offset [].

(** What is in force at an instant: since when, and until when. *)
Record Zone := mkZone { z_offset : Z; z_start : option Z; z_end : option Z }.
Fixpoint zone_from (offset : Z) (start : option Z) (changes : list (Z * Z)) (t : Z) : Zone :=
  match changes with
  | [] => mkZone offset start None
  | (at_, next) :: rest => if t <? at_ then mkZone offset start (Some at_) else zone_from next (Some at_) rest t
  end.
(** [l.lookup(sec)] *)
Definition zone_at (loc : Location) (t : Z) : Zone := zone_from (loc_first loc) None (loc_changes loc) t.
Definition offset_at (loc : Location) (t : Z) : Z := z_offset (zone_at loc t).

(** What the clocks of the location show at [t], in seconds since they showed
    the beginning of 1970, and the day they show. *)
Definition reading (loc : Location) (t : Z) : Z := t + offset_at loc t.
Definition local_day (loc : Location) (t : Z) : Z := reading loc t / 86400.

Definition in_zone (z : Zone) (t : Z) : bool :=
  match z_start z with Some a => a <=? t | None => true end && match z_end z with Some b => t <? b | None => true end.
(** The end of [time.Date]: an instant for a reading, which there may be none
    of, or two. *)
Definition unix_of (loc : Location) (r : Z) : Z :=
  let z := zone_at loc r in
  if z_offset z =? 0 then r else
  let utc := r - z_offset z in
  r - (if in_zone z utc then z_offset z else offset_at loc utc).

(** [time.Date(year, month, day, 0, 0, clock, 0, loc)]: months and days outside
    their range are carried over. *)
Definition time_Date (loc : Location) (year month day clock : Z) : Z :=
  let m := month - 1 in
  unix_of loc (days_from_civil (year + m / 12) (m mod 12 + 1) day * 86400 + clock).

(** [t.Date()]. *)
Definition t_Date (loc : Location) (t : Z) : Z * Z * Z := civil_from_days (local_day loc t).

(** [t.AddDate(years, months, days)]: the clock of [t] is kept. *)
Definition t_AddDate (loc : Location) (t years months days : Z) : Z :=
  let '(y, m, d) := t_Date loc t in
  time_Date loc (y + years) (m + months) (d + days) (reading loc t mod 86400).

(** [t.Weekday()], Sunday = 0. *)
Definition t_Weekday (loc : Location) (t : Z) : Z := (local_day loc t + 4) mod 7.

(** [t.Add(d)] for a duration in nanoseconds. *)
Definition t_Add (t d : Z) : Z := t + d / 1000000000.

(** [time.Duration(n) * unit], with [int64] wrap-around. *)
Definition duration_of (n unit_seconds : Z) : Z := i64 (n * (unit_seconds * 1000000000)).

Example epoch_civil : civil_from_days 0 = (1970, 1, 1).
Proof. reflexivity. Qed.
Example leap_day : civil_from_days (days_from_civil 2024 2 29) = (2024, 2, 29).
Proof. reflexivity. Qed.
Example add_month_overflow :
  t_Date (fixed_zone 0) (t_AddDate (fixed_zone 0) (time_Date (fixed_zone 0) 2023 1 31 0) 0 1 0) = (2023, 3, 3).
Proof. reflexivity. Qed.

(** Berlin in 2024; Santiago in 2024, where on 8 September there was no
    midnight, and [time.Date] answers 23:00 of the day before. *)
Definition berlin : Location := mkLocation 3600 [(1711846800, 7200); (1729990800, 3600)].
Definition santiago : Location := mkLocation (-10800) [(1712458800, -14400); (1725768000, -10800)].
Example berlin_summer : unix_of berlin (reading berlin 1720000000) = 1720000000 /\ reading berlin 1720000000 = 1720007200.
Proof. by vm_compute. Qed.
Example santiago_gap :
  let t := time_Date santiago 2024 9 8 0 in t_Date santiago t = (2024, 9, 7) /\ reading santiago t mod 86400 = 23 * 3600.
Proof. by vm_compute. Qed.

Lemma era_year_bounds doe :
  0 <= doe < 146097 ->
  0 <= (doe - doe / 1460 + doe / 36524 - doe / 146096) / 365 <= 399.
Proof. intros H. Z.to_euclidean_division_equations. lia. Qed.

Lemma era_day_bounds doe :
  0 <= doe < 146097 ->
  let yoe := (doe - doe / 1460 + doe / 36524 - doe / 146096) / 365 in
  0 <= doe - (365 * yoe + yoe / 4 - yoe / 100) <= 365.
Proof. intros H. cbv zeta. Z.to_euclidean_division_equations. lia. Qed.

Lemma month_index_bounds doy : 0 <= doy <= 365 -> 0 <= (5 * doy + 2) / 153 <= 11.
Proof. intros H. Z.to_euclidean_division_equations. lia. Qed.

(** The civil date determines the day. *)
Lemma days_civil_days z :
  let '(y, m, d) := civil_from_days z in days_from_civil y m d = z.
Proof.
  unfold civil_from_days, days_from_civil. cbv zeta.
  set (doe := (z + 719468) mod 146097).
  assert (0 <= doe < 146097) as Hdoe by (apply Z.mod_pos_bound; lia).
  pose proof (era_year_bounds doe Hdoe) as Hy.
  pose proof (era_day_bounds doe Hdoe) as Hd. cbv zeta in Hd.
  set (yoe := (doe - doe / 1460 + doe / 36524 - doe / 146096) / 365) in *.
  set (doy := doe - (365 * yoe + yoe / 4 - yoe / 100)) in *.
  pose proof (month_index_bounds doy Hd) as Hm.
  set (mp := (5 * doy + 2) / 153) in *.
  assert (z + 719468 = (z + 719468) / 146097 * 146097 + doe) as Hz
    by (unfold doe; pose proof (Z_div_mod_eq_full (z + 719468) 146097); lia).
  set (era := (z + 719468) / 146097) in *. clearbody doe era.
  assert ((yoe + era * 400) mod 400 = yoe) as Hmod
    by (rewrite Z.mod_add by lia; apply Z.mod_small; lia).
  assert ((yoe + era * 400) / 400 = era) as Hdiv
    by (rewrite Z.div_add by lia; rewrite Z.div_small; lia).
  destruct (Z.ltb_spec mp 10) as [Hmp|Hmp].
  - destruct (Z.leb_spec (mp + 3) 2); [lia|].
    destruct (Z.ltb_spec 2 (mp + 3)); [|lia].
    rewrite Hmod, Hdiv. replace (mp + 3 - 3) with mp by lia. unfold doy in *. lia.
  - destruct (Z.leb_spec (mp - 9) 2); [|lia].
    destruct (Z.ltb_spec 2 (mp - 9)); [lia|].
    replace (yoe + era * 400 + 1 - 1) with (yoe + era * 400) by lia.
    rewrite Hmod, Hdiv. replace (mp - 9 + 9) with mp by lia. unfold doy in *. lia.
Qed.

(** The first day of the month of [z], and of the following one. *)
Lemma civil_month_start y m :
  1 <= m <= 12 -> civil_from_days (days_from_civil y m 1) = (y, m, 1).
Proof.
  intros Hm. unfold civil_from_days, days_from_civil. cbv zeta.
  set (y' := if m <=? 2 then y - 1 else y).
  set (mp := if 2 <? m then m - 3 else m + 9).
  assert (0 <= mp <= 11) as Hmp by (unfold mp; destruct (Z.ltb_spec 2 m); lia).
  set (doy := (153 * mp + 2) / 5 + 1 - 1).
  pose proof (Z.mod_pos_bound y' 400 ltac:(lia)) as Hyoe.
  set (yoe := y' mod 400) in *.
  set (z := y' / 400 * 146097 + (yoe * 365 + yoe / 4 - yoe / 100 + doy) - 719468 + 719468).
  assert (0 <= doy <= 337) as Hdoy by (unfold doy; Z.to_euclidean_division_equations; lia).
  set (doe := yoe * 365 + yoe / 4 - yoe / 100 + doy) in *.
  assert (0 <= doe < 146097) as Hdoe
    by (unfold doe; Z.to_euclidean_division_equations; lia).
  assert (z = doe + y' / 400 * 146097) as Hz by (unfold z; lia).
  assert (z mod 146097 = doe) as -> by (rewrite Hz, Z.mod_add by lia; apply Z.mod_small; lia).
  assert (z / 146097 = y' / 400) as -> by (rewrite Hz, Z.div_add by lia; rewrite Z.div_small; lia).
  assert ((doe - doe / 1460 + doe / 36524 - doe / 146096) / 365 = yoe) as ->.
  { unfold doe. clearbody doy yoe. clear -Hdoy Hyoe. Z.to_euclidean_division_equations. lia. }
  replace (doe - (365 * yoe + yoe / 4 - yoe / 100)) with doy by (unfold doe; lia).
  assert ((5 * doy + 2) / 153 = mp) as ->.
  { unfold doy. clearbody mp. Z.to_euclidean_division_equations. lia. }
  replace (yoe + y' / 400 * 400) with y'
    by (unfold yoe; pose proof (Z_div_mod_eq_full y' 400); lia).
  replace (doy - (153 * mp + 2) / 5 + 1) with 1 by (unfold doy; lia).
  unfold mp, y'. destruct (Z.ltb_spec 2 m), (Z.leb_spec m 2); try lia.
  - destruct (Z.ltb_spec (m - 3) 10); [|lia]. replace (m - 3 + 3) with m by lia.
    destruct (Z.leb_spec m 2); [lia|done].
  - destruct (Z.ltb_spec (m + 9) 10); [lia|]. replace (m + 9 - 9) with m by lia.
    destruct (Z.leb_spec m 2); [|lia]. by replace (y - 1 + 1) with y by lia.
Qed.

Lemma era_year_end doe :
  0 <= doe < 146097 ->
  let yoe := (doe - doe / 1460 + doe / 36524 - doe / 146096) / 365 in
  doe < 365 * (yoe + 1) + (yoe + 1) / 4 - (yoe + 1) / 100 + (yoe + 1) / 400.
Proof. intros H. cbv zeta. Z.to_euclidean_division_equations. lia. Qed.

(** Day [z] lies in its month: between the first of it and the first of the next. *)
Lemma civil_month_contains z :
  let '(y, m, d) := civil_from_days z in
  1 <= m <= 12 /\ 1 <= d <= 31 /\
  z < days_from_civil (y + m / 12) (m mod 12 + 1) 1.
Proof.
  pose proof (days_civil_days z) as Hback. revert Hback.
  unfold civil_from_days. cbv zeta.
  set (doe := (z + 719468) mod 146097).
  assert (0 <= doe < 146097) as Hdoe by (apply Z.mod_pos_bound; lia).
  pose proof (era_year_bounds doe Hdoe) as Hy.
  pose proof (era_day_bounds doe Hdoe) as Hd. cbv zeta in Hd.
  pose proof (era_year_end doe Hdoe) as He. cbv zeta in He.
  set (yoe := (doe - doe / 1460 + doe / 36524 - doe / 146096) / 365) in *.
  set (doy := doe - (365 * yoe + yoe / 4 - yoe / 100)) in *.
  pose proof (month_index_bounds doy Hd) as Hm.
  set (mp := (5 * doy + 2) / 153) in *.
  set (day := doy - (153 * mp + 2) / 5 + 1).
  set (year := yoe + (z + 719468) / 146097 * 400).
  set (month := if mp <? 10 then mp + 3 else mp - 9).
  assert (1 <= month <= 12) as Hmonth by (unfold month; destruct (Z.ltb_spec mp 10); lia).
  assert (1 <= day <= 31) as Hday
    by (unfold day, mp; clearbody doy; Z.to_euclidean_division_equations; lia).
  assert (doy < (153 * (mp + 1) + 2) / 5) as Hnext
    by (unfold mp; clearbody doy; Z.to_euclidean_division_equations; lia).
  intros Hback. split; [done|]. split; [done|].
  assert (z + 719468 = (z + 719468) / 146097 * 146097 + doe) as Hz
    by (unfold doe; pose proof (Z_div_mod_eq_full (z + 719468) 146097); lia).
  assert (doe = 365 * yoe + yoe / 4 - yoe / 100 + doy) as Hdoe' by (unfold doy; lia).
  unfold days_from_civil. cbv zeta.
  clearbody doy. set (era := (z + 719468) / 146097) in *. clearbody era doe yoe mp.
  unfold year, month, day in *. clear Hback.
  destruct (Z.ltb_spec mp 10) as [Hlt|Hge].
  - destruct (Z.leb_spec (mp + 3) 2); [lia|].
    destruct (Z.eq_dec mp 9) as [->|Hne].
    + replace ((9 + 3) mod 12 + 1) with 1 by reflexivity.
      replace ((9 + 3) / 12) with 1 by reflexivity. 
      replace (1 <=? 2) with true by reflexivity. replace (2 <? 1) with false by reflexivity.
      replace (yoe + era * 400 + 1 - 1) with (yoe + era * 400) by lia.
      rewrite Z.mod_add, Z.div_add, Z.mod_small, (Z.div_small yoe 400) by lia. change ((153 * (1 + 9) + 2) / 5) with 306. change ((153 * (9 + 1) + 2) / 5) with 306 in Hnext.
      clear - Hz Hdoe' Hnext. lia.
    + rewrite (Z.mod_small (mp + 3) 12), (Z.div_small (mp + 3) 12) by lia.
      destruct (Z.leb_spec (mp + 3 + 1) 2); [lia|].
      destruct (Z.ltb_spec 2 (mp + 3 + 1)); [|lia].
      rewrite Z.add_0_r, Z.mod_add, Z.div_add, Z.mod_small, (Z.div_small yoe 400) by lia.
      replace (mp + 3 + 1 - 3) with (mp + 1) by lia. lia.
  - destruct (Z.leb_spec (mp - 9) 2); [|lia].
    rewrite (Z.mod_small (mp - 9) 12), (Z.div_small (mp - 9) 12) by lia.
    destruct (Z.eq_dec mp 11) as [->|Hne].
    + replace (11 - 9 + 1 <=? 2) with false by reflexivity.
      replace (2 <? 11 - 9 + 1) with true by reflexivity.
      replace (yoe + era * 400 + 1 + 0) with ((yoe + 1) + era * 400) by lia.
      rewrite Z.mod_add, Z.div_add by lia.
      replace ((153 * (11 - 9 + 1 - 3) + 2) / 5) with 0 by reflexivity.
      clear Hd Hm Hmonth Hnext Hday. Z.to_euclidean_division_equations. lia.
    + assert (mp = 10) as -> by lia.
      replace (10 - 9 + 1 <=? 2) with true by reflexivity.
      replace (2 <? 10 - 9 + 1) with false by reflexivity.
      replace (yoe + era * 400 + 1 + 0 - 1) with (yoe + era * 400) by lia.
      rewrite Z.mod_add, Z.div_add, Z.mod_small, (Z.div_small yoe 400) by lia.
      replace ((153 * (10 - 9 + 1 + 9) + 2) / 5) with ((153 * (10 + 1) + 2) / 5) by reflexivity.
      lia.
Qed.
