(* ===== verification/CalendarFacts.v ===== *)
(** * Days of a location

    [tame] is a condition on the table of a location under which its days begin
    at midnight, and only once: clocks are not set forward over midnight, nor
    back over one.  Then [time.Date] finds every midnight, and days and instants
    have the same order. *)

From S2P Require Import Prelude Calendar.
From stdpp Require Import base numbers option list.
From Stdlib Require Import ZArith Lia.
Open Scope Z_scope.

(** ** Zones *)

(** Changes two days apart, offsets under a day. *)
Fixpoint spaced (start : option Z) (changes : list (Z * Z)) : bool :=
  match changes with
  | [] => true
  | (at_, _) :: rest => match start with Some s => s + 172800 <=? at_ | None => true end && spaced (Some at_) rest
  end.
Definition small_offset (o : Z) : bool := (-86400 <? o) && (o <? 86400).
(** From one second to the next, with these readings: the day stays, and it is
    not its midnight, or the next one begins at midnight. *)
Definition day_turns (r r' : Z) : bool :=
  ((r' / 86400 =? r / 86400) && (86400 * (r / 86400) <? r')) || (r' =? 86400 * (r / 86400 + 1)).
Fixpoint calm (offset : Z) (changes : list (Z * Z)) : bool :=
  match changes with
  | [] => true
  | (at_, next) :: rest => day_turns (at_ - 1 + offset) (at_ + next) && calm next rest
  end.
Definition tame (loc : Location) : bool :=
  spaced None (loc_changes loc) && forallb small_offset (loc_first loc :: map snd (loc_changes loc)) && calm (loc_first loc) (loc_changes loc).

Example tame_berlin : tame berlin = true.
Proof. by vm_compute. Qed.
Example wild_santiago : tame santiago = false.
Proof. by vm_compute. Qed.

Lemma in_zone_spec z t :
  in_zone z t = true <-> (forall a, z_start z = Some a -> a <= t) /\ (forall b, z_end z = Some b -> t < b).
Proof.
  unfold in_zone. rewrite andb_true_iff. split.
  - intros [H1 H2]. split; [intros a E; rewrite E in H1; lia | intros b E; rewrite E in H2; lia].
  - intros [H1 H2]. destruct (z_start z) as [a|], (z_end z) as [b|];
      rewrite ?Z.leb_le, ?Z.ltb_lt; split; auto.
Qed.

Section Zones.
(** The zone of an instant contains it. *)
Lemma zone_contains offset start changes t :
  (forall a, start = Some a -> a <= t) -> in_zone (zone_from offset start changes t) t = true.
Proof.
  revert offset start. induction changes as [|[at_ next] rest IH]; intros offset start Hs; cbn.
  - apply in_zone_spec. by split; [apply Hs|].
  - destruct (Z.ltb_spec t at_); [apply in_zone_spec; cbn; split; [apply Hs | by intros b [= <-]]|].
    apply IH. by intros a [= <-].
Qed.
Lemma zone_start_after offset s changes t :
  spaced (Some s) changes = true -> exists a, z_start (zone_from offset (Some s) changes t) = Some a /\ s <= a.
Proof.
  revert offset s. induction changes as [|[at_ next] rest IH]; intros offset s; cbn; [by exists s|].
  intros [H%Z.leb_le Hr]%andb_true_iff. destruct (t <? at_); [by exists s|]. destruct (IH next at_ Hr) as (a & -> & ?). exists a. split; [done | lia].
Qed.
(** It is that of every instant it contains. *)
Lemma zone_shared offset start changes t t' :
  spaced start changes = true -> in_zone (zone_from offset start changes t) t' = true ->
  zone_from offset start changes t' = zone_from offset start changes t.
Proof.
  revert offset start. induction changes as [|[at_ next] rest IH]; intros offset start; cbn; [done|].
  intros [_ Hr]%andb_true_iff. destruct (Z.ltb_spec t at_).
  - intros [_ Hb]%in_zone_spec. specialize (Hb at_ eq_refl). by destruct (Z.ltb_spec t' at_); [|lia].
  - intros Hin. destruct (zone_start_after next at_ rest t Hr) as (a & Ea & Ha). pose proof Hin as [Hlo _]%in_zone_spec.
    specialize (Hlo a Ea). destruct (Z.ltb_spec t' at_); [lia|]. by apply IH.
Qed.
(** The next one begins where it ends, and they are two days long. *)
Lemma zone_adjacent offset start changes t b :
  spaced start changes = true -> z_end (zone_from offset start changes t) = Some b -> z_start (zone_from offset start changes b) = Some b.
Proof.
  revert offset start. induction changes as [|[at_ next] rest IH]; intros offset start; cbn; [done|].
  intros [_ Hr]%andb_true_iff. destruct (Z.ltb_spec t at_); cbn.
  - intros [= ->]. destruct (Z.ltb_spec b b); [lia|]. destruct rest as [|[at' next'] rest]; [done|]. cbn in *.
    apply andb_true_iff in Hr as [Hr%Z.leb_le _]. by destruct (Z.ltb_spec b at'); [|lia].
  - intros Hb. pose proof Hb as Hb'. apply IH in Hb'; [|done]. destruct (Z.ltb_spec b at_); [|done].
    assert (in_zone (zone_from next (Some at_) rest t) t = true) as [_ Hin]%in_zone_spec by (apply zone_contains; by intros a [= <-]).
    specialize (Hin b Hb). lia.
Qed.
Lemma zone_long offset start changes t a b :
  spaced start changes = true -> z_start (zone_from offset start changes t) = Some a -> z_end (zone_from offset start changes t) = Some b ->
  a + 172800 <= b.
Proof.
  revert offset start. induction changes as [|[at_ next] rest IH]; intros offset start; cbn; [done|].
  intros [Hs Hr]%andb_true_iff. destruct (t <? at_); [|by apply IH]. cbn. intros -> [= <-]. by apply Z.leb_le.
Qed.
Lemma zone_offset_small offset start changes t :
  forallb small_offset (offset :: map snd changes) = true -> -86400 < z_offset (zone_from offset start changes t) < 86400.
Proof.
  revert offset start. induction changes as [|[at_ next] rest IH]; intros offset start; cbn.
  - unfold small_offset. rewrite andb_true_r. lia.
  - intros [Ho Hr]%andb_true_iff. destruct (t <? at_); [unfold small_offset in Ho; cbn; lia | by apply IH].
Qed.

Lemma day_turns_next r : day_turns r (r + 1) = true.
Proof.
  unfold day_turns. apply orb_true_iff. pose proof (Z_div_mod_eq_full r 86400). pose proof (Z.mod_pos_bound r 86400 ltac:(lia)).
  destruct (Z.eq_dec (r mod 86400) 86399); [right; lia|left]. apply andb_true_iff. split; [|lia].
  apply Z.eqb_eq. symmetry. apply (Z.div_unique_pos _ _ _ (r mod 86400 + 1)); lia.
Qed.
Lemma calm_turns offset start changes t :
  spaced start changes = true -> calm offset changes = true ->
  day_turns (t + z_offset (zone_from offset start changes t)) (t + 1 + z_offset (zone_from offset start changes (t + 1))) = true.
Proof.
  revert offset start. induction changes as [|[at_ next] rest IH]; intros offset start; cbn.
  - intros _ _. replace (t + 1 + offset) with (t + offset + 1) by lia. apply day_turns_next.
  - intros [_ Hr]%andb_true_iff [Hd Hc]%andb_true_iff. destruct (Z.ltb_spec t at_), (Z.ltb_spec (t + 1) at_); cbn; [| |lia|by apply IH].
    + replace (t + 1 + offset) with (t + offset + 1) by lia. apply day_turns_next.
    + assert (at_ = t + 1) as -> by lia. replace (t + 1 - 1 + offset) with (t + offset) in Hd by lia.
      destruct rest as [|[at' next'] rest]; [done|]. cbn in *. apply andb_true_iff in Hr as [Hr%Z.leb_le _].
      by destruct (Z.ltb_spec (t + 1) at'); [|lia].
Qed.
End Zones.

(** ** Days *)

Section Tame.
Context (loc : Location) (Htame : tame loc = true).

Lemma tame_parts : spaced None (loc_changes loc) = true /\ calm (loc_first loc) (loc_changes loc) = true /\ (forall t, -86400 < offset_at loc t < 86400).
Proof.
  unfold tame in Htame. apply andb_true_iff in Htame as [[H1 H2]%andb_true_iff H3]. split_and!; [done | done|].
  intros t. by apply zone_offset_small.
Qed.
Lemma day_step t :
  (local_day loc (t + 1) = local_day loc t /\ 86400 * local_day loc t < reading loc (t + 1)) \/
  reading loc (t + 1) = 86400 * (local_day loc t + 1).
Proof.
  destruct tame_parts as (Hs & Hc & _). pose proof (calm_turns (loc_first loc) None (loc_changes loc) t Hs Hc) as H.
  unfold day_turns in H. apply orb_true_iff in H as [[H1%Z.eqb_eq H2%Z.ltb_lt]%andb_true_iff|H%Z.eqb_eq]; [left|by right].
  split; [exact H1 | exact H2].
Qed.
Lemma reading_day t : 86400 * local_day loc t <= reading loc t < 86400 * (local_day loc t + 1).
Proof. unfold local_day. pose proof (Z_div_mod_eq_full (reading loc t) 86400). pose proof (Z.mod_pos_bound (reading loc t) 86400 ltac:(lia)). lia. Qed.
Lemma midnight_day t z : reading loc t = 86400 * z -> local_day loc t = z.
Proof. unfold local_day. intros ->. rewrite Z.mul_comm. apply Z.div_mul. lia. Qed.
Lemma local_day_next t : local_day loc t <= local_day loc (t + 1) <= local_day loc t + 1.
Proof. destruct (day_step t) as [[-> _]|H]; [lia|]. rewrite (midnight_day _ _ H). lia. Qed.
Lemma local_day_mono t t' : t <= t' -> local_day loc t <= local_day loc t'.
Proof.
  intros H. replace t' with (t + Z.of_nat (Z.to_nat (t' - t))) by lia. generalize (Z.to_nat (t' - t)) as n. induction n as [|n IH].
  - by rewrite Z.add_0_r.
  - pose proof (local_day_next (t + Z.of_nat n)). replace (t + Z.of_nat (S n)) with (t + Z.of_nat n + 1) by lia. lia.
Qed.
(** Midnight is the first instant of its day. *)
Lemma midnight_first t z : reading loc t = 86400 * z -> forall t', t' < t <-> local_day loc t' < z.
Proof.
  intros Hm t'. split; [|intros Hd; destruct (Z.lt_ge_cases t' t) as [|H]; [done|]; apply local_day_mono in H; rewrite (midnight_day _ _ Hm) in H; lia].
  intros Hlt. pose proof (local_day_mono t' (t - 1) ltac:(lia)) as H. destruct (day_step (t - 1)) as [[E1 E2]|E]; rewrite Z.sub_add in *.
  - rewrite (midnight_day _ _ Hm) in E1. lia.
  - lia.
Qed.
Lemma midnight_shown z : exists t, reading loc t = 86400 * z.
Proof.
  destruct tame_parts as (_ & _ & Hsmall).
  assert (forall n, z <= local_day loc (86400 * (z - 1) + Z.of_nat n) -> exists t, reading loc t = 86400 * z) as H.
  { induction n as [|n IH]; intros Hn.
    - pose proof (reading_day (86400 * (z - 1) + Z.of_nat 0)). specialize (Hsmall (86400 * (z - 1) + Z.of_nat 0)). unfold reading in *. lia.
    - destruct (Z.lt_ge_cases (local_day loc (86400 * (z - 1) + Z.of_nat n)) z) as [Hlt|Hge]; [|by apply IH].
      replace (86400 * (z - 1) + Z.of_nat (S n)) with (86400 * (z - 1) + Z.of_nat n + 1) in Hn by lia.
      destruct (day_step (86400 * (z - 1) + Z.of_nat n)) as [[E _]|E]; [lia|]. rewrite (midnight_day _ _ E) in Hn.
      exists (86400 * (z - 1) + Z.of_nat n + 1). rewrite E. f_equal. lia. }
  apply (H (Z.to_nat (86400 * 2))). pose proof (reading_day (86400 * (z + 1))) as Hr. specialize (Hsmall (86400 * (z + 1))).
  replace (86400 * (z - 1) + Z.of_nat (Z.to_nat (86400 * 2))) with (86400 * (z + 1)) by lia. unfold reading in *. lia.
Qed.

(** ** [time.Date] *)

Lemma at_zone t : in_zone (zone_at loc t) t = true.
Proof. by apply zone_contains. Qed.
Lemma same_zone t t' : in_zone (zone_at loc t) t' = true -> zone_at loc t' = zone_at loc t.
Proof. destruct tame_parts as (Hs & _ & _). by apply zone_shared. Qed.
(** Instants of the day after a change. *)
Lemma just_after t b t' : z_end (zone_at loc t) = Some b -> b <= t' < b + 86400 -> zone_at loc t' = zone_at loc b.
Proof.
  destruct tame_parts as (Hs & _ & _). intros Hb Ht. pose proof (zone_adjacent _ _ _ _ _ Hs Hb) as Eb. apply same_zone, in_zone_spec.
  unfold zone_at in *. rewrite Eb. split; [intros ? [= <-]; lia|]. intros c Hc. pose proof (zone_long _ _ _ _ _ _ Hs Eb Hc). lia.
Qed.
(** Instants of the day before one. *)
Lemma just_before t a t' : z_start (zone_at loc t) = Some a -> a - 86400 < t' < a -> z_end (zone_at loc t') = Some a.
Proof.
  destruct tame_parts as (Hs & _ & _). intros Ha Ht. pose proof (at_zone t) as [Hlo Hhi]%in_zone_spec. specialize (Hlo a Ha).
  pose proof (at_zone t') as [_ Hhi']%in_zone_spec.
  destruct (z_end (zone_at loc t')) as [e|] eqn:Ee.
  - specialize (Hhi' e eq_refl). destruct (Z.lt_trichotomy e a) as [Hlt|[->|Hgt]]; [|done|].
    + assert (zone_at loc a = zone_at loc t) as Esame.
      { apply same_zone, in_zone_spec. rewrite Ha. split; [intros ? [= <-]; lia|]. intros c Hc. specialize (Hhi c Hc). lia. }
      rewrite <- Esame, (just_after t' e a Ee ltac:(lia)) in Ha. pose proof (zone_adjacent _ _ _ _ _ Hs Ee) as Eb.
      unfold zone_at in Ha. rewrite Eb in Ha. injection Ha. lia.
    + assert (zone_at loc a = zone_at loc t') as E1.
      { apply same_zone, in_zone_spec. rewrite Ee. pose proof (at_zone t') as [Hlo' _]%in_zone_spec. split; [|intros ? [= <-]; lia].
        intros c Hc. specialize (Hlo' c Hc). lia. }
      assert (zone_at loc a = zone_at loc t) as E2.
      { apply same_zone, in_zone_spec. rewrite Ha. split; [intros ? [= <-]; lia|]. intros c Hc. specialize (Hhi c Hc). lia. }
      rewrite <- E2, E1 in Ha. pose proof (at_zone t') as [Hlo' _]%in_zone_spec. specialize (Hlo' a Ha). lia.
  - assert (zone_at loc a = zone_at loc t') as E1.
    { apply same_zone, in_zone_spec. rewrite Ee. pose proof (at_zone t') as [Hlo' _]%in_zone_spec. split; [|done].
      intros c Hc. specialize (Hlo' c Hc). lia. }
    assert (zone_at loc a = zone_at loc t) as E2.
    { apply same_zone, in_zone_spec. rewrite Ha. split; [intros ? [= <-]; lia|]. intros c Hc. specialize (Hhi c Hc). lia. }
    rewrite <- E2, E1 in Ha. pose proof (at_zone t') as [Hlo' _]%in_zone_spec. specialize (Hlo' a Ha). lia.
Qed.

(** A reading that the clocks show is found. *)
Lemma unix_of_reading t : reading loc (unix_of loc (reading loc t)) = reading loc t.
Proof.
  destruct tame_parts as (Hs & _ & Hsmall). set (r := reading loc t). pose proof (Hsmall r) as Hr. pose proof (Hsmall t) as Ht.
  assert (t = r - offset_at loc t) as Et by (unfold r, reading; lia).
  assert (forall u, u = r - offset_at loc r -> in_zone (zone_at loc r) u = true -> reading loc u = r) as Hin.
  { intros u -> H. unfold reading, offset_at at 2. rewrite (same_zone _ _ H). unfold offset_at. lia. }
  unfold unix_of. cbv zeta. fold (offset_at loc r). destruct (Z.eqb_spec (offset_at loc r) 0) as [E0|_].
  { apply Hin; [lia | apply at_zone]. }
  destruct (in_zone (zone_at loc r) (r - offset_at loc r)) eqn:Ein; [by apply Hin|]. set (utc := r - offset_at loc r) in *.
  assert (in_zone (zone_at loc r) t = false) as Eout.
  { destruct (in_zone (zone_at loc r) t) eqn:E; [|done]. assert (t = utc) as Eu; [|congruence].
    unfold utc, offset_at. rewrite <- (same_zone _ _ E). fold (offset_at loc t). lia. }
  assert (zone_at loc utc = zone_at loc t) as Esame; [|unfold offset_at; rewrite Esame; fold (offset_at loc t); by rewrite <- Et].
  assert (forall u, in_zone (zone_at loc r) u = false -> (exists a, z_start (zone_at loc r) = Some a /\ u < a) \/ (exists b, z_end (zone_at loc r) = Some b /\ b <= u)) as Hcase.
  { intros u. unfold in_zone. destruct (z_start (zone_at loc r)) as [a|], (z_end (zone_at loc r)) as [b|]; cbn; try done;
      rewrite ?andb_false_iff, ?Z.leb_gt, ?Z.ltb_ge, ?andb_true_r; naive_solver. }
  pose proof (at_zone r) as [Hlo Hhi]%in_zone_spec.
  assert (forall a b, z_start (zone_at loc r) = Some a -> z_end (zone_at loc r) = Some b -> a + 172800 <= b) as Hlong by (intros a b; by apply zone_long).
  destruct (Hcase utc Ein) as [(a & Ea & Hua)|(b & Eb & Hub)], (Hcase t Eout) as [(a' & Ea' & Hta)|(b' & Eb' & Htb)].
  - rewrite Ea in Ea'. injection Ea' as <-. specialize (Hlo a Ea).
    pose proof (just_before r a utc Ea ltac:(unfold utc; lia)) as E1. pose proof (just_before r a t Ea ltac:(lia)) as E2.
    pose proof (at_zone utc) as [L1 _]%in_zone_spec. pose proof (at_zone t) as [L2 _]%in_zone_spec.
    destruct (Z.le_ge_cases utc t); [symmetry|]; apply same_zone, in_zone_spec; rewrite ?E1, ?E2;
      (split; [intros c Hc; first [specialize (L1 c Hc) | specialize (L2 c Hc)]; lia | intros ? [= <-]; lia]).
  - specialize (Hlo a Ea). specialize (Hlong a b' Ea Eb'). unfold utc in Hua. lia.
  - specialize (Hhi b Eb). specialize (Hlong a' b Ea' Eb). unfold utc in Hub. lia.
  - rewrite Eb in Eb'. injection Eb' as <-. specialize (Hhi b Eb).
    rewrite (just_after r b utc Eb), (just_after r b t Eb); [done | lia | unfold utc; lia].
Qed.

(** Midnight at the beginning of a day. *)
Definition midnight (z : Z) : Z := unix_of loc (86400 * z).
Lemma reading_midnight z : reading loc (midnight z) = 86400 * z.
Proof. unfold midnight. destruct (midnight_shown z) as [t <-]. apply unix_of_reading. Qed.
Lemma local_day_midnight z : local_day loc (midnight z) = z.
Proof. apply midnight_day, reading_midnight. Qed.
Lemma before_midnight t z : t < midnight z <-> local_day loc t < z.
Proof. apply midnight_first, reading_midnight. Qed.
Lemma midnight_mono z z' : z <= z' -> midnight z <= midnight z'.
Proof. intros H. destruct (Z.le_gt_cases (midnight z) (midnight z')) as [|Hlt]; [done|]. apply before_midnight in Hlt. rewrite local_day_midnight in Hlt. lia. Qed.
End Tame.
