(* ===== verification/Schema.v ===== *)
(** * Schema: the rows and tables of the billing database

    One [Record] per gorm model of [src/model] the billing code touches, with
    the columns that code reads or writes, and [DB], the record of all tables.
    A row's soft-delete column ([gorm.DeletedAt]) is the boolean [_deleted].
    [float64] columns ([Money], [PriceAmount]) are kept as IEEE values. *)

From S2P Require Import Prelude.
From stdpp Require Import base numbers option strings list gmap.
From Stdlib Require Import ZArith Floats.SpecFloat.

Abbreviation float64 := spec_float.

(** [model/user.go], [type User]: the columns the billing code reads or writes. *)
Record User := mkUser {
  u_id : Z;
  u_username : string;
  u_email : string;
  u_quota : Z;
  u_used_quota : Z;
  u_request_count : Z;
  u_group : string;
  u_stripe_customer : string;
  u_deleted : bool
}.
#[export] Instance User_eta : Eta User :=
  fun r => mkUser (u_id r) (u_username r) (u_email r) (u_quota r) (u_used_quota r)
    (u_request_count r) (u_group r) (u_stripe_customer r) (u_deleted r).

(** [model/token.go], [type Token] (an API key). *)
Record Token := mkToken {
  tk_id : Z;
  tk_user_id : Z;
  tk_key : string;
  tk_status : Z;
  tk_name : string;
  tk_accessed_time : Z;
  tk_expired_time : Z;
  tk_remain_quota : Z;
  tk_unlimited_quota : bool;
  tk_used_quota : Z;
  tk_deleted : bool
}.
#[export] Instance Token_eta : Eta Token :=
  fun r => mkToken (tk_id r) (tk_user_id r) (tk_key r) (tk_status r) (tk_name r)
    (tk_accessed_time r) (tk_expired_time r) (tk_remain_quota r) (tk_unlimited_quota
    r) (tk_used_quota r) (tk_deleted r).

(** [model/billing_reservation.go], [type BillingReservationRecord]. *)
Record BillingReservationRecord := mkBillingReservationRecord {
  br_id : Z;
  br_request_id : string;
  br_user_id : Z;
  br_token_id : Z;
  br_unlimited_token : bool;
  br_source : string;
  br_user_subscription_id : Z;
  br_amount : Z;
  br_top_up_amount : Z;
  br_state : string;
  br_created_at : Z;
  br_updated_at : Z
}.
#[export] Instance BillingReservationRecord_eta : Eta BillingReservationRecord :=
  fun r => mkBillingReservationRecord (br_id r) (br_request_id r) (br_user_id r)
    (br_token_id r) (br_unlimited_token r) (br_source r) (br_user_subscription_id r)
    (br_amount r) (br_top_up_amount r) (br_state r) (br_created_at r) (br_updated_at
    r).

(** [model/subscription.go], [type SubscriptionPlan]. *)
Record SubscriptionPlan := mkSubscriptionPlan {
  pl_id : Z;
  pl_title : string;
  pl_price_amount : float64;
  pl_duration_unit : string;
  pl_duration_value : Z;
  pl_custom_seconds : Z;
  pl_enabled : bool;
  pl_allow_balance_pay : option bool;
  pl_allow_wallet_overflow : option bool;
  pl_max_purchase_per_user : Z;
  pl_upgrade_group : string;
  pl_downgrade_group : string;
  pl_total_amount : Z;
  pl_quota_reset_period : string;
  pl_quota_reset_custom_seconds : Z
}.
#[export] Instance SubscriptionPlan_eta : Eta SubscriptionPlan :=
  fun r => mkSubscriptionPlan (pl_id r) (pl_title r) (pl_price_amount r)
    (pl_duration_unit r) (pl_duration_value r) (pl_custom_seconds r) (pl_enabled r)
    (pl_allow_balance_pay r) (pl_allow_wallet_overflow r) (pl_max_purchase_per_user
    r) (pl_upgrade_group r) (pl_downgrade_group r) (pl_total_amount r)
    (pl_quota_reset_period r) (pl_quota_reset_custom_seconds r).

(** [model/subscription.go], [type UserSubscription]. *)
Record UserSubscription := mkUserSubscription {
  us_id : Z;
  us_user_id : Z;
  us_plan_id : Z;
  us_amount_total : Z;
  us_amount_used : Z;
  us_start_time : Z;
  us_end_time : Z;
  us_status : string;
  us_source : string;
  us_last_reset_time : Z;
  us_next_reset_time : Z;
  us_upgrade_group : string;
  us_prev_user_group : string;
  us_downgrade_group : string;
  us_allow_wallet_overflow : bool;
  us_created_at : Z;
  us_updated_at : Z
}.
#[export] Instance UserSubscription_eta : Eta UserSubscription :=
  fun r => mkUserSubscription (us_id r) (us_user_id r) (us_plan_id r) (us_amount_total
    r) (us_amount_used r) (us_start_time r) (us_end_time r) (us_status r) (us_source
    r) (us_last_reset_time r) (us_next_reset_time r) (us_upgrade_group r)
    (us_prev_user_group r) (us_downgrade_group r) (us_allow_wallet_overflow r)
    (us_created_at r) (us_updated_at r).

(** [model/subscription.go], [type SubscriptionPreConsumeRecord]. *)
Record SubscriptionPreConsumeRecord := mkSubscriptionPreConsumeRecord {
  pc_id : Z;
  pc_request_id : string;
  pc_user_id : Z;
  pc_user_subscription_id : Z;
  pc_pre_consumed : Z;
  pc_status : string;
  pc_created_at : Z;
  pc_updated_at : Z
}.
#[export] Instance SubscriptionPreConsumeRecord_eta : Eta SubscriptionPreConsumeRecord :=
  fun r => mkSubscriptionPreConsumeRecord (pc_id r) (pc_request_id r) (pc_user_id r)
    (pc_user_subscription_id r) (pc_pre_consumed r) (pc_status r) (pc_created_at r)
    (pc_updated_at r).

(** [model/subscription.go], [type SubscriptionOrder]. *)
Record SubscriptionOrder := mkSubscriptionOrder {
  so_id : Z;
  so_user_id : Z;
  so_plan_id : Z;
  so_money : float64;
  so_trade_no : string;
  so_payment_method : string;
  so_payment_provider : string;
  so_status : string;
  so_create_time : Z;
  so_complete_time : Z;
  so_provider_payload : string
}.
#[export] Instance SubscriptionOrder_eta : Eta SubscriptionOrder :=
  fun r => mkSubscriptionOrder (so_id r) (so_user_id r) (so_plan_id r) (so_money r)
    (so_trade_no r) (so_payment_method r) (so_payment_provider r) (so_status r)
    (so_create_time r) (so_complete_time r) (so_provider_payload r).

(** [model/topup.go], [type TopUp]. *)
Record TopUp := mkTopUp {
  tu_id : Z;
  tu_user_id : Z;
  tu_amount : Z;
  tu_money : float64;
  tu_trade_no : string;
  tu_payment_method : string;
  tu_payment_provider : string;
  tu_create_time : Z;
  tu_complete_time : Z;
  tu_status : string
}.
#[export] Instance TopUp_eta : Eta TopUp :=
  fun r => mkTopUp (tu_id r) (tu_user_id r) (tu_amount r) (tu_money r) (tu_trade_no r)
    (tu_payment_method r) (tu_payment_provider r) (tu_create_time r)
    (tu_complete_time r) (tu_status r).

(** [model/redemption.go], [type Redemption]. *)
Record Redemption := mkRedemption {
  rd_id : Z;
  rd_user_id : Z;
  rd_key : string;
  rd_status : Z;
  rd_name : string;
  rd_quota : Z;
  rd_created_time : Z;
  rd_redeemed_time : Z;
  rd_used_user_id : Z;
  rd_deleted : bool;
  rd_expired_time : Z
}.
#[export] Instance Redemption_eta : Eta Redemption :=
  fun r => mkRedemption (rd_id r) (rd_user_id r) (rd_key r) (rd_status r) (rd_name r)
    (rd_quota r) (rd_created_time r) (rd_redeemed_time r) (rd_used_user_id r)
    (rd_deleted r) (rd_expired_time r).

(** [model/wildflow_operation.go], [type WildFlowOperation]. *)
Record WildFlowOperation := mkWildFlowOperation {
  op_id : Z;
  op_operation_id : string;
  op_user_id : Z;
  op_token_id : Z;
  op_idempotency_key_digest : string;
  op_request_digest : string;
  op_request_id : string;
  op_product_model_ref : string;
  op_model_version_ref : string;
  op_task_id : string;
  op_job_id : string;
  op_state : string;
  op_last_error_code : string;
  op_billing_state : string;
  op_billing_source : string;
  op_billing_subscription_id : Z;
  op_billing_quota : Z;
  op_billing_token_quota : Z;
  op_billing_currency : string;
  op_billing_amount_micros : Z;
  op_billing_unit : string;
  op_billing_billable_units : Z;
  op_billing_quota_per_unit : string;
  op_billing_usd_exchange_rate : string;
  op_billing_price_version : string;
  op_billing_usage_event_id : string;
  op_billing_settled_time : Z;
  op_result_json : string;
  op_result_validated_time : Z;
  op_result_retention_seconds : Z;
  op_result_expires_at : Z;
  op_submission_phase : string;
  op_submission_owner : string;
  op_submission_lease_token : string;
  op_submission_lease_expires_at : Z;
  op_submission_retry_until : Z;
  op_submission_attempt : Z;
  op_submission_started_time : Z;
  op_created_time : Z;
  op_updated_time : Z
}.
#[export] Instance WildFlowOperation_eta : Eta WildFlowOperation :=
  fun r => mkWildFlowOperation (op_id r) (op_operation_id r) (op_user_id r)
    (op_token_id r) (op_idempotency_key_digest r) (op_request_digest r)
    (op_request_id r) (op_product_model_ref r) (op_model_version_ref r) (op_task_id
    r) (op_job_id r) (op_state r) (op_last_error_code r) (op_billing_state r)
    (op_billing_source r) (op_billing_subscription_id r) (op_billing_quota r)
    (op_billing_token_quota r) (op_billing_currency r) (op_billing_amount_micros r)
    (op_billing_unit r) (op_billing_billable_units r) (op_billing_quota_per_unit r)
    (op_billing_usd_exchange_rate r) (op_billing_price_version r)
    (op_billing_usage_event_id r) (op_billing_settled_time r) (op_result_json r)
    (op_result_validated_time r) (op_result_retention_seconds r)
    (op_result_expires_at r) (op_submission_phase r) (op_submission_owner r)
    (op_submission_lease_token r) (op_submission_lease_expires_at r)
    (op_submission_retry_until r) (op_submission_attempt r)
    (op_submission_started_time r) (op_created_time r) (op_updated_time r).

(** [model/wildflow_usage_event.go], [type WildFlowUsageEvent]; instants are Unix milliseconds. *)
Record WildFlowUsageEvent := mkWildFlowUsageEvent {
  ue_event_id : string;
  ue_aggregate_type : string;
  ue_aggregate_id : string;
  ue_event_type : string;
  ue_payload_digest : string;
  ue_operation_id : string;
  ue_job_id : string;
  ue_attempt_id : string;
  ue_model_version_ref : string;
  ue_channel_type : string;
  ue_kind : string;
  ue_quantity : Z;
  ue_unit : string;
  ue_started_at : Z;
  ue_ended_at : Z;
  ue_evidence_ref : string;
  ue_ingest_token : string;
  ue_ingested_at : Z;
  ue_created_time : Z
}.
#[export] Instance WildFlowUsageEvent_eta : Eta WildFlowUsageEvent :=
  fun r => mkWildFlowUsageEvent (ue_event_id r) (ue_aggregate_type r) (ue_aggregate_id
    r) (ue_event_type r) (ue_payload_digest r) (ue_operation_id r) (ue_job_id r)
    (ue_attempt_id r) (ue_model_version_ref r) (ue_channel_type r) (ue_kind r)
    (ue_quantity r) (ue_unit r) (ue_started_at r) (ue_ended_at r) (ue_evidence_ref
    r) (ue_ingest_token r) (ue_ingested_at r)
    (ue_created_time r).

(** [model/wildflow_billing_log.go], [type WildFlowBillingLogEntry]. *)
Record WildFlowBillingLogEntry := mkWildFlowBillingLogEntry {
  le_operation_id : string;
  le_log_type : Z;
  le_usage_event_id : string;
  le_billing_source : string;
  le_billing_quota : Z;
  le_billing_currency : string;
  le_billing_amount_micros : Z;
  le_content : string;
  le_projection_state : string;
  le_projection_attempts : Z;
  le_projection_last_error : string;
  le_projection_claim_token : string;
  le_projection_lease_expires_at : Z;
  le_projected_time : Z;
  le_created_time : Z
}.
#[export] Instance WildFlowBillingLogEntry_eta : Eta WildFlowBillingLogEntry :=
  fun r => mkWildFlowBillingLogEntry (le_operation_id r) (le_log_type r)
    (le_usage_event_id r) (le_billing_source r) (le_billing_quota r)
    (le_billing_currency r) (le_billing_amount_micros r) (le_content r)
    (le_projection_state r) (le_projection_attempts r) (le_projection_last_error r)
    (le_projection_claim_token r) (le_projection_lease_expires_at r)
    (le_projected_time r) (le_created_time r).

(** [model/wildflow_billing_log.go], [type WildFlowBillingLogProjectionReceipt]. *)
Record WildFlowBillingLogProjectionReceipt := mkWildFlowBillingLogProjectionReceipt {
  rc_operation_id : string;
  rc_log_type : Z;
  rc_projected : bool;
  rc_created_time : Z;
  rc_projected_time : Z
}.
#[export] Instance WildFlowBillingLogProjectionReceipt_eta : Eta WildFlowBillingLogProjectionReceipt :=
  fun r => mkWildFlowBillingLogProjectionReceipt (rc_operation_id r) (rc_log_type r)
    (rc_projected r) (rc_created_time r) (rc_projected_time r).

(** The JSON object a text column holds, with its keys in encoding order. *)
Inductive json_scalar := JStr (s : string) | JInt (n : Z).
Abbreviation json_object := (list (string * json_scalar)).

(** [model/log.go], [type Log]: its stored columns ([ChannelName] is not stored). *)
Record Log := mkLog {
  lg_id : Z;
  lg_user_id : Z;
  lg_created_at : Z;
  lg_type : Z;
  lg_content : string;
  lg_username : string;
  lg_token_name : string;
  lg_model_name : string;
  lg_quota : Z;
  lg_prompt_tokens : Z;
  lg_completion_tokens : Z;
  lg_use_time : Z;
  lg_is_stream : bool;
  lg_channel_id : Z;
  lg_token_id : Z;
  lg_group : string;
  lg_ip : string;
  lg_request_id : string;
  lg_upstream_request_id : string;
  lg_other : json_object
}.
#[export] Instance Log_eta : Eta Log :=
  fun r => mkLog (lg_id r) (lg_user_id r) (lg_created_at r) (lg_type r) (lg_content r)
    (lg_username r) (lg_token_name r) (lg_model_name r) (lg_quota r) (lg_prompt_tokens r)
    (lg_completion_tokens r) (lg_use_time r) (lg_is_stream r) (lg_channel_id r)
    (lg_token_id r) (lg_group r) (lg_ip r) (lg_request_id r) (lg_upstream_request_id r)
    (lg_other r).

(** [relay/common/relay_info.go], [type TaskInfo]: what a provider reports of a task.
    A usage fact is kept as its JSON text. *)
Record TaskInfo := mkTaskInfo {
  ti_status : string;
  ti_reason : string;
  ti_url : string;
  ti_progress : string;
  ti_completion_tokens : Z;
  ti_total_tokens : Z;
  ti_usage_facts : gmap string string;
  ti_plugin_state : string
}.
#[export] Instance TaskInfo_eta : Eta TaskInfo :=
  fun r => mkTaskInfo (ti_status r) (ti_reason r) (ti_url r) (ti_progress r)
    (ti_completion_tokens r) (ti_total_tokens r) (ti_usage_facts r) (ti_plugin_state r).

(** [pkg/billingexpr/types.go], [type BillingSnapshot]: the fields settlement reads. *)
Record BillingSnapshot := mkBillingSnapshot {
  bs_expr_string : string;
  bs_expr_hash : string;
  bs_group_ratio : float64;
  bs_estimated_tier : string;
  bs_quota_per_unit : float64;
  bs_expr_version : Z;
  bs_task_usage_billing : bool;
  bs_usage_facts : gmap string string
}.
#[export] Instance BillingSnapshot_eta : Eta BillingSnapshot :=
  fun r => mkBillingSnapshot (bs_expr_string r) (bs_expr_hash r) (bs_group_ratio r)
    (bs_estimated_tier r) (bs_quota_per_unit r) (bs_expr_version r) (bs_task_usage_billing r)
    (bs_usage_facts r).

(** [model/task.go], [type TaskBillingContext]. *)
Record TaskBillingContext := mkTaskBillingContext {
  bc_model_price : float64;
  bc_group_ratio : float64;
  bc_model_ratio : float64;
  bc_other_ratios : gmap string float64;
  bc_origin_model_name : string;
  bc_per_call_billing : bool;
  bc_tiered_snapshot : option BillingSnapshot
}.
#[export] Instance TaskBillingContext_eta : Eta TaskBillingContext :=
  fun r => mkTaskBillingContext (bc_model_price r) (bc_group_ratio r) (bc_model_ratio r)
    (bc_other_ratios r) (bc_origin_model_name r) (bc_per_call_billing r) (bc_tiered_snapshot r).

(** [model/task.go], [type Task], with the columns of [Properties] and the fields of
    [TaskPrivateData]; a stored artifact is its object key. *)
Record Task := mkTask {
  ta_id : Z;
  ta_task_id : string;
  ta_platform : string;
  ta_user_id : Z;
  ta_group : string;
  ta_channel_id : Z;
  ta_quota : Z;
  ta_action : string;
  ta_status : string;
  ta_fail_reason : string;
  ta_submit_time : Z;
  ta_start_time : Z;
  ta_finish_time : Z;
  ta_progress : string;
  (* Properties *)
  ta_upstream_model_name : string;
  ta_origin_model_name : string;
  ta_data : string;
  (* PrivateData *)
  ta_image_completion : option TaskInfo;
  ta_stored_artifacts : gmap string string;
  ta_upstream_task_id : string;
  ta_result_url : string;
  ta_billing_source : string;
  ta_subscription_id : Z;
  ta_token_id : Z;
  ta_node_name : string;
  ta_billing_context : option TaskBillingContext;
  ta_plugin_state : string;
  ta_poll_failures : Z;
  ta_consumption_log : option Log
}.
#[export] Instance Task_eta : Eta Task :=
  fun r => mkTask (ta_id r) (ta_task_id r) (ta_platform r) (ta_user_id r) (ta_group r)
    (ta_channel_id r) (ta_quota r) (ta_action r) (ta_status r) (ta_fail_reason r)
    (ta_submit_time r) (ta_start_time r) (ta_finish_time r) (ta_progress r)
    (ta_upstream_model_name r) (ta_origin_model_name r) (ta_data r) (ta_image_completion r)
    (ta_stored_artifacts r) (ta_upstream_task_id r) (ta_result_url r) (ta_billing_source r)
    (ta_subscription_id r) (ta_token_id r) (ta_node_name r) (ta_billing_context r)
    (ta_plugin_state r) (ta_poll_failures r) (ta_consumption_log r).

(** [relaykit/dto/channel_settings.go], the parts of a route that select it. *)
Record AdvancedCustomRoute := mkAdvancedCustomRoute {
  ar_IncomingPath : string;
  ar_Models : list string
}.

(** [model/channel.go], [type ChannelInfo]; a nil map is the empty one. *)
Record ChannelInfo := mkChannelInfo {
  ci_IsMultiKey : bool;
  ci_MultiKeySize : Z;
  ci_MultiKeyStatusList : gmap Z Z;
  ci_MultiKeyDisabledReason : gmap Z string;
  ci_MultiKeyDisabledTime : gmap Z Z;
  ci_MultiKeyPollingIndex : Z;
  ci_MultiKeyMode : string
}.
#[export] Instance ChannelInfo_eta : Eta ChannelInfo :=
  fun r => mkChannelInfo (ci_IsMultiKey r) (ci_MultiKeySize r) (ci_MultiKeyStatusList r)
    (ci_MultiKeyDisabledReason r) (ci_MultiKeyDisabledTime r) (ci_MultiKeyPollingIndex r)
    (ci_MultiKeyMode r).

(** [model/channel.go], [type Channel]: the columns that routing and billing
    use.  The JSON columns [setting] and [settings] are represented by the one
    value routing reads in each; [Keys] is not stored. *)
Record Channel := mkChannel {
  ch_id : Z;
  ch_type : Z;
  ch_key : string;
  ch_status : Z;
  ch_weight : option Z;
  ch_models : string;
  ch_group : string;
  ch_used_quota : Z;
  ch_priority : option Z;
  ch_auto_ban : option Z;
  ch_other_info : json_object;
  ch_tag : option string;
  ch_channel_info : ChannelInfo;
  ch_task_plugin_key : string;
  ch_advanced_custom : option (list AdvancedCustomRoute);
  ch_keys : list string
}.
#[export] Instance Channel_eta : Eta Channel :=
  fun r => mkChannel (ch_id r) (ch_type r) (ch_key r) (ch_status r) (ch_weight r) (ch_models r)
    (ch_group r) (ch_used_quota r) (ch_priority r) (ch_auto_ban r) (ch_other_info r) (ch_tag r)
    (ch_channel_info r) (ch_task_plugin_key r) (ch_advanced_custom r) (ch_keys r).

(** [model/ability.go], [type Ability]. *)
Record Ability := mkAbility {
  ab_group : string;
  ab_model : string;
  ab_channel_id : Z;
  ab_enabled : bool;
  ab_priority : option Z;
  ab_weight : Z;
  ab_tag : option string
}.
#[export] Instance Ability_eta : Eta Ability :=
  fun r => mkAbility (ab_group r) (ab_model r) (ab_channel_id r) (ab_enabled r) (ab_priority r)
    (ab_weight r) (ab_tag r).

(** The tables, each in primary-key order. [receipts] and [logs] live in the log database. *)
Record DB := mkDB {
  db_users : list User;
  db_tokens : list Token;
  db_reservations : list BillingReservationRecord;
  db_plans : list SubscriptionPlan;
  db_subs : list UserSubscription;
  db_pre_consumes : list SubscriptionPreConsumeRecord;
  db_orders : list SubscriptionOrder;
  db_topups : list TopUp;
  db_redemptions : list Redemption;
  db_operations : list WildFlowOperation;
  db_usage_events : list WildFlowUsageEvent;
  db_log_entries : list WildFlowBillingLogEntry;
  db_receipts : list WildFlowBillingLogProjectionReceipt;
  db_logs : list Log;
  db_tasks : list Task;
  db_channels : list Channel;
  db_abilities : list Ability
}.
#[export] Instance DB_eta : Eta DB :=
  fun r => mkDB (db_users r) (db_tokens r) (db_reservations r) (db_plans r) (db_subs
    r) (db_pre_consumes r) (db_orders r) (db_topups r) (db_redemptions r)
    (db_operations r) (db_usage_events r) (db_log_entries r) (db_receipts r)
    (db_logs r) (db_tasks r) (db_channels r) (db_abilities r).

