(* ===== verification/Store.v ===== *)
(** * Store: database statements, transactions and their logic

    Every operation of the program's [model] package is a computation of the
    monad [M]: it reads an environment (clock, configuration, plan cache), runs
    over the state [St] (the tables, the outcomes the driver has in store for
    the coming statements, the side effects emitted so far) and returns a value
    or a Go error.  Each SQL statement first consumes one driver outcome, so a
    theorem quantified over the initial [St] covers a failure of any statement,
    of [BEGIN] and of [COMMIT].  A transaction restores the tables on error.

    What is idealised: a transaction runs without interference (the row locks
    and the compare-and-swap updates of the source serialise conflicting ones),
    a column holds an unbounded integer (Go-side arithmetic does wrap, see
    [Prelude.i64]), and one operation sees one clock value. *)

From S2P Require Import Prelude Calendar Schema.
From stdpp Require Import base numbers option strings list.
From Stdlib Require Import ZArith Lia.
Open Scope Z_scope.

(** ** Errors *)

Inductive fault := FLocked | FDriver.

Inductive Err :=
  | ErrRecordNotFound
  | ErrDuplicatedKey
  | ErrDriver (k : fault)
  (* model/billing_reservation.go *)
  | ErrInsufficientUserQuota
  | ErrInsufficientTokenQuota
  | ErrNoActiveSubscription
  | ErrSubscriptionQuotaInsufficient
  | ErrBillingReservationNotFound
  | ErrBillingReservationStateConflict
  (* model/wildflow_billing.go *)
  | ErrWildFlowBillingStateConflict
  | ErrWildFlowInsufficientUserQuota
  | ErrWildFlowInsufficientTokenQuota
  | ErrWildFlowClickHouseProjectionUnsupported
  | ErrWildFlowBillingInsufficientQuota
  | ErrWildFlowUsageEventConflict
  | ErrWildFlowUsageEventUnknown
  | ErrWildFlowUsageEventInvalid
  | ErrWildFlowJourneyConcurrentInsert  (* model/wildflow_journey_receipt.go *)
  (* model/subscription.go, model/topup.go, model/redemption.go *)
  | ErrSubscriptionOrderNotFound
  | ErrSubscriptionOrderStatusInvalid
  | ErrPaymentMethodMismatch
  | ErrTopUpNotFound
  | ErrTopUpStatusInvalid
  | ErrInvalidTopUpQuota
  | ErrTopUpQuotaLimitExceeded
  | ErrWalletQuotaLimitExceeded
  | ErrRedeemFailed
  (* a loop of the source that does not end *)
  | ErrDiverges
  (* [errors.New(s)], [fmt.Errorf] with [%w], [errors.Join] *)
  | EText (s : string)
  | EWrap (pre : string) (inner : Err) (post : string)
  | EJoin (first second : Err).

#[export] Instance fault_eq_dec : EqDecision fault.
Proof. solve_decision. Defined.
#[export] Instance Err_eq_dec : EqDecision Err.
Proof. solve_decision. Defined.

(** [errors.Is]. *)
Fixpoint is_err (e target : Err) : bool :=
  bool_decide (e = target) ||
  match e with
  | EWrap _ inner _ => is_err inner target
  | EJoin first second => is_err first target || is_err second target
  | _ => false
  end.

(** gorm refuses an UPDATE without a condition, as one of a row without its
    primary key. *)
Definition ErrMissingWhereClause : Err := EText "WHERE conditions required".

(** [err.Error()], for the places where the source looks inside the text. *)
Fixpoint err_text (e : Err) : string :=
  match e with
  | ErrRecordNotFound => "record not found"
  | ErrDuplicatedKey => "duplicated key not allowed"
  | ErrDriver FLocked => "database table is locked"
  | ErrDriver FDriver => "driver: bad connection"
  | ErrInsufficientUserQuota => "账户可用余额不足"
  | ErrInsufficientTokenQuota => "令牌可用额度不足"
  | ErrNoActiveSubscription => "no active subscription"
  | ErrSubscriptionQuotaInsufficient => "subscription quota insufficient"
  | ErrBillingReservationNotFound => "billing reservation not found"
  | ErrBillingReservationStateConflict => "billing reservation state conflict"
  | ErrWildFlowBillingStateConflict => "WildFlow billing state conflict"
  | ErrWildFlowInsufficientUserQuota => "insufficient user quota"
  | ErrWildFlowInsufficientTokenQuota => "insufficient token quota"
  | ErrWildFlowClickHouseProjectionUnsupported =>
      "ClickHouse does not provide the transactional idempotency required for WildFlow billing log projection"
  | ErrWildFlowBillingInsufficientQuota => "insufficient quota for WildFlow job"
  | ErrWildFlowUsageEventConflict => "WildFlow usage event identity conflict"
  | ErrWildFlowUsageEventUnknown => "WildFlow usage event does not match an operation"
  | ErrWildFlowUsageEventInvalid => "WildFlow usage event is invalid"
  | ErrWildFlowJourneyConcurrentInsert => "WildFlow journey receipt was inserted concurrently"
  | ErrSubscriptionOrderNotFound => "subscription order not found"
  | ErrSubscriptionOrderStatusInvalid => "subscription order status invalid"
  | ErrPaymentMethodMismatch => "payment method mismatch"
  | ErrTopUpNotFound => "topup not found"
  | ErrTopUpStatusInvalid => "topup status invalid"
  | ErrInvalidTopUpQuota => "invalid top-up quota"
  | ErrTopUpQuotaLimitExceeded => "top-up quota limit exceeded"
  | ErrWalletQuotaLimitExceeded => "wallet quota limit exceeded"
  | ErrRedeemFailed => "redeem.failed"
  | ErrDiverges => EmptyString
  | EText s => s
  | EWrap pre inner post => pre ++ err_text inner ++ post
  | EJoin first second => err_text first ++ String (Ascii.ascii_of_nat 10) EmptyString ++ err_text second
  end.

(** ** Side effects outside the database, in the order they are emitted *)

Inductive effect :=
  | EffUserQuotaCache (user_id delta : Z)       (* HINCRBY on the user hash *)
  | EffTokenQuotaCache (key : string) (delta : Z)
  | EffTokenQuotaCacheGuarded (token_id : Z) (key : string) (delta : Z)
  | EffBatchUserQuota (user_id delta : Z)       (* addNewRecord *)
  | EffBatchTokenQuota (token_id delta : Z)
  | EffBatchUsedQuota (user_id delta : Z)
  | EffBatchRequestCount (user_id delta : Z)
  | EffBatchChannelUsedQuota (channel_id delta : Z)
  | EffQuotaData (user_id quota : Z)            (* LogQuotaData, the dashboard cache *)
  | EffUserGroupCacheRefresh (user_id : Z)
  | EffRecordLog (user_id log_type : Z).

(** ** The monad *)

Record Env := mkEnv {
  env_now : Z;                   (* Unix seconds, application and database *)
  env_tz : Location;             (* time.Local *)
  env_redis : bool;              (* common.RedisEnabled *)
  env_batch : bool;              (* common.BatchUpdateEnabled *)
  env_sqlite : bool;             (* the main database is SQLite *)
  env_log_clickhouse : bool;     (* the log database is ClickHouse *)
  env_log_db : bool;             (* LOG_DB <> nil *)
  env_log_consume : bool;        (* common.LogConsumeEnabled *)
  env_data_export : bool;        (* common.DataExportEnabled *)
  env_quota_per_unit : float64;  (* common.QuotaPerUnit *)
  env_plan_cache : Z -> option SubscriptionPlan;
  env_user_quota_cache : Z -> Err + Z (* getUserQuotaCache *)
}.

Record St := mkSt {
  st_db : DB;
  st_faults : list (option fault);
  st_trace : list effect
}.

Abbreviation result A := (sum Err A).

Definition M (A : Type) : Type := Env -> St -> result A * St.

#[export] Instance M_ret : MRet M := fun A a _ s => (inr a, s).
#[export] Instance M_bind : MBind M := fun A B f m e s =>
  match m e s with
  | (inl err, s') => (inl err, s')
  | (inr a, s') => f a e s'
  end.

Definition raise {A} (err : Err) : M A := fun _ s => (inl err, s).
(** [v, err := m]: the error becomes a value. *)
Definition attempt {A} (m : M A) : M (result A) := fun e s =>
  let '(r, s') := m e s in (inr r, s').
Definition lift {A} (r : result A) : M A := fun _ s => (r, s).
Definition ask {A} (f : Env -> A) : M A := fun e s => (inr (f e), s).
Definition emit (ef : effect) : M unit := fun _ s =>
  (inr tt, mkSt (st_db s) (st_faults s) (st_trace s ++ [ef])).
Definition when (b : bool) (m : M unit) : M unit := if b then m else mret tt.
Definition guard_err (b : bool) (err : Err) : M unit := if b then raise err else mret tt.

(** [common.GetTimestamp] and [GetDBTimestamp]. *)
Definition GetTimestamp : M Z := ask env_now.

Fixpoint for_each {A} (f : A -> M unit) (l : list A) : M unit :=
  match l with
  | [] => mret tt
  | x :: l' => f x ;; for_each f l'
  end.

(** ** Statements *)

(** One round trip to the database: the driver may fail it. *)
Definition stmt {A} (f : DB -> result A * DB) : M A := fun _ s =>
  match st_faults s with
  | Some k :: fs => (inl (ErrDriver k), mkSt (st_db s) fs (st_trace s))
  | None :: fs => let '(r, d) := f (st_db s) in (r, mkSt d fs (st_trace s))
  | [] => let '(r, d) := f (st_db s) in (r, mkSt d [] (st_trace s))
  end.

(** A table: its rows, whether a new row violates one of its unique indexes,
    whether two rows have the same primary key, and how an auto-increment key
    is assigned. *)
Record Table (R : Type) := mkTable {
  t_get : DB -> list R;
  t_set : list R -> DB -> DB;
  t_clash : R -> R -> bool;
  t_same : R -> R -> bool;
  t_assign : list R -> R -> R
}.
Arguments t_get {R}. Arguments t_set {R}. Arguments t_clash {R}.
Arguments t_same {R}. Arguments t_assign {R}.

Definition next_id {R} (id : R -> Z) (rows : list R) : Z :=
  1 + List.fold_right (fun r m => Z.max (id r) m) 0 rows.

Section Statements.
Context {R : Type} (T : Table R).

(** [Where(p).First(&row)]: first by primary key. *)
Definition find_first (p : R -> bool) : M R := stmt (fun d =>
  match List.find p (t_get T d) with
  | Some r => (inr r, d)
  | None => (inl ErrRecordNotFound, d)
  end).

(** [Where(p).Limit(1).Find(&row)] without an order. *)
Definition find_opt (p : R -> bool) : M (option R) := stmt (fun d =>
  (inr (List.find p (t_get T d)), d)).

(** [Where(p).Order(...).First(&row)]: the least row in the given order. *)
Definition find_first_by (before : R -> R -> bool) (p : R -> bool) : M R := stmt (fun d =>
  match List.filter p (t_get T d) with
  | [] => (inl ErrRecordNotFound, d)
  | r :: rest => (inr (List.fold_left (fun m x => if before x m then x else m) rest r), d)
  end).

(** [Where(p).Find(&rows)]. *)
Definition find_all (p : R -> bool) : M (list R) := stmt (fun d =>
  (inr (List.filter p (t_get T d)), d)).

Definition count (p : R -> bool) : M Z := stmt (fun d =>
  (inr (Z.of_nat (length (List.filter p (t_get T d)))), d)).

(** [UPDATE ... SET f WHERE p]; the result is RowsAffected. *)
Definition update (p : R -> bool) (f : R -> R) : M Z := stmt (fun d =>
  (inr (Z.of_nat (length (List.filter p (t_get T d)))),
   t_set T (List.map (fun r => if p r then f r else r) (t_get T d)) d)).

(** [Create(&row)]: the stored row is returned. *)
Definition create (r : R) : M R := stmt (fun d =>
  let r' := t_assign T (t_get T d) r in
  if List.existsb (t_clash T r') (t_get T d) then (inl ErrDuplicatedKey, d)
  else (inr r', t_set T (t_get T d ++ [r']) d)).

(** [Clauses(OnConflict{DoNothing: true}).Create(&row)]: RowsAffected > 0. *)
Definition create_or_ignore (r : R) : M bool := stmt (fun d =>
  let r' := t_assign T (t_get T d) r in
  if List.existsb (t_clash T r') (t_get T d) then (inr false, d)
  else (inr true, t_set T (t_get T d ++ [r']) d)).

(** [Save(&row)]: update every column by primary key, insert if absent. *)
Definition save (r : R) : M unit := stmt (fun d =>
  (inr tt,
   t_set T (if List.existsb (t_same T r) (t_get T d)
            then List.map (fun r' => if t_same T r r' then r else r') (t_get T d)
            else t_get T d ++ [r]) d)).

Definition delete_where (p : R -> bool) : M Z := stmt (fun d =>
  (inr (Z.of_nat (length (List.filter p (t_get T d)))),
   t_set T (List.filter (fun r => negb (p r)) (t_get T d)) d)).
End Statements.

Definition begin_or_commit : M unit := stmt (fun d => (inr tt, d)).

(** [DB.Transaction(func(tx) error {...})]: any error, a failing [COMMIT]
    included, restores the tables.  Emitted effects are not undone. *)
Definition transaction {A} (body : M A) : M A := fun e s =>
  match begin_or_commit e s with
  | (inl err, s1) => (inl err, s1)
  | (inr _, s1) =>
      match body e s1 with
      | (inl err, s2) => (inl err, mkSt (st_db s) (st_faults s2) (st_trace s2))
      | (inr a, s2) =>
          match begin_or_commit e s2 with
          | (inl err, s3) => (inl err, mkSt (st_db s) (st_faults s3) (st_trace s3))
          | (inr _, s3) => (inr a, s3)
          end
      end
  end.

(** ** The tables of [Schema.DB] *)

Definition assign_id {R} (id : R -> Z) (set : Z -> R -> R) (rows : list R) (r : R) : R :=
  if id r =? 0 then set (next_id id rows) r else r.

Definition Users : Table User :=
  mkTable User db_users (fun l d => d <| db_users := l |>)
    (fun a b => u_id a =? u_id b) (fun a b => u_id a =? u_id b)
    (assign_id u_id (fun i r => r <| u_id := i |>)).
Definition Tokens : Table Token :=
  mkTable Token db_tokens (fun l d => d <| db_tokens := l |>)
    (fun a b => (tk_id a =? tk_id b) || str_eqb (tk_key a) (tk_key b))
    (fun a b => tk_id a =? tk_id b)
    (assign_id tk_id (fun i r => r <| tk_id := i |>)).
Definition Reservations : Table BillingReservationRecord :=
  mkTable BillingReservationRecord db_reservations (fun l d => d <| db_reservations := l |>)
    (fun a b => (br_id a =? br_id b) || str_eqb (br_request_id a) (br_request_id b))
    (fun a b => br_id a =? br_id b)
    (assign_id br_id (fun i r => r <| br_id := i |>)).
Definition Plans : Table SubscriptionPlan :=
  mkTable SubscriptionPlan db_plans (fun l d => d <| db_plans := l |>)
    (fun a b => pl_id a =? pl_id b) (fun a b => pl_id a =? pl_id b)
    (assign_id pl_id (fun i r => r <| pl_id := i |>)).
Definition Subscriptions : Table UserSubscription :=
  mkTable UserSubscription db_subs (fun l d => d <| db_subs := l |>)
    (fun a b => us_id a =? us_id b) (fun a b => us_id a =? us_id b)
    (assign_id us_id (fun i r => r <| us_id := i |>)).
Definition PreConsumes : Table SubscriptionPreConsumeRecord :=
  mkTable SubscriptionPreConsumeRecord db_pre_consumes (fun l d => d <| db_pre_consumes := l |>)
    (fun a b => (pc_id a =? pc_id b) || str_eqb (pc_request_id a) (pc_request_id b))
    (fun a b => pc_id a =? pc_id b)
    (assign_id pc_id (fun i r => r <| pc_id := i |>)).
Definition Orders : Table SubscriptionOrder :=
  mkTable SubscriptionOrder db_orders (fun l d => d <| db_orders := l |>)
    (fun a b => (so_id a =? so_id b) || str_eqb (so_trade_no a) (so_trade_no b))
    (fun a b => so_id a =? so_id b)
    (assign_id so_id (fun i r => r <| so_id := i |>)).
Definition TopUps : Table TopUp :=
  mkTable TopUp db_topups (fun l d => d <| db_topups := l |>)
    (fun a b => (tu_id a =? tu_id b) || str_eqb (tu_trade_no a) (tu_trade_no b))
    (fun a b => tu_id a =? tu_id b)
    (assign_id tu_id (fun i r => r <| tu_id := i |>)).
Definition Redemptions : Table Redemption :=
  mkTable Redemption db_redemptions (fun l d => d <| db_redemptions := l |>)
    (fun a b => (rd_id a =? rd_id b) || str_eqb (rd_key a) (rd_key b))
    (fun a b => rd_id a =? rd_id b)
    (assign_id rd_id (fun i r => r <| rd_id := i |>)).
Definition Operations : Table WildFlowOperation :=
  mkTable WildFlowOperation db_operations (fun l d => d <| db_operations := l |>)
    (fun a b => (op_id a =? op_id b) || str_eqb (op_operation_id a) (op_operation_id b) ||
                ((op_user_id a =? op_user_id b) &&
                 str_eqb (op_idempotency_key_digest a) (op_idempotency_key_digest b)))
    (fun a b => op_id a =? op_id b)
    (assign_id op_id (fun i r => r <| op_id := i |>)).
Definition UsageEvents : Table WildFlowUsageEvent :=
  mkTable WildFlowUsageEvent db_usage_events (fun l d => d <| db_usage_events := l |>)
    (fun a b => str_eqb (ue_event_id a) (ue_event_id b))
    (fun a b => str_eqb (ue_event_id a) (ue_event_id b)) (fun _ r => r).
Definition LogEntries : Table WildFlowBillingLogEntry :=
  mkTable WildFlowBillingLogEntry db_log_entries (fun l d => d <| db_log_entries := l |>)
    (fun a b => str_eqb (le_operation_id a) (le_operation_id b) && (le_log_type a =? le_log_type b))
    (fun a b => str_eqb (le_operation_id a) (le_operation_id b) && (le_log_type a =? le_log_type b))
    (fun _ r => r).
Definition Receipts : Table WildFlowBillingLogProjectionReceipt :=
  mkTable WildFlowBillingLogProjectionReceipt db_receipts (fun l d => d <| db_receipts := l |>)
    (fun a b => str_eqb (rc_operation_id a) (rc_operation_id b) && (rc_log_type a =? rc_log_type b))
    (fun a b => str_eqb (rc_operation_id a) (rc_operation_id b) && (rc_log_type a =? rc_log_type b))
    (fun _ r => r).
Definition Logs : Table Log :=
  mkTable Log db_logs (fun l d => d <| db_logs := l |>)
    (fun a b => lg_id a =? lg_id b) (fun a b => lg_id a =? lg_id b)
    (assign_id lg_id (fun i r => r <| lg_id := i |>)).

Definition Tasks : Table Task :=
  mkTable Task db_tasks (fun l d => d <| db_tasks := l |>)
    (fun a b => ta_id a =? ta_id b) (fun a b => ta_id a =? ta_id b)
    (assign_id ta_id (fun i r => r <| ta_id := i |>)).

Definition Channels : Table Channel :=
  mkTable Channel db_channels (fun l d => d <| db_channels := l |>)
    (fun a b => ch_id a =? ch_id b) (fun a b => ch_id a =? ch_id b)
    (assign_id ch_id (fun i r => r <| ch_id := i |>)).

Definition Abilities : Table Ability :=
  mkTable Ability db_abilities (fun l d => d <| db_abilities := l |>)
    (fun a b => str_eqb (ab_group a) (ab_group b) && str_eqb (ab_model a) (ab_model b) && (ab_channel_id a =? ab_channel_id b))
    (fun a b => str_eqb (ab_group a) (ab_group b) && str_eqb (ab_model a) (ab_model b) && (ab_channel_id a =? ab_channel_id b))
    (fun _ r => r).

(** gorm's default scope hides soft-deleted users and tokens. *)
Definition user_where (p : User -> bool) (r : User) : bool := negb (u_deleted r) && p r.
Definition token_where (p : Token -> bool) (r : Token) : bool := negb (tk_deleted r) && p r.
