(* ===== verification/Logic.v ===== *)
(** * Logic: reasoning about [Store.M]

    [wp c Q e s]: running [c] from [s] ends in a result and a state that
    satisfy [Q].  One rule per statement form; each covers the outcome in which
    the driver fails the statement.  [wp_step] applies the rules. *)

From S2P Require Import Prelude Schema Store.
From stdpp Require Import base numbers option strings list.
From Stdlib Require Import ZArith Lia.
Open Scope Z_scope.

(** ** Lists of rows *)

Section Rows.
Context {R : Type}.
Implicit Types (l : list R) (p k : R -> bool).

Definition upd_rows (p : R -> bool) (f : R -> R) (l : list R) : list R :=
  List.map (fun r => if p r then f r else r) l.

Definition rows_count (p : R -> bool) (l : list R) : Z :=
  Z.of_nat (length (List.filter p l)).

(** Sum of an integer column over the rows. *)
Fixpoint sum_rows (g : R -> Z) (l : list R) : Z :=
  match l with
  | [] => 0
  | r :: l' => g r + sum_rows g l'
  end.

Lemma sum_rows_app g l1 l2 : sum_rows g (l1 ++ l2) = sum_rows g l1 + sum_rows g l2.
Proof. induction l1; simpl; lia. Qed.

Lemma find_upd_stable k p f l :
  (forall r, k (f r) = k r) ->
  List.find k (upd_rows p f l) = (fun r => if p r then f r else r) <$> List.find k l.
Proof.
  intros Hk. induction l as [|r l IH]; [done|]. simpl.
  destruct (p r) eqn:Hp; rewrite ?Hk; destruct (k r) eqn:?; simpl; rewrite ?Hp; done.
Qed.

(** An update whose rows all fail the key [k] does not change what [k] finds. *)
Lemma find_upd_other k p f l :
  (forall r, k (f r) = k r) -> (forall r, p r = true -> k r = false) ->
  List.find k (upd_rows p f l) = List.find k l.
Proof.
  intros Hk Hpk. rewrite find_upd_stable by done.
  destruct (List.find k l) as [r|] eqn:Hf; [|done]. simpl.
  apply List.find_some in Hf as [_ Hkr].
  destruct (p r) eqn:Hp; [|done]. apply Hpk in Hp. congruence.
Qed.

Lemma find_app k l1 l2 :
  List.find k (l1 ++ l2) =
  match List.find k l1 with Some r => Some r | None => List.find k l2 end.
Proof. induction l1 as [|r l1 IH]; [done|]. simpl. by destruct (k r). Qed.

Lemma rows_count_zero p l : rows_count p l = 0 <-> forall r, In r l -> p r = false.
Proof.
  unfold rows_count. split.
  - intros H r Hin. destruct (p r) eqn:Hp; [|done].
    assert (In r (List.filter p l)) as Hf by (by apply filter_In).
    destruct (List.filter p l); [done | simpl in H; lia].
  - intros H. replace (List.filter p l) with (@nil R); [done|].
    induction l as [|r l IH]; [done|]. simpl.
    rewrite (H r) by (by left). apply IH. intros; apply H; by right.
Qed.

Lemma rows_count_nonneg p l : 0 <= rows_count p l.
Proof. unfold rows_count. lia. Qed.

Lemma find_none_count k l : List.find k l = None <-> rows_count k l = 0.
Proof.
  rewrite rows_count_zero. split; [apply List.find_none|].
  intros H. destruct (List.find k l) as [r|] eqn:Hf; [|done].
  apply List.find_some in Hf as [Hin Hk]. rewrite H in Hk; done.
Qed.

Lemma sum_upd_none g p f l :
  (forall r, In r l -> p r = false) -> sum_rows g (upd_rows p f l) = sum_rows g l.
Proof.
  induction l as [|r l IH]; intros H; [done|]. simpl.
  rewrite (H r) by (by left). rewrite IH; [done|]. intros; apply H; by right.
Qed.

Lemma upd_rows_none p f l : (forall r, In r l -> p r = false) -> upd_rows p f l = l.
Proof.
  intros H. unfold upd_rows. rewrite <- (map_id l) at 2. apply map_ext_in.
  intros r Hin. by rewrite H.
Qed.

Lemma upd_rows_zero p f l : rows_count p l = 0 -> upd_rows p f l = l.
Proof. intros H. apply upd_rows_none. by apply rows_count_zero. Qed.

Lemma existsb_find k l : List.existsb k l = match List.find k l with Some _ => true | None => false end.
Proof. induction l as [|r l IH]; [done|]. simpl. by destruct (k r). Qed.
End Rows.

(** An update that keeps a column of the rows it touches. *)
Section Kept.
Context {R : Type} (p : R -> bool) (f : R -> R).

Lemma sum_upd_kept g l :
  (forall r, In r l -> p r = true -> g (f r) = g r) -> sum_rows g (upd_rows p f l) = sum_rows g l.
Proof.
  unfold upd_rows. induction l as [|r l IH]; intros Hg; [done|]. cbn.
  rewrite IH by (intros; apply Hg; [by right | done]). destruct (p r) eqn:E; [|done].
  rewrite Hg; [done | by left | done].
Qed.

Lemma fmap_upd_kept {K} (key : R -> K) l :
  (forall r, In r l -> p r = true -> key (f r) = key r) -> key <$> upd_rows p f l = key <$> l.
Proof.
  unfold upd_rows. induction l as [|r l IH]; intros Hg; [done|]. cbn.
  rewrite IH by (intros; apply Hg; [by right | done]). f_equal.
  destruct (p r) eqn:E; [|done]. apply Hg; [by left | done].
Qed.

Lemma find_upd_kept k l :
  (forall r, In r l -> p r = true -> k (f r) = k r) ->
  List.find k (upd_rows p f l) = (fun r => if p r then f r else r) <$> List.find k l.
Proof.
  unfold upd_rows. induction l as [|r l IH]; intros Hg; [done|]. cbn.
  assert (k (if p r then f r else r) = k r) as ->.
  { destruct (p r) eqn:E; [|done]. apply Hg; [by left | done]. }
  destruct (k r); [done|]. apply IH. intros; apply Hg; [by right | done].
Qed.
End Kept.

(** A key column that is unique in a list of rows. *)
Section Unique.
Context {R K : Type} (key : R -> K) (has : K -> R -> bool).
Hypothesis has_spec : forall i r, has i r = true <-> key r = i.

Definition unique_key (l : list R) : Prop := NoDup (key <$> l).

Lemma unique_cons r l : unique_key (r :: l) <-> (forall r', In r' l -> key r' <> key r) /\ unique_key l.
Proof.
  unfold unique_key. rewrite fmap_cons, NoDup_cons. split.
  - intros [Hn Hd]. split; [|done]. intros r' Hin He. apply Hn.
    rewrite list_elem_of_fmap. exists r'. split; [done|]. by apply list_elem_of_In.
  - intros [Hn Hd]. split; [|done]. rewrite list_elem_of_fmap.
    intros (r' & He & Hin%list_elem_of_In). by apply (Hn r').
Qed.

Lemma find_unique i r (l : list R) :
  unique_key l -> In r l -> key r = i -> List.find (has i) l = Some r.
Proof.
  induction l as [|r0 l IH]; [done|]. intros [Hn Hd]%unique_cons [->|Hin] Hi; simpl.
  - by rewrite (proj2 (has_spec _ _) Hi).
  - destruct (has i r0) eqn:Hr0; [|by apply IH].
    apply has_spec in Hr0. exfalso. apply (Hn r Hin). congruence.
Qed.

Lemma upd_unique p f (l : list R) :
  (forall r, key (f r) = key r) -> unique_key l -> unique_key (upd_rows p f l).
Proof.
  unfold unique_key. intros Hf Hu. replace (key <$> upd_rows p f l) with (key <$> l); [done|].
  induction l as [|r l IH]; [done|]. simpl. apply NoDup_cons in Hu as [_ Hu].
  destruct (p r); rewrite ?Hf; f_equal; by apply IH.
Qed.

(** Only the rows of the list that are updated have to keep their key. *)
Lemma upd_unique_in p f (l : list R) :
  (forall r, In r l -> p r = true -> key (f r) = key r) -> unique_key l -> unique_key (upd_rows p f l).
Proof.
  unfold unique_key. intros Hf Hu. by rewrite fmap_upd_kept.
Qed.

Lemma app_unique (l : list R) r :
  unique_key l -> (forall r', In r' l -> key r' <> key r) -> unique_key (l ++ [r]).
Proof.
  unfold unique_key. intros Hu Hn. rewrite fmap_app. apply NoDup_app.
  split_and!; [done | | apply NoDup_singleton].
  intros x Hx Hx'. apply list_elem_of_singleton in Hx'. subst.
  apply list_elem_of_fmap in Hx as (r' & He & Hin%list_elem_of_In). by apply (Hn r').
Qed.

(** The update of one row, identified by its key, in a sum. *)
Lemma sum_upd_one g p f i r (l : list R) :
  unique_key l -> List.find (has i) l = Some r ->
  (forall r', p r' = true -> key r' = i) ->
  sum_rows g (upd_rows p f l) = sum_rows g l + (if p r then g (f r) - g r else 0).
Proof.
  intros Hu Hf Hp. induction l as [|r0 l IH]; [done|].
  apply unique_cons in Hu as [Hn Hu]. simpl in *.
  destruct (has i r0) eqn:Hr0.
  - injection Hf as ->. apply has_spec in Hr0.
    assert (upd_rows p f l = l) as Hl.
    { clear IH Hu. induction l as [|r1 l IH]; [done|]. simpl.
      destruct (p r1) eqn:Hp1.
      - exfalso. apply (Hn r1); [by left|]. rewrite (Hp _ Hp1). done.
      - f_equal. apply IH. intros; apply Hn; by right. }
    rewrite Hl. destruct (p r); lia.
  - rewrite (IH Hu Hf). destruct (p r0) eqn:Hp0; [|lia].
    apply Hp in Hp0. apply has_spec in Hp0. congruence.
Qed.

(** A guarded update that can only touch row [r] is the update of that row. *)
Lemma upd_rows_one p f g i r (l : list R) :
  unique_key l -> List.find (has i) l = Some r ->
  (forall r', p r' = true -> key r' = i) -> p r = true -> f r = g r ->
  upd_rows p f l = upd_rows (has i) g l.
Proof.
  intros Hu Hf Hp Hpr Hfg. unfold upd_rows. apply map_ext_in. intros r' Hin.
  destruct (has i r') eqn:E.
  - assert (r' = r) as ->; [|by rewrite Hpr].
    apply has_spec in E. pose proof (find_unique i r' l Hu Hin E). congruence.
  - destruct (p r') eqn:E'; [|done]. apply Hp, has_spec in E'. congruence.
Qed.

Lemma count_one p i r (l : list R) :
  unique_key l -> List.find (has i) l = Some r ->
  (forall r', p r' = true -> key r' = i) ->
  rows_count p l = if p r then 1 else 0.
Proof.
  intros Hu Hf Hp. induction l as [|r0 l IH]; [done|].
  apply unique_cons in Hu as [Hn Hu]. unfold rows_count in *. simpl in *.
  destruct (has i r0) eqn:Hr0.
  - injection Hf as ->. apply has_spec in Hr0.
    assert (List.filter p l = []) as Hl.
    { clear IH Hu. induction l as [|r1 l IH]; [done|]. simpl.
      destruct (p r1) eqn:Hp1.
      - exfalso. apply (Hn r1); [by left|]. rewrite (Hp _ Hp1). done.
      - apply IH. intros; apply Hn; by right. }
    destruct (p r); simpl; rewrite Hl; done.
  - destruct (p r0) eqn:Hp0; [|by apply IH].
    apply Hp in Hp0. apply has_spec in Hp0. congruence.
Qed.

Lemma count_none p i (l : list R) :
  List.find (has i) l = None -> (forall r', p r' = true -> key r' = i) -> rows_count p l = 0.
Proof.
  intros Hf Hp. apply rows_count_zero. intros r Hin.
  destruct (p r) eqn:Hpr; [|done]. apply Hp in Hpr. apply has_spec in Hpr.
  pose proof (List.find_none _ _ Hf r Hin). congruence.
Qed.
(** [UPDATE ... WHERE key = i AND cond] either touches nothing or exactly the
    row of key [i]. *)
Lemma keyed_update i (cond : R -> bool) f (l : list R) :
  unique_key l ->
  let p r := has i r && cond r in
  (rows_count p l = 0 /\ upd_rows p f l = l /\
   forall r, List.find (has i) l = Some r -> cond r = false) \/
  (rows_count p l = 1 /\ upd_rows p f l = upd_rows (has i) f l /\
   exists r, List.find (has i) l = Some r /\ cond r = true).
Proof.
  intros Hu p.
  assert (forall r', p r' = true -> key r' = i) as Hp
    by (intros r'; unfold p; rewrite andb_true_iff, has_spec; tauto).
  destruct (List.find (has i) l) as [r|] eqn:E.
  - pose proof (count_one p i r l Hu E Hp) as Hn.
    pose proof (proj2 (List.find_some _ _ E)) as Hi.
    assert (p r = cond r) as Hpr by (unfold p; by rewrite Hi).
    destruct (p r) eqn:Hpr'.
    + right. split; [done|]. split; [by apply (upd_rows_one p f f i r) | eauto].
    + left. split; [done|]. split; [by apply upd_rows_zero | congruence].
  - left. pose proof (count_none p i l E Hp).
    split; [done|]. split; [by apply upd_rows_zero | done].
Qed.
End Unique.

Lemma next_id_fresh {R} (id : R -> Z) (rows : list R) r :
  In r rows -> id r < next_id id rows.
Proof.
  unfold next_id. induction rows as [|r0 rows IH]; [done|]. simpl.
  intros [->|Hin]; [lia|]. apply IH in Hin. lia.
Qed.

(** ** Weakest preconditions *)

Definition wp {A} (c : M A) (Q : result A -> St -> Prop) (e : Env) (s : St) : Prop :=
  let '(r, s') := c e s in Q r s'.

Section Wp.
Implicit Types (e : Env) (d : DB) (fs : list (option fault)) (tr : list effect).

Lemma wp_mono {A} (c : M A) (Q Q' : result A -> St -> Prop) e s :
  wp c Q e s -> (forall r s', Q r s' -> Q' r s') -> wp c Q' e s.
Proof. unfold wp. destruct (c e s). auto. Qed.

Lemma wp_use {A} (c : M A) Q e s r s' : wp c Q e s -> c e s = (r, s') -> Q r s'.
Proof. unfold wp. intros H E. by rewrite E in H. Qed.

Lemma wp_ret {A} (a : A) Q e s : Q (inr a) s -> wp (mret a) Q e s.
Proof. done. Qed.

Lemma wp_raise {A} err (Q : result A -> St -> Prop) e s : Q (inl err) s -> wp (raise err) Q e s.
Proof. done. Qed.

Lemma wp_bind {A B} (m : M A) (f : A -> M B) Q e s :
  wp m (fun r s' => match r with inl err => Q (inl err) s' | inr a => wp (f a) Q e s' end) e s ->
  wp (m ≫= f) Q e s.
Proof. unfold wp, mbind, M_bind. destruct (m e s) as [[err|a] s']; done. Qed.

Lemma wp_attempt {A} (m : M A) Q e s :
  wp m (fun r s' => Q (inr r) s') e s -> wp (attempt m) Q e s.
Proof. unfold wp, attempt. by destruct (m e s). Qed.

Lemma wp_lift {A} (r : result A) Q e s : Q r s -> wp (lift r) Q e s.
Proof. done. Qed.

Lemma wp_ask {A} (f : Env -> A) Q e s : Q (inr (f e)) s -> wp (ask f) Q e s.
Proof. done. Qed.

Lemma wp_emit ef Q e d fs tr : Q (inr tt) (mkSt d fs (tr ++ [ef])) -> wp (emit ef) Q e (mkSt d fs tr).
Proof. done. Qed.

Lemma wp_when b m Q e s :
  (b = true -> wp m Q e s) -> (b = false -> Q (inr tt) s) -> wp (when b m) Q e s.
Proof. destruct b; intros H1 H2; [by apply H1 | by apply H2]. Qed.

Lemma wp_guard b err Q e s :
  (b = true -> Q (inl err) s) -> (b = false -> Q (inr tt) s) -> wp (guard_err b err) Q e s.
Proof. destruct b; intros H1 H2; [by apply H1 | by apply H2]. Qed.

Lemma wp_stmt {A} (f : DB -> result A * DB) Q e d fs tr :
  (forall k fs', Q (inl (ErrDriver k)) (mkSt d fs' tr)) ->
  (forall fs', Q (f d).1 (mkSt (f d).2 fs' tr)) ->
  wp (stmt f) Q e (mkSt d fs tr).
Proof.
  intros Hk Hf. unfold wp, stmt. destruct fs as [|[k|] fs]; simpl; [| done |];
  specialize (Hf (fs)) || specialize (Hf []); destruct (f d); done.
Qed.

Lemma wp_find_first {R} (T : Table R) p Q e d fs tr :
  (forall k fs', Q (inl (ErrDriver k)) (mkSt d fs' tr)) ->
  (forall fs', List.find p (t_get T d) = None -> Q (inl ErrRecordNotFound) (mkSt d fs' tr)) ->
  (forall fs' r, List.find p (t_get T d) = Some r -> Q (inr r) (mkSt d fs' tr)) ->
  wp (find_first T p) Q e (mkSt d fs tr).
Proof.
  intros Hk Hn Hs. apply wp_stmt; [done|]. intros fs'.
  destruct (List.find p (t_get T d)); simpl; auto.
Qed.

Lemma wp_find_opt {R} (T : Table R) p Q e d fs tr :
  (forall k fs', Q (inl (ErrDriver k)) (mkSt d fs' tr)) ->
  (forall fs', Q (inr (List.find p (t_get T d))) (mkSt d fs' tr)) ->
  wp (find_opt T p) Q e (mkSt d fs tr).
Proof. intros. by apply wp_stmt. Qed.

Lemma wp_find_all {R} (T : Table R) p Q e d fs tr :
  (forall k fs', Q (inl (ErrDriver k)) (mkSt d fs' tr)) ->
  (forall fs', Q (inr (List.filter p (t_get T d))) (mkSt d fs' tr)) ->
  wp (find_all T p) Q e (mkSt d fs tr).
Proof. intros. by apply wp_stmt. Qed.

Lemma wp_count {R} (T : Table R) p Q e d fs tr :
  (forall k fs', Q (inl (ErrDriver k)) (mkSt d fs' tr)) ->
  (forall fs', Q (inr (rows_count p (t_get T d))) (mkSt d fs' tr)) ->
  wp (count T p) Q e (mkSt d fs tr).
Proof. intros. by apply wp_stmt. Qed.

Lemma wp_update {R} (T : Table R) p f Q e d fs tr :
  (forall k fs', Q (inl (ErrDriver k)) (mkSt d fs' tr)) ->
  (forall fs', Q (inr (rows_count p (t_get T d)))
                 (mkSt (t_set T (upd_rows p f (t_get T d)) d) fs' tr)) ->
  wp (update T p f) Q e (mkSt d fs tr).
Proof. intros. by apply wp_stmt. Qed.

Lemma wp_create {R} (T : Table R) r Q e d fs tr :
  let r' := t_assign T (t_get T d) r in
  (forall k fs', Q (inl (ErrDriver k)) (mkSt d fs' tr)) ->
  (forall fs', List.existsb (t_clash T r') (t_get T d) = true ->
               Q (inl ErrDuplicatedKey) (mkSt d fs' tr)) ->
  (forall fs', List.existsb (t_clash T r') (t_get T d) = false ->
               Q (inr r') (mkSt (t_set T (t_get T d ++ [r']) d) fs' tr)) ->
  wp (create T r) Q e (mkSt d fs tr).
Proof.
  intros r' Hk Ht Hf. apply wp_stmt; [done|]. intros fs'. fold r'. simpl.
  destruct (List.existsb (t_clash T r') (t_get T d)); simpl; auto.
Qed.

Lemma wp_create_or_ignore {R} (T : Table R) r Q e d fs tr :
  let r' := t_assign T (t_get T d) r in
  (forall k fs', Q (inl (ErrDriver k)) (mkSt d fs' tr)) ->
  (forall fs', List.existsb (t_clash T r') (t_get T d) = true ->
               Q (inr false) (mkSt d fs' tr)) ->
  (forall fs', List.existsb (t_clash T r') (t_get T d) = false ->
               Q (inr true) (mkSt (t_set T (t_get T d ++ [r']) d) fs' tr)) ->
  wp (create_or_ignore T r) Q e (mkSt d fs tr).
Proof.
  intros r' Hk Ht Hf. apply wp_stmt; [done|]. intros fs'. fold r'. simpl.
  destruct (List.existsb (t_clash T r') (t_get T d)); simpl; auto.
Qed.

(** [Save] of a row whose primary key is present is an update by key. *)
Lemma wp_save {R} (T : Table R) r Q e d fs tr :
  List.existsb (t_same T r) (t_get T d) = true ->
  (forall k fs', Q (inl (ErrDriver k)) (mkSt d fs' tr)) ->
  (forall fs', Q (inr tt) (mkSt (t_set T (upd_rows (t_same T r) (fun _ => r) (t_get T d)) d) fs' tr)) ->
  wp (save T r) Q e (mkSt d fs tr).
Proof. intros H Hk Hs. apply wp_stmt; [done|]. intros fs'. simpl. by rewrite H. Qed.

Lemma wp_delete_where {R} (T : Table R) p Q e d fs tr :
  (forall k fs', Q (inl (ErrDriver k)) (mkSt d fs' tr)) ->
  (forall fs', Q (inr (rows_count p (t_get T d)))
                 (mkSt (t_set T (List.filter (fun r => negb (p r)) (t_get T d)) d) fs' tr)) ->
  wp (delete_where T p) Q e (mkSt d fs tr).
Proof. intros. by apply wp_stmt. Qed.

(** A transaction: whatever its body did to the tables, an error leaves them
    as they were. *)
Lemma wp_transaction {A} (body : M A) Q e d fs tr :
  (forall k fs', Q (inl (ErrDriver k)) (mkSt d fs' tr)) ->
  (forall fs',
    wp body (fun r s' =>
      match r with
      | inl err => Q (inl err) (mkSt d (st_faults s') (st_trace s'))
      | inr a =>
          (forall k fs2, Q (inl (ErrDriver k)) (mkSt d fs2 (st_trace s'))) /\
          (forall fs2, Q (inr a) (mkSt (st_db s') fs2 (st_trace s')))
      end) e (mkSt d fs' tr)) ->
  wp (transaction body) Q e (mkSt d fs tr).
Proof.
  intros Hk Hb. unfold wp, transaction, begin_or_commit.
  destruct (stmt _ e (mkSt d fs tr)) as [[err|u] s1] eqn:E1.
  - destruct fs as [|[k|] fs]; simpl in E1; try discriminate. injection E1 as <- <-. apply Hk.
  - assert (exists fs', s1 = mkSt d fs' tr) as [fs' ->].
    { destruct fs as [|[k|] fs]; simpl in E1; injection E1 as _ <-; eauto; discriminate. }
    specialize (Hb fs'). unfold wp in Hb.
    destruct (body e (mkSt d fs' tr)) as [[err|a] [d2 fs2 tr2]]; [done|]. simpl in Hb.
    destruct Hb as [Hc Hs]. destruct fs2 as [|[k|] fs2]; simpl; auto.
Qed.
End Wp.

(** A computation that leaves the tables as they were when it fails. *)
Definition atomic {A} (c : M A) : Prop :=
  forall e s, match c e s with
              | (inl _, s') => st_db s' = st_db s
              | (inr _, _) => True
              end.

Lemma transaction_atomic {A} (body : M A) : atomic (transaction body).
Proof.
  intros e [d fs tr]. unfold transaction, begin_or_commit.
  destruct (stmt _ e _) as [[err|u] [d1 fs1 tr1]] eqn:E1; simpl.
  - destruct fs as [|[k|] fs]; cbn in E1; inversion E1; done.
  - destruct (body e _) as [[err|a] s2]; simpl; [done|].
    destruct (stmt _ e s2) as [[err|b] s3]; done.
Qed.
