(* ===== verification/Frame.v ===== *)
(** * Frame: what a computation cannot touch

    [respects R c]: whatever the driver answers, the state after [c] is related
    to the state before by [R].  [R] is a preorder that ignores the pending
    driver outcomes, so the rules compose along the program and the frame of a
    long operation is proved by [respects_auto]. *)

From S2P Require Import Prelude Schema Store Logic.
From stdpp Require Import base numbers option strings list.
From Stdlib Require Import ZArith Lia.
Open Scope Z_scope.

Definition respects {A} (R : St -> St -> Prop) (c : M A) : Prop :=
  forall e s, R s (snd (c e s)).

(** A relation on states that does not look at the pending driver outcomes. *)
Class Frame (R : St -> St -> Prop) : Prop := {
  frame_quiet : forall d fs fs' tr, R (mkSt d fs tr) (mkSt d fs' tr);
  frame_trans : forall s1 s2 s3, R s1 s2 -> R s2 s3 -> R s1 s3
}.

Section Respects.
Context (R : St -> St -> Prop) `{HR : Frame R}.

Lemma frame_refl s : R s s.
Proof. destruct s. apply frame_quiet. Qed.

Lemma respects_ret {A} (a : A) : respects R (mret a).
Proof. intros e s. apply frame_refl. Qed.
Lemma respects_raise {A} err : respects R (raise err : M A).
Proof. intros e s. apply frame_refl. Qed.
Lemma respects_lift {A} (r : result A) : respects R (lift r).
Proof. intros e s. apply frame_refl. Qed.
Lemma respects_ask {A} (f : Env -> A) : respects R (ask f).
Proof. intros e s. apply frame_refl. Qed.

Lemma respects_bind {A B} (m : M A) (f : A -> M B) :
  respects R m -> (forall a, respects R (f a)) -> respects R (m ≫= f).
Proof.
  intros Hm Hf e s. specialize (Hm e s). unfold mbind, M_bind.
  destruct (m e s) as [[err|a] s']; [done|]. eapply frame_trans; [done|]. apply Hf.
Qed.

Lemma respects_attempt {A} (m : M A) : respects R m -> respects R (attempt m).
Proof. intros Hm e s. specialize (Hm e s). unfold attempt. by destruct (m e s). Qed.

Lemma respects_when b m : (b = true -> respects R m) -> respects R (when b m).
Proof. intros Hm. destruct b; [by apply Hm | apply respects_ret]. Qed.

Lemma respects_guard b err : respects R (guard_err b err).
Proof. destruct b; [apply respects_raise | apply respects_ret]. Qed.

Lemma respects_stmt {A} (f : DB -> result A * DB) :
  (forall d fs tr, R (mkSt d fs tr) (mkSt (f d).2 fs tr)) -> respects R (stmt f).
Proof.
  intros Hf e [d fs tr]. unfold stmt. cbn. specialize (Hf d).
  destruct fs as [|[k|] fs]; simpl; [|apply frame_quiet|]; destruct (f d) as [r d']; simpl in *.
  - apply Hf.
  - eapply frame_trans; [apply Hf | apply frame_quiet].
Qed.

Lemma respects_find_first {T} (t : Table T) p : respects R (find_first t p).
Proof. apply respects_stmt. intros. destruct (List.find _ _); apply frame_quiet. Qed.
Lemma respects_find_opt {T} (t : Table T) p : respects R (find_opt t p).
Proof. apply respects_stmt. intros. apply frame_quiet. Qed.
Lemma respects_find_all {T} (t : Table T) p : respects R (find_all t p).
Proof. apply respects_stmt. intros. apply frame_quiet. Qed.
Lemma respects_count {T} (t : Table T) p : respects R (count t p).
Proof. apply respects_stmt. intros. apply frame_quiet. Qed.

(** A statement that replaces the rows of one table. *)
Definition table_free {T} (t : Table T) : Prop :=
  forall d l fs tr, R (mkSt d fs tr) (mkSt (t_set t l d) fs tr).

Lemma respects_update {T} (t : Table T) p f : table_free t -> respects R (update t p f).
Proof. intros Ht. apply respects_stmt. intros. apply Ht. Qed.
Lemma respects_delete {T} (t : Table T) p : table_free t -> respects R (delete_where t p).
Proof. intros Ht. apply respects_stmt. intros. apply Ht. Qed.
Lemma respects_save {T} (t : Table T) r : table_free t -> respects R (save t r).
Proof. intros Ht. apply respects_stmt. intros. apply Ht. Qed.
Lemma respects_create {T} (t : Table T) r : table_free t -> respects R (create t r).
Proof.
  intros Ht. apply respects_stmt. intros. cbv zeta.
  destruct (List.existsb _ _); [apply frame_quiet | apply Ht].
Qed.
Lemma respects_create_or_ignore {T} (t : Table T) r :
  table_free t -> respects R (create_or_ignore t r).
Proof.
  intros Ht. apply respects_stmt. intros. cbv zeta.
  destruct (List.existsb _ _); [apply frame_quiet | apply Ht].
Qed.
Lemma respects_begin : respects R begin_or_commit.
Proof. apply respects_stmt. intros. apply frame_quiet. Qed.
End Respects.

(** Nothing but rows of the tables [allowed] says may change, and no effect is
    emitted.  The instances below name what stays. *)
Definition keeps {X} (view : DB -> X) (s s' : St) : Prop :=
  view (st_db s') = view (st_db s) /\ st_trace s' = st_trace s.

#[export] Instance keeps_frame {X} (view : DB -> X) : Frame (keeps view).
Proof. split; unfold keeps; intros; [done|]. intuition congruence. Qed.

Lemma respects_transaction {A X} (view : DB -> X) (body : M A) :
  respects (keeps view) body -> respects (keeps view) (transaction body).
Proof.
  intros Hb e s. unfold transaction.
  pose proof (respects_begin (keeps view) e s) as H1.
  destruct (begin_or_commit e s) as [[err|u] s1]; [done|]. simpl in H1.
  specialize (Hb e s1). destruct (body e s1) as [[err|a] s2]; simpl in *.
  - unfold keeps in *. simpl. intuition congruence.
  - pose proof (respects_begin (keeps view) e s2) as H2.
    destruct (begin_or_commit e s2) as [[err|v] s3]; simpl in *; unfold keeps in *; simpl;
      intuition congruence.
Qed.

(** A computation with frame [view], seen by [wp]. *)
Lemma wp_keeps {A X} (view : DB -> X) (c : M A) Q e d fs tr :
  respects (keeps view) c ->
  (forall r d' fs', view d' = view d -> Q r (mkSt d' fs' tr)) ->
  wp c Q e (mkSt d fs tr).
Proof.
  intros Hc HQ. unfold wp. specialize (Hc e (mkSt d fs tr)).
  destruct (c e _) as [r [d' fs' tr']]. destruct Hc as [Hv Ht]; simpl in *. subst. auto.
Qed.

(** Relations between the tables alone: effects may be emitted. *)
Definition tables (P : DB -> DB -> Prop) (s s' : St) : Prop := P (st_db s) (st_db s').

Section Tables.
Context (P : DB -> DB -> Prop) `{!PreOrder P}.

#[export] Instance tables_frame : Frame (tables P).
Proof. split; unfold tables; cbn; [reflexivity|]. intros s1 s2 s3. apply transitivity. Qed.

Lemma respects_emit ef : respects (tables P) (emit ef).
Proof. intros e s. unfold tables. cbn. reflexivity. Qed.

Lemma respects_transaction_tables {A} (body : M A) :
  respects (tables P) body -> respects (tables P) (transaction body).
Proof.
  intros Hb e s. unfold transaction. unfold tables in *.
  assert (forall s0, st_db (snd (begin_or_commit e s0)) = st_db s0) as Hbc
    by (intros [d0 [|[k|] fs0] tr0]; done).
  pose proof (Hbc s) as H1. destruct (begin_or_commit e s) as [[err|u] s1]; cbn in H1 |- *; [by rewrite H1|].
  specialize (Hb e s1). unfold tables in Hb. rewrite H1 in Hb. destruct (body e s1) as [[err|a] s2]; cbn in *; [reflexivity|].
  pose proof (Hbc s2) as H2. destruct (begin_or_commit e s2) as [[err|v] s3]; cbn in *; [reflexivity | by rewrite H2].
Qed.

(** From a weaker relation. *)
Lemma respects_tables_weaken {A} (P' : DB -> DB -> Prop) (c : M A) :
  (forall d d', P' d d' -> P d d') -> respects (tables P') c -> respects (tables P) c.
Proof. intros HP Hc e s. apply HP, Hc. Qed.
Lemma respects_keeps_tables {A X} (view : DB -> X) (c : M A) :
  (forall d d', view d' = view d -> P d d') -> respects (keeps view) c -> respects (tables P) c.
Proof. intros HP Hc e s. apply HP. apply (Hc e s). Qed.
End Tables.

(** Tables that a view shows stay. *)
Definition same {X} (view : DB -> X) (d d' : DB) : Prop := view d' = view d.
#[global] Typeclasses Opaque same tables.
#[export] Instance same_preorder {X} (view : DB -> X) : PreOrder (same view).
Proof. split; [done|]. unfold same. intros d1 d2 d3. congruence. Qed.

Ltac respects_step :=
  lazymatch goal with
  | |- forall _, _ => intro
  | |- respects _ (mret _) => apply respects_ret
  | |- respects _ (raise _) => apply respects_raise
  | |- respects _ (lift _) => apply respects_lift
  | |- respects _ (ask _) => apply respects_ask
  | |- respects _ GetTimestamp => apply respects_ask
  | |- respects _ (guard_err _ _) => apply respects_guard
  | |- respects _ (attempt _) => apply respects_attempt
  | |- respects _ (when _ _) => apply respects_when
  | |- respects _ (find_first _ _) => apply respects_find_first
  | |- respects _ (find_opt _ _) => apply respects_find_opt
  | |- respects _ (find_all _ _) => apply respects_find_all
  | |- respects _ (count _ _) => apply respects_count
  | |- respects _ (update _ _ _) => apply respects_update
  | |- respects _ (save _ _) => apply respects_save
  | |- respects _ (create _ _) => apply respects_create
  | |- respects _ (create_or_ignore _ _) => apply respects_create_or_ignore
  | |- respects _ (delete_where _ _) => apply respects_delete
  | |- respects (tables _) (transaction _) => apply respects_transaction_tables
  | |- respects _ (transaction _) => apply respects_transaction
  | |- respects (tables _) (emit _) => apply respects_emit
  | |- respects _ (mbind _ _) => apply respects_bind
  | |- respects _ (let '(_, _) := ?p in _) => destruct p
  | |- respects _ (match ?x with _ => _ end) => destruct x
  | |- table_free (tables _) _ => intros ????; reflexivity
  | |- table_free _ _ => intros ????; split; reflexivity
  | |- Frame _ => apply _
  | |- PreOrder _ => apply _
  end.

Create HintDb respects.
Ltac respects_auto :=
  repeat first [progress cbn beta iota zeta | assumption | solve [auto with respects] | respects_step].

(** ** Runs in which the driver does not fail

    [faultless c]: when no driver failure is pending, [c] ends in an error of
    its own making or in a value, never in a driver error. *)

Definition no_driver {A} (r : result A) : Prop := forall k, r <> inl (ErrDriver k).

Definition faultless {A} (c : M A) : Prop :=
  forall e s, st_faults s = [] ->
    st_faults (snd (c e s)) = [] /\ no_driver (fst (c e s)).

Section Faultless.
Lemma faultless_ret {A} (a : A) : faultless (mret a).
Proof. intros e s Hs. by split. Qed.
Lemma faultless_raise {A} err : (forall k, err <> ErrDriver k) -> faultless (raise err : M A).
Proof. intros H e s Hs. split; [done|]. intros k [=]. by apply (H k). Qed.
Lemma faultless_lift {A} (r : result A) : no_driver r -> faultless (lift r).
Proof. intros H e s Hs. by split. Qed.
Lemma faultless_ask {A} (f : Env -> A) : faultless (ask f).
Proof. intros e s Hs. by split. Qed.
Lemma faultless_emit ef : faultless (emit ef).
Proof. intros e s Hs. by split. Qed.

Lemma faultless_bind {A B} (m : M A) (f : A -> M B) :
  faultless m -> (forall a, faultless (f a)) -> faultless (m ≫= f).
Proof.
  intros Hm Hf e s Hs. destruct (Hm e s Hs) as [Hs' Hr]. unfold mbind, M_bind.
  destruct (m e s) as [[err|a] s']; cbn in *; [|by apply Hf].
  split; [done|]. intros k [=]. subst. by apply (Hr k).
Qed.

(** After [attempt], the caught result is not a driver error. *)
Lemma faultless_bind_attempt {A B} (m : M A) (f : result A -> M B) :
  faultless m -> (forall r, no_driver r -> faultless (f r)) -> faultless (attempt m ≫= f).
Proof.
  intros Hm Hf e s Hs. destruct (Hm e s Hs) as [Hs' Hr]. unfold mbind, M_bind, attempt.
  destruct (m e s) as [r s']; cbn in *. by apply Hf.
Qed.

Lemma faultless_when b m : (b = true -> faultless m) -> faultless (when b m).
Proof. intros Hm. destruct b; [by apply Hm | apply faultless_ret]. Qed.
Lemma faultless_guard b err : (forall k, err <> ErrDriver k) -> faultless (guard_err b err).
Proof. intros H. destruct b; [by apply faultless_raise | apply faultless_ret]. Qed.

Lemma faultless_stmt {A} (f : DB -> result A * DB) :
  (forall d, no_driver (fst (f d))) -> faultless (stmt f).
Proof.
  intros Hf e [d fs tr] Hs. cbn in Hs. subst. unfold stmt. cbn. specialize (Hf d).
  by destruct (f d) as [r d'].
Qed.

Lemma faultless_find_first {T} (t : Table T) p : faultless (find_first t p).
Proof. apply faultless_stmt. intros d. by destruct (List.find _ _). Qed.
Lemma faultless_find_opt {T} (t : Table T) p : faultless (find_opt t p).
Proof. by apply faultless_stmt. Qed.
Lemma faultless_find_all {T} (t : Table T) p : faultless (find_all t p).
Proof. by apply faultless_stmt. Qed.
Lemma faultless_count {T} (t : Table T) p : faultless (count t p).
Proof. by apply faultless_stmt. Qed.
Lemma faultless_update {T} (t : Table T) p f : faultless (update t p f).
Proof. by apply faultless_stmt. Qed.
Lemma faultless_save {T} (t : Table T) r : faultless (save t r).
Proof. by apply faultless_stmt. Qed.
Lemma faultless_delete {T} (t : Table T) p : faultless (delete_where t p).
Proof. by apply faultless_stmt. Qed.
Lemma faultless_create {T} (t : Table T) r : faultless (create t r).
Proof. apply faultless_stmt. intros d. cbv zeta. by destruct (List.existsb _ _). Qed.
Lemma faultless_create_or_ignore {T} (t : Table T) r : faultless (create_or_ignore t r).
Proof. apply faultless_stmt. intros d. cbv zeta. by destruct (List.existsb _ _). Qed.

Lemma faultless_transaction {A} (body : M A) : faultless body -> faultless (transaction body).
Proof.
  intros Hb e s Hs. unfold transaction, begin_or_commit, stmt. rewrite Hs. cbn.
  destruct (Hb e (mkSt (st_db s) [] (st_trace s)) eq_refl) as [Hs2 Hr].
  destruct (body e _) as [[err|a] s2]; cbn in *; [by split|]. by rewrite Hs2.
Qed.
End Faultless.

Create HintDb faultless.
Ltac faultless_step :=
  lazymatch goal with
  | |- forall _, _ => intro
  | |- faultless (mret _) => apply faultless_ret
  | |- faultless (raise _) => apply faultless_raise
  | |- faultless (lift _) => apply faultless_lift
  | |- faultless (ask _) => apply faultless_ask
  | |- faultless GetTimestamp => apply faultless_ask
  | |- faultless (emit _) => apply faultless_emit
  | |- faultless (guard_err _ _) => apply faultless_guard
  | |- faultless (when _ _) => apply faultless_when
  | |- faultless (find_first _ _) => apply faultless_find_first
  | |- faultless (find_opt _ _) => apply faultless_find_opt
  | |- faultless (find_all _ _) => apply faultless_find_all
  | |- faultless (count _ _) => apply faultless_count
  | |- faultless (update _ _ _) => apply faultless_update
  | |- faultless (save _ _) => apply faultless_save
  | |- faultless (create _ _) => apply faultless_create
  | |- faultless (create_or_ignore _ _) => apply faultless_create_or_ignore
  | |- faultless (delete_where _ _) => apply faultless_delete
  | |- faultless (transaction _) => apply faultless_transaction
  | |- faultless (mbind _ (attempt _)) => apply faultless_bind_attempt
  | |- faultless (mbind _ _) => apply faultless_bind
  | |- faultless (let '(_, _) := ?p in _) => destruct p
  | |- faultless (match ?x with _ => _ end) => destruct x
  | |- _ <> _ => discriminate
  end.
Ltac faultless_auto :=
  repeat first [progress cbn beta iota zeta | assumption | solve [auto with faultless]
               | solve [match goal with H : no_driver (inl (ErrDriver ?k)) |- _ => destruct (H k eq_refl) end]
               | solve [let k := fresh in let E := fresh in
                        intros k E; subst; match goal with H : no_driver _ |- _ => destruct (H _ eq_refl) end]
               | faultless_step].

(** A faultless operation that can only fail with a driver error succeeds. *)
Lemma wp_total {A} (c : M A) (Q : result A -> St -> Prop) e d tr r s' :
  faultless c -> wp c Q e (mkSt d [] tr) -> c e (mkSt d [] tr) = (r, s') -> no_driver r /\ Q r s'.
Proof.
  intros Hc Hw E. destruct (Hc e (mkSt d [] tr) eq_refl) as [_ Hn].
  unfold wp in Hw. rewrite E in *. by split.
Qed.

(** What a run without driver failures computes, for execution proofs. *)

Section Clean.
Context (e : Env) (d : DB) (tr : list effect).
Lemma run_first {T} (t : Table T) p r :
  List.find p (t_get t d) = Some r -> find_first t p e (mkSt d [] tr) = (inr r, mkSt d [] tr).
Proof. intros H. unfold find_first, stmt. cbn. by rewrite H. Qed.
Lemma run_opt {T} (t : Table T) p : find_opt t p e (mkSt d [] tr) = (inr (List.find p (t_get t d)), mkSt d [] tr).
Proof. done. Qed.
Lemma run_transaction {A} (body : M A) a d' tr' :
  body e (mkSt d [] tr) = (inr a, mkSt d' [] tr') -> transaction body e (mkSt d [] tr) = (inr a, mkSt d' [] tr').
Proof. intros H. unfold transaction, begin_or_commit, stmt. cbn. by rewrite H. Qed.
Lemma run_bind {A B} (m : M A) (f : A -> M B) s a s1 :
  m e s = (inr a, s1) -> (m ≫= f) e s = f a e s1.
Proof. intros H. unfold mbind, M_bind. by rewrite H. Qed.
End Clean.

(** ** Invariants of the tables, with a property of the value

    [hoare I c Q]: from tables satisfying [I], [c] ends in tables satisfying
    [I], whatever the driver answers, and a returned value satisfies [Q]. *)

Definition hoare {A} (I : DB -> Prop) (c : M A) (Q : A -> Prop) : Prop :=
  forall e s, I (st_db s) ->
    I (st_db (snd (c e s))) /\ match fst (c e s) with inr a => Q a | inl _ => True end.

Section Hoare.
Context (I : DB -> Prop).

Lemma hoare_conseq {A} (c : M A) (Q Q' : A -> Prop) :
  hoare I c Q -> (forall a, Q a -> Q' a) -> hoare I c Q'.
Proof.
  intros H HQ e s Hs. destruct (H e s Hs) as [HI Hr]. split; [done|].
  destruct (fst (c e s)); auto.
Qed.
Lemma hoare_ret {A} (a : A) (Q : A -> Prop) : Q a -> hoare I (mret a) Q.
Proof. by intros HQ e s Hs. Qed.
Lemma hoare_raise {A} err (Q : A -> Prop) : hoare I (raise err) Q.
Proof. by intros e s Hs. Qed.
Lemma hoare_lift {A} (r : result A) : hoare I (lift r) (fun _ => True).
Proof. intros e s Hs. split; [done|]. by destruct (fst _). Qed.
Lemma hoare_ask {A} (f : Env -> A) : hoare I (ask f) (fun _ => True).
Proof. by intros e s Hs. Qed.
Lemma hoare_emit ef : hoare I (emit ef) (fun _ => True).
Proof. by intros e s Hs. Qed.

Lemma hoare_bind {A B} (m : M A) (f : A -> M B) (Q : A -> Prop) (Q' : B -> Prop) :
  hoare I m Q -> (forall a, Q a -> hoare I (f a) Q') -> hoare I (m ≫= f) Q'.
Proof.
  intros Hm Hf e s Hs. destruct (Hm e s Hs) as [HI HQ]. unfold mbind, M_bind.
  destruct (m e s) as [[err|a] s']; cbn in *; [done|]. by apply Hf.
Qed.

Lemma hoare_attempt {A} (m : M A) (Q : A -> Prop) :
  hoare I m Q -> hoare I (attempt m) (fun r => match r with inr a => Q a | inl _ => True end).
Proof.
  intros Hm e s Hs. destruct (Hm e s Hs) as [HI HQ]. unfold attempt. by destruct (m e s) as [r s'].
Qed.

Lemma hoare_when b (m : M unit) : (b = true -> hoare I m (fun _ => True)) -> hoare I (when b m) (fun _ => True).
Proof. intros Hm. destruct b; [by apply Hm | by apply hoare_ret]. Qed.
Lemma hoare_guard b err : hoare I (guard_err b err) (fun _ : unit => b = false).
Proof. destruct b; [apply hoare_raise | by apply hoare_ret]. Qed.

Lemma hoare_stmt {A} (f : DB -> result A * DB) (Q : A -> Prop) :
  (forall d, I d -> I (f d).2 /\ match (f d).1 with inr a => Q a | inl _ => True end) -> hoare I (stmt f) Q.
Proof.
  intros Hf e [d fs tr] Hs. cbn in Hs. specialize (Hf d Hs). unfold stmt. cbn.
  destruct fs as [|[k|] fs]; [|done|]; by destruct (f d) as [r d'].
Qed.

Lemma hoare_find_first {T} (t : Table T) p (Q : T -> Prop) :
  (forall d r, I d -> In r (t_get t d) -> p r = true -> Q r) -> hoare I (find_first t p) Q.
Proof.
  intros HQ. apply hoare_stmt. intros d Hd. destruct (List.find p (t_get t d)) as [r|] eqn:E; [|done].
  apply List.find_some in E as [? ?]. split; [done|]. by eapply HQ.
Qed.
Lemma hoare_find_opt {T} (t : Table T) p (Q : T -> Prop) :
  (forall d r, I d -> In r (t_get t d) -> p r = true -> Q r) ->
  hoare I (find_opt t p) (fun o => match o with Some r => Q r | None => True end).
Proof.
  intros HQ. apply hoare_stmt. intros d Hd. cbn. split; [done|].
  destruct (List.find p (t_get t d)) as [r|] eqn:E; [|done]. apply List.find_some in E as [? ?]. by eapply HQ.
Qed.
Lemma hoare_find_all {T} (t : Table T) p (Q : T -> Prop) :
  (forall d r, I d -> In r (t_get t d) -> p r = true -> Q r) ->
  hoare I (find_all t p) (fun l => forall r, In r l -> Q r).
Proof.
  intros HQ. apply hoare_stmt. intros d Hd. cbn. split; [done|].
  intros r Hin. apply filter_In in Hin as [? ?]. by eapply HQ.
Qed.
Lemma hoare_count {T} (t : Table T) p : hoare I (count t p) (fun _ => True).
Proof. by apply hoare_stmt. Qed.
Lemma hoare_update {T} (t : Table T) (p : T -> bool) (f : T -> T) :
  (forall d, I d -> I (t_set t (List.map (fun r => if p r then f r else r) (t_get t d)) d)) ->
  hoare I (update t p f) (fun _ => True).
Proof. intros H. apply hoare_stmt. intros d Hd. split; [by apply H | done]. Qed.
Lemma hoare_delete {T} (t : Table T) (p : T -> bool) :
  (forall d, I d -> I (t_set t (List.filter (fun r => negb (p r)) (t_get t d)) d)) ->
  hoare I (delete_where t p) (fun _ => True).
Proof. intros H. apply hoare_stmt. intros d Hd. split; [by apply H | done]. Qed.
Lemma hoare_save {T} (t : Table T) r :
  (forall d, I d -> I (t_set t (List.map (fun r' => if t_same t r r' then r else r') (t_get t d)) d) /\
                    I (t_set t (t_get t d ++ [r]) d)) ->
  hoare I (save t r) (fun _ => True).
Proof.
  intros H. apply hoare_stmt. intros d Hd. cbn. split; [|done]. destruct (H d Hd) as [H1 H2].
  by destruct (List.existsb _ _).
Qed.
Lemma hoare_create {T} (t : Table T) r :
  (forall d, I d -> I (t_set t (t_get t d ++ [t_assign t (t_get t d) r]) d)) ->
  hoare I (create t r) (fun _ => True).
Proof. intros H. apply hoare_stmt. intros d Hd. cbv zeta. destruct (List.existsb _ _); cbn; auto. Qed.
Lemma hoare_create_or_ignore {T} (t : Table T) r :
  (forall d, I d -> I (t_set t (t_get t d ++ [t_assign t (t_get t d) r]) d)) ->
  hoare I (create_or_ignore t r) (fun _ => True).
Proof. intros H. apply hoare_stmt. intros d Hd. cbv zeta. destruct (List.existsb _ _); cbn; auto. Qed.

Lemma hoare_transaction {A} (body : M A) (Q : A -> Prop) : hoare I body Q -> hoare I (transaction body) Q.
Proof.
  intros Hb e s Hs. unfold transaction.
  assert (forall s0, st_db (snd (begin_or_commit e s0)) = st_db s0) as Hbc
    by (intros [d0 [|[k|] fs0] tr0]; done).
  pose proof (Hbc s) as H1. destruct (begin_or_commit e s) as [[err|u] s1]; cbn in H1 |- *; rewrite ?H1; [done|].
  destruct (Hb e s1) as [HI HQ]; [by rewrite H1|]. destruct (body e s1) as [[err|a] s2]; cbn in *; [done|].
  pose proof (Hbc s2) as H2. destruct (begin_or_commit e s2) as [[err|v] s3]; cbn in H2 |- *; rewrite ?H2; done.
Qed.
End Hoare.

(** A frame on the tables the invariant reads gives the invariant. *)
Lemma hoare_keeps {A X} (I : DB -> Prop) (view : DB -> X) (c : M A) :
  respects (keeps view) c -> (forall d d', view d' = view d -> I d -> I d') -> hoare I c (fun _ => True).
Proof.
  intros Hc HI e s Hs. destruct (Hc e s) as [Hv _]. split; [by eapply HI|]. by destruct (fst _).
Qed.

(** A relation of the tables together with a property of the value. *)
Lemma wp_tables {A} (P : DB -> DB -> Prop) (c : M A) (V : A -> Prop) (Q : result A -> St -> Prop) e d fs tr :
  respects (tables P) c -> hoare (fun _ => True) c V ->
  (forall r s', P d (st_db s') -> match r with inr a => V a | inl _ => True end -> Q r s') ->
  wp c Q e (mkSt d fs tr).
Proof.
  intros Hc Hv HQ. unfold wp. specialize (Hc e (mkSt d fs tr)). destruct (Hv e (mkSt d fs tr) I) as [_ Hr].
  destruct (c e _) as [r s']. by apply HQ.
Qed.

Lemma respects_wp {A} (P : DB -> DB -> Prop) (c : M A) :
  (forall e d fs tr, wp c (fun _ s' => P d (st_db s')) e (mkSt d fs tr)) -> respects (tables P) c.
Proof. intros H e [d fs tr]. specialize (H e d fs tr). unfold wp in H. unfold tables. by destruct (c e _). Qed.
