(* ===== verification/Ledger.v ===== *)
(** * Ledger: the observables of the quota tables

    What a row lookup answers, the well-formedness of the tables, and the
    elementary changes of a balance.  Every operation of the billing code is
    proved to be a composition of these changes; the lemmas here say what each
    does to each observable, so that the theorems about the operations are
    short. *)

From S2P Require Import Prelude Schema Store Logic.
From stdpp Require Import base numbers option strings list.
From Stdlib Require Import ZArith Lia.
Open Scope Z_scope.

(** ** Observables *)

Definition has_user (i : Z) (r : User) : bool := u_id r =? i.
Definition has_token (i : Z) (r : Token) : bool := tk_id r =? i.
Definition has_sub (i : Z) (r : UserSubscription) : bool := us_id r =? i.
Definition has_request (k : string) (r : BillingReservationRecord) : bool := str_eqb (br_request_id r) k.
Definition has_pc (k : string) (r : SubscriptionPreConsumeRecord) : bool := str_eqb (pc_request_id r) k.

Definition user_row (d : DB) (u : Z) : option User := List.find (has_user u) (db_users d).
Definition token_row (d : DB) (t : Z) : option Token := List.find (has_token t) (db_tokens d).
Definition sub_row (d : DB) (s : Z) : option UserSubscription := List.find (has_sub s) (db_subs d).
Definition reservation (d : DB) (k : string) : option BillingReservationRecord :=
  List.find (has_request k) (db_reservations d).
Definition pre_consume (d : DB) (k : string) : option SubscriptionPreConsumeRecord :=
  List.find (has_pc k) (db_pre_consumes d).

Definition live_user (d : DB) (u : Z) : bool :=
  match user_row d u with Some r => negb (u_deleted r) | None => false end.
Definition live_token (d : DB) (t : Z) : bool :=
  match token_row d t with Some r => negb (tk_deleted r) | None => false end.

(** Balances; 0 for a missing row. *)
Definition wallet (d : DB) (u : Z) : Z := default 0 (u_quota <$> user_row d u).
Definition key_remain (d : DB) (t : Z) : Z := default 0 (tk_remain_quota <$> token_row d t).
Definition key_used (d : DB) (t : Z) : Z := default 0 (tk_used_quota <$> token_row d t).
Definition sub_used (d : DB) (s : Z) : Z := default 0 (us_amount_used <$> sub_row d s).

Lemma has_user_spec i r : has_user i r = true <-> u_id r = i.
Proof. apply Z.eqb_eq. Qed.
Lemma has_token_spec i r : has_token i r = true <-> tk_id r = i.
Proof. apply Z.eqb_eq. Qed.
Lemma has_sub_spec i r : has_sub i r = true <-> us_id r = i.
Proof. apply Z.eqb_eq. Qed.
Lemma has_request_spec k r : has_request k r = true <-> br_request_id r = k.
Proof. apply str_eqb_true. Qed.
Lemma has_pc_spec k r : has_pc k r = true <-> pc_request_id r = k.
Proof. apply str_eqb_true. Qed.

(** ** Well-formed tables: the keys the schema declares unique are unique *)

Record wf (d : DB) : Prop := mkWf {
  wf_users : unique_key u_id (db_users d);
  wf_tokens : unique_key tk_id (db_tokens d);
  wf_reservation_ids : unique_key br_id (db_reservations d);
  wf_requests : unique_key br_request_id (db_reservations d)
}.

Record wf_subs (d : DB) : Prop := mkWfSubs {
  wf_sub_ids : unique_key us_id (db_subs d);
  wf_pc_ids : unique_key pc_id (db_pre_consumes d);
  wf_pc_requests : unique_key pc_request_id (db_pre_consumes d)
}.

(** Everything but the subscription tables: what the code that bills a
    subscription leaves alone. *)
Definition no_subs (d : DB) : DB := d <| db_subs := @nil UserSubscription |> <| db_pre_consumes := @nil SubscriptionPreConsumeRecord |>.

Lemma no_subs_users d d' : no_subs d' = no_subs d -> db_users d' = db_users d.
Proof. intros H. exact (f_equal db_users H). Qed.
Lemma no_subs_tokens d d' : no_subs d' = no_subs d -> db_tokens d' = db_tokens d.
Proof. intros H. exact (f_equal db_tokens H). Qed.
Lemma no_subs_reservations d d' : no_subs d' = no_subs d -> db_reservations d' = db_reservations d.
Proof. intros H. exact (f_equal db_reservations H). Qed.
Lemma no_subs_wf d d' : no_subs d' = no_subs d -> wf d -> wf d'.
Proof.
  intros H []. split; rewrite ?(no_subs_users _ _ H), ?(no_subs_tokens _ _ H),
    ?(no_subs_reservations _ _ H); done.
Qed.

(** ** Elementary changes *)

Definition adj_user (u delta : Z) (d : DB) : DB :=
  d <| db_users ::= upd_rows (has_user u) (fun r => r <| u_quota ::= fun q => q + delta |>) |>.

(** [accessed] is the new access time when the statement sets it. *)
Definition adj_token (t delta : Z) (accessed : option Z) (d : DB) : DB :=
  d <| db_tokens ::= upd_rows (has_token t)
         (fun r => r <| tk_remain_quota ::= fun q => q + delta |>
                     <| tk_used_quota ::= fun q => q - delta |>
                     <| tk_accessed_time ::= fun a => default a accessed |>) |>.

Definition put_sub (s : UserSubscription) (d : DB) : DB :=
  d <| db_subs ::= upd_rows (has_sub (us_id s)) (fun _ => s) |>.

Definition add_reservation (r : BillingReservationRecord) (d : DB) : DB :=
  d <| db_reservations ::= fun l => l ++ [r] |>.

(** Change the record of a request, keeping its two keys. *)
Definition upd_reservation (k : string) (f : BillingReservationRecord -> BillingReservationRecord)
    (d : DB) : DB :=
  d <| db_reservations ::= upd_rows (has_request k) f |>.

Definition keeps_keys (f : BillingReservationRecord -> BillingReservationRecord) : Prop :=
  forall r, br_id (f r) = br_id r /\ br_request_id (f r) = br_request_id r.

(** ** What each change does to each observable *)

Section Changes.
Implicit Types (d : DB).

Lemma user_row_adj_user u v delta d :
  user_row (adj_user u delta d) v =
  (fun r => if v =? u then r <| u_quota ::= fun q => q + delta |> else r) <$> user_row d v.
Proof.
  unfold user_row, adj_user; cbn. rewrite find_upd_stable by done.
  destruct (List.find _ _) as [r|] eqn:E; [|done]. simpl.
  apply List.find_some in E as [_ E%has_user_spec]. unfold has_user. by rewrite E.
Qed.

Lemma token_row_adj_token t v delta a d :
  token_row (adj_token t delta a d) v =
  (fun r => if v =? t then r <| tk_remain_quota ::= fun q => q + delta |>
                   <| tk_used_quota ::= fun q => q - delta |>
                   <| tk_accessed_time ::= fun x => default x a |> else r) <$> token_row d v.
Proof.
  unfold token_row, adj_token; cbn. rewrite find_upd_stable by done.
  destruct (List.find _ _) as [r|] eqn:E; [|done]. simpl.
  apply List.find_some in E as [_ E%has_token_spec]. unfold has_token. by rewrite E.
Qed.

Lemma wallet_adj_user u v delta d :
  wallet (adj_user u delta d) v =
  wallet d v + (if (v =? u) && bool_decide (is_Some (user_row d v)) then delta else 0).
Proof.
  unfold wallet. rewrite user_row_adj_user.
  destruct (user_row d v); cbn; destruct (v =? u); cbn; lia.
Qed.

Lemma key_remain_adj_token t v delta a d :
  key_remain (adj_token t delta a d) v =
  key_remain d v + (if (v =? t) && bool_decide (is_Some (token_row d v)) then delta else 0).
Proof.
  unfold key_remain. rewrite token_row_adj_token.
  destruct (token_row d v); cbn; destruct (v =? t); cbn; lia.
Qed.

Lemma key_used_adj_token t v delta a d :
  key_used (adj_token t delta a d) v =
  key_used d v - (if (v =? t) && bool_decide (is_Some (token_row d v)) then delta else 0).
Proof.
  unfold key_used. rewrite token_row_adj_token.
  destruct (token_row d v); cbn; destruct (v =? t); cbn; lia.
Qed.

Lemma live_user_adj_user u v delta d : live_user (adj_user u delta d) v = live_user d v.
Proof.
  unfold live_user. rewrite user_row_adj_user.
  destruct (user_row d v); cbn; [|done]. by destruct (v =? u).
Qed.

Lemma live_token_adj_token t v delta a d : live_token (adj_token t delta a d) v = live_token d v.
Proof.
  unfold live_token. rewrite token_row_adj_token.
  destruct (token_row d v); cbn; [|done]. by destruct (v =? t).
Qed.

Lemma reservation_upd k k' f d :
  keeps_keys f ->
  reservation (upd_reservation k f d) k' =
  (fun r => if str_eqb k' k then f r else r) <$> reservation d k'.
Proof.
  intros Hf. unfold reservation, upd_reservation; cbn.
  rewrite find_upd_stable by (intros r; unfold has_request; by rewrite (proj2 (Hf r))).
  destruct (List.find _ _) as [r|] eqn:E; [|done]. simpl.
  apply List.find_some in E as [_ E%has_request_spec]. unfold has_request. by rewrite E.
Qed.

Lemma reservation_add r k d :
  reservation d (br_request_id r) = None ->
  reservation (add_reservation r d) k =
  if str_eqb (br_request_id r) k then Some r else reservation d k.
Proof.
  intros Hn. unfold reservation, add_reservation in *; cbn. rewrite find_app. cbn [List.find].
  change (has_request k r) with (str_eqb (br_request_id r) k).
  destruct (str_eqb (br_request_id r) k) eqn:E.
  - apply str_eqb_true in E as <-. by rewrite Hn.
  - destruct (find (has_request k) (db_reservations d)). all: reflexivity.
Qed.
End Changes.

(** Live rows exist. *)
Lemma live_user_some d u : live_user d u = true -> exists r, user_row d u = Some r /\ u_deleted r = false.
Proof.
  unfold live_user. destruct (user_row d u) as [r|]; [|done].
  intros H. exists r. by destruct (u_deleted r).
Qed.
Lemma live_token_some d t : live_token d t = true -> exists r, token_row d t = Some r /\ tk_deleted r = false.
Proof.
  unfold live_token. destruct (token_row d t) as [r|]; [|done].
  intros H. exists r. by destruct (tk_deleted r).
Qed.

#[export] Hint Rewrite user_row_adj_user token_row_adj_token wallet_adj_user key_remain_adj_token
  key_used_adj_token live_user_adj_user live_token_adj_token : ledger_rw.

(** ** The SQL forms of the changes *)

Lemma set_users_same d : (d <| db_users := db_users d |>) = d.
Proof. by destruct d. Qed.
Lemma set_tokens_same d : (d <| db_tokens := db_tokens d |>) = d.
Proof. by destruct d. Qed.

Lemma upd_rows_ext {R} (p p' : R -> bool) (f f' : R -> R) l :
  (forall r, p r = p' r) -> (forall r, f r = f' r) -> upd_rows p f l = upd_rows p' f' l.
Proof. intros Hp Hf. unfold upd_rows. apply map_ext. intros r. by rewrite Hp, Hf. Qed.

Lemma rows_count_ext {R} (p p' : R -> bool) l :
  (forall r, p r = p' r) -> rows_count p l = rows_count p' l.
Proof. intros Hp. unfold rows_count. by rewrite (filter_ext p p'). Qed.

Lemma scope_key (a b c : bool) : a && (b && c) = b && (a && c).
Proof. by destruct a, b. Qed.

Section Sql.
Context (d : DB) (Hwf : wf d).

(** [UPDATE users SET quota = quota + delta WHERE id = u AND cond], scoped. *)
Lemma update_user_sql (u : Z) (cond : User -> bool) (delta : Z) (f : User -> User) :
  (forall r, f r = r <| u_quota ::= fun q => q + delta |>) ->
  let p := user_where (fun r => (u_id r =? u) && cond r) in
  let n := rows_count p (db_users d) in
  let d' := d <| db_users := upd_rows p f (db_users d) |> in
  (n = 0 /\ d' = d /\
   forall r, user_row d u = Some r -> negb (u_deleted r) && cond r = false) \/
  (n = 1 /\ d' = adj_user u delta d /\
   exists r, user_row d u = Some r /\ negb (u_deleted r) && cond r = true).
Proof.
  intros Hf p n d'. unfold n, d', adj_user.
  rewrite (rows_count_ext p (fun r => has_user u r && (negb (u_deleted r) && cond r)) _ (fun r => scope_key _ _ _)).
  rewrite (upd_rows_ext p (fun r => has_user u r && (negb (u_deleted r) && cond r)) f _ _ (fun r => scope_key _ _ _) Hf).
  destruct (keyed_update u_id has_user has_user_spec u (fun r => negb (u_deleted r) && cond r)
    (fun r => r <| u_quota ::= fun q => q + delta |>) _ (wf_users d Hwf))
    as [(Hn & Hd & Hr)|(Hn & Hd & Hr)]; [left|right]; (split; [exact Hn|]); rewrite Hd.
  - split; [apply set_users_same | exact Hr].
  - split; [reflexivity | exact Hr].
Qed.

(** The same for the two quota columns of a token. *)
Lemma update_token_sql (t : Z) (cond : Token -> bool) (delta : Z) (a : option Z) (f : Token -> Token) :
  (forall r, f r = r <| tk_remain_quota ::= fun q => q + delta |>
                     <| tk_used_quota ::= fun q => q - delta |>
                     <| tk_accessed_time ::= fun x => default x a |>) ->
  let p := token_where (fun r => (tk_id r =? t) && cond r) in
  let n := rows_count p (db_tokens d) in
  let d' := d <| db_tokens := upd_rows p f (db_tokens d) |> in
  (n = 0 /\ d' = d /\
   forall r, token_row d t = Some r -> negb (tk_deleted r) && cond r = false) \/
  (n = 1 /\ d' = adj_token t delta a d /\
   exists r, token_row d t = Some r /\ negb (tk_deleted r) && cond r = true).
Proof.
  intros Hf p n d'. unfold n, d', adj_token.
  rewrite (rows_count_ext p (fun r => has_token t r && (negb (tk_deleted r) && cond r)) _ (fun r => scope_key _ _ _)).
  rewrite (upd_rows_ext p (fun r => has_token t r && (negb (tk_deleted r) && cond r)) f _ _ (fun r => scope_key _ _ _) Hf).
  destruct (keyed_update tk_id has_token has_token_spec t (fun r => negb (tk_deleted r) && cond r)
    (fun r => r <| tk_remain_quota ::= fun q => q + delta |>
                <| tk_used_quota ::= fun q => q - delta |>
                <| tk_accessed_time ::= fun x => default x a |>) _ (wf_tokens d Hwf))
    as [(Hn & Hd & Hr)|(Hn & Hd & Hr)]; [left|right]; (split; [exact Hn|]); rewrite Hd.
  - split; [apply set_tokens_same | exact Hr].
  - split; [reflexivity | exact Hr].
Qed.
End Sql.

(** ** Well-formedness is kept *)

Lemma wf_adj_user u delta d : wf d -> wf (adj_user u delta d).
Proof. intros []. split; cbn; try done. by apply upd_unique. Qed.
Lemma wf_adj_token t delta a d : wf d -> wf (adj_token t delta a d).
Proof. intros []. split; cbn; try done. by apply upd_unique. Qed.
Lemma wf_upd_reservation k f d : keeps_keys f -> wf d -> wf (upd_reservation k f d).
Proof.
  intros Hf []. split; cbn; try done; apply upd_unique; try done; intros r; apply Hf.
Qed.
Lemma wf_add_reservation r d :
  List.existsb (t_clash Reservations r) (db_reservations d) = false ->
  wf d -> wf (add_reservation r d).
Proof.
  intros Hc []. 
  assert (forall r', In r' (db_reservations d) ->
            br_id r' <> br_id r /\ br_request_id r' <> br_request_id r) as Hn.
  { intros r' Hin. destruct (t_clash Reservations r r') eqn:E.
    - assert (List.existsb (t_clash Reservations r) (db_reservations d) = true) by
        (apply List.existsb_exists; eauto). congruence.
    - cbn in E. apply orb_false_iff in E as [E1%Z.eqb_neq E2%str_eqb_false]. split; congruence. }
  split; cbn; try done; apply app_unique; try done; intros r' Hin; by apply Hn in Hin as [].
Qed.

#[export] Hint Resolve wf_adj_user wf_adj_token wf_upd_reservation wf_add_reservation : ledger.

(** ** Postings

    [posted u du t dt d d']: between [d] and [d'] the balance of user [u] moved
    by [du], the remaining quota of key [t] moved by [dt] (its used quota by
    [- dt]), and no other balance moved. *)

Definition shift_user (du : Z) (r : User) : User := r <| u_quota ::= fun q => q + du |>.
Definition shift_key (dt : Z) (a : option Z) (r : Token) : Token :=
  r <| tk_remain_quota ::= fun q => q + dt |> <| tk_used_quota ::= fun q => q - dt |>
    <| tk_accessed_time ::= fun x => default x a |>.

Definition posted (u du t dt : Z) (d d' : DB) : Prop :=
  db_users d' = upd_rows (has_user u) (shift_user du) (db_users d) /\
  exists a, db_tokens d' = upd_rows (has_token t) (shift_key dt a) (db_tokens d).

Lemma upd_rows_same {R} (p : R -> bool) (f : R -> R) l : (forall r, f r = r) -> upd_rows p f l = l.
Proof.
  intros Hf. unfold upd_rows. rewrite <- (map_id l) at 2. apply map_ext. intros r. destruct (p r); auto.
Qed.

Lemma shift_user_zero r : shift_user 0 r = r.
Proof. destruct r. unfold shift_user; cbn. by rewrite Z.add_0_r. Qed.
Lemma shift_key_zero r : shift_key 0 None r = r.
Proof. destruct r. unfold shift_key; cbn. by rewrite Z.add_0_r, Z.sub_0_r. Qed.

Lemma upd_user_zero u l : upd_rows (has_user u) (shift_user 0) l = l.
Proof. apply upd_rows_same, shift_user_zero. Qed.
Lemma upd_key_zero t l : upd_rows (has_token t) (shift_key 0 None) l = l.
Proof. apply upd_rows_same, shift_key_zero. Qed.

(** Discharge a posting whose two tables are known. *)
Lemma posted_none u t d d' :
  db_users d' = db_users d -> db_tokens d' = db_tokens d -> posted u 0 t 0 d d'.
Proof.
  intros Hu Ht. split; [by rewrite upd_user_zero|]. exists None. by rewrite upd_key_zero.
Qed.

Section Posted.
Context (u du t dt : Z) (d d' : DB) (Hp : posted u du t dt d d').

Lemma posted_user_row v :
  user_row d' v = (fun r => if v =? u then shift_user du r else r) <$> user_row d v.
Proof. unfold user_row. rewrite (proj1 Hp). exact (user_row_adj_user u v du d). Qed.

Lemma posted_token_row v :
  exists a, token_row d' v = (fun r => if v =? t then shift_key dt a r else r) <$> token_row d v.
Proof.
  destruct (proj2 Hp) as [a Ha]. exists a. unfold token_row. rewrite Ha.
  exact (token_row_adj_token t v dt a d).
Qed.

Lemma posted_wallet v :
  wallet d' v = wallet d v + (if (v =? u) && bool_decide (is_Some (user_row d v)) then du else 0).
Proof. unfold wallet, user_row. rewrite (proj1 Hp). exact (wallet_adj_user u v du d). Qed.

Lemma posted_key_remain v :
  key_remain d' v =
  key_remain d v + (if (v =? t) && bool_decide (is_Some (token_row d v)) then dt else 0).
Proof.
  destruct (proj2 Hp) as [a Ha]. unfold key_remain, token_row. rewrite Ha.
  exact (key_remain_adj_token t v dt a d).
Qed.

Lemma posted_key_used v :
  key_used d' v =
  key_used d v - (if (v =? t) && bool_decide (is_Some (token_row d v)) then dt else 0).
Proof.
  destruct (proj2 Hp) as [a Ha]. unfold key_used, token_row. rewrite Ha.
  exact (key_used_adj_token t v dt a d).
Qed.

Lemma posted_live_user v : live_user d' v = live_user d v.
Proof. unfold live_user, user_row. rewrite (proj1 Hp). exact (live_user_adj_user u v du d). Qed.

Lemma posted_live_token v : live_token d' v = live_token d v.
Proof.
  destruct (proj2 Hp) as [a Ha]. unfold live_token, token_row. rewrite Ha.
  exact (live_token_adj_token t v dt a d).
Qed.
End Posted.

(** The balance of a live row is that of the row. *)
Lemma live_user_exists d u : live_user d u = true -> bool_decide (is_Some (user_row d u)) = true.
Proof. unfold live_user. by destruct (user_row d u). Qed.
Lemma live_token_exists d t : live_token d t = true -> bool_decide (is_Some (token_row d t)) = true.
Proof. unfold live_token. by destruct (token_row d t). Qed.

(** ** Movements of live rows only

    gorm's scope makes an update of a soft-deleted user or key a no-op; a token
    id that is not positive stands for no key. *)

Definition user_moves (d : DB) (u x : Z) : Z := if live_user d u then x else 0.
Definition key_moves (d : DB) (t x : Z) : Z := if (0 <? t) && live_token d t then x else 0.

Definition bump_user (u x : Z) (d : DB) : DB := if live_user d u then adj_user u x d else d.
Definition bump_key (t x : Z) (a : option Z) (d : DB) : DB :=
  if (0 <? t) && live_token d t then adj_token t x a d else d.

(** When a guarded debit goes through. *)
Definition user_covers (d : DB) (u x : Z) : bool := live_user d u && (x <=? wallet d u).
Definition key_covers (d : DB) (t x : Z) (unlimited : bool) : bool :=
  (t <=? 0) || (x =? 0) || (live_token d t && (unlimited || (x <=? key_remain d t))).

Lemma bump_user_zero u d : bump_user u 0 d = d.
Proof.
  unfold bump_user. destruct (live_user d u); [|done]. unfold adj_user. cbn.
  rewrite upd_rows_same; [apply set_users_same|]. apply shift_user_zero.
Qed.
Lemma bump_key_zero t d : bump_key t 0 None d = d.
Proof.
  unfold bump_key. destruct (_ && _); [|done]. unfold adj_token. cbn.
  rewrite upd_rows_same; [apply set_tokens_same|]. apply shift_key_zero.
Qed.

Lemma users_bump_user u x d :
  db_users (bump_user u x d) = upd_rows (has_user u) (shift_user (user_moves d u x)) (db_users d).
Proof.
  unfold bump_user, user_moves. destruct (live_user d u); [done|]. by rewrite upd_user_zero.
Qed.
Lemma tokens_bump_key t x a d :
  exists a', db_tokens (bump_key t x a d) =
  upd_rows (has_token t) (shift_key (key_moves d t x) a') (db_tokens d).
Proof.
  unfold bump_key, key_moves. destruct (_ && _); [by exists a|]. exists None. by rewrite upd_key_zero.
Qed.

(** A user movement and a key movement over the same tables are a posting. *)
Lemma posted_intro u du t dt d d' :
  db_users d' = upd_rows (has_user u) (shift_user du) (db_users d) ->
  (exists a, db_tokens d' = upd_rows (has_token t) (shift_key dt a) (db_tokens d)) ->
  posted u du t dt d d'.
Proof. by split. Qed.

Lemma frame_bump_user u x d :
  db_tokens (bump_user u x d) = db_tokens d /\ db_reservations (bump_user u x d) = db_reservations d /\
  db_subs (bump_user u x d) = db_subs d /\ db_pre_consumes (bump_user u x d) = db_pre_consumes d.
Proof. unfold bump_user. by destruct (live_user d u). Qed.
Lemma frame_bump_key t x a d :
  db_users (bump_key t x a d) = db_users d /\ db_reservations (bump_key t x a d) = db_reservations d /\
  db_subs (bump_key t x a d) = db_subs d /\ db_pre_consumes (bump_key t x a d) = db_pre_consumes d.
Proof. unfold bump_key. by destruct (_ && _). Qed.

Lemma wf_bump_user u x d : wf d -> wf (bump_user u x d).
Proof. intros. unfold bump_user. destruct (live_user d u); auto with ledger. Qed.
Lemma wf_bump_key t x a d : wf d -> wf (bump_key t x a d).
Proof. intros. unfold bump_key. destruct (_ && _); auto with ledger. Qed.
#[export] Hint Resolve wf_bump_user wf_bump_key : ledger.

(** ** Postings compose *)

Lemma upd_rows_compose {R} (p : R -> bool) (f g : R -> R) l :
  (forall r, p (f r) = p r) -> upd_rows p g (upd_rows p f l) = upd_rows p (fun r => g (f r)) l.
Proof.
  intros Hp. unfold upd_rows. rewrite List.map_map. apply map_ext. intros r.
  destruct (p r) eqn:E; [by rewrite Hp, E | by rewrite E].
Qed.

Lemma posted_compose u x1 x2 t y1 y2 d d1 d2 :
  posted u x1 t y1 d d1 -> posted u x2 t y2 d1 d2 -> posted u (x1 + x2) t (y1 + y2) d d2.
Proof.
  intros [Hu1 [a1 Ht1]] [Hu2 [a2 Ht2]]. split.
  - rewrite Hu2, Hu1, upd_rows_compose by done. apply upd_rows_ext; [done|].
    intros r. unfold shift_user; cbn. f_equal. lia.
  - exists (match a2 with Some _ => a2 | None => a1 end).
    rewrite Ht2, Ht1, upd_rows_compose by done. apply upd_rows_ext; [done|].
    intros r. unfold shift_key; cbn. f_equal; [by destruct a2 | lia | lia].
Qed.

Lemma posted_moves u x t y d d1 v z :
  posted u x t y d d1 -> user_moves d1 v z = user_moves d v z /\ key_moves d1 v z = key_moves d v z.
Proof.
  intros P. unfold user_moves, key_moves.
  by rewrite (posted_live_user _ _ _ _ _ _ P), (posted_live_token _ _ _ _ _ _ P).
Qed.

Lemma user_moves_add d u x y : user_moves d u x + user_moves d u y = user_moves d u (x + y).
Proof. unfold user_moves. destruct (live_user d u); lia. Qed.
Lemma key_moves_add d t x y : key_moves d t x + key_moves d t y = key_moves d t (x + y).
Proof. unfold key_moves. destruct (_ && _); lia. Qed.
Lemma user_moves_zero d u : user_moves d u 0 = 0.
Proof. unfold user_moves. by destruct (live_user d u). Qed.
Lemma key_moves_zero d t : key_moves d t 0 = 0.
Proof. unfold key_moves. by destruct (_ && _). Qed.

(** What a posting means for the row of its user and its key. *)
Lemma posted_balances u x t y d d' :
  posted u (user_moves d u x) t (key_moves d t y) d d' ->
  (forall v, wallet d' v = wallet d v + (if v =? u then user_moves d u x else 0)) /\
  (forall v, key_remain d' v = key_remain d v + (if v =? t then key_moves d t y else 0)) /\
  (forall v, key_used d' v = key_used d v - (if v =? t then key_moves d t y else 0)).
Proof.
  intros P. split_and!; intros v.
  - rewrite (posted_wallet _ _ _ _ _ _ P). destruct (Z.eqb_spec v u) as [->|]; [|done].
    unfold user_moves. destruct (live_user d u) eqn:E; [|by destruct (_ && _)].
    by rewrite (live_user_exists _ _ E).
  - rewrite (posted_key_remain _ _ _ _ _ _ P). destruct (Z.eqb_spec v t) as [->|]; [|done].
    unfold key_moves. destruct (0 <? t), (live_token d t) eqn:E; cbn [andb]; try (by destruct (bool_decide _)).
    by rewrite (live_token_exists _ _ E).
  - rewrite (posted_key_used _ _ _ _ _ _ P). destruct (Z.eqb_spec v t) as [->|]; [|done].
    unfold key_moves. destruct (0 <? t), (live_token d t) eqn:E; cbn [andb]; try (by destruct (bool_decide _)).
    by rewrite (live_token_exists _ _ E).
Qed.
