(* ===== verification/Demo.v ===== *)
(** * Demo: one concrete database, used to run the definitions

    A user with two keys and one monthly subscription.  The examples and the
    concrete instances of the theorems run the operations on it. *)

From S2P Require Import Prelude Calendar Schema Store Logic Ledger.
From stdpp Require Import base numbers option strings list.
From Stdlib Require Import ZArith Lia Floats.SpecFloat.
Open Scope Z_scope.

Module Demo.
(** 2026-01-15 12:00:00 UTC. *)
Definition now : Z := 1768478400.

Definition env : Env :=
  mkEnv now (fixed_zone 0) true false true false true true false (S754_finite false 500000 0)
    (fun _ => None) (fun _ => inl ErrRecordNotFound).

Definition user : User := mkUser 1 "ada" "ada@example.com" 1000 0 0 "default" "" false.
Definition limited_key : Token := mkToken 7 1 "sk-limited" 1 "limited" 0 (-1) 500 false 20 false.
Definition open_key : Token := mkToken 8 1 "sk-open" 1 "open" 0 (-1) 0 true 0 false.
Definition plan : SubscriptionPlan :=
  mkSubscriptionPlan 3 "Pro" (S754_finite false 10 0) "month" 1 0 true None None 0 "" "" 300 "daily" 0.
Definition sub : UserSubscription :=
  mkUserSubscription 5 1 3 300 50 (now - 3600) (now + 86400 * 30) "active" "order"
    (now - 3600) (now + 12 * 3600) "" "" "" true (now - 3600) (now - 3600).

Definition db : DB :=
  mkDB [user] [limited_key; open_key] [] [plan] [sub] [] [] [] [] [] [] [] [] [] [] [] [].

(** A state with no pending driver failure. *)
Definition start (d : DB) : St := mkSt d [] [].

(** The state and the database after an operation. *)
Definition final {A} (c : M A) (d : DB) : St := snd (c env (start d)).
Definition after {A} (c : M A) (d : DB) : DB := st_db (final c d).

Lemma wf_db : wf db.
Proof. by split; apply (bool_decide_unpack _); vm_compute. Qed.
Lemma wf_subs_db : wf_subs db.
Proof. by split; apply (bool_decide_unpack _); vm_compute. Qed.
End Demo.
