(* ===== verification/Quota.v ===== *)
(** * Quota: the saturating conversions of [src/common/quota_math.go]

    A [float64] is an IEEE value ([SpecFloat.spec_float]).  The comparisons of
    the source are against [float64] images of integers below 2^53, which are
    exact, so they are modelled on the exact rational values.  The decimals are
    those of github.com/shopspring/decimal, which is not part of the
    repository: its operations are the fields of [DecimalOps]. *)

From S2P Require Import Prelude Schema.
From stdpp Require Import base numbers option strings list.
From Stdlib Require Import ZArith Lia Floats.SpecFloat.
Open Scope Z_scope.

Definition MaxQuota : Z := 2 ^ 31 - 1.
Definition MinQuota : Z := - 2 ^ 31.
Definition MaxWalletQuota : Z := 2 ^ 53 - 1.

Inductive QuotaClampKind := QuotaClampOverflow | QuotaClampUnderflow | QuotaClampNaN.

Record QuotaClamp := mkClamp {
  cl_Op : string;
  cl_Kind : QuotaClampKind;
  cl_Original : float64;
  cl_Clamped : Z
}.

(** Sign and magnitude of a finite float as an exact dyadic [n * 2^e]. *)
Definition signed (s : bool) (m : positive) : Z := if s then Z.neg m else Z.pos m.

Definition math_IsNaN (f : float64) : bool :=
  match f with S754_nan => true | _ => false end.

(** [f > float64(n)] and [f < float64(n)]. *)
Definition float_gt (f : float64) (n : Z) : bool :=
  match f with
  | S754_nan => false
  | S754_zero _ => n <? 0
  | S754_infinity s => negb s
  | S754_finite s m e =>
      if 0 <=? e then n <? signed s m * 2 ^ e else n * 2 ^ (- e) <? signed s m
  end.
Definition float_lt (f : float64) (n : Z) : bool :=
  match f with
  | S754_nan => false
  | S754_zero _ => 0 <? n
  | S754_infinity s => s
  | S754_finite s m e =>
      if 0 <=? e then signed s m * 2 ^ e <? n else signed s m <? n * 2 ^ (- e)
  end.

(** [int(f)]: truncation toward zero, for values in the range of [int]. *)
Definition float_trunc (f : float64) : Z :=
  match f with
  | S754_finite s m e =>
      if 0 <=? e then signed s m * 2 ^ e else Z.quot (signed s m) (2 ^ (- e))
  | _ => 0
  end.

(** [math.Round]: half away from zero. *)
Definition math_Round (f : float64) : float64 :=
  match f with
  | S754_finite s m e =>
      if 0 <=? e then f
      else let q := (Z.pos m + 2 ^ (- e - 1)) / 2 ^ (- e) in
           binary_normalize 53 1024 (if s then - q else q) 0 s
  | _ => f
  end.

Definition ValidateWalletQuota (quota : Z) : bool := quota <=? MaxWalletQuota.

Definition saturateQuotaBounded (value : float64) (op : string) (maxQuota minQuota : Z)
  : Z * option QuotaClamp :=
  let clamp k v := (v, Some (mkClamp op k value v)) in
  if math_IsNaN value then clamp QuotaClampNaN 0
  else if float_gt value maxQuota then clamp QuotaClampOverflow maxQuota
  else if float_lt value minQuota then clamp QuotaClampUnderflow minQuota
  else (float_trunc value, None).

Definition saturateQuota (value : float64) (op : string) : Z * option QuotaClamp :=
  saturateQuotaBounded value op MaxQuota MinQuota.

Definition strictQuota (r : Z * option QuotaClamp) : QuotaClamp + Z :=
  match r.2 with
  | Some clamp => inl clamp
  | None => inr r.1
  end.

Definition QuotaFromFloatChecked (value : float64) : Z * option QuotaClamp :=
  saturateQuota value "QuotaFromFloat".
Definition QuotaFromFloat (value : float64) : Z := (QuotaFromFloatChecked value).1.
Definition QuotaFromFloatStrict (value : float64) : QuotaClamp + Z :=
  strictQuota (QuotaFromFloatChecked value).

Definition QuotaRoundChecked (value : float64) : Z * option QuotaClamp :=
  saturateQuota (math_Round value) "QuotaRound".
Definition QuotaRound (value : float64) : Z := (QuotaRoundChecked value).1.
Definition QuotaRoundStrict (value : float64) : QuotaClamp + Z :=
  strictQuota (QuotaRoundChecked value).

(** What the billing code uses of [decimal.Decimal]. *)
Class DecimalOps (D : Type) := {
  NewFromFloat : float64 -> D;
  NewFromInt : Z -> D;
  Mul : D -> D -> D;
  Div : D -> D -> D;
  Round0 : D -> D;              (* Round(0) *)
  Ceil : D -> D;
  ToFloat64 : D -> float64      (* the value of Float64() *)
}.

Section Decimals.
Context {D : Type} `{DecimalOps D}.

Definition QuotaFromDecimalChecked (d : D) : Z * option QuotaClamp :=
  saturateQuota (ToFloat64 (Round0 d)) "QuotaFromDecimal".
Definition QuotaFromDecimal (d : D) : Z := (QuotaFromDecimalChecked d).1.
Definition QuotaFromDecimalStrict (d : D) : QuotaClamp + Z :=
  strictQuota (QuotaFromDecimalChecked d).
Definition WalletQuotaFromDecimalStrict (d : D) : QuotaClamp + Z :=
  strictQuota (saturateQuotaBounded (ToFloat64 (Round0 d)) "WalletQuotaFromDecimal"
                 MaxWalletQuota (- MaxWalletQuota)).
End Decimals.

(** ** Bounds *)

Lemma trunc_between f lo hi :
  lo <= 0 <= hi -> float_gt f hi = false -> float_lt f lo = false ->
  lo <= float_trunc f <= hi.
Proof.
  intros Hb. destruct f as [s|s| |s m e]; simpl; try lia.
  destruct (Z.leb_spec 0 e) as [He|He]; rewrite !Z.ltb_ge; intros H1 H2; [lia|].
  assert (0 < 2 ^ (- e)) as Hp by (apply Z.pow_pos_nonneg; lia).
  set (P := 2 ^ (- e)) in *. set (n := signed s m) in *.
  pose proof (Z.quot_rem' n P) as Hq. clearbody P n.
  destruct (Z.le_gt_cases 0 n) as [Hn|Hn].
  - pose proof (Z.rem_bound_pos n P Hn Hp).
    assert (0 <= Z.quot n P) by (apply Z.quot_pos; lia).
    assert (P * Z.quot n P <= P * hi) by lia. nia.
  - pose proof (Z.rem_nonpos n P ltac:(lia) ltac:(lia)).
    assert (Z.quot n P <= 0) by (pose proof (Z.quot_pos (- n) P ltac:(lia) Hp);
      rewrite Z.quot_opp_l in * by lia; lia).
    assert (P * lo <= P * Z.quot n P) by lia. nia.
Qed.

Lemma saturate_bounds value op hi lo :
  lo <= 0 <= hi -> lo <= (saturateQuotaBounded value op hi lo).1 <= hi.
Proof.
  intros Hb. unfold saturateQuotaBounded.
  destruct (math_IsNaN value); [simpl; lia|].
  destruct (float_gt value hi) eqn:E1; [simpl; lia|].
  destruct (float_lt value lo) eqn:E2; [simpl; lia|].
  by apply trunc_between.
Qed.

Lemma strict_inr r z : strictQuota r = inr z -> r.1 = z /\ r.2 = None.
Proof. unfold strictQuota. destruct r as [q [c|]]; simpl; intros [=]; done. Qed.

#[export] Hint Resolve saturate_bounds : quota.
