(* ===== verification/Subscription.v ===== *)
(** * Subscription: [src/model/subscription.go]

    Plans, user subscriptions and their quota: reset schedule, pre-consumption,
    refund, post-consumption, purchase, expiry.  Functions keep their source
    names; a function whose name ends in [Tx] runs inside its caller's
    transaction. *)

From S2P Require Import Prelude Schema Store Logic Calendar Quota.
From stdpp Require Import base numbers option strings list sorting.
From Stdlib Require Import ZArith Lia.
Open Scope Z_scope.

Definition SubscriptionDurationYear := "year"%string.
Definition SubscriptionDurationMonth := "month"%string.
Definition SubscriptionDurationDay := "day"%string.
Definition SubscriptionDurationHour := "hour"%string.
Definition SubscriptionDurationCustom := "custom"%string.

Definition SubscriptionResetNever := "never"%string.
Definition SubscriptionResetDaily := "daily"%string.
Definition SubscriptionResetWeekly := "weekly"%string.
Definition SubscriptionResetMonthly := "monthly"%string.
Definition SubscriptionResetCustom := "custom"%string.

Definition TopUpStatusPending := "pending"%string.
Definition TopUpStatusSuccess := "success"%string.
Definition TopUpStatusExpired := "expired"%string.
Definition PaymentMethodBalance := "balance"%string.
Definition PaymentProviderBalance := "balance"%string.

Definition LogTypeTopup : Z := 1.

(** ** Plans and the reset schedule *)

Definition NormalizeDefaults (p : SubscriptionPlan) : SubscriptionPlan :=
  p <| pl_allow_balance_pay ::= fun o => Some (default true o) |>
    <| pl_allow_wallet_overflow ::= fun o => Some (default true o) |>.

Definition calcPlanEndTime (loc : Location) (start : Z) (plan : option SubscriptionPlan) : result Z :=
  match plan with
  | None => inl (EText "plan is nil")
  | Some plan =>
      let unit := pl_duration_unit plan in
      if (pl_duration_value plan <=? 0) && negb (str_eqb unit SubscriptionDurationCustom)
      then inl (EText "duration_value must be > 0")
      else if str_eqb unit SubscriptionDurationYear then
        inr (t_AddDate loc start (pl_duration_value plan) 0 0)
      else if str_eqb unit SubscriptionDurationMonth then
        inr (t_AddDate loc start 0 (pl_duration_value plan) 0)
      else if str_eqb unit SubscriptionDurationDay then
        inr (t_Add start (duration_of (pl_duration_value plan) 86400))
      else if str_eqb unit SubscriptionDurationHour then
        inr (t_Add start (duration_of (pl_duration_value plan) 3600))
      else if str_eqb unit SubscriptionDurationCustom then
        if pl_custom_seconds plan <=? 0 then inl (EText "custom_seconds must be > 0")
        else inr (t_Add start (duration_of (pl_custom_seconds plan) 1))
      else inl (EText ("invalid duration_unit: " ++ unit))
  end.

Definition NormalizeResetPeriod (period : string) : string :=
  let p := trim_space period in
  if str_eqb p SubscriptionResetDaily || str_eqb p SubscriptionResetWeekly ||
     str_eqb p SubscriptionResetMonthly || str_eqb p SubscriptionResetCustom
  then p else SubscriptionResetNever.

Definition calcNextResetTime (loc : Location) (base : Z) (plan : SubscriptionPlan) (endUnix : Z) : Z :=
  let period := NormalizeResetPeriod (pl_quota_reset_period plan) in
  let finish next := if (0 <? endUnix) && (endUnix <? next) then 0 else next in
  let '(year, month, day) := t_Date loc base in
  if str_eqb period SubscriptionResetNever then 0
  else if str_eqb period SubscriptionResetDaily then
    finish (t_AddDate loc (time_Date loc year month day 0) 0 0 1)
  else if str_eqb period SubscriptionResetWeekly then
    let weekday := if t_Weekday loc base =? 0 then 7 else t_Weekday loc base in
    finish (t_AddDate loc (time_Date loc year month day 0) 0 0 (8 - weekday))
  else if str_eqb period SubscriptionResetMonthly then
    finish (t_AddDate loc (time_Date loc year month 1 0) 0 1 0)
  else if str_eqb period SubscriptionResetCustom then
    if pl_quota_reset_custom_seconds plan <=? 0 then 0
    else finish (t_Add base (duration_of (pl_quota_reset_custom_seconds plan) 1))
  else 0.

Definition getSubscriptionPlanByIdTx (id : Z) : M SubscriptionPlan :=
  if id <=? 0 then raise (EText "invalid plan id") else
  cached ← ask (fun e => env_plan_cache e id);
  match cached with
  | Some plan => mret (NormalizeDefaults plan)
  | None =>
      plan ← find_first Plans (fun p => pl_id p =? id);
      mret (NormalizeDefaults plan)
  end.

Definition GetSubscriptionPlanById := getSubscriptionPlanByIdTx.

(** ** Quota of one subscription *)

Definition postConsumeUserSubscriptionDeltaTx (userSubscriptionId delta : Z) : M unit :=
  sub ← find_first Subscriptions (fun s => us_id s =? userSubscriptionId);
  let newUsed := i64 (us_amount_used sub + delta) in
  let newUsed := if newUsed <? 0 then 0 else newUsed in
  if (0 <? us_amount_total sub) && (us_amount_total sub <? newUsed)
  then raise (EText "subscription used exceeds total")
  else
    now ← GetTimestamp;
    save Subscriptions (sub <| us_amount_used := newUsed |> <| us_updated_at := now |>).

Definition PostConsumeUserSubscriptionDelta (userSubscriptionId delta : Z) : M unit :=
  if userSubscriptionId <=? 0 then raise (EText "invalid userSubscriptionId")
  else if delta =? 0 then mret tt
  else transaction (postConsumeUserSubscriptionDeltaTx userSubscriptionId delta).

(** A round of [for next > 0 && next <= now], on [advanced], [base] and [next]. *)
Definition reset_round (loc : Location) (plan : SubscriptionPlan) (endTime now : Z)
    (st : bool * Z * Z) : (bool * Z * Z) + (bool * Z * Z) :=
  let '(advanced, base, next) := st in
  if (0 <? next) && (next <=? now) then inl (true, next, calcNextResetTime loc next plan endTime) else inr st.
(** The loop: [None] when the fuel runs out. *)
Definition reset_loop (fuel : positive) (loc : Location) (plan : SubscriptionPlan) (endTime now : Z)
    (advanced : bool) (base next : Z) : option (bool * Z * Z) :=
  match loop (reset_round loc plan endTime now) fuel (advanced, base, next) with
  | inl _ => None
  | inr st => Some st
  end.

(** Every round but the last begins at a [next] between 1 and [now], and one
    that comes again would come for ever. *)
Definition reset_fuel (now : Z) : positive := Z.to_pos (now + 1).

Definition maybeResetUserSubscriptionWithPlanTx (sub : UserSubscription)
    (plan : SubscriptionPlan) (now : Z) : M UserSubscription :=
  if (0 <? us_next_reset_time sub) && (now <? us_next_reset_time sub) then mret sub else
  if str_eqb (NormalizeResetPeriod (pl_quota_reset_period plan)) SubscriptionResetNever then mret sub else
  loc ← ask env_tz;
  let baseUnix := if us_last_reset_time sub <=? 0 then us_start_time sub else us_last_reset_time sub in
  let next := calcNextResetTime loc baseUnix plan (us_end_time sub) in
  match reset_loop (reset_fuel now) loc plan (us_end_time sub) now false baseUnix next with
  | None => raise ErrDiverges
  | Some (advanced, base, next) =>
      ts ← GetTimestamp;
      if negb advanced then
        if (us_next_reset_time sub =? 0) && (0 <? next) then
          let sub := sub <| us_next_reset_time := next |> <| us_last_reset_time := base |>
                         <| us_updated_at := ts |> in
          save Subscriptions sub ;; mret sub
        else mret sub
      else
        let sub := sub <| us_amount_used := 0 |> <| us_last_reset_time := base |>
                       <| us_next_reset_time := next |> <| us_updated_at := ts |> in
        save Subscriptions sub ;; mret sub
  end.

(** ** Pre-consumption *)

Record SubscriptionPreConsumeResult := mkPreConsumeResult {
  pr_UserSubscriptionId : Z;
  pr_PreConsumed : Z;
  pr_AmountTotal : Z;
  pr_AmountUsedBefore : Z;
  pr_AmountUsedAfter : Z
}.

(** [ORDER BY end_time asc, id asc]. *)
Definition end_order (a b : UserSubscription) : Prop :=
  us_end_time a < us_end_time b \/ (us_end_time a = us_end_time b /\ us_id a <= us_id b).
#[export] Instance end_order_dec : RelDecision end_order.
Proof. intros a b. unfold end_order. apply _. Defined.
Definition order_by_end (l : list UserSubscription) : list UserSubscription :=
  merge_sort end_order l.

Definition active_of (userId now : Z) (s : UserSubscription) : bool :=
  (us_user_id s =? userId) && str_eqb (us_status s) "active" && (now <? us_end_time s).

(** The answer for a request that already has a record. *)
Definition replay_result (record : SubscriptionPreConsumeRecord) : M SubscriptionPreConsumeResult :=
  if str_eqb (pc_status record) "refunded"
  then raise (EText "subscription pre-consume already refunded") else
  sub ← find_first Subscriptions (fun s => us_id s =? pc_user_subscription_id record);
  mret (mkPreConsumeResult (us_id sub) (pc_pre_consumed record) (us_amount_total sub)
          (us_amount_used sub) (us_amount_used sub)).

(** The loop over the candidate subscriptions. *)
Fixpoint consume_first (requestId : string) (userId amount now : Z)
    (subs : list UserSubscription) : M SubscriptionPreConsumeResult :=
  match subs with
  | [] => raise (EWrap "" ErrSubscriptionQuotaInsufficient ", need")
  | candidate :: rest =>
      plan ← getSubscriptionPlanByIdTx (us_plan_id candidate);
      sub ← maybeResetUserSubscriptionWithPlanTx candidate plan now;
      let usedBefore := us_amount_used sub in
      if (0 <? us_amount_total sub) && (i64 (us_amount_total sub - usedBefore) <? amount)
      then consume_first requestId userId amount now rest
      else
        ts ← GetTimestamp;
        created ← attempt (create PreConsumes
          (mkSubscriptionPreConsumeRecord 0 requestId userId (us_id sub) amount "consumed" ts ts));
        match created with
        | inl err =>
            duplicate ← attempt (find_first PreConsumes (fun r => str_eqb (pc_request_id r) requestId));
            match duplicate with
            | inl _ => raise err
            | inr record => replay_result record
            end
        | inr _ =>
            let sub := sub <| us_amount_used ::= fun u => i64 (u + amount) |> <| us_updated_at := ts |> in
            save Subscriptions sub ;;
            mret (mkPreConsumeResult (us_id sub) amount (us_amount_total sub) usedBefore
                    (us_amount_used sub))
        end
  end.

Definition preConsumeUserSubscriptionTx (requestId : string) (userId amount : Z)
  : M SubscriptionPreConsumeResult :=
  if (userId <=? 0) || str_eqb (trim_space requestId) "" || (amount <=? 0)
  then raise (EText "invalid subscription pre-consume args") else
  now ← GetTimestamp;
  existing ← find_opt PreConsumes (fun r => str_eqb (pc_request_id r) requestId);
  match existing with
  | Some record => replay_result record
  | None =>
      found ← attempt (find_all Subscriptions (active_of userId now));
      match found with
      | inl _ | inr [] => raise ErrNoActiveSubscription
      | inr subs => consume_first requestId userId amount now (order_by_end subs)
      end
  end.

Definition PreConsumeUserSubscription (requestId : string) (userId amount : Z)
  : M SubscriptionPreConsumeResult :=
  if userId <=? 0 then raise (EText "invalid userId")
  else if str_eqb (trim_space requestId) "" then raise (EText "requestId is empty")
  else if amount <=? 0 then raise (EText "amount must be > 0")
  else transaction (preConsumeUserSubscriptionTx requestId userId amount).

Definition refundSubscriptionPreConsumeTx (requestId : string) : M unit :=
  record ← find_first PreConsumes (fun r => str_eqb (pc_request_id r) requestId);
  if str_eqb (pc_status record) "refunded" then mret tt else
  when (0 <? pc_pre_consumed record)
    (postConsumeUserSubscriptionDeltaTx (pc_user_subscription_id record)
       (i64 (- pc_pre_consumed record))) ;;
  ts ← GetTimestamp;
  save PreConsumes (record <| pc_status := "refunded"%string |> <| pc_updated_at := ts |>).

Definition RefundSubscriptionPreConsume (requestId : string) : M unit :=
  if str_eqb (trim_space requestId) "" then raise (EText "requestId is empty")
  else transaction (refundSubscriptionPreConsumeTx requestId).

Definition CleanupSubscriptionPreConsumeRecords (olderThanSeconds : Z) : M Z :=
  let olderThanSeconds := if olderThanSeconds <=? 0 then 7 * 24 * 3600 else olderThanSeconds in
  now ← GetTimestamp;
  delete_where PreConsumes (fun r => pc_updated_at r <? i64 (now - olderThanSeconds)).

(** ** Group changes *)

Definition getUserGroupByIdTx (userId : Z) : M string :=
  if userId <=? 0 then raise (EText "invalid userId") else
  user ← find_opt Users (user_where (fun u => u_id u =? userId));
  mret (match user with Some u => u_group u | None => ""%string end).

Definition set_user_group (userId : Z) (target : string) : M unit :=
  update Users (user_where (fun u => u_id u =? userId)) (fun u => u <| u_group := target |>) ;;
  mret tt.

(** Returns the group the user was moved to, [""] when nothing changed. *)
Definition downgradeUserGroupForSubscriptionTx (sub : UserSubscription) (now : Z) : M string :=
  let downgradeGroup := trim_space (us_downgrade_group sub) in
  let upgradeGroup := trim_space (us_upgrade_group sub) in
  if str_eqb downgradeGroup "" && str_eqb upgradeGroup "" then mret ""%string else
  currentGroup ← getUserGroupByIdTx (us_user_id sub);
  active ← attempt (find_opt Subscriptions (fun s =>
    active_of (us_user_id sub) now s && negb (us_id s =? us_id sub) &&
    negb (str_eqb (us_upgrade_group s) "")));
  match active with
  | inr (Some _) => mret ""%string
  | _ =>
      let move target :=
        if str_eqb target "" || str_eqb target currentGroup then mret ""%string
        else set_user_group (us_user_id sub) target ;; mret target in
      if negb (str_eqb downgradeGroup "") then move downgradeGroup
      else if negb (str_eqb currentGroup upgradeGroup) then mret ""%string
      else move (trim_space (us_prev_user_group sub))
  end.

Definition CreateUserSubscriptionFromPlanTx (userId : Z) (plan : SubscriptionPlan)
    (source : string) : M UserSubscription :=
  if pl_id plan =? 0 then raise (EText "invalid plan") else
  if userId <=? 0 then raise (EText "invalid user id") else
  bought ← (if 0 <? pl_max_purchase_per_user plan
            then count Subscriptions (fun s =>
                   (us_user_id s =? userId) && (us_plan_id s =? pl_id plan))
            else mret 0);
  if (0 <? pl_max_purchase_per_user plan) && (pl_max_purchase_per_user plan <=? bought)
  then raise (EText "已达到该套餐购买上限") else
  now ← GetTimestamp;
  loc ← ask env_tz;
  endUnix ← lift (calcPlanEndTime loc now (Some plan));
  let nextReset := calcNextResetTime loc now plan endUnix in
  let lastReset := if 0 <? nextReset then now else 0 in
  let upgradeGroup := trim_space (pl_upgrade_group plan) in
  prevGroup ← (if str_eqb upgradeGroup "" then mret ""%string else
    currentGroup ← getUserGroupByIdTx userId;
    if str_eqb currentGroup upgradeGroup then mret ""%string
    else set_user_group userId upgradeGroup ;; mret currentGroup);
  create Subscriptions
    (mkUserSubscription 0 userId (pl_id plan) (pl_total_amount plan) 0 now endUnix "active" source
       lastReset nextReset upgradeGroup prevGroup (trim_space (pl_downgrade_group plan))
       (default true (pl_allow_wallet_overflow plan)) now now).

Definition refreshSubscriptionUserGroupCache (userId : Z) : M unit :=
  emit (EffUserGroupCacheRefresh userId).

(** ** Orders *)

Definition upsertSubscriptionTopUpTx (order : SubscriptionOrder) : M unit :=
  now ← GetTimestamp;
  existing ← attempt (find_first TopUps (fun t => str_eqb (tu_trade_no t) (so_trade_no order)));
  match existing with
  | inl ErrRecordNotFound =>
      create TopUps (mkTopUp 0 (so_user_id order) 0 (so_money order) (so_trade_no order)
        (so_payment_method order) "" (so_create_time order) now TopUpStatusSuccess) ;;
      mret tt
  | inl err => raise err
  | inr topup =>
      if negb (str_eqb (tu_payment_method topup) "") &&
         negb (str_eqb (tu_payment_method topup) (so_payment_method order))
      then raise ErrPaymentMethodMismatch
      else save TopUps (topup <| tu_money := so_money order |>
             <| tu_payment_method := so_payment_method order |>
             <| tu_create_time ::= fun t => if t =? 0 then so_create_time order else t |>
             <| tu_complete_time := now |> <| tu_status := TopUpStatusSuccess |>)
  end.

Definition CompleteSubscriptionOrder (tradeNo providerPayload expectedPaymentProvider
    actualPaymentMethod : string) : M unit :=
  if str_eqb tradeNo "" then raise (EText "tradeNo is empty") else
  done ← transaction (
    found ← attempt (find_first Orders (fun o => str_eqb (so_trade_no o) tradeNo));
    match found with
    | inl _ => raise ErrSubscriptionOrderNotFound
    | inr order =>
        if negb (str_eqb expectedPaymentProvider "") &&
           negb (str_eqb (so_payment_provider order) expectedPaymentProvider)
        then raise ErrPaymentMethodMismatch
        else if str_eqb (so_status order) TopUpStatusSuccess then mret None
        else if negb (str_eqb (so_status order) TopUpStatusPending)
        then raise ErrSubscriptionOrderStatusInvalid
        else
          plan ← GetSubscriptionPlanById (so_plan_id order);
          find_first Users (user_where (fun u => u_id u =? so_user_id order)) ;;
          subscription ← CreateUserSubscriptionFromPlanTx (so_user_id order) plan "order";
          upsertSubscriptionTopUpTx order ;;
          now ← GetTimestamp;
          let order := order <| so_status := TopUpStatusSuccess |> <| so_complete_time := now |>
            <| so_provider_payload ::= fun p => if str_eqb providerPayload "" then p else providerPayload |>
            <| so_payment_method ::= fun m => if str_eqb actualPaymentMethod "" then m else actualPaymentMethod |> in
          save Orders order ;;
          mret (Some (so_user_id order,
                      if str_eqb (us_prev_user_group subscription) "" then ""%string
                      else trim_space (us_upgrade_group subscription)))
    end);
  match done with
  | Some (logUserId, upgradeGroup) =>
      when (negb (str_eqb upgradeGroup "") && (0 <? logUserId))
        (refreshSubscriptionUserGroupCache logUserId) ;;
      when (0 <? logUserId) (emit (EffRecordLog logUserId LogTypeTopup))
  | None => mret tt
  end.

Definition ExpireSubscriptionOrder (tradeNo expectedPaymentProvider : string) : M unit :=
  if str_eqb tradeNo "" then raise (EText "tradeNo is empty") else
  transaction (
    found ← attempt (find_first Orders (fun o => str_eqb (so_trade_no o) tradeNo));
    match found with
    | inl _ => raise ErrSubscriptionOrderNotFound
    | inr order =>
        if negb (str_eqb expectedPaymentProvider "") &&
           negb (str_eqb (so_payment_provider order) expectedPaymentProvider)
        then raise ErrPaymentMethodMismatch
        else if negb (str_eqb (so_status order) TopUpStatusPending) then mret tt
        else
          now ← GetTimestamp;
          save Orders (order <| so_status := TopUpStatusExpired |> <| so_complete_time := now |>)
    end).

(** The returned string is the group announced to the administrator. *)
Definition AdminBindSubscription (userId planId : Z) : M string :=
  if (userId <=? 0) || (planId <=? 0) then raise (EText "invalid userId or planId") else
  plan ← GetSubscriptionPlanById planId;
  subscription ← transaction (
    find_first Users (user_where (fun u => u_id u =? userId)) ;;
    CreateUserSubscriptionFromPlanTx userId plan "admin");
  if str_eqb (us_prev_user_group subscription) "" then mret ""%string
  else refreshSubscriptionUserGroupCache userId ;; mret (pl_upgrade_group plan).

(** ** Purchase with the wallet *)

Section BalancePurchase.
Context {D : Type} `{DecimalOps D}.

(** [clamp] errors carry their text only; the callers do not look inside. *)
Definition clamp_error (c : QuotaClamp) : Err := EText ("quota conversion (" ++ cl_Op c ++ ")").

Definition calcSubscriptionBalanceQuota (quotaPerUnit priceAmount : float64) : result Z :=
  if negb (math_IsNaN priceAmount) && negb (float_gt priceAmount 0) then inr 0
  else if negb (math_IsNaN quotaPerUnit) && negb (float_gt quotaPerUnit 0)
  then inl (EText "额度单位配置错误")
  else
    match WalletQuotaFromDecimalStrict
            (Ceil (Mul (NewFromFloat priceAmount) (NewFromFloat quotaPerUnit))) with
    | inl c => inl (clamp_error c)
    | inr q => inr q
    end.

(** [tradeNo] is the random trade number the source generates. *)
Definition PurchaseSubscriptionWithBalance (tradeNo : string) (userId planId : Z) : M unit :=
  if (userId <=? 0) || (planId <=? 0) then raise (EText "invalid userId or planId") else
  done ← transaction (
    plan ← getSubscriptionPlanByIdTx planId;
    if negb (pl_enabled plan) then raise (EText "套餐未启用") else
    if float_lt (pl_price_amount plan) 0 then raise (EText "套餐价格不能为负数") else
    if negb (default true (pl_allow_balance_pay plan)) then raise (EText "该套餐不允许使用余额兑换") else
    quotaPerUnit ← ask env_quota_per_unit;
    requiredQuota ← lift (calcSubscriptionBalanceQuota quotaPerUnit (pl_price_amount plan));
    user ← find_first Users (user_where (fun u => u_id u =? userId));
    if (0 <? requiredQuota) && (u_quota user <? requiredQuota) then raise (EText "余额不足") else
    when (0 <? requiredQuota)
      (update Users (user_where (fun u => u_id u =? userId))
         (fun u => u <| u_quota ::= fun q => q - requiredQuota |>) ;; mret tt) ;;
    subscription ← CreateUserSubscriptionFromPlanTx userId plan PaymentMethodBalance;
    now ← GetTimestamp;
    create Orders (mkSubscriptionOrder 0 userId (pl_id plan) (pl_price_amount plan) tradeNo
      PaymentMethodBalance PaymentProviderBalance TopUpStatusSuccess now now "charged_quota") ;;
    mret (requiredQuota,
          if str_eqb (us_prev_user_group subscription) "" then ""%string
          else trim_space (us_upgrade_group subscription)));
  let '(chargedQuota, upgradeGroup) := done in
  redis ← ask env_redis;
  when ((0 <? chargedQuota) && redis) (emit (EffUserQuotaCache userId (i64 (- chargedQuota)))) ;;
  when (negb (str_eqb upgradeGroup "")) (refreshSubscriptionUserGroupCache userId) ;;
  emit (EffRecordLog userId LogTypeTopup).
End BalancePurchase.

(** ** Queries *)

Definition CountUserSubscriptionsByPlan (userId planId : Z) : M Z :=
  if (userId <=? 0) || (planId <=? 0) then raise (EText "invalid userId or planId") else
  count Subscriptions (fun s => (us_user_id s =? userId) && (us_plan_id s =? planId)).

Definition HasActiveUserSubscription (userId : Z) : M bool :=
  if userId <=? 0 then raise (EText "invalid userId") else
  now ← GetTimestamp;
  n ← count Subscriptions (active_of userId now);
  mret (0 <? n).

Definition UserActiveSubscriptionsAllowWalletOverflow (userId : Z) : M bool :=
  if userId <=? 0 then raise (EText "invalid userId") else
  now ← GetTimestamp;
  strictCount ← count Subscriptions (fun s =>
    active_of userId now s && negb (us_allow_wallet_overflow s));
  mret (strictCount =? 0).

(** ** Administration *)

Definition AdminInvalidateUserSubscription (userSubscriptionId : Z) : M string :=
  if userSubscriptionId <=? 0 then raise (EText "invalid userSubscriptionId") else
  now ← GetTimestamp;
  '(userId, cacheGroup) ← transaction (
    sub ← find_first Subscriptions (fun s => us_id s =? userSubscriptionId);
    update Subscriptions (fun s => us_id s =? us_id sub)
      (fun s => s <| us_status := "cancelled"%string |> <| us_end_time := now |>
                  <| us_updated_at := now |>) ;;
    target ← downgradeUserGroupForSubscriptionTx
      (sub <| us_status := "cancelled"%string |> <| us_end_time := now |> <| us_updated_at := now |>) now;
    mret (us_user_id sub, target));
  when (negb (str_eqb cacheGroup "") && (0 <? userId)) (refreshSubscriptionUserGroupCache userId) ;;
  mret cacheGroup.

Definition AdminDeleteUserSubscription (userSubscriptionId : Z) : M string :=
  if userSubscriptionId <=? 0 then raise (EText "invalid userSubscriptionId") else
  now ← GetTimestamp;
  '(userId, cacheGroup) ← transaction (
    sub ← find_first Subscriptions (fun s => us_id s =? userSubscriptionId);
    target ← downgradeUserGroupForSubscriptionTx sub now;
    delete_where Subscriptions (fun s => us_id s =? userSubscriptionId) ;;
    mret (us_user_id sub, target));
  when (negb (str_eqb cacheGroup "") && (0 <? userId)) (refreshSubscriptionUserGroupCache userId) ;;
  mret cacheGroup.

Definition resetUserSubscriptionTx (plan : SubscriptionPlan) (now : Z) (advanceResetTime : bool)
    (sub : UserSubscription) : M unit :=
  loc ← ask env_tz;
  ts ← GetTimestamp;
  let nextReset := calcNextResetTime loc now plan (us_end_time sub) in
  let sub := sub <| us_amount_used := 0 |> <| us_updated_at := ts |> in
  let sub := if advanceResetTime
             then sub <| us_next_reset_time := nextReset |>
                      <| us_last_reset_time := if 0 <? nextReset then now else 0 |>
             else sub in
  save Subscriptions sub.

Record SubscriptionResetResult := mkResetResult {
  rr_PlanId : Z;
  rr_MatchedCount : Z;
  rr_ResetCount : Z;
  rr_UserCount : Z;
  rr_AdvanceResetTime : bool;
  rr_AffectedUserIds : list Z
}.

(** The ids in order of first appearance ([seenUsers]). *)
Fixpoint first_seen (seen : list Z) (ids : list Z) : list Z :=
  match ids with
  | [] => []
  | i :: ids' =>
      if List.existsb (Z.eqb i) seen then first_seen seen ids' else i :: first_seen (i :: seen) ids'
  end.

Definition buildSubscriptionResetResult (plan : SubscriptionPlan) (subs : list UserSubscription)
    (advanceResetTime : bool) : SubscriptionResetResult :=
  let userIds := first_seen [] (List.map us_user_id subs) in
  mkResetResult (pl_id plan) (Z.of_nat (length subs)) (Z.of_nat (length subs))
    (Z.of_nat (length userIds)) advanceResetTime userIds.

Definition adminResetUserSubscriptionsByPlanTx (userId : Z) (plan : SubscriptionPlan) (now : Z)
    (advanceResetTime : bool) : M SubscriptionResetResult :=
  subs ← find_all Subscriptions (fun s => active_of userId now s && (us_plan_id s =? pl_id plan));
  match order_by_end subs with
  | [] => raise (EText "该用户没有有效的此套餐订阅")
  | subs =>
      for_each (resetUserSubscriptionTx plan now advanceResetTime) subs ;;
      mret (buildSubscriptionResetResult plan subs advanceResetTime)
  end.

(** [ORDER BY user_id asc, end_time asc, id asc]. *)
Definition user_end_order (a b : UserSubscription) : Prop :=
  us_user_id a < us_user_id b \/ (us_user_id a = us_user_id b /\ end_order a b).
#[export] Instance user_end_order_dec : RelDecision user_end_order.
Proof. intros a b. unfold user_end_order. apply _. Defined.

Definition adminResetPlanSubscriptionsTx (plan : SubscriptionPlan) (now : Z)
    (advanceResetTime : bool) : M SubscriptionResetResult :=
  subs ← find_all Subscriptions (fun s =>
    (us_plan_id s =? pl_id plan) && str_eqb (us_status s) "active" && (now <? us_end_time s));
  let subs := merge_sort user_end_order subs in
  for_each (resetUserSubscriptionTx plan now advanceResetTime) subs ;;
  mret (buildSubscriptionResetResult plan subs advanceResetTime).

Definition AdminResetUserSubscriptionsByPlan (userId planId : Z) (advanceResetTime : bool)
  : M SubscriptionResetResult :=
  if (userId <=? 0) || (planId <=? 0) then raise (EText "invalid userId or planId") else
  now ← GetTimestamp;
  transaction (
    plan ← getSubscriptionPlanByIdTx planId;
    adminResetUserSubscriptionsByPlanTx userId plan now advanceResetTime).

Definition AdminResetPlanSubscriptions (planId : Z) (advanceResetTime : bool)
  : M SubscriptionResetResult :=
  if planId <=? 0 then raise (EText "invalid planId") else
  now ← GetTimestamp;
  transaction (
    plan ← getSubscriptionPlanByIdTx planId;
    adminResetPlanSubscriptionsTx plan now advanceResetTime).

(** ** Maintenance tasks

    Both return a count; the partial count the source returns beside an error
    is not represented. *)

(** The group of a user whose last active subscription expired: moved as the
    latest expired one says.  [n] rows were marked expired. *)
Definition regroup_expired (userId n : Z) : M (Z * string) :=
  expired ← attempt (find_all Subscriptions (fun s =>
    (us_user_id s =? userId) && str_eqb (us_status s) "expired" &&
    (negb (str_eqb (us_downgrade_group s) "") || negb (str_eqb (us_upgrade_group s) ""))));
  match expired with
  | inl _ => mret (n, ""%string)
  | inr rows =>
      match List.rev (order_by_end rows) with
      | [] => mret (n, ""%string)
      | lastExpired :: _ =>
          currentGroup ← getUserGroupByIdTx userId;
          let upgradeGroup := trim_space (us_upgrade_group lastExpired) in
          let prevGroup := trim_space (us_prev_user_group lastExpired) in
          let downgradeGroup := trim_space (us_downgrade_group lastExpired) in
          if str_eqb downgradeGroup "" &&
             (str_eqb upgradeGroup "" || str_eqb prevGroup "" ||
              negb (str_eqb currentGroup upgradeGroup))
          then mret (n, ""%string) else
          let target := if str_eqb downgradeGroup "" then prevGroup else downgradeGroup in
          if str_eqb target "" || str_eqb target currentGroup then mret (n, ""%string)
          else set_user_group userId target ;; mret (n, target)
      end
  end.

(** One user's transaction of [ExpireDueSubscriptions]: the number of rows
    marked expired and the group the user was moved to. *)
Definition expire_user_tx (now userId : Z) : M (Z * string) :=
  ts ← GetTimestamp;
  n ← update Subscriptions
    (fun s => (us_user_id s =? userId) && str_eqb (us_status s) "active" &&
              (0 <? us_end_time s) && (us_end_time s <=? now))
    (fun s => s <| us_status := "expired"%string |> <| us_updated_at := ts |>);
  active ← attempt (find_opt Subscriptions (fun s =>
    active_of userId now s && negb (str_eqb (us_upgrade_group s) "")));
  match active with
  | inr (Some _) => mret (n, ""%string)
  | _ => regroup_expired userId n
  end.

Section ExpireDue.
(** The order in which Go iterates over the set of user ids. *)
Context (map_order : list Z -> list Z).

Fixpoint expire_users (now : Z) (userIds : list Z) (expiredCount : Z) : M Z :=
  match userIds with
  | [] => mret expiredCount
  | userId :: rest =>
      '(n, cacheGroup) ← transaction (expire_user_tx now userId);
      when (negb (str_eqb cacheGroup "")) (refreshSubscriptionUserGroupCache userId) ;;
      expire_users now rest (expiredCount + n)
  end.

Definition ExpireDueSubscriptions (limit : Z) : M Z :=
  let limit := if limit <=? 0 then 200 else limit in
  now ← GetTimestamp;
  subs ← find_all Subscriptions (fun s =>
    str_eqb (us_status s) "active" && (0 <? us_end_time s) && (us_end_time s <=? now));
  let subs := take (Z.to_nat limit) (order_by_end subs) in
  let userIds := first_seen [] (List.filter (fun i => 0 <? i) (List.map us_user_id subs)) in
  expire_users now (map_order userIds) 0.
End ExpireDue.

(** [ORDER BY next_reset_time asc]; ties in primary-key order. *)
Definition next_reset_order (a b : UserSubscription) : Prop :=
  us_next_reset_time a <= us_next_reset_time b.
#[export] Instance next_reset_order_dec : RelDecision next_reset_order.
Proof. intros a b. unfold next_reset_order. apply _. Defined.

Definition reset_one_tx (plan : SubscriptionPlan) (now id : Z) : M Z :=
  found ← attempt (find_first Subscriptions (fun s =>
    (us_id s =? id) && (0 <? us_next_reset_time s) && (us_next_reset_time s <=? now)));
  match found with
  | inl _ => mret 0
  | inr locked => maybeResetUserSubscriptionWithPlanTx locked plan now ;; mret 1
  end.

Fixpoint reset_due (now : Z) (subs : list UserSubscription) (resetCount : Z) : M Z :=
  match subs with
  | [] => mret resetCount
  | sub :: rest =>
      plan ← attempt (getSubscriptionPlanByIdTx (us_plan_id sub));
      match plan with
      | inl _ => reset_due now rest resetCount
      | inr plan =>
          n ← transaction (reset_one_tx plan now (us_id sub));
          reset_due now rest (resetCount + n)
      end
  end.

Definition ResetDueSubscriptions (limit : Z) : M Z :=
  let limit := if limit <=? 0 then 200 else limit in
  now ← GetTimestamp;
  subs ← find_all Subscriptions (fun s =>
    (0 <? us_next_reset_time s) && (us_next_reset_time s <=? now) && str_eqb (us_status s) "active");
  reset_due now (take (Z.to_nat limit) (merge_sort next_reset_order subs)) 0.
