(* ===== verification/TopUp.v ===== *)
(** * TopUp: recharge orders and redemption codes

    [src/model/topup.go] and [src/model/redemption.go]: the ways quota enters a
    wallet.  An order goes from pending to success once, under the lock of its
    row; a code goes from enabled to used by a compare-and-swap; both credit the
    wallet in the same transaction, below a ceiling. *)

From S2P Require Import Prelude Schema Store Quota Subscription.
From stdpp Require Import base numbers option strings list sorting.
From Stdlib Require Import ZArith Lia.
Open Scope Z_scope.

Definition PaymentProviderEpay := "epay"%string.
Definition PaymentProviderStripe := "stripe"%string.
Definition PaymentProviderCreem := "creem"%string.
Definition PaymentProviderWaffo := "waffo"%string.
Definition PaymentProviderWaffoPancake := "waffo_pancake"%string.

(** ** Credit under the wallet ceiling *)

Definition topUpQuotaMaxCurrent (creditedQuota : Z) : result Z :=
  if (creditedQuota <=? 0) || (MaxWalletQuota <? creditedQuota) then inl ErrInvalidTopUpQuota
  else inr (MaxWalletQuota - creditedQuota).

Definition ValidateTopUpQuotaCapacity (userId creditedQuota : Z) : M unit :=
  maxCurrentQuota ← lift (topUpQuotaMaxCurrent creditedQuota);
  user ← find_first Users (user_where (fun u => u_id u =? userId));
  guard_err (maxCurrentQuota <? u_quota user) ErrTopUpQuotaLimitExceeded.

(** [updates] are the other columns the statement sets. *)
Definition creditTopUpQuota (userId creditedQuota : Z) (updates : User -> User) : M unit :=
  maxCurrentQuota ← lift (topUpQuotaMaxCurrent creditedQuota);
  n ← update Users (user_where (fun u => (u_id u =? userId) && (u_quota u <=? maxCurrentQuota)))
        (fun u => (updates u) <| u_quota ::= fun q => q + creditedQuota |>);
  if n =? 1 then mret tt else
  count ← count Users (user_where (fun u => u_id u =? userId));
  if count =? 0 then raise ErrRecordNotFound else raise ErrTopUpQuotaLimitExceeded.

(** [model/user_cache.go] *)
Definition syncCreditUserQuotaCache (userId quota : Z) : M unit :=
  redis ← ask env_redis;
  when ((0 <? quota) && redis) (emit (EffUserQuotaCache userId quota)).

(** The log row is written by the log database; only its user and type are kept. *)
Definition RecordTopupLog (userId : Z) : M unit := emit (EffRecordLog userId LogTypeTopup).

(** ** Orders *)

Definition has_trade (tradeNo : string) (t : TopUp) : bool := str_eqb (tu_trade_no t) tradeNo.

Definition topUp_Insert (topUp : TopUp) : M TopUp := create TopUps topUp.
Definition topUp_Update (topUp : TopUp) : M unit := save TopUps topUp.

(** Any failure of the lookup is a nil pointer. *)
Definition GetTopUpById (id : Z) : M (option TopUp) :=
  r ← attempt (find_first TopUps (fun t => tu_id t =? id));
  mret (match r with inr t => Some t | inl _ => None end).
Definition GetTopUpByTradeNo (tradeNo : string) : M (option TopUp) :=
  r ← attempt (find_first TopUps (has_trade tradeNo));
  mret (match r with inr t => Some t | inl _ => None end).

(** [lockForUpdate(tx).Where("trade_no = ?").First(topUp)]: every failure is [err]. *)
Definition lock_order (tradeNo : string) (err : Err) : M TopUp :=
  r ← attempt (find_first TopUps (has_trade tradeNo));
  match r with inr t => mret t | inl _ => raise err end.

Definition UpdatePendingTopUpStatus (tradeNo expectedPaymentProvider targetStatus : string) : M unit :=
  if str_eqb tradeNo "" then raise (EText "未提供支付单号") else
  transaction (
    topUp ← lock_order tradeNo ErrTopUpNotFound;
    if negb (str_eqb expectedPaymentProvider "") &&
       negb (str_eqb (tu_payment_provider topUp) expectedPaymentProvider)
    then raise ErrPaymentMethodMismatch else
    if negb (str_eqb (tu_status topUp) TopUpStatusPending) then raise ErrTopUpStatusInvalid else
    save TopUps (topUp <| tu_status := targetStatus |>)).

(** The order marked as paid. *)
Definition paid (now : Z) (topUp : TopUp) : TopUp :=
  topUp <| tu_complete_time := now |> <| tu_status := TopUpStatusSuccess |>.

(** [quotaErr != nil || quotaToAdd <= 0] *)
Definition credit_amount (quota : QuotaClamp + Z) : M Z :=
  match quota with
  | inl _ => raise ErrInvalidTopUpQuota
  | inr q => if q <=? 0 then raise ErrInvalidTopUpQuota else mret q
  end.

Definition ErrRecharge : Err := EText "充值失败，请稍后重试".
Definition ErrOrderMissing : Err := EText "充值订单不存在".
Definition ErrOrderStatus : Err := EText "充值订单状态错误".

Section Recharge.
Context {D : Type} `{DecimalOps D}.

(** The quota of an order whose [Amount] counts dollars, whose [Money] counts
    dollars, and whose [Amount] counts quota. *)
Definition amount_quota (quotaPerUnit : float64) (topUp : TopUp) : QuotaClamp + Z :=
  WalletQuotaFromDecimalStrict (Mul (NewFromInt (tu_amount topUp)) (NewFromFloat quotaPerUnit)).
Definition money_quota (quotaPerUnit : float64) (topUp : TopUp) : QuotaClamp + Z :=
  WalletQuotaFromDecimalStrict (Mul (NewFromFloat (tu_money topUp)) (NewFromFloat quotaPerUnit)).
Definition plain_quota (topUp : TopUp) : QuotaClamp + Z :=
  WalletQuotaFromDecimalStrict (NewFromInt (tu_amount topUp)).

(** [None]: the order was done before. *)
Definition rechargeEpayTx (tradeNo actualPaymentMethod : string) : M (option (TopUp * Z)) :=
  topUp ← lock_order tradeNo ErrTopUpNotFound;
  if negb (str_eqb (tu_payment_provider topUp) PaymentProviderEpay) then raise ErrPaymentMethodMismatch else
  if str_eqb (tu_status topUp) TopUpStatusSuccess then mret None else
  if negb (str_eqb (tu_status topUp) TopUpStatusPending) then raise ErrTopUpStatusInvalid else
  let topUp := if str_eqb actualPaymentMethod "" then topUp
               else topUp <| tu_payment_method := actualPaymentMethod |> in
  quotaPerUnit ← ask env_quota_per_unit;
  quotaToAdd ← credit_amount (amount_quota quotaPerUnit topUp);
  now ← GetTimestamp;
  let topUp := paid now topUp in
  save TopUps topUp ;;
  creditTopUpQuota (tu_user_id topUp) quotaToAdd (fun u => u) ;;
  mret (Some (topUp, quotaToAdd)).

Definition RechargeEpay (tradeNo actualPaymentMethod : string) : M bool :=
  if str_eqb tradeNo "" then raise (EText "未提供支付单号") else
  done ← transaction (rechargeEpayTx tradeNo actualPaymentMethod);
  match done with
  | None => mret true
  | Some (topUp, quotaToAdd) =>
      syncCreditUserQuotaCache (tu_user_id topUp) quotaToAdd ;;
      RecordTopupLog (tu_user_id topUp) ;;
      mret false
  end.

Definition rechargeTx (referenceId customerId : string) : M (TopUp * Z) :=
  topUp ← lock_order referenceId ErrOrderMissing;
  if negb (str_eqb (tu_payment_provider topUp) PaymentProviderStripe) then raise ErrPaymentMethodMismatch else
  if negb (str_eqb (tu_status topUp) TopUpStatusPending) then raise ErrOrderStatus else
  now ← GetTimestamp;
  let topUp := paid now topUp in
  save TopUps topUp ;;
  quotaPerUnit ← ask env_quota_per_unit;
  quota ← credit_amount (money_quota quotaPerUnit topUp);
  creditTopUpQuota (tu_user_id topUp) quota (fun u => u <| u_stripe_customer := customerId |>) ;;
  mret (topUp, quota).

Definition Recharge (referenceId customerId : string) : M unit :=
  if str_eqb referenceId "" then raise (EText "未提供支付单号") else
  done ← attempt (transaction (rechargeTx referenceId customerId));
  match done with
  | inl _ => raise ErrRecharge
  | inr (topUp, quota) =>
      syncCreditUserQuotaCache (tu_user_id topUp) quota ;; RecordTopupLog (tu_user_id topUp)
  end.

(** What an administrator's completion credits, by provider. *)
Definition manual_quota (quotaPerUnit : float64) (topUp : TopUp) : QuotaClamp + Z :=
  if str_eqb (tu_payment_provider topUp) PaymentProviderStripe
  then money_quota quotaPerUnit topUp else amount_quota quotaPerUnit topUp.

(** The result is the user and quota of the log; both 0 when the order was done before. *)
Definition manualCompleteTopUpTx (tradeNo : string) : M (Z * Z) :=
  topUp ← lock_order tradeNo ErrOrderMissing;
  if str_eqb (tu_status topUp) TopUpStatusSuccess then mret (0, 0) else
  if negb (str_eqb (tu_status topUp) TopUpStatusPending)
  then raise (EText "订单状态不是待支付，无法补单") else
  quotaPerUnit ← ask env_quota_per_unit;
  quotaToAdd ← credit_amount (manual_quota quotaPerUnit topUp);
  now ← GetTimestamp;
  let topUp := paid now topUp in
  save TopUps topUp ;;
  creditTopUpQuota (tu_user_id topUp) quotaToAdd (fun u => u) ;;
  mret (tu_user_id topUp, quotaToAdd).

Definition ManualCompleteTopUp (tradeNo : string) : M unit :=
  if str_eqb tradeNo "" then raise (EText "未提供订单号") else
  '(userId, quotaToAdd) ← transaction (manualCompleteTopUpTx tradeNo);
  syncCreditUserQuotaCache userId quotaToAdd ;; RecordTopupLog userId.

(** The e-mail of the payment is kept for a user without one. *)
Definition creem_fields (userId : Z) (customerEmail : string) : M (User -> User) :=
  if str_eqb customerEmail "" then mret (fun u => u) else
  user ← find_first Users (user_where (fun u => u_id u =? userId));
  mret (if str_eqb (u_email user) "" then (fun u => u <| u_email := customerEmail |>) else (fun u => u)).

Definition rechargeCreemTx (referenceId customerEmail : string) : M (TopUp * Z) :=
  topUp ← lock_order referenceId ErrOrderMissing;
  if negb (str_eqb (tu_payment_provider topUp) PaymentProviderCreem) then raise ErrPaymentMethodMismatch else
  if negb (str_eqb (tu_status topUp) TopUpStatusPending) then raise ErrOrderStatus else
  now ← GetTimestamp;
  let topUp := paid now topUp in
  save TopUps topUp ;;
  quota ← credit_amount (plain_quota topUp);
  updateFields ← creem_fields (tu_user_id topUp) customerEmail;
  creditTopUpQuota (tu_user_id topUp) quota updateFields ;;
  mret (topUp, quota).

Definition RechargeCreem (referenceId customerEmail : string) : M unit :=
  if str_eqb referenceId "" then raise (EText "未提供支付单号") else
  done ← attempt (transaction (rechargeCreemTx referenceId customerEmail));
  match done with
  | inl _ => raise ErrRecharge
  | inr (topUp, quota) =>
      syncCreditUserQuotaCache (tu_user_id topUp) quota ;; RecordTopupLog (tu_user_id topUp)
  end.

(** The two Waffo callbacks differ in the provider they accept; 0: done before. *)
Definition rechargeWaffoTx (provider tradeNo : string) : M (TopUp * Z) :=
  topUp ← lock_order tradeNo ErrOrderMissing;
  if negb (str_eqb (tu_payment_provider topUp) provider) then raise ErrPaymentMethodMismatch else
  if str_eqb (tu_status topUp) TopUpStatusSuccess then mret (topUp, 0) else
  if negb (str_eqb (tu_status topUp) TopUpStatusPending) then raise ErrOrderStatus else
  quotaPerUnit ← ask env_quota_per_unit;
  quotaToAdd ← credit_amount (amount_quota quotaPerUnit topUp);
  now ← GetTimestamp;
  let topUp := paid now topUp in
  save TopUps topUp ;;
  creditTopUpQuota (tu_user_id topUp) quotaToAdd (fun u => u) ;;
  mret (topUp, quotaToAdd).

Definition recharge_waffo (provider tradeNo : string) : M unit :=
  if str_eqb tradeNo "" then raise (EText "未提供支付单号") else
  done ← attempt (transaction (rechargeWaffoTx provider tradeNo));
  match done with
  | inl _ => raise ErrRecharge
  | inr (topUp, quotaToAdd) =>
      syncCreditUserQuotaCache (tu_user_id topUp) quotaToAdd ;;
      when (0 <? quotaToAdd) (emit (EffRecordLog (tu_user_id topUp) LogTypeTopup))
  end.
Definition RechargeWaffo := recharge_waffo PaymentProviderWaffo.
Definition RechargeWaffoPancake := recharge_waffo PaymentProviderWaffoPancake.
End Recharge.

(** ** Listings *)

(** [ORDER BY id desc] *)
Definition newest_order (a b : TopUp) : Prop := tu_id b <= tu_id a.
#[export] Instance newest_order_dec : RelDecision newest_order.
Proof. intros a b. unfold newest_order. apply _. Defined.

(** One page of the rows, and their number. *)
Definition page_of (pageSize startIdx : Z) (rows : list TopUp) : list TopUp :=
  take (Z.to_nat pageSize) (drop (Z.to_nat startIdx) (merge_sort newest_order rows)).

Definition topUpQueryWindowSeconds : Z := 30 * 24 * 60 * 60.

Definition GetUserTopUps (userId pageSize startIdx : Z) : M (list TopUp * Z) :=
  now ← GetTimestamp;
  let shown t := (tu_user_id t =? userId) && (now - topUpQueryWindowSeconds <=? tu_create_time t) in
  transaction (
    total ← count TopUps shown;
    rows ← find_all TopUps shown;
    mret (page_of pageSize startIdx rows, total)).

Definition GetAllTopUps (pageSize startIdx : Z) : M (list TopUp * Z) :=
  transaction (
    total ← count TopUps (fun _ => true);
    rows ← find_all TopUps (fun _ => true);
    mret (page_of pageSize startIdx rows, total)).

(** ** Redemption codes *)

Definition RedemptionCodeStatusEnabled : Z := 1.
Definition RedemptionCodeStatusDisabled : Z := 2.
Definition RedemptionCodeStatusUsed : Z := 3.

(** Rows that are not soft-deleted. *)
Definition code_where (p : Redemption -> bool) (r : Redemption) : bool := negb (rd_deleted r) && p r.

Definition GetRedemptionById (id : Z) : M Redemption :=
  if id =? 0 then raise (EText "id 为空！") else
  find_first Redemptions (code_where (fun r => rd_id r =? id)).

Definition used_by (userId now : Z) (r : Redemption) : Redemption :=
  r <| rd_redeemed_time := now |> <| rd_status := RedemptionCodeStatusUsed |> <| rd_used_user_id := userId |>.

Definition redeemTx (key : string) (userId : Z) : M Redemption :=
  r ← attempt (find_first Redemptions (code_where (fun r => str_eqb (rd_key r) key)));
  match r with
  | inl _ => raise (EText "无效的兑换码")
  | inr redemption =>
      if negb (rd_status redemption =? RedemptionCodeStatusEnabled) then raise (EText "该兑换码已被使用") else
      now ← GetTimestamp;
      if negb (rd_expired_time redemption =? 0) && (rd_expired_time redemption <? now)
      then raise (EText "该兑换码已过期") else
      n ← update Redemptions (code_where (fun r => (rd_id r =? rd_id redemption) &&
                                                   (rd_status r =? RedemptionCodeStatusEnabled)))
            (used_by userId now);
      if n =? 0 then raise (EText "该兑换码已被使用") else
      creditTopUpQuota userId (rd_quota redemption) (fun u => u) ;;
      mret redemption
  end.

Definition Redeem (key : string) (userId : Z) : M Z :=
  if str_eqb key "" then raise (EText "未提供兑换码") else
  if userId =? 0 then raise (EText "无效的 user id") else
  done ← attempt (transaction (redeemTx key userId));
  match done with
  | inl _ => raise ErrRedeemFailed
  | inr redemption =>
      syncCreditUserQuotaCache userId (rd_quota redemption) ;;
      emit (EffRecordLog userId LogTypeTopup) ;;
      mret (rd_quota redemption)
  end.

Definition ErrWalletQuotaRange : Err := EText "wallet quota exceeds 9007199254740991".

Definition redemption_Insert (redemption : Redemption) : M unit :=
  if rd_quota redemption <=? 0 then raise (EText "redemption quota must be positive") else
  if negb (ValidateWalletQuota (rd_quota redemption)) then raise ErrWalletQuotaRange else
  create Redemptions redemption ;; mret tt.

Definition redemption_SelectUpdate (redemption : Redemption) : M unit :=
  if rd_id redemption =? 0 then raise ErrMissingWhereClause else
  update Redemptions (code_where (fun r => rd_id r =? rd_id redemption))
    (fun r => r <| rd_redeemed_time := rd_redeemed_time redemption |>
                <| rd_status := rd_status redemption |>) ;;
  mret tt.

(** The columns [Update] writes. *)
Definition edited (redemption r : Redemption) : Redemption :=
  r <| rd_name := rd_name redemption |> <| rd_status := rd_status redemption |>
    <| rd_quota := rd_quota redemption |> <| rd_redeemed_time := rd_redeemed_time redemption |>
    <| rd_expired_time := rd_expired_time redemption |>.

Definition redemption_Update (redemption : Redemption) : M unit :=
  if rd_quota redemption <=? 0 then raise (EText "redemption quota must be positive") else
  if negb (ValidateWalletQuota (rd_quota redemption)) then raise ErrWalletQuotaRange else
  if rd_id redemption =? 0 then raise ErrMissingWhereClause else
  update Redemptions (code_where (fun r => rd_id r =? rd_id redemption)) (edited redemption) ;;
  mret tt.

Definition redemption_Delete (redemption : Redemption) : M unit :=
  if rd_id redemption =? 0 then raise ErrMissingWhereClause else
  update Redemptions (code_where (fun r => rd_id r =? rd_id redemption))
    (fun r => r <| rd_deleted := true |>) ;;
  mret tt.

Definition DeleteRedemptionById (id : Z) : M unit :=
  if id =? 0 then raise (EText "id 为空！") else
  redemption ← find_first Redemptions (code_where (fun r => rd_id r =? id));
  redemption_Delete redemption.

(** The codes that can no longer be redeemed at [now]. *)
Definition invalid_code (now : Z) (r : Redemption) : bool :=
  (rd_status r =? RedemptionCodeStatusUsed) || (rd_status r =? RedemptionCodeStatusDisabled) ||
  ((rd_status r =? RedemptionCodeStatusEnabled) && negb (rd_expired_time r =? 0) && (rd_expired_time r <? now)).

Definition DeleteInvalidRedemptions : M Z :=
  now ← GetTimestamp;
  update Redemptions (code_where (invalid_code now)) (fun r => r <| rd_deleted := true |>).
