(* ===== verification/SubscriptionFacts.v ===== *)
(** * SubscriptionFacts: the theorems about [Subscription] *)

From S2P Require Import Prelude Schema Store Logic Frame Ledger Calendar Quota Subscription.
From stdpp Require Import base numbers option strings list sorting.
From Stdlib Require Import ZArith Lia.
Open Scope Z_scope.

(** ** Frames: billing a subscription touches no other table and emits nothing *)

Section Frames.
Local Abbreviation quiet := (respects (keeps no_subs)).

Lemma postConsume_frame i delta : quiet (postConsumeUserSubscriptionDeltaTx i delta).
Proof. unfold postConsumeUserSubscriptionDeltaTx. respects_auto. Qed.

Lemma plan_frame i : quiet (getSubscriptionPlanByIdTx i).
Proof. unfold getSubscriptionPlanByIdTx. respects_auto. Qed.

Lemma maybeReset_frame sub plan now : quiet (maybeResetUserSubscriptionWithPlanTx sub plan now).
Proof. unfold maybeResetUserSubscriptionWithPlanTx. respects_auto. Qed.

Lemma replay_frame r : quiet (replay_result r).
Proof. unfold replay_result. respects_auto. Qed.

#[local] Hint Resolve postConsume_frame plan_frame maybeReset_frame replay_frame : respects.

Lemma consume_first_frame rid u a now subs : quiet (consume_first rid u a now subs).
Proof. induction subs as [|s subs IH]; cbn [consume_first]; respects_auto. Qed.

#[local] Hint Resolve consume_first_frame : respects.

Lemma preConsume_frame rid u a : quiet (preConsumeUserSubscriptionTx rid u a).
Proof. unfold preConsumeUserSubscriptionTx. respects_auto. Qed.

Lemma refund_frame rid : quiet (refundSubscriptionPreConsumeTx rid).
Proof. unfold refundSubscriptionPreConsumeTx. respects_auto. Qed.
End Frames.

#[export] Hint Resolve postConsume_frame plan_frame maybeReset_frame replay_frame
  consume_first_frame preConsume_frame refund_frame : respects.
