(* ===== verification/ResetFacts.v ===== *)
(** * ResetFacts: the reset schedule of a subscription

    [calcNextResetTime] is aligned to the local calendar and moves forward;
    the catch-up loop of [maybeResetUserSubscriptionWithPlanTx] ends exactly
    when some number of rounds ends it, and for every sensible plan it does
    where every day has its midnight. *)

From S2P Require Import Prelude Calendar CalendarFacts Schema Store Logic Frame Ledger Demo Quota Subscription.
From stdpp Require Import base numbers option strings list sorting.
From Stdlib Require Import ZArith Lia Floats.SpecFloat.
Open Scope Z_scope.

(** ** Calendar steps *)

Lemma days_from_civil_day y m d k : days_from_civil y m (d + k) = days_from_civil y m d + k.
Proof. unfold days_from_civil. cbv zeta. lia. Qed.

Lemma time_Date_month loc y m d : 1 <= m <= 12 -> time_Date loc y m d 0 = midnight loc (days_from_civil y m d).
Proof.
  intros Hm. unfold time_Date, midnight. cbv zeta. rewrite (Z.div_small (m - 1) 12), (Z.mod_small (m - 1) 12) by lia.
  rewrite !Z.add_0_r, Z.sub_add. f_equal. lia.
Qed.

(** Midnight of a day, computed from its civil date. *)
Lemma time_Date_day loc z y m d k :
  civil_from_days z = (y, m, d) -> time_Date loc y m (d + k) 0 = midnight loc (z + k).
Proof.
  intros E. pose proof (days_civil_days z) as Hd. pose proof (civil_month_contains z) as Hm.
  rewrite E in Hd, Hm. destruct Hm as (Hm & _).
  by rewrite (time_Date_month loc y m _ Hm), days_from_civil_day, Hd.
Qed.

Lemma AddDate_days loc z k : tame loc = true -> t_AddDate loc (midnight loc z) 0 0 k = midnight loc (z + k).
Proof.
  intros Ht. unfold t_AddDate, t_Date. rewrite local_day_midnight, reading_midnight by done.
  destruct (civil_from_days z) as [[y m] d] eqn:E. rewrite Z.mul_comm, Z.mod_mul by lia.
  by rewrite !Z.add_0_r, (time_Date_day loc z y m d k E).
Qed.

(** Midnight of the first day of the month after the one of [z]. *)
Definition next_month (z : Z) : Z :=
  let '(y, m, _) := civil_from_days z in days_from_civil (y + m / 12) (m mod 12 + 1) 1.

Lemma AddDate_month loc y m :
  tame loc = true -> 1 <= m <= 12 ->
  t_AddDate loc (time_Date loc y m 1 0) 0 1 0 = midnight loc (days_from_civil (y + m / 12) (m mod 12 + 1) 1).
Proof.
  intros Ht Hm. rewrite (time_Date_month loc y m 1 Hm). unfold t_AddDate, t_Date.
  rewrite local_day_midnight, reading_midnight, (civil_month_start y m Hm) by done.
  rewrite Z.mul_comm, Z.mod_mul by lia. unfold time_Date, midnight. cbv zeta.
  rewrite !Z.add_0_r, Z.add_simpl_r. f_equal. lia.
Qed.

Lemma next_month_after z : z < next_month z.
Proof.
  unfold next_month. pose proof (civil_month_contains z) as H.
  destruct (civil_from_days z) as [[y m] d]. tauto.
Qed.

(** Months, counted, and the first day of each. *)
Definition first_of (i : Z) : Z := days_from_civil (i / 12) (i mod 12 + 1) 1.
Definition month_of (z : Z) : Z := let '(y, m, _) := civil_from_days z in 12 * y + m - 1.
Lemma month_bounds z : first_of (month_of z) <= z < first_of (month_of z + 1) /\ next_month z = first_of (month_of z + 1).
Proof.
  pose proof (civil_month_contains z) as Hc. pose proof (days_civil_days z) as Hd. unfold month_of, next_month, first_of.
  destruct (civil_from_days z) as [[y m] d]. destruct Hc as (Hm & Hday & Hlt).
  replace (12 * y + m - 1) with (m - 1 + y * 12) by lia. rewrite Z.div_add, Z.mod_add, (Z.div_small (m - 1)), (Z.mod_small (m - 1)) by lia.
  replace (m - 1 + y * 12 + 1) with (m + y * 12) by lia. rewrite Z.div_add, Z.mod_add by lia.
  replace (m / 12 + y) with (y + m / 12) by lia. rewrite Z.add_0_l, Z.sub_add. split; [|done]. split; [|done].
  rewrite <- Hd. replace d with (1 + (d - 1)) by lia. rewrite days_from_civil_day. lia.
Qed.
Lemma first_of_next i : first_of i < first_of (i + 1).
Proof.
  assert (month_of (first_of i) = i) as E.
  { unfold month_of, first_of. pose proof (Z.mod_pos_bound i 12 ltac:(lia)). rewrite civil_month_start by lia.
    pose proof (Z_div_mod_eq_full i 12). lia. }
  destruct (month_bounds (first_of i)) as [[_ H] _]. by rewrite E in H.
Qed.
Lemma first_of_mono i j : i <= j -> first_of i <= first_of j.
Proof.
  intros H. replace j with (i + Z.of_nat (Z.to_nat (j - i))) by lia. generalize (Z.to_nat (j - i)) as n. induction n as [|n IH].
  - by rewrite Z.add_0_r.
  - pose proof (first_of_next (i + Z.of_nat n)). replace (i + Z.of_nat (S n)) with (i + Z.of_nat n + 1) by lia. lia.
Qed.
Lemma next_month_same z z' : z <= z' < next_month z -> next_month z' = next_month z.
Proof.
  intros [H1 H2]. destruct (month_bounds z) as [[B1 B2] E], (month_bounds z') as [[C1 C2] E']. rewrite E in H2. rewrite E, E'.
  assert (month_of z = month_of z') as ->; [|done].
  destruct (Z.lt_trichotomy (month_of z) (month_of z')) as [Hlt|[|Hgt]]; [|done|].
  - pose proof (first_of_mono (month_of z + 1) (month_of z') ltac:(lia)). lia.
  - pose proof (first_of_mono (month_of z' + 1) (month_of z) ltac:(lia)). lia.
Qed.

(** ** The next reset *)

(** Seconds a custom period adds, as [time.Duration] computes it. *)
Definition custom_step (plan : SubscriptionPlan) : Z :=
  duration_of (pl_quota_reset_custom_seconds plan) 1 / 1000000000.

(** The next reset before the end of the subscription is taken into account. *)
Definition raw_next (loc : Location) (base : Z) (plan : SubscriptionPlan) : Z :=
  let z := local_day loc base in
  let period := NormalizeResetPeriod (pl_quota_reset_period plan) in
  if str_eqb period SubscriptionResetDaily then midnight loc (z + 1)
  else if str_eqb period SubscriptionResetWeekly then midnight loc (z + 7 - (z + 3) mod 7)
  else if str_eqb period SubscriptionResetMonthly then midnight loc (next_month z)
  else base + custom_step plan.

Definition resets (plan : SubscriptionPlan) : bool :=
  let period := NormalizeResetPeriod (pl_quota_reset_period plan) in
  negb (str_eqb period SubscriptionResetNever) &&
  (negb (str_eqb period SubscriptionResetCustom) || (0 <? pl_quota_reset_custom_seconds plan)).

Lemma NormalizeResetPeriod_cases p :
  let q := NormalizeResetPeriod p in
  q = SubscriptionResetNever \/ q = SubscriptionResetDaily \/ q = SubscriptionResetWeekly \/
  q = SubscriptionResetMonthly \/ q = SubscriptionResetCustom.
Proof.
  unfold NormalizeResetPeriod. cbv zeta.
  destruct (str_eqb (trim_space p) SubscriptionResetDaily) eqn:E1; [apply str_eqb_true in E1; auto|].
  destruct (str_eqb (trim_space p) SubscriptionResetWeekly) eqn:E2; [apply str_eqb_true in E2; auto|].
  destruct (str_eqb (trim_space p) SubscriptionResetMonthly) eqn:E3; [apply str_eqb_true in E3; auto|].
  destruct (str_eqb (trim_space p) SubscriptionResetCustom) eqn:E4; [apply str_eqb_true in E4; cbn; auto|].
  cbn. auto.
Qed.

Definition clip_end (endUnix next : Z) : Z := if (0 <? endUnix) && (endUnix <? next) then 0 else next.

(** Decide comparisons of closed strings. *)
Ltac str_decide :=
  repeat match goal with
  | |- context [str_eqb ?a ?b] => let v := eval vm_compute in (str_eqb a b) in change (str_eqb a b) with v
  end; cbn beta iota delta [negb andb orb].

Definition is_custom (plan : SubscriptionPlan) : bool :=
  str_eqb (NormalizeResetPeriod (pl_quota_reset_period plan)) SubscriptionResetCustom.

(** The seconds of a custom period are the same everywhere. *)
Lemma calcNext_raw loc base plan endUnix :
  (is_custom plan = false -> tame loc = true) ->
  calcNextResetTime loc base plan endUnix =
  if resets plan then clip_end endUnix (raw_next loc base plan) else 0.
Proof.
  intros Ht. unfold calcNextResetTime, resets, raw_next, t_Date, is_custom in *. cbv zeta.
  set (z := local_day loc base). destruct (civil_from_days z) as [[y m] d] eqn:E.
  assert (1 <= m <= 12) as Hm by (pose proof (civil_month_contains z) as H; rewrite E in H; tauto).
  assert (time_Date loc y m d 0 = midnight loc z) as Hz
    by (rewrite <- (Z.add_0_r d), (time_Date_day loc z y m d 0 E); f_equal; lia).
  destruct (NormalizeResetPeriod_cases (pl_quota_reset_period plan)) as [H|[H|[H|[H|H]]]]; cbv zeta in H; rewrite H in *.
  - str_decide. reflexivity.
  - specialize (Ht eq_refl). str_decide. by rewrite Hz, AddDate_days.
  - specialize (Ht eq_refl). str_decide. rewrite Hz. unfold t_Weekday. fold z.
    rewrite AddDate_days by done.
    replace (z + (8 - (if (z + 4) mod 7 =? 0 then 7 else (z + 4) mod 7))) with (z + 7 - (z + 3) mod 7)
      by (destruct (Z.eqb_spec ((z + 4) mod 7) 0) as [H0|H0]; Z.to_euclidean_division_equations; lia).
    reflexivity.
  - specialize (Ht eq_refl). str_decide. rewrite (AddDate_month loc y m Ht Hm). unfold next_month. by rewrite E.
  - str_decide. unfold custom_step, t_Add.
    destruct (Z.leb_spec (pl_quota_reset_custom_seconds plan) 0), (Z.ltb_spec 0 (pl_quota_reset_custom_seconds plan));
      try lia; reflexivity.
Qed.
Lemma calcNext_none loc base plan endUnix : resets plan = false -> calcNextResetTime loc base plan endUnix = 0.
Proof.
  unfold resets, calcNextResetTime. cbv zeta. destruct (t_Date loc base) as [[y m] d].
  destruct (NormalizeResetPeriod_cases (pl_quota_reset_period plan)) as [H|[H|[H|[H|H]]]]; cbv zeta in H; rewrite H; str_decide; try done.
  intros H0%Z.ltb_ge. by destruct (Z.leb_spec (pl_quota_reset_custom_seconds plan) 0); [|lia].
Qed.

(** It is after its base, and that of every instant before it. *)
Lemma raw_next_calendar loc base plan :
  tame loc = true -> resets plan = true -> is_custom plan = false -> base < raw_next loc base plan.
Proof.
  intros Ht. unfold resets, is_custom, raw_next. cbv zeta. set (z := local_day loc base).
  pose proof (Z.mod_pos_bound (z + 3) 7 ltac:(lia)). pose proof (next_month_after z).
  destruct (NormalizeResetPeriod_cases (pl_quota_reset_period plan)) as [E|[E|[E|[E|E]]]]; cbv zeta in E; rewrite E;
    str_decide; intros ? ?; try discriminate; apply before_midnight; fold z; try done; lia.
Qed.
Lemma raw_next_same loc base now plan :
  tame loc = true -> resets plan = true -> is_custom plan = false -> base <= now < raw_next loc base plan ->
  raw_next loc now plan = raw_next loc base plan.
Proof.
  intros Ht. unfold resets, is_custom, raw_next. cbv zeta. set (z := local_day loc base). set (z' := local_day loc now).
  destruct (NormalizeResetPeriod_cases (pl_quota_reset_period plan)) as [E|[E|[E|[E|E]]]]; cbv zeta in E; rewrite E;
    str_decide; intros ? ?; try discriminate; intros [H1%(local_day_mono loc Ht) H2%before_midnight]; try done;
    fold z z' in H1, H2; f_equal.
  - lia.
  - Z.to_euclidean_division_equations. lia.
  - by apply next_month_same.
Qed.

Lemma raw_next_custom loc base plan : is_custom plan = true -> raw_next loc base plan = base + custom_step plan.
Proof. unfold is_custom, raw_next. by intros ->%str_eqb_true. Qed.

(** A plan whose schedule moves forward, in this location. *)
Definition forward (loc : Location) (plan : SubscriptionPlan) : Prop :=
  if is_custom plan then 0 < custom_step plan else tame loc = true.
Lemma forward_tame loc plan : forward loc plan -> is_custom plan = false -> tame loc = true.
Proof. unfold forward. intros H E. by rewrite E in H. Qed.

Lemma raw_next_forward loc base plan : forward loc plan -> resets plan = true -> base < raw_next loc base plan.
Proof.
  intros Hf Hr. destruct (is_custom plan) eqn:Ec; [|by apply raw_next_calendar; [eapply forward_tame|..]].
  rewrite raw_next_custom by done. unfold forward in Hf. rewrite Ec in Hf. lia.
Qed.
Lemma next_forward loc base plan endUnix :
  forward loc plan -> let next := calcNextResetTime loc base plan endUnix in next = 0 \/ base < next.
Proof.
  intros Hf. cbv zeta. rewrite calcNext_raw by by apply forward_tame. destruct (resets plan) eqn:Er; [|by left].
  unfold clip_end. destruct (_ && _); [by left|right]. by apply raw_next_forward.
Qed.

(** The period an administrator may reasonably configure. *)
Lemma custom_step_seconds plan :
  1 <= pl_quota_reset_custom_seconds plan <= 9223372036 ->
  custom_step plan = pl_quota_reset_custom_seconds plan.
Proof.
  intros H. unfold custom_step, duration_of. rewrite i64_small by (unfold in_i64, min_int64, max_int64; lia).
  rewrite Z.mul_1_l. apply Z.div_mul. lia.
Qed.

(** ** The catch-up loop *)

Definition due (now next : Z) : bool := (0 <? next) && (next <=? now).
Lemma due_spec now next : due now next = true <-> 0 < next <= now.
Proof. unfold due. rewrite andb_true_iff. lia. Qed.

(** A schedule that is not due after some number of steps is not after as many
    as there are instants: before that it cannot come to the same one twice. *)
Lemma stops_within (f : Z -> Z) now x k :
  due now (Nat.iter k f x) = false -> exists j, Z.of_nat j <= Z.max 0 now /\ due now (Nat.iter j f x) = false.
Proof.
  induction k as [k IH] using lt_wf_ind. intros Hk.
  destruct (Z_le_gt_dec (Z.of_nat k) (Z.max 0 now)) as [|Hgt]; [by exists k|].
  destruct (decide (Exists (fun j => due now (Nat.iter j f x) = false) (seq 0 k))) as [(j & Hj & Hd)%Exists_exists|Hall].
  { apply elem_of_seq in Hj. by apply (IH j); [lia|]. }
  assert (forall j, (j < k)%nat -> due now (Nat.iter j f x) = true) as Hdue.
  { intros j Hj. destruct (due now (Nat.iter j f x)) eqn:E; [done|]. destruct Hall. apply Exists_exists. exists j. split; [apply elem_of_seq; lia | done]. }
  assert (forall i j, (i < j < k)%nat -> Nat.iter i f x <> Nat.iter j f x) as Hdiff.
  { intros i j Hij E. assert (Nat.iter (k - j + i) f x = Nat.iter k f x) as Ek.
    { rewrite Nat.iter_add, E, <- Nat.iter_add. f_equal. lia. }
    rewrite <- Ek, Hdue in Hk; [done | lia]. }
  assert (NoDup ((fun j => Nat.iter j f x) <$> seq 0 k)) as Hnd.
  { apply NoDup_fmap_2_strong; [|apply NoDup_seq]. intros i j Hi%elem_of_seq Hj%elem_of_seq E.
    destruct (Nat.lt_trichotomy i j) as [Hlt|[|Hlt]]; [|done|]; exfalso; [apply (Hdiff i j) | apply (Hdiff j i)]; (lia || done). }
  assert ((fun j => Nat.iter j f x) <$> seq 0 k ⊆+ seqZ 1 now) as Hsub%submseteq_length.
  { apply NoDup_submseteq; [done|]. intros y (j & -> & Hj%elem_of_seq)%list_elem_of_fmap.
    apply elem_of_seqZ. pose proof (proj1 (due_spec _ _) (Hdue j ltac:(lia))). lia. }
  rewrite length_fmap, length_seq, length_seqZ in Hsub. lia.
Qed.
Lemma forward_stops (f : Z -> Z) now x :
  (forall t, due now t = true -> f t = 0 \/ t < f t) -> exists k, due now (Nat.iter k f x) = false.
Proof.
  intros Hf. remember (Z.to_nat (now - x)) as n eqn:En. revert x En. induction n as [n IH] using lt_wf_ind. intros x En.
  destruct (due now x) eqn:Ed; [|by exists O]. destruct (Hf x Ed) as [E|E]; [exists 1%nat; cbn; by rewrite E|].
  pose proof (proj1 (due_spec _ _) Ed). destruct (due now (f x)) eqn:Ed'; [|by exists 1%nat].
  pose proof (proj1 (due_spec _ _) Ed'). destruct (IH (Z.to_nat (now - f x)) ltac:(lia) (f x) eq_refl) as [k Hk].
  exists (S k). by rewrite Nat.iter_succ_r.
Qed.

Lemma iter_fixed {A} (f : A -> A) x k : f x = x -> Nat.iter k f x = x.
Proof. intros E. induction k as [|k IH]; [done|]. by rewrite Nat.iter_succ, IH. Qed.

Section CatchUp.
Context (loc : Location) (plan : SubscriptionPlan) (endTime now : Z).
Abbreviation upcoming t := (calcNextResetTime loc t plan endTime).
Abbreviation round := (reset_round loc plan endTime now).

Lemma round_due st : round st = if due now st.2 then inl (true, st.2, upcoming st.2) else inr st.
Proof. by destruct st as [[adv base] next]. Qed.
Lemma rounds_stop n adv base next st :
  rounds round n (adv, base, next) = inr st -> exists k, (k < n)%nat /\ due now (Nat.iter k (fun t => upcoming t) next) = false.
Proof.
  revert adv base next. induction n as [|n IH]; intros adv base next; cbn [rounds]; [done|]. rewrite round_due. cbn [snd].
  destruct (due now next) eqn:Ed; [|intros _; exists O; split; [lia | done]].
  intros (k & Hk & H)%IH. exists (S k). split; [lia|]. by rewrite Nat.iter_succ_r.
Qed.
Lemma rounds_stopped k adv base next :
  due now (Nat.iter k (fun t => upcoming t) next) = false -> exists st, rounds round (S k) (adv, base, next) = inr st.
Proof.
  revert adv base next. induction k as [|k IH]; intros adv base next H; cbn [rounds]; rewrite round_due; cbn [snd].
  - cbn in H. rewrite H. by eexists.
  - destruct (due now next) eqn:Ed; [|by eexists]. rewrite Nat.iter_succ_r in H. by apply IH.
Qed.

(** The fuel of [maybeReset] decides the loop. *)
Lemma reset_fuel_decides k adv base next :
  due now (Nat.iter k (fun t => upcoming t) next) = false -> exists st, reset_loop (reset_fuel now) loc plan endTime now adv base next = Some st.
Proof.
  intros (j & Hj & Hd)%stops_within. destruct (rounds_stopped j adv base next Hd) as [st Hst]. exists st.
  unfold reset_loop. rewrite loop_rounds, (rounds_more _ _ _ _ _ Hst); [done|]. unfold reset_fuel. lia.
Qed.
Lemma reset_loop_rounds fuel adv base next st :
  reset_loop fuel loc plan endTime now adv base next = Some st <-> rounds round (Pos.to_nat fuel) (adv, base, next) = inr st.
Proof.
  unfold reset_loop. rewrite loop_rounds. destruct (rounds _ _ _); split; intros [=]; by subst.
Qed.
Lemma reset_fuel_enough fuel adv base next st :
  reset_loop fuel loc plan endTime now adv base next = Some st -> reset_loop (reset_fuel now) loc plan endTime now adv base next = Some st.
Proof.
  intros H%reset_loop_rounds. destruct (rounds_stop _ _ _ _ _ H) as (k & _ & Hk).
  destruct (reset_fuel_decides k adv base next Hk) as [st' H']. rewrite H'. apply reset_loop_rounds in H'. f_equal.
  apply (rounds_more _ _ (Pos.to_nat fuel + Pos.to_nat (reset_fuel now))) in H; [|lia].
  apply (rounds_more _ _ (Pos.to_nat fuel + Pos.to_nat (reset_fuel now))) in H'; [|lia]. congruence.
Qed.

(** How it ends; [P] holds of the resets that were due. *)
Lemma reset_loop_result (P : Z -> Prop) fuel adv base next adv' base' next' :
  (forall t, due now t = true -> P t -> due now (upcoming t) = true -> P (upcoming t)) -> (due now next = true -> P next) ->
  reset_loop fuel loc plan endTime now adv base next = Some (adv', base', next') ->
  due now next' = false /\
  ((due now next = false /\ (adv', base', next') = (adv, base, next)) \/
   (due now next = true /\ adv' = true /\ due now base' = true /\ P base' /\ next' = upcoming base')).
Proof.
  intros HP. rewrite reset_loop_rounds. generalize (Pos.to_nat fuel) as n. intros n. revert adv base next.
  induction n as [|n IH]; intros adv base next Hnext; cbn [rounds]; [done|]. rewrite round_due. cbn [snd].
  destruct (due now next) eqn:Ed; [|intros [= <- <- <-]; split; [done | by left]].
  intros H. destruct (IH true next (upcoming next)) as [H1 H2]; [by apply HP, Hnext | exact H|]. split; [done|]. right.
  destruct H2 as [(_ & [= -> -> ->])|(_ & ? & ? & ? & ?)]; split_and!; auto.
Qed.

(** A reset that leads to itself. *)
Lemma reset_loop_stuck fuel adv base next :
  due now next = true -> upcoming next = next -> reset_loop fuel loc plan endTime now adv base next = None.
Proof.
  intros Hd Hn. destruct (reset_loop fuel loc plan endTime now adv base next) as [st|] eqn:E; [|done]. exfalso.
  apply reset_loop_rounds, rounds_stop in E as (k & _ & Hk). rewrite iter_fixed in Hk by done. congruence.
Qed.
End CatchUp.

(** The first boundary after [now] of the schedule that starts at [base]. *)
Definition next_boundary (loc : Location) (base : Z) (plan : SubscriptionPlan) (now : Z) : Z :=
  if is_custom plan then base + ((now - base) / custom_step plan + 1) * custom_step plan else raw_next loc now plan.

(** What is caught up with. *)
Lemma reset_caught_up loc plan endTime now base adv base' next' :
  forward loc plan -> let next := calcNextResetTime loc base plan endTime in
  due now next = true ->
  reset_loop (reset_fuel now) loc plan endTime now false base next = Some (adv, base', next') ->
  adv = true /\ base < base' <= now /\ now < next_boundary loc base plan now /\ next' = clip_end endTime (next_boundary loc base plan now).
Proof.
  intros Hf next Hd Hloop. pose proof (proj1 (due_spec _ _) Hd) as Hpos.
  assert (resets plan = true) as Hr by (destruct (resets plan) eqn:E; [done|]; unfold next in Hpos; rewrite calcNext_none in Hpos by done; lia).
  assert (forall t, due now (calcNextResetTime loc t plan endTime) = true -> calcNextResetTime loc t plan endTime = raw_next loc t plan) as Hraw.
  { intros t Ht%due_spec. rewrite calcNext_raw, Hr in * by by apply forward_tame. unfold clip_end in *. destruct (_ && _); [lia | done]. }
  pose proof (raw_next_forward loc base plan Hf Hr) as Hbase. unfold next in Hd, Hpos. rewrite <- Hraw in Hbase by done.
  destruct (reset_loop_result loc plan endTime now
    (fun t => base < t /\ (is_custom plan = true -> exists k, t = base + k * custom_step plan)) (reset_fuel now) false base next adv base' next')
    as [Hnd [[? _]|(_ & -> & Hd' & [Hlt Hk] & ->)]]; [| |exact Hloop|unfold next in *; congruence|].
  - intros t Ht [Hlt Hk] Hn. pose proof (raw_next_forward loc t plan Hf Hr) as Hfw. rewrite (Hraw t Hn). split; [lia|]. intros Ec.
    destruct (Hk Ec) as [k ->]. exists (k + 1). rewrite raw_next_custom by done. lia.
  - intros _. unfold next. split; [done|]. intros Ec. exists 1. rewrite (Hraw base Hd), raw_next_custom by done. lia.
  - apply due_spec in Hd'. split; [done|]. split; [lia|]. rewrite calcNext_raw, Hr in * by by apply forward_tame.
    pose proof (raw_next_forward loc base' plan Hf Hr) as Hfw. unfold next_boundary.
    assert (now < raw_next loc base' plan \/ (0 < endTime /\ endTime < raw_next loc base' plan <= now)) as Hcase.
    { unfold clip_end, due in Hnd. destruct (Z.ltb_spec 0 endTime), (Z.ltb_spec endTime (raw_next loc base' plan)); cbn in Hnd; lia. }
    destruct (is_custom plan) eqn:Ec.
    + destruct (Hk eq_refl) as [k Ek]. rewrite raw_next_custom in * by done. unfold forward in Hf. rewrite Ec in Hf.
      pose proof (Z_div_mod_eq_full (now - base) (custom_step plan)). pose proof (Z.mod_pos_bound (now - base) (custom_step plan) Hf).
      split; [lia|]. destruct Hcase as [Hcase|Hcase].
      * f_equal. assert ((now - base) / custom_step plan = k) as ->; [|lia].
        symmetry. apply (Z.div_unique_pos _ _ _ (now - base - k * custom_step plan)); lia.
      * unfold clip_end. rewrite !(proj2 (Z.ltb_lt _ _)) by lia. done.
    + pose proof (forward_tame _ _ Hf Ec) as Ht. pose proof (raw_next_calendar loc now plan Ht Hr Ec). split; [done|].
      destruct Hcase as [Hcase|Hcase]; [by rewrite (raw_next_same loc base' now plan) by (try done; lia)|].
      unfold clip_end. rewrite !(proj2 (Z.ltb_lt _ _)) by lia. done.
Qed.

(** The loop of [maybeReset] with its fuel, whether or not a reset is due. *)
Lemma reset_decided loc plan endTime now base :
  let next := calcNextResetTime loc base plan endTime in
  (is_custom plan = false -> tame loc = true) -> (is_custom plan = true -> pl_quota_reset_custom_seconds plan <= 9223372036) ->
  exists adv base' next',
    reset_loop (reset_fuel now) loc plan endTime now false base next = Some (adv, base', next') /\
    (due now next = true ->
       adv = true /\ base < base' <= now /\ now < next_boundary loc base plan now /\ next' = clip_end endTime (next_boundary loc base plan now)) /\
    (due now next = false -> adv = false).
Proof.
  intros next Ht Hs. destruct (due now next) eqn:Hd.
  - assert (resets plan = true) as Hr by (destruct (resets plan) eqn:E; [done|]; unfold next in Hd; by rewrite calcNext_none in Hd).
    assert (forward loc plan) as Hf.
    { unfold forward. destruct (is_custom plan) eqn:Ec; [|by apply Ht]. specialize (Hs eq_refl). unfold is_custom in Ec. apply str_eqb_true in Ec.
      unfold resets in Hr. cbv zeta in Hr. rewrite Ec in Hr. revert Hr. str_decide. intros Hpos%Z.ltb_lt. rewrite custom_step_seconds; lia. }
    destruct (forward_stops (fun t => calcNextResetTime loc t plan endTime) now next) as [k Hk]; [intros t _; by apply next_forward|].
    destruct (reset_fuel_decides loc plan endTime now k false base next Hk) as [[[adv base'] next'] Hloop].
    exists adv, base', next'. split; [done|]. split; [intros _ | done]. by apply reset_caught_up.
  - exists false, base, next. split; [|done]. apply reset_loop_rounds. destruct (Pos.to_nat (reset_fuel now)) eqn:E; [lia|].
    cbn [rounds]. rewrite round_due. cbn [snd]. by rewrite Hd.
Qed.

(** ** The theorems *)

Definition period_is (plan : SubscriptionPlan) (p : string) : Prop :=
  NormalizeResetPeriod (pl_quota_reset_period plan) = p.



(** Resets move forward and stay within the subscription: the next reset
    is after [base], and never after a positive end time; otherwise there is
    none (0).  For a custom plan the period must not overflow [time.Duration]. *)
Theorem next_reset_forward loc base plan endUnix :
  tame loc = true ->
  (NormalizeResetPeriod (pl_quota_reset_period plan) = SubscriptionResetCustom ->
   pl_quota_reset_custom_seconds plan <= 9223372036) ->
  let next := calcNextResetTime loc base plan endUnix in
  next = 0 \/ (base < next /\ (0 < endUnix -> next <= endUnix)).
Proof.
  intros Ht Hs. cbv zeta. rewrite calcNext_raw by done. destruct (resets plan) eqn:Er; [|by left].
  unfold clip_end. destruct ((0 <? endUnix) && (endUnix <? raw_next loc base plan)) eqn:E; [by left|right].
  split.
  - destruct (is_custom plan) eqn:Ec; [|by apply raw_next_calendar].
    rewrite raw_next_custom by done. unfold is_custom in Ec. unfold resets in Er. cbv zeta in Er.
    rewrite Ec in Er. apply str_eqb_true in Ec. specialize (Hs Ec). rewrite Ec in Er.
    revert Er. str_decide. intros Hpos%Z.ltb_lt. rewrite custom_step_seconds by lia. lia.
  - intros He%Z.ltb_lt. rewrite He in E. by apply Z.ltb_ge in E.
Qed.

Definition monthly_plan : SubscriptionPlan := Demo.plan <| pl_quota_reset_period := "monthly"%string |>.

Lemma next_reset_forward_witness :
  calcNextResetTime berlin Demo.now monthly_plan 0 = 0 \/
  (Demo.now < calcNextResetTime berlin Demo.now monthly_plan 0 /\
   (0 < 0 -> calcNextResetTime berlin Demo.now monthly_plan 0 <= 0)).
Proof. exact (next_reset_forward berlin Demo.now monthly_plan 0 tame_berlin ltac:(vm_compute; discriminate)). Defined.

(** *** The reset inside a transaction *)

Definition stored (sub : UserSubscription) (d : DB) : Prop :=
  List.existsb (t_same Subscriptions sub) (db_subs d) = true.

Lemma save_sub_stored e sub d tr :
  stored sub d -> save Subscriptions sub e (mkSt d [] tr) = (inr tt, mkSt (put_sub sub d) [] tr).
Proof.
  intros H. unfold save, stmt. cbn [st_faults st_db st_trace]. unfold stored in H.
  change (t_get Subscriptions d) with (db_subs d). rewrite H. unfold put_sub. cbn. do 3 f_equal.
  apply upd_rows_ext; [|done]. intros r. unfold has_sub. cbn. apply Z.eqb_sym.
Qed.

Lemma stored_same sub sub' d : us_id sub' = us_id sub -> stored sub d -> stored sub' d.
Proof. unfold stored. cbn. by intros ->. Qed.

(** The start of the period the reset is computed from. *)
Definition reset_base (sub : UserSubscription) : Z :=
  if us_last_reset_time sub <=? 0 then us_start_time sub else us_last_reset_time sub.

(** C11. Catching up: when the next reset of a subscription is due, the used
    amount is reset to zero exactly once, however many periods have passed, and
    the next reset is the first boundary of its schedule after now - for a
    calendar period that of C10, for a custom one the first of the steps from
    where it started - or none if that is past the end; when it is not due the
    used amount is kept.  The loop always ends.  Of the calendar periods this is
    so where every day begins at midnight and only once. *)
Theorem reset_catches_up e d tr sub plan now :
  let next := calcNextResetTime (env_tz e) (reset_base sub) plan (us_end_time sub) in
  (NormalizeResetPeriod (pl_quota_reset_period plan) <> SubscriptionResetCustom -> tame (env_tz e) = true) ->
  (NormalizeResetPeriod (pl_quota_reset_period plan) = SubscriptionResetCustom ->
   pl_quota_reset_custom_seconds plan <= 9223372036) ->
  NormalizeResetPeriod (pl_quota_reset_period plan) <> SubscriptionResetNever ->
  us_next_reset_time sub <= now -> stored sub d ->
  exists sub' d',
    maybeResetUserSubscriptionWithPlanTx sub plan now e (mkSt d [] tr) = (inr sub', mkSt d' [] tr) /\
    us_id sub' = us_id sub /\ us_amount_total sub' = us_amount_total sub /\
    (due now next = true ->
       us_amount_used sub' = 0 /\ d' = put_sub sub' d /\ us_last_reset_time sub' <= now /\
       reset_base sub < us_last_reset_time sub' /\
       let first := next_boundary (env_tz e) (reset_base sub) plan now in
       now < first /\ us_next_reset_time sub' = clip_end (us_end_time sub) first) /\
    (due now next = false -> us_amount_used sub' = us_amount_used sub /\ (d' = d \/ d' = put_sub sub' d)).
Proof.
  cbv zeta. set (next := calcNextResetTime _ _ _ _). intros Hloc Hs Hnever Hnr Hst.
  destruct (reset_decided (env_tz e) plan (us_end_time sub) now (reset_base sub)) as (adv & base' & next' & Hloop & Hdue & Hnot).
  { intros Ec%str_eqb_false. by apply Hloc. }
  { intros Ec%str_eqb_true. by apply Hs. }
  unfold maybeResetUserSubscriptionWithPlanTx.
  rewrite (proj2 (Z.ltb_ge now (us_next_reset_time sub))), andb_false_r by lia.
  rewrite (proj2 (str_eqb_false _ _) Hnever). cbv zeta. fold (reset_base sub).
  unfold mbind at 1, M_bind at 1, ask at 1. cbn beta iota. fold next in Hloop, Hdue, Hnot |- *. rewrite Hloop. clearbody next. clear Hloop.
  unfold mbind at 1, M_bind at 1, GetTimestamp, ask at 1. cbn beta iota.
  destruct adv; cbn [negb].
  - unfold mbind, M_bind. match goal with |- context [save Subscriptions ?x] => set (sub' := x) end.
    rewrite (save_sub_stored e sub') by (by apply (stored_same sub)).
    exists sub', (put_sub sub' d). split; [reflexivity|].
    split; [reflexivity|]. split; [reflexivity|]. split; intros H; [|discriminate (Hnot H)].
    destruct (Hdue H) as (_ & [Hlt Hle] & Hn). split; [reflexivity|]. split; [reflexivity|].
    split; [exact Hle|]. split; [exact Hlt | exact Hn].
  - assert (due now next = false) as Hnd by (destruct (due now next); [by destruct (Hdue eq_refl) | done]).
    destruct ((us_next_reset_time sub =? 0) && (0 <? next')).
    + unfold mbind, M_bind. match goal with |- context [save Subscriptions ?x] => set (sub' := x) end.
      rewrite (save_sub_stored e sub') by (by apply (stored_same sub)).
      exists sub', (put_sub sub' d). split; [reflexivity|].
      split; [reflexivity|]. split; [reflexivity|]. split; intros H; [by rewrite Hnd in H|].
      split; [reflexivity | by right].
    + exists sub, d. split; [reflexivity|]. split_and!; [done | done | intros H; by rewrite Hnd in H |].
      intros _. split; [done | by left].
Qed.

(** Three days without a reset, on a daily plan. *)
Definition overdue_sub : UserSubscription :=
  Demo.sub <| us_start_time := Demo.now - 3 * 86400 |> <| us_last_reset_time := Demo.now - 3 * 86400 |>
           <| us_next_reset_time := Demo.now - 2 * 86400 |>.
Definition overdue_db : DB := Demo.db <| db_subs := [overdue_sub] |>.

Lemma reset_catches_up_witness :
  exists sub' d',
    maybeResetUserSubscriptionWithPlanTx overdue_sub Demo.plan Demo.now Demo.env (mkSt overdue_db [] [])
      = (inr sub', mkSt d' [] []) /\ us_amount_used sub' = 0.
Proof.
  destruct (reset_catches_up Demo.env overdue_db [] overdue_sub Demo.plan Demo.now
    (fun _ => ltac:(by vm_compute)) ltac:(vm_compute; discriminate) ltac:(vm_compute; discriminate) ltac:(vm_compute; discriminate) eq_refl)
    as (sub' & d' & Hr & _ & _ & Hdue & _).
  exists sub', d'. split; [exact Hr | exact (proj1 (Hdue eq_refl))].
Defined.

(** Where the day of [base] has a midnight, a daily plan resets at what
    [time.Date] answers for the next one. *)
Lemma calcNext_daily loc base plan endUnix :
  period_is plan SubscriptionResetDaily ->
  reading loc (midnight loc (local_day loc base)) = 86400 * local_day loc base ->
  calcNextResetTime loc base plan endUnix = clip_end endUnix (midnight loc (local_day loc base + 1)).
Proof.
  unfold period_is, calcNextResetTime. cbv zeta. intros ->. str_decide. set (z := local_day loc base). intros Hm. unfold t_Date. fold z.
  destruct (civil_from_days z) as [[y m] d] eqn:E. pose proof (time_Date_day loc z y m d 0 E) as Hz. rewrite !Z.add_0_r in Hz. rewrite Hz.
  unfold t_AddDate, t_Date. rewrite (midnight_day _ _ _ Hm), E, Hm, Z.mul_comm, Z.mod_mul, !Z.add_0_r by lia.
  by rewrite (time_Date_day loc z y m d 1 E).
Qed.

(** C12. The loop that catches up can run for ever, inside its transaction.
    With a custom period of 2^55 seconds, which the plan editor accepts, whose
    [time.Duration] wraps around to zero, it never ends, whatever the number of
    rounds, as soon as a reset is due; nor does it with a daily plan in a
    location west of Greenwich that sets its clocks forward at midnight, as
    Santiago, Asuncion and Havana did: there [time.Date] answers an instant of the
    evening before, which is due then, and leads to itself.  For every outcome
    there is, in every location, the rounds allowed by [reset_fuel] reach it. *)
Theorem reset_loop_divergence loc plan endTime now base :
  (forall fuel x adv, let next := calcNextResetTime loc base plan endTime in
     reset_loop fuel loc plan endTime now adv base next = Some x ->
     reset_loop (reset_fuel now) loc plan endTime now adv base next = Some x) /\
  (NormalizeResetPeriod (pl_quota_reset_period plan) = SubscriptionResetCustom ->
   pl_quota_reset_custom_seconds plan = 2 ^ 55 -> 0 < base <= now -> endTime <= 0 \/ base <= endTime ->
   forall fuel, reset_loop fuel loc plan endTime now false base (calcNextResetTime loc base plan endTime) = None) /\
  (NormalizeResetPeriod (pl_quota_reset_period plan) = SubscriptionResetDaily ->
   let z := local_day loc base in let evening := unix_of loc (86400 * (z + 1)) in
   reading loc (unix_of loc (86400 * z)) = 86400 * z -> local_day loc evening = z ->
   0 < evening <= now -> endTime <= 0 \/ evening <= endTime ->
   forall fuel, reset_loop fuel loc plan endTime now false base (calcNextResetTime loc base plan endTime) = None).
Proof.
  split_and!.
  - intros fuel x adv. cbv zeta. apply reset_fuel_enough.
  - intros Hp Hs Hb He fuel.
    assert (resets plan = true) as Hr by (unfold resets; cbv zeta; rewrite Hp, Hs; reflexivity).
    assert (is_custom plan = true) as Hc by (unfold is_custom; by rewrite Hp).
    assert (custom_step plan = 0) as Hz by (unfold custom_step; by rewrite Hs).
    assert (calcNextResetTime loc base plan endTime = base) as E.
    { rewrite calcNext_raw, Hr, raw_next_custom, Hz, Z.add_0_r by congruence. unfold clip_end.
      destruct (Z.ltb_spec 0 endTime), (Z.ltb_spec endTime base); cbn; lia. }
    rewrite E. apply reset_loop_stuck; [by apply due_spec | exact E].
  - intros Hp z evening Hm Hz Hb He fuel.
    assert (clip_end endTime evening = evening) as Eclip.
    { unfold clip_end. destruct (Z.ltb_spec 0 endTime), (Z.ltb_spec endTime evening); cbn; lia. }
    rewrite (calcNext_daily loc base plan endTime Hp Hm). fold z. change (midnight loc (z + 1)) with evening. rewrite Eclip.
    apply reset_loop_stuck; [by apply due_spec|]. rewrite (calcNext_daily loc evening plan endTime Hp), Hz; [exact Eclip | by rewrite Hz].
Qed.

Definition wrapped_plan : SubscriptionPlan :=
  Demo.plan <| pl_quota_reset_period := "custom"%string |> <| pl_quota_reset_custom_seconds := 2 ^ 55 |>.
Definition daily_plan : SubscriptionPlan := Demo.plan <| pl_quota_reset_period := "daily"%string |>.

(** The second: last reset at midnight of 7 September 2024 in Santiago; it is
    23:00, and clocks are about to skip the next midnight. *)
Lemma reset_loop_divergence_witness :
  reset_loop 1000 (fixed_zone 0) wrapped_plan 0 Demo.now false Demo.now (calcNextResetTime (fixed_zone 0) Demo.now wrapped_plan 0) = None /\
  t_Date santiago 1725681600 = (2024, 9, 7) /\ reading santiago 1725764400 mod 86400 = 23 * 3600 /\
  reset_loop 1000 santiago daily_plan 0 1725764400 false 1725681600 (calcNextResetTime santiago 1725681600 daily_plan 0) = None.
Proof.
  split; [|split; [by vm_compute|split; [by vm_compute|]]].
  - exact (proj1 (proj2 (reset_loop_divergence (fixed_zone 0) wrapped_plan 0 Demo.now Demo.now)) eq_refl eq_refl
      ltac:(vm_compute; split; [reflexivity | discriminate]) ltac:(left; vm_compute; discriminate) 1000%positive).
  - exact (proj2 (proj2 (reset_loop_divergence santiago daily_plan 0 1725764400 1725681600)) eq_refl ltac:(by vm_compute) ltac:(by vm_compute)
      ltac:(vm_compute; split; [reflexivity | discriminate]) ltac:(left; vm_compute; discriminate) 1000%positive).
Defined.
