(* ===== verification/Reservation.v ===== *)
(** * Reservation: [src/model/billing_reservation.go]

    The request-level reservation ledger: before a provider is called, the
    account balance (wallet or subscription) and the API key's remaining quota
    are debited in one transaction under the idempotency key [requestId]; the
    record then moves reserved -> provider_started -> settled | released. *)

From S2P Require Import Prelude Schema Store Logic Calendar Quota Subscription.
From stdpp Require Import base numbers option strings list sorting.
From Stdlib Require Import ZArith Lia.
Open Scope Z_scope.

Definition BillingReservationStateReserved := "reserved"%string.
Definition BillingReservationStateProviderStarted := "provider_started"%string.
Definition BillingReservationStateSettled := "settled"%string.
Definition BillingReservationStateReleased := "released"%string.

Definition BillingReservationSourceWallet := "wallet"%string.
Definition BillingReservationSourceSubscription := "subscription"%string.

Definition billingReservationStaleFloorSeconds : Z := 600.

Definition validateBillingReservationArgs (requestId : string) (userId amount : Z) : result unit :=
  if str_eqb requestId "" then inl ErrBillingReservationNotFound
  else if userId <=? 0 then inl (EText "invalid userId")
  else if amount <? 0 then inl (EText "amount must be >= 0")
  else inr tt.

(** At most three attempts, only for SQLite's transient table lock. *)
Fixpoint retry_locked {A} (attempts : nat) (sqlite : bool) (operation : M A) : M A :=
  match attempts with
  | O => operation
  | S attempts' =>
      r ← attempt operation;
      match r with
      | inr a => mret a
      | inl err =>
          if negb sqlite || negb (str_contains (err_text err) "database table is locked")
          then raise err
          else retry_locked attempts' sqlite operation
      end
  end.

Definition transactionWithBillingReservationRetry {A} (operation : M A) : M A :=
  sqlite ← ask env_sqlite;
  retry_locked 2 sqlite operation.

Definition claimBillingReservationTx (requestId : string) (userId tokenId : Z)
    (unlimitedToken : bool) (source : string) (amount : Z) : M bool :=
  now ← GetTimestamp;
  create_or_ignore Reservations
    (mkBillingReservationRecord 0 requestId userId tokenId unlimitedToken source 0 amount 0
       BillingReservationStateReserved now now).

Definition reserveUserQuotaTx (userId amount : Z) : M unit :=
  n ← update Users (user_where (fun u => (u_id u =? userId) && (amount <=? u_quota u)))
        (fun u => u <| u_quota ::= fun q => q - amount |>);
  guard_err (n =? 0) ErrInsufficientUserQuota.

(** The row an [Updates] of a token's quota columns leaves. *)
Definition token_debit (amount : Z) (t : Token) : Token :=
  t <| tk_remain_quota ::= fun q => q - amount |> <| tk_used_quota ::= fun q => q + amount |>.
Definition token_touch (now : Z) (t : Token) : Token := t <| tk_accessed_time := now |>.

Definition token_covers (tokenId amount : Z) (unlimitedToken : bool) : Token -> bool :=
  token_where (fun t => (tk_id t =? tokenId) && (unlimitedToken || (amount <=? tk_remain_quota t))).

Definition reserveTokenQuotaTx (tokenId amount : Z) (unlimitedToken : bool) : M unit :=
  if (tokenId <=? 0) || (amount =? 0) then mret tt else
  now ← GetTimestamp;
  n ← update Tokens (token_covers tokenId amount unlimitedToken)
        (fun t => token_touch now (token_debit amount t));
  guard_err (n =? 0) ErrInsufficientTokenQuota.

Definition adjustTokenQuotaDeltaTx (tokenId delta : Z) (unlimitedToken : bool) : M unit :=
  if (tokenId <=? 0) || (delta =? 0) then mret tt else
  if 0 <? delta then
    n ← update Tokens (token_covers tokenId delta unlimitedToken) (token_debit delta);
    guard_err (n =? 0) ErrInsufficientTokenQuota
  else
    update Tokens (token_where (fun t => tk_id t =? tokenId))
      (fun t => t <| tk_remain_quota ::= fun q => q + i64 (- delta) |>
                  <| tk_used_quota ::= fun q => q - i64 (- delta) |>) ;;
    mret tt.

Definition adjustUserQuotaDeltaTx (userId delta : Z) : M unit :=
  if delta =? 0 then mret tt else
  if 0 <? delta then
    n ← update Users (user_where (fun u => (u_id u =? userId) && (delta <=? u_quota u)))
          (fun u => u <| u_quota ::= fun q => q - delta |>);
    guard_err (n =? 0) ErrInsufficientUserQuota
  else
    update Users (user_where (fun u => u_id u =? userId))
      (fun u => u <| u_quota ::= fun q => q + i64 (- delta) |>) ;;
    mret tt.

Definition refundTokenQuotaTx (tokenId amount : Z) : M unit :=
  if (tokenId <=? 0) || (amount =? 0) then mret tt else
  update Tokens (token_where (fun t => tk_id t =? tokenId))
    (fun t => t <| tk_remain_quota ::= fun q => q + amount |>
                <| tk_used_quota ::= fun q => q - amount |>) ;;
  mret tt.

Definition syncBillingReservationCache (userId : Z) (tokenKey : string) (userDelta tokenDelta : Z) : M unit :=
  redis ← ask env_redis;
  when ((0 <? userId) && negb (userDelta =? 0) && redis) (emit (EffUserQuotaCache userId userDelta)) ;;
  when (negb (str_eqb tokenKey "") && negb (tokenDelta =? 0) && redis)
    (emit (EffTokenQuotaCache tokenKey tokenDelta)).

Definition tokenKeyForCacheSync (tokenId : Z) (tokenKey : string) : string :=
  if tokenId <=? 0 then ""%string else tokenKey.

Definition ReserveWalletBillingQuota (requestId : string) (userId tokenId : Z) (tokenKey : string)
    (amount : Z) (unlimitedToken : bool) : M bool :=
  lift (validateBillingReservationArgs requestId userId amount) ;;
  if amount =? 0 then mret false else
  reserved ← transaction (
    claimed ← claimBillingReservationTx requestId userId tokenId unlimitedToken
                BillingReservationSourceWallet amount;
    if negb claimed then mret false else
    reserveUserQuotaTx userId amount ;;
    reserveTokenQuotaTx tokenId amount unlimitedToken ;;
    mret true);
  when reserved (syncBillingReservationCache userId (tokenKeyForCacheSync tokenId tokenKey)
                   (i64 (- amount)) (i64 (- amount))) ;;
  mret reserved.

Definition ReserveSubscriptionBillingQuota (requestId : string) (userId tokenId : Z)
    (tokenKey : string) (amount : Z) (unlimitedToken : bool)
  : M (SubscriptionPreConsumeResult * bool) :=
  lift (validateBillingReservationArgs requestId userId amount) ;;
  if amount <=? 0 then raise (EText "amount must be > 0") else
  '(result, reserved) ← transaction (
    claimed ← claimBillingReservationTx requestId userId tokenId unlimitedToken
                BillingReservationSourceSubscription amount;
    result ← preConsumeUserSubscriptionTx requestId userId amount;
    if negb claimed then mret (result, false) else
    reserveTokenQuotaTx tokenId amount unlimitedToken ;;
    now ← GetTimestamp;
    update Reservations (fun r => str_eqb (br_request_id r) requestId)
      (fun r => r <| br_user_subscription_id := pr_UserSubscriptionId result |>
                  <| br_updated_at := now |>) ;;
    mret (result, true));
  when reserved (syncBillingReservationCache userId (tokenKeyForCacheSync tokenId tokenKey)
                   0 (i64 (- amount))) ;;
  mret (result, reserved).

Definition ReserveUserQuota (userId amount : Z) : M unit :=
  if (userId <=? 0) || (amount <=? 0) then mret tt else
  transaction (reserveUserQuotaTx userId amount) ;;
  redis ← ask env_redis;
  when redis (emit (EffUserQuotaCache userId (i64 (- amount)))).

Definition ReserveTokenQuota (tokenId : Z) (tokenKey : string) (amount : Z) (unlimitedToken : bool) : M unit :=
  if (tokenId <=? 0) || (amount <=? 0) then mret tt else
  transaction (reserveTokenQuotaTx tokenId amount unlimitedToken) ;;
  redis ← ask env_redis;
  when redis (emit (EffTokenQuotaCache tokenKey (i64 (- amount)))).

(** [Where("request_id = ?", requestId).First(&record)]. *)
Definition find_reservation (requestId : string) : M BillingReservationRecord :=
  r ← attempt (find_first Reservations (fun r => str_eqb (br_request_id r) requestId));
  match r with
  | inl ErrRecordNotFound => raise ErrBillingReservationNotFound
  | inl err => raise err
  | inr record => mret record
  end.

(** The key text of a token id; any failure yields [""]. *)
Definition token_key_of (tokenId : Z) : M string :=
  if tokenId <=? 0 then mret ""%string else
  token ← attempt (find_first Tokens (token_where (fun t => tk_id t =? tokenId)));
  mret (match token with inl _ => ""%string | inr t => tk_key t end).

Definition billingReservationTokenKey (requestId : string) : M string :=
  record ← attempt (find_first Reservations (fun r => str_eqb (br_request_id r) requestId));
  match record with
  | inl _ => mret ""%string
  | inr record =>
      token_key_of (br_token_id record)
  end.

Definition AppendBillingReservation (requestId : string) (delta : Z) : M unit :=
  if delta <=? 0 then mret tt else
  if str_eqb requestId "" then raise ErrBillingReservationNotFound else
  cacheUserId ← transaction (
    record ← find_reservation requestId;
    if negb (str_eqb (br_state record) BillingReservationStateReserved)
    then raise ErrBillingReservationStateConflict else
    cacheUserId ← (
      if str_eqb (br_source record) BillingReservationSourceWallet then
        reserveUserQuotaTx (br_user_id record) delta ;; mret (br_user_id record)
      else if str_eqb (br_source record) BillingReservationSourceSubscription then
        postConsumeUserSubscriptionDeltaTx (br_user_subscription_id record) delta ;; mret 0
      else mret 0);
    reserveTokenQuotaTx (br_token_id record) delta (br_unlimited_token record) ;;
    now ← GetTimestamp;
    save Reservations (record <| br_amount ::= fun a => i64 (a + delta) |>
                              <| br_top_up_amount ::= fun a => i64 (a + delta) |>
                              <| br_updated_at := now |>) ;;
    mret cacheUserId);
  when (0 <? cacheUserId) (syncBillingReservationCache cacheUserId "" (i64 (- delta)) 0) ;;
  key ← billingReservationTokenKey requestId;
  syncBillingReservationCache 0 key 0 (i64 (- delta)).

Definition set_state (state : string) (now : Z) (r : BillingReservationRecord) : BillingReservationRecord :=
  r <| br_state := state |> <| br_updated_at := now |>.

Definition MarkBillingReservationProviderStarted (requestId : string) : M unit :=
  if str_eqb requestId "" then raise ErrBillingReservationNotFound else
  now ← GetTimestamp;
  n ← update Reservations
        (fun r => str_eqb (br_request_id r) requestId &&
                  str_eqb (br_state r) BillingReservationStateReserved)
        (set_state BillingReservationStateProviderStarted now);
  if 0 <? n then mret tt else
  record ← find_reservation requestId;
  if str_eqb (br_state record) BillingReservationStateProviderStarted then mret tt
  else raise ErrBillingReservationStateConflict.

Record billingReservationCacheEffect := mkCacheEffect {
  ce_userID : Z; ce_userDelta : Z; ce_tokenDelta : Z
}.

Definition effect_apply (effect : billingReservationCacheEffect) (requestID : string) : M unit :=
  if (ce_userDelta effect =? 0) && (ce_tokenDelta effect =? 0) then mret tt else
  tokenKey ← (if negb (ce_tokenDelta effect =? 0) then billingReservationTokenKey requestID
              else mret ""%string);
  syncBillingReservationCache (ce_userID effect) tokenKey (ce_userDelta effect) (ce_tokenDelta effect).

Definition settleBillingReservationTx (requestId : string) (delta : Z) : M billingReservationCacheEffect :=
  record ← find_reservation requestId;
  if str_eqb (br_state record) BillingReservationStateSettled ||
     str_eqb (br_state record) BillingReservationStateReleased
  then mret (mkCacheEffect 0 0 0) else
  now ← GetTimestamp;
  n ← update Reservations
        (fun r => (br_id r =? br_id record) && str_eqb (br_state r) (br_state record))
        (set_state BillingReservationStateSettled now);
  if n =? 0 then mret (mkCacheEffect 0 0 0) else
  if delta =? 0 then mret (mkCacheEffect 0 0 0) else
  '(userID, userDelta) ← (
    if str_eqb (br_source record) BillingReservationSourceWallet then
      adjustUserQuotaDeltaTx (br_user_id record) delta ;; mret (br_user_id record, i64 (- delta))
    else if str_eqb (br_source record) BillingReservationSourceSubscription then
      postConsumeUserSubscriptionDeltaTx (br_user_subscription_id record) delta ;; mret (0, 0)
    else mret (0, 0));
  adjustTokenQuotaDeltaTx (br_token_id record) delta (br_unlimited_token record) ;;
  mret (mkCacheEffect userID userDelta (i64 (- delta))).

Definition SettleBillingReservation (requestId : string) (delta : Z) : M unit :=
  if str_eqb requestId "" then raise ErrBillingReservationNotFound else
  effect ← transactionWithBillingReservationRetry
    (transaction (settleBillingReservationTx requestId delta));
  effect_apply effect requestId.

Record ReleaseOutcome := mkRelease {
  ro_released : bool; ro_cacheUserId : Z; ro_cacheUserDelta : Z; ro_cacheTokenDelta : Z
}.

Definition releaseBillingReservationTx (requestId : string) (reservedOnly : bool) : M ReleaseOutcome :=
  record ← find_reservation requestId;
  if negb (str_eqb (br_state record) BillingReservationStateReserved) &&
     (reservedOnly || negb (str_eqb (br_state record) BillingReservationStateProviderStarted))
  then mret (mkRelease false 0 0 0) else
  now ← GetTimestamp;
  n ← update Reservations
        (fun r => (br_id r =? br_id record) && str_eqb (br_state r) (br_state record))
        (set_state BillingReservationStateReleased now);
  if n =? 0 then mret (mkRelease false 0 0 0) else
  '(cacheUserId, cacheUserDelta) ← (
    if str_eqb (br_source record) BillingReservationSourceWallet then
      update Users (user_where (fun u => u_id u =? br_user_id record))
        (fun u => u <| u_quota ::= fun q => q + br_amount record |>) ;;
      mret (br_user_id record, br_amount record)
    else if str_eqb (br_source record) BillingReservationSourceSubscription then
      refundSubscriptionPreConsumeTx requestId ;;
      when (0 <? br_top_up_amount record)
        (postConsumeUserSubscriptionDeltaTx (br_user_subscription_id record)
           (i64 (- br_top_up_amount record))) ;;
      mret (0, 0)
    else mret (0, 0));
  refundTokenQuotaTx (br_token_id record) (br_amount record) ;;
  mret (mkRelease true cacheUserId cacheUserDelta (br_amount record)).

Definition releaseBillingReservation (requestId tokenKey : string) (reservedOnly : bool) : M bool :=
  if str_eqb requestId "" then raise ErrBillingReservationNotFound else
  o ← transactionWithBillingReservationRetry
    (transaction (releaseBillingReservationTx requestId reservedOnly));
  when (ro_released o && (negb (ro_cacheUserDelta o =? 0) || negb (ro_cacheTokenDelta o =? 0)))
    (key ← (if str_eqb tokenKey "" then billingReservationTokenKey requestId else mret tokenKey);
     syncBillingReservationCache (ro_cacheUserId o) key (ro_cacheUserDelta o) (ro_cacheTokenDelta o)) ;;
  mret (ro_released o).

Definition ReleaseBillingReservation (requestId tokenKey : string) : M bool :=
  releaseBillingReservation requestId tokenKey false.
Definition ReleaseUnsentBillingReservation (requestId tokenKey : string) : M bool :=
  releaseBillingReservation requestId tokenKey true.

Definition updated_order (a b : BillingReservationRecord) : Prop := br_updated_at a <= br_updated_at b.
#[export] Instance updated_order_dec : RelDecision updated_order.
Proof. intros a b. unfold updated_order. apply _. Defined.

(** The loop over the stale snapshot. *)
Fixpoint release_each (records : list BillingReservationRecord) (released : Z) : M Z :=
  match records with
  | [] => mret released
  | record :: rest =>
      tokenKey ← token_key_of (br_token_id record);
      didRelease ← ReleaseUnsentBillingReservation (br_request_id record) tokenKey;
      release_each rest (released + Z.b2z didRelease)
  end.

(** The records a run of the recovery task may consider. *)
Definition stale_reserved (cutoff : Z) (r : BillingReservationRecord) : bool :=
  str_eqb (br_state r) BillingReservationStateReserved && (br_updated_at r <? cutoff).

Definition ReleaseStaleBillingReservations (olderThanSeconds limit : Z) : M Z :=
  let olderThanSeconds := if olderThanSeconds <? billingReservationStaleFloorSeconds
                          then billingReservationStaleFloorSeconds else olderThanSeconds in
  let limit := if limit <=? 0 then 100 else limit in
  now ← GetTimestamp;
  let cutoff := i64 (now - olderThanSeconds) in
  records ← find_all Reservations (stale_reserved cutoff);
  release_each (take (Z.to_nat limit) (merge_sort updated_order records)) 0.

Definition CleanupBillingReservationRecords (olderThanSeconds : Z) : M Z :=
  let olderThanSeconds := if olderThanSeconds <=? 0 then 7 * 24 * 3600 else olderThanSeconds in
  now ← GetTimestamp;
  delete_where Reservations (fun r =>
    (str_eqb (br_state r) BillingReservationStateSettled ||
     str_eqb (br_state r) BillingReservationStateReleased) &&
    (br_updated_at r <? i64 (now - olderThanSeconds))).
