(* ===== verification/WildFlowOperations.v ===== *)
(** * WildFlowOperations: [src/model/wildflow_operation.go]

    The durable record of an asynchronous operation: creation with its gorm
    hook, lookups, execution updates, and the first validated result, which is
    stored once and never replaced. *)

From S2P Require Import Prelude Schema Store Logic.
From stdpp Require Import base numbers option strings list sorting.
From Stdlib Require Import ZArith Lia.
Open Scope Z_scope.

Definition WildFlowBillingStatePending := "pending"%string.
Definition WildFlowBillingStateReserved := "reserved"%string.
Definition WildFlowBillingStateRefunding := "refunding"%string.
Definition WildFlowBillingStateSettled := "settled"%string.
Definition WildFlowBillingStateRefunded := "refunded"%string.

(** [model/wildflow_submission.go] *)
Definition WildFlowSubmissionPhasePrepared := "prepared"%string.

(** [errors.Is(err, gorm.ErrRecordNotFound)] makes the lookup answer [nil]. *)
Definition optional {A} (m : M A) : M (option A) :=
  r ← attempt m;
  match r with
  | inr a => mret (Some a)
  | inl ErrRecordNotFound => mret None
  | inl err => raise err
  end.

Definition has_operation (operationID : string) (r : WildFlowOperation) : bool :=
  str_eqb (op_operation_id r) operationID.

(** [WildFlowOperation.BeforeCreate]: one default per column, then the stamp. *)
Definition default_created_time (now : Z) (operation : WildFlowOperation) : WildFlowOperation :=
  if op_created_time operation =? 0 then operation <| op_created_time := now |> else operation.
Definition default_billing_state (operation : WildFlowOperation) : WildFlowOperation :=
  if str_eqb (op_billing_state operation) ""
  then operation <| op_billing_state := WildFlowBillingStatePending |> else operation.
Definition default_submission_phase (operation : WildFlowOperation) : WildFlowOperation :=
  if str_eqb (op_submission_phase operation) ""
  then operation <| op_submission_phase := WildFlowSubmissionPhasePrepared |> else operation.
Definition operation_BeforeCreate (now : Z) (operation : WildFlowOperation) : WildFlowOperation :=
  (default_submission_phase (default_billing_state (default_created_time now operation)))
    <| op_updated_time := now |>.

Definition GetWildFlowOperationByUserAndKey (userID : Z) (keyDigest : string) : M (option WildFlowOperation) :=
  optional (find_first Operations (fun r =>
    (op_user_id r =? userID) && str_eqb (op_idempotency_key_digest r) keyDigest)).

Definition GetWildFlowOperationForUser (userID : Z) (operationID : string) : M (option WildFlowOperation) :=
  optional (find_first Operations (fun r => (op_user_id r =? userID) && has_operation operationID r)).

Definition GetWildFlowOperationForUserAndJob (userID : Z) (jobID : string) : M (option WildFlowOperation) :=
  optional (find_first Operations (fun r => (op_user_id r =? userID) && str_eqb (op_job_id r) jobID)).

Definition CreateWildFlowOperation (operation : WildFlowOperation) : M unit :=
  now ← GetTimestamp;
  create Operations (operation_BeforeCreate now operation) ;;
  mret tt.

Definition executed (jobID state errorCode : string) (now : Z) (r : WildFlowOperation) : WildFlowOperation :=
  r <| op_job_id := jobID |> <| op_state := state |>
    <| op_last_error_code := errorCode |> <| op_updated_time := now |>.

Definition UpdateWildFlowOperationExecution (operationID jobID state errorCode : string) : M unit :=
  now ← GetTimestamp;
  update Operations (has_operation operationID) (executed jobID state errorCode now) ;;
  mret tt.

(** The columns a stored result still lacks, by the row that was read. *)
Definition fill_retention (now expiresAt : Z) (operation r : WildFlowOperation) : WildFlowOperation :=
  if op_result_retention_seconds operation =? 0
  then r <| op_result_retention_seconds := i64 (expiresAt - now) |> else r.
Definition fill_expiry (expiresAt : Z) (operation r : WildFlowOperation) : WildFlowOperation :=
  if op_result_expires_at operation =? 0 then r <| op_result_expires_at := expiresAt |> else r.
Definition fill_validated (now : Z) (operation r : WildFlowOperation) : WildFlowOperation :=
  if op_result_validated_time operation =? 0 then r <| op_result_validated_time := now |> else r.
Definition complete_result (now expiresAt : Z) (operation r : WildFlowOperation) : WildFlowOperation :=
  fill_validated now operation (fill_expiry expiresAt operation (fill_retention now expiresAt operation r)).

Definition result_complete (operation : WildFlowOperation) : bool :=
  negb (op_result_retention_seconds operation =? 0) && negb (op_result_expires_at operation =? 0) &&
  negb (op_result_validated_time operation =? 0).

Definition stored_result (now expiresAt : Z) (resultJSON : string) (r : WildFlowOperation) : WildFlowOperation :=
  r <| op_result_json := resultJSON |> <| op_result_validated_time := now |>
    <| op_result_expires_at := expiresAt |> <| op_updated_time := now |>.
Definition first_result (now expiresAt : Z) (resultJSON : string) (operation r : WildFlowOperation)
  : WildFlowOperation :=
  fill_retention now expiresAt operation (stored_result now expiresAt resultJSON r).

Definition StoreWildFlowOperationResult (operationID resultJSON : string) (expiresAt : Z) : M WildFlowOperation :=
  now ← GetTimestamp;
  if str_eqb operationID "" || str_eqb resultJSON "" || (expiresAt <=? now)
  then raise (EText "invalid WildFlow operation result") else
  transaction (
    operation ← find_first Operations (has_operation operationID);
    if negb (str_eqb (op_state operation) "succeeded")
    then raise (EText "WildFlow operation result is not successful") else
    if negb (str_eqb (op_result_json operation) "") then
      if result_complete operation then mret operation else
      update Operations (fun r => op_id r =? op_id operation) (complete_result now expiresAt operation) ;;
      find_first Operations (fun r => op_id r =? op_id operation)
    else
      update Operations (fun r => (op_id r =? op_id operation) && str_eqb (op_result_json r) "")
        (first_result now expiresAt resultJSON operation) ;;
      find_first Operations (fun r => op_id r =? op_id operation)).

Definition op_updated_order (a b : WildFlowOperation) : Prop :=
  op_updated_time a < op_updated_time b \/
  (op_updated_time a = op_updated_time b /\ op_id a <= op_id b).
#[export] Instance op_updated_order_dec : RelDecision op_updated_order.
Proof. intros a b. unfold op_updated_order. apply _. Defined.

Definition reconcile_limit (limit : Z) : Z := if (limit <=? 0) || (500 <? limit) then 100 else limit.

Definition awaits_billing (r : WildFlowOperation) : bool :=
  negb (str_eqb (op_job_id r) "") &&
  (str_eqb (op_billing_state r) WildFlowBillingStateReserved ||
   str_eqb (op_billing_state r) WildFlowBillingStateRefunding ||
   (str_eqb (op_billing_state r) WildFlowBillingStatePending &&
    str_eqb (op_product_model_ref r) "IndexTTS-2.5" &&
    List.existsb (str_eqb (op_state r)) ["queued"; "running"; "cancel_requested"; "recovery_required"; "succeeded"] &&
    str_eqb (op_result_json r) "")).

Definition ListWildFlowOperationsForBillingReconciliation (limit : Z) : M (list WildFlowOperation) :=
  operations ← find_all Operations awaits_billing;
  mret (take (Z.to_nat (reconcile_limit limit)) (merge_sort op_updated_order operations)).
