(* ===== verification/WildFlowBilling.v ===== *)
(** * WildFlowBilling: [src/model/wildflow_billing.go] and [src/model/wildflow_usage_event.go]

    Billing of asynchronous WildFlow operations: quota is reserved from the
    wallet or a subscription when the operation is submitted, settled down to
    the usage an evidence event reports, or refunded when it failed; every
    settlement and refund writes one canonical audit entry, which a lease-based
    projection copies to the generic log at most once. *)

From S2P Require Import Prelude Schema Store Logic Calendar Quota Subscription Reservation WildFlowOperations.
From stdpp Require Import base numbers option strings list sorting.
From Stdlib Require Import ZArith Lia.
Open Scope Z_scope.

Definition WildFlowBillingSourceWallet := "wallet"%string.
Definition WildFlowBillingSourceSubscription := "subscription"%string.
Definition WildFlowBillingSourceTeamTrial := "team_trial"%string.

(** [model/task_operation.go] *)
Definition TaskOperationBillingState := "managed_by_task"%string.

(** [model/log.go] *)
Definition LogTypeConsume : Z := 2.
Definition LogTypeRefund : Z := 6.

(** [model/wildflow_billing_log.go] *)
Definition WildFlowBillingProjectionPending := "pending"%string.
Definition WildFlowBillingProjectionProjecting := "projecting"%string.
Definition WildFlowBillingProjectionFailed := "failed"%string.
Definition WildFlowBillingProjectionProjected := "projected"%string.
Definition WildFlowBillingProjectionNotRequired := "not_required"%string.
Definition WildFlowBillingProjectionUnsupported := "unsupported"%string.

(** ** Quotes and snapshots *)

Record WildFlowBillingQuote := mkQuote {
  qt_Currency : string;
  qt_AmountMicros : Z;
  qt_Unit : string;
  qt_BillableUnits : Z;
  qt_Quota : Z;
  qt_QuotaPerUnit : string;
  qt_USDExchangeRate : string;
  qt_PriceVersion : string
}.

Definition quote_Validate (quote : WildFlowBillingQuote) : result unit :=
  if negb (str_eqb (qt_Currency quote) "CNY") || (qt_AmountMicros quote <=? 0) ||
     str_eqb (qt_Unit quote) "" || (qt_BillableUnits quote <=? 0) || (qt_Quota quote <=? 0)
  then inl (EText "invalid WildFlow billing quote")
  else if str_eqb (qt_QuotaPerUnit quote) "" || str_eqb (qt_USDExchangeRate quote) "" ||
          str_eqb (qt_PriceVersion quote) ""
  then inl (EText "incomplete WildFlow billing quote")
  else inr tt.

Definition billingQuoteMatchesOperation (operation : WildFlowOperation) (quote : WildFlowBillingQuote) : bool :=
  str_eqb (op_billing_currency operation) (qt_Currency quote) &&
  (op_billing_amount_micros operation =? qt_AmountMicros quote) &&
  str_eqb (op_billing_unit operation) (qt_Unit quote) &&
  (op_billing_billable_units operation =? qt_BillableUnits quote) &&
  (op_billing_quota operation =? qt_Quota quote) &&
  str_eqb (op_billing_quota_per_unit operation) (qt_QuotaPerUnit quote) &&
  str_eqb (op_billing_usd_exchange_rate operation) (qt_USDExchangeRate quote) &&
  str_eqb (op_billing_price_version operation) (qt_PriceVersion quote).

Definition loadWildFlowOperationForBilling (operationID : string) : M WildFlowOperation :=
  find_first Operations (has_operation operationID).

Definition wildFlowBillingSnapshotUpdates (quote : WildFlowBillingQuote) (source : string)
    (subscriptionID tokenQuota now : Z) (r : WildFlowOperation) : WildFlowOperation :=
  r <| op_billing_state := WildFlowBillingStateReserved |>
    <| op_billing_source := source |>
    <| op_billing_subscription_id := subscriptionID |>
    <| op_billing_quota := qt_Quota quote |>
    <| op_billing_token_quota := tokenQuota |>
    <| op_billing_currency := qt_Currency quote |>
    <| op_billing_amount_micros := qt_AmountMicros quote |>
    <| op_billing_unit := qt_Unit quote |>
    <| op_billing_billable_units := qt_BillableUnits quote |>
    <| op_billing_quota_per_unit := qt_QuotaPerUnit quote |>
    <| op_billing_usd_exchange_rate := qt_USDExchangeRate quote |>
    <| op_billing_price_version := qt_PriceVersion quote |>
    <| op_updated_time := now |>.

(** [true]: reserve; [false]: already reserved or settled with this quote. *)
Definition ensureWildFlowBillingCanReserve (operation : WildFlowOperation) (quote : WildFlowBillingQuote)
  : result bool :=
  let state := op_billing_state operation in
  if str_eqb state WildFlowBillingStateReserved || str_eqb state WildFlowBillingStateSettled then
    if negb (billingQuoteMatchesOperation operation quote) then inl ErrWildFlowBillingStateConflict
    else inr false
  else if str_eqb state "" || str_eqb state WildFlowBillingStatePending then inr true
  else inl ErrWildFlowBillingStateConflict.

Definition syncWildFlowBillingQuotaCache (userID : Z) (tokenKey : string) (userDelta tokenDelta : Z) : M unit :=
  redis ← ask env_redis;
  when ((0 <? userID) && negb (userDelta =? 0) && redis) (emit (EffUserQuotaCache userID userDelta)) ;;
  when (negb (str_eqb tokenKey "") && negb (tokenDelta =? 0) && redis)
    (emit (EffTokenQuotaCache tokenKey tokenDelta)).

(** ** Reserve *)

(** The key's share of a reservation: its text and what was debited from it. *)
Definition reserve_operation_token (operation : WildFlowOperation) (quote : WildFlowBillingQuote)
  : M (string * Z) :=
  if negb (0 <? op_token_id operation) then mret (""%string, 0) else
  token ← find_first Tokens (token_where (fun t =>
            (tk_id t =? op_token_id operation) && (tk_user_id t =? op_user_id operation)));
  if tk_unlimited_quota token then mret (tk_key token, 0) else
  if tk_remain_quota token <? qt_Quota quote then raise ErrWildFlowInsufficientTokenQuota else
  now ← GetTimestamp;
  update Tokens (token_where (fun t => tk_id t =? tk_id token))
    (fun t => token_touch now (token_debit (qt_Quota quote) t)) ;;
  mret (tk_key token, qt_Quota quote).

(** Persist the snapshot and reload the operation. *)
Definition store_snapshot (operation : WildFlowOperation) (quote : WildFlowBillingQuote) (source : string)
    (subscriptionID tokenQuota : Z) : M WildFlowOperation :=
  now ← GetTimestamp;
  update Operations (fun r => op_id r =? op_id operation)
    (wildFlowBillingSnapshotUpdates quote source subscriptionID tokenQuota now) ;;
  find_first Operations (fun r => op_id r =? op_id operation).

Record WildFlowReservation := mkWildFlowReservation {
  wr_result : WildFlowOperation; wr_tokenKey : string; wr_tokenQuota : Z; wr_changed : bool
}.

Definition reserveWildFlowWalletBillingTx (operationID : string) (quote : WildFlowBillingQuote)
  : M WildFlowReservation :=
  operation ← loadWildFlowOperationForBilling operationID;
  shouldReserve ← lift (ensureWildFlowBillingCanReserve operation quote);
  if negb shouldReserve then mret (mkWildFlowReservation operation "" 0 false) else
  user ← find_first Users (user_where (fun u => u_id u =? op_user_id operation));
  if u_quota user <? qt_Quota quote then raise ErrWildFlowInsufficientUserQuota else
  '(tokenKey, tokenQuota) ← reserve_operation_token operation quote;
  update Users (user_where (fun u => u_id u =? op_user_id operation))
    (fun u => u <| u_quota ::= fun q => q - qt_Quota quote |>) ;;
  operation ← store_snapshot operation quote WildFlowBillingSourceWallet 0 tokenQuota;
  mret (mkWildFlowReservation operation tokenKey tokenQuota true).

Definition ReserveWildFlowWalletBilling (operationID : string) (quote : WildFlowBillingQuote)
  : M WildFlowOperation :=
  lift (quote_Validate quote) ;;
  r ← transaction (reserveWildFlowWalletBillingTx operationID quote);
  when (wr_changed r)
    (syncWildFlowBillingQuotaCache (op_user_id (wr_result r)) (wr_tokenKey r)
       (i64 (- qt_Quota quote)) (i64 (- wr_tokenQuota r))) ;;
  mret (wr_result r).

Definition reserveWildFlowSubscriptionBillingTx (operationID : string) (quote : WildFlowBillingQuote)
  : M WildFlowReservation :=
  operation ← loadWildFlowOperationForBilling operationID;
  shouldReserve ← lift (ensureWildFlowBillingCanReserve operation quote);
  if negb shouldReserve then mret (mkWildFlowReservation operation "" 0 false) else
  preConsume ← preConsumeUserSubscriptionTx (op_operation_id operation) (op_user_id operation)
                 (qt_Quota quote);
  '(tokenKey, tokenQuota) ← reserve_operation_token operation quote;
  operation ← store_snapshot operation quote WildFlowBillingSourceSubscription
                (pr_UserSubscriptionId preConsume) tokenQuota;
  mret (mkWildFlowReservation operation tokenKey tokenQuota true).

Definition ReserveWildFlowSubscriptionBilling (operationID : string) (quote : WildFlowBillingQuote)
  : M WildFlowOperation :=
  lift (quote_Validate quote) ;;
  r ← transaction (reserveWildFlowSubscriptionBillingTx operationID quote);
  when (wr_changed r)
    (syncWildFlowBillingQuotaCache 0 (wr_tokenKey r) 0 (i64 (- wr_tokenQuota r))) ;;
  mret (wr_result r).

(** ** The canonical audit entry *)

Definition has_entry (operationID : string) (logType : Z) (r : WildFlowBillingLogEntry) : bool :=
  str_eqb (le_operation_id r) operationID && (le_log_type r =? logType).

(** [WildFlowBillingLogEntry.BeforeCreate] *)
Definition entry_BeforeCreate (now : Z) (entry : WildFlowBillingLogEntry) : WildFlowBillingLogEntry :=
  let entry := if le_created_time entry =? 0 then entry <| le_created_time := now |> else entry in
  if str_eqb (le_projection_state entry) ""
  then entry <| le_projection_state := WildFlowBillingProjectionPending |> else entry.

(** The fields in which an existing entry has to agree with the operation. *)
Definition entry_agrees (entry : WildFlowBillingLogEntry) (operation : WildFlowOperation) (content : string) : bool :=
  str_eqb (le_usage_event_id entry) (op_billing_usage_event_id operation) &&
  str_eqb (le_billing_source entry) (op_billing_source operation) &&
  (le_billing_quota entry =? op_billing_quota operation) &&
  str_eqb (le_billing_currency entry) (op_billing_currency operation) &&
  (le_billing_amount_micros entry =? op_billing_amount_micros operation) &&
  str_eqb (le_content entry) content.

Definition ensureWildFlowCanonicalBillingLogTx (operation : WildFlowOperation) (logType : Z)
    (content : string) : M WildFlowBillingLogEntry :=
  if str_eqb (trim_space (op_operation_id operation)) "" ||
     (negb (logType =? LogTypeConsume) && negb (logType =? LogTypeRefund))
  then raise (EText "invalid WildFlow canonical billing audit") else
  logConsumeEnabled ← ask env_log_consume;
  now ← GetTimestamp;
  let projectionState :=
    if (logType =? LogTypeConsume) && negb logConsumeEnabled
    then WildFlowBillingProjectionNotRequired else WildFlowBillingProjectionPending in
  create_or_ignore LogEntries (entry_BeforeCreate now
    (mkWildFlowBillingLogEntry (op_operation_id operation) logType (op_billing_usage_event_id operation)
       (op_billing_source operation) (op_billing_quota operation) (op_billing_currency operation)
       (op_billing_amount_micros operation) content projectionState 0 "" "" 0 0 0)) ;;
  entry ← find_first LogEntries (has_entry (op_operation_id operation) logType);
  if negb (entry_agrees entry operation content) then raise ErrWildFlowBillingStateConflict else
  if str_eqb (le_projection_state entry) "" then
    update LogEntries (fun r => has_entry (op_operation_id operation) logType r &&
                                str_eqb (le_projection_state r) "")
      (fun r => r <| le_projection_state := projectionState |>) ;;
    mret (entry <| le_projection_state := projectionState |>)
  else mret entry.

(** ** Settlement *)

Definition wildFlowUsageEventMatchesOperation (operation : WildFlowOperation) (event : WildFlowUsageEvent) : bool :=
  if negb (str_eqb (op_billing_usage_event_id operation) "") &&
     negb (str_eqb (op_billing_usage_event_id operation) (ue_event_id event)) then false else
  if str_eqb (op_billing_state operation) "" ||
     str_eqb (op_billing_state operation) WildFlowBillingStatePending then true else
  let unit := op_billing_unit operation in
  if str_eqb unit "10k_characters" then
    (ue_quantity event =? op_billing_billable_units operation) &&
    str_eqb (ue_kind event) "characters" && str_eqb (ue_unit event) "character"
  else if str_eqb unit "image" then
    (ue_quantity event =? op_billing_billable_units operation) &&
    str_eqb (ue_kind event) "images" && str_eqb (ue_unit event) "image"
  else if str_eqb unit "audio_millisecond" then
    str_eqb (ue_kind event) "audio_duration" && str_eqb (ue_unit event) "millisecond" &&
    (0 <? ue_quantity event) && (ue_quantity event <=? op_billing_billable_units operation)
  else false.

Definition ceilProportionalInt64 (total actual maximum : Z) : Z :=
  if total =? 0 then 0 else
  Z.quot (i64 (i64 (i64 (total * actual) + maximum) - 1)) maximum.

Record WildFlowUsage := mkWildFlowUsage {
  wu_amountMicros : Z; wu_quota : Z; wu_tokenQuota : Z; wu_billableUnits : Z
}.

Definition wildFlowActualUsageBilling (operation : WildFlowOperation) (usageEvent : WildFlowUsageEvent)
  : result WildFlowUsage :=
  if negb (str_eqb (op_billing_unit operation) "audio_millisecond") then
    inr (mkWildFlowUsage (op_billing_amount_micros operation) (op_billing_quota operation)
           (op_billing_token_quota operation) (op_billing_billable_units operation))
  else
  let maximum := op_billing_billable_units operation in
  let actual := ue_quantity usageEvent in
  if (maximum <=? 0) || (actual <=? 0) || (maximum <? actual) then inl ErrWildFlowBillingStateConflict else
  let amountMicros := ceilProportionalInt64 (op_billing_amount_micros operation) actual maximum in
  let quota := ceilProportionalInt64 (op_billing_quota operation) actual maximum in
  let tokenQuota := ceilProportionalInt64 (op_billing_token_quota operation) actual maximum in
  if (amountMicros <=? 0) || (quota <=? 0) || (max_int64 <? quota) ||
     (tokenQuota <? 0) || (max_int64 <? tokenQuota)
  then inl ErrWildFlowBillingStateConflict
  else inr (mkWildFlowUsage amountMicros quota tokenQuota actual).

(** [ORDER BY created_time, event_id]. *)
Definition event_before (a b : WildFlowUsageEvent) : bool :=
  (ue_created_time a <? ue_created_time b) ||
  ((ue_created_time a =? ue_created_time b) && String.ltb (ue_event_id a) (ue_event_id b)).

(** What the settlement gives back of the reservation. *)
Definition return_user_quota (operation : WildFlowOperation) (userQuotaRefund actualQuota : Z) : M unit :=
  if str_eqb (op_billing_source operation) WildFlowBillingSourceWallet then
    update Users (user_where (fun u => u_id u =? op_user_id operation))
      (fun u => u <| u_quota ::= fun q => q + userQuotaRefund |>) ;; mret tt
  else if str_eqb (op_billing_source operation) WildFlowBillingSourceSubscription then
    postConsumeUserSubscriptionDeltaTx (op_billing_subscription_id operation) (i64 (- userQuotaRefund)) ;;
    now ← GetTimestamp;
    n ← attempt (update PreConsumes (fun r =>
            str_eqb (pc_request_id r) (op_operation_id operation) && str_eqb (pc_status r) "consumed" &&
            (pc_pre_consumed r =? op_billing_quota operation))
          (fun r => r <| pc_pre_consumed := actualQuota |> <| pc_updated_at := now |>));
    match n with
    | inr 1 => mret tt
    | _ => raise ErrWildFlowBillingStateConflict
    end
  else raise ErrWildFlowBillingStateConflict.

Definition return_token_quota (operation : WildFlowOperation) (tokenQuotaRefund : Z) : M string :=
  if negb ((0 <? tokenQuotaRefund) && (0 <? op_token_id operation)) then mret ""%string else
  token ← find_first Tokens (token_where (fun t =>
            (tk_id t =? op_token_id operation) && (tk_user_id t =? op_user_id operation)));
  update Tokens (token_where (fun t => tk_id t =? tk_id token))
    (fun t => t <| tk_remain_quota ::= fun q => q + tokenQuotaRefund |>
                <| tk_used_quota ::= fun q => q - tokenQuotaRefund |>) ;;
  mret (tk_key token).

Definition settled_snapshot (usage : WildFlowUsage) (eventID : string) (now : Z)
    (r : WildFlowOperation) : WildFlowOperation :=
  r <| op_billing_state := WildFlowBillingStateSettled |>
    <| op_billing_usage_event_id := eventID |>
    <| op_billing_quota := wu_quota usage |>
    <| op_billing_token_quota := wu_tokenQuota usage |>
    <| op_billing_amount_micros := wu_amountMicros usage |>
    <| op_billing_billable_units := wu_billableUnits usage |>
    <| op_billing_settled_time := now |>
    <| op_updated_time := now |>.

Record WildFlowSettlement := mkWildFlowSettlement {
  ws_result : WildFlowOperation; ws_changed : bool;
  ws_tokenKey : string; ws_userRefund : Z; ws_tokenRefund : Z
}.

(** The rest of the settlement once the usage is known. *)
Definition settle_usage (operation : WildFlowOperation) (eventID : string) (usage : WildFlowUsage)
  : M WildFlowSettlement :=
  let userQuotaRefund := i64 (op_billing_quota operation - wu_quota usage) in
  let tokenQuotaRefund := i64 (op_billing_token_quota operation - wu_tokenQuota usage) in
  if (userQuotaRefund <? 0) || (tokenQuotaRefund <? 0) then raise ErrWildFlowBillingStateConflict else
  when (0 <? userQuotaRefund) (return_user_quota operation userQuotaRefund (wu_quota usage)) ;;
  tokenKey ← return_token_quota operation tokenQuotaRefund;
  now ← GetTimestamp;
  n ← update Operations (fun r =>
        (op_id r =? op_id operation) && str_eqb (op_billing_state r) WildFlowBillingStateReserved &&
        str_eqb (op_state r) "succeeded" && negb (str_eqb (op_result_json r) "") &&
        (0 <? op_result_validated_time r))
      (settled_snapshot usage eventID now);
  if n =? 0 then
    operation ← find_first Operations (fun r => op_id r =? op_id operation);
    mret (mkWildFlowSettlement operation false tokenKey userQuotaRefund tokenQuotaRefund)
  else
  update Users (user_where (fun u => u_id u =? op_user_id operation))
    (fun u => u <| u_used_quota ::= fun q => q + wu_quota usage |>
                <| u_request_count ::= fun q => q + 1 |>) ;;
  let operation := settled_snapshot usage eventID now operation in
  ensureWildFlowCanonicalBillingLogTx operation LogTypeConsume "WildFlow job settled" ;;
  mret (mkWildFlowSettlement operation true tokenKey userQuotaRefund tokenQuotaRefund).

Definition settleWildFlowOperationBillingTx (operationID : string) : M WildFlowSettlement :=
  operation ← loadWildFlowOperationForBilling operationID;
  if str_eqb (op_billing_state operation) WildFlowBillingStateSettled then
    ensureWildFlowCanonicalBillingLogTx operation LogTypeConsume "WildFlow job settled" ;;
    mret (mkWildFlowSettlement operation false "" 0 0)
  else
  if negb (str_eqb (op_billing_state operation) WildFlowBillingStateReserved) ||
     negb (str_eqb (op_state operation) "succeeded") || str_eqb (op_result_json operation) "" ||
     (op_result_validated_time operation =? 0)
  then mret (mkWildFlowSettlement operation false "" 0 0) else
  usageEvent ← attempt (find_first_by UsageEvents event_before (fun r =>
                 str_eqb (ue_operation_id r) (op_operation_id operation) &&
                 str_eqb (ue_job_id r) (op_job_id operation) &&
                 str_eqb (ue_model_version_ref r) (op_model_version_ref operation)));
  match usageEvent with
  | inl ErrRecordNotFound => mret (mkWildFlowSettlement operation false "" 0 0)
  | inl err => raise err
  | inr usageEvent =>
      if negb (wildFlowUsageEventMatchesOperation operation usageEvent)
      then raise ErrWildFlowBillingStateConflict else
      usage ← lift (wildFlowActualUsageBilling operation usageEvent);
      settle_usage operation (ue_event_id usageEvent) usage
  end.

Definition SettleWildFlowOperationBilling (operationID : string) : M (WildFlowOperation * bool) :=
  r ← transaction (settleWildFlowOperationBillingTx operationID);
  when (ws_changed r && ((0 <? ws_userRefund r) || (0 <? ws_tokenRefund r)))
    (let userID := if str_eqb (op_billing_source (ws_result r)) WildFlowBillingSourceWallet
                   then op_user_id (ws_result r) else 0 in
     syncWildFlowBillingQuotaCache userID (ws_tokenKey r) (ws_userRefund r) (ws_tokenRefund r)) ;;
  mret (ws_result r, ws_changed r).

(** ** Refund *)

(** A deleted key is restored too; a key whose row is gone is skipped. *)
Definition refund_operation_token (locked : WildFlowOperation) : M string :=
  if negb ((0 <? op_billing_token_quota locked) && (0 <? op_token_id locked)) then mret ""%string else
  token ← attempt (find_first Tokens (fun t => tk_id t =? op_token_id locked));
  match token with
  | inr token =>
      update Tokens (fun t => tk_id t =? op_token_id locked)
        (fun t => t <| tk_remain_quota ::= fun q => q + op_billing_token_quota locked |>
                    <| tk_used_quota ::= fun q => q - op_billing_token_quota locked |>) ;;
      mret (tk_key token)
  | inl ErrRecordNotFound => mret ""%string
  | inl err => raise err
  end.

Definition refunded_snapshot (now : Z) (r : WildFlowOperation) : WildFlowOperation :=
  r <| op_billing_state := WildFlowBillingStateRefunded |>
    <| op_billing_settled_time := now |>
    <| op_updated_time := now |>.

Definition refundWildFlowOperationBillingTx (operationID : string) : M (WildFlowOperation * bool * string) :=
  locked ← loadWildFlowOperationForBilling operationID;
  if str_eqb (op_billing_state locked) WildFlowBillingStateRefunded then
    ensureWildFlowCanonicalBillingLogTx locked LogTypeRefund "WildFlow job refunded" ;;
    mret (locked, false, ""%string)
  else
  if (negb (str_eqb (op_billing_state locked) WildFlowBillingStateReserved) &&
      negb (str_eqb (op_billing_state locked) WildFlowBillingStateRefunding)) ||
     (negb (str_eqb (op_state locked) "failed") && negb (str_eqb (op_state locked) "cancelled"))
  then mret (locked, false, ""%string) else
  when (str_eqb (op_billing_source locked) WildFlowBillingSourceSubscription)
    (refundSubscriptionPreConsumeTx (op_operation_id locked)) ;;
  when (str_eqb (op_billing_source locked) WildFlowBillingSourceWallet)
    (update Users (user_where (fun u => u_id u =? op_user_id locked))
       (fun u => u <| u_quota ::= fun q => q + op_billing_quota locked |>) ;; mret tt) ;;
  tokenKey ← refund_operation_token locked;
  now ← GetTimestamp;
  update Operations (fun r => op_id r =? op_id locked) (refunded_snapshot now) ;;
  let locked := refunded_snapshot now locked in
  ensureWildFlowCanonicalBillingLogTx locked LogTypeRefund "WildFlow job refunded" ;;
  mret (locked, true, tokenKey).

Definition RefundWildFlowOperationBilling (operationID : string) : M (WildFlowOperation * bool) :=
  '(result, changed, tokenKey) ← transaction (refundWildFlowOperationBillingTx operationID);
  when changed
    (let userDelta := if str_eqb (op_billing_source result) WildFlowBillingSourceWallet
                      then op_billing_quota result else 0 in
     syncWildFlowBillingQuotaCache (op_user_id result) tokenKey userDelta (op_billing_token_quota result)) ;;
  mret (result, changed).

(** ** Projection of the audit entries to the generic log *)

Definition GetWildFlowOperationByID (operationID : string) : M (option WildFlowOperation) :=
  optional (find_first Operations (has_operation operationID)).

(** The entries a claim may take over at [now]. *)
Definition claimable (now : Z) (r : WildFlowBillingLogEntry) : bool :=
  str_eqb (le_projection_state r) "" ||
  str_eqb (le_projection_state r) WildFlowBillingProjectionPending ||
  str_eqb (le_projection_state r) WildFlowBillingProjectionFailed ||
  (str_eqb (le_projection_state r) WildFlowBillingProjectionProjecting &&
   (le_projection_lease_expires_at r <=? now)).

Definition claimed_entry (claimToken : string) (leaseExpiresAt : Z)
    (r : WildFlowBillingLogEntry) : WildFlowBillingLogEntry :=
  r <| le_projection_state := WildFlowBillingProjectionProjecting |>
    <| le_projection_attempts ::= fun n => n + 1 |>
    <| le_projection_last_error := EmptyString |>
    <| le_projection_claim_token := claimToken |>
    <| le_projection_lease_expires_at := leaseExpiresAt |>.

(** [claimToken] is the [uuid.NewString()] of the call. *)
Definition claimWildFlowBillingProjection (claimToken operationID : string) (logType : Z)
  : M (WildFlowBillingLogEntry * bool) :=
  now ← GetTimestamp;
  let leaseExpiresAt := now + 60 in
  transaction (
    entry ← find_first LogEntries (has_entry operationID logType);
    let state := le_projection_state entry in
    if str_eqb state WildFlowBillingProjectionProjected ||
       str_eqb state WildFlowBillingProjectionNotRequired
    then mret (entry, false) else
    if str_eqb state WildFlowBillingProjectionUnsupported
    then raise ErrWildFlowClickHouseProjectionUnsupported else
    if str_eqb state WildFlowBillingProjectionProjecting && (now <? le_projection_lease_expires_at entry)
    then mret (entry, false) else
    n ← update LogEntries (fun r => has_entry operationID logType r && claimable now r)
          (claimed_entry claimToken leaseExpiresAt);
    entry ← find_first LogEntries (has_entry operationID logType);
    mret (entry, (n =? 1) && str_eqb (le_projection_claim_token entry) claimToken)).

Definition holds_claim (entry : WildFlowBillingLogEntry) (claimToken : string)
    (r : WildFlowBillingLogEntry) : bool :=
  has_entry (le_operation_id entry) (le_log_type entry) r &&
  str_eqb (le_projection_state r) WildFlowBillingProjectionProjecting &&
  str_eqb (le_projection_claim_token r) claimToken.

Definition markWildFlowBillingProjectionFailed (entry : WildFlowBillingLogEntry)
    (claimToken failureCode : string) : M unit :=
  let projectionState := if str_eqb failureCode "log_projection_idempotency_unsupported"
                         then WildFlowBillingProjectionUnsupported
                         else WildFlowBillingProjectionFailed in
  update LogEntries (holds_claim entry claimToken)
    (fun r => r <| le_projection_state := projectionState |>
                <| le_projection_last_error := failureCode |>
                <| le_projection_claim_token := EmptyString |>
                <| le_projection_lease_expires_at := 0 |>) ;;
  mret tt.

Definition wildFlowBillingProjectionFailureCode (err : Err) : string :=
  if is_err err ErrWildFlowClickHouseProjectionUnsupported
  then "log_projection_idempotency_unsupported" else "log_projection_failed".

Definition markWildFlowBillingProjectionProjected (entry : WildFlowBillingLogEntry)
    (claimToken : string) : M unit :=
  now ← GetTimestamp;
  n ← update LogEntries (holds_claim entry claimToken)
    (fun r => r <| le_projection_state := WildFlowBillingProjectionProjected |>
                <| le_projection_last_error := EmptyString |>
                <| le_projection_claim_token := EmptyString |>
                <| le_projection_lease_expires_at := 0 |>
                <| le_projected_time := now |>);
  guard_err (negb (n =? 1)) (EText "WildFlow billing projection claim lost").

Definition has_receipt (operationID : string) (logType : Z) (r : WildFlowBillingLogProjectionReceipt) : bool :=
  str_eqb (rc_operation_id r) operationID && (rc_log_type r =? logType).

Definition is_projection_of (operationID : string) (logType : Z) (r : Log) : bool :=
  str_eqb (lg_request_id r) operationID && (lg_type r =? logType).

(** The generic log row of an operation; [other] in the key order of the encoder. *)
Definition projection_log (operation : WildFlowOperation) (entry : WildFlowBillingLogEntry)
    (username group tokenName : string) (now : Z) : Log :=
  {| lg_id := 0; lg_user_id := op_user_id operation; lg_created_at := now; lg_type := le_log_type entry;
     lg_content := le_content entry; lg_username := username; lg_token_name := tokenName;
     lg_model_name := op_product_model_ref operation; lg_quota := op_billing_quota operation;
     lg_prompt_tokens := 0; lg_completion_tokens := 0; lg_use_time := 0; lg_is_stream := false;
     lg_channel_id := 0; lg_token_id := op_token_id operation; lg_group := group; lg_ip := "";
     lg_request_id := op_operation_id operation; lg_upstream_request_id := "";
     lg_other :=
       [("amount_micros", JInt (op_billing_amount_micros operation));
        ("billable_units", JInt (op_billing_billable_units operation));
        ("billing_source", JStr (op_billing_source operation));
        ("currency", JStr (op_billing_currency operation));
        ("job_id", JStr (op_job_id operation));
        ("operation_id", JStr (op_operation_id operation));
        ("price_version", JStr (op_billing_price_version operation));
        ("quota_per_unit", JStr (op_billing_quota_per_unit operation));
        ("unit", JStr (op_billing_unit operation));
        ("usage_event_id", JStr (le_usage_event_id entry));
        ("usd_exchange_rate", JStr (op_billing_usd_exchange_rate operation))] |}.

(** The transaction of the log database. *)
Definition project_receipt_tx (operation : WildFlowOperation) (entry : WildFlowBillingLogEntry)
    (logEntry : Log) : M unit :=
  let id := op_operation_id operation in
  let logType := le_log_type entry in
  now ← GetTimestamp;
  create_or_ignore Receipts (mkWildFlowBillingLogProjectionReceipt id logType false now 0) ;;
  receipt ← find_first Receipts (has_receipt id logType);
  if rc_projected receipt then mret tt else
  legacyProjectionCount ← count Logs (is_projection_of id logType);
  when (legacyProjectionCount =? 0) (create Logs logEntry ;; mret tt) ;;
  update Receipts (fun r => has_receipt id logType r && negb (rc_projected r))
    (fun r => r <| rc_projected := true |> <| rc_projected_time := now |>) ;;
  persisted ← find_first Receipts (has_receipt id logType);
  guard_err (negb (rc_projected persisted))
    (EText "WildFlow billing log projection receipt was not committed").

(** The identity columns of a task's log row. *)
Definition task_log (operation : WildFlowOperation) (entry : WildFlowBillingLogEntry) (task : Task)
    (logEntry : Log) : Log :=
  logEntry <| lg_id := 0 |> <| lg_user_id := op_user_id operation |>
           <| lg_token_id := op_token_id operation |> <| lg_channel_id := ta_channel_id task |>
           <| lg_quota := le_billing_quota entry |> <| lg_type := le_log_type entry |>
           <| lg_request_id := op_operation_id operation |>.

(** The log row, with the task's own snapshot for an operation a task manages. *)
Definition generic_log_of (operation : WildFlowOperation) (entry : WildFlowBillingLogEntry) : M Log :=
  user ← attempt (find_first Users (user_where (fun u => u_id u =? op_user_id operation)));
  let '(username, group) :=
    match user with inr u => (u_username u, u_group u) | inl _ => (""%string, ""%string) end in
  tokenName ← (if 0 <? op_token_id operation then
      token ← attempt (find_first Tokens (token_where (fun t => tk_id t =? op_token_id operation)));
      mret (match token with inr t => tk_name t | inl _ => ""%string end)
    else mret ""%string);
  now ← GetTimestamp;
  let logEntry := projection_log operation entry username group tokenName now in
  if str_eqb (op_billing_state operation) TaskOperationBillingState &&
     negb (str_eqb (op_task_id operation) "")
  then
    task ← find_first Tasks (fun t => str_eqb (ta_task_id t) (op_task_id operation) &&
                                     (ta_user_id t =? op_user_id operation));
    let logEntry := match ta_consumption_log task with Some snapshot => snapshot | None => logEntry end in
    mret (task_log operation entry task logEntry)
  else mret logEntry.

Definition createWildFlowGenericBillingLog (operation : WildFlowOperation)
    (entry : WildFlowBillingLogEntry) : M unit :=
  clickhouse ← ask env_log_clickhouse;
  if (clickhouse : bool) then raise ErrWildFlowClickHouseProjectionUnsupported else
  logEntry ← generic_log_of operation entry;
  transaction (project_receipt_tx operation entry logEntry).

(** [errors.Join(err, markWildFlowBillingProjectionFailed(...))] *)
Definition projection_failed {A} (err : Err) (entry : WildFlowBillingLogEntry) (claimToken : string) : M A :=
  r ← attempt (markWildFlowBillingProjectionFailed entry claimToken
                 (wildFlowBillingProjectionFailureCode err));
  match r with
  | inl err' => raise (EJoin err err')
  | inr _ => raise err
  end.

Definition projectWildFlowBillingLog (claimToken operationID : string) (logType : Z) : M unit :=
  '(entry, acquired) ← claimWildFlowBillingProjection claimToken operationID logType;
  if negb acquired then mret tt else
  logDb ← ask env_log_db;
  if negb logDb then projection_failed (EText "log database is not initialized") entry claimToken else
  operation ← attempt (GetWildFlowOperationByID operationID);
  match operation with
  | inl err => projection_failed err entry claimToken
  | inr None => projection_failed (EText "WildFlow billing operation not found") entry claimToken
  | inr (Some operation) =>
      r ← attempt (createWildFlowGenericBillingLog operation entry);
      match r with
      | inl err => projection_failed err entry claimToken
      | inr _ => markWildFlowBillingProjectionProjected entry claimToken
      end
  end.

Definition RecordWildFlowBillingLog (claimToken : string) (operation : WildFlowOperation) (logType : Z)
    (content : string) : M unit :=
  entry ← transaction (ensureWildFlowCanonicalBillingLogTx operation logType content);
  if str_eqb (le_projection_state entry) WildFlowBillingProjectionNotRequired ||
     str_eqb (le_projection_state entry) WildFlowBillingProjectionProjected
  then mret tt
  else projectWildFlowBillingLog claimToken (op_operation_id operation) logType.

(** ** Reconciliation tasks *)

(** The state whose audit entry is due, with its type and text. *)
Definition audit_due (operation : WildFlowOperation) : option (Z * string) :=
  if str_eqb (op_billing_state operation) WildFlowBillingStateSettled
  then Some (LogTypeConsume, "WildFlow job settled"%string)
  else if str_eqb (op_billing_state operation) WildFlowBillingStateRefunded
  then Some (LogTypeRefund, "WildFlow job refunded"%string)
  else None.

Definition lacks_audit (entries : list WildFlowBillingLogEntry) (operation : WildFlowOperation) : bool :=
  match audit_due operation with
  | Some (logType, _) => negb (List.existsb (has_entry (op_operation_id operation) logType) entries)
  | None => false
  end.

Definition audit_candidate_tx (operationID : string) : M unit :=
  operation ← loadWildFlowOperationForBilling operationID;
  match audit_due operation with
  | Some (logType, content) => ensureWildFlowCanonicalBillingLogTx operation logType content ;; mret tt
  | None => mret tt
  end.

(** Each candidate in its own transaction; failures are collected. *)
Fixpoint audit_candidates (candidates : list WildFlowOperation) (processed : Z) (errs : list Err)
  : M (Z * list Err) :=
  match candidates with
  | [] => mret (processed, errs)
  | candidate :: rest =>
      r ← attempt (transaction (audit_candidate_tx (op_operation_id candidate)));
      match r with
      | inl err => audit_candidates rest processed
          (errs ++ [EWrap ("operation " ++ op_operation_id candidate ++ " canonical billing audit: ") err ""])
      | inr _ => audit_candidates rest (processed + 1) errs
      end
  end.

Definition ReconcileWildFlowCanonicalBillingAudits (limit : Z) : M (Z * list Err) :=
  candidates ← stmt (fun d =>
    (inr (take (Z.to_nat (reconcile_limit limit))
            (merge_sort op_updated_order
               (List.filter (lacks_audit (db_log_entries d)) (db_operations d)))), d));
  audit_candidates candidates 0 [].

Definition entry_order (a b : WildFlowBillingLogEntry) : Prop :=
  le_created_time a < le_created_time b \/
  (le_created_time a = le_created_time b /\
   (String.ltb (le_operation_id a) (le_operation_id b) = true \/
    (le_operation_id a = le_operation_id b /\ le_log_type a <= le_log_type b))).
#[export] Instance entry_order_dec : RelDecision entry_order.
Proof. intros a b. unfold entry_order. apply _. Defined.

(** [uuid n] is the claim token of the [n]-th entry. *)
Fixpoint project_entries (uuid : nat -> string) (entries : list WildFlowBillingLogEntry) (processed : Z)
    (errs : list (string * Z * Err)) : M (Z * list (string * Z * Err)) :=
  match entries with
  | [] => mret (processed, errs)
  | entry :: rest =>
      r ← attempt (projectWildFlowBillingLog (uuid O) (le_operation_id entry) (le_log_type entry));
      match r with
      | inl err => project_entries (fun n => uuid (S n)) rest processed
          (errs ++ [(le_operation_id entry, le_log_type entry, err)])
      | inr _ => project_entries (fun n => uuid (S n)) rest (processed + 1) errs
      end
  end.

Definition ReconcileWildFlowBillingLogProjections (uuid : nat -> string) (limit : Z)
  : M (Z * list (string * Z * Err)) :=
  now ← GetTimestamp;
  entries ← find_all LogEntries (claimable now);
  project_entries uuid (take (Z.to_nat (reconcile_limit limit)) (merge_sort entry_order entries)) 0 [].

(** ** Usage events *)

(** Go's zero [time.Time], in Unix milliseconds. *)
Definition zero_time : Z := -62135596800000.

(** What [recordWildFlowUsageEventOnce] and [BeforeCreate] fill in before the
    insert; [uuid] is the [uuid.NewString()] of the call. *)
Definition usage_event_prepared (uuid : string) (now : Z) (event : WildFlowUsageEvent) : WildFlowUsageEvent :=
  let event := if str_eqb (ue_ingest_token event) "" then event <| ue_ingest_token := uuid |> else event in
  let event := if ue_ingested_at event =? zero_time then event <| ue_ingested_at := now * 1000 |> else event in
  if ue_created_time event =? 0 then event <| ue_created_time := ue_ingested_at event / 1000 |> else event.

Definition wildFlowUsageEventIdentityMatches (persisted incoming : WildFlowUsageEvent) : bool :=
  str_eqb (ue_event_id persisted) (ue_event_id incoming) &&
  str_eqb (ue_aggregate_type persisted) (ue_aggregate_type incoming) &&
  str_eqb (ue_aggregate_id persisted) (ue_aggregate_id incoming) &&
  str_eqb (ue_event_type persisted) (ue_event_type incoming) &&
  str_eqb (ue_payload_digest persisted) (ue_payload_digest incoming) &&
  str_eqb (ue_operation_id persisted) (ue_operation_id incoming) &&
  str_eqb (ue_job_id persisted) (ue_job_id incoming) &&
  str_eqb (ue_attempt_id persisted) (ue_attempt_id incoming) &&
  str_eqb (ue_model_version_ref persisted) (ue_model_version_ref incoming) &&
  str_eqb (ue_channel_type persisted) (ue_channel_type incoming) &&
  str_eqb (ue_kind persisted) (ue_kind incoming) &&
  (ue_quantity persisted =? ue_quantity incoming) &&
  str_eqb (ue_unit persisted) (ue_unit incoming) &&
  (ue_started_at persisted =? ue_started_at incoming) &&
  (ue_ended_at persisted =? ue_ended_at incoming) &&
  str_eqb (ue_evidence_ref persisted) (ue_evidence_ref incoming).

Definition hex_digit (c : Ascii.ascii) : bool :=
  let n := Ascii.nat_of_ascii c in
  ((48 <=? n) && (n <=? 57) || (97 <=? n) && (n <=? 102))%nat.
Fixpoint all_chars (p : Ascii.ascii -> bool) (s : string) : bool :=
  match s with EmptyString => true | String c s' => p c && all_chars p s' end.
Definition validWildFlowUsagePayloadDigest (value : string) : bool :=
  (String.length value =? 64)%nat && all_chars hex_digit value.

Definition has_event (eventID : string) (r : WildFlowUsageEvent) : bool := str_eqb (ue_event_id r) eventID.

(** Insert the event or find it already there; [true]: an earlier call wrote it. *)
Definition ingest_event (event : WildFlowUsageEvent) : M bool :=
  existing ← attempt (find_first UsageEvents (has_event (ue_event_id event)));
  match existing with
  | inr persisted =>
      if negb (wildFlowUsageEventIdentityMatches persisted event) then raise ErrWildFlowUsageEventConflict
      else mret true
  | inl ErrRecordNotFound =>
      create_or_ignore UsageEvents event ;;
      persisted ← find_first UsageEvents (has_event (ue_event_id event));
      if negb (wildFlowUsageEventIdentityMatches persisted event) then raise ErrWildFlowUsageEventConflict
      else mret (str_eqb (ue_ingest_token persisted) "" ||
                 negb (str_eqb (ue_ingest_token persisted) (ue_ingest_token event)))
  | inl err => raise err
  end.

(** A trial operation is bound to the first event accepted for it. *)
Definition bind_trial_event (operation : WildFlowOperation) (event : WildFlowUsageEvent) : M unit :=
  if negb (str_eqb (op_billing_source operation) WildFlowBillingSourceTeamTrial) then mret tt else
  if negb (str_eqb (op_billing_usage_event_id operation) "") &&
     negb (str_eqb (op_billing_usage_event_id operation) (ue_event_id event))
  then raise ErrWildFlowUsageEventConflict else
  if negb (str_eqb (op_billing_usage_event_id operation) "") then mret tt else
  now ← GetTimestamp;
  n ← update Operations (fun r =>
        (op_id r =? op_id operation) && str_eqb (op_billing_source r) WildFlowBillingSourceTeamTrial &&
        str_eqb (op_billing_state r) WildFlowBillingStatePending &&
        str_eqb (op_billing_usage_event_id r) "")
      (fun r => r <| op_billing_usage_event_id := ue_event_id event |> <| op_updated_time := now |>);
  guard_err (negb (n =? 1)) ErrWildFlowUsageEventConflict.

Definition recordWildFlowUsageEventOnce (uuid : string) (event : WildFlowUsageEvent) : M bool :=
  if negb (validWildFlowUsagePayloadDigest (ue_payload_digest event)) then raise ErrWildFlowUsageEventInvalid else
  now ← GetTimestamp;
  let event := usage_event_prepared uuid now event in
  transaction (
    operation ← attempt (find_first Operations (has_operation (ue_operation_id event)));
    match operation return M bool with
    | inl ErrRecordNotFound => raise ErrWildFlowUsageEventUnknown
    | inl err => raise err
    | inr operation =>
        if negb (str_eqb (op_job_id operation) (ue_job_id event)) ||
           negb (str_eqb (op_model_version_ref operation) (ue_model_version_ref event))
        then raise ErrWildFlowUsageEventConflict else
        if negb (wildFlowUsageEventMatchesOperation operation event)
        then raise ErrWildFlowUsageEventConflict else
        replayed ← ingest_event event;
        bind_trial_event operation event ;;
        mret replayed
    end).

(** [strings.ToLower] on ASCII, which decides the ASCII patterns below. *)
Definition lower_ascii (c : Ascii.ascii) : Ascii.ascii :=
  let n := Ascii.nat_of_ascii c in
  if ((65 <=? n) && (n <=? 90))%nat then Ascii.ascii_of_nat (n + 32) else c.
Fixpoint str_lower (s : string) : string :=
  match s with EmptyString => EmptyString | String c s' => String (lower_ascii c) (str_lower s') end.

(** [model/wildflow_journey_receipt.go] *)
Definition retryableWildFlowTransactionContention (err : Err) : bool :=
  is_err err ErrWildFlowJourneyConcurrentInsert ||
  (let message := str_lower (err_text err) in
   str_contains message "sqlstate 40001" || str_contains message "could not serialize access" ||
   str_contains message "deadlock found" || str_contains message "database is locked" ||
   str_contains message "database table is locked").

(** Resolve an ambiguous final retry from committed state. *)
Definition resolve_usage_event (event : WildFlowUsageEvent) (lastErr : Err) : M bool :=
  operation ← attempt (find_first Operations (has_operation (ue_operation_id event)));
  match operation with
  | inl _ => raise lastErr
  | inr operation =>
      let trial := str_eqb (op_billing_source operation) WildFlowBillingSourceTeamTrial in
      if trial && negb (str_eqb (op_billing_usage_event_id operation) "") &&
         negb (str_eqb (op_billing_usage_event_id operation) (ue_event_id event))
      then raise ErrWildFlowUsageEventConflict else
      persisted ← attempt (find_first UsageEvents (has_event (ue_event_id event)));
      match persisted with
      | inl _ => raise lastErr
      | inr persisted =>
          if wildFlowUsageEventIdentityMatches persisted event &&
             (negb trial || str_eqb (op_billing_usage_event_id operation) (ue_event_id event))
          then mret true else raise lastErr
      end
  end.

Fixpoint record_attempts (attempts : nat) (uuid : string) (event : WildFlowUsageEvent) (lastErr : Err) : M bool :=
  match attempts with
  | O => resolve_usage_event event lastErr
  | S attempts' =>
      r ← attempt (recordWildFlowUsageEventOnce uuid event);
      match r with
      | inr replayed => mret replayed
      | inl err => if retryableWildFlowTransactionContention err
                   then record_attempts attempts' uuid event err else raise err
      end
  end.

Definition RecordWildFlowUsageEvent (uuid : string) (event : WildFlowUsageEvent) : M bool :=
  record_attempts 8 uuid event ErrDiverges.
