(* ===== verification/ReservationRules.v ===== *)
(** * ReservationRules: proof rules for the statements of [Reservation]

    One rule per statement group of the ledger ([reserveUserQuotaTx],
    [adjustTokenQuotaDeltaTx], [claimBillingReservationTx], ...): which movement
    of [Ledger] a success makes, and exactly when which error is returned. *)

From S2P Require Import Prelude Schema Store Logic Frame Ledger Calendar Quota Subscription SubscriptionFacts Reservation.
From stdpp Require Import base numbers option strings list.
From Stdlib Require Import ZArith Lia.
Open Scope Z_scope.

(** Apply the rule of the statement at the head of the program. *)
Ltac wp_step :=
  lazymatch goal with
  | |- wp (mbind _ _) _ _ _ => apply wp_bind
  | |- wp (mret _) _ _ _ => apply wp_ret
  | |- wp (raise _) _ _ _ => apply wp_raise
  | |- wp (lift _) _ _ _ => apply wp_lift
  | |- wp (ask _) _ _ _ => apply wp_ask
  | |- wp GetTimestamp _ _ _ => apply wp_ask
  | |- wp (emit _) _ _ _ => apply wp_emit
  | |- wp (attempt _) _ _ _ => apply wp_attempt
  | |- wp (when _ _) _ _ _ => apply wp_when; intros ?; try discriminate
  | |- wp (guard_err _ _) _ _ _ => apply wp_guard; intros ?; try discriminate
  | |- wp (if ?b then _ else _) _ _ _ => destruct b eqn:?
  end.
Ltac wp_steps := cbn beta iota delta [negb]; repeat (wp_step; cbn beta iota delta [negb]).

Section Rules.
Context (e : Env) (d : DB) (fs : list (option fault)) (tr : list effect).
Context (Hwf : wf d).

(** The row-level facts of an [UPDATE] as facts about balances. *)
Lemma user_row_covers u x r :
  user_row d u = Some r -> user_covers d u x = negb (u_deleted r) && (x <=? u_quota r).
Proof. unfold user_covers, live_user, wallet. by intros ->. Qed.
Lemma user_none_covers u x :
  (forall r, user_row d u = Some r -> negb (u_deleted r) && (x <=? u_quota r) = false) ->
  user_covers d u x = false.
Proof.
  destruct (user_row d u) as [r|] eqn:E; intros H.
  - rewrite (user_row_covers u x r E). by apply H.
  - unfold user_covers, live_user. by rewrite E.
Qed.
Lemma key_none_covers t x unl :
  0 < t -> x <> 0 ->
  (forall r, token_row d t = Some r ->
     negb (tk_deleted r) && (unl || (x <=? tk_remain_quota r)) = false) ->
  key_covers d t x unl = false.
Proof.
  intros Ht Hx H. unfold key_covers, live_token, key_remain.
  rewrite (proj2 (Z.leb_gt t 0)), (proj2 (Z.eqb_neq x 0)) by done.
  destruct (token_row d t) as [r|]; [by apply (H r) | done].
Qed.
Lemma key_row_covers t x unl r :
  token_row d t = Some r -> negb (tk_deleted r) && (unl || (x <=? tk_remain_quota r)) = true ->
  key_covers d t x unl = true /\ live_token d t = true.
Proof.
  unfold key_covers, live_token, key_remain. intros ->. cbn. intros Hc. rewrite Hc, orb_true_r.
  by apply andb_true_iff in Hc as [-> _].
Qed.

Lemma wp_reserveUserQuotaTx u amount (Q : result unit -> St -> Prop) :
  (forall k fs', Q (inl (ErrDriver k)) (mkSt d fs' tr)) ->
  (forall fs', user_covers d u amount = false -> Q (inl ErrInsufficientUserQuota) (mkSt d fs' tr)) ->
  (forall fs', user_covers d u amount = true -> Q (inr tt) (mkSt (bump_user u (- amount) d) fs' tr)) ->
  wp (reserveUserQuotaTx u amount) Q e (mkSt d fs tr).
Proof.
  intros Hk Hno Hok. unfold reserveUserQuotaTx. wp_step. apply wp_update; [done|]. intros fs'. cbn beta iota.
  destruct (update_user_sql d Hwf u (fun r => amount <=? u_quota r) (- amount)
    (fun r => r <| u_quota ::= fun q => q - amount |>)) as [(Hn & Hd & Hr)|(Hn & Hd & r & Hr & Hc)];
    [done | | ]; cbn [t_get t_set Users] in *; rewrite Hn, Hd; wp_steps; try done.
  - by apply Hno, user_none_covers.
  - specialize (Hok fs'). rewrite (user_row_covers u amount r Hr), Hc in Hok.
    unfold bump_user, live_user in Hok. rewrite Hr in Hok.
    apply andb_true_iff in Hc as [Hdel _]. rewrite Hdel in Hok. by apply Hok.
Qed.

(** A key movement that is skipped. *)
Lemma skip_key t x (P : DB -> Prop) :
  (forall a, P (bump_key t x a d)) -> (t <=? 0) || (x =? 0) = true -> P d.
Proof.
  intros H [Ht%Z.leb_le|Hx%Z.eqb_eq]%orb_true_iff.
  - specialize (H None). unfold bump_key in H. by rewrite (proj2 (Z.ltb_ge 0 t)) in H.
  - specialize (H None). by rewrite Hx, bump_key_zero in H.
Qed.

(** A scoped update of a key, guarded or not. *)
Lemma wp_update_key t delta a cond f (Q : result Z -> St -> Prop) :
  0 < t -> (forall r, f r = shift_key delta a r) ->
  (forall k fs', Q (inl (ErrDriver k)) (mkSt d fs' tr)) ->
  (forall fs', (forall r, token_row d t = Some r -> negb (tk_deleted r) && cond r = false) ->
               Q (inr 0) (mkSt d fs' tr)) ->
  (forall fs' r, token_row d t = Some r -> negb (tk_deleted r) && cond r = true ->
                 Q (inr 1) (mkSt (bump_key t delta a d) fs' tr)) ->
  wp (update Tokens (token_where (fun r => (tk_id r =? t) && cond r)) f) Q e (mkSt d fs tr).
Proof.
  intros Ht Hf Hk Hno Hok. apply wp_update; [done|]. intros fs'.
  destruct (update_token_sql d Hwf t cond delta a f Hf) as [(Hn & Hd & Hr)|(Hn & Hd & r & Hr & Hc)];
    cbn [t_get t_set Tokens] in *; rewrite Hn, Hd; [by apply Hno|].
  specialize (Hok fs' r Hr Hc). unfold bump_key, live_token in Hok.
  rewrite Hr, (proj2 (Z.ltb_lt 0 t) Ht) in Hok.
  apply andb_true_iff in Hc as [Hdel _]. by rewrite Hdel in Hok.
Qed.

Lemma wp_reserveTokenQuotaTx t amount unl (Q : result unit -> St -> Prop) :
  (forall k fs', Q (inl (ErrDriver k)) (mkSt d fs' tr)) ->
  (forall fs', key_covers d t amount unl = false -> Q (inl ErrInsufficientTokenQuota) (mkSt d fs' tr)) ->
  (forall fs' a, key_covers d t amount unl = true ->
                 Q (inr tt) (mkSt (bump_key t (- amount) a d) fs' tr)) ->
  wp (reserveTokenQuotaTx t amount unl) Q e (mkSt d fs tr).
Proof.
  intros Hk Hno Hok. unfold reserveTokenQuotaTx. wp_step.
  { wp_steps. apply (skip_key t (- amount) (fun d' => Q (inr tt) (mkSt d' fs tr))).
    - intros a. apply Hok. unfold key_covers. by rewrite Heqb.
    - rewrite <- Heqb. f_equal. destruct (Z.eqb_spec amount 0); lia. }
  apply orb_false_iff in Heqb as [Ht%Z.leb_gt Ha%Z.eqb_neq].
  wp_steps. apply (wp_update_key t (- amount) (Some (env_now e)) (fun r => unl || (amount <=? tk_remain_quota r)));
    [done | | done | |]; intros; wp_steps; try done.
  - unfold token_touch, token_debit, shift_key; cbn. f_equal; lia.
  - by apply Hno, key_none_covers.
  - apply Hok. by eapply key_row_covers.
Qed.

(** Adjustments by the difference between the final and the reserved cost:
    positive differences are guarded, negative ones credit back. *)
Definition user_adjusts (u delta : Z) : bool := (delta <=? 0) || user_covers d u delta.
Definition key_adjusts (t delta : Z) (unl : bool) : bool := (delta <=? 0) || key_covers d t delta unl.

(** The unguarded credit of a user. *)
Lemma wp_credit_user u x f (Q : result Z -> St -> Prop) :
  (forall r, f r = shift_user x r) ->
  (forall k fs', Q (inl (ErrDriver k)) (mkSt d fs' tr)) ->
  (forall fs' n, Q (inr n) (mkSt (bump_user u x d) fs' tr)) ->
  wp (update Users (user_where (fun r => u_id r =? u)) f) Q e (mkSt d fs tr).
Proof.
  intros Hf Hk Hok.
  assert (forall r, user_where (fun r => u_id r =? u) r
                    = user_where (fun r => (u_id r =? u) && true) r) as Hp
    by (intros r; unfold user_where; by rewrite andb_true_r).
  apply wp_update; [done|]. intros fs'. rewrite (rows_count_ext _ _ _ Hp).
  rewrite (upd_rows_ext _ _ f f _ Hp (fun _ => eq_refl)).
  destruct (update_user_sql d Hwf u (fun _ => true) x f Hf)
    as [(Hn & Hd & Hr)|(Hn & Hd & r & Hr & Hc)]; cbn [t_get t_set Users] in *; rewrite Hn, Hd.
  - specialize (Hok fs' 0). unfold bump_user, live_user in Hok.
    destruct (user_row d u) as [r|] eqn:E; [|exact Hok].
    specialize (Hr r eq_refl). rewrite andb_true_r in Hr. by rewrite Hr in Hok.
  - specialize (Hok fs' 1). unfold bump_user, live_user in Hok. rewrite andb_true_r in Hc.
    by rewrite Hr, Hc in Hok.
Qed.

Lemma wp_adjustUserQuotaDeltaTx u delta (Q : result unit -> St -> Prop) :
  in_i64 (- delta) ->
  (forall k fs', Q (inl (ErrDriver k)) (mkSt d fs' tr)) ->
  (forall fs', user_adjusts u delta = false -> Q (inl ErrInsufficientUserQuota) (mkSt d fs' tr)) ->
  (forall fs', user_adjusts u delta = true -> Q (inr tt) (mkSt (bump_user u (- delta) d) fs' tr)) ->
  wp (adjustUserQuotaDeltaTx u delta) Q e (mkSt d fs tr).
Proof.
  intros Hi Hk Hno Hok. unfold adjustUserQuotaDeltaTx, user_adjusts in *. wp_step.
  { apply Z.eqb_eq in Heqb as ->. wp_steps. specialize (Hok fs eq_refl).
    by rewrite bump_user_zero in Hok. }
  apply Z.eqb_neq in Heqb. wp_step.
  - apply Z.ltb_lt in Heqb0. rewrite (proj2 (Z.leb_gt delta 0)) in Hno, Hok by done.
    change (wp (reserveUserQuotaTx u delta) Q e (mkSt d fs tr)). by apply wp_reserveUserQuotaTx.
  - apply Z.ltb_ge in Heqb0. rewrite (proj2 (Z.leb_le delta 0)) in Hno, Hok by lia.
    wp_step. apply (wp_credit_user u (- delta)); [|intros; apply Hk|].
    + intros r. unfold shift_user. by rewrite (i64_small _ Hi).
    + intros. wp_steps. by apply Hok.
Qed.

(** The unguarded credit of a key, whatever its new access time. *)
Lemma wp_credit_key t x f (Q : result Z -> St -> Prop) :
  0 < t -> (forall r, f r = shift_key x None r) ->
  (forall k fs', Q (inl (ErrDriver k)) (mkSt d fs' tr)) ->
  (forall fs' n, Q (inr n) (mkSt (bump_key t x None d) fs' tr)) ->
  wp (update Tokens (token_where (fun r => tk_id r =? t)) f) Q e (mkSt d fs tr).
Proof.
  intros Ht Hf Hk Hok.
  assert (forall r, token_where (fun r => tk_id r =? t) r
                    = token_where (fun r => (tk_id r =? t) && true) r) as Hp
    by (intros r; unfold token_where; by rewrite andb_true_r).
  apply wp_update; [done|]. intros fs'. rewrite (rows_count_ext _ _ _ Hp).
  rewrite (upd_rows_ext _ _ f f _ Hp (fun _ => eq_refl)).
  destruct (update_token_sql d Hwf t (fun _ => true) x None f Hf)
    as [(Hn & Hd & Hr)|(Hn & Hd & r & Hr & Hc)]; cbn [t_get t_set Tokens] in *; rewrite Hn, Hd.
  - specialize (Hok fs' 0). unfold bump_key, live_token in Hok.
    destruct (token_row d t) as [r|] eqn:E; [|by rewrite andb_false_r in Hok].
    specialize (Hr r eq_refl). rewrite andb_true_r in Hr. by rewrite Hr, andb_false_r in Hok.
  - specialize (Hok fs' 1). unfold bump_key, live_token in Hok. rewrite andb_true_r in Hc.
    by rewrite Hr, Hc, (proj2 (Z.ltb_lt 0 t) Ht) in Hok.
Qed.

Lemma wp_adjustTokenQuotaDeltaTx t delta unl (Q : result unit -> St -> Prop) :
  in_i64 (- delta) ->
  (forall k fs', Q (inl (ErrDriver k)) (mkSt d fs' tr)) ->
  (forall fs', key_adjusts t delta unl = false -> Q (inl ErrInsufficientTokenQuota) (mkSt d fs' tr)) ->
  (forall fs' a, key_adjusts t delta unl = true ->
                 Q (inr tt) (mkSt (bump_key t (- delta) a d) fs' tr)) ->
  wp (adjustTokenQuotaDeltaTx t delta unl) Q e (mkSt d fs tr).
Proof.
  intros Hi Hk Hno Hok. unfold adjustTokenQuotaDeltaTx, key_adjusts in *. wp_step.
  { wp_steps. apply (skip_key t (- delta) (fun d' => Q (inr tt) (mkSt d' fs tr))).
    - intros a. apply Hok. unfold key_covers. by rewrite Heqb, orb_true_r.
    - rewrite <- Heqb. f_equal. destruct (Z.eqb_spec delta 0); lia. }
  apply orb_false_iff in Heqb as [Ht%Z.leb_gt Ha%Z.eqb_neq]. wp_step.
  - apply Z.ltb_lt in Heqb. rewrite (proj2 (Z.leb_gt delta 0)) in Hno, Hok by done.
    wp_steps. apply (wp_update_key t (- delta) None (fun r => unl || (delta <=? tk_remain_quota r)));
      [done | | done | |]; intros; wp_steps; try done.
    + unfold token_debit, shift_key; cbn. f_equal; lia.
    + by apply Hno, key_none_covers.
    + apply Hok. by eapply key_row_covers.
  - apply Z.ltb_ge in Heqb. rewrite (proj2 (Z.leb_le delta 0)) in Hno, Hok by lia.
    wp_steps. apply (wp_credit_key t (- delta)); [done | | done |]; intros; wp_steps; [|by apply Hok].
    unfold shift_key; cbn. by rewrite (i64_small _ Hi).
Qed.

Lemma wp_refundTokenQuotaTx t amount (Q : result unit -> St -> Prop) :
  (forall k fs', Q (inl (ErrDriver k)) (mkSt d fs' tr)) ->
  (forall fs' a, Q (inr tt) (mkSt (bump_key t amount a d) fs' tr)) ->
  wp (refundTokenQuotaTx t amount) Q e (mkSt d fs tr).
Proof.
  intros Hk Hok. unfold refundTokenQuotaTx. wp_step.
  { wp_steps. by apply (skip_key t amount (fun d' => Q (inr tt) (mkSt d' fs tr))). }
  apply orb_false_iff in Heqb as [Ht%Z.leb_gt Ha%Z.eqb_neq].
  wp_steps. by apply (wp_credit_key t amount); intros; wp_steps.
Qed.

Lemma wp_find_reservation k (Q : result BillingReservationRecord -> St -> Prop) :
  (forall f fs', Q (inl (ErrDriver f)) (mkSt d fs' tr)) ->
  (forall fs', reservation d k = None -> Q (inl ErrBillingReservationNotFound) (mkSt d fs' tr)) ->
  (forall fs' r, reservation d k = Some r -> br_request_id r = k -> Q (inr r) (mkSt d fs' tr)) ->
  wp (find_reservation k) Q e (mkSt d fs tr).
Proof.
  intros Hk Hno Hok. unfold find_reservation. wp_steps. apply wp_find_first; intros; wp_steps; try done.
  - by apply Hno.
  - apply Hok; [done|]. by apply List.find_some in H as [_ ?%has_request_spec].
Qed.

Lemma wp_claim k u t unl source amount (Q : result bool -> St -> Prop) :
  (forall f fs', Q (inl (ErrDriver f)) (mkSt d fs' tr)) ->
  (forall fs', is_Some (reservation d k) -> Q (inr false) (mkSt d fs' tr)) ->
  (forall fs' i, reservation d k = None ->
     let r := mkBillingReservationRecord i k u t unl source 0 amount 0
                BillingReservationStateReserved (env_now e) (env_now e) in
     wf (add_reservation r d) -> Q (inr true) (mkSt (add_reservation r d) fs' tr)) ->
  wp (claimBillingReservationTx k u t unl source amount) Q e (mkSt d fs tr).
Proof.
  intros Hk Hno Hok. unfold claimBillingReservationTx. wp_steps. apply wp_create_or_ignore; [done | |].
  - intros fs' Hc. apply Hno. unfold reservation.
    change (has_request k) with (fun r => str_eqb (br_request_id r) k).
    apply List.existsb_exists in Hc as (r & Hin & Hc). cbn in Hc.
    destruct (List.find _ _) as [r'|] eqn:E; [by eexists|].
    exfalso. pose proof (List.find_none _ _ E r Hin) as Hr. cbn in Hr.
    apply orb_true_iff in Hc as [Hc%Z.eqb_eq|Hc%str_eqb_true].
    + pose proof (next_id_fresh br_id _ r Hin). change (t_get Reservations d) with (db_reservations d) in *. lia.
    + rewrite <- Hc in Hr. by rewrite str_eqb_refl in Hr.
  - intros fs' Hc. apply (Hok fs' (next_id br_id (db_reservations d))).
    + unfold reservation. destruct (List.find _ _) as [r|] eqn:E; [|done].
      apply List.find_some in E as [Hin Hr%has_request_spec].
      cut (true = false); [done|]. rewrite <- Hc. symmetry. apply List.existsb_exists. exists r. split; [done|]. cbn.
      rewrite Hr, str_eqb_refl. apply orb_true_r.
    + by apply wf_add_reservation.
Qed.
End Rules.
