(* ===== verification/WildFlowFacts.v ===== *)
(** * WildFlowFacts: what the WildFlow billing statements do to balances

    [off fu fk d0 d]: seen from the tables [d0], in [d] every user's worth
    (wallet plus what the user's operations hold or consumed) is off by [fu],
    every key's by [fk], and every operation moved along the billing life
    cycle.  One lemma per kind of statement says how it changes the deviation;
    a complete operation ends with none. *)

From S2P Require Import Prelude Schema Store Logic Frame Ledger Calendar Quota Subscription SubscriptionFacts Reservation ReservationRules WildFlowOperations WildFlowBilling.
From stdpp Require Import base numbers option strings list.
From Stdlib Require Import ZArith Lia.
Open Scope Z_scope.

(** ** The billing life cycle of an operation *)

Definition in_state (state : string) (r : WildFlowOperation) : bool := str_eqb (op_billing_state r) state.
Definition settled := in_state WildFlowBillingStateSettled.
Definition refunded := in_state WildFlowBillingStateRefunded.
Definition held (r : WildFlowOperation) : bool :=
  in_state WildFlowBillingStateReserved r || in_state WildFlowBillingStateRefunding r.
Definition closed (r : WildFlowOperation) : bool := settled r || refunded r.

Lemma held_not_closed r : held r = true -> closed r = false.
Proof.
  unfold held, closed, settled, refunded, in_state. by intros [->%str_eqb_true | ->%str_eqb_true]%orb_true_iff.
Qed.

(** What an operation holds of, or consumed from, a wallet and a key. *)
Definition charging (r : WildFlowOperation) : bool := held r || settled r.
Definition wallet_charge (u : Z) (r : WildFlowOperation) : Z :=
  if charging r && str_eqb (op_billing_source r) WildFlowBillingSourceWallet && (op_user_id r =? u)
  then op_billing_quota r else 0.
Definition key_charge (t : Z) (r : WildFlowOperation) : Z :=
  if charging r && (op_token_id r =? t) then op_billing_token_quota r else 0.

(** The billing columns of an operation. *)
Definition snapshot (r : WildFlowOperation) :=
  (op_billing_state r, op_billing_source r, op_billing_subscription_id r, op_billing_quota r,
   op_billing_token_quota r, op_billing_amount_micros r, op_billing_billable_units r,
   op_billing_usage_event_id r, op_billing_settled_time r).

Definition closes (r r' : WildFlowOperation) : Prop :=
  op_billing_source r' = op_billing_source r /\
  op_billing_quota r' <= op_billing_quota r /\ op_billing_token_quota r' <= op_billing_token_quota r /\
  (settled r' = true \/
   refunded r' = true /\ op_billing_quota r' = op_billing_quota r /\
   op_billing_token_quota r' = op_billing_token_quota r).

Definition progress (r r' : WildFlowOperation) : Prop :=
  (op_operation_id r', op_user_id r', op_token_id r') = (op_operation_id r, op_user_id r, op_token_id r) /\
  (closed r = true -> snapshot r' = snapshot r) /\
  (held r = true -> snapshot r' = snapshot r \/ closes r r').

Lemma snapshot_state r r' : snapshot r' = snapshot r -> op_billing_state r' = op_billing_state r.
Proof. by intros [=]. Qed.

Lemma progress_same r r' :
  (op_operation_id r', op_user_id r', op_token_id r') = (op_operation_id r, op_user_id r, op_token_id r) ->
  snapshot r' = snapshot r -> progress r r'.
Proof. intros H1 H2. split_and!; [done | done | by left]. Qed.

Lemma progress_refl r : progress r r.
Proof. by apply progress_same. Qed.

Lemma closes_closed r r' : closes r r' -> closed r' = true.
Proof. unfold closes, closed. intros (_ & _ & _ & [->|[-> _]]); [done | apply orb_true_r]. Qed.

Lemma snapshot_class r r' :
  snapshot r' = snapshot r -> closed r' = closed r /\ held r' = held r /\ settled r' = settled r /\ refunded r' = refunded r.
Proof.
  intros H%snapshot_state. unfold closed, held, settled, refunded, in_state. by rewrite H.
Qed.

Lemma progress_trans r1 r2 r3 : progress r1 r2 -> progress r2 r3 -> progress r1 r3.
Proof.
  intros (Hi & Hc & Hh) (Hi' & Hc' & Hh'). split_and!; [congruence | |].
  - intros H. specialize (Hc H). destruct (snapshot_class _ _ Hc) as (H2 & _).
    rewrite <- Hc. apply Hc'. congruence.
  - intros H. destruct (Hh H) as [Hs|Hs].
    + destruct (snapshot_class _ _ Hs) as (_ & H2 & _). rewrite H in H2.
      destruct (Hh' H2) as [Hs'|Hs']; [left; congruence|]. right.
      unfold snapshot in Hs. injection Hs as ? Hsrc ? Hq Ht ????. unfold closes in *.
      rewrite Hsrc, Hq, Ht in Hs'. exact Hs'.
    + right. specialize (Hc' (closes_closed _ _ Hs)).
      destruct (snapshot_class _ _ Hc') as (_ & _ & H3 & H4).
      unfold snapshot in Hc'. injection Hc' as ? Hsrc ? Hq Ht ????. unfold closes in *.
      rewrite H3, H4, Hsrc, Hq, Ht. exact Hs.
Qed.

(** ** Well-formed operations *)

Definition op_ok (r : WildFlowOperation) : Prop :=
  0 <= op_billing_quota r <= max_int64 /\ 0 <= op_billing_token_quota r <= max_int64 /\
  0 <= op_result_validated_time r.

Record wf_ops (d : DB) : Prop := mkWfOps {
  wo_users : unique_key u_id (db_users d);
  wo_tokens : unique_key tk_id (db_tokens d);
  wo_ops : unique_key op_id (db_operations d);
  wo_names : unique_key op_operation_id (db_operations d);
  wo_ok : forall r, In r (db_operations d) -> op_ok r
}.

Definition has_op_id (i : Z) (r : WildFlowOperation) : bool := op_id r =? i.
Lemma has_op_id_spec i r : has_op_id i r = true <-> op_id r = i.
Proof. apply Z.eqb_eq. Qed.
Definition op_row (d : DB) (i : Z) : option WildFlowOperation := List.find (has_op_id i) (db_operations d).

Lemma op_row_in d r : wf_ops d -> In r (db_operations d) -> op_row d (op_id r) = Some r.
Proof. intros Hwf Hin. by apply (find_unique op_id has_op_id has_op_id_spec _ r _ (wo_ops d Hwf)). Qed.

Definition user_worth (d : DB) (u : Z) : Z := wallet d u + sum_rows (wallet_charge u) (db_operations d).
Definition key_worth (d : DB) (t : Z) : Z := key_remain d t + sum_rows (key_charge t) (db_operations d).

Record off (fu fk : Z -> Z) (d0 d : DB) : Prop := mkOff {
  off_wf : wf_ops d;
  off_live : forall u, live_user d u = live_user d0 u;
  off_tokens : forall t, tk_deleted <$> token_row d t = tk_deleted <$> token_row d0 t;
  off_user : forall u, live_user d0 u = true -> user_worth d u = user_worth d0 u + fu u;
  off_key : forall t, 0 < t -> is_Some (token_row d0 t) -> key_worth d t = key_worth d0 t + fk t;
  off_total : forall t, key_remain d t + key_used d t = key_remain d0 t + key_used d0 t;
  off_ops : forall i r, op_row d0 i = Some r -> exists r', op_row d i = Some r' /\ progress r r'
}.

Abbreviation zero := (fun _ : Z => 0).
Definition balanced (d0 d : DB) : Prop := off zero zero d0 d.

Lemma off_ext fu fk fu' fk' d0 d :
  off fu fk d0 d -> (forall v, fu v = fu' v) -> (forall v, 0 < v -> fk v = fk' v) -> off fu' fk' d0 d.
Proof.
  intros [] Hu Hk. split; try done; intros; rewrite <- ?Hu, <- ?Hk by done; auto.
Qed.

Lemma balanced_refl d : wf_ops d -> balanced d d.
Proof. intros H. split; try done; intros; rewrite ?Z.add_0_r; try done. eexists. split; [done | apply progress_refl]. Qed.

Lemma balanced_trans d1 d2 d3 : balanced d1 d2 -> balanced d2 d3 -> balanced d1 d3.
Proof.
  intros [] []. split; try done.
  - intros u. by rewrite off_live1.
  - intros t. by rewrite off_tokens1.
  - intros u Hu. rewrite off_user1 by (by rewrite off_live0). rewrite off_user0 by done. lia.
  - intros t Ht Hs. rewrite off_key1, off_key0; try done; [lia|].
    apply fmap_is_Some with tk_deleted. rewrite off_tokens0. by apply fmap_is_Some.
  - intros t. by rewrite off_total1.
  - intros i r Hr. destruct (off_ops0 i r Hr) as (r2 & Hr2 & Hp). destruct (off_ops1 i r2 Hr2) as (r3 & Hr3 & Hp').
    exists r3. split; [done|]. by eapply progress_trans.
Qed.

(** ** One statement *)

Section Statements.
Context (fu fk : Z -> Z) (d0 d : DB) (Hoff : off fu fk d0 d).

Definition worth_view (d : DB) := (db_users d, db_tokens d, db_operations d).

Lemma off_frame d' : worth_view d' = worth_view d -> off fu fk d0 d'.
Proof.
  intros H. destruct Hoff as [[] Hl Ht Hu Hk Hs Ho]. unfold worth_view in H.
  destruct d, d'; cbn in *. injection H as -> -> ->.
  split; [by split | exact Hl | exact Ht | exact Hu | exact Hk | exact Hs | exact Ho].
Qed.

(** An update of one user's row, by primary key. *)
Lemma off_update_user u x f :
  (forall r, u_id (f r) = u_id r /\ u_deleted (f r) = u_deleted r /\ u_quota (f r) = u_quota r + x) ->
  off (fun v => fu v + (if v =? u then x else 0)) fk d0
    (t_set Users (upd_rows (user_where (fun r => u_id r =? u)) f (db_users d)) d).
Proof.
  intros Hf. destruct Hoff as [[] Hl ? Hw ? ? ?].
  set (p := user_where (fun r => u_id r =? u)). set (d' := t_set Users _ d).
  assert (forall v, user_row d' v = (fun r => if p r then f r else r) <$> user_row d v) as Hrow.
  { intros v. apply find_upd_stable. intros r. unfold has_user. by destruct (Hf r) as [-> _]. }
  assert (forall v, live_user d' v = live_user d v) as Hlive.
  { intros v. unfold live_user. rewrite Hrow. destruct (user_row d v) as [r|]; [|done]. cbn.
    destruct (p r); [|done]. by destruct (Hf r) as (_ & -> & _). }
  split; try done.
  - split; try done. apply upd_unique; [|done]. intros r. apply Hf.
  - intros v. by rewrite Hlive.
  - intros v Hv. specialize (Hw v Hv). rewrite <- Hl in Hv. unfold user_worth, wallet in *. rewrite Hrow.
    unfold live_user in Hv. destruct (user_row d v) as [r|] eqn:E; [|done]. cbn in *.
    apply List.find_some in E as [_ E%has_user_spec]. unfold p, user_where. rewrite Hv, E. cbn.
    destruct (v =? u); [|lia]. destruct (Hf r) as (_ & _ & ->). lia.
Qed.

(** An update of one existing key's row. *)
Lemma off_update_token t x p f r :
  token_row d t = Some r -> (forall r', p r' = true -> tk_id r' = t) -> p r = true ->
  (forall r', tk_id (f r') = tk_id r' /\ tk_deleted (f r') = tk_deleted r' /\
     tk_remain_quota (f r') = tk_remain_quota r' + x /\ tk_used_quota (f r') = tk_used_quota r' - x) ->
  off fu (fun v => fk v + (if v =? t then x else 0)) d0 (t_set Tokens (upd_rows p f (db_tokens d)) d).
Proof.
  intros Hr Hp Hpr Hf. destruct Hoff as [[] ? Ht ? Hk Htot ?]. set (d' := t_set Tokens _ d).
  assert (forall v, token_row d' v = (fun r' => if v =? t then f r' else r') <$> token_row d v) as Hrow.
  { intros v. unfold d', token_row; cbn.
    rewrite (upd_rows_one tk_id has_token has_token_spec p f f t r _ wo_tokens0 Hr Hp Hpr eq_refl).
    rewrite find_upd_stable by (intros r'; unfold has_token; by destruct (Hf r') as [-> _]).
    destruct (List.find _ _) as [r'|] eqn:E; [|done]. cbn.
    apply List.find_some in E as [_ E%has_token_spec]. unfold has_token. by rewrite E. }
  split; try done.
  - split; try done. apply upd_unique; [|done]. intros r'. apply Hf.
  - intros v. rewrite <- Ht, Hrow. destruct (token_row d v) as [r'|]; [|done]. cbn.
    destruct (v =? t); [|done]. by destruct (Hf r') as (_ & -> & _).
  - intros v Hv Hs. specialize (Hk v Hv Hs). unfold key_worth, key_remain in *. rewrite Hrow.
    destruct (Z.eqb_spec v t) as [->|]; [|destruct (token_row d v); cbn in *; lia]. rewrite Hr in *. cbn in *.
    destruct (Hf r) as (_ & _ & -> & _). lia.
  - intros v. rewrite <- Htot. unfold key_remain, key_used. rewrite Hrow.
    destruct (Z.eqb_spec v t) as [->|]; [|by destruct (token_row d v)]. rewrite Hr. cbn.
    destruct (Hf r) as (_ & _ & -> & ->). lia.
Qed.

(** An update of one operation's row. *)
Lemma off_update_op i p f r :
  op_row d i = Some r -> (forall r', p r' = true -> op_id r' = i) -> p r = true ->
  (forall r', op_id (f r') = op_id r') -> progress r (f r) -> op_ok (f r) ->
  off (fun v => fu v + (wallet_charge v (f r) - wallet_charge v r))
      (fun v => fk v + (key_charge v (f r) - key_charge v r)) d0
    (t_set Operations (upd_rows p f (db_operations d)) d).
Proof.
  intros Hr Hp Hpr Hf Hprog Hok. destruct Hoff as [[] ? ? Hu Hk ? Ho]. set (d' := t_set Operations _ d).
  assert (forall g, sum_rows g (db_operations d') = sum_rows g (db_operations d) + (g (f r) - g r)) as Hsum.
  { intros g. unfold d'; cbn. rewrite (sum_upd_one op_id has_op_id has_op_id_spec g p f i r) by done. by rewrite Hpr. }
  assert (db_operations d' = upd_rows (has_op_id i) f (db_operations d)) as Hops.
  { unfold d'; cbn. by apply (upd_rows_one op_id has_op_id has_op_id_spec p f f i r). }
  split; try done.
  - split; try done.
    + rewrite Hops. by apply upd_unique.
    + unfold unique_key. rewrite Hops, fmap_upd_kept; [done|]. intros r' Hin E%has_op_id_spec.
      pose proof (find_unique op_id has_op_id has_op_id_spec i r' _ wo_ops0 Hin E) as H.
      unfold op_row in Hr. rewrite Hr in H. injection H as <-. by destruct Hprog as ([= ?] & _).
    + rewrite Hops. intros r' [r0 [Hr0 Hin]]%in_map_iff. destruct (has_op_id i r0) eqn:E; subst; [|auto].
      apply has_op_id_spec in E.
      pose proof (find_unique op_id has_op_id has_op_id_spec i r0 _ wo_ops0 Hin E) as H.
      unfold op_row in Hr. by rewrite Hr in H; injection H as <-.
  - intros v Hv. specialize (Hu v Hv). unfold user_worth in *. rewrite Hsum.
    change (wallet d' v) with (wallet d v). lia.
  - intros v Hv Hs. specialize (Hk v Hv Hs). unfold key_worth in *. rewrite Hsum.
    change (key_remain d' v) with (key_remain d v). lia.
  - intros j r0 Hr0. destruct (Ho j r0 Hr0) as (r1 & Hr1 & Hp1). unfold op_row at 1. rewrite Hops.
    rewrite find_upd_stable by (intros r'; unfold has_op_id; by rewrite Hf).
    unfold op_row in Hr1. rewrite Hr1. cbn. eexists. split; [done|].
    destruct (has_op_id i r1) eqn:E; [|done]. apply has_op_id_spec in E.
    pose proof (find_unique op_id has_op_id has_op_id_spec i r1 _ wo_ops0 (proj1 (List.find_some _ _ Hr1)) E) as H.
    unfold op_row in Hr. rewrite Hr in H. injection H as ->. by eapply progress_trans.
Qed.

(** An update of operations that leaves their charges alone. *)
Lemma off_neutral_op p f :
  (forall r, p r = true -> op_ok r -> op_id (f r) = op_id r /\ progress r (f r) /\ op_ok (f r) /\
     (forall v, wallet_charge v (f r) = wallet_charge v r) /\ (forall v, key_charge v (f r) = key_charge v r)) ->
  off fu fk d0 (t_set Operations (upd_rows p f (db_operations d)) d).
Proof.
  intros Hf. destruct Hoff as [[] ? ? Hu Hk ? Ho]. set (d' := t_set Operations _ d).
  pose proof (fun g => sum_upd_kept p f g (db_operations d)) as Hsum.
  assert (forall r, In r (db_operations d) -> p r = true -> op_id (f r) = op_id r) as Hid by (intros; apply Hf; auto).
  assert (forall i, op_row d' i = (fun r => if p r then f r else r) <$> op_row d i) as Hrow.
  { intros i. apply find_upd_kept. intros r Hin Hpr. unfold has_op_id. by rewrite Hid. }
  split; try done.
  - split; try done.
    + unfold unique_key, d'; cbn. by rewrite fmap_upd_kept.
    + unfold unique_key, d'; cbn. rewrite fmap_upd_kept; [done|]. intros r Hin Hpr.
      destruct (Hf r Hpr (wo_ok0 r Hin)) as (_ & ([= ? _ _] & _) & _). done.
    + intros r' [r0 [Hr0 Hin]]%in_map_iff. destruct (p r0) eqn:E; subst; [|auto]. apply Hf; auto.
  - intros v Hv. specialize (Hu v Hv). unfold user_worth in *. change (db_operations d') with (upd_rows p f (db_operations d)). rewrite Hsum by (intros; apply Hf; auto).
    change (wallet d' v) with (wallet d v). lia.
  - intros v Hv Hs. specialize (Hk v Hv Hs). unfold key_worth in *. change (db_operations d') with (upd_rows p f (db_operations d)). rewrite Hsum by (intros; apply Hf; auto).
    change (key_remain d' v) with (key_remain d v). lia.
  - intros j r0 Hr0. destruct (Ho j r0 Hr0) as (r1 & Hr1 & Hp1). rewrite Hrow, Hr1. cbn. eexists. split; [done|].
    destruct (p r1) eqn:E; [|done]. eapply progress_trans; [done|]. apply Hf; [done|].
    by apply wo_ok0, (List.find_some _ _ Hr1).
Qed.

(** A new operation that charges nothing. *)
Lemma off_create_op r :
  (forall r', In r' (db_operations d) -> op_id r' <> op_id r /\ op_operation_id r' <> op_operation_id r) -> op_ok r -> charging r = false ->
  off fu fk d0 (t_set Operations (db_operations d ++ [r]) d).
Proof.
  intros Hn Hok Hc. destruct Hoff as [[] ? ? Hu Hk ? Ho]. set (d' := t_set Operations _ d).
  split; try done.
  - split; try done; unfold d'; cbn.
    + apply app_unique; [done|]. intros r' Hin. by apply Hn.
    + apply app_unique; [done|]. intros r' Hin. by apply Hn.
    + intros r' [?|[<-|[]]]%in_app_or; auto.
  - intros v Hv. specialize (Hu v Hv). unfold user_worth in *. change (db_operations d') with (db_operations d ++ [r]). rewrite sum_rows_app. cbn [sum_rows].
    assert (wallet_charge v r = 0) as -> by (unfold wallet_charge; by rewrite Hc). change (wallet d' v) with (wallet d v). lia.
  - intros v Hv Hs. specialize (Hk v Hv Hs). unfold key_worth in *. change (db_operations d') with (db_operations d ++ [r]). rewrite sum_rows_app. cbn [sum_rows].
    assert (key_charge v r = 0) as -> by (unfold key_charge; by rewrite Hc). change (key_remain d' v) with (key_remain d v). lia.
  - intros j r0 Hr0. destruct (Ho j r0 Hr0) as (r1 & Hr1 & Hp1). exists r1. split; [|done].
    unfold op_row, d' in *; cbn. rewrite find_app. by rewrite Hr1.
Qed.
End Statements.
