(* ===== verification/WildFlowBooks.v ===== *)
(** * WildFlowBooks: every WildFlow operation leaves the books balanced

    For each transaction of [WildFlowBilling] the deviation of [WildFlowFacts]
    is followed through its statements and cancels at the end; hence so does
    every operation, whatever the driver answers. *)

From S2P Require Import Prelude Schema Store Logic Frame Ledger Calendar Quota Subscription SubscriptionFacts Reservation ReservationRules WildFlowOperations WildFlowBilling WildFlowFacts.
From stdpp Require Import base numbers option strings list sorting.
From Stdlib Require Import ZArith Lia.
Open Scope Z_scope.

(** ** Frames *)

Lemma keeps_coarser {A X Y} (view : DB -> X) (view' : DB -> Y) (c : M A) :
  (forall d d', view d' = view d -> view' d' = view' d) ->
  respects (keeps view) c -> respects (keeps view') c.
Proof. intros Hv Hc e s. destruct (Hc e s) as [H1 H2]. split; [by apply Hv | done]. Qed.

Lemma no_subs_worth d d' : no_subs d' = no_subs d -> worth_view d' = worth_view d.
Proof.
  intros H. unfold worth_view. rewrite (no_subs_users _ _ H), (no_subs_tokens _ _ H).
  assert (db_operations d' = db_operations d) as -> by exact (f_equal db_operations H). done.
Qed.

Local Abbreviation aside := (respects (keeps worth_view)).

Lemma preConsume_aside rid u a : aside (preConsumeUserSubscriptionTx rid u a).
Proof. eapply keeps_coarser; [exact no_subs_worth | apply preConsume_frame]. Qed.
Lemma refundSub_aside rid : aside (refundSubscriptionPreConsumeTx rid).
Proof. eapply keeps_coarser; [exact no_subs_worth | apply refund_frame]. Qed.
Lemma postConsume_aside i delta : aside (postConsumeUserSubscriptionDeltaTx i delta).
Proof. eapply keeps_coarser; [exact no_subs_worth | apply postConsume_frame]. Qed.
Lemma audit_aside operation logType content : aside (ensureWildFlowCanonicalBillingLogTx operation logType content).
Proof. unfold ensureWildFlowCanonicalBillingLogTx. respects_auto. Qed.
Lemma ingest_aside event : aside (ingest_event event).
Proof. unfold ingest_event. respects_auto. Qed.

(** ** Every transaction balances *)

(** A computation that, when it returns, has left the books balanced. *)
Definition balancing {A} (d0 : DB) (r : result A) (s' : St) : Prop :=
  match r with inl _ => True | inr _ => balanced d0 (st_db s') end.

(** ... and [f] is what happened to the operation [r], and to no other. *)
Definition effected (d0 : DB) (r : WildFlowOperation) (f : WildFlowOperation -> WildFlowOperation) (d' : DB) : Prop :=
  balanced d0 d' /\ op_row d0 (op_id r) = Some r /\
  db_operations d' = upd_rows (has_op_id (op_id r)) f (db_operations d0).

(** [post w d'] for a returned [w], which implies balanced books. *)
Definition returning {A} (d0 : DB) (post : A -> DB -> Prop) (r : result A) (s' : St) : Prop :=
  match r with inl _ => True | inr a => balanced d0 (st_db s') /\ post a (st_db s') end.

(** A row in the order of the query. *)
Lemma fold_min_in {R} (before : R -> R -> bool) rest r :
  In (List.fold_left (fun m x => if before x m then x else m) rest r) (r :: rest).
Proof.
  revert r. induction rest as [|x rest IH]; intros r; [by left|]. cbn [List.fold_left].
  destruct (IH (if before x r then x else r)) as [H|H]; [|by right; right].
  rewrite <- H. destruct (before x r); [by right; left | by left].
Qed.

Lemma wp_find_first_by {R} (T : Table R) before p (Q : result R -> St -> Prop) e d fs tr :
  (forall k fs', Q (inl (ErrDriver k)) (mkSt d fs' tr)) ->
  (forall fs', Q (inl ErrRecordNotFound) (mkSt d fs' tr)) ->
  (forall fs' r, In r (t_get T d) -> p r = true -> Q (inr r) (mkSt d fs' tr)) ->
  wp (find_first_by T before p) Q e (mkSt d fs tr).
Proof.
  intros Hk Hn Hs. apply wp_stmt; [done|]. intros fs'. destruct (List.filter p (t_get T d)) as [|r rest] eqn:E; [done|].
  pose proof (fold_min_in before rest r) as Hm. rewrite <- E in Hm. apply filter_In in Hm as [Hin Hp]. by apply Hs.
Qed.

Section Balance.
Context (e : Env) (d0 : DB).

Lemma wp_aside {A} (c : M A) (Q : result A -> St -> Prop) fu fk d fs tr :
  aside c -> off fu fk d0 d ->
  (forall err s', Q (inl err) s') ->
  (forall a d' fs', off fu fk d0 d' -> worth_view d' = worth_view d -> Q (inr a) (mkSt d' fs' tr)) ->
  wp c Q e (mkSt d fs tr).
Proof.
  intros Hc Hoff Herr Hok. apply (wp_keeps worth_view); [done|]. intros [err|a] d' fs' Hv; [apply Herr|].
  apply Hok; [|done]. by apply (off_frame _ _ _ d).
Qed.

Lemma wp_load operationID (Q : result WildFlowOperation -> St -> Prop) d fs tr :
  wf_ops d -> (forall err s', Q (inl err) s') ->
  (forall r fs', op_row d (op_id r) = Some r -> op_ok r -> op_operation_id r = operationID -> Q (inr r) (mkSt d fs' tr)) ->
  wp (find_first Operations (has_operation operationID)) Q e (mkSt d fs tr).
Proof.
  intros Hwf Herr Hok. apply wp_find_first; [intros; apply Herr..|].
  intros fs' r [Hin Hk%str_eqb_true]%List.find_some. apply Hok; [by apply op_row_in | by apply (wo_ok d Hwf) | done].
Qed.

Lemma wp_reserve_token operation quote (Q : result (string * Z) -> St -> Prop) fu fk d fs tr :
  off fu fk d0 d -> 0 <= qt_Quota quote ->
  (forall err s', Q (inl err) s') ->
  (forall key tq d' fs',
     off fu (fun v => fk v + (if v =? op_token_id operation then - tq else 0)) d0 d' ->
     db_operations d' = db_operations d -> 0 <= tq <= qt_Quota quote ->
     Q (inr (key, tq)) (mkSt d' fs' tr)) ->
  wp (reserve_operation_token operation quote) Q e (mkSt d fs tr).
Proof.
  intros Hoff Hq Herr Hok.
  assert (forall key fs', Q (inr (key, 0)) (mkSt d fs' tr)) as Hnone.
  { intros key fs'. apply Hok; [| done | lia]. eapply off_ext; [exact Hoff | done |].
    intros v. by destruct (_ =? _); lia. }
  unfold reserve_operation_token. wp_step; [wp_steps; apply Hnone|].
  wp_step. apply wp_find_first; [intros; apply Herr..|]. intros fs1 t Ht. cbn beta iota.
  apply List.find_some in Ht as [Hin Hp]. unfold token_where in Hp.
  apply andb_true_iff in Hp as [Hdel [Hid%Z.eqb_eq Hu]%andb_true_iff].
  assert (token_row d (tk_id t) = Some t) as Hrow
    by (by apply (find_unique tk_id has_token has_token_spec); [apply (off_wf _ _ _ _ Hoff) | |]).
  wp_step; [wp_steps; apply Hnone|]. wp_step; [wp_steps; apply Herr|]. do 2 wp_step. cbn beta iota. wp_step.
  apply wp_update; [intros; apply Herr|]. intros fs2. cbn beta iota. wp_steps. apply Hok; [| done | lia].
  eapply off_ext; [|done|]; [eapply (off_update_token fu fk d0 d Hoff (tk_id t) (- qt_Quota quote)); [exact Hrow| | |]|].
  - unfold token_where. intros r' [_ H%Z.eqb_eq]%andb_true_iff. exact H.
  - unfold token_where. rewrite Hdel, Z.eqb_refl. done.
  - intros r'. unfold token_touch, token_debit; cbn. split_and!; try done; lia.
  - intros v. by rewrite Hid.
Qed.

(** Deviations that cancel. *)
Lemma balanced_off fu fk d :
  off fu fk d0 d -> (forall v, live_user d0 v = true -> fu v = 0) ->
  (forall v, 0 < v -> fk v = 0) -> balanced d0 d.
Proof.
  intros [] Hu Hk. split; try done.
  - intros v Hv. rewrite off_user by done. by rewrite Hu.
  - intros v Hv Hs. rewrite off_key by done. by rewrite Hk.
Qed.

Lemma fresh_charges r v : held r = false -> closed r = false -> wallet_charge v r = 0 /\ key_charge v r = 0.
Proof.
  unfold wallet_charge, key_charge, charging, closed. intros -> [-> _]%orb_false_iff. done.
Qed.

Lemma can_reserve operation quote :
  ensureWildFlowBillingCanReserve operation quote = inr true -> held operation = false /\ closed operation = false.
Proof.
  unfold ensureWildFlowBillingCanReserve, held, closed, settled, refunded, in_state.
  destruct (str_eqb _ WildFlowBillingStateReserved) eqn:E1; cbn [orb]; [by destruct (negb _)|].
  destruct (str_eqb _ WildFlowBillingStateSettled) eqn:E2; cbn [orb]; [by destruct (negb _)|].
  intros H. assert (op_billing_state operation = ""%string \/ op_billing_state operation = WildFlowBillingStatePending) as [-> | ->].
  { destruct (str_eqb _ "") eqn:E3; [left; by apply str_eqb_true|]. cbn in H.
    destruct (str_eqb _ WildFlowBillingStatePending) eqn:E4; [right; by apply str_eqb_true | done]. }
  all: done.
Qed.

(** The snapshot of a reservation: what the operation now holds. *)
Lemma wp_store_snapshot operation quote source subscriptionID tq
    (Q : result WildFlowOperation -> St -> Prop) fu fk d fs tr :
  off fu fk d0 d -> op_row d (op_id operation) = Some operation ->
  held operation = false -> closed operation = false ->
  0 <= qt_Quota quote <= max_int64 -> 0 <= tq <= qt_Quota quote -> op_ok operation ->
  (forall err s', Q (inl err) s') ->
  (forall d' fs',
     let f := wildFlowBillingSnapshotUpdates quote source subscriptionID tq (env_now e) in
     off (fun v => fu v + (if str_eqb source WildFlowBillingSourceWallet && (op_user_id operation =? v)
                           then qt_Quota quote else 0))
         (fun v => fk v + (if op_token_id operation =? v then tq else 0)) d0 d' ->
     db_operations d' = upd_rows (has_op_id (op_id operation)) f (db_operations d) ->
     Q (inr (f operation)) (mkSt d' fs' tr)) ->
  wp (store_snapshot operation quote source subscriptionID tq) Q e (mkSt d fs tr).
Proof.
  intros Hoff Hrow Hh Hc Hq Ht (_ & _ & Hv) Herr Hok. unfold store_snapshot. do 2 wp_step. cbn beta iota. wp_step.
  apply wp_update; [intros; apply Herr|]. intros fs1. cbn beta iota.
  apply wp_find_first; [intros; apply Herr..|]. intros fs2 r Hr.
  assert (r = wildFlowBillingSnapshotUpdates quote source subscriptionID tq (env_now e) operation) as ->.
  { cbn [t_get t_set Operations db_operations] in Hr. rewrite find_upd_stable in Hr by done.
    change (fun r => op_id r =? op_id operation) with (has_op_id (op_id operation)) in Hr.
    unfold op_row in Hrow. rewrite Hrow in Hr. cbn in Hr. rewrite Z.eqb_refl in Hr. by injection Hr. }
  apply Hok; [|done].
  eapply off_ext; [eapply (off_update_op fu fk d0 d Hoff (op_id operation)); [exact Hrow| | | | |]|..].
  - intros r' H%Z.eqb_eq. exact H.
  - apply Z.eqb_refl.
  - done.
  - split; [done|]. rewrite Hh, Hc. done.
  - unfold op_ok; cbn. lia.
  - intros v. destruct (fresh_charges operation v Hh Hc) as [-> _]. unfold wallet_charge; cbn. by rewrite Z.sub_0_r.
  - intros v. destruct (fresh_charges operation v Hh Hc) as [_ ->]. unfold key_charge; cbn. by rewrite Z.sub_0_r.
Qed.

Lemma reserve_wallet_balanced id quote fs tr :
  wf_ops d0 -> 0 <= qt_Quota quote <= max_int64 ->
  wp (reserveWildFlowWalletBillingTx id quote) (returning d0 (fun w d' =>
    if wr_changed w then exists r tq sub,
      op_operation_id r = id /\ held r = false /\ closed r = false /\ 0 <= tq <= qt_Quota quote /\
      let f := wildFlowBillingSnapshotUpdates quote WildFlowBillingSourceWallet sub tq (env_now e) in
      wr_result w = f r /\ effected d0 r f d'
    else d' = d0 /\ op_row d0 (op_id (wr_result w)) = Some (wr_result w) /\
         op_operation_id (wr_result w) = id /\
         ensureWildFlowBillingCanReserve (wr_result w) quote = inr false)) e (mkSt d0 fs tr).
Proof.
  intros Hwf Hq. unfold reserveWildFlowWalletBillingTx, loadWildFlowOperationForBilling. wp_step.
  apply wp_load; [done | done|]. intros r fs1 Hrow Hrok Hid. cbn beta iota. do 2 wp_step.
  destruct (ensureWildFlowBillingCanReserve r quote) as [err|[]] eqn:Ecan; cbn [negb]; [done | |].
  2:{ wp_steps. split; [by apply balanced_refl | done]. }
  destruct (can_reserve r quote Ecan) as [Hh Hc]. wp_step. apply wp_find_first; [done | done|].
  intros fs2 u _. cbn beta iota. wp_step; [done|]. wp_step.
  apply (wp_reserve_token r quote _ zero zero); [by apply balanced_refl | lia | done|].
  intros key tq d1 fs3 Hoff1 Hops Htq. cbn beta iota. wp_step. apply wp_update; [done|]. intros fs4. cbn beta iota.
  pose proof (off_update_user _ _ d0 d1 Hoff1 (op_user_id r) (- qt_Quota quote)
    (fun u => u <| u_quota ::= fun q => q - qt_Quota quote |>)) as Hoff2.
  wp_step. eapply wp_store_snapshot; [apply Hoff2; intros; split_and!; try done; cbn; lia | | done | done | done | done | done | done|].
  { unfold op_row in *; cbn. by rewrite Hops. }
  intros d2 fs5 f Hoff3 Hops3. cbn beta iota. wp_steps.
  assert (balanced d0 d2) as Hb.
  { eapply balanced_off; [exact Hoff3 | |]; intros v Hv; cbn.
    - rewrite (Z.eqb_sym (op_user_id r)). destruct (v =? op_user_id r); lia.
    - rewrite (Z.eqb_sym (op_token_id r)). destruct (v =? op_token_id r); lia. }
  split; [exact Hb|]. cbn [wr_changed wr_result]. subst f. exists r, tq, 0.
  refine (conj Hid (conj Hh (conj Hc (conj Htq _)))). cbv zeta. split; [reflexivity|]. split_and!; [exact Hb | exact Hrow|].
  exact (eq_trans Hops3 (f_equal (upd_rows _ _) Hops)).
Qed.

Lemma reserve_subscription_balanced id quote fs tr :
  wf_ops d0 -> 0 <= qt_Quota quote <= max_int64 ->
  wp (reserveWildFlowSubscriptionBillingTx id quote) (returning d0 (fun w d' =>
    if wr_changed w then exists r tq sub,
      op_operation_id r = id /\ held r = false /\ closed r = false /\ 0 <= tq <= qt_Quota quote /\
      let f := wildFlowBillingSnapshotUpdates quote WildFlowBillingSourceSubscription sub tq (env_now e) in
      wr_result w = f r /\ effected d0 r f d'
    else d' = d0 /\ op_row d0 (op_id (wr_result w)) = Some (wr_result w) /\
         op_operation_id (wr_result w) = id /\
         ensureWildFlowBillingCanReserve (wr_result w) quote = inr false)) e (mkSt d0 fs tr).
Proof.
  intros Hwf Hq. unfold reserveWildFlowSubscriptionBillingTx, loadWildFlowOperationForBilling. wp_step.
  apply wp_load; [done | done|]. intros r fs1 Hrow Hrok Hid. cbn beta iota. do 2 wp_step.
  destruct (ensureWildFlowBillingCanReserve r quote) as [err|[]] eqn:Ecan; cbn [negb]; [done | |].
  2:{ wp_steps. split; [by apply balanced_refl | done]. }
  destruct (can_reserve r quote Ecan) as [Hh Hc]. wp_step.
  apply (wp_aside _ _ zero zero); [apply preConsume_aside | by apply balanced_refl | done|].
  intros pre d1 fs2 Hoff1 Hv. cbn beta iota. wp_step.
  apply (wp_reserve_token r quote _ _ _ _ _ _ Hoff1); [lia | done|].
  intros key tq d2 fs3 Hoff2 Hops Htq. cbn beta iota. wp_step.
  eapply wp_store_snapshot; [exact Hoff2 | | done | done | done | done | done | done|].
  { unfold op_row in *. rewrite Hops. injection Hv as _ _ Hv. by rewrite Hv. }
  intros d3 fs5 f Hoff3 Hops3. cbn beta iota. wp_steps.
  assert (balanced d0 d3) as Hb.
  { eapply balanced_off; [exact Hoff3 | done |]; intros v Hv'; cbn.
    rewrite (Z.eqb_sym (op_token_id r)). destruct (v =? op_token_id r); lia. }
  split; [exact Hb|]. cbn [wr_changed wr_result]. subst f. exists r, tq, (pr_UserSubscriptionId pre).
  refine (conj Hid (conj Hh (conj Hc (conj Htq _)))). cbv zeta. split; [reflexivity|]. split_and!; [exact Hb | exact Hrow|].
  injection Hv as _ _ Hv. exact (eq_trans Hops3 (f_equal (upd_rows _ _) (eq_trans Hops Hv))).
Qed.

(** *** Settlement *)

Lemma usage_bounds r event usage :
  op_ok r -> wildFlowActualUsageBilling r event = inr usage ->
  0 <= wu_quota usage <= max_int64 /\ 0 <= wu_tokenQuota usage <= max_int64.
Proof.
  intros (Hq & Ht & _). unfold wildFlowActualUsageBilling. destruct (negb _); [by intros [= <-]|].
  destruct (_ || _ || _); [done|].
  set (q := ceilProportionalInt64 (op_billing_quota r) _ _). set (t := ceilProportionalInt64 (op_billing_token_quota r) _ _).
  set (m := ceilProportionalInt64 _ _ _).
  destruct (m <=? 0); [done|]. destruct (Z.leb_spec q 0); [done|]. destruct (Z.ltb_spec max_int64 q); [done|].
  destruct (Z.ltb_spec t 0); [done|]. destruct (Z.ltb_spec max_int64 t); [done|]. intros [= <-]. cbn. lia.
Qed.

Lemma wp_return_user operation x actual (Q : result unit -> St -> Prop) fu fk d fs tr :
  off fu fk d0 d -> 0 <= x ->
  (forall err s', Q (inl err) s') ->
  (forall d' fs',
     off (fun v => fu v + (if str_eqb (op_billing_source operation) WildFlowBillingSourceWallet &&
                              (op_user_id operation =? v) then x else 0)) fk d0 d' ->
     db_operations d' = db_operations d -> db_tokens d' = db_tokens d -> Q (inr tt) (mkSt d' fs' tr)) ->
  wp (when (0 <? x) (return_user_quota operation x actual)) Q e (mkSt d fs tr).
Proof.
  intros Hoff Hx Herr Hok. wp_step.
  2:{ apply Z.ltb_ge in H. apply Hok; [|done..]. eapply off_ext; [exact Hoff | | done].
      intros v. destruct (_ && _); lia. }
  unfold return_user_quota. destruct (str_eqb _ WildFlowBillingSourceWallet) eqn:Es.
  - wp_step. apply wp_update; [intros; apply Herr|]. intros fs1. cbn beta iota. wp_steps. apply Hok; [|done..].
    eapply off_ext; [eapply (off_update_user fu fk d0 d Hoff (op_user_id operation) x); intros; split_and!; done | | done].
    intros v. cbn. by rewrite Z.eqb_sym.
  - destruct (str_eqb _ WildFlowBillingSourceSubscription); [|wp_steps; apply Herr].
    apply (wp_aside _ _ fu fk); [|done|done|].
    { apply respects_bind; [apply _ | apply postConsume_aside |]. respects_auto. }
    intros [] d' fs' Hoff' Hv. injection Hv as _ Ht Ho. apply Hok; [|done..].
    eapply off_ext; [exact Hoff' | | done]. intros v. cbn. lia.
Qed.

(** A scoped credit of an existing key. *)
Lemma wp_return_token operation x (Q : result string -> St -> Prop) fu fk d fs tr :
  off fu fk d0 d -> 0 <= x ->
  (forall err s', Q (inl err) s') ->
  (forall key d' fs',
     off fu (fun v => fk v + (if op_token_id operation =? v then x else 0)) d0 d' ->
     db_operations d' = db_operations d -> Q (inr key) (mkSt d' fs' tr)) ->
  wp (return_token_quota operation x) Q e (mkSt d fs tr).
Proof.
  intros Hoff Hx Herr Hok. unfold return_token_quota. wp_step.
  { wp_steps. apply Hok; [|done]. eapply off_ext; [exact Hoff | done|]. intros v Hv.
    apply negb_true_iff, andb_false_iff in Heqb as [H%Z.ltb_ge|H%Z.ltb_ge].
    - destruct (_ =? _); lia.
    - destruct (Z.eqb_spec (op_token_id operation) v); lia. }
  wp_step. apply wp_find_first; [intros; apply Herr..|]. intros fs1 t Ht. cbn beta iota.
  apply List.find_some in Ht as [Hin Hp]. unfold token_where in Hp.
  apply andb_true_iff in Hp as [Hdel [Hid%Z.eqb_eq Hu]%andb_true_iff].
  assert (token_row d (tk_id t) = Some t) as Hrow
    by (by apply (find_unique tk_id has_token has_token_spec); [apply (off_wf _ _ _ _ Hoff) | |]).
  wp_step. apply wp_update; [intros; apply Herr|]. intros fs2. cbn beta iota. wp_steps. apply Hok; [| done].
  eapply off_ext; [eapply (off_update_token fu fk d0 d Hoff (tk_id t) x); [exact Hrow| | |]|done|].
  - unfold token_where. intros r' [_ H%Z.eqb_eq]%andb_true_iff. exact H.
  - unfold token_where. rewrite Hdel, Z.eqb_refl. done.
  - done.
  - intros v Hv. cbn. by rewrite Hid, Z.eqb_sym.
Qed.

Lemma charge_change r f v :
  charging r = true -> charging f = true ->
  (op_billing_source f, op_user_id f, op_token_id f) = (op_billing_source r, op_user_id r, op_token_id r) ->
  wallet_charge v f - wallet_charge v r =
    (if str_eqb (op_billing_source r) WildFlowBillingSourceWallet && (op_user_id r =? v)
     then op_billing_quota f - op_billing_quota r else 0) /\
  key_charge v f - key_charge v r =
    (if op_token_id r =? v then op_billing_token_quota f - op_billing_token_quota r else 0).
Proof.
  intros Hr Hf [= Hs Hu Ht]. unfold wallet_charge, key_charge. rewrite Hr, Hf, Hs, Hu, Ht. cbn.
  split; [destruct (_ && _) | destruct (_ =? _)]; lia.
Qed.

Lemma settle_usage_balanced r eventID usage fs tr :
  wf_ops d0 -> op_row d0 (op_id r) = Some r -> op_ok r ->
  in_state WildFlowBillingStateReserved r = true -> str_eqb (op_state r) "succeeded" = true ->
  str_eqb (op_result_json r) "" = false -> op_result_validated_time r <> 0 ->
  0 <= wu_quota usage <= max_int64 /\ 0 <= wu_tokenQuota usage <= max_int64 ->
  wp (settle_usage r eventID usage) (returning d0 (fun w d' =>
    let f := settled_snapshot usage eventID (env_now e) in
    ws_changed w = true /\ ws_result w = f r /\ wu_quota usage <= op_billing_quota r /\
    wu_tokenQuota usage <= op_billing_token_quota r /\ effected d0 r f d')) e (mkSt d0 fs tr).
Proof.
  intros Hwf Hrow (Hq & Ht & Hv) Hres Hsucc Hjson Hval [Hwq Hwt]. unfold settle_usage. cbv zeta.
  rewrite !i64_small by (unfold in_i64, min_int64, max_int64 in *; lia).
  set (x := op_billing_quota r - wu_quota usage). set (y := op_billing_token_quota r - wu_tokenQuota usage).
  wp_step; [done|]. apply orb_false_iff in Heqb as [Hx%Z.ltb_ge Hy%Z.ltb_ge]. wp_step.
  apply (wp_return_user r x (wu_quota usage) _ zero zero); [by apply balanced_refl | done | done|].
  intros d1 fs1 Hoff1 Hops1 _. cbn beta iota. wp_step.
  apply (wp_return_token r y _ _ _ _ _ _ Hoff1); [done | done|].
  intros key d2 fs2 Hoff2 Hops2. cbn beta iota. do 2 wp_step. cbn beta iota.
  assert (op_row d2 (op_id r) = Some r) as Hrow2 by (unfold op_row in *; by rewrite Hops2, Hops1).
  wp_step. apply wp_update; [done|]. intros fs3. cbn beta iota.
  match goal with |- context [rows_count ?q _] => set (p := q) end.
  assert (p r = true) as Hp.
  { unfold p. unfold in_state in Hres. rewrite Z.eqb_refl, Hres, Hsucc, Hjson. cbn. apply Z.ltb_lt. lia. }
  assert (forall r', p r' = true -> op_id r' = op_id r) as Hpk
    by (unfold p; intros r'; rewrite !andb_true_iff, Z.eqb_eq; tauto).
  change (t_get Operations d2) with (db_operations d2).
  rewrite (count_one op_id has_op_id has_op_id_spec p (op_id r) r _ (wo_ops _ (off_wf _ _ _ _ Hoff2)) Hrow2 Hpk), Hp.
  cbn [Z.eqb]. set (f := settled_snapshot usage eventID (env_now e)).
  assert (held r = true) as Hh by (unfold held; by rewrite Hres).
  eassert (off _ _ d0 (t_set Operations (upd_rows p f (db_operations d2)) d2)) as Hoff3.
  { apply (off_update_op _ _ d0 d2 Hoff2 (op_id r) p f r Hrow2 Hpk Hp); [done| |].
    - split; [done|]. rewrite (held_not_closed r Hh). split; [done|]. intros _. right. split_and!; [done | cbn; lia | cbn; lia | by left].
    - unfold op_ok; cbn. lia. }
  wp_step. apply wp_update; [done|]. intros fs4. cbn beta iota.
  pose proof (off_update_user _ _ d0 _ Hoff3 (op_user_id r) 0
    (fun u => u <| u_used_quota ::= fun q => q + wu_quota usage |> <| u_request_count ::= fun q => q + 1 |>)) as Hoff4.
  wp_step. eapply wp_aside; [apply audit_aside | apply Hoff4; intros; split_and!; try done; cbn; lia | done|].
  intros entry d5 fs5 Hoff5 Hv5. cbn beta iota. wp_steps.
  assert (charging r = true) as Hcr by (unfold charging; by rewrite Hh).
  assert (balanced d0 d5) as Hb.
  { eapply balanced_off; [exact Hoff5 | |]; intros v Hv'; cbn beta;
      destruct (charge_change r (f r) v Hcr eq_refl eq_refl) as [Hwc Hkc]; rewrite ?Hwc, ?Hkc;
      [destruct (v =? op_user_id r), (_ && _) | destruct (op_token_id r =? v)];
      unfold x, y, f; cbn; lia. }
  split; [exact Hb|]. cbv zeta. split_and!; [done | done | lia | lia |]. split_and!; [exact Hb | exact Hrow|].
  injection Hv5 as _ _ Hv5. refine (eq_trans Hv5 _). cbn [t_set Users Operations db_operations]. rewrite <- Hops1, <- Hops2.
  by apply (upd_rows_one op_id has_op_id has_op_id_spec p f f (op_id r) r _ (wo_ops _ (off_wf _ _ _ _ Hoff2)) Hrow2).
Qed.

Lemma settle_balanced id fs tr :
  wf_ops d0 -> wp (settleWildFlowOperationBillingTx id) (returning d0 (fun w d' =>
    if ws_changed w then exists r event usage,
      op_operation_id r = id /\ in_state WildFlowBillingStateReserved r = true /\
      str_eqb (op_state r) "succeeded" = true /\ In event (db_usage_events d0) /\
      ue_operation_id event = op_operation_id r /\ wildFlowUsageEventMatchesOperation r event = true /\
      wildFlowActualUsageBilling r event = inr usage /\
      wu_quota usage <= op_billing_quota r /\ wu_tokenQuota usage <= op_billing_token_quota r /\
      let f := settled_snapshot usage (ue_event_id event) (env_now e) in
      ws_result w = f r /\ effected d0 r f d'
    else worth_view d' = worth_view d0)) e (mkSt d0 fs tr).
Proof.
  intros Hwf. unfold settleWildFlowOperationBillingTx, loadWildFlowOperationForBilling. wp_step.
  apply wp_load; [done | done|]. intros r fs1 Hrow Hrok Hid. cbn beta iota. wp_step.
  { wp_step. eapply wp_aside; [apply audit_aside | by apply balanced_refl | done|].
    intros entry d5 fs5 Hoff5 Hv5. cbn beta iota. wp_steps. done. }
  wp_step; [wp_steps; split; [by apply balanced_refl | done]|].
  apply orb_false_iff in Heqb0 as [[[H1%negb_false_iff H2%negb_false_iff]%orb_false_iff H3]%orb_false_iff H4%Z.eqb_neq].
  do 2 wp_step. apply wp_find_first_by; [done | by intros; wp_steps; split; [by apply balanced_refl|]|].
  intros fs2 event Hin Hp. cbn beta iota. wp_step; [done|]. apply negb_false_iff in Heqb0. do 2 wp_step.
  destruct (wildFlowActualUsageBilling r event) as [err|usage] eqn:Eu; cbn beta iota; [done|].
  eapply wp_mono; [apply settle_usage_balanced; try done; by eapply usage_bounds|].
  intros [err|w] s' H; [done|]. cbv zeta in H. destruct H as (Hb & Hch & Hr & Hq & Ht & He).
  split; [exact Hb|]. cbn beta. rewrite Hch.
  rewrite !andb_true_iff, !str_eqb_true in Hp. exists r, event, usage. by destruct Hp as [[-> _] _].
Qed.

(** *** Refund *)

Lemma wp_refund_token operation (Q : result string -> St -> Prop) fu fk d fs tr :
  off fu fk d0 d -> op_ok operation ->
  (forall err s', Q (inl err) s') ->
  (forall key d' fs',
     off fu (fun v => fk v + (if op_token_id operation =? v then op_billing_token_quota operation else 0)) d0 d' ->
     db_operations d' = db_operations d -> Q (inr key) (mkSt d' fs' tr)) ->
  wp (refund_operation_token operation) Q e (mkSt d fs tr).
Proof.
  intros Hoff (_ & Hq & _) Herr Hok. unfold refund_operation_token. wp_step.
  { wp_steps. apply Hok; [|done]. eapply off_ext; [exact Hoff | done|]. intros v Hv.
    apply negb_true_iff, andb_false_iff in Heqb as [H%Z.ltb_ge|H%Z.ltb_ge].
    - destruct (_ =? _); lia.
    - destruct (Z.eqb_spec (op_token_id operation) v); lia. }
  do 2 wp_step. apply wp_find_first; [intros; apply Herr| |].
  - intros fs1 Hnone. cbn beta iota. wp_steps. apply Hok; [|done].
    destruct Hoff as [? ? Ht ? Hk ? ?]. split; try done. intros v Hv Hs.
    destruct (Z.eqb_spec (op_token_id operation) v) as [<-|]; [|rewrite Z.add_0_r; by apply Hk].
    exfalso. apply fmap_is_Some with (f := tk_deleted) in Hs. rewrite <- Ht in Hs. unfold token_row in Hs.
    change (has_token _) with (fun t => tk_id t =? op_token_id operation) in Hs.
    change (t_get Tokens d) with (db_tokens d) in Hnone. rewrite Hnone in Hs. by destruct Hs.
  - intros fs1 t Ht. cbn beta iota. wp_step. apply wp_update; [intros; apply Herr|]. intros fs2. cbn beta iota.
    wp_steps. apply Hok; [|done].
    eapply off_ext; [eapply (off_update_token fu fk d0 d Hoff (op_token_id operation)
      (op_billing_token_quota operation)); [exact Ht| | |]|done|].
    + intros r' H%Z.eqb_eq. exact H.
    + by apply List.find_some in Ht as [_ Ht].
    + done.
    + intros v Hv. cbn. by rewrite Z.eqb_sym.
Qed.

Lemma refund_balanced id fs tr :
  wf_ops d0 -> wp (refundWildFlowOperationBillingTx id) (returning d0 (fun (w : WildFlowOperation * bool * string) d' =>
    if w.1.2 then exists r,
      op_operation_id r = id /\ held r = true /\
      str_eqb (op_state r) "failed" || str_eqb (op_state r) "cancelled" = true /\
      let f := refunded_snapshot (env_now e) in w.1.1 = f r /\ effected d0 r f d'
    else worth_view d' = worth_view d0)) e (mkSt d0 fs tr).
Proof.
  intros Hwf. unfold refundWildFlowOperationBillingTx, loadWildFlowOperationForBilling. wp_step.
  apply wp_load; [done | done|]. intros r fs1 Hrow Hrok Hid. cbn beta iota. wp_step.
  { wp_step. eapply wp_aside; [apply audit_aside | by apply balanced_refl | done|].
    intros entry d5 fs5 Hoff5 Hv5. cbn beta iota. wp_steps. done. }
  wp_step; [wp_steps; split; [by apply balanced_refl | done]|].
  assert (held r = true) as Hh.
  { apply orb_false_iff in Heqb0 as [H _]. unfold held, in_state.
    destruct (str_eqb _ WildFlowBillingStateReserved); [done|]. by destruct (str_eqb _ WildFlowBillingStateRefunding). }
  assert (str_eqb (op_state r) "failed" || str_eqb (op_state r) "cancelled" = true) as Hstate.
  { apply orb_false_iff in Heqb0 as [_ H]. by destruct (str_eqb _ "failed"), (str_eqb _ "cancelled"). }
  clear Heqb Heqb0. wp_step. eapply (wp_aside _ _ zero zero); [| by apply balanced_refl | done|].
  { apply respects_when; [apply _|]. intros _. apply refundSub_aside. }
  intros [] d1 fs2 Hoff1 Hv1. cbn beta iota. wp_step.
  set (x := if str_eqb (op_billing_source r) WildFlowBillingSourceWallet then op_billing_quota r else 0).
  assert (forall Q : result unit -> St -> Prop, (forall err s', Q (inl err) s') ->
    (forall d' fs', off (fun v => 0 + (if v =? op_user_id r then x else 0)) zero d0 d' ->
       db_operations d' = db_operations d1 -> Q (inr tt) (mkSt d' fs' tr)) ->
    wp (when (str_eqb (op_billing_source r) WildFlowBillingSourceWallet)
      (update Users (user_where (fun u => u_id u =? op_user_id r))
         (fun u => u <| u_quota ::= fun q => q + op_billing_quota r |>) ;; mret tt)) Q e (mkSt d1 fs2 tr)) as Huser.
  { intros Q Herr Hok. unfold x in *. wp_step.
    - rewrite H in Hok. wp_step. apply wp_update; [intros; apply Herr|]. intros fs3. cbn beta iota. wp_steps.
      apply Hok; [|done]. apply (off_update_user _ _ d0 d1 Hoff1). done.
    - rewrite H in Hok. apply Hok; [|done]. eapply off_ext; [exact Hoff1 | | done]. intros v. by destruct (_ =? _). }
  apply Huser; [done|]. intros d2 fs3 Hoff2 Hops2. cbn beta iota. wp_step.
  apply (wp_refund_token r _ _ _ _ _ _ Hoff2 Hrok); [done|]. intros key d3 fs4 Hoff3 Hops3.
  cbn beta iota. do 2 wp_step. cbn beta iota. wp_step. apply wp_update; [done|]. intros fs5. cbn beta iota.
  assert (op_row d3 (op_id r) = Some r) as Hrow3.
  { injection Hv1 as _ _ Hv1. unfold op_row in *. by rewrite Hops3, Hops2, Hv1. }
  set (f := refunded_snapshot (env_now e)).
  eassert (off _ _ d0 (t_set Operations (upd_rows (fun r' => op_id r' =? op_id r) f (db_operations d3)) d3)) as Hoff4.
  { apply (off_update_op _ _ d0 d3 Hoff3 (op_id r) _ f r Hrow3); try done.
    - intros r' H%Z.eqb_eq. exact H.
    - apply Z.eqb_refl.
    - split; [done|]. rewrite (held_not_closed r Hh). split; [done|].
      intros _. right. split_and!; [done | cbn; lia | cbn; lia | by right]. }
  wp_step. eapply wp_aside; [apply audit_aside | exact Hoff4 | done|].
  intros entry d5 fs6 Hoff5 Hv5. cbn beta iota. wp_steps.
  assert (charging r = true) as Hcr by (unfold charging; by rewrite Hh).
  assert (balanced d0 d5) as Hb.
  { eapply balanced_off; [exact Hoff5 | |]; intros v Hv; cbn beta.
    - rewrite (Z.eqb_sym v). unfold wallet_charge, x; rewrite Hcr. cbn.
      destruct (str_eqb (op_billing_source r) _), (op_user_id r =? v); cbn; lia.
    - unfold key_charge. rewrite Hcr. cbn. destruct (op_token_id r =? v); lia. }
  split; [exact Hb|]. cbn [fst snd]. exists r. split_and!; try done. split_and!; [exact Hb | exact Hrow|].
  injection Hv5 as _ _ Hv5. injection Hv1 as _ _ Hv1. refine (eq_trans Hv5 _).
  cbn [t_set Operations db_operations]. by rewrite Hops3, Hops2, Hv1.
Qed.
End Balance.

(** ** Every operation balances *)

(** A computation after which the books balance, whatever it answered. *)
Definition books (s s' : St) : Prop := wf_ops (st_db s) -> balanced (st_db s) (st_db s').

#[export] Instance books_frame : Frame books.
Proof.
  split; unfold books; cbn.
  - intros d fs fs' tr Hwf. by apply balanced_refl.
  - intros s1 s2 s3 H1 H2 Hwf. specialize (H1 Hwf). specialize (H2 (off_wf _ _ _ _ H1)). by eapply balanced_trans.
Qed.

Lemma books_aside {A} (c : M A) : respects (keeps worth_view) c -> respects books c.
Proof.
  intros Hc e s Hwf. destruct (Hc e s) as [Hv _]. eapply off_frame; [by apply balanced_refl | done].
Qed.

Lemma books_emit ef : respects books (emit ef).
Proof. intros e [d fs tr] Hwf. by apply balanced_refl. Qed.

Lemma returning_balancing {A} (post : A -> DB -> Prop) d r s' : returning d post r s' -> balancing d r s'.
Proof. destruct r; [done|]. by intros []. Qed.

Lemma books_transaction {A} (body : M A) :
  (forall e d fs tr, wf_ops d -> wp body (balancing d) e (mkSt d fs tr)) -> respects books (transaction body).
Proof.
  intros Hb e [d fs tr] Hwf. cbn in Hwf.
  assert (wp (transaction body) (fun _ s' => balanced d (st_db s')) e (mkSt d fs tr)) as Hw.
  { apply wp_transaction; [intros; by apply balanced_refl|]. intros fs1. eapply wp_mono; [by apply Hb|].
    intros [err|a] s' H; cbn; [by apply balanced_refl|]. split; [|done]. intros. by apply balanced_refl. }
  unfold wp in Hw. by destruct (transaction body e (mkSt d fs tr)).
Qed.

#[export] Hint Resolve books_emit : respects.

Lemma sync_books u key x y : respects books (syncWildFlowBillingQuotaCache u key x y).
Proof. unfold syncWildFlowBillingQuotaCache. respects_auto. Qed.
#[export] Hint Resolve sync_books : respects.

Lemma valid_quote quote : quote_Validate quote = inr tt -> 0 < qt_Quota quote.
Proof.
  unfold quote_Validate. destruct (qt_Quota quote <=? 0) eqn:E; [by rewrite !orb_true_r|].
  intros _. by apply Z.leb_gt in E.
Qed.

Lemma reserve_wallet_books id quote :
  qt_Quota quote <= max_int64 -> respects books (ReserveWildFlowWalletBilling id quote).
Proof.
  intros Hm. unfold ReserveWildFlowWalletBilling. destruct (quote_Validate quote) as [err|[]] eqn:E.
  { apply respects_raise, _. }
  apply valid_quote in E. apply respects_bind; [apply _ | apply respects_lift, _|]. intros [].
  apply respects_bind; [apply _ | |respects_auto]. apply books_transaction. intros.
  eapply wp_mono; [apply reserve_wallet_balanced; [done | lia] | apply returning_balancing].
Qed.

Lemma reserve_subscription_books id quote :
  qt_Quota quote <= max_int64 -> respects books (ReserveWildFlowSubscriptionBilling id quote).
Proof.
  intros Hm. unfold ReserveWildFlowSubscriptionBilling. destruct (quote_Validate quote) as [err|[]] eqn:E.
  { apply respects_raise, _. }
  apply valid_quote in E. apply respects_bind; [apply _ | apply respects_lift, _|]. intros [].
  apply respects_bind; [apply _ | |respects_auto]. apply books_transaction. intros.
  eapply wp_mono; [apply reserve_subscription_balanced; [done | lia] | apply returning_balancing].
Qed.

Lemma settle_books id : respects books (SettleWildFlowOperationBilling id).
Proof.
  unfold SettleWildFlowOperationBilling. apply respects_bind; [apply _ | | respects_auto].
  apply books_transaction. intros. eapply wp_mono; [by apply settle_balanced | apply returning_balancing].
Qed.

Lemma refund_books id : respects books (RefundWildFlowOperationBilling id).
Proof.
  unfold RefundWildFlowOperationBilling. apply respects_bind; [apply _ | | respects_auto].
  apply books_transaction. intros. eapply wp_mono; [by apply refund_balanced | apply returning_balancing].
Qed.

(** *** Audits and projections leave the books alone *)

Lemma claim_aside tok id logType : aside (claimWildFlowBillingProjection tok id logType).
Proof. unfold claimWildFlowBillingProjection. respects_auto. Qed.
Lemma failed_aside {A} err entry tok : aside (projection_failed err entry tok : M A).
Proof. unfold projection_failed, markWildFlowBillingProjectionFailed. respects_auto. Qed.
Lemma projected_aside entry tok : aside (markWildFlowBillingProjectionProjected entry tok).
Proof. unfold markWildFlowBillingProjectionProjected. respects_auto. Qed.
Lemma receipt_aside operation entry logEntry : aside (project_receipt_tx operation entry logEntry).
Proof. unfold project_receipt_tx. respects_auto. Qed.
Lemma generic_log_aside operation entry : aside (generic_log_of operation entry).
Proof.
  unfold generic_log_of. apply respects_bind; [apply _ | respects_auto|]. intros user. cbv zeta.
  destruct (match user with inr u => _ | inl _ => _ end) as [username group].
  apply respects_bind; [apply _ | respects_auto|]. intros tokenName.
  apply respects_bind; [apply _ | apply respects_ask, _|]. intros now. generalize (projection_log operation entry username group tokenName now).
  intros logEntry. destruct (_ && _); [|apply respects_ret, _].
  apply respects_bind; [apply _ | apply respects_find_first, _|]. intros task. apply respects_ret, _.
Qed.
Lemma generic_aside operation entry : aside (createWildFlowGenericBillingLog operation entry).
Proof.
  unfold createWildFlowGenericBillingLog. apply respects_bind; [apply _ | apply respects_ask, _|].
  intros [|]; [apply respects_raise, _|].
  apply respects_bind; [apply _ | apply generic_log_aside|]. intros logEntry.
  apply respects_transaction, receipt_aside.
Qed.
Lemma get_operation_aside id : aside (GetWildFlowOperationByID id).
Proof. unfold GetWildFlowOperationByID, optional. respects_auto. Qed.
#[export] Hint Resolve claim_aside failed_aside projected_aside generic_aside get_operation_aside audit_aside : respects.

Lemma project_aside tok id logType : aside (projectWildFlowBillingLog tok id logType).
Proof. unfold projectWildFlowBillingLog. respects_auto. Qed.
#[export] Hint Resolve project_aside : respects.

Lemma record_log_aside tok operation logType content : aside (RecordWildFlowBillingLog tok operation logType content).
Proof. unfold RecordWildFlowBillingLog. respects_auto. Qed.

Lemma audits_aside limit : aside (ReconcileWildFlowCanonicalBillingAudits limit).
Proof.
  unfold ReconcileWildFlowCanonicalBillingAudits. apply respects_bind; [apply _ | |].
  { apply respects_stmt; [apply _|]. by intros. }
  intros candidates. generalize 0 (@nil Err). induction candidates as [|c l IH]; intros n errs; cbn [audit_candidates].
  { respects_auto. }
  unfold audit_candidate_tx, loadWildFlowOperationForBilling. respects_auto; apply IH.
Qed.

Lemma projections_aside uuid limit : aside (ReconcileWildFlowBillingLogProjections uuid limit).
Proof.
  unfold ReconcileWildFlowBillingLogProjections. apply respects_bind; [apply _ | apply respects_ask, _|]. intros now.
  apply respects_bind; [apply _ | apply respects_find_all, _|]. intros entries.
  generalize (take (Z.to_nat (reconcile_limit limit)) (merge_sort entry_order entries)) 0 (@nil (string * Z * Err)).
  clear entries. intros entries. revert uuid. induction entries as [|c l IH]; intros uuid n errs; cbn [project_entries].
  { respects_auto. }
  respects_auto; apply IH.
Qed.

(** *** The life cycle statements *)

(** The columns an insert hook leaves as the caller set them. *)
Lemma defaults_kept now operation :
  (op_ok (default_created_time now operation) <-> op_ok operation) /\
  op_billing_state (default_created_time now operation) = op_billing_state operation /\
  (op_ok (default_billing_state operation) <-> op_ok operation) /\
  (op_ok (default_submission_phase operation) <-> op_ok operation) /\
  op_billing_state (default_submission_phase operation) = op_billing_state operation.
Proof.
  unfold default_created_time, default_billing_state, default_submission_phase.
  by destruct (_ =? 0), (str_eqb _ _), (str_eqb _ _).
Qed.

Lemma charging_state r r' : op_billing_state r' = op_billing_state r -> charging r' = charging r.
Proof. unfold charging, held, settled, in_state. by intros ->. Qed.

Lemma created_ok now operation :
  let r := operation_BeforeCreate now operation in
  (op_ok operation -> op_ok r) /\ charging r = charging (default_billing_state operation).
Proof.
  unfold operation_BeforeCreate. set (r1 := default_created_time now operation).
  set (r2 := default_billing_state r1). set (r3 := default_submission_phase r2).
  assert (forall r, op_billing_state (default_billing_state r) =
    if str_eqb (op_billing_state r) "" then WildFlowBillingStatePending else op_billing_state r) as Hbill
    by (intros r; unfold default_billing_state; by destruct (str_eqb _ _)).
  assert (op_billing_state r3 = op_billing_state (default_billing_state operation)) as Hst.
  { unfold r3. destruct (defaults_kept now r2) as (_ & _ & _ & _ & ->). unfold r2. rewrite !Hbill.
    unfold r1. by destruct (defaults_kept now operation) as (_ & -> & _). }
  assert (op_ok operation -> op_ok r3) as Hok.
  { destruct (defaults_kept now operation) as [H1 _]. destruct (defaults_kept now r1) as (_ & _ & H2 & _).
    destruct (defaults_kept now r2) as (_ & _ & _ & H3 & _). intros H. apply H3, H2, H1, H. }
  clearbody r3. split; [exact Hok|]. by apply charging_state.
Qed.

(** The columns of identity and billing. *)
Definition same_billing (r r' : WildFlowOperation) : Prop :=
  (op_operation_id r', op_user_id r', op_token_id r') = (op_operation_id r, op_user_id r, op_token_id r) /\
  snapshot r' = snapshot r /\ op_id r' = op_id r.

Lemma same_billing_trans r1 r2 r3 : same_billing r1 r2 -> same_billing r2 r3 -> same_billing r1 r3.
Proof. unfold same_billing. intros (-> & -> & ->) (-> & -> & ->). done. Qed.

Lemma filled_columns now expiresAt operation r :
  (same_billing r (fill_retention now expiresAt operation r) /\
   op_result_validated_time (fill_retention now expiresAt operation r) = op_result_validated_time r) /\
  (same_billing r (fill_expiry expiresAt operation r) /\
   op_result_validated_time (fill_expiry expiresAt operation r) = op_result_validated_time r) /\
  same_billing r (fill_validated now operation r) /\
  (op_result_validated_time (fill_validated now operation r) = op_result_validated_time r \/
   op_result_validated_time (fill_validated now operation r) = now).
Proof.
  unfold fill_retention, fill_expiry, fill_validated. destruct (_ =? 0), (_ =? 0), (_ =? 0);
    repeat (first [split | done | by left | by right]).
Qed.

Lemma result_columns now expiresAt json operation r :
  same_billing r (complete_result now expiresAt operation r) /\
  same_billing r (first_result now expiresAt json operation r) /\
  (op_result_validated_time (complete_result now expiresAt operation r) = op_result_validated_time r \/
   op_result_validated_time (complete_result now expiresAt operation r) = now) /\
  op_result_validated_time (first_result now expiresAt json operation r) = now.
Proof.
  unfold complete_result, first_result.
  destruct (filled_columns now expiresAt operation r) as ([H1 V1] & _).
  destruct (filled_columns now expiresAt operation (fill_retention now expiresAt operation r)) as (_ & [H2 V2] & _).
  destruct (filled_columns now expiresAt operation
    (fill_expiry expiresAt operation (fill_retention now expiresAt operation r))) as (_ & _ & H3 & V3).
  destruct (filled_columns now expiresAt operation (stored_result now expiresAt json r)) as ([H4 V4] & _).
  assert (same_billing r (stored_result now expiresAt json r)) as H5 by done.
  rewrite V2, V1 in V3. split_and!; [| | exact V3 | rewrite V4; done]; eauto using same_billing_trans.
Qed.

(** Columns outside billing may change freely. *)
Lemma neutral_ok r r' :
  (op_operation_id r', op_user_id r', op_token_id r') = (op_operation_id r, op_user_id r, op_token_id r) ->
  snapshot r' = snapshot r -> op_id r' = op_id r ->
  op_ok r -> 0 <= op_result_validated_time r' ->
  op_id r' = op_id r /\ progress r r' /\ op_ok r' /\
  (forall v, wallet_charge v r' = wallet_charge v r) /\ (forall v, key_charge v r' = key_charge v r).
Proof.
  intros Hi Hs Hid (Hq & Ht & _) Hv. split; [done|]. split; [by apply progress_same|].
  destruct (snapshot_class _ _ Hs) as (_ & Hh & Hse & _). unfold snapshot in Hs. injection Hi as _ Hu Htk.
  injection Hs as _ Hsrc _ Hq' Ht' _ _ _ _. split; [unfold op_ok; rewrite Hq', Ht'; done|].
  unfold wallet_charge, key_charge, charging. rewrite Hh, Hse, Hsrc, Hq', Ht', Hu, Htk. done.
Qed.

Lemma execute_books id job state err : respects books (UpdateWildFlowOperationExecution id job state err).
Proof.
  unfold UpdateWildFlowOperationExecution. apply respects_bind; [apply _ | apply respects_ask, _|]. intros now.
  apply respects_bind; [apply _ | |intros; apply respects_ret, _]. apply respects_stmt; [apply _|].
  intros d fs tr Hwf. cbn in *. apply (off_neutral_op _ _ d d (balanced_refl d Hwf) (has_operation id)).
  intros r _ Hok. apply neutral_ok; try done. by destruct Hok as (_ & _ & ?).
Qed.

Lemma existsb_false_at {R} (p : R -> bool) l r : List.existsb p l = false -> In r l -> p r = false.
Proof.
  intros H Hin. destruct (p r) eqn:E; [|done]. rewrite <- H. symmetry. apply List.existsb_exists. eauto.
Qed.

Lemma assigned_ok l r :
  (op_ok (t_assign Operations l r) <-> op_ok r) /\ charging (t_assign Operations l r) = charging r.
Proof. cbn [t_assign Operations]. unfold assign_id. by destruct (op_id r =? 0). Qed.

Lemma create_books operation : charging (default_billing_state operation) = false -> op_ok operation ->
  respects books (CreateWildFlowOperation operation).
Proof.
  intros Hc Hok. unfold CreateWildFlowOperation. apply respects_bind; [apply _ | apply respects_ask, _|]. intros now.
  apply respects_bind; [apply _ | |intros; apply respects_ret, _]. apply respects_stmt; [apply _|].
  intros d fs tr Hwf. cbv zeta. set (r := operation_BeforeCreate now operation). cbn [st_db] in *.
  destruct (created_ok now operation) as [Hr Hcr]. fold r in Hr, Hcr. specialize (Hr Hok). rewrite Hc in Hcr.
  clearbody r. destruct (List.existsb _ _) eqn:E; [by apply balanced_refl|].
  apply (off_create_op _ _ d d (balanced_refl d Hwf)).
  - intros r' Hin. pose proof (existsb_false_at _ _ r' E Hin) as Hc'. cbn [t_clash Operations] in Hc'.
    apply orb_false_iff in Hc' as [[H1%Z.eqb_neq H2%str_eqb_false]%orb_false_iff _]. split; congruence.
  - by apply assigned_ok.
  - rewrite <- Hcr. apply assigned_ok.
Qed.

Lemma store_result_body d e id json expiresAt fs tr :
  wf_ops d -> 0 <= env_now e ->
  wp (operation ← find_first Operations (has_operation id);
    if negb (str_eqb (op_state operation) "succeeded")
    then raise (EText "WildFlow operation result is not successful") else
    if negb (str_eqb (op_result_json operation) "") then
      if result_complete operation then mret operation else
      update Operations (fun r => op_id r =? op_id operation) (complete_result (env_now e) expiresAt operation) ;;
      find_first Operations (fun r => op_id r =? op_id operation)
    else
      update Operations (fun r => (op_id r =? op_id operation) && str_eqb (op_result_json r) "")
        (first_result (env_now e) expiresAt json operation) ;;
      find_first Operations (fun r => op_id r =? op_id operation))
  (balancing d) e (mkSt d fs tr).
Proof.
  intros Hwf Hnow.
  assert (forall p f fs', (forall r, op_ok r -> (op_operation_id (f r), op_user_id (f r), op_token_id (f r)) = (op_operation_id r, op_user_id r, op_token_id r) /\
      snapshot (f r) = snapshot r /\ op_id (f r) = op_id r /\ 0 <= op_result_validated_time (f r)) ->
    forall q, wp (update Operations p f ;; find_first Operations q) (balancing d) e (mkSt d fs' tr)) as Hupd.
  { intros p f fs' Hf q. wp_step. apply wp_update; [done|]. intros fs2. cbn beta iota.
    apply wp_find_first; [done | done|]. intros fs3 r _.
    apply (off_neutral_op _ _ d d (balanced_refl d Hwf)). intros r0 _ Hok. destruct (Hf r0 Hok) as (? & ? & ? & ?). by apply neutral_ok. }
  wp_step. apply wp_load; [done | done|]. intros r fs1 _ _ _. cbn beta iota. wp_step; [done|].
  wp_step; [wp_step; [wp_steps; by apply balanced_refl|]|]; apply Hupd; intros r0 (_ & _ & Hv);
    destruct (result_columns (env_now e) expiresAt json r r0) as ((? & ? & ?) & (? & ? & ?) & Hc & Hf);
    split_and!; try done; [by destruct Hc as [-> | ->] | by rewrite Hf].
Qed.

Lemma store_books e s id json expiresAt :
  0 <= env_now e -> books s (snd (StoreWildFlowOperationResult id json expiresAt e s)).
Proof.
  intros Hnow Hwf. destruct s as [d fs tr]. cbn in Hwf.
  cut (wp (StoreWildFlowOperationResult id json expiresAt) (fun _ s' => balanced d (st_db s')) e (mkSt d fs tr)).
  { unfold wp. by destruct (StoreWildFlowOperationResult _ _ _ _ _). }
  unfold StoreWildFlowOperationResult. do 2 wp_step. cbn beta iota. wp_step; [wp_steps; by apply balanced_refl|].
  apply wp_transaction; [intros; by apply balanced_refl|]. intros fs1.
  eapply wp_mono; [by apply store_result_body|]. intros [err|a] s' H; cbn in *; [by apply balanced_refl|].
  split; [|done]. intros. by apply balanced_refl.
Qed.

(** *** Usage events *)

Lemma wp_bind_trial d0 operation event e d fs tr :
  balanced d0 d -> wp (bind_trial_event operation event) (balancing d0) e (mkSt d fs tr).
Proof.
  intros Hoff. unfold bind_trial_event. wp_step; [by wp_steps|]. wp_step; [done|]. wp_step; [by wp_steps|].
  do 2 wp_step. cbn beta iota. wp_step. apply wp_update; [done|]. intros fs1. cbn beta iota.
  wp_steps; [done|]. apply (off_neutral_op _ _ d0 d Hoff). intros r Hp Hok.
  rewrite !andb_true_iff in Hp. destruct Hp as [[[_ _] Hst%str_eqb_true] _].
  assert (held r = false /\ closed r = false) as [Hh Hc] by (by unfold held, closed, settled, refunded, in_state; rewrite Hst).
  assert (charging r = false) as Hch by (unfold charging, closed in *; rewrite Hh; by apply orb_false_iff in Hc as [-> _]).
  split_and!; [done | split_and!; [done | by rewrite Hc | by rewrite Hh] | done | |]; intros v;
    unfold wallet_charge, key_charge; cbn; change (charging _) with (charging r); by rewrite Hch.
Qed.

Lemma usage_once_books uuid event : respects books (recordWildFlowUsageEventOnce uuid event).
Proof.
  unfold recordWildFlowUsageEventOnce. destruct (negb _); [apply respects_raise, _|].
  apply respects_bind; [apply _ | apply respects_ask, _|]. intros now. cbv zeta.
  set (ev := usage_event_prepared uuid now event). clearbody ev.
  apply books_transaction. intros e d fs tr Hwf. do 2 wp_step.
  apply wp_find_first; [intros; by wp_steps | intros; by wp_steps|]. intros fs1 r _. cbn beta iota.
  wp_step; [done|]. wp_step; [done|]. wp_step.
  apply (wp_aside e d _ _ zero zero); [apply ingest_aside | by apply balanced_refl | done|].
  intros replayed d1 fs2 Hoff1 _. cbn beta iota. wp_step.
  eapply wp_mono; [by apply wp_bind_trial|]. intros [err|[]] [d2 fs3 tr2] H; [done|]. by wp_steps.
Qed.

Lemma usage_books uuid event : respects books (RecordWildFlowUsageEvent uuid event).
Proof.
  unfold RecordWildFlowUsageEvent. generalize ErrDiverges, 8%nat. intros err n. revert err.
  induction n as [|n IH]; intros err; cbn [record_attempts].
  - apply books_aside. unfold resolve_usage_event. respects_auto.
  - apply respects_bind; [apply _ | apply respects_attempt; apply usage_once_books|].
    intros [err'|b]; [|apply respects_ret, _]. destruct (retryableWildFlowTransactionContention err'); [apply IH | apply respects_raise, _].
Qed.
