(* ===== verification/WildFlowTheorems.v ===== *)
(** * WildFlowTheorems: the properties of WildFlow billing *)

From S2P Require Import Prelude Schema Store Logic Frame Ledger Demo Calendar Quota Subscription SubscriptionFacts Reservation ReservationRules WildFlowOperations WildFlowBilling WildFlowFacts WildFlowBooks.
From stdpp Require Import base numbers option strings list sorting.
From Stdlib Require Import ZArith Lia.
Open Scope Z_scope.

(** ** Histories of WildFlow operations *)

Inductive wild_op :=
  | WCreate (operation : WildFlowOperation)
  | WExecute (id job state err : string)
  | WStoreResult (id json : string) (expiresAt : Z)
  | WReserveWallet (id : string) (quote : WildFlowBillingQuote)
  | WReserveSubscription (id : string) (quote : WildFlowBillingQuote)
  | WUsage (uuid : string) (event : WildFlowUsageEvent)
  | WSettle (id : string)
  | WRefund (id : string)
  | WRecordLog (tok : string) (operation : WildFlowOperation) (logType : Z) (content : string)
  | WAudits (limit : Z)
  | WProjections (uuid : nat -> string) (limit : Z).

Definition run_wild (o : wild_op) : M unit :=
  match o with
  | WCreate operation => CreateWildFlowOperation operation
  | WExecute id job state err => UpdateWildFlowOperationExecution id job state err
  | WStoreResult id json expiresAt => StoreWildFlowOperationResult id json expiresAt ;; mret tt
  | WReserveWallet id quote => ReserveWildFlowWalletBilling id quote ;; mret tt
  | WReserveSubscription id quote => ReserveWildFlowSubscriptionBilling id quote ;; mret tt
  | WUsage uuid event => RecordWildFlowUsageEvent uuid event ;; mret tt
  | WSettle id => SettleWildFlowOperationBilling id ;; mret tt
  | WRefund id => RefundWildFlowOperationBilling id ;; mret tt
  | WRecordLog tok operation logType content => RecordWildFlowBillingLog tok operation logType content
  | WAudits limit => ReconcileWildFlowCanonicalBillingAudits limit ;; mret tt
  | WProjections uuid limit => ReconcileWildFlowBillingLogProjections uuid limit ;; mret tt
  end.

(** A quote's quota is an [int]; a new operation holds nothing. *)
Definition wild_valid (o : wild_op) : Prop :=
  match o with
  | WReserveWallet _ quote | WReserveSubscription _ quote => qt_Quota quote <= max_int64
  | WCreate operation => charging (default_billing_state operation) = false /\ op_ok operation
  | _ => True
  end.

(** Any operations, in any order, with any driver outcomes and clock values. *)
Inductive wild_history : DB -> DB -> Prop :=
  | wild_nil d : wild_history d d
  | wild_cons d o e fs tr d' :
      wild_valid o -> 0 <= env_now e ->
      wild_history (st_db (snd (run_wild o e (mkSt d fs tr)))) d' -> wild_history d d'.

Lemma ignore_books {A} (c : M A) : respects books c -> respects books (c ;; mret tt).
Proof. intros H. apply respects_bind; [apply _ | done | intros; apply respects_ret, _]. Qed.

Lemma wild_step o e d fs tr :
  wild_valid o -> 0 <= env_now e -> wf_ops d -> balanced d (st_db (snd (run_wild o e (mkSt d fs tr)))).
Proof.
  intros Hv Hnow Hwf.
  assert (forall c : M unit, respects books c -> balanced d (st_db (snd (c e (mkSt d fs tr))))) as Hb
    by (intros c Hc; exact (Hc e (mkSt d fs tr) Hwf)).
  destruct o; cbn [run_wild wild_valid] in *.
  - destruct Hv. by apply Hb, create_books.
  - by apply Hb, execute_books.
  - pose proof (store_books e (mkSt d fs tr) id json expiresAt Hnow Hwf) as H.
    unfold mbind, M_bind. by destruct (StoreWildFlowOperationResult _ _ _ _ _) as [[?|?] ?].
  - by apply Hb, ignore_books, reserve_wallet_books.
  - by apply Hb, ignore_books, reserve_subscription_books.
  - by apply Hb, ignore_books, usage_books.
  - by apply Hb, ignore_books, settle_books.
  - by apply Hb, ignore_books, refund_books.
  - by apply Hb, books_aside, record_log_aside.
  - by apply Hb, ignore_books, books_aside, audits_aside.
  - by apply Hb, ignore_books, books_aside, projections_aside.
Qed.

Lemma wild_run d d' : wild_history d d' -> wf_ops d -> balanced d d'.
Proof.
  induction 1 as [d | d o e fs tr d' Hv Hnow _ IH]; intros Hwf; [by apply balanced_refl|].
  pose proof (wild_step o e d fs tr Hv Hnow Hwf) as H. eapply balanced_trans; [exact H|].
  apply IH. apply H.
Qed.

(** ** A concrete operation *)

Module WildDemo.
Definition operation : WildFlowOperation := {|
  op_id := 11; op_operation_id := "op-1"; op_user_id := 1; op_token_id := 7;
  op_idempotency_key_digest := "key"; op_request_digest := "request"; op_request_id := "rq";
  op_product_model_ref := "IndexTTS-2.5"; op_model_version_ref := "v1"; op_task_id := ""; op_job_id := "";
  op_state := "queued"; op_last_error_code := ""; op_billing_state := "pending"; op_billing_source := "";
  op_billing_subscription_id := 0; op_billing_quota := 0; op_billing_token_quota := 0;
  op_billing_currency := ""; op_billing_amount_micros := 0; op_billing_unit := "";
  op_billing_billable_units := 0; op_billing_quota_per_unit := ""; op_billing_usd_exchange_rate := "";
  op_billing_price_version := ""; op_billing_usage_event_id := ""; op_billing_settled_time := 0;
  op_result_json := ""; op_result_validated_time := 0; op_result_retention_seconds := 0;
  op_result_expires_at := 0; op_submission_phase := "prepared"; op_submission_owner := "";
  op_submission_lease_token := ""; op_submission_lease_expires_at := 0; op_submission_retry_until := 0;
  op_submission_attempt := 0; op_submission_started_time := 0; op_created_time := Demo.now;
  op_updated_time := Demo.now |}.

(** 100 quota units for at most 6 seconds of audio. *)
Definition quote : WildFlowBillingQuote :=
  mkQuote "CNY" 60000 "audio_millisecond" 6000 100 "500000" "7.2" "2026-01".

Definition event : WildFlowUsageEvent := {|
  ue_event_id := "ev-1"; ue_aggregate_type := "job"; ue_aggregate_id := "job-1"; ue_event_type := "usage";
  ue_payload_digest := "0123456789abcdef0123456789abcdef0123456789abcdef0123456789abcdef";
  ue_operation_id := "op-1"; ue_job_id := "job-1"; ue_attempt_id := "1"; ue_model_version_ref := "v1";
  ue_channel_type := "gpu"; ue_kind := "audio_duration"; ue_quantity := 2500; ue_unit := "millisecond";
  ue_started_at := 0; ue_ended_at := 2500; ue_evidence_ref := "e"; ue_ingest_token := "";
  ue_ingested_at := zero_time; ue_created_time := 0 |}.

Definition db : DB := Demo.db <| db_operations := [operation] |>.
Definition reserved : DB := Demo.after (run_wild (WReserveWallet "op-1" quote)) db.
Definition succeeded : DB := Demo.after (run_wild (WUsage "uuid-1" event))
  (Demo.after (run_wild (WStoreResult "op-1" "{}" (Demo.now + 3600)))
    (Demo.after (run_wild (WExecute "op-1" "job-1" "succeeded" "")) reserved)).
Definition settled_db : DB := Demo.after (run_wild (WSettle "op-1")) succeeded.
Definition failed : DB := Demo.after (run_wild (WExecute "op-1" "job-1" "failed" "E")) reserved.

(** 42 = ceil(100 * 2500 / 6000) stays charged. *)
Example settled_wallet : wallet settled_db 1 = 1000 - 42.
Proof. vm_compute. reflexivity. Qed.
Example refunded_wallet : wallet (Demo.after (run_wild (WRefund "op-1")) failed) 1 = 1000.
Proof. vm_compute. reflexivity. Qed.

Lemma wf_one d r : (bool_decide (NoDup (u_id <$> db_users d)) && bool_decide (NoDup (tk_id <$> db_tokens d))) = true ->
  db_operations d = [r] -> op_ok r -> wf_ops d.
Proof.
  intros [?%bool_decide_eq_true ?%bool_decide_eq_true]%andb_true_iff Ho Hr.
  split; try done; unfold unique_key; rewrite Ho; [apply NoDup_singleton.. |]. by intros ? [<-|[]].
Qed.

Ltac prove_wf_one :=
  eapply wf_one; [vm_compute; reflexivity | vm_compute; reflexivity
    | repeat split; vm_compute; discriminate].

Lemma wild_wf_db : wf_ops db.
Proof. prove_wf_one. Qed.
Lemma wf_succeeded : wf_ops succeeded.
Proof. prove_wf_one. Qed.
Lemma wf_failed : wf_ops failed.
Proof. prove_wf_one. Qed.

Lemma step o d d' : wild_valid o -> wild_history (Demo.after (run_wild o) d) d' -> wild_history d d'.
Proof. intros Hv Hh. apply (wild_cons d o Demo.env [] [] d' Hv); [vm_compute; discriminate | exact Hh]. Qed.

(** Reserved, executed, stored, measured and settled. *)
Lemma history : wild_history db settled_db.
Proof.
  unfold settled_db, succeeded, reserved.
  apply (step (WReserveWallet "op-1" quote)); [vm_compute; discriminate|].
  apply (step (WExecute "op-1" "job-1" "succeeded" "")); [exact I|].
  apply (step (WStoreResult "op-1" "{}" (Demo.now + 3600))); [exact I|].
  apply (step (WUsage "uuid-1" event)); [exact I|].
  apply (step (WSettle "op-1")); [exact I|]. apply wild_nil.
Qed.
Lemma wf_reserved : wf_ops reserved.
Proof. prove_wf_one. Qed.
Lemma settling : wild_history reserved settled_db.
Proof.
  unfold settled_db, succeeded.
  apply (step (WExecute "op-1" "job-1" "succeeded" "")); [exact I|].
  apply (step (WStoreResult "op-1" "{}" (Demo.now + 3600))); [exact I|].
  apply (step (WUsage "uuid-1" event)); [exact I|].
  apply (step (WSettle "op-1")); [exact I|]. apply wild_nil.
Qed.

(** A late report of a failure, and a refund, after the settlement. *)
Definition later_db : DB := Demo.after (run_wild (WRefund "op-1"))
  (Demo.after (run_wild (WExecute "op-1" "job-1" "failed" "E")) settled_db).
Lemma wf_settled : wf_ops settled_db.
Proof. prove_wf_one. Qed.
Lemma too_late : wild_history settled_db later_db.
Proof.
  unfold later_db. apply (step (WExecute "op-1" "job-1" "failed" "E")); [exact I|].
  apply (step (WRefund "op-1")); [exact I|]. apply wild_nil.
Qed.
End WildDemo.

(** C14. Conservation: through any history of WildFlow operations, a user's
    wallet plus what the user's wallet-billed operations hold or consumed is
    constant, and so is a key's remaining quota plus what operations hold or
    consumed of it; a key's remaining plus used quota is constant too. *)
Theorem wildflow_conserves d d' :
  wf_ops d -> wild_history d d' ->
  (forall u, live_user d u = true ->
     wallet d' u + sum_rows (wallet_charge u) (db_operations d')
     = wallet d u + sum_rows (wallet_charge u) (db_operations d)) /\
  (forall t, 0 < t -> is_Some (token_row d t) ->
     key_remain d' t + sum_rows (key_charge t) (db_operations d')
     = key_remain d t + sum_rows (key_charge t) (db_operations d)) /\
  (forall t, key_remain d' t + key_used d' t = key_remain d t + key_used d t).
Proof.
  intros Hwf Hh. destruct (wild_run d d' Hh Hwf) as [_ _ _ Hu Hk Ht _]. split_and!; [| | done].
  - intros u Hl. specialize (Hu u Hl). unfold user_worth in Hu. lia.
  - intros t Hpos Hs. specialize (Hk t Hpos Hs). unfold key_worth in Hk. lia.
Qed.

Lemma wildflow_conserves_witness :
  wallet WildDemo.settled_db 1 + sum_rows (wallet_charge 1) (db_operations WildDemo.settled_db)
  = wallet WildDemo.db 1 + sum_rows (wallet_charge 1) (db_operations WildDemo.db).
Proof.
  exact (proj1 (wildflow_conserves WildDemo.db WildDemo.settled_db WildDemo.wild_wf_db WildDemo.history) 1
    ltac:(vm_compute; reflexivity)).
Defined.

(** C15. Life cycle: once an operation is settled or refunded its billing
    columns never change (its execution and result columns may); a reservation
    either keeps its billing columns, or is settled for at most what it
    reserved, or is refunded in full; and operations are never lost or
    re-owned. *)
Theorem wildflow_life_cycle d d' i r :
  wf_ops d -> wild_history d d' -> op_row d i = Some r ->
  exists r', op_row d' i = Some r' /\
    (op_operation_id r', op_user_id r', op_token_id r') = (op_operation_id r, op_user_id r, op_token_id r) /\
    (closed r = true -> snapshot r' = snapshot r) /\
    (held r = true -> snapshot r' = snapshot r \/ closes r r').
Proof.
  intros Hwf Hh Hr. destruct (wild_run d d' Hh Hwf) as [_ _ _ _ _ _ Ho].
  destruct (Ho i r Hr) as (r' & Hr' & Hi & Hc & Hhd). exists r'. done.
Qed.

(** From the reservation to the settlement, and on through a failure and a
    refund that come too late. *)
Lemma wildflow_life_cycle_witness :
  (exists r r', op_row WildDemo.reserved 11 = Some r /\ held r = true /\ op_row WildDemo.settled_db 11 = Some r' /\
     (snapshot r' = snapshot r \/ closes r r') /\ op_billing_quota r = 100 /\ op_billing_quota r' = 42) /\
  (exists r r', op_row WildDemo.settled_db 11 = Some r /\ closed r = true /\ op_row WildDemo.later_db 11 = Some r' /\
     snapshot r' = snapshot r /\ op_state r' <> op_state r).
Proof.
  split.
  - destruct (op_row WildDemo.reserved 11) as [r|] eqn:Er; [|by vm_compute in Er]. exists r.
    destruct (wildflow_life_cycle WildDemo.reserved WildDemo.settled_db 11 r WildDemo.wf_reserved WildDemo.settling Er)
      as (r' & Hr' & _ & _ & Hheld).
    exists r'. split; [done|]. assert (held r = true) as Hh by (vm_compute in Er; by injection Er as <-).
    split; [done|]. split; [done|]. split; [by apply Hheld|].
    vm_compute in Er, Hr'. injection Er as <-. injection Hr' as <-. by split.
  - destruct (op_row WildDemo.settled_db 11) as [r|] eqn:Er; [|by vm_compute in Er]. exists r.
    destruct (wildflow_life_cycle WildDemo.settled_db WildDemo.later_db 11 r WildDemo.wf_settled WildDemo.too_late Er)
      as (r' & Hr' & _ & Hclosed & _).
    exists r'. split; [done|]. assert (closed r = true) as Hc by (vm_compute in Er; by injection Er as <-).
    split; [done|]. split; [done|]. split; [by apply Hclosed|].
    vm_compute in Er, Hr'. injection Er as <-. injection Hr' as <-. done.
Defined.

(** ** What one operation does to the operation and the wallet *)

Section Effects.
Context (d : DB) (r : WildFlowOperation) (f : WildFlowOperation -> WildFlowOperation) (d' : DB).
Hypothesis Hwf : wf_ops d.
Hypothesis Heff : effected d r f d'.
Hypothesis Hid : forall x, op_id (f x) = op_id x.
Hypothesis Hname : forall x, op_operation_id (f x) = op_operation_id x.

Lemma effected_row : op_row d' (op_id r) = Some (f r).
Proof.
  destruct Heff as (_ & Hr & Ho). unfold op_row in *. rewrite Ho, find_upd_stable, Hr by (intros x; unfold has_op_id; by rewrite Hid).
  cbn. unfold has_op_id. by rewrite Z.eqb_refl.
Qed.

Lemma effected_named : List.find (has_operation (op_operation_id r)) (db_operations d') = Some (f r).
Proof.
  destruct Heff as (Hb & _ & _). pose proof (off_wf _ _ _ _ Hb) as Hwf'.
  apply (find_unique op_operation_id has_operation (fun i x => str_eqb_true _ _)); [apply Hwf' | | by rewrite Hname].
  exact (proj1 (List.find_some _ _ effected_row)).
Qed.

Lemma effected_wallet u : live_user d u = true ->
  wallet d' u = wallet d u + wallet_charge u r - wallet_charge u (f r).
Proof.
  intros Hu. destruct Heff as ([_ _ _ Huser _ _ _] & Hr & Ho). specialize (Huser u Hu). unfold user_worth in Huser.
  rewrite Ho in Huser.
  rewrite (sum_upd_one op_id has_op_id has_op_id_spec _ _ f (op_id r) r) in Huser;
    [|apply Hwf | exact Hr | intros; by apply has_op_id_spec].
  unfold has_op_id in Huser. rewrite Z.eqb_refl in Huser. lia.
Qed.

Lemma effected_key t : 0 < t -> is_Some (token_row d t) ->
  key_remain d' t = key_remain d t + key_charge t r - key_charge t (f r).
Proof.
  intros Ht Hs. destruct Heff as ([_ _ _ _ Hkey _ _] & Hr & Ho). specialize (Hkey t Ht Hs). unfold key_worth in Hkey.
  rewrite Ho in Hkey.
  rewrite (sum_upd_one op_id has_op_id has_op_id_spec _ _ f (op_id r) r) in Hkey;
    [|apply Hwf | exact Hr | intros; by apply has_op_id_spec].
  unfold has_op_id in Hkey. rewrite Z.eqb_refl in Hkey. lia.
Qed.
End Effects.

(** The cache updates after the commit. *)
Lemma wp_wild_sync u key x y (Q : result unit -> St -> Prop) e d fs tr :
  (forall tr', Q (inr tt) (mkSt d fs tr')) -> wp (syncWildFlowBillingQuotaCache u key x y) Q e (mkSt d fs tr).
Proof. intros H. unfold syncWildFlowBillingQuotaCache. wp_steps; apply H. Qed.

(** [post] of a transaction, after which only caches are touched. *)
Lemma wp_committed {A} (body : M A) (post : A -> DB -> Prop) (Q : result A -> St -> Prop) e d fs tr :
  (forall fs1, wp body (returning d post) e (mkSt d fs1 tr)) ->
  (forall err s', st_db s' = d -> Q (inl err) s') ->
  (forall a d' fs' tr', balanced d d' -> post a d' -> Q (inr a) (mkSt d' fs' tr')) ->
  wp (transaction body) Q e (mkSt d fs tr).
Proof.
  intros Hb Herr Hok. apply wp_transaction; [by intros; apply Herr|]. intros fs1. eapply wp_mono; [apply Hb|].
  intros [err|a] [d' fs' tr'] H; cbn; [by apply Herr|]. destruct H as [Hbal Hp]. split; [by intros; apply Herr|].
  intros. by apply Hok.
Qed.

Lemma snapshot_matches quote source sub tq now r :
  ensureWildFlowBillingCanReserve (wildFlowBillingSnapshotUpdates quote source sub tq now r) quote = inr false.
Proof.
  unfold ensureWildFlowBillingCanReserve, billingQuoteMatchesOperation. cbn.
  by rewrite !str_eqb_refl, !Z.eqb_refl.
Qed.

Lemma can_replay r quote :
  ensureWildFlowBillingCanReserve r quote = inr false -> billingQuoteMatchesOperation r quote = true.
Proof.
  unfold ensureWildFlowBillingCanReserve. destruct (_ || _).
  - by destruct (billingQuoteMatchesOperation r quote).
  - by destruct (_ || _).
Qed.

(** Replaying a reservation. *)
Lemma reserve_replay quote op e d tr :
  quote_Validate quote = inr tt ->
  List.find (has_operation (op_operation_id op)) (db_operations d) = Some op ->
  ensureWildFlowBillingCanReserve op quote = inr false ->
  ReserveWildFlowWalletBilling (op_operation_id op) quote e (mkSt d [] tr) = (inr op, mkSt d [] tr).
Proof.
  intros Hq Hf Hc. unfold ReserveWildFlowWalletBilling. erewrite run_bind by (unfold lift; rewrite Hq; reflexivity).
  erewrite run_bind; [|apply run_transaction; unfold reserveWildFlowWalletBillingTx, loadWildFlowOperationForBilling;
    erewrite run_bind by (by apply run_first); erewrite run_bind by (unfold lift; rewrite Hc; reflexivity); reflexivity].
  reflexivity.
Qed.

(** Reserving from the wallet is all or nothing under any driver failure:
    on an error no table changed; otherwise the operation is answered with this
    quote, either because it already carried it (and nothing changed) or newly
    reserved, with exactly the quote's quota taken from the wallet and exactly
    the recorded key share taken from the key.  Repeating the call answers the
    same and changes nothing. *)
Theorem wildflow_reserve_exact id quote e d fs tr res s' :
  wf_ops d -> qt_Quota quote <= max_int64 ->
  ReserveWildFlowWalletBilling id quote e (mkSt d fs tr) = (res, s') ->
  match res with
  | inl _ => st_db s' = d
  | inr op =>
      let u := op_user_id op in
      let t := op_token_id op in
      op_operation_id op = id /\ billingQuoteMatchesOperation op quote = true /\
      op_row (st_db s') (op_id op) = Some op /\
      (st_db s' = d \/
       in_state WildFlowBillingStateReserved op = true /\
       (live_user d u = true -> wallet (st_db s') u = wallet d u - qt_Quota quote) /\
       (0 < t -> is_Some (token_row d t) ->
          key_remain (st_db s') t = key_remain d t - op_billing_token_quota op)) /\
      forall e2 tr2, ReserveWildFlowWalletBilling id quote e2 (mkSt (st_db s') [] tr2)
                     = (inr op, mkSt (st_db s') [] tr2)
  end.
Proof.
  intros Hwf Hm E. pattern res, s'. refine (wp_use _ _ _ _ _ _ _ E). clear E res s'.
  unfold ReserveWildFlowWalletBilling at 1. do 2 wp_step. destruct (quote_Validate quote) as [err|[]] eqn:Hq; [done|].
  pose proof (valid_quote quote Hq) as Hpos. cbn beta iota. wp_step.
  eapply wp_committed; [intros; apply reserve_wallet_balanced; [done | lia] | by intros err s' H |].
  intros [op key tq [|]] d' fs' tr' Hb Hp; cbn [wr_changed wr_result wr_tokenKey wr_tokenQuota] in *; cbn beta iota; wp_step.
  - destruct Hp as (r & tq' & sub & Hid & Hh & Hc & Htq & Hp). cbv zeta in Hp.
    set (f := wildFlowBillingSnapshotUpdates quote WildFlowBillingSourceWallet sub tq' (env_now e)) in *. destruct Hp as [-> He].
    unfold when. apply wp_wild_sync. intros tr2. wp_steps. cbv zeta. cbn [st_db].
    destruct (fresh_charges r (op_user_id r) Hh Hc) as [Hw0 _]. destruct (fresh_charges r (op_token_id r) Hh Hc) as [_ Hk0].
    change (op_user_id (f r)) with (op_user_id r). change (op_token_id (f r)) with (op_token_id r). change (op_id (f r)) with (op_id r).
    assert (op_operation_id (f r) = id) as Hid' by exact Hid.
    pose proof (effected_row d r f d' He (fun _ => eq_refl)) as Hrow.
    pose proof (effected_named d r f d' He (fun _ => eq_refl) (fun _ => eq_refl)) as Hnamed.
    pose proof (snapshot_matches quote WildFlowBillingSourceWallet sub tq' (env_now e) r) as Hcan. fold f in Hcan.
    split; [done|]. split; [by apply can_replay|]. split; [done|]. split.
    + right. split; [done|]. split.
      * intros Hl. rewrite (effected_wallet d r f d' Hwf He _ Hl), Hw0.
        assert (wallet_charge (op_user_id r) (f r) = qt_Quota quote) as ->; [|lia].
        unfold wallet_charge; cbn. by rewrite Z.eqb_refl.
      * intros Ht Hs. rewrite (effected_key d r f d' Hwf He _ Ht Hs), Hk0.
        assert (key_charge (op_token_id r) (f r) = op_billing_token_quota (f r)) as ->; [|lia].
        unfold key_charge; cbn. by rewrite Z.eqb_refl.
    + intros e2 tr3. rewrite <- Hid'. apply reserve_replay; [done | | done]. rewrite Hid', <- Hid. exact Hnamed.
  - destruct Hp as (-> & Hrow & Hid & Hcan). wp_steps. cbv zeta.
    split; [done|]. split; [by apply can_replay|]. split; [done|]. split; [by left|].
    intros e2 tr2. rewrite <- Hid. apply reserve_replay; [done | | done].
    apply (find_unique op_operation_id has_operation (fun i x => str_eqb_true _ _)); [apply Hwf | | done].
    exact (proj1 (List.find_some _ _ Hrow)).
Qed.

Lemma wildflow_reserve_exact_witness :
  let res := ReserveWildFlowWalletBilling "op-1" WildDemo.quote Demo.env (mkSt WildDemo.db [] []) in
  match fst res with
  | inl _ => False
  | inr op => op_row (st_db (snd res)) (op_id op) = Some op
  end.
Proof.
  set (res := ReserveWildFlowWalletBilling "op-1" WildDemo.quote Demo.env (mkSt WildDemo.db [] [])).
  assert (match fst res with inr _ => true | _ => false end = true) as Hb by (vm_compute; reflexivity).
  pose proof (wildflow_reserve_exact "op-1" WildDemo.quote Demo.env WildDemo.db [] [] (fst res) (snd res) WildDemo.wild_wf_db
    ltac:(vm_compute; discriminate)
    (surjective_pairing res)) as H.
  clearbody res. cbv zeta. destruct (fst res) as [err|op]; [discriminate|]. exact (proj1 (proj2 (proj2 H))).
Defined.

(** The proportional charge is the ceiling of the exact proportion. *)
Lemma ceil_proportional total actual maximum :
  0 <= total -> 0 < actual <= maximum -> total * actual + maximum <= max_int64 ->
  let q := ceilProportionalInt64 total actual maximum in
  total * actual <= q * maximum < total * actual + maximum.
Proof.
  intros Ht Ha Hm. cbv zeta. unfold ceilProportionalInt64. destruct (Z.eqb_spec total 0) as [->|Hne]; [lia|].
  assert (0 <= total * actual) by nia.
  rewrite (i64_small (total * actual)) by (unfold in_i64, min_int64; lia).
  rewrite (i64_small (total * actual + maximum)) by (unfold in_i64, min_int64; lia).
  rewrite i64_small by (unfold in_i64, min_int64; lia). rewrite Z.quot_div_nonneg by lia.
  pose proof (Z.div_mod (total * actual + maximum - 1) maximum ltac:(lia)).
  pose proof (Z.mod_pos_bound (total * actual + maximum - 1) maximum ltac:(lia)). nia.
Qed.

(** What a settled operation is billed, given what it reserved and the event. *)
Definition billed (r : WildFlowOperation) (event : WildFlowUsageEvent) (q : Z) : Prop :=
  if str_eqb (op_billing_unit r) "audio_millisecond"
  then 0 < q /\
       (op_billing_quota r * ue_quantity event + op_billing_billable_units r <= max_int64 ->
        op_billing_quota r * ue_quantity event <= q * op_billing_billable_units r
          < op_billing_quota r * ue_quantity event + op_billing_billable_units r)
  else q = op_billing_quota r.

Lemma usage_billed r event usage :
  op_ok r -> wildFlowActualUsageBilling r event = inr usage -> billed r event (wu_quota usage).
Proof.
  intros (Hq & _). unfold wildFlowActualUsageBilling, billed. destruct (str_eqb _ _); cbn [negb]; [|by intros [= <-]].
  destruct (_ || _ || _) eqn:E; [done|].
  apply orb_false_iff in E as [[Hm%Z.leb_gt Ha%Z.leb_gt]%orb_false_iff Hle%Z.ltb_ge].
  set (q := ceilProportionalInt64 (op_billing_quota r) _ _). set (t := ceilProportionalInt64 (op_billing_token_quota r) _ _).
  set (m := ceilProportionalInt64 (op_billing_amount_micros r) _ _).
  destruct (m <=? 0); [done|]. destruct (Z.leb_spec q 0) as [|Hpos]; [done|]. destruct (_ || _ || _); [done|]. intros [= <-].
  split; [exact Hpos|]. intros Hov. apply ceil_proportional; lia.
Qed.

(** Settling: on an error no table changed; when nothing is settled no
    balance or operation changed; when it is, the operation was a reserved and
    succeeded one with a matching usage event, it is billed the exact
    proportion of its reservation (rounded up), never more than it reserved,
    and exactly the rest goes back to the wallet. *)
Theorem wildflow_settle_exact id e d fs tr res s' :
  wf_ops d -> SettleWildFlowOperationBilling id e (mkSt d fs tr) = (res, s') ->
  match res with
  | inl _ => st_db s' = d
  | inr (op, false) => worth_view (st_db s') = worth_view d
  | inr (op, true) => exists r event,
      op_row d (op_id op) = Some r /\ op_operation_id r = id /\
      in_state WildFlowBillingStateReserved r = true /\ op_state r = "succeeded"%string /\
      In event (db_usage_events d) /\ wildFlowUsageEventMatchesOperation r event = true /\
      op_row (st_db s') (op_id op) = Some op /\ settled op = true /\
      op_billing_usage_event_id op = ue_event_id event /\
      billed r event (op_billing_quota op) /\ op_billing_quota op <= op_billing_quota r /\
      (op_billing_source r = WildFlowBillingSourceWallet -> live_user d (op_user_id r) = true ->
       wallet (st_db s') (op_user_id r) = wallet d (op_user_id r) + (op_billing_quota r - op_billing_quota op))
  end.
Proof.
  intros Hwf E. pattern res, s'. refine (wp_use _ _ _ _ _ _ _ E). clear E res s'.
  unfold SettleWildFlowOperationBilling. wp_step.
  eapply wp_committed; [intros; by apply settle_balanced | by intros err s' H |].
  intros [op [|] key x y] d' fs' tr' Hb Hp; cbn [ws_changed ws_result ws_tokenKey ws_userRefund ws_tokenRefund] in *; cbn beta iota.
  2:{ wp_steps. exact Hp. }
  destruct Hp as (r & event & usage & Hid & Hres & Hsucc & Hin & Hev & Hmatch & Hu & Hq & Ht & Hp). cbv zeta in Hp.
  set (f := settled_snapshot usage (ue_event_id event) (env_now e)) in *. destruct Hp as [-> He].
  assert (wp (when (true && ((0 <? x) || (0 <? y))) (let userID := if str_eqb (op_billing_source (f r)) WildFlowBillingSourceWallet
      then op_user_id (f r) else 0 in syncWildFlowBillingQuotaCache userID key x y))
    (fun r s => match r with inr _ => st_db s = d' | inl _ => False end) e (mkSt d' fs' tr')) as Hsync.
  { wp_step; [by apply wp_wild_sync | done]. }
  wp_step. eapply wp_mono; [exact Hsync|]. intros [?|?] [d2 fs2 tr2] H; [done|]. cbn in H. subst d2. wp_steps. cbn [st_db].
  destruct He as (Hbal & Hrow & Ho). assert (effected d r f d') as He by done.
  pose proof (proj1 (List.find_some _ _ Hrow)) as Hin_r. pose proof (wo_ok d Hwf r Hin_r) as Hok.
  exists r, event. apply str_eqb_true in Hsucc.
  refine (conj Hrow (conj Hid (conj Hres (conj Hsucc (conj Hin (conj Hmatch _)))))).
  split; [exact (effected_row d r f d' He (fun _ => eq_refl))|]. split; [done|]. split; [done|].
  split; [by apply usage_billed|]. split; [exact Hq|]. intros Hsrc Hl.
  rewrite (effected_wallet d r f d' Hwf He _ Hl). change (op_billing_quota (f r)) with (wu_quota usage).
  assert (charging r = true) as Hc by (unfold charging, held; by rewrite Hres).
  destruct (charge_change r (f r) (op_user_id r) Hc eq_refl eq_refl) as [Hw _].
  rewrite Hsrc, Z.eqb_refl in Hw. cbn [str_eqb andb String.eqb] in Hw.
  change (op_billing_quota (f r)) with (wu_quota usage) in Hw. rewrite str_eqb_refl in Hw. cbn in Hw. lia.
Qed.

Lemma wildflow_settle_exact_witness :
  let res := SettleWildFlowOperationBilling "op-1" Demo.env (mkSt WildDemo.succeeded [] []) in
  match fst res with
  | inr (op, true) => op_row (st_db (snd res)) (op_id op) = Some op
  | _ => False
  end.
Proof.
  set (res := SettleWildFlowOperationBilling "op-1" Demo.env (mkSt WildDemo.succeeded [] [])).
  assert (match fst res with inr (_, true) => true | _ => false end = true) as Hb by (vm_compute; reflexivity).
  pose proof (wildflow_settle_exact "op-1" Demo.env WildDemo.succeeded [] [] (fst res) (snd res) WildDemo.wf_succeeded
    (surjective_pairing res)) as H.
  clearbody res. cbv zeta. destruct (fst res) as [err|[op [|]]]; [discriminate | | discriminate].
  destruct H as (r & ev & _ & _ & _ & _ & _ & _ & H & _). exact H.
Defined.

(** Refunding: on an error no table changed; when nothing is refunded no
    balance or operation changed; when it is, the operation was held and had
    failed or been cancelled, and exactly what it held returns to the wallet
    and to the key, a soft-deleted key included. *)
Theorem wildflow_refund_exact id e d fs tr res s' :
  wf_ops d -> RefundWildFlowOperationBilling id e (mkSt d fs tr) = (res, s') ->
  match res with
  | inl _ => st_db s' = d
  | inr (op, false) => worth_view (st_db s') = worth_view d
  | inr (op, true) => exists r,
      op_row d (op_id op) = Some r /\ op_operation_id r = id /\ held r = true /\
      (op_state r = "failed"%string \/ op_state r = "cancelled"%string) /\
      op_row (st_db s') (op_id op) = Some op /\ refunded op = true /\
      (op_billing_source r = WildFlowBillingSourceWallet -> live_user d (op_user_id r) = true ->
       wallet (st_db s') (op_user_id r) = wallet d (op_user_id r) + op_billing_quota r) /\
      (0 < op_token_id r -> is_Some (token_row d (op_token_id r)) ->
       key_remain (st_db s') (op_token_id r) = key_remain d (op_token_id r) + op_billing_token_quota r)
  end.
Proof.
  intros Hwf E. pattern res, s'. refine (wp_use _ _ _ _ _ _ _ E). clear E res s'.
  unfold RefundWildFlowOperationBilling. wp_step.
  eapply wp_committed; [intros; by apply refund_balanced | by intros err s' H |].
  intros [[op [|]] key] d' fs' tr' Hb Hp; cbn [fst snd] in *; cbn beta iota.
  2:{ wp_steps. exact Hp. }
  destruct Hp as (r & Hid & Hh & Hst & Hp). cbv zeta in Hp. set (f := refunded_snapshot (env_now e)) in *.
  destruct Hp as [-> He]. wp_step. unfold when. apply wp_wild_sync. intros tr2. wp_steps. cbn [st_db].
  destruct He as (Hbal & Hrow & Ho). assert (effected d r f d') as He by done.
  assert (charging r = true) as Hc by (unfold charging; by rewrite Hh).
  exists r. refine (conj Hrow (conj Hid (conj Hh _))).
  split; [apply orb_true_iff in Hst as [?%str_eqb_true|?%str_eqb_true]; auto|].
  split; [exact (effected_row d r f d' He (fun _ => eq_refl))|]. split; [done|]. split.
  - intros Hsrc Hl. rewrite (effected_wallet d r f d' Hwf He _ Hl).
    assert (wallet_charge (op_user_id r) (f r) = 0) as -> by done.
    assert (wallet_charge (op_user_id r) r = op_billing_quota r) as ->; [|lia].
    unfold wallet_charge. by rewrite Hc, Hsrc, str_eqb_refl, Z.eqb_refl.
  - intros Ht Hs. rewrite (effected_key d r f d' Hwf He _ Ht Hs).
    assert (key_charge (op_token_id r) (f r) = 0) as -> by done.
    assert (key_charge (op_token_id r) r = op_billing_token_quota r) as ->; [|lia].
    unfold key_charge. by rewrite Hc, Z.eqb_refl.
Qed.

Lemma wildflow_refund_exact_witness :
  let res := RefundWildFlowOperationBilling "op-1" Demo.env (mkSt WildDemo.failed [] []) in
  match fst res with
  | inr (op, true) => op_row (st_db (snd res)) (op_id op) = Some op
  | _ => False
  end.
Proof.
  set (res := RefundWildFlowOperationBilling "op-1" Demo.env (mkSt WildDemo.failed [] [])).
  assert (match fst res with inr (_, true) => true | _ => false end = true) as Hb by (vm_compute; reflexivity).
  pose proof (wildflow_refund_exact "op-1" Demo.env WildDemo.failed [] [] (fst res) (snd res) WildDemo.wf_failed
    (surjective_pairing res)) as H.
  clearbody res. cbv zeta. destruct (fst res) as [err|[op [|]]]; [discriminate | | discriminate].
  destruct H as (r & _ & _ & _ & _ & H & _). exact H.
Defined.
