(* ===== verification/WildFlowProjection.v ===== *)
(** * WildFlowProjection: the audit log is projected exactly once

    The canonical entries are copied to the generic log by any number of
    callers, under leases that can expire and driver failures anywhere; the
    receipt of the log database makes the copy happen once. *)

From S2P Require Import Prelude Schema Store Logic Frame Ledger Demo Calendar Quota Subscription SubscriptionFacts Reservation ReservationRules WildFlowOperations WildFlowBilling WildFlowFacts WildFlowBooks WildFlowTheorems.
From stdpp Require Import base numbers option strings list sorting.
From Stdlib Require Import ZArith Lia.
Open Scope Z_scope.

(** Rows of the generic log for an operation and log type. *)
Definition logged (d : DB) (id : string) (logType : Z) : Z :=
  rows_count (is_projection_of id logType) (db_logs d).

(** A step writes at most the first row of each operation and type. *)
Definition logs_once (d d' : DB) : Prop := forall id logType,
  logged d' id logType = logged d id logType \/
  (logged d id logType = 0 /\ logged d' id logType = 1).

#[export] Instance logs_once_preorder : PreOrder logs_once.
Proof.
  split; [by left|]. intros d1 d2 d3 H1 H2 id logType.
  destruct (H1 id logType) as [|[]], (H2 id logType) as [|[]]; lia.
Qed.

(** The projection tables. *)
Definition log_view (d : DB) := (db_log_entries d, db_receipts d, db_logs d).

Lemma rows_count_app {R} (p : R -> bool) l1 l2 : rows_count p (l1 ++ l2) = rows_count p l1 + rows_count p l2.
Proof. unfold rows_count. rewrite List.filter_app, List.length_app. lia. Qed.

(** ** What marks an entry or a receipt as projected *)

Record projected_ok (d : DB) : Prop := mkProjectedOk {
  po_receipts : forall r, In r (db_receipts d) -> rc_projected r = true ->
                1 <= logged d (rc_operation_id r) (rc_log_type r);
  po_entries : forall r, In r (db_log_entries d) ->
               le_projection_state r = WildFlowBillingProjectionProjected ->
               1 <= logged d (le_operation_id r) (le_log_type r)
}.

(** A step that writes logs once and keeps what is marked truthful. *)
Definition truthful (d d' : DB) : Prop := logs_once d d' /\ (projected_ok d -> projected_ok d').

#[export] Instance truthful_preorder : PreOrder truthful.
Proof.
  split; [split; [reflexivity | done]|]. intros d1 d2 d3 [H1 P1] [H2 P2]. split; [by etransitivity | auto].
Qed.

Lemma truthful_same d d' : log_view d' = log_view d -> truthful d d'.
Proof.
  intros [= He Hr Hl]. split.
  - intros id logType. left. unfold logged. by rewrite Hl.
  - intros [Pr Pe]. unfold logged in *. split; unfold logged; rewrite ?He, ?Hr, ?Hl; done.
Qed.

Lemma truthful_aside {A} (c : M A) : respects (tables (same log_view)) c -> respects (tables truthful) c.
Proof. apply respects_tables_weaken. exact truthful_same. Qed.

(** Updating entries without marking them. *)
Lemma truthful_entries (p : WildFlowBillingLogEntry -> bool) f d :
  (forall r, p r = true -> le_operation_id (f r) = le_operation_id r /\ le_log_type (f r) = le_log_type r /\
     (le_projection_state (f r) = WildFlowBillingProjectionProjected ->
      1 <= logged d (le_operation_id r) (le_log_type r))) ->
  truthful d (t_set LogEntries (List.map (fun r => if p r then f r else r) (db_log_entries d)) d).
Proof.
  intros Hf. split; [by left|]. intros [Pr Pe]. split; [done|].
  intros r' [r [<- Hin]]%in_map_iff Hst. change (logged (t_set LogEntries _ d)) with (logged d).
  destruct (p r) eqn:E; [|by apply Pe]. destruct (Hf r E) as (-> & -> & H). by apply H.
Qed.

Lemma truthful_new_entry r d :
  le_projection_state r <> WildFlowBillingProjectionProjected ->
  truthful d (t_set LogEntries (db_log_entries d ++ [r]) d).
Proof.
  intros Hr. split; [by left|]. intros [Pr Pe]. split; [done|].
  intros r' [Hin|[<-|[]]]%in_app_or Hst; [|done]. by apply Pe.
Qed.

(** ** The statements that touch the projection tables *)

Lemma entry_BeforeCreate_open now entry :
  le_projection_state entry <> WildFlowBillingProjectionProjected ->
  le_projection_state (entry_BeforeCreate now entry) <> WildFlowBillingProjectionProjected.
Proof. intros H. unfold entry_BeforeCreate. by repeat case_match. Qed.

Lemma audit_truthful operation logType content :
  respects (tables truthful) (ensureWildFlowCanonicalBillingLogTx operation logType content).
Proof.
  unfold ensureWildFlowCanonicalBillingLogTx. destruct (_ || _); [apply respects_raise, _|].
  apply respects_bind; [apply _ | apply respects_ask, _|]. intros consume.
  apply respects_bind; [apply _ | apply respects_ask, _|]. intros now. cbv zeta.
  match goal with |- context [if ?b then WildFlowBillingProjectionNotRequired else ?x] =>
    set (st := if b then WildFlowBillingProjectionNotRequired else x) end.
  assert (st <> WildFlowBillingProjectionProjected) as Hst by (unfold st; by destruct (_ && _)).
  apply respects_bind; [apply _ | |].
  - apply respects_stmt; [apply _|]. intros d fs tr. cbv zeta.
    match goal with |- context [t_assign LogEntries _ ?x] => set (r := x) end.
    assert (le_projection_state r <> WildFlowBillingProjectionProjected) as Hr
      by (by apply entry_BeforeCreate_open).
    clearbody r. destruct (List.existsb _ _); cbn [snd]; [apply truthful_preorder|]. by apply truthful_new_entry.
  - intros _. apply respects_bind; [apply _ | apply respects_find_first, _|]. intros entry.
    destruct (negb (entry_agrees _ _ _)); [apply respects_raise, _|]. destruct (str_eqb (le_projection_state entry) _); [|apply respects_ret, _].
    apply respects_bind; [apply _ | | intros; apply respects_ret, _].
    apply respects_stmt; [apply _|]. intros d fs tr. apply truthful_entries. intros r _. split_and!; done.
Qed.

(** An update of entries that marks none of them. *)
Lemma respects_entries p (f : WildFlowBillingLogEntry -> WildFlowBillingLogEntry) :
  (forall r, le_operation_id (f r) = le_operation_id r /\ le_log_type (f r) = le_log_type r /\
             le_projection_state (f r) <> WildFlowBillingProjectionProjected) ->
  respects (tables truthful) (update LogEntries p f).
Proof.
  intros Hf. apply respects_stmt; [apply _|]. intros d fs tr. apply truthful_entries. intros r _.
  destruct (Hf r) as (? & ? & ?). by split_and!.
Qed.

Lemma claim_truthful tok id logType : respects (tables truthful) (claimWildFlowBillingProjection tok id logType).
Proof.
  assert (forall p now, respects (tables truthful) (update LogEntries p (claimed_entry tok now))) as H
    by (intros; by apply respects_entries).
  unfold claimWildFlowBillingProjection. respects_auto.
Qed.

Lemma failed_truthful {A} err entry tok : respects (tables truthful) (projection_failed err entry tok : M A).
Proof.
  assert (respects (tables truthful) (markWildFlowBillingProjectionFailed entry tok
            (wildFlowBillingProjectionFailureCode err))) as H.
  { unfold markWildFlowBillingProjectionFailed. apply respects_bind; [apply _ | | intros; apply respects_ret, _].
    apply respects_entries. intros r. by case_match. }
  unfold projection_failed. respects_auto.
Qed.

(** *** The receipt transaction *)

Lemma projection_keys id ty id' ty' l :
  is_projection_of id ty l = true -> is_projection_of id' ty' l = true -> id' = id /\ ty' = ty.
Proof.
  unfold is_projection_of. intros [<-%str_eqb_true <-%Z.eqb_eq]%andb_true_iff [->%str_eqb_true ->%Z.eqb_eq]%andb_true_iff.
  done.
Qed.

Lemma truthful_log id ty l d :
  logged d id ty = 0 -> is_projection_of id ty l = true ->
  truthful d (t_set Logs (db_logs d ++ [l]) d) /\ logged (t_set Logs (db_logs d ++ [l]) d) id ty = 1.
Proof.
  intros H0 Hl.
  assert (forall id' ty', logged (t_set Logs (db_logs d ++ [l]) d) id' ty' =
            logged d id' ty' + (if is_projection_of id' ty' l then 1 else 0)) as Hc.
  { intros. unfold logged. cbn [t_set Logs db_logs]. rewrite rows_count_app. unfold rows_count at 2. cbn.
    by destruct (is_projection_of id' ty' l). }
  split; [split|].
  - intros id' ty'. rewrite Hc. destruct (is_projection_of id' ty' l) eqn:E; [|left; lia].
    destruct (projection_keys _ _ _ _ _ Hl E) as [-> ->]. right. lia.
  - intros [Pr Pe]. split; intros r Hin Hp; rewrite Hc.
    + specialize (Pr r Hin Hp). case_match; lia.
    + specialize (Pe r Hin Hp). case_match; lia.
  - by rewrite Hc, H0, Hl.
Qed.

Lemma truthful_receipt r d :
  rc_projected r = false -> truthful d (t_set Receipts (db_receipts d ++ [r]) d).
Proof.
  intros Hr. split; [by left|]. intros [Pr Pe]. split; [|done].
  intros r' [Hin|[<-|[]]]%in_app_or Hp; [by apply Pr | congruence].
Qed.

Lemma truthful_mark id ty (p : WildFlowBillingLogProjectionReceipt -> bool) f d0 d :
  truthful d0 d -> (projected_ok d0 -> 1 <= logged d id ty) ->
  (forall r, p r = true -> rc_operation_id (f r) = id /\ rc_log_type (f r) = ty) ->
  truthful d0 (t_set Receipts (upd_rows p f (db_receipts d)) d).
Proof.
  intros [Ho Ht] H1 Hf. split; [exact Ho|]. intros Hok. destruct (Ht Hok) as [Pr Pe]. split; [|done].
  intros r' [r [<- Hin]]%in_map_iff Hp. change (logged (t_set Receipts _ d)) with (logged d).
  destruct (p r) eqn:E; [|by apply Pr]. destruct (Hf r E) as [-> ->]. by apply H1.
Qed.

(** Whatever happened since [d] is truthful, and a success means that the row
    is in the log. *)
Definition writes_log {A} (id : string) (ty : Z) (d : DB) (r : result A) (s' : St) : Prop :=
  truthful d (st_db s') /\
  match r with inr _ => projected_ok d -> 1 <= logged (st_db s') id ty | inl _ => True end.

Section Receipt.
Context (id : string) (ty : Z) (e : Env) (d : DB).

Lemma writes_log_err {A} err d1 fs tr : truthful d d1 -> writes_log (A:=A) id ty d (inl err) (mkSt d1 fs tr).
Proof. by split. Qed.

Lemma writes_log_ok {A} (a : A) d1 fs tr :
  truthful d d1 -> (projected_ok d -> 1 <= logged d1 id ty) -> writes_log id ty d (inr a) (mkSt d1 fs tr).
Proof. by split. Qed.

(** The row is written unless the log has one. *)
Lemma receipt_log logEntry d1 fs tr :
  truthful d d1 -> is_projection_of id ty logEntry = true ->
  wp (when (logged d1 id ty =? 0) (create Logs logEntry ;; mret tt))
    (writes_log (A:=unit) id ty d) e (mkSt d1 fs tr).
Proof.
  intros Ht Hl. apply wp_when; intros E.
  - apply Z.eqb_eq in E. apply wp_bind, wp_create; [by intros; apply writes_log_err | by intros; apply writes_log_err |].
    intros fs2 _. apply wp_ret. cbv zeta. set (l := t_assign Logs (t_get Logs d1) logEntry).
    assert (is_projection_of id ty l = true) as Hl' by (unfold l; cbn; unfold assign_id; by case_match).
    destruct (truthful_log id ty l d1 E Hl') as [H1 H2]. apply writes_log_ok; [by etransitivity|].
    intros _. change (1 <= logged (t_set Logs (db_logs d1 ++ [l]) d1) id ty). lia.
  - apply Z.eqb_neq in E. apply writes_log_ok; [done|]. intros _.
    pose proof (rows_count_nonneg (is_projection_of id ty) (db_logs d1)). unfold logged in *. lia.
Qed.

(** Marking the receipt and reading it back. *)
Lemma receipt_mark now d1 fs tr :
  truthful d d1 -> (projected_ok d -> 1 <= logged d1 id ty) ->
  wp (update Receipts (fun r => has_receipt id ty r && negb (rc_projected r))
        (fun r => r <| rc_projected := true |> <| rc_projected_time := now |>) ;;
      persisted ← find_first Receipts (has_receipt id ty);
      guard_err (negb (rc_projected persisted))
        (EText "WildFlow billing log projection receipt was not committed"))
    (writes_log (A:=unit) id ty d) e (mkSt d1 fs tr).
Proof.
  intros Ht Hl. apply wp_bind, wp_update; [by intros; apply writes_log_err|]. intros fs1.
  match goal with |- context [mkSt ?x fs1 tr] => set (d2 := x) end.
  assert (truthful d d2) as Ht2.
  { apply (truthful_mark id ty); [done..|].
    intros r [[->%str_eqb_true ->%Z.eqb_eq]%andb_true_iff _]%andb_true_iff. done. }
  apply wp_bind, wp_find_first; [by intros; apply writes_log_err.. |]. intros fs2 r Hr.
  apply wp_guard; intros _; [by apply writes_log_err|]. by apply writes_log_ok.
Qed.

End Receipt.

(** The first run writes the row, later ones find it. *)
Lemma receipt_body operation entry logEntry e d fs tr :
  let id := op_operation_id operation in let ty := le_log_type entry in
  is_projection_of id ty logEntry = true ->
  wp (project_receipt_tx operation entry logEntry) (writes_log id ty d) e (mkSt d fs tr).
Proof.
  intros id ty Hl. unfold project_receipt_tx. fold id ty. cbv zeta. do 2 wp_step. cbn beta iota.
  apply wp_bind. refine (wp_mono _ (fun r s => truthful d (st_db s)) _ _ _ _ _).
  { apply wp_create_or_ignore; [done.. |]. intros fs1 _. by apply truthful_receipt. }
  intros [err|created] [d1 fs1 tr1] H1; [by apply writes_log_err|]. cbn in H1.
  apply wp_bind, wp_find_first; [by intros; apply writes_log_err.. |]. intros fs2 receipt Hf.
  destruct (rc_projected receipt) eqn:Hp.
  - apply wp_ret, writes_log_ok; [done|]. intros Hok. apply List.find_some in Hf as [Hin Hk].
    unfold has_receipt in Hk. apply andb_true_iff in Hk as [Hi%str_eqb_true Hy%Z.eqb_eq].
    pose proof (po_receipts _ (proj2 H1 Hok) receipt Hin Hp) as H. by rewrite Hi, Hy in H.
  - apply wp_bind, wp_count; [by intros; apply writes_log_err|]. intros fs3. apply wp_bind.
    eapply wp_mono; [by apply (receipt_log id ty e d)|].
    intros [err|[]] [d2 fs4 tr2] [H2 Hlog]; [by apply writes_log_err|]. by apply receipt_mark.
Qed.

(** *** The projection of one entry *)

Lemma generic_log_key operation entry :
  hoare (fun _ => True) (generic_log_of operation entry)
    (fun l => is_projection_of (op_operation_id operation) (le_log_type entry) l = true).
Proof.
  assert (forall (T R : Type) (t : Table R) (p : R -> bool), hoare (fun _ => True) (find_first t p) (fun _ => True)) as Hf
    by (intros; by apply hoare_find_first).
  unfold generic_log_of. eapply hoare_bind; [apply hoare_attempt, (Hf unit)|]. intros user _.
  set (ug := match user with inr u => _ | inl _ => _ end). destruct ug as [username group].
  eapply (hoare_bind _ _ _ (fun _ => True)).
  { destruct (0 <? op_token_id operation); [|by apply hoare_ret].
    eapply hoare_bind; [apply hoare_attempt, (Hf unit)|]. intros. by apply hoare_ret. }
  intros tokenName _. eapply hoare_bind; [apply hoare_ask|]. intros now _. cbv zeta.
  destruct (_ && _); [eapply hoare_bind; [apply (Hf unit)|]; intros task _|]; apply hoare_ret;
    unfold is_projection_of; cbn; by rewrite str_eqb_refl, Z.eqb_refl.
Qed.

Lemma generic_log_reads operation entry : respects (tables (same id)) (generic_log_of operation entry).
Proof. unfold generic_log_of. respects_auto. Qed.

Lemma generic_log operation entry e d fs tr :
  wp (createWildFlowGenericBillingLog operation entry)
    (writes_log (op_operation_id operation) (le_log_type entry) d) e (mkSt d fs tr).
Proof.
  unfold createWildFlowGenericBillingLog. do 2 wp_step. cbn beta iota.
  destruct (env_log_clickhouse e); [by apply writes_log_err|]. apply wp_bind.
  eapply wp_tables; [apply generic_log_reads | apply generic_log_key |].
  intros [err|l] [d' fs' tr'] Hd Hk; unfold same, id in Hd; cbn in Hd; subst d'; [by apply writes_log_err|].
  apply wp_transaction; [by intros; apply writes_log_err|]. intros fs1.
  eapply wp_mono; [by apply receipt_body|]. intros [err|[]] [d1 fs2 tr2] H; [by apply writes_log_err|].
  split; [by intros; apply writes_log_err | by intros].
Qed.

Lemma claim_key tok id logType :
  hoare (fun _ => True) (claimWildFlowBillingProjection tok id logType)
    (fun x => le_operation_id (fst x) = id /\ le_log_type (fst x) = logType).
Proof.
  set (Q := fun r => le_operation_id r = id /\ le_log_type r = logType).
  assert (hoare (fun _ => True) (find_first LogEntries (has_entry id logType)) Q) as Hf.
  { apply hoare_find_first. intros d r _ _. unfold has_entry, Q. by intros [->%str_eqb_true ->%Z.eqb_eq]%andb_true_iff. }
  unfold claimWildFlowBillingProjection. eapply hoare_bind; [apply hoare_ask|]. intros now _. cbv zeta.
  apply hoare_transaction. eapply hoare_bind; [exact Hf|]. intros entry Hq. cbv zeta.
  destruct (_ || _); [by apply hoare_ret|]. destruct (str_eqb _ WildFlowBillingProjectionUnsupported); [apply hoare_raise|].
  destruct (_ && _); [by apply hoare_ret|]. eapply hoare_bind; [by apply hoare_update|]. intros n _.
  eapply hoare_bind; [exact Hf|]. intros entry' Hq'. by apply hoare_ret.
Qed.

Lemma by_id_key id :
  hoare (fun _ => True) (GetWildFlowOperationByID id)
    (fun o => match o with Some r => op_operation_id r = id | None => True end).
Proof.
  unfold GetWildFlowOperationByID, optional.
  eapply hoare_bind; [apply hoare_attempt; apply (hoare_find_first _ _ _ (fun r => op_operation_id r = id))|].
  { intros d r _ _. unfold has_operation. by intros ->%str_eqb_true. }
  intros [err|r] Hr; [|by apply hoare_ret]. destruct err; by apply hoare_ret || apply hoare_raise.
Qed.

Lemma mark_truthful entry tok d0 e d fs tr :
  truthful d0 d -> (projected_ok d0 -> 1 <= logged d (le_operation_id entry) (le_log_type entry)) ->
  wp (markWildFlowBillingProjectionProjected entry tok) (fun _ s' => truthful d0 (st_db s')) e (mkSt d fs tr).
Proof.
  intros [Ho Ht] Hl. unfold markWildFlowBillingProjectionProjected. do 2 wp_step. cbn beta iota.
  apply wp_bind, wp_update; [by intros|]. intros fs1. cbv beta iota.
  assert (forall f : WildFlowBillingLogEntry -> WildFlowBillingLogEntry,
    (forall r, le_operation_id (f r) = le_operation_id r /\ le_log_type (f r) = le_log_type r) ->
    truthful d0 (t_set LogEntries (upd_rows (holds_claim entry tok) f (t_get LogEntries d)) d)) as H.
  { intros f Hf. split; [exact Ho|]. intros Hok. apply (truthful_entries (holds_claim entry tok) f d); [|by apply Ht].
    intros r Hr. destruct (Hf r) as [Hi Hy]. split_and!; [done..|]. intros _.
    unfold holds_claim, has_entry in Hr.
    apply andb_true_iff in Hr as [[[->%str_eqb_true ->%Z.eqb_eq]%andb_true_iff _]%andb_true_iff _]. by apply Hl. }
  apply wp_guard; intros _; by apply H.
Qed.

Lemma project_truthful tok id logType : respects (tables truthful) (projectWildFlowBillingLog tok id logType).
Proof.
  apply respects_wp. intros e d fs tr.
  assert (forall A err entry d1 fs1 tr1, truthful d d1 ->
    wp (projection_failed (A:=A) err entry tok) (fun _ s' => truthful d (st_db s')) e (mkSt d1 fs1 tr1)) as Hfail.
  { intros A err entry d1 fs1 tr1 H1. unfold wp. pose proof (failed_truthful (A:=A) err entry tok e (mkSt d1 fs1 tr1)) as H.
    destruct (projection_failed err entry tok e (mkSt d1 fs1 tr1)) as [r s]. etransitivity; [exact H1 | exact H]. }
  unfold projectWildFlowBillingLog. apply wp_bind.
  eapply wp_tables; [apply claim_truthful | apply claim_key |]. intros [err|[entry acquired]] [d1 fs1 tr1] H1 Hk; [done|].
  cbn in H1, Hk. destruct Hk as [Hi Hy]. destruct acquired; cbn [negb]; [|done].
  do 2 wp_step. cbn beta iota. destruct (env_log_db e); cbn [negb]; [|by apply Hfail].
  apply wp_bind, wp_attempt. eapply wp_tables; [|apply by_id_key|].
  { instantiate (1 := same (fun x : DB => x)). unfold GetWildFlowOperationByID, optional. respects_auto. }
  intros [err|[operation|]] [d2 fs2 tr2] Hd Ho; unfold same in Hd; cbn in Hd; subst d2; [by apply Hfail | | by apply Hfail].
  apply wp_bind, wp_attempt. eapply wp_mono; [apply generic_log|].
  intros [err|[]] [d3 fs3 tr3] [H3 Hlog]; cbn in H3.
  - apply Hfail. by etransitivity.
  - apply mark_truthful; [by etransitivity|]. intros Hok. rewrite Hi, <- Ho. apply Hlog, H1, Hok.
Qed.

#[export] Hint Resolve audit_truthful project_truthful : respects.

Lemma record_log_truthful tok operation logType content :
  respects (tables truthful) (RecordWildFlowBillingLog tok operation logType content).
Proof. unfold RecordWildFlowBillingLog. respects_auto. Qed.

Lemma audits_truthful limit : respects (tables truthful) (ReconcileWildFlowCanonicalBillingAudits limit).
Proof.
  unfold ReconcileWildFlowCanonicalBillingAudits.
  apply respects_bind; [apply _ | by apply respects_stmt; [apply _|] |]. intros candidates.
  assert (forall l n errs, respects (tables truthful) (audit_candidates l n errs)) as H; [|apply H].
  induction l as [|c l IH]; intros n errs; cbn [audit_candidates]; [apply respects_ret, _|].
  unfold audit_candidate_tx, loadWildFlowOperationForBilling. respects_auto.
Qed.

Lemma projections_truthful uuid limit : respects (tables truthful) (ReconcileWildFlowBillingLogProjections uuid limit).
Proof.
  assert (forall l uuid n errs, respects (tables truthful) (project_entries uuid l n errs)) as H.
  { clear uuid. induction l as [|c l IH]; intros uuid n errs; cbn [project_entries]; respects_auto. }
  unfold ReconcileWildFlowBillingLogProjections. respects_auto.
Qed.
#[export] Hint Resolve record_log_truthful audits_truthful projections_truthful : respects.

(** *** The billing operations write logs only through the audit *)

Lemma no_subs_truthful {A} (c : M A) : respects (keeps no_subs) c -> respects (tables truthful) c.
Proof. apply respects_keeps_tables. intros d d' H. apply truthful_same. exact (f_equal log_view H). Qed.

Lemma preConsume_truthful rid u a : respects (tables truthful) (preConsumeUserSubscriptionTx rid u a).
Proof. apply no_subs_truthful, preConsume_frame. Qed.
Lemma refundSub_truthful rid : respects (tables truthful) (refundSubscriptionPreConsumeTx rid).
Proof. apply no_subs_truthful, refund_frame. Qed.
Lemma postConsume_truthful i delta : respects (tables truthful) (postConsumeUserSubscriptionDeltaTx i delta).
Proof. apply no_subs_truthful, postConsume_frame. Qed.

(** Statements on other tables. *)
Definition off_logs {T} (t : Table T) : Prop := forall l d, log_view (t_set t l d) = log_view d.

Lemma update_truthful {T} (t : Table T) p f : off_logs t -> respects (tables truthful) (update t p f).
Proof. intros H. apply respects_stmt; [apply _|]. intros. by apply truthful_same, H. Qed.
Lemma create_truthful {T} (t : Table T) r : off_logs t -> respects (tables truthful) (create t r).
Proof.
  intros H. apply respects_stmt; [apply _|]. intros. cbv zeta. destruct (List.existsb _ _); [done|]. by apply truthful_same, H.
Qed.
Lemma create_or_ignore_truthful {T} (t : Table T) r : off_logs t -> respects (tables truthful) (create_or_ignore t r).
Proof.
  intros H. apply respects_stmt; [apply _|]. intros. cbv zeta. destruct (List.existsb _ _); [done|]. by apply truthful_same, H.
Qed.
#[export] Hint Extern 5 (off_logs _) => (intros ??; reflexivity) : respects.
#[export] Hint Resolve update_truthful create_truthful create_or_ignore_truthful preConsume_truthful
  refundSub_truthful postConsume_truthful : respects.

Lemma sync_truthful u key x y : respects (tables truthful) (syncWildFlowBillingQuotaCache u key x y).
Proof. unfold syncWildFlowBillingQuotaCache. respects_auto. Qed.
Lemma load_truthful id : respects (tables truthful) (loadWildFlowOperationForBilling id).
Proof. unfold loadWildFlowOperationForBilling. respects_auto. Qed.
Lemma key_truthful operation quote : respects (tables truthful) (reserve_operation_token operation quote).
Proof. unfold reserve_operation_token. respects_auto. Qed.
Lemma store_snapshot_truthful operation quote source sub tq :
  respects (tables truthful) (store_snapshot operation quote source sub tq).
Proof. unfold store_snapshot. respects_auto. Qed.
#[export] Hint Resolve sync_truthful load_truthful key_truthful store_snapshot_truthful : respects.

Lemma settle_usage_truthful operation ev usage : respects (tables truthful) (settle_usage operation ev usage).
Proof. unfold settle_usage, return_user_quota, return_token_quota. respects_auto. Qed.
#[export] Hint Resolve settle_usage_truthful : respects.

Lemma find_by_truthful {T} (t : Table T) before p : respects (tables truthful) (find_first_by t before p).
Proof. apply respects_stmt; [apply _|]. intros. by case_match. Qed.
Lemma usage_truthful uuid event : respects (tables truthful) (RecordWildFlowUsageEvent uuid event).
Proof.
  unfold RecordWildFlowUsageEvent. generalize 8%nat ErrDiverges. intros n. induction n as [|n IH]; intros err; cbn [record_attempts].
  - unfold resolve_usage_event. respects_auto.
  - unfold recordWildFlowUsageEventOnce, ingest_event, bind_trial_event. respects_auto.
Qed.
#[export] Hint Resolve find_by_truthful usage_truthful : respects.

Lemma wild_truthful o : respects (tables truthful) (run_wild o).
Proof.
  destruct o; cbn [run_wild].
  - unfold CreateWildFlowOperation. respects_auto.
  - unfold UpdateWildFlowOperationExecution. respects_auto.
  - unfold StoreWildFlowOperationResult. respects_auto.
  - unfold ReserveWildFlowWalletBilling, reserveWildFlowWalletBillingTx. respects_auto.
  - unfold ReserveWildFlowSubscriptionBilling, reserveWildFlowSubscriptionBillingTx. respects_auto.
  - respects_auto.
  - unfold SettleWildFlowOperationBilling, settleWildFlowOperationBillingTx. respects_auto.
  - unfold RefundWildFlowOperationBilling, refundWildFlowOperationBillingTx, refund_operation_token. respects_auto.
  - respects_auto.
  - respects_auto.
  - respects_auto.
Qed.

(** C16. Exactly once: through any history of WildFlow operations - projectors
    racing, leases expiring, statements failing anywhere - the generic log
    gains at most the first row of each operation and log type and loses none,
    and an entry or receipt is marked projected only when that row is there. *)
Theorem projection_exactly_once d d' :
  wild_history d d' -> logs_once d d' /\ (projected_ok d -> projected_ok d').
Proof.
  induction 1 as [d | d o e fs tr d' _ _ _ IH]; [by apply truthful_preorder|].
  exact (transitivity (R := truthful) (wild_truthful o e (mkSt d fs tr)) IH).
Qed.

Lemma projection_exactly_once_witness :
  logs_once WildDemo.db WildDemo.settled_db /\ projected_ok WildDemo.settled_db.
Proof.
  destruct (projection_exactly_once WildDemo.db WildDemo.settled_db WildDemo.history) as [H1 H2].
  split; [exact H1|]. apply H2. split; intros r Hr; [change (In r []) in Hr | change (In r []) in Hr]; destruct Hr.
Defined.

(** ** The lease of a claim *)

Definition entry_key (r : WildFlowBillingLogEntry) : string * Z := (le_operation_id r, le_log_type r).
Definition has_key (k : string * Z) : WildFlowBillingLogEntry -> bool := has_entry (fst k) (snd k).

Lemma has_key_spec k r : has_key k r = true <-> entry_key r = k.
Proof.
  destruct k as [i ty]. unfold has_key, has_entry, entry_key. cbn.
  rewrite andb_true_iff, str_eqb_true, Z.eqb_eq. split; [by intros [-> ->] | by intros [= -> ->]].
Qed.

(** What an acquired claim leaves behind. *)
Definition claim_held (tok id : string) (logType lease : Z) (entry : WildFlowBillingLogEntry) (d : DB) : Prop :=
  unique_key entry_key (db_log_entries d) /\
  List.find (has_entry id logType) (db_log_entries d) = Some entry /\
  le_projection_state entry = WildFlowBillingProjectionProjecting /\
  le_projection_claim_token entry = tok /\ le_projection_lease_expires_at entry = lease.

Lemma claim_acquired tok id logType e d fs tr :
  unique_key entry_key (db_log_entries d) ->
  wp (claimWildFlowBillingProjection tok id logType)
    (fun r s' => match r with
                 | inr (entry, true) => claim_held tok id logType (env_now e + 60) entry (st_db s')
                 | _ => True end) e (mkSt d fs tr).
Proof.
  intros Hu. unfold claimWildFlowBillingProjection. do 2 wp_step. cbv beta iota zeta.
  apply wp_transaction; [done|]. intros fs1. apply wp_bind, wp_find_first; [done..|]. intros fs2 r Hr. cbv zeta.
  destruct (_ || _); [by apply wp_ret|]. destruct (str_eqb _ WildFlowBillingProjectionUnsupported); [by apply wp_raise|].
  destruct (_ && _); [by apply wp_ret|]. apply wp_bind, wp_update; [done|]. intros fs3.
  set (f := claimed_entry tok (env_now e + 60)).
  destruct (keyed_update entry_key has_key has_key_spec (id, logType) (claimable (env_now e)) f (db_log_entries d) Hu)
    as [(H0 & _) | (H1 & Hupd & r1 & Hr1 & Hc)].
  - change (rows_count (fun r => has_entry id logType r && claimable (env_now e) r) (db_log_entries d) = 0) in H0.
    cbn [t_get LogEntries]. rewrite H0. apply wp_bind, wp_find_first; [done..|]. intros. by apply wp_ret.
  - change (upd_rows (fun r => has_entry id logType r && claimable (env_now e) r) f (db_log_entries d) =
            upd_rows (has_key (id, logType)) f (db_log_entries d)) in Hupd.
    cbn [t_get t_set LogEntries]. rewrite Hupd. apply wp_bind, wp_find_first; [done..|]. cbn [t_get LogEntries db_log_entries].
    intros fs4 r2 Hr2. apply wp_ret. split; [done|]. intros fs5. case_match; [|done].
    change (has_entry id logType) with (has_key (id, logType)) in Hr2 |- *.
    assert (forall x, has_key (id, logType) (f x) = has_key (id, logType) x) as Hk by done.
    pose proof Hr2 as Hr3. cbn [db_log_entries] in Hr3. rewrite find_upd_stable, Hr1 in Hr3 by done. cbn in Hr3.
    rewrite (proj2 (List.find_some _ _ Hr1)) in Hr3. injection Hr3 as <-.
    split; [by apply upd_unique|]. split; [exact Hr2|]. by split_and!.
Qed.

(** While the lease lasts, others are told to keep away. *)
Lemma claim_refused tok id logType lease entry d b e tr :
  claim_held tok id logType lease entry d -> env_now e < lease ->
  claimWildFlowBillingProjection b id logType e (mkSt d [] tr) = (inr (entry, false), mkSt d [] tr).
Proof.
  intros (_ & Hf & Hs & _ & Hl) Hlt. unfold claimWildFlowBillingProjection.
  erewrite run_bind by reflexivity. cbv zeta. apply run_transaction.
  erewrite run_bind by (by apply run_first). cbv zeta. rewrite Hs. cbn [str_eqb String.eqb Ascii.eqb Bool.eqb orb].
  rewrite Hl. apply Z.ltb_lt in Hlt. by rewrite Hlt.
Qed.

(** A token that does not hold the claim can finish nothing. *)
Lemma holds_none tok id logType lease entry d b :
  claim_held tok id logType lease entry d -> b <> tok ->
  rows_count (holds_claim entry b) (db_log_entries d) = 0.
Proof.
  intros (Hu & Hf & Hs & Ht & Hl) Hb. apply rows_count_zero. intros r Hin. unfold holds_claim.
  destruct (has_entry (le_operation_id entry) (le_log_type entry) r) eqn:E; [|done].
  destruct (List.find_some _ _ Hf) as [_ Hk].
  apply (has_key_spec (id, logType)) in Hk. apply (has_key_spec (entry_key entry)) in E.
  assert (Some r = Some entry) as [= ->].
  { rewrite <- Hf. symmetry. apply (find_unique entry_key has_key has_key_spec (id, logType)); [done..|]. congruence. }
  rewrite Ht. destruct (str_eqb tok b) eqn:Eb; [|by rewrite andb_false_r]. apply str_eqb_true in Eb. congruence.
Qed.

Lemma mark_refused b entry d e tr :
  rows_count (holds_claim entry b) (db_log_entries d) = 0 ->
  markWildFlowBillingProjectionProjected entry b e (mkSt d [] tr)
  = (inl (EText "WildFlow billing projection claim lost"), mkSt d [] tr) /\
  forall code, markWildFlowBillingProjectionFailed entry b code e (mkSt d [] tr) = (inr tt, mkSt d [] tr).
Proof.
  intros H0.
  assert (forall f, update LogEntries (holds_claim entry b) f e (mkSt d [] tr) = (inr 0, mkSt d [] tr)) as Hup.
  { intros f. pose proof (upd_rows_zero _ f _ H0) as Hl. unfold update, stmt. cbn.
    unfold rows_count in H0. rewrite H0. unfold upd_rows in Hl. rewrite Hl. by destruct d. }
  split; [|intros code].
  - unfold markWildFlowBillingProjectionProjected. erewrite run_bind by reflexivity.
    by erewrite run_bind by apply Hup.
  - unfold markWildFlowBillingProjectionFailed. cbv zeta. by erewrite run_bind by apply Hup.
Qed.

(** Lease exclusivity: once a projector has acquired an entry, until its
    lease of 60 seconds ends every other claim is answered with "not acquired",
    and a projector with another token can mark the entry neither projected
    (its claim is reported lost) nor failed; none of these changes a table. *)
Theorem projection_lease_exclusive tok id logType e d fs tr entry s1 :
  unique_key entry_key (db_log_entries d) ->
  claimWildFlowBillingProjection tok id logType e (mkSt d fs tr) = (inr (entry, true), s1) ->
  let d1 := st_db s1 in
  (forall b e2 tr2, env_now e2 < env_now e + 60 ->
     claimWildFlowBillingProjection b id logType e2 (mkSt d1 [] tr2) = (inr (entry, false), mkSt d1 [] tr2)) /\
  (forall b e2 tr2, b <> tok ->
     markWildFlowBillingProjectionProjected entry b e2 (mkSt d1 [] tr2)
     = (inl (EText "WildFlow billing projection claim lost"), mkSt d1 [] tr2) /\
     forall code, markWildFlowBillingProjectionFailed entry b code e2 (mkSt d1 [] tr2) = (inr tt, mkSt d1 [] tr2)).
Proof.
  intros Hu E. pose proof (wp_use _ _ _ _ _ _ (claim_acquired tok id logType e d fs tr Hu) E) as H. cbn in H.
  split; intros b e2 tr2 Hb.
  - exact (claim_refused _ _ _ _ _ _ b e2 tr2 H Hb).
  - apply mark_refused. exact (holds_none _ _ _ _ _ _ b H Hb).
Qed.

(** The settled operation of [WildDemo] with its audit entry due. *)
Definition demo_due : DB := Demo.after
  (transaction (ensureWildFlowCanonicalBillingLogTx WildDemo.operation LogTypeRefund "WildFlow job refunded")) WildDemo.db.

Lemma projection_lease_exclusive_witness :
  let s1 := snd (claimWildFlowBillingProjection "a" "op-1" LogTypeRefund Demo.env (mkSt demo_due [] [])) in
  exists entry, claimWildFlowBillingProjection "b" "op-1" LogTypeRefund Demo.env (mkSt (st_db s1) [] [])
                = (inr (entry, false), mkSt (st_db s1) [] []).
Proof.
  set (res := claimWildFlowBillingProjection "a" "op-1" LogTypeRefund Demo.env (mkSt demo_due [] [])).
  assert (match fst res with inr (_, true) => true | _ => false end = true) as Hb by (vm_compute; reflexivity).
  assert (unique_key entry_key (db_log_entries demo_due)) as Hu
    by (vm_compute; apply NoDup_singleton).
  pose proof (fun x => projection_lease_exclusive "a" "op-1" LogTypeRefund Demo.env demo_due [] [] x (snd res) Hu) as H.
  unfold res in H at 1. cbv zeta. subst res. set (res := claimWildFlowBillingProjection "a" _ _ _ _) in *.
  destruct (fst res) as [err|[entry [|]]] eqn:Ef; [discriminate | | discriminate].
  exists entry. apply (H entry); [|reflexivity]. rewrite <- Ef. apply surjective_pairing.
Defined.
