(* ===== verification/TopUpFacts.v ===== *)
(** * TopUpFacts: what a credit does to the wallet and to the orders

    [credits qpu d d']: between [d] and [d'] every wallet moved by exactly what
    the orders and codes that became paid or used are worth, at [qpu] quota
    units per dollar, and closed orders did not change. *)

From S2P Require Import Prelude Schema Store Logic Frame Ledger Demo Quota Subscription ReservationRules TopUp.
From stdpp Require Import base numbers option strings list sorting.
From Stdlib Require Import ZArith Lia.
Open Scope Z_scope.

Definition has_order (i : Z) (t : TopUp) : bool := tu_id t =? i.
Definition has_code (i : Z) (r : Redemption) : bool := rd_id r =? i.
Lemma has_order_spec i t : has_order i t = true <-> tu_id t = i.
Proof. apply Z.eqb_eq. Qed.
Lemma has_code_spec i r : has_code i r = true <-> rd_id r = i.
Proof. apply Z.eqb_eq. Qed.
Lemma has_trade_spec k t : has_trade k t = true <-> tu_trade_no t = k.
Proof. apply str_eqb_true. Qed.

Record wf_credit (d : DB) : Prop := mkWfCredit {
  wc_users : unique_key u_id (db_users d);
  wc_orders : unique_key tu_id (db_topups d);
  wc_trades : unique_key tu_trade_no (db_topups d);
  wc_codes : unique_key rd_id (db_redemptions d)
}.

(** [UPDATE users] of a credit. *)
Definition credit_user (u q : Z) (f : User -> User) (d : DB) : DB :=
  t_set Users (upd_rows (has_user u) (fun r => (f r) <| u_quota ::= fun x => x + q |>) (db_users d)) d.

(** The columns the credit sets beside the quota. *)
Definition other_columns (f : User -> User) : Prop :=
  forall r, u_id (f r) = u_id r /\ u_quota (f r) = u_quota r /\ u_deleted (f r) = u_deleted r.

Section CreditUser.
Context (u q : Z) (f : User -> User) (Hf : other_columns f).

Lemma user_row_credit d v :
  user_row (credit_user u q f d) v =
  (fun r => if v =? u then (f r) <| u_quota ::= fun x => x + q |> else r) <$> user_row d v.
Proof.
  unfold user_row, credit_user. cbn.
  rewrite find_upd_stable by (intros r; unfold has_user; cbn; by rewrite (proj1 (Hf r))).
  destruct (List.find _ _) as [r|] eqn:E; [|done]. simpl.
  apply List.find_some in E as [_ E%has_user_spec]. unfold has_user. by rewrite E.
Qed.

Lemma wallet_credit d v :
  live_user d v = true -> wallet (credit_user u q f d) v = wallet d v + (if v =? u then q else 0).
Proof.
  intros (r & Hr & _)%live_user_some. unfold wallet. rewrite user_row_credit, Hr. cbn.
  destruct (v =? u); cbn; [|lia]. by rewrite (proj1 (proj2 (Hf r))).
Qed.

Lemma live_credit d v : live_user (credit_user u q f d) v = live_user d v.
Proof.
  unfold live_user. rewrite user_row_credit. destruct (user_row d v) as [r|]; [|done]. cbn.
  destruct (v =? u); [|done]. cbn. by rewrite (proj2 (proj2 (Hf r))).
Qed.

(** The rule of [creditTopUpQuota]: the credit is in range and the wallet stays
    under the ceiling. *)
Lemma wp_creditTopUpQuota (Q : result unit -> St -> Prop) e d fs tr :
  unique_key u_id (db_users d) ->
  (forall err fs', Q (inl err) (mkSt d fs' tr)) ->
  (forall fs', 0 < q <= MaxWalletQuota -> live_user d u = true -> wallet d u + q <= MaxWalletQuota ->
               Q (inr tt) (mkSt (credit_user u q f d) fs' tr)) ->
  wp (creditTopUpQuota u q f) Q e (mkSt d fs tr).
Proof.
  intros Hu Herr Hok. unfold creditTopUpQuota, topUpQuotaMaxCurrent.
  destruct (_ || _) eqn:E; [by apply wp_bind, wp_lift|].
  apply orb_false_iff in E as [E1%Z.leb_gt E2%Z.ltb_ge]. apply wp_bind, wp_lift.
  apply wp_bind, wp_update; [by intros|]. intros fs1.
  set (g := fun r : User => (f r) <| u_quota ::= fun x => x + q |>).
  set (cond := fun r => negb (u_deleted r) && (u_quota r <=? MaxWalletQuota - q)).
  cbn [t_get t_set Users].
  rewrite (rows_count_ext _ (fun r => has_user u r && cond r) _ (fun r => scope_key _ _ _)).
  rewrite (upd_rows_ext _ (fun r => has_user u r && cond r) _ g _ (fun r => scope_key _ _ _) (fun r => eq_refl)).
  destruct (keyed_update u_id has_user has_user_spec u cond g _ Hu) as [(Hn & Hd & _)|(Hn & Hd & r & Hr & Hc)];
    rewrite Hn, Hd; cbn beta iota delta [Z.eqb Pos.eqb].
  - rewrite set_users_same. apply wp_bind, wp_count; [by intros|]. intros fs2. case_match; by apply wp_raise.
  - apply wp_ret, Hok; [lia | |]; unfold cond in Hc; apply andb_true_iff in Hc as [Hdel Hq%Z.leb_le].
    + unfold live_user. change (List.find (has_user u) (db_users d)) with (user_row d u) in Hr. by rewrite Hr.
    + unfold wallet. change (List.find (has_user u) (db_users d)) with (user_row d u) in Hr. rewrite Hr. cbn. lia.
Qed.
End CreditUser.

(** ** What orders and codes are worth *)

Section Worth.
Context {D : Type} `{DecimalOps D} (qpu : float64).

(** The quota the callback of the order's provider credits. *)
Definition order_quota (t : TopUp) : QuotaClamp + Z :=
  if str_eqb (tu_payment_provider t) PaymentProviderStripe then money_quota qpu t
  else if str_eqb (tu_payment_provider t) PaymentProviderCreem then plain_quota t
  else amount_quota qpu t.

Definition order_value (t : TopUp) : Z :=
  if str_eqb (tu_status t) TopUpStatusSuccess
  then match order_quota t with inr q => q | inl _ => 0 end else 0.
Definition code_value (r : Redemption) : Z :=
  if rd_status r =? RedemptionCodeStatusUsed then rd_quota r else 0.

Definition order_credit (u : Z) (t : TopUp) : Z := if tu_user_id t =? u then order_value t else 0.
Definition code_credit (u : Z) (r : Redemption) : Z := if rd_used_user_id r =? u then code_value r else 0.

(** The wallet less everything that was credited to it. *)
Definition uncredited (d : DB) (u : Z) : Z :=
  wallet d u - sum_rows (order_credit u) (db_topups d) - sum_rows (code_credit u) (db_redemptions d).

(** An order after some history: closed ones are as they were, and nothing but
    the status, its time and the payment method of an open one changes. *)
Definition order_kept (t t' : TopUp) : Prop :=
  (tu_id t', tu_trade_no t', tu_user_id t', tu_amount t', tu_money t', tu_payment_provider t')
  = (tu_id t, tu_trade_no t, tu_user_id t, tu_amount t, tu_money t, tu_payment_provider t) /\
  (tu_status t <> TopUpStatusPending -> t' = t).

Record credited (d d' : DB) : Prop := mkCredited {
  cr_wf : wf_credit d';
  cr_live : forall u, live_user d' u = live_user d u;
  cr_worth : forall u, live_user d u = true -> uncredited d' u = uncredited d u;
  cr_ceiling : forall u, live_user d u = true -> wallet d' u <= Z.max (wallet d u) MaxWalletQuota;
  cr_never_less : forall u, live_user d u = true -> wallet d u <= wallet d' u;
  cr_orders : forall k t, List.find (has_trade k) (db_topups d) = Some t ->
              exists t', List.find (has_trade k) (db_topups d') = Some t' /\ order_kept t t'
}.

Definition credits (d d' : DB) : Prop := wf_credit d -> credited d d'.

#[export] Instance credits_preorder : PreOrder credits.
Proof.
  split.
  - intros d Hwf. split; try done; try (intros; lia). intros k t Ht. exists t. by split.
  - intros d1 d2 d3 H12 H23 Hwf. destruct (H12 Hwf) as [W1 L1 E1 C1 N1 O1]. destruct (H23 W1) as [W2 L2 E2 C2 N2 O2].
    split; [done | | | | |].
    + intros u. by rewrite L2.
    + intros u Hl. rewrite E2; [by apply E1 | by rewrite L1].
    + intros u Hl. specialize (C1 u Hl). specialize (C2 u). rewrite L1 in C2. specialize (C2 Hl). lia.
    + intros u Hl. specialize (N1 u Hl). specialize (N2 u). rewrite L1 in N2. specialize (N2 Hl). lia.
    + intros k t Ht. destruct (O1 k t Ht) as (t1 & H1 & K1 & S1). destruct (O2 k t1 H1) as (t2 & H2 & K2 & S2).
      exists t2. split; [done|]. split; [congruence|]. intros Hs. rewrite (S1 Hs) in S2. by apply S2.
Qed.

(** *** Replacing an open order *)

Definition put_order (t : TopUp) (d : DB) : DB :=
  t_set TopUps (upd_rows (t_same TopUps t) (fun _ => t) (db_topups d)) d.

Section PutOrder.
Context (d : DB) (k : string) (t t' : TopUp).
Hypothesis Hwf : wf_credit d.
Hypothesis Hfind : List.find (has_trade k) (db_topups d) = Some t.
Hypothesis Hkept : order_kept t t'.
Hypothesis Hopen : tu_status t = TopUpStatusPending.

Lemma order_same r : In r (db_topups d) -> t_same TopUps t' r = true -> r = t.
Proof.
  intros Hin E. cbn in E. apply Z.eqb_eq in E. destruct Hkept as [[= Hi _ _ _ _ _] _].
  pose proof (proj1 (List.find_some _ _ Hfind)) as Hin_t.
  assert (Some r = Some t) as [=]; [|done].
  rewrite <- (find_unique tu_id has_order has_order_spec (tu_id t) r _ (wc_orders d Hwf) Hin ltac:(congruence)).
  apply (find_unique tu_id has_order has_order_spec); [apply Hwf | done..].
Qed.

Lemma wf_put_order : wf_credit (put_order t' d).
Proof.
  destruct Hwf as [Hu Ho Ht Hc]. destruct Hkept as [[= Hi Htr _ _ _ _] _].
  split; [done | | | done]; apply upd_unique_in; try done; intros r Hin E; by rewrite (order_same r Hin E).
Qed.

Lemma find_put_order j :
  List.find (has_trade j) (db_topups (put_order t' d))
  = (fun r => if t_same TopUps t' r then t' else r) <$> List.find (has_trade j) (db_topups d).
Proof.
  unfold put_order. cbn [t_set TopUps db_topups]. apply find_upd_kept. intros r Hin E.
  rewrite (order_same r Hin E). destruct Hkept as [[= Hi Htr _ _ _ _] _]. unfold has_trade. by rewrite Htr.
Qed.

Lemma orders_put_order j x :
  List.find (has_trade j) (db_topups d) = Some x ->
  exists x', List.find (has_trade j) (db_topups (put_order t' d)) = Some x' /\ order_kept x x'.
Proof.
  intros Hx. rewrite find_put_order, Hx. cbn [fmap option_fmap option_map]. eexists. split; [done|].
  destruct (t_same TopUps t' x) eqn:E; [|by split].
  by rewrite (order_same x (proj1 (List.find_some _ _ Hx)) E).
Qed.

Lemma sum_put_order u :
  sum_rows (order_credit u) (db_topups (put_order t' d))
  = sum_rows (order_credit u) (db_topups d) + order_credit u t'.
Proof.
  unfold put_order. cbn [t_set TopUps db_topups]. destruct Hkept as [[= Hi _ _ _ _ _] _].
  assert (List.find (has_order (tu_id t)) (db_topups d) = Some t) as Hf.
  { apply (find_unique tu_id has_order has_order_spec); [apply Hwf | exact (proj1 (List.find_some _ _ Hfind)) | done]. }
  rewrite (sum_upd_one tu_id has_order has_order_spec _ _ (fun _ => t') (tu_id t) t); [|apply Hwf | done |].
  - change (t_same TopUps t' t) with (tu_id t' =? tu_id t). rewrite Hi, Z.eqb_refl.
    assert (order_credit u t = 0) as ->; [|lia].
    unfold order_credit, order_value. rewrite Hopen. cbn. by case_match.
  - intros r E. change (t_same TopUps t' r) with (tu_id t' =? tu_id r) in E. apply Z.eqb_eq in E. congruence.
Qed.

(** Paying the order with the quota it is worth. *)
Lemma pay_credits q f :
  tu_status t' = TopUpStatusSuccess -> order_quota t' = inr q -> other_columns f ->
  0 < q -> wallet d (tu_user_id t') + q <= MaxWalletQuota ->
  credited d (credit_user (tu_user_id t') q f (put_order t' d)).
Proof.
  intros Hs Hq Hf Hpos Hmax. set (d1 := put_order t' d). set (u := tu_user_id t') in *.
  destruct wf_put_order as [W1 W2 W3 W4].
  assert (forall v, live_user d v = true -> wallet (credit_user u q f d1) v = wallet d v + (if v =? u then q else 0)) as Hw
    by (intros v Hv; by apply (wallet_credit u q f Hf d1)).
  split.
  - split; [|done..]. unfold credit_user. cbn. apply upd_unique; [|done]. intros r. cbn. apply Hf.
  - intros v. by rewrite live_credit.
  - intros v Hv. unfold uncredited. rewrite (Hw v Hv).
    change (db_topups (credit_user u q f d1)) with (db_topups d1).
    change (db_redemptions (credit_user u q f d1)) with (db_redemptions d).
    unfold d1. rewrite sum_put_order. unfold order_credit at 2, order_value. fold u. rewrite Hs, Hq.
    rewrite str_eqb_refl, (Z.eqb_sym u v). destruct (v =? u); lia.
  - intros v Hv. rewrite (Hw v Hv). destruct (Z.eqb_spec v u) as [->|]; lia.
  - intros v Hv. rewrite (Hw v Hv). destruct (v =? u); lia.
  - exact orders_put_order.
Qed.

(** Closing it in another way. *)
Lemma close_credits : tu_status t' <> TopUpStatusSuccess -> credited d (put_order t' d).
Proof.
  intros Hs. split; [exact wf_put_order | done | | intros; change (wallet (put_order t' d)) with (wallet d); lia
                    | intros; change (wallet (put_order t' d)) with (wallet d); lia | exact orders_put_order].
  intros u _. unfold uncredited. rewrite sum_put_order. change (wallet (put_order t' d)) with (wallet d).
  change (db_redemptions (put_order t' d)) with (db_redemptions d).
  assert (order_credit u t' = 0) as ->; [|lia].
  unfold order_credit, order_value. apply str_eqb_false in Hs. rewrite Hs. by case_match.
Qed.
End PutOrder.

(** *** Codes *)

Definition set_codes (l : list Redemption) (d : DB) : DB := t_set Redemptions l d.

(** The update of a code that is redeemed by [u]. *)
Lemma redeem_credits d (p : Redemption -> bool) r u now :
  wf_credit d -> List.find (has_code (rd_id r)) (db_redemptions d) = Some r ->
  (forall x, p x = true -> rd_id x = rd_id r) -> p r = true ->
  rd_status r = RedemptionCodeStatusEnabled ->
  0 < rd_quota r -> wallet d u + rd_quota r <= MaxWalletQuota ->
  credited d (credit_user u (rd_quota r) (fun x => x) (set_codes (upd_rows p (used_by u now) (db_redemptions d)) d)).
Proof.
  intros [Hu Ho Ht Hc] Hf Hp Hpr Hs Hpos Hmax.
  set (d1 := set_codes _ d).
  assert (other_columns (fun x : User => x)) as Hid by done.
  assert (forall v, live_user d v = true -> wallet (credit_user u (rd_quota r) (fun x => x) d1) v
                    = wallet d v + (if v =? u then rd_quota r else 0)) as Hw
    by (intros v Hv; by apply (wallet_credit u (rd_quota r) _ Hid d1)).
  split.
  - split; [| done | done |]; cbn; by apply upd_unique.
  - intros v. by rewrite live_credit.
  - intros v Hv. unfold uncredited. rewrite (Hw v Hv).
    change (db_topups (credit_user u (rd_quota r) (fun x => x) d1)) with (db_topups d).
    change (db_redemptions (credit_user u (rd_quota r) (fun x => x) d1)) with (upd_rows p (used_by u now) (db_redemptions d)).
    rewrite (sum_upd_one rd_id has_code has_code_spec _ p (used_by u now) (rd_id r) r _ Hc Hf Hp), Hpr.
    assert (code_credit v r = 0) as -> by (unfold code_credit, code_value; rewrite Hs; by case_match).
    unfold code_credit, code_value. cbn. rewrite (Z.eqb_sym u v). destruct (v =? u); lia.
  - intros v Hv. rewrite (Hw v Hv). destruct (Z.eqb_spec v u) as [->|]; lia.
  - intros v Hv. rewrite (Hw v Hv). destruct (v =? u); lia.
  - intros k t Hk. exists t. by split.
Qed.

(** A change of the codes that uses none. *)
Lemma codes_credits d l :
  (wf_credit d -> unique_key rd_id l) ->
  (wf_credit d -> forall u, sum_rows (code_credit u) l = sum_rows (code_credit u) (db_redemptions d)) ->
  credits d (set_codes l d).
Proof.
  intros Hl Hs Hwf. specialize (Hl Hwf). specialize (Hs Hwf). destruct Hwf. split; try done.
  - intros u _. unfold uncredited. change (db_redemptions (set_codes l d)) with l. by rewrite Hs.
  - intros u _. change (wallet (set_codes l d)) with (wallet d). lia.
  - intros k t Hk. exists t. by split.
Qed.

(** New orders and codes. *)
Lemma order_create_credits d t :
  List.existsb (t_clash TopUps t) (db_topups d) = false -> order_value t = 0 ->
  credits d (t_set TopUps (db_topups d ++ [t]) d).
Proof.
  intros Hn Hv [Hu Ho Ht Hc].
  assert (forall r, In r (db_topups d) -> tu_id r <> tu_id t /\ tu_trade_no r <> tu_trade_no t) as Hne.
  { intros r Hin. assert (t_clash TopUps t r = false) as E.
    { destruct (t_clash TopUps t r) eqn:E; [|done].
      assert (List.existsb (t_clash TopUps t) (db_topups d) = true) by (apply List.existsb_exists; eauto). congruence. }
    cbn in E. apply orb_false_iff in E as [E1%Z.eqb_neq E2%str_eqb_false]. split; congruence. }
  set (d' := t_set TopUps _ d). split; try done.
  - split; try done; cbn; apply app_unique; try done; intros r Hin; by apply Hne.
  - intros u _. unfold uncredited, d'. change (db_topups (t_set TopUps (db_topups d ++ [t]) d)) with (db_topups d ++ [t]).
    rewrite sum_rows_app. cbn [sum_rows]. unfold order_credit at 2. rewrite Hv.
    change (wallet (t_set TopUps (db_topups d ++ [t]) d)) with (wallet d).
    change (db_redemptions (t_set TopUps (db_topups d ++ [t]) d)) with (db_redemptions d). case_match; lia.
  - intros u _. change (wallet d') with (wallet d). lia.
  - intros k x Hk. exists x. split; [|by split]. unfold d'. cbn. by rewrite find_app, Hk.
Qed.

End Worth.
