(* ===== verification/TopUpTheorems.v ===== *)
(** * TopUpTheorems: every order and code is credited once *)

From S2P Require Import Prelude Schema Store Logic Frame Ledger Demo Quota Subscription ReservationRules TopUp TopUpFacts.
From stdpp Require Import base numbers option strings list sorting.
From Stdlib Require Import ZArith Lia Floats.SpecFloat.
Open Scope Z_scope.

Section Orders.
Context {D : Type} `{DecimalOps D} (qpu : float64) (e : Env) (d : DB).
Hypothesis Hwf : wf_credit d.
Hypothesis Hqpu : env_quota_per_unit e = qpu.

(** A body that, when it returns, has credited what became paid. *)
Definition paying {A} (r : result A) (s' : St) : Prop :=
  match r with inr _ => credited qpu d (st_db s') | inl _ => True end.

Lemma paying_none {A} (a : A) fs tr : paying (inr a) (mkSt d fs tr).
Proof. exact (reflexivity (R := credits qpu) d Hwf). Qed.

Lemma wp_lock_order tradeNo err (Q : result TopUp -> St -> Prop) fs tr :
  (forall fs', Q (inl err) (mkSt d fs' tr)) ->
  (forall t fs', List.find (has_trade tradeNo) (db_topups d) = Some t -> Q (inr t) (mkSt d fs' tr)) ->
  wp (lock_order tradeNo err) Q e (mkSt d fs tr).
Proof. intros He Hs. unfold lock_order. apply wp_bind, wp_attempt, wp_find_first; intros; [apply He | apply He | by apply Hs]. Qed.

Lemma wp_credit_amount r (Q : result Z -> St -> Prop) s :
  Q (inl ErrInvalidTopUpQuota) s -> (forall q, r = inr q -> 0 < q -> Q (inr q) s) -> wp (credit_amount r) Q e s.
Proof.
  intros He Hs. unfold credit_amount. destruct r as [c|q]; [by apply wp_raise|].
  destruct (Z.leb_spec q 0); [by apply wp_raise | by apply wp_ret, Hs].
Qed.

Section Paid.
Context (k : string) (t t' : TopUp).
Hypothesis Hfind : List.find (has_trade k) (db_topups d) = Some t.
Hypothesis Hkept : order_kept t t'.
Hypothesis Hopen : tu_status t = TopUpStatusPending.

Lemma wp_save_order (Q : result unit -> St -> Prop) fs tr :
  (forall n fs', Q (inl (ErrDriver n)) (mkSt d fs' tr)) ->
  (forall fs', Q (inr tt) (mkSt (put_order t' d) fs' tr)) ->
  wp (save TopUps t') Q e (mkSt d fs tr).
Proof.
  intros He Hs. apply wp_save; [|exact He | exact Hs]. apply List.existsb_exists. exists t.
  split; [exact (proj1 (List.find_some _ _ Hfind))|]. destruct Hkept as [[= Hi _ _ _ _ _] _]. cbn. by apply Z.eqb_eq.
Qed.

Lemma wp_credit_order {A} (a : A) q f fs tr :
  tu_status t' = TopUpStatusSuccess -> order_quota qpu t' = inr q -> other_columns f -> 0 < q ->
  wp (creditTopUpQuota (tu_user_id t') q f ;; mret a) paying e (mkSt (put_order t' d) fs tr).
Proof.
  intros Hs Hq Hf Hpos. pose proof (wf_put_order d k t t' Hwf Hfind Hkept) as [W _ _ _].
  apply wp_bind, wp_creditTopUpQuota; [done | done |].
  intros fs' _ _ Hmax. apply wp_ret. by apply (pay_credits qpu d k t t').
Qed.
End Paid.

(** What [paid] keeps, from what the lookup and the guard say. *)
Lemma kept_paid now t : tu_status t = TopUpStatusPending -> order_kept t (paid now t).
Proof. intros Hs. split; [done | congruence]. Qed.

Lemma negb_str s1 s2 : negb (str_eqb s1 s2) = false -> s1 = s2.
Proof. intros E. apply str_eqb_true. by destruct (str_eqb s1 s2). Qed.

Lemma epay_pays tradeNo method fs tr : wp (rechargeEpayTx tradeNo method) paying e (mkSt d fs tr).
Proof.
  unfold rechargeEpayTx. apply wp_bind, wp_lock_order; [done|]. intros t f1 Hf.
  destruct (negb (str_eqb (tu_payment_provider t) _)) eqn:Ep; [done|]. apply negb_str in Ep.
  destruct (str_eqb (tu_status t) TopUpStatusSuccess); [apply wp_ret, paying_none|].
  destruct (negb (str_eqb (tu_status t) _)) eqn:Es; [done|]. apply negb_str in Es. cbv zeta.
  set (t1 := if str_eqb method "" then t else _).
  assert (order_kept t t1 /\ tu_status t1 = TopUpStatusPending /\ tu_payment_provider t1 = PaymentProviderEpay) as (K1 & S1 & P1)
    by (unfold t1; case_match; by split_and!).
  do 2 wp_step. cbn beta iota. rewrite Hqpu. apply wp_bind, wp_credit_amount; [done|]. intros q Hq Hpos.
  do 2 wp_step. cbn beta iota. set (t2 := paid (env_now e) t1).
  assert (order_kept t t2) as K2 by (split; [exact (proj1 K1) | congruence]).
  apply wp_bind, (wp_save_order tradeNo t); [done.. |]. intros f2.
  apply (wp_credit_order tradeNo t); try done. unfold order_quota. change (tu_payment_provider t2) with (tu_payment_provider t1).
  by rewrite P1.
Qed.

Lemma stripe_pays ref customer fs tr : wp (rechargeTx ref customer) paying e (mkSt d fs tr).
Proof.
  unfold rechargeTx. apply wp_bind, wp_lock_order; [done|]. intros t f1 Hf.
  destruct (negb (str_eqb (tu_payment_provider t) _)) eqn:Ep; [done|]. apply negb_str in Ep.
  destruct (negb (str_eqb (tu_status t) _)) eqn:Es; [done|]. apply negb_str in Es. cbv zeta.
  do 2 wp_step. cbn beta iota. pose proof (kept_paid (env_now e) t Es) as K.
  apply wp_bind, (wp_save_order ref t); [done.. |]. intros f2. do 2 wp_step. cbn beta iota. rewrite Hqpu.
  apply wp_bind, wp_credit_amount; [done|]. intros q Hq Hpos.
  apply (wp_credit_order ref t); try done. unfold order_quota. change (tu_payment_provider (paid _ t)) with (tu_payment_provider t).
  by rewrite Ep.
Qed.

(** An administrator's completion of an order that Creem does not serve. *)
Lemma manual_pays tradeNo fs tr :
  (forall t, List.find (has_trade tradeNo) (db_topups d) = Some t ->
             tu_status t = TopUpStatusPending -> tu_payment_provider t <> PaymentProviderCreem) ->
  wp (manualCompleteTopUpTx tradeNo) paying e (mkSt d fs tr).
Proof.
  intros Hcreem. unfold manualCompleteTopUpTx. apply wp_bind, wp_lock_order; [done|]. intros t f1 Hf.
  destruct (str_eqb (tu_status t) TopUpStatusSuccess); [apply wp_ret, paying_none|].
  destruct (negb (str_eqb (tu_status t) _)) eqn:Es; [done|]. apply negb_str in Es. cbv zeta.
  do 2 wp_step. cbn beta iota. rewrite Hqpu. apply wp_bind, wp_credit_amount; [done|]. intros q Hq Hpos.
  do 2 wp_step. cbn beta iota. pose proof (kept_paid (env_now e) t Es) as K.
  apply wp_bind, (wp_save_order tradeNo t); [done.. |]. intros f2.
  apply (wp_credit_order tradeNo t); try done. rewrite <- Hq. unfold order_quota, manual_quota.
  change (tu_payment_provider (paid _ t)) with (tu_payment_provider t).
  rewrite (proj2 (str_eqb_false _ PaymentProviderCreem) (Hcreem t Hf Es)). by case_match.
Qed.

Lemma creem_pays ref email fs tr : wp (rechargeCreemTx ref email) paying e (mkSt d fs tr).
Proof.
  unfold rechargeCreemTx. apply wp_bind, wp_lock_order; [done|]. intros t f1 Hf.
  destruct (negb (str_eqb (tu_payment_provider t) _)) eqn:Ep; [done|]. apply negb_str in Ep.
  destruct (negb (str_eqb (tu_status t) _)) eqn:Es; [done|]. apply negb_str in Es. cbv zeta.
  do 2 wp_step. cbn beta iota. pose proof (kept_paid (env_now e) t Es) as K.
  apply wp_bind, (wp_save_order ref t); [done.. |]. intros f2. apply wp_bind, wp_credit_amount; [done|]. intros q Hq Hpos.
  assert (forall f fs', other_columns f ->
    wp (creditTopUpQuota (tu_user_id (paid (env_now e) t)) q f ;; mret (paid (env_now e) t, q)) paying e
      (mkSt (put_order (paid (env_now e) t) d) fs' tr)) as Hc.
  { intros f fs' Hcol. apply (wp_credit_order ref t); try done. rewrite <- Hq. unfold order_quota.
    change (tu_payment_provider (paid _ t)) with (tu_payment_provider t). by rewrite Ep. }
  unfold creem_fields. apply wp_bind. destruct (str_eqb email ""); [by apply wp_ret, Hc|].
  apply wp_bind, wp_find_first; [done..|]. intros f3 user _. apply wp_ret. apply Hc. by case_match.
Qed.

Lemma waffo_pays provider tradeNo fs tr :
  provider <> PaymentProviderStripe -> provider <> PaymentProviderCreem ->
  wp (rechargeWaffoTx provider tradeNo) paying e (mkSt d fs tr).
Proof.
  intros N1 N2. unfold rechargeWaffoTx. apply wp_bind, wp_lock_order; [done|]. intros t f1 Hf.
  destruct (negb (str_eqb (tu_payment_provider t) _)) eqn:Ep; [done|]. apply negb_str in Ep.
  destruct (str_eqb (tu_status t) TopUpStatusSuccess); [apply wp_ret, paying_none|].
  destruct (negb (str_eqb (tu_status t) _)) eqn:Es; [done|]. apply negb_str in Es. cbv zeta.
  do 2 wp_step. cbn beta iota. rewrite Hqpu. apply wp_bind, wp_credit_amount; [done|]. intros q Hq Hpos.
  do 2 wp_step. cbn beta iota. pose proof (kept_paid (env_now e) t Es) as K.
  apply wp_bind, (wp_save_order tradeNo t); [done.. |]. intros f2.
  apply (wp_credit_order tradeNo t); try done. rewrite <- Hq. unfold order_quota.
  change (tu_payment_provider (paid _ t)) with (tu_payment_provider t). rewrite Ep.
  by rewrite (proj2 (str_eqb_false _ _) N1), (proj2 (str_eqb_false _ _) N2).
Qed.

Lemma redeem_pays key u fs tr : wp (redeemTx key u) paying e (mkSt d fs tr).
Proof.
  unfold redeemTx. apply wp_bind, wp_attempt, wp_find_first; [done..|]. intros f1 r Hr.
  destruct (negb (rd_status r =? _)) eqn:Es; [done|]. apply negb_false_iff, Z.eqb_eq in Es.
  do 2 wp_step. cbn beta iota. destruct (_ && _); [done|]. apply wp_bind, wp_update; [done|]. intros f2.
  pose proof (List.find_some _ _ Hr) as [Hin [Hdel _]%andb_true_iff].
  assert (List.find (has_code (rd_id r)) (db_redemptions d) = Some r) as Hf
    by (apply (find_unique rd_id has_code has_code_spec); [apply Hwf | done..]).
  set (p := code_where (fun x => (rd_id x =? rd_id r) && (rd_status x =? RedemptionCodeStatusEnabled))).
  assert (p r = true) as Hp by (unfold p, code_where; by rewrite Hdel, Z.eqb_refl, Es).
  cbn [t_get t_set Redemptions].
  rewrite (count_one rd_id has_code has_code_spec p (rd_id r) r _ (wc_codes d Hwf) Hf), Hp.
  2:{ intros x [_ [E%Z.eqb_eq _]%andb_true_iff]%andb_true_iff. done. }
  cbn beta iota delta [Z.eqb]. apply wp_bind, wp_creditTopUpQuota; [apply Hwf | done |].
  intros f3 Hq _ Hmax. apply wp_ret. apply (redeem_credits qpu d p r u (env_now e)); try done; [|lia].
  intros x [_ [E%Z.eqb_eq _]%andb_true_iff]%andb_true_iff. done.
Qed.
End Orders.

(** ** Histories *)

Inductive topup_op :=
  | TInsert (t : TopUp)
  | TStatus (tradeNo provider target : string)
  | TEpay (tradeNo method : string)
  | TStripe (referenceId customerId : string)
  | TManual (tradeNo : string)
  | TCreem (referenceId email : string)
  | TWaffo (tradeNo : string)
  | TWaffoPancake (tradeNo : string)
  | TRedeem (key : string) (userId : Z)
  | TCodeInsert (r : Redemption)
  | TCodeUpdate (r : Redemption)
  | TCodeDelete (id : Z)
  | TCodeDeleteInvalid.

Section History.
Context {D : Type} `{DecimalOps D} (qpu : float64).

Definition run_topup (o : topup_op) : M unit :=
  match o with
  | TInsert t => topUp_Insert t ;; mret tt
  | TStatus tradeNo provider target => UpdatePendingTopUpStatus tradeNo provider target
  | TEpay tradeNo method => RechargeEpay tradeNo method ;; mret tt
  | TStripe referenceId customerId => Recharge referenceId customerId
  | TManual tradeNo => ManualCompleteTopUp tradeNo
  | TCreem referenceId email => RechargeCreem referenceId email
  | TWaffo tradeNo => RechargeWaffo tradeNo
  | TWaffoPancake tradeNo => RechargeWaffoPancake tradeNo
  | TRedeem key userId => Redeem key userId ;; mret tt
  | TCodeInsert r => redemption_Insert r
  | TCodeUpdate r => redemption_Update r
  | TCodeDelete id => DeleteRedemptionById id
  | TCodeDeleteInvalid => DeleteInvalidRedemptions ;; mret tt
  end.

(** New orders are not paid yet, a status change does not mark an order paid,
    an administrator does not complete an order of Creem, and does not edit a
    code that was used or mark one used. *)
Definition topup_valid (d : DB) (o : topup_op) : Prop :=
  match o with
  | TInsert t => tu_status t <> TopUpStatusSuccess
  | TStatus _ _ target => target <> TopUpStatusSuccess
  | TManual tradeNo => forall t, List.find (has_trade tradeNo) (db_topups d) = Some t ->
      tu_status t = TopUpStatusPending -> tu_payment_provider t <> PaymentProviderCreem
  | TCodeInsert r => rd_status r <> RedemptionCodeStatusUsed
  | TCodeUpdate r => rd_status r <> RedemptionCodeStatusUsed /\
      forall x, In x (db_redemptions d) -> rd_id x = rd_id r -> rd_status x <> RedemptionCodeStatusUsed
  | _ => True
  end.

(** Any operations, in any order, with any driver outcomes and clock values. *)
Inductive topup_history : DB -> DB -> Prop :=
  | topup_nil d : topup_history d d
  | topup_cons d o e fs tr d' :
      topup_valid d o -> env_quota_per_unit e = qpu ->
      topup_history (st_db (snd (run_topup o e (mkSt d fs tr)))) d' -> topup_history d d'.

Section Step.
Context (e : Env) (d : DB).
Hypothesis Hwf : wf_credit d.
Hypothesis Hqpu : env_quota_per_unit e = qpu.

Local Abbreviation fine := (fun _ s' => credited qpu d (st_db s')).

Lemma fine_same : credited qpu d d.
Proof. exact (reflexivity (R := credits qpu) d Hwf). Qed.

Lemma fine_tx {A} (body : M A) fs tr :
  (forall fs', wp body (paying qpu d) e (mkSt d fs' tr)) -> wp (transaction body) fine e (mkSt d fs tr).
Proof.
  intros Hb. apply wp_transaction; [by intros; apply fine_same|]. intros fs1. eapply wp_mono; [apply Hb|].
  intros [err|a] s' Hp; [apply fine_same|]. split; [by intros; apply fine_same | by intros].
Qed.

(** Effects after the commit. *)
Lemma fine_tail {A B} (m : M A) (k : A -> M B) s :
  wp m fine e s -> (forall a, respects (tables (same (fun d => d))) (k a)) -> wp (m ≫= k) fine e s.
Proof.
  intros Hm Hk. apply wp_bind. eapply wp_mono; [exact Hm|]. intros [err|a] s' Hc; [exact Hc|].
  unfold wp. specialize (Hk a e s'). unfold tables, same in Hk. destruct (k a e s') as [r s'']. cbn in Hk. by rewrite Hk.
Qed.

Lemma fine_attempt {A} (m : M A) s : wp m fine e s -> wp (attempt m) fine e s.
Proof. intros Hm. by apply wp_attempt. Qed.

(** Codes: statements that use none. *)
Lemma fine_codes (p : Redemption -> bool) f fs tr :
  (forall r, In r (db_redemptions d) -> p r = true ->
     rd_id (f r) = rd_id r /\ forall u, code_credit u (f r) = code_credit u r) ->
  wp (update Redemptions p f) fine e (mkSt d fs tr).
Proof.
  intros Hf. apply wp_update; [intros; apply fine_same|]. intros fs1. apply (codes_credits qpu d); [| |done].
  - intros [_ _ _ Hc]. apply upd_unique_in; [|done]. intros r Hin E. by apply Hf.
  - intros _ u. apply sum_upd_kept. intros r Hin E. by apply Hf.
Qed.

Lemma insert_code_fine r fs tr :
  rd_status r <> RedemptionCodeStatusUsed -> wp (redemption_Insert r) fine e (mkSt d fs tr).
Proof.
  intros Hs. unfold redemption_Insert. do 2 (case_match; [apply fine_same|]).
  apply fine_tail; [|intros; respects_auto]. apply wp_create; [intros; apply fine_same..|]. intros fs1 Hn.
  set (r' := t_assign Redemptions _ r) in *.
  assert (rd_status r' = rd_status r) as Hr by (unfold r'; cbn; unfold assign_id; by case_match).
  apply (codes_credits qpu d); [| |done].
  - intros [_ _ _ Hc]. apply app_unique; [done|]. intros x Hin Hx. apply not_true_iff_false in Hn. apply Hn.
    apply List.existsb_exists. exists x. split; [done|]. cbn. by rewrite Hx, Z.eqb_refl.
  - intros _ u. rewrite sum_rows_app. cbn [sum_rows].
    assert (code_credit u r' = 0) as ->; [|by rewrite Z.add_0_r].
    unfold code_credit, code_value. rewrite Hr, (proj2 (Z.eqb_neq _ _) Hs). by case_match.
Qed.

Lemma update_code_fine r fs tr :
  rd_status r <> RedemptionCodeStatusUsed ->
  (forall x, In x (db_redemptions d) -> rd_id x = rd_id r -> rd_status x <> RedemptionCodeStatusUsed) ->
  wp (redemption_Update r) fine e (mkSt d fs tr).
Proof.
  intros Hs Hx. unfold redemption_Update. do 3 (case_match; [apply fine_same|]).
  apply fine_tail; [|intros; respects_auto]. apply fine_codes. intros x Hin [_ Hi%Z.eqb_eq]%andb_true_iff.
  split; [done|]. intros u. unfold code_credit, code_value. cbn.
  by rewrite (proj2 (Z.eqb_neq _ _) Hs), (proj2 (Z.eqb_neq _ _) (Hx x Hin Hi)).
Qed.

Lemma delete_code_fine id fs tr : wp (DeleteRedemptionById id) fine e (mkSt d fs tr).
Proof.
  unfold DeleteRedemptionById. case_match; [apply fine_same|].
  apply wp_bind, wp_find_first; [intros; apply fine_same..|]. intros fs1 r _. unfold redemption_Delete.
  case_match; [apply fine_same|]. apply fine_tail; [|intros; respects_auto]. by apply fine_codes.
Qed.

Lemma status_fine tradeNo provider target fs tr :
  target <> TopUpStatusSuccess -> wp (UpdatePendingTopUpStatus tradeNo provider target) fine e (mkSt d fs tr).
Proof.
  intros Hv. unfold UpdatePendingTopUpStatus. case_match; [apply fine_same|]. apply fine_tx. intros fs1.
  apply wp_bind, wp_lock_order; [done|]. intros t f1 Hf. case_match; [done|].
  destruct (negb (str_eqb (tu_status t) _)) eqn:Es; [done|]. apply negb_str in Es.
  set (t' := t <| tu_status := target |>). assert (order_kept t t') as K by (split; [done | congruence]).
  apply (wp_save_order e d tradeNo t t'); [done.. |]. intros. by apply (close_credits qpu d tradeNo t).
Qed.

Lemma insert_fine t fs tr :
  tu_status t <> TopUpStatusSuccess -> wp (topUp_Insert t) fine e (mkSt d fs tr).
Proof.
  intros Hv. apply wp_create; [intros; apply fine_same..|]. intros fs1 Hn.
  apply (order_create_credits qpu d); [done | | done]. unfold order_value.
  set (t' := t_assign TopUps _ t). assert (tu_status t' = tu_status t) as -> by (unfold t'; cbn; unfold assign_id; by case_match).
  apply str_eqb_false in Hv. by rewrite Hv.
Qed.

Ltac effects := intros; unfold syncCreditUserQuotaCache, RecordTopupLog; respects_auto.

Lemma topup_step o fs tr :
  topup_valid d o -> credited qpu d (st_db (snd (run_topup o e (mkSt d fs tr)))).
Proof.
  intros Hv. cut (wp (run_topup o) fine e (mkSt d fs tr)); [unfold wp; by destruct (run_topup _ _ _)|].
  destruct o; cbn [run_topup topup_valid] in *.
  - apply fine_tail; [by apply insert_fine | effects].
  - by apply status_fine.
  - apply fine_tail; [|effects]. unfold RechargeEpay. case_match; [apply fine_same|].
    apply fine_tail; [apply fine_tx; intros; by apply epay_pays | effects].
  - unfold Recharge. case_match; [apply fine_same|].
    apply fine_tail; [apply fine_attempt, fine_tx; intros; by apply stripe_pays | effects].
  - unfold ManualCompleteTopUp. case_match; [apply fine_same|].
    apply fine_tail; [apply fine_tx; intros; by apply manual_pays | effects].
  - unfold RechargeCreem. case_match; [apply fine_same|].
    apply fine_tail; [apply fine_attempt, fine_tx; intros; by apply creem_pays | effects].
  - unfold RechargeWaffo, recharge_waffo. case_match; [apply fine_same|].
    apply fine_tail; [apply fine_attempt, fine_tx; intros; by apply waffo_pays | effects].
  - unfold RechargeWaffoPancake, recharge_waffo. case_match; [apply fine_same|].
    apply fine_tail; [apply fine_attempt, fine_tx; intros; by apply waffo_pays | effects].
  - apply fine_tail; [|effects]. unfold Redeem. do 2 (case_match; [apply fine_same|]).
    apply fine_tail; [apply fine_attempt, fine_tx; intros; by apply redeem_pays | effects].
  - by apply insert_code_fine.
  - destruct Hv. by apply update_code_fine.
  - apply delete_code_fine.
  - apply fine_tail; [|effects]. unfold DeleteInvalidRedemptions. do 2 wp_step. cbn beta iota. by apply fine_codes.
Qed.
End Step.

Lemma topup_run d d' : topup_history d d' -> wf_credit d -> credited qpu d d'.
Proof.
  induction 1 as [d | d o e fs tr d' Hv Hq _ IH]; intros Hwf; [by apply (reflexivity (R := credits qpu) d)|].
  pose proof (topup_step e d Hwf Hq o fs tr Hv) as H1.
  exact (transitivity (R := credits qpu) (fun _ => H1) IH Hwf).
Qed.
End History.

(** ** A concrete shop *)

Module TopUpDemo.
(** Decimals restricted to whole numbers. *)
#[export] Instance whole : DecimalOps Z := {|
  NewFromFloat := float_trunc; NewFromInt := fun z => z; Mul := Z.mul; Div := Z.quot;
  Round0 := fun z => z; Ceil := fun z => z; ToFloat64 := fun z => binary_normalize 53 1024 z 0 false |}.

Definition qpu : float64 := env_quota_per_unit Demo.env.
Definition epay : TopUp := mkTopUp 21 1 3 (S754_finite false 21 0) "T-epay" "alipay" "epay" 0 0 "pending".
Definition creem : TopUp := mkTopUp 22 1 750000 (S754_finite false 2 0) "T-creem" "creem" "creem" 0 0 "pending".
Definition code : Redemption := mkRedemption 31 0 "code-1" 1 "gift" 250 0 0 0 false 0.
Definition db : DB := Demo.db <| db_topups := [epay; creem] |> <| db_redemptions := [code] |>.
Definition after (o : topup_op) (d : DB) : DB := Demo.after (run_topup o) d.
Definition paid_db : DB := after (TRedeem "code-1" 1) (after (TEpay "T-epay" "wxpay") (after (TEpay "T-epay" "alipay") db)).

Lemma wf_shop : wf_credit db.
Proof. by split; apply (bool_decide_unpack _); vm_compute. Qed.

Lemma topup_demo_step o d d' : topup_valid d o -> topup_history qpu (after o d) d' -> topup_history qpu d d'.
Proof. intros Hv Hh. exact (topup_cons qpu d o Demo.env [] [] d' Hv eq_refl Hh). Qed.

(** An order paid, its callback repeated, a code redeemed. *)
Lemma topup_demo_history : topup_history qpu db paid_db.
Proof.
  unfold paid_db. apply (topup_demo_step (TEpay "T-epay" "alipay")); [exact I|]. apply (topup_demo_step (TEpay "T-epay" "wxpay")); [exact I|].
  apply (topup_demo_step (TRedeem "code-1" 1)); [exact I|]. apply topup_nil.
Qed.

Example paid_wallet : wallet paid_db 1 = 1000 + 3 * 500000 + 250.
Proof. vm_compute. reflexivity. Qed.
End TopUpDemo.
#[local] Existing Instance TopUpDemo.whole.

(** C17. Credited exactly once: through any history of orders, callbacks of any
    provider, repeated or racing, redemption codes and administrator
    completions, a wallet grows by exactly the worth of the orders that became
    paid and the codes that became used, and a closed order never changes again.
    Not in such a history: an administrator's completion of an open order of
    Creem, which credits another amount ([manual_completion_of_creem]), and his
    edits of a used code or to a used one, which credit nothing. *)
Theorem topups_credit_once {D : Type} `{DecimalOps D} qpu d d' :
  wf_credit d -> topup_history qpu d d' ->
  (forall u, live_user d u = true ->
     wallet d' u - wallet d u
     = (sum_rows (order_credit qpu u) (db_topups d') - sum_rows (order_credit qpu u) (db_topups d))
       + (sum_rows (code_credit u) (db_redemptions d') - sum_rows (code_credit u) (db_redemptions d))) /\
  (forall k t, List.find (has_trade k) (db_topups d) = Some t ->
     exists t', List.find (has_trade k) (db_topups d') = Some t' /\ order_kept t t').
Proof.
  intros Hwf Hh. destruct (topup_run qpu d d' Hh Hwf) as [_ _ Hw _ _ Ho]. split; [|exact Ho].
  intros u Hl. specialize (Hw u Hl). unfold uncredited in Hw. lia.
Qed.

Lemma topups_credit_once_witness :
  wallet TopUpDemo.paid_db 1 - wallet TopUpDemo.db 1
  = (sum_rows (order_credit TopUpDemo.qpu 1) (db_topups TopUpDemo.paid_db)
     - sum_rows (order_credit TopUpDemo.qpu 1) (db_topups TopUpDemo.db))
    + (sum_rows (code_credit 1) (db_redemptions TopUpDemo.paid_db) - sum_rows (code_credit 1) (db_redemptions TopUpDemo.db)).
Proof.
  exact (proj1 (topups_credit_once TopUpDemo.qpu TopUpDemo.db TopUpDemo.paid_db TopUpDemo.wf_shop TopUpDemo.topup_demo_history) 1
    ltac:(vm_compute; reflexivity)).
Defined.

(** The ceiling: no history of credits takes a wallet above
    [MaxWalletQuota], and none takes anything away. *)
Theorem topups_within_ceiling {D : Type} `{DecimalOps D} qpu d d' u :
  wf_credit d -> topup_history qpu d d' -> live_user d u = true -> wallet d u <= MaxWalletQuota ->
  wallet d u <= wallet d' u <= MaxWalletQuota.
Proof.
  intros Hwf Hh Hl Hm. destruct (topup_run qpu d d' Hh Hwf) as [_ _ _ Hc Hn _].
  specialize (Hc u Hl). specialize (Hn u Hl). lia.
Qed.

Lemma topups_within_ceiling_witness : wallet TopUpDemo.paid_db 1 <= MaxWalletQuota.
Proof.
  exact (proj2 (topups_within_ceiling TopUpDemo.qpu TopUpDemo.db TopUpDemo.paid_db 1 TopUpDemo.wf_shop TopUpDemo.topup_demo_history
    ltac:(vm_compute; reflexivity) ltac:(vm_compute; discriminate))).
Defined.

(** ** One callback in detail *)

Section Epay.
Context {D : Type} `{DecimalOps D} (e : Env) (d : DB).
Hypothesis Hwf : wf_credit d.

(** The tables after order [t] was paid with method [method] and quota [q]. *)
Definition epay_order (now : Z) (method : string) (t : TopUp) : TopUp :=
  paid now (if str_eqb method "" then t else t <| tu_payment_method := method |>).
Definition paid_tables (q : Z) (t' : TopUp) : DB := credit_user (tu_user_id t') q (fun u => u) (put_order t' d).

Lemma epay_kept now method t : tu_status t = TopUpStatusPending -> order_kept t (epay_order now method t).
Proof. intros Hs. unfold epay_order. split; [by case_match | congruence]. Qed.

(** The answer of the transaction, branch by branch. *)
Definition epay_answer (tradeNo method : string) (r : option (TopUp * Z)) (d' : DB) : Prop :=
  exists t, List.find (has_trade tradeNo) (db_topups d) = Some t /\ tu_payment_provider t = PaymentProviderEpay /\
  match r with
  | None => tu_status t = TopUpStatusSuccess /\ d' = d
  | Some (t', q) => tu_status t = TopUpStatusPending /\ t' = epay_order (env_now e) method t /\
      amount_quota (env_quota_per_unit e) t = inr q /\ 0 < q /\ live_user d (tu_user_id t) = true /\
      wallet d (tu_user_id t) + q <= MaxWalletQuota /\ d' = paid_tables q t'
  end.

Lemma wp_epay tradeNo method fs tr :
  wp (rechargeEpayTx tradeNo method)
    (fun r s' => st_trace s' = tr /\ match r with inr a => epay_answer tradeNo method a (st_db s') | inl _ => True end)
    e (mkSt d fs tr).
Proof.
  unfold rechargeEpayTx. apply wp_bind, wp_lock_order; [done|]. intros t f1 Hf.
  destruct (negb (str_eqb (tu_payment_provider t) _)) eqn:Ep; [done|]. apply negb_str in Ep.
  destruct (str_eqb (tu_status t) TopUpStatusSuccess) eqn:Esu.
  { apply str_eqb_true in Esu. apply wp_ret. split; [done|]. by exists t. }
  destruct (negb (str_eqb (tu_status t) _)) eqn:Es; [done|]. apply negb_str in Es. cbv zeta.
  do 2 wp_step. cbn beta iota. apply wp_bind, wp_credit_amount; [done|]. intros q Hq Hpos.
  do 2 wp_step. cbn beta iota. fold (epay_order (env_now e) method t).
  pose proof (epay_kept (env_now e) method t Es) as K. set (t' := epay_order (env_now e) method t) in *.
  apply wp_bind, (wp_save_order e d tradeNo t t'); [done.. |]. intros f2.
  pose proof (wf_put_order d tradeNo t t' Hwf Hf K) as [W _ _ _].
  apply wp_bind, wp_creditTopUpQuota; [done | done |]. intros f3 _ Hl Hm. apply wp_ret.
  assert (tu_user_id t' = tu_user_id t) as Hu by (unfold t', epay_order; by case_match).
  split; [done|]. exists t. rewrite <- Hu. split_and!; [done | done | done | done | | done | exact Hl | exact Hm | done].
  rewrite <- Hq. unfold amount_quota. by destruct (str_eqb method "").
Qed.

Lemma epay_replay tradeNo method t e2 tr d2 :
  str_eqb tradeNo "" = false -> List.find (has_trade tradeNo) (db_topups d2) = Some t ->
  tu_payment_provider t = PaymentProviderEpay -> tu_status t = TopUpStatusSuccess ->
  RechargeEpay tradeNo method e2 (mkSt d2 [] tr) = (inr true, mkSt d2 [] tr).
Proof.
  intros Hne Hf Hp Hs. unfold RechargeEpay. rewrite Hne.
  erewrite run_bind; [|apply run_transaction; unfold rechargeEpayTx;
    erewrite run_bind by (unfold lock_order; erewrite run_bind by (unfold attempt; erewrite run_first by done; reflexivity); reflexivity);
    rewrite Hp, Hs; reflexivity].
  reflexivity.
Qed.
End Epay.

(** The Epay callback is exact and idempotent: an error leaves every table
    as it was; [true] means the order was paid before and nothing changed;
    [false] means an open order became paid and its user got exactly its quota,
    below the ceiling, in one step, with the same amount sent to the cache; and
    after [true] or [false] the callback answers [true] without any effect. *)
Theorem epay_exact {D : Type} `{DecimalOps D} tradeNo method e d fs tr res s' :
  wf_credit d -> RechargeEpay tradeNo method e (mkSt d fs tr) = (res, s') ->
  match res with
  | inl _ => st_db s' = d /\ st_trace s' = tr
  | inr already =>
      (if already then st_db s' = d /\ st_trace s' = tr
       else exists t q, List.find (has_trade tradeNo) (db_topups d) = Some t /\ tu_status t = TopUpStatusPending /\
              amount_quota (env_quota_per_unit e) t = inr q /\ 0 < q /\
              wallet (st_db s') (tu_user_id t) = wallet d (tu_user_id t) + q /\
              wallet (st_db s') (tu_user_id t) <= MaxWalletQuota /\
              st_trace s' = tr ++ (if env_redis e then [EffUserQuotaCache (tu_user_id t) q] else [])
                               ++ [EffRecordLog (tu_user_id t) LogTypeTopup]) /\
      forall m2 e2 tr2, RechargeEpay tradeNo m2 e2 (mkSt (st_db s') [] tr2) = (inr true, mkSt (st_db s') [] tr2)
  end.
Proof.
  intros Hwf E. pattern res, s'. refine (wp_use _ _ _ _ _ _ _ E). clear E res s'.
  unfold RechargeEpay at 1. destruct (str_eqb tradeNo "") eqn:Hne; [by apply wp_raise|].
  apply wp_bind, wp_transaction; [done|]. intros fs1. eapply wp_mono; [by apply wp_epay|].
  intros [err|[[t' q]|]] [d' fs' tr'] [Ht Hp]; cbn in Ht; subst tr'; [done | |].
  - split; [done|]. intros fs2. destruct Hp as (t & Hf & Hpr & Hs & -> & Hq & Hpos & Hl & Hm & Hd'). cbn [st_db] in Hd'. subst d'.
    set (t' := epay_order (env_now e) method t). pose proof (epay_kept (env_now e) method t Hs) as K. fold t' in K.
    assert (tu_user_id t' = tu_user_id t) as Hu by (unfold t', epay_order; by case_match).
    assert (tu_payment_provider t' = PaymentProviderEpay) as Hp' by (rewrite <- Hpr; unfold t', epay_order; by case_match).
    assert (List.find (has_trade tradeNo) (db_topups (paid_tables d q t')) = Some t') as Hf'.
    { change (db_topups (paid_tables d q t')) with (db_topups (put_order t' d)).
      rewrite (find_put_order d tradeNo t t' Hwf Hf K), Hf. cbn [fmap option_fmap option_map].
      change (t_same TopUps t' t) with (tu_id t' =? tu_id t). by rewrite (f_equal (fun x => x.1.1.1.1.1) (proj1 K) : tu_id t' = tu_id t), Z.eqb_refl. }
    assert (wallet (paid_tables d q t') (tu_user_id t) = wallet d (tu_user_id t) + q) as Hw.
    { unfold paid_tables. rewrite Hu. rewrite (wallet_credit _ _ _ (fun r => conj eq_refl (conj eq_refl eq_refl)) (put_order t' d)) by done.
      by rewrite Z.eqb_refl. }
    unfold syncCreditUserQuotaCache, RecordTopupLog. do 3 wp_step. apply Z.ltb_lt in Hpos as Hpos'. rewrite Hpos', Hu.
    destruct (env_redis e); cbn [andb when]; wp_steps; (split; [|intros; by eapply epay_replay]).
    all: exists t, q; cbn [st_db st_trace]; rewrite ?Hw, <- ?app_assoc; by split_and!.
  - destruct Hp as (t & Hf & Hpr & Hs & Hd'). cbn in Hd'. subst d'. split; [done|]. intros fs2. apply wp_ret. split; [done|].
    intros. by eapply epay_replay.
Qed.

Lemma epay_exact_witness :
  let s1 := snd (RechargeEpay "T-epay" "wxpay" Demo.env (mkSt TopUpDemo.db [] [])) in
  RechargeEpay "T-epay" "alipay" Demo.env (mkSt (st_db s1) [] []) = (inr true, mkSt (st_db s1) [] []).
Proof.
  set (res := RechargeEpay "T-epay" "wxpay" Demo.env (mkSt TopUpDemo.db [] [])).
  assert (match fst res with inr false => true | _ => false end = true) as Hb by (vm_compute; reflexivity).
  pose proof (epay_exact "T-epay" "wxpay" Demo.env TopUpDemo.db [] [] (fst res) (snd res) TopUpDemo.wf_shop
    (surjective_pairing res)) as H.
  clearbody res. cbv zeta. destruct (fst res) as [err|b]; [discriminate|]. exact (proj2 H "alipay" Demo.env []).
Defined.

(** ** Which quota an order is worth *)

Section Clean.
Context (e : Env) (tr : list effect).

(** A faultless run of a statement that cannot fail on its own. *)
Lemma run_wp {A} (c : M A) d (a : A) d' :
  faultless c -> wp c (fun r s' => no_driver r -> r = inr a /\ st_db s' = d' /\ st_trace s' = tr) e (mkSt d [] tr) ->
  c e (mkSt d [] tr) = (inr a, mkSt d' [] tr).
Proof.
  intros Hc Hw. destruct (Hc e (mkSt d [] tr) eq_refl) as [Hf Hn]. unfold wp in Hw.
  destruct (c e _) as [r [d1 fs1 tr1]]. cbn in *. destruct (Hw Hn) as (-> & -> & ->). by subst.
Qed.

Lemma run_save_order d k t t' :
  List.find (has_trade k) (db_topups d) = Some t -> tu_id t' = tu_id t ->
  save TopUps t' e (mkSt d [] tr) = (inr tt, mkSt (put_order t' d) [] tr).
Proof.
  intros Hf Hi. apply run_wp; [apply faultless_save|]. apply wp_save; [| intros n fs' Hn; destruct (Hn n eq_refl) | done].
  apply List.existsb_exists. exists t. split; [exact (proj1 (List.find_some _ _ Hf))|]. cbn. by apply Z.eqb_eq.
Qed.

Lemma run_creditTopUpQuota d u q f :
  unique_key u_id (db_users d) -> live_user d u = true -> 0 < q -> wallet d u + q <= MaxWalletQuota -> 0 <= wallet d u ->
  creditTopUpQuota u q f e (mkSt d [] tr) = (inr tt, mkSt (credit_user u q f d) [] tr).
Proof.
  intros Hu (r & Hr & Hdel)%live_user_some Hpos Hmax Hw. unfold wallet in Hmax, Hw. rewrite Hr in Hmax, Hw. cbn in Hmax, Hw.
  unfold creditTopUpQuota, topUpQuotaMaxCurrent.
  rewrite (proj2 (Z.leb_gt q 0) Hpos), (proj2 (Z.ltb_ge MaxWalletQuota q)) by lia. cbn [orb].
  erewrite run_bind by reflexivity.
  set (p := user_where (fun x => (u_id x =? u) && (u_quota x <=? MaxWalletQuota - q))). set (g := fun x : User => (f x) <| u_quota ::= fun y => y + q |>).
  assert (forall x, p x = true -> u_id x = u) as Hp by (intros x [_ [E%Z.eqb_eq _]%andb_true_iff]%andb_true_iff; done).
  assert (p r = true) as Hpr.
  { unfold p, user_where. pose proof (proj2 (List.find_some _ _ Hr)) as Hi. unfold has_user in Hi.
    rewrite Hdel, Hi. cbn. apply Z.leb_le. lia. }
  assert (update Users p g e (mkSt d [] tr) = (inr 1, mkSt (credit_user u q f d) [] tr)) as Hup.
  { unfold update, stmt. cbn. change (Z.of_nat (length (List.filter p (db_users d)))) with (rows_count p (db_users d)).
    rewrite (count_one u_id has_user has_user_spec p u r _ Hu Hr Hp), Hpr.
    change (List.map (fun x => if p x then g x else x) (db_users d)) with (upd_rows p g (db_users d)).
    by rewrite (upd_rows_one u_id has_user has_user_spec p g g u r _ Hu Hr Hp Hpr eq_refl). }
  by erewrite run_bind by exact Hup.
Qed.
End Clean.

Lemma tail_wallet u q v e d tr :
  wallet (st_db (snd ((syncCreditUserQuotaCache u q ;; RecordTopupLog u) e (mkSt d [] tr)))) v = wallet d v.
Proof.
  unfold syncCreditUserQuotaCache, RecordTopupLog, mbind, M_bind, ask, when, emit. cbn.
  by destruct (0 <? q), (env_redis e).
Qed.

(** An order of Creem stores quota units in [Amount]; its callback credits
    them, but an administrator's completion of the same order multiplies them
    by the quota of a dollar as if they were dollars. *)
Theorem manual_completion_of_creem {D : Type} `{DecimalOps D} tradeNo t q q' e d tr :
  wf_credit d -> List.find (has_trade tradeNo) (db_topups d) = Some t -> str_eqb tradeNo "" = false ->
  tu_status t = TopUpStatusPending -> tu_payment_provider t = PaymentProviderCreem ->
  let u := tu_user_id t in
  live_user d u = true -> 0 <= wallet d u ->
  plain_quota t = inr q -> amount_quota (env_quota_per_unit e) t = inr q' ->
  0 < q -> 0 < q' -> wallet d u + Z.max q q' <= MaxWalletQuota ->
  wallet (st_db (snd (RechargeCreem tradeNo "" e (mkSt d [] tr)))) u = wallet d u + q /\
  wallet (st_db (snd (ManualCompleteTopUp tradeNo e (mkSt d [] tr)))) u = wallet d u + q'.
Proof.
  intros Hwf Hf Hne Hs Hp u Hl Hw Hq Hq' Hpos Hpos' Hmax.
  pose proof (wf_put_order d tradeNo t (paid (env_now e) t) Hwf Hf (kept_paid _ t Hs)) as [W _ _ _].
  set (d1 := put_order (paid (env_now e) t) d) in *.
  assert (lock_order tradeNo ErrOrderMissing e (mkSt d [] tr) = (inr t, mkSt d [] tr)) as Hlock
    by (unfold lock_order; erewrite run_bind by (unfold attempt; erewrite run_first by done; reflexivity); reflexivity).
  assert (save TopUps (paid (env_now e) t) e (mkSt d [] tr) = (inr tt, mkSt d1 [] tr)) as Hsave
    by (by apply (run_save_order e tr d tradeNo t)).
  assert (forall z, wallet (credit_user u z (fun x => x) d1) u = wallet d u + z) as Hcred.
  { intros z. rewrite (wallet_credit _ _ _ (fun r => conj eq_refl (conj eq_refl eq_refl)) d1) by done. by rewrite Z.eqb_refl. }
  assert (forall z, 0 < z -> z <= Z.max q q' -> creditTopUpQuota u z (fun x => x) e (mkSt d1 [] tr)
    = (inr tt, mkSt (credit_user u z (fun x => x) d1) [] tr)) as Hrun.
  { intros z H1 H2. apply run_creditTopUpQuota; [exact W | exact Hl | exact H1 | change (wallet d1 u) with (wallet d u); lia | exact Hw]. }
  assert (forall z, 0 < z -> credit_amount (inr z) e = fun s => (inr z, s)) as Hamt
    by (intros z Hz; unfold credit_amount; by rewrite (proj2 (Z.leb_gt z 0) Hz)).
  split.
  - unfold RechargeCreem. rewrite Hne.
    erewrite run_bind; [|unfold attempt; erewrite (run_transaction e d tr); [reflexivity|];
      unfold rechargeCreemTx; erewrite run_bind by exact Hlock; rewrite Hp, Hs, !str_eqb_refl; cbn [negb];
      erewrite run_bind by reflexivity; erewrite run_bind by exact Hsave; change (plain_quota (paid (env_now e) t)) with (plain_quota t);
      rewrite Hq; erewrite run_bind by (by rewrite Hamt); erewrite run_bind by reflexivity;
      erewrite run_bind by (apply Hrun; lia); reflexivity].
    rewrite <- Hcred. apply tail_wallet.
  - unfold ManualCompleteTopUp. rewrite Hne.
    erewrite run_bind; [|erewrite (run_transaction e d tr); [reflexivity|];
      unfold manualCompleteTopUpTx; erewrite run_bind by exact Hlock; rewrite Hs, str_eqb_refl; change (str_eqb TopUpStatusPending TopUpStatusSuccess) with false; cbn [negb];
      erewrite run_bind by reflexivity; unfold manual_quota; rewrite Hp; change (str_eqb PaymentProviderCreem PaymentProviderStripe) with false; cbn beta iota; rewrite Hq';
      erewrite run_bind by (by rewrite Hamt); erewrite run_bind by reflexivity; erewrite run_bind by exact Hsave;
      erewrite run_bind by (apply Hrun; lia); reflexivity].
    rewrite <- Hcred. apply tail_wallet.
Qed.

(** 750,000 units are worth 1.50 dollars; the completion credits 375 billion. *)
Lemma manual_completion_of_creem_witness :
  wallet (TopUpDemo.after (TManual "T-creem") TopUpDemo.db) 1 = 1000 + 750000 * 500000.
Proof.
  exact (proj2 (manual_completion_of_creem "T-creem" TopUpDemo.creem 750000 (750000 * 500000) Demo.env TopUpDemo.db []
    TopUpDemo.wf_shop ltac:(vm_compute; reflexivity) eq_refl eq_refl eq_refl ltac:(vm_compute; reflexivity)
    ltac:(vm_compute; discriminate) ltac:(vm_compute; reflexivity) ltac:(vm_compute; reflexivity) eq_refl eq_refl
    ltac:(vm_compute; discriminate))).
Defined.
