(* ===== verification/ReservationSpec.v ===== *)
(** * ReservationSpec: the abstract ledger and its implementation

    An [event] is a step of the abstract reservation ledger: it changes one
    reservation record and posts one amount to the record's key and, for a
    wallet reservation, to the record's user.  [enabled] is its guard.  The
    theorems of the file say that every operation of [Reservation], whatever
    the driver answers, either fails and changes nothing or performs at most
    one enabled event; the properties of [ReservationFacts] are then proved on
    events. *)

From S2P Require Import Prelude Schema Store Logic Frame Ledger Calendar Quota Subscription SubscriptionFacts Reservation ReservationRules.
From stdpp Require Import base numbers option strings list.
From Stdlib Require Import ZArith Lia.
Open Scope Z_scope.

(** ** Events *)

Inductive event :=
  | EvOpened (r : BillingReservationRecord)
  | EvAppended (r : BillingReservationRecord) (delta now : Z)
  | EvStarted (r : BillingReservationRecord) (now : Z)
  | EvSettled (r : BillingReservationRecord) (delta now : Z)
  | EvReleased (r : BillingReservationRecord) (now : Z).

Definition of_wallet (r : BillingReservationRecord) : bool :=
  str_eqb (br_source r) BillingReservationSourceWallet.
Definition of_subscription (r : BillingReservationRecord) : bool :=
  str_eqb (br_source r) BillingReservationSourceSubscription.
Definition in_state (s : string) (r : BillingReservationRecord) : bool := str_eqb (br_state r) s.
Definition is_open (r : BillingReservationRecord) : bool :=
  in_state BillingReservationStateReserved r || in_state BillingReservationStateProviderStarted r.
Definition is_closed (r : BillingReservationRecord) : bool :=
  in_state BillingReservationStateSettled r || in_state BillingReservationStateReleased r.

(** The record an event is about, before the event. *)
Definition event_record (ev : event) : BillingReservationRecord :=
  match ev with
  | EvOpened r | EvAppended r _ _ | EvStarted r _ | EvSettled r _ _ | EvReleased r _ => r
  end.

(** What the event posts to the key (and to the wallet). *)
Definition event_amount (ev : event) : Z :=
  match ev with
  | EvOpened r => - br_amount r
  | EvAppended _ delta _ | EvSettled _ delta _ => - delta
  | EvStarted _ _ => 0
  | EvReleased r _ => br_amount r
  end.

Definition grow (delta now : Z) (r : BillingReservationRecord) : BillingReservationRecord :=
  r <| br_amount ::= fun a => i64 (a + delta) |> <| br_top_up_amount ::= fun a => i64 (a + delta) |>
    <| br_updated_at := now |>.

Definition event_change (ev : event) : DB -> DB :=
  match ev with
  | EvOpened r => add_reservation r
  | EvAppended r delta now => upd_reservation (br_request_id r) (grow delta now)
  | EvStarted r now => upd_reservation (br_request_id r) (set_state BillingReservationStateProviderStarted now)
  | EvSettled r _ now => upd_reservation (br_request_id r) (set_state BillingReservationStateSettled now)
  | EvReleased r now => upd_reservation (br_request_id r) (set_state BillingReservationStateReleased now)
  end.

Definition wallet_side (r : BillingReservationRecord) (x : Z) : Z := if of_wallet r then x else 0.

(** [a]: the access time the key is left with, when the statement sets it. *)
Definition apply_event (ev : event) (a : option Z) (d : DB) : DB :=
  let r := event_record ev in
  bump_key (br_token_id r) (event_amount ev) a
    (bump_user (br_user_id r) (wallet_side r (event_amount ev)) (event_change ev d)).

Definition enabled (d : DB) (ev : event) : Prop :=
  let r := event_record ev in
  match ev with
  | EvOpened _ =>
      reservation d (br_request_id r) = None /\ wf (add_reservation r d) /\
      in_state BillingReservationStateReserved r = true /\ br_top_up_amount r = 0 /\
      0 < br_user_id r /\ 0 < br_amount r /\ of_wallet r || of_subscription r = true /\
      (of_wallet r = true -> user_covers d (br_user_id r) (br_amount r) = true) /\
      key_covers d (br_token_id r) (br_amount r) (br_unlimited_token r) = true
  | EvAppended _ delta _ =>
      reservation d (br_request_id r) = Some r /\
      in_state BillingReservationStateReserved r = true /\ 0 < delta /\
      (of_wallet r = true -> user_covers d (br_user_id r) delta = true) /\
      key_covers d (br_token_id r) delta (br_unlimited_token r) = true
  | EvStarted _ _ =>
      reservation d (br_request_id r) = Some r /\ in_state BillingReservationStateReserved r = true
  | EvSettled _ delta _ =>
      reservation d (br_request_id r) = Some r /\ is_closed r = false /\
      (of_wallet r = true -> user_adjusts d (br_user_id r) delta = true) /\
      key_adjusts d (br_token_id r) delta (br_unlimited_token r) = true
  | EvReleased _ _ => reservation d (br_request_id r) = Some r /\ is_open r = true
  end.

(** Equality of databases; for code that bills a subscription, equality of
    everything but the subscription tables. *)
Definition same_as (with_subs : bool) (d d' : DB) : Prop :=
  if with_subs then no_subs d' = no_subs d else d' = d.

(** [quiet]: without an event the operation may still have changed the
    subscription tables. *)
Definition performed (quiet subs : bool) (o : option event) (d d' : DB) : Prop :=
  match o with
  | None => same_as quiet d d'
  | Some ev => enabled d ev /\ exists a, same_as subs (apply_event ev a d) d'
  end.

(** The contract of an operation started in [(d, tr)]: it ends in [r] and [s'];
    an error satisfies [bad] and changes nothing; a value [v] comes with at most
    one event and with effects, related by [ok]. *)
Definition contract {A} (quiet subs : bool) (d : DB) (tr : list effect) (bad : Err -> Prop)
    (ok : A -> option event -> list effect -> Prop) (r : result A) (s' : St) : Prop :=
  match r with
  | inl err => st_db s' = d /\ st_trace s' = tr /\ bad err
  | inr v => exists o effs, ok v o effs /\ performed quiet subs o d (st_db s') /\ st_trace s' = tr ++ effs
  end.

Definition driver_error (err : Err) : Prop := exists k, err = ErrDriver k.

(** ** Movements, changes and the subscription tables commute *)

Section Commute.
Implicit Types (d : DB).

Lemma no_subs_bump_user u x d : no_subs (bump_user u x d) = bump_user u x (no_subs d).
Proof.
  unfold bump_user. change (live_user (no_subs d) u) with (live_user d u). by destruct (live_user d u).
Qed.
Lemma no_subs_bump_key t x a d : no_subs (bump_key t x a d) = bump_key t x a (no_subs d).
Proof.
  unfold bump_key. change (live_token (no_subs d) t) with (live_token d t).
  by destruct (_ && live_token d t).
Qed.
Lemma no_subs_upd k f d : no_subs (upd_reservation k f d) = upd_reservation k f (no_subs d).
Proof. done. Qed.
Lemma no_subs_add r d : no_subs (add_reservation r d) = add_reservation r (no_subs d).
Proof. done. Qed.

Lemma upd_bump_user k f u x d :
  upd_reservation k f (bump_user u x d) = bump_user u x (upd_reservation k f d).
Proof.
  unfold bump_user. change (live_user (upd_reservation k f d) u) with (live_user d u).
  by destruct (live_user d u).
Qed.
Lemma upd_bump_key k f t x a d :
  upd_reservation k f (bump_key t x a d) = bump_key t x a (upd_reservation k f d).
Proof.
  unfold bump_key. change (live_token (upd_reservation k f d) t) with (live_token d t).
  by destruct (_ && live_token d t).
Qed.

Lemma key_covers_bump_user u x d t y unl :
  key_covers (bump_user u x d) t y unl = key_covers d t y unl.
Proof. unfold bump_user. by destruct (live_user d u). Qed.
Lemma key_covers_ext d d' t y unl :
  db_tokens d' = db_tokens d -> key_covers d' t y unl = key_covers d t y unl.
Proof. intros H. unfold key_covers, live_token, key_remain, token_row. by rewrite H. Qed.
Lemma reservation_ext d d' k : db_reservations d' = db_reservations d -> reservation d' k = reservation d k.
Proof. intros H. unfold reservation. by rewrite H. Qed.

Lemma upd_add_fresh r f d :
  reservation d (br_request_id r) = None ->
  upd_reservation (br_request_id r) f (add_reservation r d) = add_reservation (f r) d.
Proof.
  intros Hn. unfold upd_reservation, add_reservation. cbn.
  unfold upd_rows. rewrite List.map_app. cbn. unfold has_request at 2. rewrite str_eqb_refl.
  fold (upd_rows (has_request (br_request_id r)) f (db_reservations d)).
  rewrite upd_rows_none; [done|]. by apply List.find_none.
Qed.
End Commute.

Lemma same_as_refl subs d : same_as subs d d.
Proof. by destruct subs. Qed.

(** ** One record, reached by its id or by its request *)

Section OneRow.
Context (d : DB) (Hwf : wf d) (k : string) (r : BillingReservationRecord).
Context (Hr : reservation d k = Some r).

Lemma row_facts : In r (db_reservations d) /\ br_request_id r = k.
Proof. apply List.find_some in Hr as [? ?%has_request_spec]. done. Qed.

Lemma row_by_id r' : In r' (db_reservations d) -> (br_id r' =? br_id r) = has_request k r'.
Proof.
  intros Hin. destruct row_facts as [Hinr Hk].
  destruct (has_request k r') eqn:E.
  - apply has_request_spec in E.
    pose proof (find_unique _ _ has_request_spec k r' _ (wf_requests d Hwf) Hin E) as H.
    unfold reservation in Hr. rewrite Hr in H. injection H as ->. apply Z.eqb_refl.
  - apply Z.eqb_neq. intros Hid.
    pose proof (find_unique br_id (fun i x => br_id x =? i) (fun i x => Z.eqb_eq _ _) (br_id r) r' _
      (wf_reservation_ids d Hwf) Hin Hid) as H1.
    pose proof (find_unique br_id (fun i x => br_id x =? i) (fun i x => Z.eqb_eq _ _) (br_id r) r _
      (wf_reservation_ids d Hwf) Hinr eq_refl) as H2.
    pose proof (eq_trans (eq_sym H1) H2) as [= ->]. apply has_request_spec in Hk. congruence.
Qed.

Lemma row_by_request r' : In r' (db_reservations d) -> has_request k r' = true -> r' = r.
Proof.
  intros Hin E%has_request_spec.
  pose proof (find_unique _ _ has_request_spec k r' _ (wf_requests d Hwf) Hin E) as H.
  unfold reservation in Hr. rewrite Hr in H. by injection H.
Qed.

(** [tx.Save(&record)] after changing [record] by [f]. *)
Lemma save_is_upd f :
  keeps_keys f ->
  List.existsb (t_same Reservations (f r)) (db_reservations d) = true /\
  upd_rows (t_same Reservations (f r)) (fun _ => f r) (db_reservations d)
    = upd_rows (has_request k) f (db_reservations d).
Proof.
  intros Hf. cbn. rewrite (proj1 (Hf r)). split.
  - apply List.existsb_exists. exists r. split; [apply row_facts | apply Z.eqb_refl].
  - apply map_ext_in. intros r' Hin. rewrite Z.eqb_sym, (row_by_id r' Hin).
    destruct (has_request k r') eqn:E; [|done]. by rewrite (row_by_request r' Hin E).
Qed.

(** The compare-and-swap on (id, state) finds its row. *)
Lemma cas_is_upd f :
  let p := fun x => (br_id x =? br_id r) && str_eqb (br_state x) (br_state r) in
  rows_count p (db_reservations d) = 1 /\
  upd_rows p f (db_reservations d) = upd_rows (has_request k) f (db_reservations d).
Proof.
  intros p.
  assert (forall r', In r' (db_reservations d) -> p r' = has_request k r') as Hp.
  { intros r' Hin. unfold p. rewrite (row_by_id r' Hin). destruct (has_request k r') eqn:E; [|done].
    rewrite (row_by_request r' Hin E). by rewrite str_eqb_refl. }
  split.
  - unfold rows_count. rewrite (filter_ext_in p (has_request k)) by done.
    pose proof (count_one br_request_id has_request has_request_spec (has_request k) k r _
      (wf_requests d Hwf) Hr (fun r' => proj1 (has_request_spec k r'))) as Hc.
    unfold rows_count in Hc. rewrite Hc.
    destruct row_facts as [_ Hk%has_request_spec]. by rewrite Hk.
  - apply map_ext_in. intros r' Hin. by rewrite (Hp r' Hin).
Qed.
End OneRow.

Lemma set_state_keeps s now : keeps_keys (set_state s now).
Proof. by intros r. Qed.
Lemma grow_keeps delta now : keeps_keys (grow delta now).
Proof. by intros r. Qed.
#[export] Hint Resolve set_state_keeps grow_keeps : ledger.

(** ** Rules for what surrounds the transactions *)

(** A retried transaction meets the contract of the transaction. *)
Lemma wp_retry_locked {A} (op : M A) (bad : Err -> Prop) (ok : A -> St -> Prop) n sqlite e d fs tr :
  (forall fs, wp op (fun r s' => match r with
                                 | inl err => st_db s' = d /\ st_trace s' = tr /\ bad err
                                 | inr v => ok v s'
                                 end) e (mkSt d fs tr)) ->
  wp (retry_locked n sqlite op) (fun r s' => match r with
                                 | inl err => st_db s' = d /\ st_trace s' = tr /\ bad err
                                 | inr v => ok v s'
                                 end) e (mkSt d fs tr).
Proof.
  intros Hop. revert fs. induction n as [|n IH]; intros fs; [apply Hop|].
  cbn [retry_locked]. wp_step. wp_step. eapply wp_mono; [apply Hop|].
  intros [err|v] s' H; cbn beta iota; [|by wp_steps].
  destruct s' as [d' fs' tr']. destruct H as (Hd & Ht & Hb). cbn in Hd, Ht. subst d' tr'.
  wp_steps; [done|]. apply IH.
Qed.

(** The effects of a cache synchronisation. *)
Definition cache_effects (redis : bool) (userId : Z) (tokenKey : string) (userDelta tokenDelta : Z)
  : list effect :=
  (if (0 <? userId) && negb (userDelta =? 0) && redis then [EffUserQuotaCache userId userDelta] else []) ++
  (if negb (str_eqb tokenKey "") && negb (tokenDelta =? 0) && redis
   then [EffTokenQuotaCache tokenKey tokenDelta] else []).

Lemma wp_sync userId tokenKey ud td Q e d fs tr :
  Q (inr tt) (mkSt d fs (tr ++ cache_effects (env_redis e) userId tokenKey ud td)) ->
  wp (syncBillingReservationCache userId tokenKey ud td) Q e (mkSt d fs tr).
Proof.
  intros HQ. unfold syncBillingReservationCache. wp_step. wp_step. cbn beta iota.
  wp_step. unfold cache_effects in HQ.
  destruct ((0 <? userId) && negb (ud =? 0) && env_redis e);
    destruct (negb (str_eqb tokenKey "") && negb (td =? 0) && env_redis e);
    cbn [app] in HQ; rewrite <- ?app_assoc in *; cbn [when]; repeat wp_step; cbn beta iota;
    repeat wp_step; rewrite ?app_nil_r, <- ?app_assoc in *; done.
Qed.

Lemma wp_valid rid u amount Q e s :
  (forall err, validateBillingReservationArgs rid u amount = inl err -> Q (inl err) s) ->
  (0 < u -> 0 <= amount -> Q (inr tt) s) ->
  wp (lift (validateBillingReservationArgs rid u amount)) Q e s.
Proof.
  intros Hbad Hok. apply wp_lift. unfold validateBillingReservationArgs in *.
  destruct (str_eqb rid ""); [by apply Hbad|].
  destruct (Z.leb_spec u 0); [by apply Hbad|].
  destruct (Z.ltb_spec amount 0); [by apply Hbad|]. by apply Hok.
Qed.

Section Operations.
Context (e : Env) (d : DB) (fs : list (option fault)) (tr : list effect).
Context (Hwf : wf d).

Definition wallet_record (i : Z) rid u t unl amount : BillingReservationRecord :=
  mkBillingReservationRecord i rid u t unl BillingReservationSourceWallet 0 amount 0
    BillingReservationStateReserved (env_now e) (env_now e).

Inductive reserve_error (rid : string) (u t amount : Z) (unl wallet : bool) : Err -> Prop :=
  | re_args err : validateBillingReservationArgs rid u amount = inl err ->
      reserve_error rid u t amount unl wallet err
  | re_driver err : driver_error err -> reserve_error rid u t amount unl wallet err
  | re_user : wallet = true -> amount <> 0 -> reservation d rid = None -> user_covers d u amount = false ->
      reserve_error rid u t amount unl wallet ErrInsufficientUserQuota
  | re_key : amount <> 0 -> reservation d rid = None -> key_covers d t amount unl = false ->
      reserve_error rid u t amount unl wallet ErrInsufficientTokenQuota.

Inductive reserve_ok rid u t key amount unl : bool -> option event -> list effect -> Prop :=
  | ro_skip : amount = 0 \/ is_Some (reservation d rid) -> reserve_ok rid u t key amount unl false None []
  | ro_done i : reserve_ok rid u t key amount unl true
      (Some (EvOpened (wallet_record i rid u t unl amount)))
      (cache_effects (env_redis e) u (tokenKeyForCacheSync t key) (i64 (- amount)) (i64 (- amount))).

Lemma ReserveWallet_spec rid u t key amount unl :
  wp (ReserveWalletBillingQuota rid u t key amount unl)
     (contract false false d tr (reserve_error rid u t amount unl true) (reserve_ok rid u t key amount unl))
     e (mkSt d fs tr).
Proof.
  unfold ReserveWalletBillingQuota. wp_step. apply wp_valid; cbn beta iota.
  { intros err Herr. split_and!; [done..|]. by apply re_args. }
  intros Hu Ha. wp_step.
  { wp_steps. apply Z.eqb_eq in Heqb. exists None, []. rewrite app_nil_r.
    split_and!; [constructor; by left | done | done]. }
  apply Z.eqb_neq in Heqb. wp_step.
  assert (forall k fs', contract false false d tr (reserve_error rid u t amount unl true)
    (reserve_ok rid u t key amount unl) (inl (ErrDriver k)) (mkSt d fs' tr)) as Hdrv
    by (intros; split_and!; [done..|]; apply re_driver; by eexists).
  apply wp_transaction; [done|]. intros fs1. wp_step.
  apply wp_claim; [done | done | |]; cbn beta iota.
  - intros f2 Hs. wp_steps. split; [done|]. intros f3. wp_steps.
    exists None, []. rewrite app_nil_r. split_and!; [constructor; by right | done | done].
  - intros f2 i Hn r Hwf'. fold (wallet_record i rid u t unl amount) in r. cbn beta iota delta [negb].
    wp_step. apply wp_reserveUserQuotaTx; [done | done | |]; cbn beta iota.
    { intros f3 Hc. split_and!; [done..|]. by apply re_user. }
    intros f3 Hc1. wp_step. apply wp_reserveTokenQuotaTx; [auto with ledger | done | |]; cbn beta iota.
    { intros f4 Hc. split_and!; [done..|]. apply re_key; [done | done |].
      by rewrite key_covers_bump_user in Hc. }
    intros f4 a Hc2. rewrite key_covers_bump_user in Hc2. wp_steps. split; [done|]. intros f5.
    cbn [st_db st_trace]. wp_steps. apply wp_sync. wp_steps.
    exists (Some (EvOpened r)). eexists. split_and!; [constructor | split | done].
    + cbn. split_and!; try done; lia.
    + exists a. cbn. done.
Qed.

Definition subscription_record (i : Z) rid u t unl amount sub : BillingReservationRecord :=
  mkBillingReservationRecord i rid u t unl BillingReservationSourceSubscription sub amount 0
    BillingReservationStateReserved (env_now e) (env_now e).

(** A duplicate request id is answered from the pre-consumption record, with
    no charge to the key. *)
Inductive reserve_sub_ok rid u t key amount unl
  : SubscriptionPreConsumeResult * bool -> option event -> list effect -> Prop :=
  | rso_skip res : is_Some (reservation d rid) ->
      reserve_sub_ok rid u t key amount unl (res, false) None []
  | rso_done i res : reserve_sub_ok rid u t key amount unl (res, true)
      (Some (EvOpened (subscription_record i rid u t unl amount (pr_UserSubscriptionId res))))
      (cache_effects (env_redis e) u (tokenKeyForCacheSync t key) 0 (i64 (- amount))).

Lemma ReserveSubscription_spec rid u t key amount unl :
  wp (ReserveSubscriptionBillingQuota rid u t key amount unl)
     (contract true true d tr (fun _ => True) (reserve_sub_ok rid u t key amount unl)) e (mkSt d fs tr).
Proof.
  unfold ReserveSubscriptionBillingQuota. wp_step. apply wp_valid; cbn beta iota; [done|].
  intros Hu Ha. wp_steps; [done|]. apply Z.leb_gt in Heqb.
  apply wp_transaction; [done|]. intros fs1. wp_step. apply wp_claim; [done | done | |]; cbn beta iota.
  - intros f2 Hs. wp_step. apply (wp_keeps no_subs); [auto with respects|].
    intros [err|res] d2 f3 Hd2; [done|]. wp_steps. split; [done|]. intros f4. cbn [st_db st_trace].
    wp_steps. exists None, []. rewrite app_nil_r. split_and!; [by constructor | done | done].
  - intros f2 i Hn r Hwf'. wp_step. apply (wp_keeps no_subs); [auto with respects|].
    intros [err|res] d2 f3 Hd2; [done|]. wp_steps.
    apply wp_reserveTokenQuotaTx; [by eapply no_subs_wf | done | done |].
    intros f4 a Hc. wp_steps. apply wp_update; [done|]. intros f5. wp_steps. split; [done|].
    intros f6. cbn [st_db st_trace]. wp_steps. apply wp_sync. wp_steps.
    eexists (Some (EvOpened _)), _. split_and!; [apply (rso_done _ _ _ _ _ _ i) | | reflexivity].
    rewrite (key_covers_ext _ _ _ _ _ (no_subs_tokens _ _ Hd2)) in Hc.
    pose (f := fun r => r <| br_user_subscription_id := pr_UserSubscriptionId res |>
                          <| br_updated_at := env_now e |>).
    pose proof (upd_add_fresh r f d Hn) as Hadd.
    change (f r) with (subscription_record i rid u t unl amount (pr_UserSubscriptionId res)) in Hadd.
    split; [cbn; split_and!; try done | exists a].
    + rewrite <- Hadd. by apply wf_upd_reservation.
    + cbn [same_as]. unfold apply_event. cbn [event_record event_change event_amount].
      rewrite <- Hadd. cbn. rewrite bump_user_zero. change (br_request_id r) with rid.
      rewrite no_subs_bump_key, no_subs_upd, <- Hd2, <- no_subs_upd, <- no_subs_bump_key,
        <- upd_bump_key. reflexivity.
Qed.
End Operations.

(** The key text of a record's token; a failing lookup yields [""]. *)
Definition key_text (d : DB) (t : Z) (key : string) : Prop :=
  key = ""%string \/ exists r, token_row d t = Some r /\ tk_key r = key.

Lemma wp_token_key_of t Q e d fs tr :
  wf d -> (forall key fs', key_text d t key -> Q (inr key) (mkSt d fs' tr)) ->
  wp (token_key_of t) Q e (mkSt d fs tr).
Proof.
  intros Hwf HQ. unfold token_key_of. wp_steps; [apply HQ; by left|].
  apply wp_find_first; intros; wp_steps; [apply HQ; by left | apply HQ; by left |].
  apply HQ. right. apply List.find_some in H as [Hin Hr]. cbn in Hin.
  unfold token_where in Hr. apply andb_true_iff in Hr as [_ Hr%Z.eqb_eq].
  exists r. split; [|done]. by apply (find_unique tk_id has_token has_token_spec _ _ _ (wf_tokens d Hwf)).
Qed.

Lemma wp_reservation_key k Q e d fs tr :
  wf d ->
  (forall key fs', (key = ""%string \/ exists r, reservation d k = Some r /\ key_text d (br_token_id r) key) ->
     Q (inr key) (mkSt d fs' tr)) ->
  wp (billingReservationTokenKey k) Q e (mkSt d fs tr).
Proof.
  intros Hwf HQ. unfold billingReservationTokenKey. wp_steps.
  apply wp_find_first; intros; wp_steps; [apply HQ; by left | apply HQ; by left |].
  apply wp_token_key_of; [done|]. intros. apply HQ. right. by exists r.
Qed.

Section Append.
Context (e : Env) (d : DB) (fs : list (option fault)) (tr : list effect).
Context (Hwf : wf d).

(** Whether the operation on request [k] may touch the subscription tables. *)
Definition bills_subscription (k : string) : bool :=
  match reservation d k with Some r => of_subscription r | None => false end.

Inductive append_error (rid : string) (delta : Z) : Err -> Prop :=
  | ae_empty : rid = ""%string -> append_error rid delta ErrBillingReservationNotFound
  | ae_driver err : driver_error err -> append_error rid delta err
  | ae_missing : reservation d rid = None -> append_error rid delta ErrBillingReservationNotFound
  | ae_state r : reservation d rid = Some r -> in_state BillingReservationStateReserved r = false ->
      append_error rid delta ErrBillingReservationStateConflict
  | ae_user r : reservation d rid = Some r -> in_state BillingReservationStateReserved r = true -> of_wallet r = true ->
      user_covers d (br_user_id r) delta = false -> append_error rid delta ErrInsufficientUserQuota
  | ae_key r : reservation d rid = Some r -> in_state BillingReservationStateReserved r = true ->
      key_covers d (br_token_id r) delta (br_unlimited_token r) = false ->
      append_error rid delta ErrInsufficientTokenQuota
  | ae_subscription r err : reservation d rid = Some r -> in_state BillingReservationStateReserved r = true ->
      of_subscription r = true -> append_error rid delta err.

Definition append_effects (r : BillingReservationRecord) (delta : Z) (key : string) : list effect :=
  (if 0 <? (if of_wallet r then br_user_id r else 0)
   then cache_effects (env_redis e) (if of_wallet r then br_user_id r else 0) "" (i64 (- delta)) 0
   else []) ++
  cache_effects (env_redis e) 0 key 0 (i64 (- delta)).

Inductive append_ok (rid : string) (delta : Z) : unit -> option event -> list effect -> Prop :=
  | ap_skip : delta <= 0 -> append_ok rid delta tt None []
  | ap_done r key : reservation d rid = Some r ->
      append_ok rid delta tt (Some (EvAppended r delta (env_now e))) (append_effects r delta key).

(** The part of the transaction between reading the record and debiting the
    key, for each source. *)
Lemma wp_append_source r delta (Q : result Z -> St -> Prop) fs' :
  (forall k fs', Q (inl (ErrDriver k)) (mkSt d fs' tr)) ->
  (forall fs', of_wallet r = true -> user_covers d (br_user_id r) delta = false ->
     Q (inl ErrInsufficientUserQuota) (mkSt d fs' tr)) ->
  (forall err d1 fs', of_subscription r = true -> Q (inl err) (mkSt d1 fs' tr)) ->
  (forall fs' d1, same_as (of_subscription r)
       (bump_user (br_user_id r) (wallet_side r (- delta)) d) d1 ->
     (of_wallet r = true -> user_covers d (br_user_id r) delta = true) ->
     Q (inr (if of_wallet r then br_user_id r else 0)) (mkSt d1 fs' tr)) ->
  wp (if str_eqb (br_source r) BillingReservationSourceWallet then
        reserveUserQuotaTx (br_user_id r) delta ;; mret (br_user_id r)
      else if str_eqb (br_source r) BillingReservationSourceSubscription then
        postConsumeUserSubscriptionDeltaTx (br_user_subscription_id r) delta ;; mret 0
      else mret 0) Q e (mkSt d fs' tr).
Proof.
  intros Hk Hu Hs Hok. unfold wallet_side, of_wallet, of_subscription in *.
  destruct (str_eqb (br_source r) BillingReservationSourceWallet) eqn:Ew.
  - wp_step. apply str_eqb_true in Ew. rewrite Ew in *.
    apply wp_reserveUserQuotaTx; [done | done | by auto |]. intros. wp_steps. by apply Hok.
  - destruct (str_eqb (br_source r) BillingReservationSourceSubscription) eqn:Es; wp_steps.
    + apply (wp_keeps no_subs); [auto with respects|]. intros [err|v] d1 f1 Hd1; [by apply Hs|].
      wp_steps. apply Hok; [|done]. by rewrite bump_user_zero.
    + apply Hok; [|done]. by rewrite bump_user_zero.
Qed.

Lemma same_as_facts subs d1 d2 :
  same_as subs d1 d2 ->
  db_users d2 = db_users d1 /\ db_tokens d2 = db_tokens d1 /\ db_reservations d2 = db_reservations d1.
Proof.
  destruct subs; cbn; [|by intros ->]. intros H.
  by rewrite (no_subs_users _ _ H), (no_subs_tokens _ _ H), (no_subs_reservations _ _ H).
Qed.
Lemma same_as_wf subs d1 d2 : same_as subs d1 d2 -> wf d1 -> wf d2.
Proof. destruct subs; cbn; [apply no_subs_wf | by intros ->]. Qed.

(** Both forms of [same_as] are congruences for the ledger's changes. *)
Lemma same_as_bump_key subs t x a d1 d2 :
  same_as subs d1 d2 -> same_as subs (bump_key t x a d1) (bump_key t x a d2).
Proof. destruct subs; cbn; [|by intros ->]. intros H. by rewrite !no_subs_bump_key, H. Qed.
Lemma same_as_upd subs k f d1 d2 :
  same_as subs d1 d2 -> same_as subs (upd_reservation k f d1) (upd_reservation k f d2).
Proof. destruct subs; cbn; [|by intros ->]. intros H. by rewrite !no_subs_upd, H. Qed.
Lemma same_as_bump_user subs u x d1 d2 :
  same_as subs d1 d2 -> same_as subs (bump_user u x d1) (bump_user u x d2).
Proof. destruct subs; cbn; [|by intros ->]. intros H. by rewrite !no_subs_bump_user, H. Qed.

Lemma Append_spec rid delta :
  wp (AppendBillingReservation rid delta)
     (contract false (bills_subscription rid) d tr (append_error rid delta) (append_ok rid delta))
     e (mkSt d fs tr).
Proof.
  unfold AppendBillingReservation. wp_step.
  { wp_steps. apply Z.leb_le in Heqb. exists None, []. rewrite app_nil_r.
    split_and!; [by constructor | apply same_as_refl | done]. }
  apply Z.leb_gt in Heqb. wp_step.
  { wp_steps. apply str_eqb_true in Heqb0. split_and!; [done..|]. by apply ae_empty. }
  set (Post := contract _ _ _ _ _ _).
  assert (forall k fs', Post (inl (ErrDriver k)) (mkSt d fs' tr)) as Hk
    by (intros; split_and!; [done..|]; apply ae_driver; by eexists).
  wp_step. apply wp_transaction; [done|]. intros fs1. wp_step.
  apply wp_find_reservation; [done | |].
  { intros f2 Hno. split_and!; [done..|]. by apply ae_missing. }
  intros f2 r Hr Hrid. wp_step.
  { wp_step. split_and!; [done..|]. apply (ae_state _ _ r); [done|]. by apply negb_true_iff in Heqb1. }
  apply negb_false_iff in Heqb1. wp_step.
  apply wp_append_source; [intros; apply Hk | | |].
  { intros f3 Hw Hc. split_and!; [done..|]. by apply (ae_user _ _ r). }
  { intros err d1 f3 Hs. split_and!; [done..|]. by apply (ae_subscription _ _ r). }
  intros f3 d1 Hd1 Hcu. pose proof (same_as_facts _ _ _ Hd1) as (Hu1 & Ht1 & Hr1).
  destruct (frame_bump_user (br_user_id r) (wallet_side r (- delta)) d) as (Ht0 & Hr0 & _).
  rewrite Ht0 in Ht1. rewrite Hr0 in Hr1.
  assert (wf d1) as Hwf1 by (eapply same_as_wf; [done|]; auto with ledger).
  wp_step. apply wp_reserveTokenQuotaTx; [done | done | |].
  { intros f4 Hc. split_and!; [done..|]. apply (ae_key _ _ r); [done | done |].
    by rewrite (key_covers_ext d d1) in Hc. }
  intros f4 a Hck. rewrite (key_covers_ext d d1) in Hck by done. wp_steps.
  destruct (frame_bump_key (br_token_id r) (- delta) a d1) as (_ & Hr2 & _).
  destruct (save_is_upd d Hwf rid r Hr (grow delta (env_now e)) (grow_keeps _ _)) as [Hex Hup].
  change (save Reservations _) with (save Reservations (grow delta (env_now e) r)).
  rewrite <- Hr1, <- Hr2 in Hex, Hup.
  apply wp_save; cbn [t_get Reservations]; [exact Hex | intros; apply Hk | intros f5; rewrite Hup].
  set (d' := upd_reservation rid (grow delta (env_now e)) (bump_key (br_token_id r) (- delta) a d1)).
  change (t_set Reservations _ _) with d'.
  assert (same_as (of_subscription r) (apply_event (EvAppended r delta (env_now e)) a d) d') as Hd'.
  { unfold d', apply_event. cbn [event_record event_change event_amount].
    rewrite Hrid, <- upd_bump_user, <- upd_bump_key. by apply same_as_upd, same_as_bump_key. }
  wp_steps. split; [done|]. intros f6. cbn [st_db st_trace].
  assert (wf d') as Hwf'.
  { eapply same_as_wf; [done|]. unfold apply_event. cbn [event_record event_change event_amount].
    auto with ledger. }
  assert (forall key fs', Post (inr tt) (mkSt d' fs' (tr ++ append_effects r delta key))) as Hdone.
  { intros key f7. exists (Some (EvAppended r delta (env_now e))), (append_effects r delta key).
    split_and!; [by constructor | split | done].
    - cbn. rewrite Hrid. done.
    - exists a. unfold bills_subscription. by rewrite Hr. }
  wp_step. unfold append_effects in Hdone.
  destruct (0 <? (if of_wallet r then br_user_id r else 0)); cbn [when].
  - apply wp_sync. wp_step. apply wp_reservation_key; [done|]. intros key f7 _. apply wp_sync.
    rewrite <- app_assoc. apply Hdone.
  - wp_steps. apply wp_reservation_key; [done|]. intros key f7 _. apply wp_sync. apply Hdone.
Qed.
End Append.

Section Mark.
Context (e : Env) (d : DB) (fs : list (option fault)) (tr : list effect).
Context (Hwf : wf d).

Inductive mark_error (rid : string) : Err -> Prop :=
  | me_empty : rid = ""%string -> mark_error rid ErrBillingReservationNotFound
  | me_driver err : driver_error err -> mark_error rid err
  | me_missing : reservation d rid = None -> mark_error rid ErrBillingReservationNotFound
  | me_closed r : reservation d rid = Some r -> is_open r = false ->
      mark_error rid ErrBillingReservationStateConflict.

Inductive mark_ok (rid : string) : unit -> option event -> list effect -> Prop :=
  | mk_replay r : reservation d rid = Some r ->
      in_state BillingReservationStateProviderStarted r = true -> mark_ok rid tt None []
  | mk_done r : reservation d rid = Some r -> mark_ok rid tt (Some (EvStarted r (env_now e))) [].

Lemma Mark_spec rid :
  wp (MarkBillingReservationProviderStarted rid)
     (contract false false d tr (mark_error rid) (mark_ok rid)) e (mkSt d fs tr).
Proof.
  unfold MarkBillingReservationProviderStarted. wp_step.
  { wp_step. apply str_eqb_true in Heqb. split_and!; [done..|]. by apply me_empty. }
  assert (forall k fs', contract false false d tr (mark_error rid) (mark_ok rid) (inl (ErrDriver k))
    (mkSt d fs' tr)) as Hk by (intros; split_and!; [done..|]; apply me_driver; by eexists).
  do 3 wp_step. apply wp_update; [done|]. intros f1.
  destruct (keyed_update br_request_id has_request has_request_spec rid
    (in_state BillingReservationStateReserved) (set_state BillingReservationStateProviderStarted (env_now e))
    _ (wf_requests d Hwf)) as [(Hn & Hd & Hr)|(Hn & Hd & r & Hr & Hs)];
    unfold has_request, in_state in Hn, Hd; cbn [t_get t_set Reservations]; rewrite Hn, Hd.
  - match goal with |- context [mkSt ?x f1 tr] => replace x with d by (by destruct d) end.
    cbn iota beta. change (0 <? 0) with false. cbn iota. wp_step.
    apply wp_find_reservation; [done | |].
    { intros. split_and!; [done..|]. by apply me_missing. }
    intros f2 r Hrow Hrid. wp_steps.
    + exists None, []. rewrite app_nil_r. split_and!; [by eapply mk_replay | done..].
    + split_and!; [done..|]. apply (me_closed _ r); [done|].
      unfold is_open. rewrite (Hr r Hrow : in_state _ r = false). exact Heqb0.
  - cbn iota beta. change (0 <? 1) with true. wp_steps. destruct (row_facts _ _ _ Hr) as [_ Hrid].
    exists (Some (EvStarted r (env_now e))), []. rewrite app_nil_r. split_and!; [by constructor | split | done].
    + cbn. by rewrite Hrid.
    + exists None. cbn [same_as]. unfold apply_event. cbn [event_record event_change event_amount].
      unfold wallet_side. rewrite bump_key_zero.
      replace (if of_wallet r then 0 else 0) with 0 by (by destruct (of_wallet r)).
      by rewrite bump_user_zero, Hrid.
Qed.
End Mark.

Section Close.
Context (e : Env) (d : DB) (fs : list (option fault)) (tr : list effect).
Context (Hwf : wf d).

Lemma wp_cas k r f Q f0 :
  reservation d k = Some r ->
  (forall x f1, Q (inl (ErrDriver x)) (mkSt d f1 tr)) ->
  (forall f1, Q (inr 1) (mkSt (upd_reservation k f d) f1 tr)) ->
  wp (update Reservations (fun x => (br_id x =? br_id r) && str_eqb (br_state x) (br_state r)) f)
     Q e (mkSt d f0 tr).
Proof.
  intros Hr Hk Hok. apply wp_update; [done|]. intros f1.
  destruct (cas_is_upd d Hwf k r Hr f) as [Hn Hu]. cbn [t_get t_set Reservations].
  rewrite Hn, Hu. apply Hok.
Qed.

(** *** Settlement *)

Inductive settle_error (rid : string) (delta : Z) : Err -> Prop :=
  | se_empty : rid = ""%string -> settle_error rid delta ErrBillingReservationNotFound
  | se_driver err : driver_error err -> settle_error rid delta err
  | se_missing : reservation d rid = None -> settle_error rid delta ErrBillingReservationNotFound
  | se_user r : reservation d rid = Some r -> is_closed r = false -> of_wallet r = true ->
      user_adjusts d (br_user_id r) delta = false -> settle_error rid delta ErrInsufficientUserQuota
  | se_key r : reservation d rid = Some r -> is_closed r = false ->
      key_adjusts d (br_token_id r) delta (br_unlimited_token r) = false ->
      settle_error rid delta ErrInsufficientTokenQuota
  | se_subscription r err : reservation d rid = Some r -> is_closed r = false ->
      of_subscription r = true -> settle_error rid delta err.

Definition settle_effect (r : BillingReservationRecord) (delta : Z) : billingReservationCacheEffect :=
  mkCacheEffect (if of_wallet r then br_user_id r else 0) (if of_wallet r then i64 (- delta) else 0)
    (i64 (- delta)).

(** What the transaction of the settlement ends in. *)
Definition settle_tx_ok (rid : string) (delta : Z) (v : billingReservationCacheEffect) (s' : St) : Prop :=
  st_trace s' = tr /\ exists r, reservation d rid = Some r /\
    ((is_closed r = true /\ v = mkCacheEffect 0 0 0 /\ st_db s' = d) \/
     ((v = settle_effect r delta \/ (v = mkCacheEffect 0 0 0 /\ delta = 0)) /\
      performed false (bills_subscription d rid) (Some (EvSettled r delta (env_now e))) d (st_db s'))).

Lemma wp_settle_source d0 r delta (Q : result (Z * Z) -> St -> Prop) f0 :
  wf d0 -> in_i64 (- delta) ->
  (forall k f1, Q (inl (ErrDriver k)) (mkSt d0 f1 tr)) ->
  (forall f1, of_wallet r = true -> user_adjusts d0 (br_user_id r) delta = false ->
     Q (inl ErrInsufficientUserQuota) (mkSt d0 f1 tr)) ->
  (forall err d1 f1, of_subscription r = true -> Q (inl err) (mkSt d1 f1 tr)) ->
  (forall f1 d1, same_as (of_subscription r)
       (bump_user (br_user_id r) (wallet_side r (- delta)) d0) d1 ->
     (of_wallet r = true -> user_adjusts d0 (br_user_id r) delta = true) ->
     Q (inr (if of_wallet r then br_user_id r else 0, if of_wallet r then i64 (- delta) else 0))
       (mkSt d1 f1 tr)) ->
  wp (if str_eqb (br_source r) BillingReservationSourceWallet then
        adjustUserQuotaDeltaTx (br_user_id r) delta ;; mret (br_user_id r, i64 (- delta))
      else if str_eqb (br_source r) BillingReservationSourceSubscription then
        postConsumeUserSubscriptionDeltaTx (br_user_subscription_id r) delta ;; mret (0, 0)
      else mret (0, 0)) Q e (mkSt d0 f0 tr).
Proof.
  intros Hwf0 Hi Hk Hu Hs Hok. unfold wallet_side, of_wallet, of_subscription in *.
  destruct (str_eqb (br_source r) BillingReservationSourceWallet) eqn:Ew.
  - wp_step. apply str_eqb_true in Ew. rewrite Ew in *.
    apply wp_adjustUserQuotaDeltaTx; [done | done | done | by auto |]. intros. wp_steps. by apply Hok.
  - destruct (str_eqb (br_source r) BillingReservationSourceSubscription) eqn:Es; wp_steps.
    + apply (wp_keeps no_subs); [auto with respects|]. intros [err|v] d1 f1 Hd1; [by apply Hs|].
      wp_steps. apply Hok; [|done]. by rewrite bump_user_zero.
    + apply Hok; [|done]. by rewrite bump_user_zero.
Qed.

Definition tx_post {A} (bad : Err -> Prop) (ok : A -> St -> Prop) (r : result A) (s' : St) : Prop :=
  match r with
  | inl err => st_db s' = d /\ st_trace s' = tr /\ bad err
  | inr v => ok v s'
  end.

Lemma settle_tx_spec rid delta f0 :
  in_i64 (- delta) ->
  wp (transaction (settleBillingReservationTx rid delta))
     (tx_post (settle_error rid delta) (settle_tx_ok rid delta)) e (mkSt d f0 tr).
Proof.
  intros Hi.
  assert (forall k f1, tx_post (settle_error rid delta) (settle_tx_ok rid delta) (inl (ErrDriver k))
    (mkSt d f1 tr)) as Hk by (intros; split_and!; [done..|]; apply se_driver; by eexists).
  apply wp_transaction; [done|]. intros f1. unfold settleBillingReservationTx. wp_step.
  apply wp_find_reservation; [intros; apply Hk | |].
  { intros. split_and!; [done..|]. by apply se_missing. }
  intros f2 r Hr Hrid. wp_step.
  { wp_step. split; [done|]. intros f3. split; [done|]. exists r. split; [done|]. left.
    by split_and!. }
  do 2 wp_step. cbn beta iota. wp_step. apply (wp_cas rid); [done | intros; apply Hk |]. intros f3.
  cbn beta iota. change (1 =? 0) with false. cbn iota.
  set (d1 := event_change (EvSettled r delta (env_now e)) d).
  replace (upd_reservation rid (set_state BillingReservationStateSettled (env_now e)) d) with d1
    by (unfold d1; cbn; by rewrite Hrid).
  assert (wf d1) as Hwf1 by (apply wf_upd_reservation; auto with ledger).
  assert (forall a d' v f4, (v = settle_effect r delta \/ (v = mkCacheEffect 0 0 0 /\ delta = 0)) ->
    same_as (of_subscription r) (apply_event (EvSettled r delta (env_now e)) a d) d' ->
    (of_wallet r = true -> user_adjusts d (br_user_id r) delta = true) ->
    key_adjusts d (br_token_id r) delta (br_unlimited_token r) = true ->
    settle_tx_ok rid delta v (mkSt d' f4 tr)) as Hend.
  { intros a d' v f4 Hv Hd' Hu Hkey. split; [done|]. exists r. split; [done|]. right. split; [done|].
    unfold bills_subscription. rewrite Hr. split; [|by exists a]. cbn. rewrite Hrid. done. }
  wp_step.
  { apply Z.eqb_eq in Heqb0 as ->. wp_step. split; [intros; apply Hk|]. intros f4.
    apply (Hend None); [by right | | done | done].
    unfold apply_event. cbn [event_record event_amount]. change (- 0) with 0.
    replace (wallet_side r 0) with 0 by (unfold wallet_side; by destruct (of_wallet r)).
    rewrite bump_key_zero, bump_user_zero. apply same_as_refl. }
  wp_step. apply wp_settle_source; [done | done | intros; apply Hk | | |].
  { intros f4 Hw Hc. split_and!; [done..|]. by apply (se_user _ _ r). }
  { intros err d2 f4 Hs. split_and!; [done..|]. by apply (se_subscription _ _ r). }
  intros f4 d2 Hd2 Hcu. pose proof (same_as_facts _ _ _ Hd2) as (_ & Ht2 & _).
  rewrite (proj1 (frame_bump_user _ _ _)) in Ht2. change (db_tokens d1) with (db_tokens d) in Ht2.
  cbn beta iota. wp_step. apply wp_adjustTokenQuotaDeltaTx;
    [eapply same_as_wf; [done|]; auto with ledger | done | intros; apply Hk | |].
  { intros f5 Hc. split_and!; [done..|]. apply (se_key _ _ r); [done | done |].
    unfold key_adjusts in *. by rewrite (key_covers_ext d d2) in Hc. }
  intros f5 a Hck. unfold key_adjusts in Hck. rewrite (key_covers_ext d d2) in Hck by done.
  wp_steps. split; [intros; apply Hk|]. intros f6.
  apply (Hend a); [by left | by apply same_as_bump_key | done | done].
Qed.

Inductive settle_ok (rid : string) (delta : Z) : unit -> option event -> list effect -> Prop :=
  | so_closed r : reservation d rid = Some r -> is_closed r = true -> settle_ok rid delta tt None []
  | so_done r key : reservation d rid = Some r ->
      settle_ok rid delta tt (Some (EvSettled r delta (env_now e)))
        (cache_effects (env_redis e) (ce_userID (settle_effect r delta)) key
           (ce_userDelta (settle_effect r delta)) (i64 (- delta))).

Lemma cache_effects_zero redis u key : cache_effects redis u key 0 0 = [].
Proof. unfold cache_effects. by rewrite !andb_false_r. Qed.

Lemma performed_wf quiet subs o d' : performed quiet subs o d d' -> wf d'.
Proof.
  destruct o as [ev|]; [|by intros H%same_as_wf]. intros [He [a Hs]].
  apply (same_as_wf _ _ _ Hs). unfold apply_event. apply wf_bump_key, wf_bump_user.
  destruct ev; cbn in *; [tauto|..]; apply wf_upd_reservation; auto with ledger.
Qed.

Lemma Settle_spec rid delta :
  in_i64 (- delta) ->
  wp (SettleBillingReservation rid delta)
     (contract false (bills_subscription d rid) d tr (settle_error rid delta) (settle_ok rid delta))
     e (mkSt d fs tr).
Proof.
  intros Hi. unfold SettleBillingReservation. wp_step.
  { wp_step. apply str_eqb_true in Heqb. split_and!; [done..|]. by apply se_empty. }
  wp_step. unfold transactionWithBillingReservationRetry. do 2 wp_step.
  eapply wp_mono; [apply (wp_retry_locked _ (settle_error rid delta) (settle_tx_ok rid delta));
    intros; by apply settle_tx_spec|].
  intros [err|v] [d' f1 tr'] H; [by destruct H as (? & ? & ?)|].
  destruct H as (Ht & r & Hr & H). cbn in Ht. subst tr'. cbn [st_db] in H.
  destruct H as [(Hc & -> & ->)|(Hv & Hp)].
  - cbn. exists None, []. rewrite app_nil_r. split_and!; [by eapply so_closed | apply same_as_refl | done].
  - assert (forall key f2, contract false (bills_subscription d rid) d tr (settle_error rid delta) (settle_ok rid delta)
      (inr tt) (mkSt d' f2 (tr ++ cache_effects (env_redis e) (ce_userID v) key (ce_userDelta v) (ce_tokenDelta v))))
      as Hend.
    { intros key f2. eexists _, _. split_and!; [by apply (so_done rid delta r key) | done |]. cbn [st_trace].
      f_equal. destruct Hv as [->|[-> ->]]; [done|].
      unfold settle_effect. cbn [ce_userID ce_userDelta ce_tokenDelta].
      change (i64 (- 0)) with 0. destruct (of_wallet r); by rewrite !cache_effects_zero. }
    unfold effect_apply. wp_step.
    { wp_step. apply andb_true_iff in Heqb0 as [Hu%Z.eqb_eq Hk%Z.eqb_eq].
      specialize (Hend ""%string f1). by rewrite Hu, Hk, cache_effects_zero, app_nil_r in Hend. }
    wp_step. destruct (negb (ce_tokenDelta v =? 0)).
    + apply wp_reservation_key; [by eapply performed_wf|]. intros. apply wp_sync. apply Hend.
    + wp_step. apply wp_sync. apply Hend.
Qed.
(** *** Release *)

(** Which records a release may close. *)
Definition releasable (reservedOnly : bool) (r : BillingReservationRecord) : bool :=
  in_state BillingReservationStateReserved r ||
  (negb reservedOnly && in_state BillingReservationStateProviderStarted r).

Inductive release_error (rid : string) (reservedOnly : bool) : Err -> Prop :=
  | le_empty : rid = ""%string -> release_error rid reservedOnly ErrBillingReservationNotFound
  | le_driver err : driver_error err -> release_error rid reservedOnly err
  | le_missing : reservation d rid = None -> release_error rid reservedOnly ErrBillingReservationNotFound
  | le_subscription r err : reservation d rid = Some r -> releasable reservedOnly r = true ->
      of_subscription r = true -> release_error rid reservedOnly err.

Definition release_outcome (r : BillingReservationRecord) : ReleaseOutcome :=
  mkRelease true (if of_wallet r then br_user_id r else 0)
    (if of_wallet r then br_amount r else 0) (br_amount r).

Definition release_tx_ok (rid : string) (reservedOnly : bool) (v : ReleaseOutcome) (s' : St) : Prop :=
  st_trace s' = tr /\ exists r, reservation d rid = Some r /\
    ((releasable reservedOnly r = false /\ v = mkRelease false 0 0 0 /\ st_db s' = d) \/
     (releasable reservedOnly r = true /\ v = release_outcome r /\
      performed false (bills_subscription d rid) (Some (EvReleased r (env_now e))) d (st_db s'))).

Lemma releasable_open ro r : releasable ro r = true -> is_open r = true.
Proof. unfold releasable, is_open. destruct (in_state _ r), ro, (in_state _ r); done. Qed.

Lemma wp_release_source d0 r rid (Q : result (Z * Z) -> St -> Prop) f0 :
  wf d0 ->
  (forall k f1, Q (inl (ErrDriver k)) (mkSt d0 f1 tr)) ->
  (forall err d1 f1, of_subscription r = true -> Q (inl err) (mkSt d1 f1 tr)) ->
  (forall f1 d1, same_as (of_subscription r)
       (bump_user (br_user_id r) (wallet_side r (br_amount r)) d0) d1 ->
     Q (inr (if of_wallet r then br_user_id r else 0, if of_wallet r then br_amount r else 0))
       (mkSt d1 f1 tr)) ->
  wp (if str_eqb (br_source r) BillingReservationSourceWallet then
        update Users (user_where (fun u => u_id u =? br_user_id r))
          (fun u => u <| u_quota ::= fun q => q + br_amount r |>) ;;
        mret (br_user_id r, br_amount r)
      else if str_eqb (br_source r) BillingReservationSourceSubscription then
        refundSubscriptionPreConsumeTx rid ;;
        when (0 <? br_top_up_amount r)
          (postConsumeUserSubscriptionDeltaTx (br_user_subscription_id r)
             (i64 (- br_top_up_amount r))) ;;
        mret (0, 0)
      else mret (0, 0)) Q e (mkSt d0 f0 tr).
Proof.
  clear Hwf. intros Hwf0 Hk Hs Hok. unfold wallet_side, of_wallet, of_subscription in *.
  destruct (str_eqb (br_source r) BillingReservationSourceWallet) eqn:Ew.
  - wp_step. apply str_eqb_true in Ew. rewrite Ew in *.
    apply (wp_credit_user _ _ _ _ Hwf0 _ (br_amount r)); [done | done |]. intros. wp_steps. by apply Hok.
  - destruct (str_eqb (br_source r) BillingReservationSourceSubscription) eqn:Es.
    + wp_step. apply (wp_keeps no_subs); [respects_auto|]. intros [err|v] d1 f1 Hd1; [by apply Hs|].
      wp_step. apply (wp_keeps no_subs); [respects_auto|]. intros [err|v'] d2 f2 Hd2; [by apply Hs|].
      wp_step. apply Hok. rewrite bump_user_zero. cbn. congruence.
    + wp_steps. apply Hok. by rewrite bump_user_zero.
Qed.

Lemma release_tx_spec rid reservedOnly f0 :
  wp (transaction (releaseBillingReservationTx rid reservedOnly))
     (tx_post (release_error rid reservedOnly) (release_tx_ok rid reservedOnly)) e (mkSt d f0 tr).
Proof.
  assert (forall k f1, tx_post (release_error rid reservedOnly) (release_tx_ok rid reservedOnly) (inl (ErrDriver k))
    (mkSt d f1 tr)) as Hk by (intros; split_and!; [done..|]; apply le_driver; by eexists).
  apply wp_transaction; [done|]. intros f1. unfold releaseBillingReservationTx. wp_step.
  apply wp_find_reservation; [intros; apply Hk | |].
  { intros. split_and!; [done..|]. by apply le_missing. }
  intros f2 r Hr Hrid. wp_step.
  { wp_step. split; [done|]. intros f3. split; [done|]. exists r. split; [done|]. left.
    split_and!; [|done..]. unfold releasable, in_state.
    destruct (str_eqb (br_state r) BillingReservationStateReserved), reservedOnly,
      (str_eqb (br_state r) BillingReservationStateProviderStarted); done. }
  assert (releasable reservedOnly r = true) as Hrel.
  { unfold releasable, in_state.
    destruct (str_eqb (br_state r) BillingReservationStateReserved), reservedOnly,
      (str_eqb (br_state r) BillingReservationStateProviderStarted); done. }
  do 2 wp_step. cbn beta iota. wp_step. apply (wp_cas rid); [done | intros; apply Hk |]. intros f3.
  cbn beta iota. change (1 =? 0) with false. cbn iota.
  set (d1 := event_change (EvReleased r (env_now e)) d).
  replace (upd_reservation rid (set_state BillingReservationStateReleased (env_now e)) d) with d1
    by (unfold d1; cbn; by rewrite Hrid).
  assert (wf d1) as Hwf1 by (apply wf_upd_reservation; auto with ledger).
  wp_step. apply wp_release_source; [done | intros; apply Hk | |].
  { intros err d2 f4 Hs. split_and!; [done..|]. by apply (le_subscription _ _ r). }
  intros f4 d2 Hd2. cbn beta iota. wp_step. apply wp_refundTokenQuotaTx;
    [eapply same_as_wf; [done|]; auto with ledger | intros; apply Hk |].
  intros f5 a. wp_step. split; [intros; apply Hk|]. intros f6. split; [done|].
  exists r. split; [done|]. right. split; [done|]. split; [done|].
  unfold bills_subscription. rewrite Hr. split.
  - cbn. rewrite Hrid. split; [done|]. by apply (releasable_open reservedOnly).
  - exists a. by apply same_as_bump_key.
Qed.

Inductive release_ok (rid : string) (reservedOnly : bool) : bool -> option event -> list effect -> Prop :=
  | ro_refused r : reservation d rid = Some r -> releasable reservedOnly r = false ->
      release_ok rid reservedOnly false None []
  | ro_released' r key : reservation d rid = Some r -> releasable reservedOnly r = true ->
      release_ok rid reservedOnly true (Some (EvReleased r (env_now e)))
        (cache_effects (env_redis e) (if of_wallet r then br_user_id r else 0) key
           (if of_wallet r then br_amount r else 0) (br_amount r)).

Lemma release_spec rid tokenKey reservedOnly :
  wp (releaseBillingReservation rid tokenKey reservedOnly)
     (contract false (bills_subscription d rid) d tr (release_error rid reservedOnly) (release_ok rid reservedOnly))
     e (mkSt d fs tr).
Proof.
  unfold releaseBillingReservation. wp_step.
  { wp_step. apply str_eqb_true in Heqb. split_and!; [done..|]. by apply le_empty. }
  wp_step. unfold transactionWithBillingReservationRetry. do 2 wp_step.
  eapply wp_mono; [apply (wp_retry_locked _ (release_error rid reservedOnly) (release_tx_ok rid reservedOnly));
    intros; by apply release_tx_spec|].
  intros [err|v] [d' f1 tr'] H; [by destruct H as (? & ? & ?)|].
  destruct H as (Ht & r & Hr & H). cbn in Ht. subst tr'. cbn [st_db] in H.
  destruct H as [(Hc & -> & ->)|(Hc & -> & Hp)].
  - cbn. exists None, []. rewrite app_nil_r. split_and!; [by eapply ro_refused | apply same_as_refl | done].
  - assert (forall key f2, contract false (bills_subscription d rid) d tr (release_error rid reservedOnly) (release_ok rid reservedOnly)
      (inr true) (mkSt d' f2 (tr ++ cache_effects (env_redis e) (if of_wallet r then br_user_id r else 0) key
           (if of_wallet r then br_amount r else 0) (br_amount r)))) as Hend.
    { intros key f2. eexists _, _. by split_and!; [apply (ro_released' _ _ r key) | |]. }
    cbn beta iota. wp_step. unfold release_outcome.
    cbn [ro_released ro_cacheUserId ro_cacheUserDelta ro_cacheTokenDelta andb].
    apply wp_when; intros Hw.
    + wp_step. destruct (str_eqb tokenKey "").
      * apply wp_reservation_key; [by eapply performed_wf|]. intros. apply wp_sync. apply Hend.
      * wp_step. apply wp_sync. apply Hend.
    + cbn beta iota. wp_step. specialize (Hend ""%string f1).
      apply orb_false_iff in Hw as [Hu%negb_false_iff%Z.eqb_eq Hk%negb_false_iff%Z.eqb_eq].
      by rewrite Hu, Hk, cache_effects_zero, app_nil_r in Hend.
Qed.
End Close.
