(* ===== verification/ReservationFacts.v ===== *)
(** * ReservationFacts: the properties of the reservation ledger

    Proved on the events of [ReservationSpec], then read back for the operations
    of [Reservation] through their contracts. *)

From S2P Require Import Prelude Schema Store Logic Frame Ledger Calendar Quota Subscription SubscriptionFacts Reservation ReservationRules ReservationSpec.
From stdpp Require Import base numbers option strings list sorting.
From Stdlib Require Import ZArith Lia.
Open Scope Z_scope.

(** ** Held amounts *)

(** The part of a record that is still debited in advance. *)
Definition held_amount (sel : BillingReservationRecord -> bool) (r : BillingReservationRecord) : Z :=
  if sel r && negb (is_closed r) then br_amount r else 0.
Definition on_wallet (u : Z) (r : BillingReservationRecord) : bool := of_wallet r && (br_user_id r =? u).
Definition on_key (t : Z) (r : BillingReservationRecord) : bool := br_token_id r =? t.

Definition held_wallet (d : DB) (u : Z) : Z := sum_rows (held_amount (on_wallet u)) (db_reservations d).
Definition held_key (d : DB) (t : Z) : Z := sum_rows (held_amount (on_key t)) (db_reservations d).

(** The record as it is after the event. *)
Definition event_result (ev : event) : BillingReservationRecord :=
  match ev with
  | EvOpened r => r
  | EvAppended r delta now => grow delta now r
  | EvStarted r now => set_state BillingReservationStateProviderStarted now r
  | EvSettled r _ now => set_state BillingReservationStateSettled now r
  | EvReleased r now => set_state BillingReservationStateReleased now r
  end.

(** What the event consumes for good, out of what the record had reserved. *)
Definition event_charge (ev : event) : Z :=
  match ev with
  | EvSettled r delta _ => br_amount r + delta
  | _ => 0
  end.

Section EventFacts.
Context (d d' : DB) (ev : event) (a : option Z) (subs : bool).
Context (Hwf : wf d) (Hen : enabled d ev) (Hd' : same_as subs (apply_event ev a d) d').

Let r := event_record ev.

Lemma change_tables : db_users (event_change ev d) = db_users d /\ db_tokens (event_change ev d) = db_tokens d.
Proof. by destruct ev. Qed.

Lemma event_posted :
  posted (br_user_id r) (user_moves d (br_user_id r) (wallet_side r (event_amount ev)))
         (br_token_id r) (key_moves d (br_token_id r) (event_amount ev)) d d'.
Proof.
  pose proof (same_as_facts _ _ _ Hd') as (Hu & Ht & _). destruct change_tables as [Hcu Hct].
  unfold apply_event in Hu, Ht. fold r in Hu, Ht. split.
  - rewrite Hu, (proj1 (frame_bump_key _ _ _ _)), users_bump_user, Hcu.
    unfold user_moves, live_user, user_row. by rewrite Hcu.
  - destruct (tokens_bump_key (br_token_id r) (event_amount ev) a
      (bump_user (br_user_id r) (wallet_side r (event_amount ev)) (event_change ev d))) as [a' Ha].
    exists a'. rewrite Ht, Ha, (proj1 (frame_bump_user _ _ _)), Hct.
    unfold key_moves, live_token, token_row. by rewrite (proj1 (frame_bump_user _ _ _)), Hct.
Qed.

Lemma event_reservations : db_reservations d' = db_reservations (event_change ev d).
Proof.
  pose proof (same_as_facts _ _ _ Hd') as (_ & _ & Hr). rewrite Hr. unfold apply_event.
  by rewrite (proj1 (proj2 (frame_bump_key _ _ _ _))), (proj1 (proj2 (frame_bump_user _ _ _))).
Qed.

Lemma event_wf : wf d'.
Proof. apply (performed_wf d Hwf false subs (Some ev)). split; [done | by exists a]. Qed.

(** The held sums move by the difference of the record's held amount. *)
Lemma event_held sel :
  sum_rows (held_amount sel) (db_reservations d') =
  sum_rows (held_amount sel) (db_reservations d) + held_amount sel (event_result ev)
    - match ev with EvOpened _ => 0 | _ => held_amount sel r end.
Proof.
  rewrite event_reservations.
  assert (forall f, reservation d (br_request_id r) = Some r ->
    sum_rows (held_amount sel) (upd_rows (has_request (br_request_id r)) f (db_reservations d))
    = sum_rows (held_amount sel) (db_reservations d) + (held_amount sel (f r) - held_amount sel r)) as Hupd.
  { intros f Hr. rewrite (sum_upd_one br_request_id has_request has_request_spec _ _ _ _ r _
      (wf_requests d Hwf) Hr (fun x => proj1 (has_request_spec _ x))).
    by rewrite (proj2 (has_request_spec (br_request_id r) r) eq_refl). }
  destruct ev as [r0|r0 delta now|r0 now|r0 delta now|r0 now]; unfold r in *; clear r; cbn in Hen, Hupd |- *.
  - rewrite sum_rows_app. cbn. lia.
  - rewrite (Hupd _ (proj1 Hen)). lia.
  - rewrite (Hupd _ (proj1 Hen)). lia.
  - rewrite (Hupd _ (proj1 Hen)). lia.
  - rewrite (Hupd _ (proj1 Hen)). lia.
Qed.

(** The record of a request after the event. *)
Lemma event_reservation k :
  reservation d' k = if str_eqb (br_request_id r) k then Some (event_result ev) else reservation d k.
Proof.
  rewrite (reservation_ext _ _ _ event_reservations).
  destruct ev as [r0|r0 delta now|r0 now|r0 delta now|r0 now]; unfold r in *; clear r;
    cbn [event_change event_record event_result enabled] in Hen |- *;
    [apply reservation_add; tauto|..];
    (rewrite reservation_upd by auto with ledger);
    destruct (str_eqb k (br_request_id r0)) eqn:E;
    (try (apply str_eqb_true in E as ->; rewrite str_eqb_refl, (proj1 Hen); reflexivity));
    (replace (str_eqb (br_request_id r0) k) with false
       by (symmetry; apply str_eqb_false; apply str_eqb_false in E; congruence));
    by destruct (reservation d k).
Qed.
End EventFacts.

(** ** States *)

Lemma reserved_not_closed r : in_state BillingReservationStateReserved r = true -> is_closed r = false.
Proof. unfold is_closed, in_state. by intros ->%str_eqb_true. Qed.
Lemma open_not_closed r : is_open r = true -> is_closed r = false.
Proof. unfold is_open, is_closed, in_state. by intros [->%str_eqb_true | ->%str_eqb_true]%orb_true_iff. Qed.

(** An event acts on a record that is not closed. *)
Lemma enabled_not_closed d ev : enabled d ev -> is_closed (event_record ev) = false.
Proof.
  destruct ev; cbn; intros H; destruct_and?; auto using reserved_not_closed, open_not_closed.
Qed.

(** The sums do not overflow a column of type [bigint]. *)
Definition no_overflow (ev : event) : Prop :=
  match ev with
  | EvAppended r delta _ => in_i64 (br_amount r + delta)
  | _ => True
  end.

(** What the event posts, what it adds to the held amount and what it charges
    balance out. *)
Lemma event_balance d ev (sel : BillingReservationRecord -> bool) :
  enabled d ev -> no_overflow ev -> sel (event_result ev) = sel (event_record ev) ->
  (if sel (event_record ev) then event_amount ev else 0)
    + held_amount sel (event_result ev)
    - match ev with EvOpened _ => 0 | _ => held_amount sel (event_record ev) end
  = - (if sel (event_record ev) then event_charge ev else 0).
Proof.
  intros Hen Hno Hsel. unfold held_amount. rewrite Hsel, (enabled_not_closed d ev Hen).
  destruct (sel (event_record ev)); [|by destruct ev].
  destruct ev as [r|r delta now|r now|r delta now|r now]; cbn in Hno, Hen |- *; cbn.
  - rewrite reserved_not_closed by tauto. cbn. lia.
  - change (is_closed (grow delta now r)) with (is_closed r).
    rewrite reserved_not_closed by tauto. cbn. rewrite i64_small by done. lia.
  - change (is_closed (set_state BillingReservationStateProviderStarted now r)) with false. cbn. lia.
  - change (is_closed (set_state BillingReservationStateSettled now r)) with true. cbn. lia.
  - change (is_closed (set_state BillingReservationStateReleased now r)) with true. cbn. lia.
Qed.

Lemma event_result_same ev :
  (forall u, on_wallet u (event_result ev) = on_wallet u (event_record ev)) /\
  (forall t, on_key t (event_result ev) = on_key t (event_record ev)).
Proof. by destruct ev. Qed.

Section Conservation.
Context (d d' : DB) (ev : event) (a : option Z) (subs : bool).
Context (Hwf : wf d) (Hen : enabled d ev) (Hd' : same_as subs (apply_event ev a d) d').
Context (Hno : no_overflow ev).

(** A live user's balance plus what is held for its requests only moves by
    what a settlement consumes. *)
Lemma event_wallet_equity u :
  live_user d u = true ->
  wallet d' u + held_wallet d' u =
  wallet d u + held_wallet d u - (if on_wallet u (event_record ev) then event_charge ev else 0).
Proof.
  intros Hl. pose proof (event_posted d d' ev a subs Hen Hd') as Hp.
  rewrite (posted_wallet _ _ _ _ _ _ Hp). unfold held_wallet.
  rewrite (event_held d d' ev a subs Hwf Hen Hd').
  pose proof (event_balance d ev (on_wallet u) Hen Hno (proj1 (event_result_same ev) u)) as Hb.
  rewrite (live_user_exists _ _ Hl), andb_true_r.
  assert ((if u =? br_user_id (event_record ev)
           then user_moves d (br_user_id (event_record ev)) (wallet_side (event_record ev) (event_amount ev))
           else 0) = if on_wallet u (event_record ev) then event_amount ev else 0) as ->; [|lia].
  unfold on_wallet, user_moves, wallet_side. destruct (Z.eqb_spec u (br_user_id (event_record ev))) as [<-|Hu].
  - rewrite Hl, Z.eqb_refl, andb_true_r. done.
  - rewrite (proj2 (Z.eqb_neq _ u)) by congruence. by rewrite andb_false_r.
Qed.

Lemma event_key_equity t :
  0 < t -> live_token d t = true ->
  key_remain d' t + held_key d' t =
  key_remain d t + held_key d t - (if on_key t (event_record ev) then event_charge ev else 0).
Proof.
  intros Ht Hl. pose proof (event_posted d d' ev a subs Hen Hd') as Hp.
  rewrite (posted_key_remain _ _ _ _ _ _ Hp). unfold held_key.
  rewrite (event_held d d' ev a subs Hwf Hen Hd').
  pose proof (event_balance d ev (on_key t) Hen Hno (proj2 (event_result_same ev) t)) as Hb.
  rewrite (live_token_exists _ _ Hl), andb_true_r.
  assert ((if t =? br_token_id (event_record ev)
           then key_moves d (br_token_id (event_record ev)) (event_amount ev)
           else 0) = if on_key t (event_record ev) then event_amount ev else 0) as ->; [|lia].
  unfold on_key, key_moves. rewrite (Z.eqb_sym (br_token_id _)).
  destruct (Z.eqb_spec t (br_token_id (event_record ev))) as [<-|]; [|done].
  by rewrite Hl, (proj2 (Z.ltb_lt 0 t)).
Qed.

(** Used and remaining quota of a key move in opposite directions. *)
Lemma event_key_total t : key_remain d' t + key_used d' t = key_remain d t + key_used d t.
Proof.
  pose proof (event_posted d d' ev a subs Hen Hd') as Hp.
  rewrite (posted_key_remain _ _ _ _ _ _ Hp), (posted_key_used _ _ _ _ _ _ Hp). lia.
Qed.
End Conservation.

(** ** Histories *)

(** A run of the ledger: the events that happened, in order.  Between two
    events only the subscription tables may change. *)
Inductive ledger_run : DB -> list event -> DB -> Prop :=
  | run_nil d : ledger_run d [] d
  | run_quiet d d1 evs d' : same_as true d d1 -> ledger_run d1 evs d' -> ledger_run d evs d'
  | run_event d ev a d1 evs d' :
      enabled d ev -> same_as true (apply_event ev a d) d1 -> ledger_run d1 evs d' ->
      ledger_run d (ev :: evs) d'.

Lemma run_app d1 evs1 d2 evs2 d3 :
  ledger_run d1 evs1 d2 -> ledger_run d2 evs2 d3 -> ledger_run d1 (evs1 ++ evs2) d3.
Proof.
  induction 1 as [|d d1 evs d' Hs _ IH|d ev a d1 evs d' Hen Hs _ IH]; intros H2; cbn; [done|..].
  - eapply run_quiet; eauto.
  - eapply run_event; eauto.
Qed.

(** A property of databases kept by quiet steps and by events is kept by runs. *)
Lemma run_invariant (P : DB -> Prop) :
  (forall d d', P d -> same_as true d d' -> P d') ->
  (forall d ev a d', wf d -> P d -> enabled d ev -> same_as true (apply_event ev a d) d' -> P d') ->
  forall d evs d', ledger_run d evs d' -> wf d -> P d -> wf d' /\ P d'.
Proof.
  intros Hq He. induction 1 as [|d d1 evs d' Hs _ IH|d ev a d1 evs d' Hen Hs _ IH]; intros Hwf HP; [done|..].
  - apply IH; [by apply (same_as_wf true d) | by eapply Hq].
  - apply IH; [by apply (event_wf d d1 ev a true) | by eapply He].
Qed.

Lemma run_wf d evs d' : ledger_run d evs d' -> wf d -> wf d'.
Proof. intros Hr Hwf. by apply (run_invariant (fun _ => True) (fun _ _ _ _ => I) (fun _ _ _ _ _ _ _ _ => I) d evs d'). Qed.

Lemma same_balances d d' :
  same_as true d d' ->
  (forall u, wallet d' u = wallet d u) /\ (forall t, key_remain d' t = key_remain d t) /\
  (forall t, key_used d' t = key_used d t) /\ (forall u, live_user d' u = live_user d u) /\
  (forall t, live_token d' t = live_token d t) /\ db_reservations d' = db_reservations d.
Proof.
  intros H. destruct (same_as_facts _ _ _ H) as (Hu & Ht & Hr).
  unfold wallet, key_remain, key_used, live_user, live_token, user_row, token_row.
  split_and!; intros; by rewrite ?Hu, ?Ht.
Qed.

(** What a run charges to user [u] and to key [t]. *)
Fixpoint run_charge (sel : BillingReservationRecord -> bool) (evs : list event) : Z :=
  match evs with
  | [] => 0
  | ev :: evs' => (if sel (event_record ev) then event_charge ev else 0) + run_charge sel evs'
  end.

Lemma run_wallet_equity d evs d' u :
  ledger_run d evs d' -> wf d -> Forall no_overflow evs -> live_user d u = true ->
  wallet d' u + held_wallet d' u = wallet d u + held_wallet d u - run_charge (on_wallet u) evs.
Proof.
  induction 1 as [|d d1 evs d' Hs _ IH|d ev a d1 evs d' Hen Hs _ IH]; intros Hwf Hno Hl.
  - cbn. lia.
  - destruct (same_balances _ _ Hs) as (Hw & _ & _ & Hlu & _ & Hr).
    rewrite IH; [|by apply (same_as_wf true d) | done | by rewrite Hlu].
    unfold held_wallet. rewrite Hw, Hr. lia.
  - apply Forall_cons in Hno as [Hno1 Hno].
    rewrite IH; [|by apply (event_wf d d1 ev a true) | done
                 |by rewrite (posted_live_user _ _ _ _ _ _ (event_posted d d1 ev a true Hen Hs))].
    rewrite (event_wallet_equity d d1 ev a true Hwf Hen Hs Hno1 u Hl). cbn. lia.
Qed.

Lemma run_key_equity d evs d' t :
  ledger_run d evs d' -> wf d -> Forall no_overflow evs -> 0 < t -> live_token d t = true ->
  key_remain d' t + held_key d' t = key_remain d t + held_key d t - run_charge (on_key t) evs.
Proof.
  induction 1 as [|d d1 evs d' Hs _ IH|d ev a d1 evs d' Hen Hs _ IH]; intros Hwf Hno Ht Hl.
  - cbn. lia.
  - destruct (same_balances _ _ Hs) as (_ & Hk & _ & _ & Hlt & Hr).
    rewrite IH; [|by apply (same_as_wf true d) | done | done | by rewrite Hlt].
    unfold held_key. rewrite Hk, Hr. lia.
  - apply Forall_cons in Hno as [Hno1 Hno].
    rewrite IH; [|by apply (event_wf d d1 ev a true) | done | done
                 |by rewrite (posted_live_token _ _ _ _ _ _ (event_posted d d1 ev a true Hen Hs))].
    rewrite (event_key_equity d d1 ev a true Hwf Hen Hs Hno1 t Ht Hl). cbn. lia.
Qed.

Lemma run_key_total d evs d' t :
  ledger_run d evs d' -> key_remain d' t + key_used d' t = key_remain d t + key_used d t.
Proof.
  induction 1 as [|d d1 evs d' Hs _ IH|d ev a d1 evs d' Hen Hs _ IH]; [done|..]; rewrite IH.
  - destruct (same_balances _ _ Hs) as (_ & Hk & Hu & _). by rewrite Hk, Hu.
  - by apply (event_key_total d d1 ev a true).
Qed.

(** ** No overdraft *)

Definition solvent (d : DB) : Prop :=
  (forall u, 0 <= wallet d u) /\ (forall k r, reservation d k = Some r -> 0 <= br_amount r).

Lemma wallet_side_bounds d ev :
  enabled d ev -> solvent d ->
  0 <= wallet d (br_user_id (event_record ev))
       + wallet_side (event_record ev) (event_amount ev).
Proof.
  intros Hen [Hw Ha]. specialize (Hw (br_user_id (event_record ev))). unfold wallet_side.
  destruct (of_wallet (event_record ev)) eqn:Ew; [|lia].
  destruct ev as [r|r delta now|r now|r delta now|r now]; cbn in Hen, Hw, Ew |- *.
  - destruct Hen as (_ & _ & _ & _ & _ & _ & _ & Hc & _). specialize (Hc Ew).
    apply andb_true_iff in Hc as [_ Hc%Z.leb_le]. lia.
  - destruct Hen as (_ & _ & _ & Hc & _). specialize (Hc Ew).
    apply andb_true_iff in Hc as [_ Hc%Z.leb_le]. lia.
  - lia.
  - destruct Hen as (_ & _ & Hc & _). specialize (Hc Ew). unfold user_adjusts in Hc.
    apply orb_true_iff in Hc as [Hc%Z.leb_le|Hc]; [lia|].
    apply andb_true_iff in Hc as [_ Hc%Z.leb_le]. lia.
  - destruct Hen as [Hr _]. specialize (Ha _ _ Hr). lia.
Qed.

Lemma event_solvent d ev a d' :
  wf d -> enabled d ev -> no_overflow ev -> same_as true (apply_event ev a d) d' ->
  solvent d -> solvent d'.
Proof.
  intros Hwf Hen Hno Hs Hsol. pose proof (event_posted d d' ev a true Hen Hs) as Hp. split.
  - intros u. rewrite (posted_wallet _ _ _ _ _ _ Hp).
    pose proof (proj1 Hsol u). pose proof (wallet_side_bounds d ev Hen Hsol) as Hb.
    destruct (Z.eqb_spec u (br_user_id (event_record ev))) as [->|]; cbn; [|lia].
    unfold user_moves. destruct (bool_decide _), (live_user d (br_user_id (event_record ev))); lia.
  - intros k r. rewrite (event_reservation d d' ev a true Hen Hs).
    destruct (str_eqb _ k); [|apply Hsol]. intros [= <-]. destruct Hsol as [_ Ha].
    destruct ev as [r|r delta now|r now|r delta now|r now]; cbn in Hen, Hno |- *.
    + lia.
    + destruct Hen as (Hr & _ & Hd & _). specialize (Ha _ _ Hr). rewrite i64_small by done. lia.
    + exact (Ha _ _ (proj1 Hen)).
    + exact (Ha _ _ (proj1 Hen)).
    + exact (Ha _ _ (proj1 Hen)).
Qed.

Lemma run_solvent d evs d' :
  ledger_run d evs d' -> wf d -> Forall no_overflow evs -> solvent d -> solvent d'.
Proof.
  induction 1 as [|d d1 evs d' Hs _ IH|d ev a d1 evs d' Hen Hs _ IH]; intros Hwf Hno Hsol; [done|..].
  - apply IH; [by apply (same_as_wf true d) | done |].
    destruct (same_balances _ _ Hs) as (Hw & _ & _ & _ & _ & Hr). split.
    + intros u. rewrite Hw. apply Hsol.
    + intros k r. rewrite (reservation_ext d d1 k Hr). apply Hsol.
  - apply Forall_cons in Hno as [Hno1 Hno].
    apply IH; [by apply (event_wf d d1 ev a true) | done | by eapply event_solvent].
Qed.

(** ** The life of a request *)

Inductive phase := PNone | PReserved | PStarted | PClosed.

Definition phase_of (d : DB) (k : string) : phase :=
  match reservation d k with
  | None => PNone
  | Some r => if in_state BillingReservationStateReserved r then PReserved
              else if is_closed r then PClosed else PStarted
  end.

Definition next_phase (p : phase) (ev : event) : option phase :=
  match p, ev with
  | PNone, EvOpened _ => Some PReserved
  | PReserved, EvAppended _ _ _ => Some PReserved
  | PReserved, EvStarted _ _ => Some PStarted
  | PReserved, EvSettled _ _ _ | PStarted, EvSettled _ _ _ => Some PClosed
  | PReserved, EvReleased _ _ | PStarted, EvReleased _ _ => Some PClosed
  | _, _ => None
  end.

Fixpoint life (p : phase) (evs : list event) : option phase :=
  match evs with
  | [] => Some p
  | ev :: evs' => match next_phase p ev with Some p' => life p' evs' | None => None end
  end.

Definition about (k : string) (ev : event) : bool := has_request k (event_record ev).

Lemma event_phase d ev a d' k :
  wf d -> enabled d ev -> same_as true (apply_event ev a d) d' ->
  if about k ev then next_phase (phase_of d k) ev = Some (phase_of d' k)
  else phase_of d' k = phase_of d k.
Proof.
  intros Hwf Hen Hs. unfold about, has_request, phase_of.
  rewrite (event_reservation d d' ev a true Hen Hs k).
  destruct (str_eqb (br_request_id (event_record ev)) k) eqn:E; [|done].
  apply str_eqb_true in E as <-.
  pose proof (enabled_not_closed d ev Hen) as Hnc.
  destruct ev as [r|r delta now|r now|r delta now|r now]; cbn in Hen, Hnc |- *.
  - destruct Hen as (-> & _ & Hst & _). by rewrite Hst.
  - destruct Hen as (-> & Hst & _). rewrite Hst. unfold in_state, str_eqb in Hst. by rewrite Hst.
  - destruct Hen as (-> & Hst). by rewrite Hst.
  - destruct Hen as (-> & _). rewrite Hnc. by destruct (in_state _ r).
  - destruct Hen as (-> & _). rewrite Hnc. by destruct (in_state _ r).
Qed.

Lemma run_life d evs d' k :
  ledger_run d evs d' -> wf d -> life (phase_of d k) (List.filter (about k) evs) = Some (phase_of d' k).
Proof.
  induction 1 as [|d d1 evs d' Hs _ IH|d ev a d1 evs d' Hen Hs _ IH]; intros Hwf; cbn; [done|..].
  - rewrite <- IH by (by apply (same_as_wf true d)). destruct (same_balances _ _ Hs) as (_ & _ & _ & _ & _ & Hr).
    unfold phase_of. by rewrite (reservation_ext d d1 k Hr).
  - pose proof (event_phase d ev a d1 k Hwf Hen Hs) as Hph.
    pose proof (IH (event_wf d d1 ev a true Hwf Hen Hs)) as IH'.
    destruct (about k ev); cbn; [|by rewrite <- Hph]. by rewrite Hph.
Qed.

Definition closes (ev : event) : bool :=
  match ev with EvSettled _ _ _ | EvReleased _ _ => true | _ => false end.

Lemma life_closed evs p : life PClosed evs = Some p -> evs = [].
Proof. by destruct evs as [|[] ?]. Qed.

(** After a record was closed no event is about it, and it stays as it is. *)
Lemma run_after_close d evs d' k r :
  ledger_run d evs d' -> wf d -> reservation d k = Some r -> is_closed r = true ->
  Forall (fun ev => br_request_id (event_record ev) <> k) evs.
Proof.
  intros Hrun Hwf Hr Hc. pose proof (run_life _ _ _ k Hrun Hwf) as Hl.
  assert (phase_of d k = PClosed) as E.
  { unfold phase_of. rewrite Hr, Hc. destruct (in_state _ r) eqn:Er; [|done]. apply reserved_not_closed in Er. congruence. }
  rewrite E in Hl. apply life_closed in Hl. apply Forall_forall. intros ev Hin%list_elem_of_In He.
  assert (In ev (List.filter (about k) evs)) as Hf; [|by rewrite Hl in Hf]. apply filter_In. split; [done|]. by apply has_request_spec.
Qed.
Lemma run_elsewhere d evs d' k :
  ledger_run d evs d' -> wf d -> Forall (fun ev => br_request_id (event_record ev) <> k) evs -> reservation d' k = reservation d k.
Proof.
  induction 1 as [|d d1 evs d' Hs _ IH|d ev a d1 evs d' Hen Hs _ IH]; intros Hwf Hf; [done|..].
  - rewrite IH by (done || by apply (same_as_wf true d)). destruct (same_balances _ _ Hs) as (_ & _ & _ & _ & _ & Hr). by apply reservation_ext.
  - apply Forall_cons in Hf as [Hne Hf]. rewrite IH by (done || by apply (event_wf d d1 ev a true)).
    rewrite (event_reservation d d1 ev a true Hen Hs k). by apply str_eqb_false in Hne as ->.
Qed.

(** Two events on one record post the sum of their amounts. *)
Lemma events_compose d ev1 a1 b1 d1 ev2 a2 b2 d2 :
  enabled d ev1 -> same_as b1 (apply_event ev1 a1 d) d1 ->
  enabled d1 ev2 -> same_as b2 (apply_event ev2 a2 d1) d2 ->
  event_record ev2 = event_record ev1 ->
  let r := event_record ev1 in
  posted (br_user_id r) (user_moves d (br_user_id r) (wallet_side r (event_amount ev1 + event_amount ev2)))
         (br_token_id r) (key_moves d (br_token_id r) (event_amount ev1 + event_amount ev2)) d d2.
Proof.
  intros Hen1 Hs1 Hen2 Hs2 Hr r.
  pose proof (event_posted d d1 ev1 a1 b1 Hen1 Hs1) as P1.
  pose proof (event_posted d1 d2 ev2 a2 b2 Hen2 Hs2) as P2. rewrite Hr in P2. fold r in P1, P2.
  rewrite (proj1 (posted_moves _ _ _ _ _ _ (br_user_id r) _ P1)) in P2.
  rewrite (proj2 (posted_moves _ _ _ _ _ _ (br_token_id r) _ P1)) in P2.
  pose proof (posted_compose _ _ _ _ _ _ _ _ _ P1 P2) as P. rewrite user_moves_add, key_moves_add in P.
  replace (wallet_side r (event_amount ev1 + event_amount ev2))
    with (wallet_side r (event_amount ev1) + wallet_side r (event_amount ev2))
    by (unfold wallet_side; destruct (of_wallet r); lia).
  exact P.
Qed.

(** A successful wallet reservation, seen by the operation that follows it. *)
Lemma reserved_then e1 d f1 tr1 rid u t key amount unl s1 :
  wf d ->
  ReserveWalletBillingQuota rid u t key amount unl e1 (mkSt d f1 tr1) = (inr true, s1) ->
  exists i a, let ev := EvOpened (wallet_record e1 i rid u t unl amount) in
    enabled d ev /\ same_as false (apply_event ev a d) (st_db s1) /\ wf (st_db s1) /\
    reservation (st_db s1) rid = Some (wallet_record e1 i rid u t unl amount).
Proof.
  intros Hwf E1.
  pose proof (wp_use _ _ _ _ _ _ (ReserveWallet_spec e1 d f1 tr1 Hwf rid u t key amount unl) E1) as H1.
  destruct H1 as (o1 & effs1 & Hok1 & Hp1 & _). inversion Hok1 as [|i]; subst.
  destruct Hp1 as [Hen1 [a1 Hs1]]. exists i, a1. cbv zeta. split_and!; [done | done | |].
  - by apply (event_wf d (st_db s1) _ a1 false Hwf Hen1 Hs1).
  - rewrite (event_reservation d (st_db s1) _ a1 false Hen1 Hs1 rid). cbn. by rewrite str_eqb_refl.
Qed.
