(* ===== verification/ReservationTheorems.v ===== *)
(** * ReservationTheorems: what the reservation ledger guarantees

    Statements about the operations of [Reservation] themselves, under any
    environment, any driver outcomes and any interleaving of operations. *)

From S2P Require Import Prelude Schema Store Logic Frame Ledger Demo Calendar Quota Subscription SubscriptionFacts Reservation ReservationRules ReservationSpec ReservationFacts.
From stdpp Require Import base numbers option strings list sorting.
From Stdlib Require Import ZArith Lia.
Open Scope Z_scope.

(** ** Operations and histories of operations *)

Inductive ledger_op :=
  | OpReserveWallet (rid : string) (u t : Z) (key : string) (amount : Z) (unl : bool)
  | OpReserveSubscription (rid : string) (u t : Z) (key : string) (amount : Z) (unl : bool)
  | OpAppend (rid : string) (delta : Z)
  | OpMark (rid : string)
  | OpSettle (rid : string) (delta : Z)
  | OpRelease (rid key : string)
  | OpReleaseUnsent (rid key : string)
  | OpReleaseStale (olderThanSeconds limit : Z).

Definition discard {A} (c : M A) : M unit := c ;; mret tt.

Definition run_op (o : ledger_op) : M unit :=
  match o with
  | OpReserveWallet rid u t key amount unl =>
      discard (ReserveWalletBillingQuota rid u t key amount unl)
  | OpReserveSubscription rid u t key amount unl =>
      discard (ReserveSubscriptionBillingQuota rid u t key amount unl)
  | OpAppend rid delta => AppendBillingReservation rid delta
  | OpMark rid => MarkBillingReservationProviderStarted rid
  | OpSettle rid delta => SettleBillingReservation rid delta
  | OpRelease rid key => discard (ReleaseBillingReservation rid key)
  | OpReleaseUnsent rid key => discard (ReleaseUnsentBillingReservation rid key)
  | OpReleaseStale olderThanSeconds limit => discard (ReleaseStaleBillingReservations olderThanSeconds limit)
  end.

(** The integers the callers pass stay in the range of the columns. *)
Definition op_fits (d : DB) (o : ledger_op) : Prop :=
  match o with
  | OpAppend rid delta =>
      match reservation d rid with Some r => in_i64 (br_amount r + delta) | None => True end
  | OpSettle _ delta => in_i64 (- delta)
  | _ => True
  end.

(** One operation after the other, each in an environment, with driver
    outcomes and after effects of its own. *)
Inductive ops_run : DB -> list ledger_op -> DB -> Prop :=
  | ops_nil d : ops_run d [] d
  | ops_cons d o ops d' e fs tr :
      op_fits d o -> ops_run (st_db (snd (run_op o e (mkSt d fs tr)))) ops d' ->
      ops_run d (o :: ops) d'.

Lemma contract_run {A} quiet subs d tr bad ok (r : result A) s' :
  contract quiet subs d tr bad ok r s' ->
  (forall v ev effs, ok v (Some ev) effs -> no_overflow ev) ->
  exists evs, ledger_run d evs (st_db s') /\ Forall no_overflow evs.
Proof.
  intros H Hno. destruct r as [err|v].
  - destruct H as (-> & _). exists []. split; [apply run_nil | done].
  - destruct H as (o & effs & Hok & Hp & _).
    assert (forall b x y, same_as b x y -> same_as true x y) as Hs
      by (intros b x y; destruct b; cbn; [done|by intros ->]).
    destruct o as [ev|].
    + destruct Hp as [Hen [a Ha]]. exists [ev]. split.
      * eapply run_event; [done | by eapply Hs | apply run_nil].
      * repeat constructor. by eapply Hno.
    + exists []. split; [|done]. eapply run_quiet; [by eapply Hs | apply run_nil].
Qed.

Lemma wp_discard {A} (c : M A) Q e s :
  wp c (fun r s' => Q (match r with inl err => inl err | inr _ => inr tt end) s') e s ->
  wp (discard c) Q e s.
Proof. intros H. unfold discard. wp_step. eapply wp_mono; [exact H|]. by intros [err|v] s' HQ; wp_steps. Qed.

(** The recovery task is a sequence of releases. *)
Lemma release_each_run e records : forall n d fs tr,
  wf d ->
  wp (release_each records n)
     (fun _ s' => exists evs, ledger_run d evs (st_db s') /\ Forall no_overflow evs) e (mkSt d fs tr).
Proof.
  induction records as [|r records IH]; intros n d fs tr Hwf; cbn [release_each].
  - wp_step. exists []. split; [apply run_nil | done].
  - wp_step. apply wp_token_key_of; [done|]. intros key f1 _. wp_step.
    eapply wp_mono; [by apply (release_spec e d f1 tr Hwf (br_request_id r) key true)|].
    intros res [d1 f2 tr1] Hc.
    destruct (contract_run _ _ _ _ _ _ _ _ Hc) as (evs & Hrun & Hno).
    { intros v ev effs Hok. by inversion Hok. }
    cbn [st_db] in *. destruct res as [err|b]; [by exists evs|].
    eapply wp_mono; [apply IH; by eapply run_wf|].
    intros _ s' (evs2 & Hrun2 & Hno2). exists (evs ++ evs2). split; [by eapply run_app | by apply Forall_app].
Qed.

Lemma op_run o e d fs tr :
  wf d -> op_fits d o ->
  exists evs, ledger_run d evs (st_db (snd (run_op o e (mkSt d fs tr)))) /\ Forall no_overflow evs.
Proof.
  intros Hwf Hfit.
  assert (wp (run_op o) (fun _ s' => exists evs, ledger_run d evs (st_db s') /\ Forall no_overflow evs)
    e (mkSt d fs tr)) as H.
  { destruct o as [rid u t key amount unl|rid u t key amount unl|rid delta|rid|rid delta|rid key|rid key|older limit];
      cbn [run_op]; try apply wp_discard.
    - eapply wp_mono; [by apply ReserveWallet_spec|]. intros r s' Hc.
      eapply contract_run; [exact Hc|]. intros v ev effs Hok. by inversion Hok.
    - eapply wp_mono; [by apply ReserveSubscription_spec|]. intros r s' Hc.
      eapply contract_run; [exact Hc|]. intros v ev effs Hok. by inversion Hok.
    - eapply wp_mono; [by apply Append_spec|]. intros r s' Hc.
      eapply contract_run; [exact Hc|]. intros v ev effs Hok. inversion Hok; subst; [].
      cbn in Hfit |- *. match goal with H : reservation d rid = Some _ |- _ => by rewrite H in Hfit end.
    - eapply wp_mono; [by apply Mark_spec|]. intros r s' Hc.
      eapply contract_run; [exact Hc|]. intros v ev effs Hok. by inversion Hok.
    - eapply wp_mono; [by apply Settle_spec|]. intros r s' Hc.
      eapply contract_run; [exact Hc|]. intros v ev effs Hok. by inversion Hok.
    - eapply wp_mono; [by apply (release_spec e d fs tr Hwf rid key false)|]. intros r s' Hc.
      eapply contract_run; [exact Hc|]. intros v ev effs Hok. by inversion Hok.
    - eapply wp_mono; [by apply (release_spec e d fs tr Hwf rid key true)|]. intros r s' Hc.
      eapply contract_run; [exact Hc|]. intros v ev effs Hok. by inversion Hok.
    - unfold ReleaseStaleBillingReservations. cbv zeta. do 2 wp_step. cbn beta iota. wp_step.
      apply wp_find_all; [|].
      + intros. exists []. split; [apply run_nil | done].
      + intros f1. cbn beta iota. by apply release_each_run. }
  unfold wp in H. by destruct (run_op o e _).
Qed.

Lemma ops_run_events d ops d' :
  ops_run d ops d' -> wf d -> exists evs, ledger_run d evs d' /\ Forall no_overflow evs.
Proof.
  induction 1 as [d|d o ops d' e fs tr Hfit _ IH]; intros Hwf.
  - exists []. split; [apply run_nil | done].
  - destruct (op_run o e d fs tr Hwf Hfit) as (evs1 & Hrun1 & Hno1).
    destruct (IH (run_wf _ _ _ Hrun1 Hwf)) as (evs2 & Hrun2 & Hno2).
    exists (evs1 ++ evs2). split; [by eapply run_app | by apply Forall_app].
Qed.

(** ** The theorems about histories *)

(** C1. Refinement: whatever sequence of operations runs, with whatever driver
    failures, the database moves by enabled events of the abstract ledger only
    (each operation by at most one, the recovery task by one per released
    record); a failing operation contributes none. *)
Theorem operations_refine_ledger d ops d' :
  wf d -> ops_run d ops d' ->
  wf d' /\ exists evs, ledger_run d evs d' /\ Forall no_overflow evs.
Proof.
  intros Hwf Hr. destruct (ops_run_events d ops d' Hr Hwf) as (evs & Hrun & Hno).
  split; [by apply (run_wf d evs) | by exists evs].
Qed.

(** A short history on the demonstration database: reserve 100, append 50,
    start the provider, settle with 30 less than reserved. *)
Definition demo_ops : list ledger_op :=
  [OpReserveWallet "req-1" 1 7 "sk-limited" 100 false; OpAppend "req-1" 50; OpMark "req-1";
   OpSettle "req-1" (-30)].
Fixpoint demo_result (ops : list ledger_op) (d : DB) : DB :=
  match ops with
  | [] => d
  | o :: ops' => demo_result ops' (Demo.after (run_op o) d)
  end.

Fixpoint demo_fits (ops : list ledger_op) (d : DB) : Prop :=
  match ops with
  | [] => True
  | o :: ops' => op_fits d o /\ demo_fits ops' (Demo.after (run_op o) d)
  end.

Lemma demo_ops_run ops d : demo_fits ops d -> ops_run d ops (demo_result ops d).
Proof.
  revert d. induction ops as [|o ops IH]; intros d; cbn; [intros; apply ops_nil|].
  intros [Hfit Hrest]. by apply (ops_cons d o ops _ Demo.env [] [] Hfit), IH.
Qed.

Lemma demo_ops_fit : demo_fits demo_ops Demo.db.
Proof. vm_compute. split_and!; done. Qed.

Lemma operations_refine_ledger_witness :
  wf (demo_result demo_ops Demo.db) /\
  exists evs, ledger_run Demo.db evs (demo_result demo_ops Demo.db) /\ Forall no_overflow evs.
Proof. exact (operations_refine_ledger _ _ _ Demo.wf_db (demo_ops_run _ _ demo_ops_fit)). Defined.

Lemma solvent_by_rows d :
  Forall (fun r => 0 <= u_quota r) (db_users d) -> Forall (fun r => 0 <= br_amount r) (db_reservations d) ->
  solvent d.
Proof.
  rewrite !Forall_forall. intros Hu Hr. split.
  - intros u. unfold wallet, user_row. destruct (List.find _ _) as [r|] eqn:E; cbn; [|lia].
    apply Hu. apply List.find_some in E as [E _]. by apply list_elem_of_In.
  - intros k r E. apply Hr. apply List.find_some in E as [E _]. by apply list_elem_of_In.
Qed.

Lemma solvent_demo : solvent Demo.db.
Proof. apply solvent_by_rows; repeat constructor; vm_compute; discriminate. Qed.

(** C2. No overdraft: no sequence of ledger operations, with any driver
    failures in between, makes a wallet or a reserved amount negative. *)
Theorem no_overdraft d ops d' :
  wf d -> solvent d -> ops_run d ops d' -> solvent d'.
Proof.
  intros Hwf Hs Hr. destruct (ops_run_events d ops d' Hr Hwf) as (evs & Hrun & Hno).
  by apply (run_solvent d evs).
Qed.

Lemma no_overdraft_witness : solvent (demo_result demo_ops Demo.db).
Proof. exact (no_overdraft _ _ _ Demo.wf_db solvent_demo (demo_ops_run _ _ demo_ops_fit)). Defined.

(** C3. Conservation: over any sequence of operations, the balance of a live
    user plus what open requests hold of it (and the remaining quota of a live
    key plus what open requests hold of it) only decreases by what settlements
    consume: the reserved amount plus the settled difference.  Remaining plus
    used quota of a key never changes. *)
Theorem balances_conserved d ops d' :
  wf d -> ops_run d ops d' ->
  exists evs, ledger_run d evs d' /\
    (forall u, live_user d u = true ->
       wallet d' u + held_wallet d' u = wallet d u + held_wallet d u - run_charge (on_wallet u) evs) /\
    (forall t, 0 < t -> live_token d t = true ->
       key_remain d' t + held_key d' t = key_remain d t + held_key d t - run_charge (on_key t) evs) /\
    (forall t, key_remain d' t + key_used d' t = key_remain d t + key_used d t).
Proof.
  intros Hwf Hr. destruct (ops_run_events d ops d' Hr Hwf) as (evs & Hrun & Hno).
  exists evs. split_and!; [done | | |]; intros.
  - by apply run_wallet_equity.
  - by apply run_key_equity.
  - by apply (run_key_total d evs).
Qed.

Lemma balances_conserved_witness :
  exists evs, ledger_run Demo.db evs (demo_result demo_ops Demo.db) /\
    wallet (demo_result demo_ops Demo.db) 1 + held_wallet (demo_result demo_ops Demo.db) 1
    = 1000 - run_charge (on_wallet 1) evs.
Proof.
  destruct (balances_conserved _ _ _ Demo.wf_db (demo_ops_run _ _ demo_ops_fit)) as (evs & Hr & Hu & _).
  exists evs. split; [exact Hr | exact (Hu 1 eq_refl)].
Defined.

Definition demo_record : BillingReservationRecord :=
  wallet_record Demo.env 1 "req-1" 1 7 false 100.
(** ** Runs without driver failures *)

Lemma valid_no_driver rid u amount : no_driver (validateBillingReservationArgs rid u amount).
Proof.
  intros k. unfold validateBillingReservationArgs.
  destruct (str_eqb rid ""), (u <=? 0), (amount <? 0); discriminate.
Qed.

Lemma retry_faultless {A} n sqlite (op : M A) : faultless op -> faultless (retry_locked n sqlite op).
Proof.
  intros Hop. induction n as [|n IH]; cbn [retry_locked]; [done|].
  apply faultless_bind_attempt; [done|]. intros [err|a] Hr; [|apply faultless_ret].
  destruct (_ || _); [|done]. apply faultless_raise. intros k ->. by apply (Hr k).
Qed.

Section OpsFaultless.
Lemma find_reservation_faultless k : faultless (find_reservation k).
Proof. unfold find_reservation. faultless_auto. Qed.
Lemma reserveUser_faultless u x : faultless (reserveUserQuotaTx u x).
Proof. unfold reserveUserQuotaTx. faultless_auto. Qed.
Lemma reserveToken_faultless t x unl : faultless (reserveTokenQuotaTx t x unl).
Proof. unfold reserveTokenQuotaTx. faultless_auto. Qed.
Lemma claim_faultless rid u t unl src x : faultless (claimBillingReservationTx rid u t unl src x).
Proof. unfold claimBillingReservationTx. faultless_auto. Qed.
Lemma sync_faultless u key x y : faultless (syncBillingReservationCache u key x y).
Proof. unfold syncBillingReservationCache. faultless_auto. Qed.
Lemma token_key_faultless t : faultless (token_key_of t).
Proof. unfold token_key_of. faultless_auto. Qed.
#[local] Hint Resolve token_key_faultless : faultless.
Lemma reservation_key_faultless k : faultless (billingReservationTokenKey k).
Proof. unfold billingReservationTokenKey. faultless_auto. Qed.
Lemma postConsume_faultless i x : faultless (postConsumeUserSubscriptionDeltaTx i x).
Proof. unfold postConsumeUserSubscriptionDeltaTx. faultless_auto. Qed.
#[local] Hint Resolve postConsume_faultless : faultless.
Lemma refundPre_faultless k : faultless (refundSubscriptionPreConsumeTx k).
Proof. unfold refundSubscriptionPreConsumeTx. faultless_auto. Qed.
Lemma adjustUser_faultless u x : faultless (adjustUserQuotaDeltaTx u x).
Proof. unfold adjustUserQuotaDeltaTx. faultless_auto. Qed.
Lemma adjustToken_faultless t x unl : faultless (adjustTokenQuotaDeltaTx t x unl).
Proof. unfold adjustTokenQuotaDeltaTx. faultless_auto. Qed.
Lemma refundToken_faultless t x : faultless (refundTokenQuotaTx t x).
Proof. unfold refundTokenQuotaTx. faultless_auto. Qed.
#[local] Hint Resolve find_reservation_faultless reserveUser_faultless reserveToken_faultless
  claim_faultless sync_faultless reservation_key_faultless refundPre_faultless adjustUser_faultless
  adjustToken_faultless refundToken_faultless valid_no_driver : faultless.

Lemma ReserveWallet_faultless rid u t key x unl : faultless (ReserveWalletBillingQuota rid u t key x unl).
Proof. unfold ReserveWalletBillingQuota. faultless_auto. Qed.
Lemma Append_faultless rid x : faultless (AppendBillingReservation rid x).
Proof. unfold AppendBillingReservation. faultless_auto. Qed.
Lemma Settle_faultless rid x : faultless (SettleBillingReservation rid x).
Proof.
  unfold SettleBillingReservation, transactionWithBillingReservationRetry, effect_apply.
  faultless_auto. apply retry_faultless. unfold settleBillingReservationTx. faultless_auto.
Qed.
Lemma release_faultless rid key b : faultless (releaseBillingReservation rid key b).
Proof.
  unfold releaseBillingReservation, transactionWithBillingReservationRetry.
  faultless_auto. apply retry_faultless. unfold releaseBillingReservationTx. faultless_auto.
Qed.
End OpsFaultless.

(** ** The operations, exactly *)

(** C5. Reserving from the wallet is decided by the state alone: without a
    driver failure it debits wallet and key and writes the record, or it
    answers [false] and changes nothing (zero amount, or a request id that is
    already reserved), or it fails for the first guard that does not hold and
    changes nothing. *)
Theorem reserve_wallet_decided e d tr rid u t key amount unl r s' :
  wf d -> ReserveWalletBillingQuota rid u t key amount unl e (mkSt d [] tr) = (r, s') ->
  match r with
  | inr true =>
      0 < u /\ 0 < amount /\ reservation d rid = None /\ user_covers d u amount = true /\
      key_covers d t amount unl = true /\
      exists i a, st_db s' = apply_event (EvOpened (wallet_record e i rid u t unl amount)) a d
  | inr false => st_db s' = d /\ st_trace s' = tr /\ (amount = 0 \/ is_Some (reservation d rid))
  | inl err =>
      st_db s' = d /\ st_trace s' = tr /\
      (validateBillingReservationArgs rid u amount = inl err \/
       (reservation d rid = None /\
        ((err = ErrInsufficientUserQuota /\ user_covers d u amount = false) \/
         (err = ErrInsufficientTokenQuota /\ key_covers d t amount unl = false))))
  end.
Proof.
  intros Hwf E.
  destruct (wp_total _ _ e d tr r s' (ReserveWallet_faultless rid u t key amount unl)
    (ReserveWallet_spec e d [] tr Hwf rid u t key amount unl) E) as [Hn Hc].
  destruct r as [err|b].
  - destruct Hc as (Hd & Ht & Hbad). split; [done|]. split; [done|].
    inversion Hbad as [? Hv|? [k ->]|? ? ? Hu|? ? Hk]; subst; [by left | by destruct (Hn k) | |]; right; eauto.
  - destruct Hc as (o & effs & Hok & Hp & Ht). inversion Hok as [Hskip|i]; subst.
    + rewrite app_nil_r in Ht. by split_and!.
    + destruct Hp as [Hen [a Ha]]. cbn in Hen. destruct_and! Hen. split_and!; [done..| |done|]; eauto.
Qed.

Lemma reserve_wallet_decided_witness :
  exists i a, Demo.after (ReserveWalletBillingQuota "req-1" 1 7 "sk-limited" 100 false) Demo.db
    = apply_event (EvOpened (wallet_record Demo.env i "req-1" 1 7 false 100)) a Demo.db.
Proof.
  pose proof (reserve_wallet_decided Demo.env Demo.db [] "req-1" 1 7 "sk-limited" 100 false _ _
    Demo.wf_db (surjective_pairing _)) as H.
  vm_compute in H. exact (proj2 (proj2 (proj2 (proj2 (proj2 H))))).
Defined.

(** C6. Round trip: releasing what was reserved restores the balance of every
    user and both quota columns of every key, whatever the amount and however
    much later (the release may run in another environment). *)
Theorem reserve_then_release e1 e2 d f1 f2 tr1 tr2 rid u t key amount unl s1 s2 :
  wf d ->
  ReserveWalletBillingQuota rid u t key amount unl e1 (mkSt d f1 tr1) = (inr true, s1) ->
  ReleaseBillingReservation rid key e2 (mkSt (st_db s1) f2 tr2) = (inr true, s2) ->
  (forall v, wallet (st_db s2) v = wallet d v) /\
  (forall v, key_remain (st_db s2) v = key_remain d v /\ key_used (st_db s2) v = key_used d v) /\
  phase_of (st_db s2) rid = PClosed.
Proof.
  intros Hwf E1 E2. destruct (reserved_then _ _ _ _ _ _ _ _ _ _ _ Hwf E1) as (i & a1 & Hen1 & Hs1 & Hwf1 & Hr).
  set (r := wallet_record e1 i rid u t unl amount) in *.
  pose proof (wp_use _ _ _ _ _ _ (release_spec e2 (st_db s1) f2 tr2 Hwf1 rid key false) E2) as H2.
  destruct H2 as (o2 & effs2 & Hok2 & Hp2 & _). inversion Hok2 as [|r' key' Hr' Hrel]; subst.
  rewrite Hr in Hr'. injection Hr' as <-. destruct Hp2 as [Hen2 [a2 Hs2]].
  pose proof (events_compose _ _ _ _ _ _ _ _ _ Hen1 Hs1 Hen2 Hs2 eq_refl) as P.
  cbn [event_record event_amount] in P. rewrite Z.add_opp_diag_l in P. cbn [wallet_side] in P.
  destruct (posted_balances _ _ _ _ _ _ P) as (Hw & Hkr & Hku).
  change (wallet_side r 0) with 0 in Hw. rewrite user_moves_zero in Hw. rewrite key_moves_zero in Hkr, Hku.
  split_and!.
  - intros v. rewrite Hw. destruct (v =? _); lia.
  - intros v. rewrite Hkr, Hku. destruct (v =? _); lia.
  - unfold phase_of. rewrite (event_reservation _ _ _ _ _ Hen2 Hs2). cbn. by rewrite str_eqb_refl.
Qed.

Definition demo_reserve : M bool := ReserveWalletBillingQuota "req-1" 1 7 "sk-limited" 100 false.

Lemma reserve_then_release_witness :
  wallet (Demo.after (ReleaseBillingReservation "req-1" "sk-limited")
            (Demo.after demo_reserve Demo.db)) 1 = 1000.
Proof.
  exact (proj1 (reserve_then_release Demo.env Demo.env Demo.db [] [] [] [] "req-1" 1 7 "sk-limited" 100 false
    (Demo.final demo_reserve Demo.db)
    (Demo.final (ReleaseBillingReservation "req-1" "sk-limited") (Demo.after demo_reserve Demo.db))
    Demo.wf_db ltac:(vm_compute; reflexivity) ltac:(vm_compute; reflexivity)) 1).
Defined.

(** Reserve, then settle with the difference between the actual and the
    reserved cost: the user and the key have paid exactly [amount + delta],
    and the request is closed. *)
Theorem reserve_then_settle e1 e2 d f1 f2 tr1 tr2 rid u t key amount delta unl s1 s2 :
  wf d -> 0 < t -> in_i64 (- delta) ->
  ReserveWalletBillingQuota rid u t key amount unl e1 (mkSt d f1 tr1) = (inr true, s1) ->
  SettleBillingReservation rid delta e2 (mkSt (st_db s1) f2 tr2) = (inr tt, s2) ->
  wallet (st_db s2) u = wallet d u - (amount + delta) /\
  key_remain (st_db s2) t = key_remain d t - (amount + delta) /\
  key_used (st_db s2) t = key_used d t + (amount + delta) /\
  phase_of (st_db s2) rid = PClosed.
Proof.
  intros Hwf Ht Hi E1 E2.
  destruct (reserved_then _ _ _ _ _ _ _ _ _ _ _ Hwf E1) as (i & a1 & Hen1 & Hs1 & Hwf1 & Hr).
  set (r := wallet_record e1 i rid u t unl amount) in *.
  pose proof (wp_use _ _ _ _ _ _ (Settle_spec e2 (st_db s1) f2 tr2 Hwf1 rid delta Hi) E2) as H2.
  destruct H2 as (o2 & effs2 & Hok2 & Hp2 & _). inversion Hok2 as [r' Hr' Hc|r' key' Hr']; subst;
    rewrite Hr in Hr'; injection Hr' as <-; [done|].
  destruct Hp2 as [Hen2 [a2 Hs2]].
  pose proof (events_compose _ _ _ _ _ _ _ _ _ Hen1 Hs1 Hen2 Hs2 eq_refl) as P.
  cbn [event_record event_amount] in P.
  destruct (posted_balances _ _ _ _ _ _ P) as (Hw & Hkr & Hku).
  cbn in Hen1. destruct Hen1 as (_ & _ & _ & _ & _ & Ha & _ & Hcu & Hck).
  specialize (Hcu eq_refl). apply andb_true_iff in Hcu as [Hlu _].
  assert (live_token d t = true) as Hlt.
  { unfold key_covers in Hck. rewrite (proj2 (Z.leb_gt t 0) Ht), (proj2 (Z.eqb_neq amount 0)) in Hck by lia.
    by apply andb_true_iff in Hck as [? _]. }
  specialize (Hw u). specialize (Hkr t). specialize (Hku t). cbn in Hw, Hkr, Hku. rewrite Z.eqb_refl in *.
  unfold user_moves, key_moves in *. rewrite Hlu in Hw. rewrite Hlt, (proj2 (Z.ltb_lt 0 t) Ht) in Hkr, Hku.
  cbn in Hw, Hkr, Hku. split_and!; [lia..|].
  unfold phase_of. rewrite (event_reservation _ _ _ _ _ Hen2 Hs2). cbn. by rewrite str_eqb_refl.
Qed.

Lemma reserve_then_settle_witness :
  wallet (Demo.after (SettleBillingReservation "req-1" (-30))
            (Demo.after demo_reserve Demo.db)) 1
  = 1000 - (100 + -30).
Proof.
  exact (proj1 (reserve_then_settle Demo.env Demo.env Demo.db [] [] [] [] "req-1" 1 7 "sk-limited" 100 (-30) false
    (Demo.final demo_reserve Demo.db)
    (Demo.final (SettleBillingReservation "req-1" (-30)) (Demo.after demo_reserve Demo.db))
    Demo.wf_db ltac:(lia) ltac:(vm_compute; split; discriminate) ltac:(vm_compute; reflexivity)
    ltac:(vm_compute; reflexivity))).
Defined.

(** ** Closed requests, unsent requests, stale requests *)

Lemma closed_states r : is_closed r = true ->
  in_state BillingReservationStateReserved r = false /\ is_open r = false /\ (forall b, releasable b r = false).
Proof.
  unfold is_closed, is_open, releasable, in_state.
  by intros [->%str_eqb_true | ->%str_eqb_true]%orb_true_iff; split_and!; intros; try destruct b.
Qed.

Lemma Mark_faultless rid : faultless (MarkBillingReservationProviderStarted rid).
Proof.
  pose proof find_reservation_faultless. unfold MarkBillingReservationProviderStarted. faultless_auto.
Qed.

Lemma quiet_state (s : St) d tr : st_faults s = [] -> st_db s = d -> st_trace s = tr -> s = mkSt d [] tr.
Proof. by destruct s; cbn; intros -> -> ->. Qed.

(** A faultless operation that leaves everything as it was. *)
Lemma final_noop {A} (c : M A) Q e d tr (res : result A) :
  faultless c -> wp c Q e (mkSt d [] tr) ->
  (forall r s', no_driver r -> Q r s' -> r = res /\ st_db s' = d /\ st_trace s' = tr) ->
  c e (mkSt d [] tr) = (res, mkSt d [] tr).
Proof.
  intros Hc Hw HQ. destruct (c e (mkSt d [] tr)) as [r s'] eqn:E.
  destruct (wp_total c Q e d tr r s' Hc Hw E) as [Hn Hq].
  destruct (HQ r s' Hn Hq) as (-> & Hd & Ht).
  pose proof (proj1 (Hc e (mkSt d [] tr) eq_refl)) as Hf. rewrite E in Hf. cbn in Hf.
  by rewrite (quiet_state s' d tr).
Qed.

(** Driver errors do not occur; the other errors of a contract contradict what
    is known of the record. *)
Ltac no_driver_error Hn :=
  try (match goal with H : driver_error _ |- _ => destruct H as [? ->]; by destruct (Hn _ eq_refl) end);
  try congruence.

(** Replay: on a request that is already settled or released, settling
    again (by any difference) reports success, releasing again reports that
    nothing was released, and topping up or starting it is a state conflict;
    none of them changes the database or a cache. *)
Theorem closed_request_is_final e d tr rid r delta key reservedOnly :
  wf d -> reservation d rid = Some r -> is_closed r = true -> rid <> ""%string ->
  0 < delta -> in_i64 (- delta) ->
  SettleBillingReservation rid delta e (mkSt d [] tr) = (inr tt, mkSt d [] tr) /\
  releaseBillingReservation rid key reservedOnly e (mkSt d [] tr) = (inr false, mkSt d [] tr) /\
  AppendBillingReservation rid delta e (mkSt d [] tr)
    = (inl ErrBillingReservationStateConflict, mkSt d [] tr) /\
  MarkBillingReservationProviderStarted rid e (mkSt d [] tr)
    = (inl ErrBillingReservationStateConflict, mkSt d [] tr).
Proof.
  intros Hwf Hr Hc Hne Hpos Hi. destruct (closed_states r Hc) as (Hres & Hop & Hrel). split_and!.
  - eapply final_noop; [apply Settle_faultless | by apply Settle_spec |]. intros [err|v] s' Hn HQ.
    + destruct HQ as (_ & _ & Hbad). by inversion Hbad; subst; no_driver_error Hn.
    + destruct HQ as (o & effs & Hok & Hp & Ht). inversion Hok; subst; [by rewrite app_nil_r in Ht|].
      destruct Hp as [Hen _]. apply enabled_not_closed in Hen. cbn in Hen. congruence.
  - eapply final_noop; [apply release_faultless | by apply release_spec |]. intros [err|v] s' Hn HQ.
    + destruct HQ as (_ & _ & Hbad). by inversion Hbad; subst; no_driver_error Hn; specialize (Hrel reservedOnly).
    + destruct HQ as (o & effs & Hok & Hp & Ht). inversion Hok; subst; [by rewrite app_nil_r in Ht|].
      specialize (Hrel reservedOnly). congruence.
  - eapply final_noop; [apply Append_faultless | by apply Append_spec |]. intros [err|v] s' Hn HQ.
    + destruct HQ as (Hd & Ht & Hbad). split; [|done]. inversion Hbad; subst; no_driver_error Hn; try congruence.
    + destruct HQ as (o & effs & Hok & Hp & Ht). inversion Hok; subst; [lia|].
      destruct Hp as [Hen _]. apply enabled_not_closed in Hen. cbn in Hen. congruence.
  - eapply final_noop; [apply Mark_faultless | by apply Mark_spec |]. intros [err|v] s' Hn HQ.
    + destruct HQ as (Hd & Ht & Hbad). split; [|done]. by inversion Hbad; subst; no_driver_error Hn.
    + destruct HQ as (o & effs & Hok & Hp & Ht). inversion Hok; subst.
      * unfold is_open in Hop. apply orb_false_iff in Hop as [_ Hop]. congruence.
      * destruct Hp as [Hen _]. apply enabled_not_closed in Hen. cbn in Hen. congruence.
Qed.

Definition demo_closed : DB :=
  Demo.after (SettleBillingReservation "req-1" (-30)) (Demo.after demo_reserve Demo.db).
Definition demo_row (d : DB) : BillingReservationRecord := default demo_record (reservation d "req-1").

Lemma wf_demo_closed : wf demo_closed.
Proof. by split; apply (bool_decide_unpack _); vm_compute. Qed.

Lemma closed_request_is_final_witness :
  SettleBillingReservation "req-1" 25 Demo.env (mkSt demo_closed [] [])
  = (inr tt, mkSt demo_closed [] []).
Proof.
  exact (proj1 (closed_request_is_final Demo.env demo_closed [] "req-1" (demo_row demo_closed) 25 "" false
    wf_demo_closed ltac:(vm_compute; reflexivity) ltac:(vm_compute; reflexivity) ltac:(discriminate)
    ltac:(lia) ltac:(vm_compute; split; discriminate))).
Defined.




Lemma filter_unique {R K} (key : R -> K) p (l : list R) : unique_key key l -> unique_key key (List.filter p l).
Proof.
  induction l as [|r l IH]; [done|]. intros [Hn Hu]%unique_cons. cbn.
  destruct (p r); [|by apply IH]. apply unique_cons. split; [|by apply IH].
  intros r' [Hin _]%filter_In. by apply Hn.
Qed.
Lemma perm_unique {R K} (key : R -> K) (l1 l2 : list R) : l1 ≡ₚ l2 -> unique_key key l1 -> unique_key key l2.
Proof. unfold unique_key. intros Hp. by rewrite Hp. Qed.
Lemma take_unique {R K} (key : R -> K) n (l : list R) : unique_key key l -> unique_key key (take n l).
Proof.
  unfold unique_key. intros H. rewrite <- (take_drop n l) in H. rewrite fmap_app in H.
  by apply NoDup_app in H as [? _].
Qed.

Lemma snapshot_in {A} (R : relation A) `{!RelDecision R} n (p : A -> bool) (l : list A) r :
  In r (take n (merge_sort R (List.filter p l))) -> In r l /\ p r = true.
Proof.
  intros Hin%list_elem_of_In. apply filter_In, list_elem_of_In.
  rewrite <- (merge_sort_Permutation R (List.filter p l)), <- (take_drop n (merge_sort R (List.filter p l))).
  apply elem_of_app. by left.
Qed.

(** The releases of a snapshot of reserved records. *)
Lemma release_each_spec e records : forall n d fs tr,
  wf d -> unique_key br_request_id records ->
  (forall r, In r records -> reservation d (br_request_id r) = Some r) ->
  wp (release_each records n)
     (fun res s' => exists recs,
        ledger_run d (List.map (fun r => EvReleased r (env_now e)) recs) (st_db s') /\
        (forall r, In r recs -> In r records) /\ (length recs <= length records)%nat /\
        (forall m, res = inr m -> m = n + Z.of_nat (length recs))) e (mkSt d fs tr).
Proof.
  induction records as [|r records IH]; intros n d fs tr Hwf Hu Hrows; cbn [release_each].
  - wp_step. exists []. split_and!; [apply run_nil | intros ? [] | cbn; lia |]. intros m [= ->]. cbn. lia.
  - apply unique_cons in Hu as [Hfresh Hu].
    wp_step. apply wp_token_key_of; [done|]. intros key f1 _. wp_step.
    eapply wp_mono; [by apply (release_spec e d f1 tr Hwf (br_request_id r) key true)|].
    intros [err|b] [d1 f2 tr1] Hc; cbn beta iota.
    { destruct Hc as (Hd & _). cbn in Hd. subst d1. exists []. cbn.
      split_and!; [apply run_nil | intros ? [] | lia | intros ? [=]]. }
    destruct Hc as (o & effs & Hok & Hp & _). inversion Hok as [r' Hr' Hrel|r' key' Hr' Hrel]; subst; cbn in Hp.
    + subst d1. eapply wp_mono; [apply IH; [done | done | intros; apply Hrows; by right]|].
      intros res s' (recs & Hrun & Hin & Hlen & Hm). exists recs.
      split_and!; [done | intros; right; auto | cbn; lia | intros m Hr; rewrite (Hm m Hr); cbn; lia].
    + rewrite (Hrows r) in Hr' by (by left). injection Hr' as <-. destruct Hp as [Hen [a Hs]].
      eapply wp_mono; [apply IH; [exact (event_wf d d1 (EvReleased r (env_now e)) a _ Hwf Hen Hs) | done |]|].
      * intros x Hx. rewrite (event_reservation d d1 (EvReleased r (env_now e)) a _ Hen Hs). cbn.
        rewrite (proj2 (String.eqb_neq _ _)); [apply Hrows; by right|]. intros He. by apply (Hfresh x Hx).
      * intros res s' (recs & Hrun & Hin & Hlen & Hm). exists (r :: recs). cbn. split_and!.
        -- eapply run_event; [exact Hen | | exact Hrun].
           destruct (bills_subscription d (br_request_id r)); cbn in *; [done | by subst].
        -- intros x [->|Hx]; [by left | right; auto].
        -- lia.
        -- intros m Hr. rewrite (Hm m Hr). cbn [Z.b2z]. lia.
Qed.

(** C7. Recovery is safe: a run of the recovery task releases only records
    that were reserved but never sent to a provider, last touched more than the
    requested age (never less than 600 seconds) ago, at most [limit] of them
    (100 by default), each once; the count it returns is theirs. *)
Theorem stale_recovery_safe e d fs tr olderThanSeconds limit res s' :
  wf d -> ReleaseStaleBillingReservations olderThanSeconds limit e (mkSt d fs tr) = (res, s') ->
  exists recs,
    ledger_run d (List.map (fun r => EvReleased r (env_now e)) recs) (st_db s') /\
    (forall r, In r recs ->
       reservation d (br_request_id r) = Some r /\
       in_state BillingReservationStateReserved r = true /\
       br_updated_at r < i64 (env_now e - Z.max 600 olderThanSeconds)) /\
    Z.of_nat (length recs) <= (if limit <=? 0 then 100 else limit) /\
    (forall n, res = inr n -> n = Z.of_nat (length recs)).
Proof.
  intros Hwf E. pattern res, s'. refine (wp_use _ _ _ _ _ _ _ E). clear E res s'. unfold ReleaseStaleBillingReservations. cbv zeta. do 2 wp_step. cbn beta iota.
  replace (if olderThanSeconds <? billingReservationStaleFloorSeconds
           then billingReservationStaleFloorSeconds else olderThanSeconds)
    with (Z.max 600 olderThanSeconds)
    by (unfold billingReservationStaleFloorSeconds; destruct (Z.ltb_spec olderThanSeconds 600); lia).
  set (cutoff := i64 _). set (lim := if limit <=? 0 then 100 else limit).
  assert (0 <= lim) as Hlim by (unfold lim; destruct (Z.leb_spec limit 0); lia).
  wp_step. apply wp_find_all.
  { intros. exists []. split_and!; [apply run_nil | intros ? [] | cbn; lia | intros ? [=]]. }
  intros f1. cbn beta iota. cbn [t_get Reservations].
  set (rows := List.filter (stale_reserved cutoff) (db_reservations d)).
  set (snapshot := take (Z.to_nat lim) (merge_sort updated_order rows)).
  assert (forall r, In r snapshot -> In r (db_reservations d) /\ stale_reserved cutoff r = true) as Hrows.
  { intros r Hr. by apply snapshot_in in Hr. }
  assert (unique_key br_request_id snapshot) as Hu.
  { apply take_unique. eapply perm_unique; [symmetry; apply merge_sort_Permutation|].
    apply filter_unique, wf_requests, Hwf. }
  assert (Z.of_nat (length snapshot) <= lim) as Hlen by (unfold snapshot; rewrite length_take; lia).
  eapply wp_mono; [apply release_each_spec; [done | done |]|].
  { intros r Hin. apply (find_unique _ _ has_request_spec); [apply wf_requests, Hwf | by apply Hrows | done]. }
  intros r s1 (recs & Hrun & Hin & Hl & Hm). exists recs. split_and!; [done | | lia | done].
  intros x Hx. destruct (Hrows x (Hin x Hx)) as [Hx1 Hx2].
  unfold stale_reserved in Hx2. apply andb_true_iff in Hx2 as [Hx2 Hx3%Z.ltb_lt]. split_and!; [|done|done].
  by apply (find_unique _ _ has_request_spec); [apply wf_requests, Hwf | |].
Qed.

(** One request reserved 20 minutes before, one just now: only the first goes. *)
Definition stale_record (i : Z) (rid : string) (age : Z) : BillingReservationRecord :=
  mkBillingReservationRecord i rid 1 7 false BillingReservationSourceWallet 0 100 0
    BillingReservationStateReserved (Demo.now - age) (Demo.now - age).
Definition demo_stale : DB :=
  Demo.db <| db_reservations := [stale_record 1 "old" 1200; stale_record 2 "new" 10] |>.

Lemma wf_demo_stale : wf demo_stale.
Proof. by split; apply (bool_decide_unpack _); vm_compute. Qed.

Lemma stale_recovery_safe_witness :
  exists recs,
    ledger_run demo_stale (List.map (fun r => EvReleased r Demo.now) recs)
      (Demo.after (ReleaseStaleBillingReservations 0 0) demo_stale) /\
    1 = Z.of_nat (length recs).
Proof.
  destruct (stale_recovery_safe Demo.env demo_stale [] [] 0 0 _ _ wf_demo_stale (surjective_pairing _))
    as (recs & Hrun & _ & _ & Hn).
  exists recs. split; [exact Hrun | apply Hn; vm_compute; reflexivity].
Defined.

(** Cleaning up never deletes a record that still holds quota: only
    settled or released records older than the retention go, no balance moves,
    and what is held of every user and key stays the same. *)
Theorem cleanup_keeps_open_records e d fs tr olderThanSeconds res s' :
  CleanupBillingReservationRecords olderThanSeconds e (mkSt d fs tr) = (res, s') ->
  db_users (st_db s') = db_users d /\ db_tokens (st_db s') = db_tokens d /\
  (forall u, held_wallet (st_db s') u = held_wallet d u) /\
  (forall t, held_key (st_db s') t = held_key d t) /\
  (forall r, In r (db_reservations d) -> In r (db_reservations (st_db s')) \/
     (is_closed r = true /\
      br_updated_at r < i64 (env_now e - (if olderThanSeconds <=? 0 then 7 * 24 * 3600 else olderThanSeconds)))).
Proof.
  intros E. pattern res, s'. refine (wp_use _ _ _ _ _ _ _ E). clear E res s'.
  unfold CleanupBillingReservationRecords. cbv zeta. do 2 wp_step. cbn beta iota.
  set (cutoff := i64 _).
  apply wp_delete_where; [intros; split_and!; auto|]. intros f1. cbn.
  assert (forall sel l, sum_rows (held_amount sel)
    (List.filter (fun r => negb ((str_eqb (br_state r) BillingReservationStateSettled
        || str_eqb (br_state r) BillingReservationStateReleased) && (br_updated_at r <? cutoff))) l)
    = sum_rows (held_amount sel) l) as Hsum.
  { intros sel l. induction l as [|r l IH]; [done|]. cbn [List.filter sum_rows].
    destruct (_ && (br_updated_at r <? cutoff)) eqn:E; cbn [negb sum_rows]; [|lia].
    apply andb_true_iff in E as [E _]. unfold held_amount at 2. unfold is_closed, in_state.
    rewrite E, andb_false_r. lia. }
  split_and!; [done | done | intros; apply Hsum | intros; apply Hsum |].
  intros r Hin. destruct (is_closed r && (br_updated_at r <? cutoff)) eqn:E.
  - right. by apply andb_true_iff in E as [? ?%Z.ltb_lt].
  - left. apply filter_In. split; [done|]. unfold is_closed, in_state in E. by rewrite E.
Qed.

Lemma cleanup_keeps_open_records_witness :
  held_wallet (Demo.after (CleanupBillingReservationRecords 60) demo_stale) 1 = 200.
Proof.
  exact (proj1 (proj2 (proj2 (cleanup_keeps_open_records Demo.env demo_stale [] [] 60 _ _ (surjective_pairing _)))) 1).
Defined.

(** ** The retry loop *)

(** The states in which the successive attempts of [op] start. *)
Fixpoint attempt_state {A} (op : M A) (e : Env) (i : nat) (s : St) : St :=
  match i with
  | O => s
  | S i' => attempt_state op e i' (snd (op e s))
  end.

Definition transient {A} (sqlite : bool) (r : result A) : bool :=
  match r with
  | inl err => sqlite && str_contains (err_text err) "database table is locked"
  | inr _ => false
  end.

(** Retrying stops: a terminal transition is attempted at most three
    times, only while the outcome is SQLite's transient table lock, and the
    outcome reported is that of the last attempt. *)
Theorem retry_at_most_three {A} (op : M A) e s :
  exists i, (i <= 2)%nat /\
    transactionWithBillingReservationRetry op e s = op e (attempt_state op e i s) /\
    (forall j, (j < i)%nat -> transient (env_sqlite e) (fst (op e (attempt_state op e j s))) = true) /\
    (i = 2%nat \/ transient (env_sqlite e) (fst (op e (attempt_state op e i s))) = false).
Proof.
  assert (forall n s, exists i, (i <= n)%nat /\
    retry_locked n (env_sqlite e) op e s = op e (attempt_state op e i s) /\
    (forall j, (j < i)%nat -> transient (env_sqlite e) (fst (op e (attempt_state op e j s))) = true) /\
    (i = n \/ transient (env_sqlite e) (fst (op e (attempt_state op e i s))) = false)) as H; [|apply (H 2%nat)].
  clear s. induction n as [|n IH]; intros s.
  - exists O. cbn. split_and!; [lia | done | lia | by left].
  - cbn [retry_locked]. unfold mbind, M_bind, attempt. destruct (op e s) as [r s'] eqn:E.
    assert (transient (env_sqlite e) r = false ->
      exists i, (i <= S n)%nat /\ (r, s') = op e (attempt_state op e i s) /\
        (forall j, (j < i)%nat -> transient (env_sqlite e) (fst (op e (attempt_state op e j s))) = true) /\
        (i = S n \/ transient (env_sqlite e) (fst (op e (attempt_state op e i s))) = false)) as Hstop.
    { intros Ht. exists O. cbn. rewrite E. split_and!; [lia | done | lia | by right]. }
    destruct r as [err|a]; [|exact (Hstop eq_refl)].
    destruct (negb (env_sqlite e) || negb (str_contains (err_text err) "database table is locked")) eqn:Et.
    + apply Hstop. cbn. by rewrite <- negb_andb, negb_true_iff in Et.
    + destruct (IH s') as (i & Hi & Hr & Hj & Hlast). exists (S i). cbn [attempt_state]. rewrite E. cbn [snd].
      split_and!; [lia | done | | by destruct Hlast as [->|?]; auto].
      intros [|j] Hlt; cbn [attempt_state]; rewrite E; cbn [fst snd].
      * cbn. by rewrite <- negb_andb, negb_false_iff in Et.
      * apply Hj. lia.
Qed.

(** ** The quota caches follow the database *)

Definition user_cache_delta (u : Z) (effs : list effect) : Z :=
  List.fold_right (fun ef n => match ef with
                               | EffUserQuotaCache v x => if v =? u then x + n else n
                               | _ => n
                               end) 0 effs.

Lemma user_cache_delta_app u l1 l2 : user_cache_delta u (l1 ++ l2) = user_cache_delta u l1 + user_cache_delta u l2.
Proof.
  unfold user_cache_delta. induction l1 as [|ef l1 IH]; [done|]. cbn [app List.fold_right]. rewrite IH.
  destruct ef; try done. destruct (user_id =? u); lia.
Qed.

Lemma user_cache_delta_effects u v key ud td :
  user_cache_delta u (cache_effects true v key ud td) = if (v =? u) && (0 <? v) then ud else 0.
Proof.
  unfold cache_effects. rewrite user_cache_delta_app.
  replace (user_cache_delta u (if negb (str_eqb key "") && negb (td =? 0) && true
                               then [EffTokenQuotaCache key td] else [])) with 0
    by (by destruct (_ && true)).
  destruct (0 <? v), (Z.eqb_spec ud 0) as [->|]; cbn; destruct (v =? u); cbn; lia.
Qed.

(** The wallet movement of an operation and the deltas it sends to the cache. *)
Definition mirrored (u : Z) (d : DB) (tr : list effect) (s' : St) : Prop :=
  exists effs, st_trace s' = tr ++ effs /\
    user_cache_delta u effs = wallet (st_db s') u - wallet d u /\ live_user (st_db s') u = true.

Lemma mirrored_refl u d fs tr : live_user d u = true -> mirrored u d tr (mkSt d fs tr).
Proof. intros Hl. exists []. cbn. rewrite app_nil_r. split_and!; [done | lia | done]. Qed.

Lemma mirrored_trans u d tr d1 fs1 tr1 s' :
  mirrored u d tr (mkSt d1 fs1 tr1) -> mirrored u d1 tr1 s' -> mirrored u d tr s'.
Proof.
  intros (l1 & Ht1 & Hd1 & _) (l2 & Ht2 & Hd2 & Hl). cbn in *. exists (l1 ++ l2). subst tr1.
  rewrite user_cache_delta_app, app_assoc. split_and!; [done | lia | done].
Qed.

Lemma contract_mirrored {A} quiet subs d tr bad ok (r : result A) s' u :
  live_user d u = true -> contract quiet subs d tr bad ok r s' ->
  (forall v ev effs, ok v (Some ev) effs ->
     user_cache_delta u effs = if on_wallet u (event_record ev) then event_amount ev else 0) ->
  (forall v effs, ok v None effs -> effs = []) ->
  mirrored u d tr s'.
Proof.
  intros Hl H Hev Hno. destruct s' as [d' fs' tr']. destruct r as [err|v]; cbn in H.
  - destruct H as (-> & -> & _). by apply mirrored_refl.
  - destruct H as (o & effs & Hok & Hp & ->). exists effs. split; [done|]. destruct o as [ev|].
    + destruct Hp as [Hen [a Ha]]. pose proof (event_posted _ _ _ _ _ Hen Ha) as P. cbn in P |- *.
      rewrite (posted_live_user _ _ _ _ _ _ P), (proj1 (posted_balances _ _ _ _ _ _ P)), (Hev _ _ _ Hok).
      split; [|done]. unfold on_wallet, wallet_side, user_moves.
      destruct (Z.eqb_spec u (br_user_id (event_record ev))) as [<-|Hu].
      * rewrite Hl, Z.eqb_refl, andb_true_r. destruct (of_wallet _); lia.
      * rewrite (proj2 (Z.eqb_neq _ u)) by congruence. rewrite andb_false_r. lia.
    + rewrite (Hno _ _ Hok). cbn in Hp |- *.
      assert (same_as true d d') as Hs by (destruct quiet; [done | cbn in Hp |- *; by subst]).
      destruct (same_balances _ _ Hs) as (Hw & _ & _ & Hlu & _). rewrite Hw, Hlu. split; [lia | done].
Qed.

Section Mirror.
Context (e : Env) (u : Z) (Hredis : env_redis e = true) (Hu : 0 < u).

Lemma wallet_effects r key x td :
  user_cache_delta u (cache_effects (env_redis e) (if of_wallet r then br_user_id r else 0) key
                        (if of_wallet r then x else 0) td)
  = if on_wallet u r then x else 0.
Proof.
  rewrite Hredis, user_cache_delta_effects. unfold on_wallet.
  destruct (of_wallet r); cbn [andb]; [|by destruct (_ && _)].
  destruct (Z.eqb_spec (br_user_id r) u) as [->|]; [|done]. by rewrite (proj2 (Z.ltb_lt 0 u) Hu).
Qed.

Lemma release_mirrored rid key b d fs tr :
  wf d -> live_user d u = true ->
  wp (releaseBillingReservation rid key b) (fun _ s' => mirrored u d tr s' /\ wf (st_db s')) e (mkSt d fs tr).
Proof.
  intros Hwf Hl. eapply wp_mono; [by apply release_spec|]. intros r s' Hc. split.
  - eapply contract_mirrored; [done | exact Hc | |].
    + intros v ev effs Hok. inversion Hok; subst. by rewrite wallet_effects.
    + intros v effs Hok. by inversion Hok.
  - destruct (contract_run _ _ _ _ _ _ _ _ Hc) as (evs & Hrun & _); [|by eapply run_wf].
    intros v ev effs Hok. by inversion Hok.
Qed.

Lemma release_each_mirrored records : forall n d fs tr,
  wf d -> live_user d u = true ->
  wp (release_each records n) (fun _ s' => mirrored u d tr s') e (mkSt d fs tr).
Proof.
  induction records as [|r records IH]; intros n d fs tr Hwf Hl; cbn [release_each].
  - wp_step. by apply mirrored_refl.
  - wp_step. apply wp_token_key_of; [done|]. intros key f1 _. wp_step.
    eapply wp_mono; [by apply release_mirrored|].
    intros [err|b] [d1 f2 tr1] [Hm Hwf1]; cbn beta iota; [done|].
    eapply wp_mono; [apply IH; [done | by destruct Hm as (? & ? & ? & ?)]|].
    intros ? s' Hm'. by eapply mirrored_trans.
Qed.
End Mirror.

(** The arguments are Go integers. *)
Definition op_args_i64 (o : ledger_op) : Prop :=
  match o with
  | OpReserveWallet _ _ _ _ amount _ => in_i64 (- amount)
  | OpAppend _ delta => in_i64 (- delta)
  | _ => True
  end.

(** The cache follows the database: with Redis on, the deltas an operation
    sends to a live user's cached quota add up to the change of that user's
    wallet, whatever the operation and whether it succeeds, fails, is replayed
    or is retried. *)
Theorem user_cache_follows_wallet e d fs tr o r s' u :
  wf d -> op_fits d o -> op_args_i64 o -> env_redis e = true -> 0 < u -> live_user d u = true ->
  run_op o e (mkSt d fs tr) = (r, s') ->
  exists effs, st_trace s' = tr ++ effs /\ user_cache_delta u effs = wallet (st_db s') u - wallet d u.
Proof.
  intros Hwf Hfit Hargs Hredis Hu Hl E.
  assert (mirrored u d tr s') as (effs & Ht & Hd & _); [|by exists effs].
  pattern r, s'. refine (wp_use _ _ _ _ _ _ _ E). clear E r s'.
  destruct o as [rid v t key amount unl|rid v t key amount unl|rid delta|rid|rid delta|rid key|rid key|older limit];
    cbn [run_op]; try apply wp_discard.
  - eapply wp_mono; [by apply ReserveWallet_spec|]. intros r s' Hc.
    eapply contract_mirrored; [done | exact Hc | |]; [|intros x effs Hok; by inversion Hok].
    intros x ev effs Hok. inversion Hok; subst. cbn in Hargs. rewrite (i64_small _ Hargs).
    exact (wallet_effects e u Hredis Hu (wallet_record e i rid v t unl amount) _ (- amount) (- amount)).
  - eapply wp_mono; [by apply ReserveSubscription_spec|]. intros r s' Hc.
    eapply contract_mirrored; [done | exact Hc | |]; [|intros x effs Hok; by inversion Hok].
    intros x ev effs Hok. inversion Hok; subst. rewrite Hredis, user_cache_delta_effects. by destruct (_ && _).
  - eapply wp_mono; [by apply Append_spec|]. intros r s' Hc.
    eapply contract_mirrored; [done | exact Hc | |]; [|intros x effs Hok; by inversion Hok].
    intros x ev effs Hok. inversion Hok as [|y key Hy]; subst. cbn in Hargs. unfold append_effects.
    rewrite (i64_small _ Hargs), user_cache_delta_app, Hredis, user_cache_delta_effects, andb_false_r, Z.add_0_r.
    pose proof (wallet_effects e u Hredis Hu y ""%string (- delta) 0) as He. rewrite Hredis in He.
    unfold on_wallet in *. cbn [event_record event_amount].
    destruct (of_wallet y); cbn [andb] in *; [|done].
    destruct (0 <? br_user_id y) eqn:E0; [exact He|].
    destruct (Z.eqb_spec (br_user_id y) u) as [Hy'|]; [|done]. apply Z.ltb_ge in E0. lia.
  - eapply wp_mono; [by apply Mark_spec|]. intros r s' Hc.
    eapply contract_mirrored; [done | exact Hc | |]; [|intros x effs Hok; by inversion Hok].
    intros x ev effs Hok. inversion Hok; subst. cbn [event_record event_amount]. by destruct (on_wallet u _).
  - eapply wp_mono; [by apply Settle_spec|]. intros r s' Hc.
    eapply contract_mirrored; [done | exact Hc | |]; [|intros x effs Hok; by inversion Hok].
    intros x ev effs Hok. inversion Hok as [|y key Hy]; subst.
    unfold settle_effect. cbn [ce_userID ce_userDelta]. rewrite wallet_effects by done.
    cbn in Hfit. by rewrite (i64_small _ Hfit).
  - eapply wp_mono; [by apply (release_mirrored e u Hredis Hu rid key false)|]. by intros r s' [Hm _].
  - eapply wp_mono; [by apply (release_mirrored e u Hredis Hu rid key true)|]. by intros r s' [Hm _].
  - unfold ReleaseStaleBillingReservations. cbv zeta. do 2 wp_step. cbn beta iota. wp_step.
    apply wp_find_all; [intros; by apply mirrored_refl|]. intros f1. cbn beta iota.
    by apply release_each_mirrored.
Qed.

Lemma user_cache_follows_wallet_witness :
  exists effs,
    st_trace (Demo.final (run_op (OpReserveWallet "req-1" 1 7 "sk-limited" 100 false)) Demo.db) = [] ++ effs /\
    user_cache_delta 1 effs = -100.
Proof.
  exact (user_cache_follows_wallet Demo.env Demo.db [] [] (OpReserveWallet "req-1" 1 7 "sk-limited" 100 false)
    _ _ 1 Demo.wf_db I ltac:(vm_compute; split; discriminate) eq_refl ltac:(lia) eq_refl (surjective_pairing _)).
Defined.

(** C9. No request is stuck: without a driver failure, an open wallet request
    can always be released, and can always be settled for at most what was
    reserved; afterwards it is closed. *)
Theorem open_request_can_close e d tr rid r key delta :
  wf d -> reservation d rid = Some r -> is_open r = true -> of_wallet r = true -> rid <> ""%string ->
  delta <= 0 -> in_i64 (- delta) ->
  (exists s', ReleaseBillingReservation rid key e (mkSt d [] tr) = (inr true, s') /\
     phase_of (st_db s') rid = PClosed) /\
  (exists s', SettleBillingReservation rid delta e (mkSt d [] tr) = (inr tt, s') /\
     phase_of (st_db s') rid = PClosed).
Proof.
  intros Hwf Hr Hop Hw Hne Hd Hi. destruct (row_facts _ _ _ Hr) as [_ Hk].
  assert (of_subscription r = false) as Hsub.
  { unfold of_wallet, of_subscription in *. apply str_eqb_true in Hw. by rewrite Hw. }
  assert (forall ev d', enabled d ev -> event_record ev = r -> closes ev = true ->
    (exists a, same_as (bills_subscription d rid) (apply_event ev a d) d') -> phase_of d' rid = PClosed) as Hph.
  { intros ev d' Hen <- Hc [a Hs]. unfold phase_of.
    rewrite (event_reservation _ _ _ _ _ Hen Hs), Hk, str_eqb_refl. by destruct ev. }
  split.
  - unfold ReleaseBillingReservation. destruct (releaseBillingReservation rid key false e (mkSt d [] tr)) as [x s'] eqn:E.
    destruct (wp_total _ _ e d tr x s' (release_faultless rid key false)
      (release_spec e d [] tr Hwf rid key false) E) as [Hn Hc].
    exists s'. destruct x as [err|v].
    + destruct Hc as (_ & _ & Hbad). exfalso. inversion Hbad; subst; no_driver_error Hn.
    + destruct Hc as (o & effs & Hok & Hp & _). inversion Hok as [r' Hr' Hrel|r' key' Hr' Hrel]; subst.
      * unfold releasable, is_open in *. rewrite Hr in Hr'. injection Hr' as <-.
        cbn [negb andb] in Hrel. congruence.
      * rewrite Hr in Hr'. injection Hr' as <-. destruct Hp as [Hen Ha]. split; [done|]. by eapply Hph.
  - destruct (SettleBillingReservation rid delta e (mkSt d [] tr)) as [x s'] eqn:E.
    destruct (wp_total _ _ e d tr x s' (Settle_faultless rid delta)
      (Settle_spec e d [] tr Hwf rid delta Hi) E) as [Hn Hc].
    assert ((delta <=? 0) = true) as Hle by (by apply Z.leb_le).
    exists s'. destruct x as [err|[]].
    + destruct Hc as (_ & _ & Hbad). exfalso. inversion Hbad; subst; no_driver_error Hn;
        unfold user_adjusts, key_adjusts in *; by rewrite Hle in *.
    + destruct Hc as (o & effs & Hok & Hp & _). inversion Hok as [r' Hr' Hc|r' key' Hr']; subst;
        rewrite Hr in Hr'; injection Hr' as <-.
      * apply open_not_closed in Hop. congruence.
      * destruct Hp as [Hen Ha]. split; [done|]. by eapply Hph.
Qed.

Definition demo_reserved : DB := Demo.after demo_reserve Demo.db.

Lemma wf_demo_reserved : wf demo_reserved.
Proof. by split; apply (bool_decide_unpack _); vm_compute. Qed.

Lemma open_request_can_close_witness :
  exists s', ReleaseBillingReservation "req-1" "" Demo.env (mkSt demo_reserved [] []) = (inr true, s') /\
    phase_of (st_db s') "req-1" = PClosed.
Proof.
  exact (proj1 (open_request_can_close Demo.env demo_reserved [] "req-1" (demo_row demo_reserved) "" (-5)
    wf_demo_reserved ltac:(vm_compute; reflexivity) eq_refl eq_refl ltac:(discriminate) ltac:(lia)
    ltac:(vm_compute; split; discriminate))).
Defined.
