(* ===== verification/SubscriptionTheorems.v ===== *)
(** * SubscriptionTheorems: what billing a subscription guarantees

    Bounds on the used amount under every operation, the choice and the
    idempotence of the pre-consumption, and its round trip with the refund. *)

From S2P Require Import Prelude Schema Store Logic Frame Ledger Demo Calendar Quota Subscription SubscriptionFacts ResetFacts Reservation ReservationRules.
From stdpp Require Import base numbers option strings list sorting.
From Stdlib Require Import ZArith Lia.
Open Scope Z_scope.

(** ** Bounds of the used amount *)

(** A metered subscription has used between nothing and everything. *)
Definition sub_ok (s : UserSubscription) : Prop :=
  us_amount_total s <= max_int64 /\ (0 < us_amount_total s -> 0 <= us_amount_used s <= us_amount_total s).
Definition subs_ok (d : DB) : Prop := forall s, In s (db_subs d) -> sub_ok s.

Lemma subs_ok_map d (f : UserSubscription -> UserSubscription) :
  (forall s, sub_ok s -> sub_ok (f s)) -> subs_ok d ->
  subs_ok (t_set Subscriptions (List.map f (db_subs d)) d).
Proof. intros Hf Hd s Hin. cbn in Hin. apply in_map_iff in Hin as (s' & <- & Hin). by apply Hf, Hd. Qed.

Lemma subs_ok_update p f :
  (forall s, sub_ok s -> sub_ok (f s)) -> hoare subs_ok (update Subscriptions p f) (fun _ => True).
Proof.
  intros Hf. apply hoare_update. intros d Hd. apply (subs_ok_map d); [|done].
  intros s Hs. destruct (p s); auto.
Qed.
Lemma subs_ok_save s : sub_ok s -> hoare subs_ok (save Subscriptions s) (fun _ => True).
Proof.
  intros Hs. apply hoare_save. intros d Hd. split.
  - apply (subs_ok_map d); [|done]. intros s' Hs'. by destruct (t_same _ _ _).
  - intros s' Hin. cbn in Hin. apply in_app_iff in Hin as [Hin|[<-|[]]]; [by apply Hd | done].
Qed.
Lemma subs_ok_first p : hoare subs_ok (find_first Subscriptions p) sub_ok.
Proof. apply hoare_find_first. intros d r Hd Hin _. by apply Hd. Qed.
Lemma subs_ok_all p : hoare subs_ok (find_all Subscriptions p) (fun l => forall s, In s l -> sub_ok s).
Proof. apply hoare_find_all. intros d r Hd Hin _. by apply Hd. Qed.
Lemma subs_ok_delete p : hoare subs_ok (delete_where Subscriptions p) (fun _ => True).
Proof. apply hoare_delete. intros d Hd s Hin. cbn in Hin. apply filter_In in Hin as [Hin _]. by apply Hd. Qed.

(** Statements on the other tables do not matter. *)
Definition other_table {T} (t : Table T) : Prop := forall l d, db_subs (t_set t l d) = db_subs d.
Lemma other_ok {T} (t : Table T) l d : other_table t -> subs_ok d -> subs_ok (t_set t l d).
Proof. intros Ht Hd s Hin. rewrite Ht in Hin. by apply Hd. Qed.

Section Other.
Context {T : Type} (t : Table T) (Ht : other_table t).
Lemma other_update p f : hoare subs_ok (update t p f) (fun _ => True).
Proof. apply hoare_update. intros. by apply other_ok. Qed.
Lemma other_delete p : hoare subs_ok (delete_where t p) (fun _ => True).
Proof. apply hoare_delete. intros. by apply other_ok. Qed.
Lemma other_save r : hoare subs_ok (save t r) (fun _ => True).
Proof. apply hoare_save. intros. split; by apply other_ok. Qed.
Lemma other_create r : hoare subs_ok (create t r) (fun _ => True).
Proof. apply hoare_create. intros. by apply other_ok. Qed.
Lemma other_create_or_ignore r : hoare subs_ok (create_or_ignore t r) (fun _ => True).
Proof. apply hoare_create_or_ignore. intros. by apply other_ok. Qed.
End Other.

Lemma any_first {T} (t : Table T) p : hoare subs_ok (find_first t p) (fun _ => True).
Proof. by apply hoare_find_first. Qed.
Lemma any_all {T} (t : Table T) p : hoare subs_ok (find_all t p) (fun _ => True).
Proof. eapply hoare_conseq; [by apply (hoare_find_all subs_ok t p (fun _ => True)) | done]. Qed.
Lemma any_opt {T} (t : Table T) p : hoare subs_ok (find_opt t p) (fun _ => True).
Proof. eapply hoare_conseq; [by apply (hoare_find_opt subs_ok t p (fun _ => True)) | done]. Qed.
Lemma weaken {A} (c : M A) Q : hoare subs_ok c Q -> hoare subs_ok c (fun _ => True).
Proof. intros H. by eapply hoare_conseq. Qed.

Create HintDb subs_ok.

(** One step of a proof that a program keeps [subs_ok]. *)
Ltac subs_leaf :=
  lazymatch goal with
  | |- hoare _ (mret _) _ => apply hoare_ret; try exact I
  | |- hoare _ (raise _) _ => apply hoare_raise
  | |- hoare _ (lift _) _ => apply hoare_lift
  | |- hoare _ (ask _) _ => apply hoare_ask
  | |- hoare _ GetTimestamp _ => apply hoare_ask
  | |- hoare _ (emit _) _ => apply hoare_emit
  | |- hoare _ (guard_err _ _) _ => first [apply hoare_guard | eapply weaken, hoare_guard]
  | |- hoare _ (find_first Subscriptions _) _ => apply subs_ok_first
  | |- hoare _ (find_first _ _) _ => apply any_first
  | |- hoare _ (find_all Subscriptions _) _ => apply subs_ok_all
  | |- hoare _ (find_all _ _) _ => apply any_all
  | |- hoare _ (find_opt _ _) _ => apply any_opt
  | |- hoare _ (count _ _) _ => apply hoare_count
  | |- hoare _ (update Subscriptions _ _) _ => apply subs_ok_update
  | |- hoare _ (update _ _ _) _ => apply other_update; intros ??; reflexivity
  | |- hoare _ (delete_where Subscriptions _) _ => apply subs_ok_delete
  | |- hoare _ (delete_where _ _) _ => apply other_delete; intros ??; reflexivity
  | |- hoare _ (save Subscriptions _) _ => apply subs_ok_save
  | |- hoare _ (save _ _) _ => apply other_save; intros ??; reflexivity
  | |- hoare _ (create _ _) _ => apply other_create; intros ??; reflexivity
  | |- hoare _ (create_or_ignore _ _) _ => apply other_create_or_ignore; intros ??; reflexivity
  end.
Ltac subs_step :=
  lazymatch goal with
  | |- forall _, _ => intros ?
  | |- hoare _ (mbind _ (find_first Subscriptions _)) _ => eapply hoare_bind
  | |- hoare _ (mbind _ (find_all Subscriptions _)) _ => eapply hoare_bind
  | |- hoare _ (mbind _ (attempt _)) _ => eapply hoare_bind
  | |- hoare _ (mbind _ _) _ => apply (hoare_bind _ _ _ (fun _ => True))
  | |- hoare _ (transaction _) _ => apply hoare_transaction
  | |- hoare _ (attempt _) _ => eapply hoare_attempt
  | |- hoare _ (when _ _) _ => apply hoare_when
  | |- hoare _ (let '(_, _) := ?p in _) _ => destruct p
  | |- hoare _ (match ?x with _ => _ end) _ => destruct x eqn:?
  | _ => subs_leaf
  end.
Ltac subs_auto :=
  repeat first [progress cbn beta iota zeta | solve [eauto with subs_ok] | subs_step].

(** ** Every operation keeps the bounds *)

Lemma sub_ok_fields (s s' : UserSubscription) :
  us_amount_total s' = us_amount_total s -> us_amount_used s' = us_amount_used s -> sub_ok s -> sub_ok s'.
Proof. unfold sub_ok. by intros -> ->. Qed.
Lemma sub_ok_zero (s s' : UserSubscription) :
  us_amount_total s' = us_amount_total s -> us_amount_used s' = 0 -> sub_ok s -> sub_ok s'.
Proof. unfold sub_ok. intros -> ->. lia. Qed.

Lemma postConsume_ok i x : hoare subs_ok (postConsumeUserSubscriptionDeltaTx i x) (fun _ => True).
Proof.
  unfold postConsumeUserSubscriptionDeltaTx. eapply hoare_bind; [apply subs_ok_first|]. intros sub Hs. cbv zeta.
  set (n := if _ <? 0 then 0 else _).
  assert (0 <= n) as Hn by (unfold n; destruct (Z.ltb_spec (i64 (us_amount_used sub + x)) 0); lia).
  destruct ((0 <? us_amount_total sub) && (us_amount_total sub <? n)) eqn:E; [apply hoare_raise|].
  eapply hoare_bind; [apply hoare_ask|]. intros now _. apply subs_ok_save. destruct Hs as [Ht Hu].
  split; [done|]. cbn. intros Hpos. rewrite (proj2 (Z.ltb_lt 0 _) Hpos) in E. apply Z.ltb_ge in E. lia.
Qed.
#[local] Hint Resolve postConsume_ok : subs_ok.

Lemma plan_ok i : hoare subs_ok (getSubscriptionPlanByIdTx i) (fun _ => True).
Proof. unfold getSubscriptionPlanByIdTx. subs_auto. Qed.
#[local] Hint Resolve plan_ok : subs_ok.

Lemma maybeReset_ok sub plan now :
  sub_ok sub -> hoare subs_ok (maybeResetUserSubscriptionWithPlanTx sub plan now) sub_ok.
Proof.
  intros Hs. unfold maybeResetUserSubscriptionWithPlanTx.
  destruct (_ && _); [by apply hoare_ret|]. destruct (str_eqb _ _); [by apply hoare_ret|].
  eapply hoare_bind; [apply hoare_ask|]. intros tz _. cbv zeta.
  destruct (reset_loop _ _ _ _ _ _ _ _) as [[[adv base] next]|]; [|apply hoare_raise].
  eapply hoare_bind; [apply hoare_ask|]. intros ts _. destruct (negb adv); [destruct (_ && _)|].
  - eapply hoare_bind; [apply subs_ok_save; by apply (sub_ok_fields sub)|].
    intros _ _. apply hoare_ret. by apply (sub_ok_fields sub).
  - by apply hoare_ret.
  - eapply hoare_bind; [apply subs_ok_save; by apply (sub_ok_zero sub)|].
    intros _ _. apply hoare_ret. by apply (sub_ok_zero sub).
Qed.

Lemma replay_ok r : hoare subs_ok (replay_result r) (fun _ => True).
Proof. unfold replay_result. subs_auto. Qed.
#[local] Hint Resolve replay_ok : subs_ok.

Lemma consume_first_ok rid u amount now subs :
  0 < amount -> (forall s, In s subs -> sub_ok s) ->
  hoare subs_ok (consume_first rid u amount now subs) (fun _ => True).
Proof.
  intros Ha. induction subs as [|c subs IH]; intros Hs; cbn [consume_first]; [apply hoare_raise|].
  eapply hoare_bind; [apply plan_ok|]. intros plan _.
  eapply hoare_bind; [apply maybeReset_ok, Hs; by left|]. intros sub Hsub. cbv zeta.
  destruct (_ && (_ <? amount)) eqn:E; [apply IH; intros; apply Hs; by right|].
  eapply hoare_bind; [apply hoare_ask|]. intros ts _.
  eapply hoare_bind; [eapply hoare_attempt, other_create; intros ??; reflexivity|].
  intros [err|rec] _; [subs_auto|].
  eapply hoare_bind; [apply subs_ok_save|intros; by apply hoare_ret].
  destruct Hsub as [Ht Hu]. split; [done|]. cbn. intros Hpos. specialize (Hu Hpos).
  rewrite (proj2 (Z.ltb_lt 0 _) Hpos) in E. apply Z.ltb_ge in E. i64_simpl. lia.
Qed.

Lemma preConsume_ok rid u amount : hoare subs_ok (preConsumeUserSubscriptionTx rid u amount) (fun _ => True).
Proof.
  unfold preConsumeUserSubscriptionTx. destruct (_ || _) eqn:E; [apply hoare_raise|].
  apply orb_false_iff in E as [_ Ha%Z.leb_gt].
  eapply hoare_bind; [apply hoare_ask|]. intros now _. eapply hoare_bind; [apply any_opt|].
  intros [rec|] _; [apply replay_ok|].
  eapply hoare_bind; [apply hoare_attempt, subs_ok_all|]. intros [err|[|s l]] Hl; [apply hoare_raise..|].
  apply consume_first_ok; [done|]. intros s' Hin%list_elem_of_In. apply Hl, list_elem_of_In.
  unfold order_by_end in Hin. by rewrite merge_sort_Permutation in Hin.
Qed.

Lemma refundPre_ok rid : hoare subs_ok (refundSubscriptionPreConsumeTx rid) (fun _ => True).
Proof. unfold refundSubscriptionPreConsumeTx. subs_auto. Qed.
#[local] Hint Resolve preConsume_ok refundPre_ok : subs_ok.

Section LedgerOps.
Lemma find_reservation_ok k : hoare subs_ok (find_reservation k) (fun _ => True).
Proof. unfold find_reservation. subs_auto. Qed.
Lemma reserveUser_ok u x : hoare subs_ok (reserveUserQuotaTx u x) (fun _ => True).
Proof. unfold reserveUserQuotaTx. subs_auto. Qed.
Lemma reserveToken_ok t x unl : hoare subs_ok (reserveTokenQuotaTx t x unl) (fun _ => True).
Proof. unfold reserveTokenQuotaTx. subs_auto. Qed.
Lemma claim_ok rid u t unl src x : hoare subs_ok (claimBillingReservationTx rid u t unl src x) (fun _ => True).
Proof. unfold claimBillingReservationTx. subs_auto. Qed.
Lemma sync_ok u key x y : hoare subs_ok (syncBillingReservationCache u key x y) (fun _ => True).
Proof. unfold syncBillingReservationCache. subs_auto. Qed.
Lemma token_key_ok t : hoare subs_ok (token_key_of t) (fun _ => True).
Proof. unfold token_key_of. subs_auto. Qed.
#[local] Hint Resolve token_key_ok : subs_ok.
Lemma reservation_key_ok k : hoare subs_ok (billingReservationTokenKey k) (fun _ => True).
Proof. unfold billingReservationTokenKey. subs_auto. Qed.
Lemma adjustUser_ok u x : hoare subs_ok (adjustUserQuotaDeltaTx u x) (fun _ => True).
Proof. unfold adjustUserQuotaDeltaTx. subs_auto. Qed.
Lemma adjustToken_ok t x unl : hoare subs_ok (adjustTokenQuotaDeltaTx t x unl) (fun _ => True).
Proof. unfold adjustTokenQuotaDeltaTx. subs_auto. Qed.
Lemma refundToken_ok t x : hoare subs_ok (refundTokenQuotaTx t x) (fun _ => True).
Proof. unfold refundTokenQuotaTx. subs_auto. Qed.
#[local] Hint Resolve find_reservation_ok reserveUser_ok reserveToken_ok claim_ok sync_ok
  reservation_key_ok adjustUser_ok adjustToken_ok refundToken_ok : subs_ok.

Lemma retry_ok {A} n sqlite (op : M A) :
  hoare subs_ok op (fun _ => True) -> hoare subs_ok (retry_locked n sqlite op) (fun _ => True).
Proof. intros Hop. induction n as [|n IH]; cbn [retry_locked]; [done|]. subs_auto. Qed.

Lemma ReserveWallet_ok rid u t key x unl : hoare subs_ok (ReserveWalletBillingQuota rid u t key x unl) (fun _ => True).
Proof. unfold ReserveWalletBillingQuota. subs_auto. Qed.
Lemma ReserveSubscription_ok rid u t key x unl :
  hoare subs_ok (ReserveSubscriptionBillingQuota rid u t key x unl) (fun _ => True).
Proof. unfold ReserveSubscriptionBillingQuota. subs_auto. Qed.
Lemma Append_ok rid x : hoare subs_ok (AppendBillingReservation rid x) (fun _ => True).
Proof. unfold AppendBillingReservation. subs_auto. Qed.
Lemma Settle_ok rid x : hoare subs_ok (SettleBillingReservation rid x) (fun _ => True).
Proof.
  assert (hoare subs_ok (settleBillingReservationTx rid x) (fun _ => True)) as Htx
    by (unfold settleBillingReservationTx; subs_auto).
  unfold SettleBillingReservation, transactionWithBillingReservationRetry, effect_apply.
  subs_auto. apply retry_ok, hoare_transaction, Htx.
Qed.
Lemma release_ok' rid key b : hoare subs_ok (releaseBillingReservation rid key b) (fun _ => True).
Proof.
  assert (hoare subs_ok (releaseBillingReservationTx rid b) (fun _ => True)) as Htx
    by (unfold releaseBillingReservationTx; subs_auto).
  unfold releaseBillingReservation, transactionWithBillingReservationRetry.
  subs_auto. apply retry_ok, hoare_transaction, Htx.
Qed.
#[local] Hint Resolve release_ok' : subs_ok.
Lemma release_each_ok records n : hoare subs_ok (release_each records n) (fun _ => True).
Proof.
  revert n. induction records as [|r records IH]; intros n; cbn [release_each]; subs_auto.
Qed.
#[local] Hint Resolve release_each_ok : subs_ok.
Lemma ReleaseStale_ok x n : hoare subs_ok (ReleaseStaleBillingReservations x n) (fun _ => True).
Proof. unfold ReleaseStaleBillingReservations. subs_auto. Qed.
End LedgerOps.

(** Maintenance and administration. *)
Lemma set_group_ok u g : hoare subs_ok (set_user_group u g) (fun _ => True).
Proof. unfold set_user_group. subs_auto. Qed.
Lemma user_group_ok u : hoare subs_ok (getUserGroupByIdTx u) (fun _ => True).
Proof. unfold getUserGroupByIdTx. subs_auto. Qed.
#[local] Hint Resolve set_group_ok user_group_ok : subs_ok.
Lemma downgrade_ok s now : hoare subs_ok (downgradeUserGroupForSubscriptionTx s now) (fun _ => True).
Proof. unfold downgradeUserGroupForSubscriptionTx. subs_auto. Qed.
#[local] Hint Resolve downgrade_ok : subs_ok.

Lemma Invalidate_ok i : hoare subs_ok (AdminInvalidateUserSubscription i) (fun _ => True).
Proof. unfold AdminInvalidateUserSubscription, refreshSubscriptionUserGroupCache. subs_auto. Qed.
Lemma Delete_ok i : hoare subs_ok (AdminDeleteUserSubscription i) (fun _ => True).
Proof. unfold AdminDeleteUserSubscription, refreshSubscriptionUserGroupCache. subs_auto. Qed.

Lemma resetUser_ok plan now adv sub : sub_ok sub -> hoare subs_ok (resetUserSubscriptionTx plan now adv sub) (fun _ => True).
Proof.
  intros Hs. unfold resetUserSubscriptionTx.
  eapply hoare_bind; [apply hoare_ask|]. intros tz _. eapply hoare_bind; [apply hoare_ask|]. intros ts _. cbv zeta.
  apply subs_ok_save. destruct adv; by apply (sub_ok_zero sub).
Qed.

Lemma for_each_ok {A} (P : A -> Prop) (f : A -> M unit) l :
  (forall x, P x -> hoare subs_ok (f x) (fun _ => True)) -> (forall x, In x l -> P x) ->
  hoare subs_ok (for_each f l) (fun _ => True).
Proof.
  intros Hf. induction l as [|x l IH]; intros Hl; cbn [for_each]; [by apply hoare_ret|].
  eapply hoare_bind; [apply Hf, Hl; by left|]. intros _ _. apply IH. intros; apply Hl; by right.
Qed.

Lemma sorted_in {A} (R : relation A) `{!RelDecision R} (l : list A) x : In x (merge_sort R l) -> In x l.
Proof. intros H%list_elem_of_In. apply list_elem_of_In. by rewrite merge_sort_Permutation in H. Qed.

Lemma AdminResetPlan_ok i adv : hoare subs_ok (AdminResetPlanSubscriptions i adv) (fun _ => True).
Proof.
  unfold AdminResetPlanSubscriptions, adminResetPlanSubscriptionsTx. subs_auto.
  apply (for_each_ok sub_ok); [intros; by apply resetUser_ok|]. intros x Hx%sorted_in. auto.
Qed.
Lemma AdminResetUser_ok u i adv : hoare subs_ok (AdminResetUserSubscriptionsByPlan u i adv) (fun _ => True).
Proof.
  unfold AdminResetUserSubscriptionsByPlan, adminResetUserSubscriptionsByPlanTx. subs_auto.
  apply (for_each_ok sub_ok); [intros; by apply resetUser_ok|]. intros x Hx.
  match goal with H : order_by_end _ = _ |- _ => rewrite <- H in Hx end. apply sorted_in in Hx. auto.
Qed.

Lemma reset_due_ok now subs n : hoare subs_ok (reset_due now subs n) (fun _ => True).
Proof.
  revert n. induction subs as [|s subs IH]; intros n; cbn [reset_due]; [by apply hoare_ret|].
  eapply hoare_bind; [eapply hoare_attempt, plan_ok|]. intros [err|plan] _; [apply IH|].
  apply (hoare_bind _ _ _ (fun _ => True)); [apply hoare_transaction|intros; apply IH]. unfold reset_one_tx.
  eapply hoare_bind; [eapply hoare_attempt, subs_ok_first|]. intros [err|sub] Hs; [by apply hoare_ret|].
  eapply hoare_bind; [by apply maybeReset_ok|]. intros. by apply hoare_ret.
Qed.
Lemma ResetDue_ok limit : hoare subs_ok (ResetDueSubscriptions limit) (fun _ => True).
Proof. unfold ResetDueSubscriptions. subs_auto. apply reset_due_ok. Qed.

Lemma expire_user_ok now u : hoare subs_ok (expire_user_tx now u) (fun _ => True).
Proof. unfold expire_user_tx, regroup_expired. subs_auto. Qed.
#[local] Hint Resolve expire_user_ok : subs_ok.
Lemma expire_users_ok now us n : hoare subs_ok (expire_users now us n) (fun _ => True).
Proof.
  revert n. induction us as [|u us IH]; intros n; cbn [expire_users]; [by apply hoare_ret|].
  eapply hoare_bind; [apply hoare_transaction, expire_user_ok|]. intros [k g] _.
  eapply hoare_bind; [apply hoare_when; intros; apply hoare_emit|]. intros _ _. apply IH.
Qed.
Lemma ExpireDue_ok ord limit : hoare subs_ok (ExpireDueSubscriptions ord limit) (fun _ => True).
Proof. unfold ExpireDueSubscriptions. subs_auto. apply expire_users_ok. Qed.

(** ** Histories of operations on subscriptions *)

Inductive sub_op :=
  | SPreConsume (rid : string) (u amount : Z)
  | SRefund (rid : string)
  | SPostConsume (i delta : Z)
  | SReserve (rid : string) (u t : Z) (key : string) (amount : Z) (unl : bool)
  | SReserveWallet (rid : string) (u t : Z) (key : string) (amount : Z) (unl : bool)
  | SAppend (rid : string) (delta : Z)
  | SSettle (rid : string) (delta : Z)
  | SRelease (rid key : string) (unsentOnly : bool)
  | SReleaseStale (olderThanSeconds limit : Z)
  | SResetDue (limit : Z)
  | SExpireDue (map_order : list Z -> list Z) (limit : Z)
  | SAdminResetPlan (planId : Z) (advance : bool)
  | SAdminResetUser (u planId : Z) (advance : bool)
  | SInvalidate (i : Z)
  | SDelete (i : Z)
  | SCleanup (olderThanSeconds : Z).

Definition drop {A} (c : M A) : M unit := c ;; mret tt.

Definition run_sub_op (o : sub_op) : M unit :=
  match o with
  | SPreConsume rid u amount => drop (PreConsumeUserSubscription rid u amount)
  | SRefund rid => RefundSubscriptionPreConsume rid
  | SPostConsume i delta => PostConsumeUserSubscriptionDelta i delta
  | SReserve rid u t key amount unl => drop (ReserveSubscriptionBillingQuota rid u t key amount unl)
  | SReserveWallet rid u t key amount unl => drop (ReserveWalletBillingQuota rid u t key amount unl)
  | SAppend rid delta => AppendBillingReservation rid delta
  | SSettle rid delta => SettleBillingReservation rid delta
  | SRelease rid key b => drop (releaseBillingReservation rid key b)
  | SReleaseStale x limit => drop (ReleaseStaleBillingReservations x limit)
  | SResetDue limit => drop (ResetDueSubscriptions limit)
  | SExpireDue ord limit => drop (ExpireDueSubscriptions ord limit)
  | SAdminResetPlan i adv => drop (AdminResetPlanSubscriptions i adv)
  | SAdminResetUser u i adv => drop (AdminResetUserSubscriptionsByPlan u i adv)
  | SInvalidate i => drop (AdminInvalidateUserSubscription i)
  | SDelete i => drop (AdminDeleteUserSubscription i)
  | SCleanup x => drop (CleanupSubscriptionPreConsumeRecords x)
  end.

Inductive sub_history : DB -> DB -> Prop :=
  | sub_nil d : sub_history d d
  | sub_cons d o e fs tr d' :
      sub_history (st_db (snd (run_sub_op o e (mkSt d fs tr)))) d' -> sub_history d d'.

Lemma drop_ok {A} (c : M A) : hoare subs_ok c (fun _ => True) -> hoare subs_ok (drop c) (fun _ => True).
Proof. intros H. unfold drop. eapply hoare_bind; [exact H|]. intros. by apply hoare_ret. Qed.

Lemma sub_op_ok o : hoare subs_ok (run_sub_op o) (fun _ => True).
Proof.
  destruct o; cbn [run_sub_op]; try apply drop_ok.
  - unfold PreConsumeUserSubscription. subs_auto.
  - unfold RefundSubscriptionPreConsume. subs_auto.
  - unfold PostConsumeUserSubscriptionDelta. subs_auto.
  - apply ReserveSubscription_ok.
  - apply ReserveWallet_ok.
  - apply Append_ok.
  - apply Settle_ok.
  - apply release_ok'.
  - apply ReleaseStale_ok.
  - apply ResetDue_ok.
  - apply ExpireDue_ok.
  - apply AdminResetPlan_ok.
  - apply AdminResetUser_ok.
  - apply Invalidate_ok.
  - apply Delete_ok.
  - unfold CleanupSubscriptionPreConsumeRecords. subs_auto.
Qed.

(** C13. A metered subscription is never overdrawn and never negative: from
    tables in which 0 <= used <= total, every sequence of pre-consumptions,
    top-ups, settlements, refunds, resets, expiries and administrative changes,
    whatever the requests and whatever statements fail, leads to such tables. *)
Theorem subscription_within_total d d' :
  subs_ok d -> sub_history d d' -> subs_ok d'.
Proof.
  intros Hd Hh. induction Hh as [|d o e fs tr d' _ IH]; [done|].
  apply IH. exact (proj1 (sub_op_ok o e (mkSt d fs tr) Hd)).
Qed.

Lemma subscription_within_total_witness :
  subs_ok (Demo.after (run_sub_op (SReserve "req-9" 1 7 "sk-limited" 200 false)) Demo.db).
Proof.
  refine (subscription_within_total Demo.db _ _ (sub_cons _ (SReserve "req-9" 1 7 "sk-limited" 200 false) Demo.env [] [] _
    (sub_nil _))).
  intros s [<-|[]]. split; [vm_compute; discriminate | intros _; vm_compute; split; discriminate].
Defined.

(** ** One pre-consumption, exactly *)

Section PutSub.
Context (s : UserSubscription) (d : DB).
Lemma stored_put c : stored c (put_sub s d) <-> stored c d.
Proof.
  unfold stored, put_sub. cbn.
  assert (forall l, List.existsb (fun a => us_id c =? us_id a) (upd_rows (has_sub (us_id s)) (fun _ => s) l)
    = List.existsb (fun a => us_id c =? us_id a) l) as H; [|by rewrite (H (db_subs d))].
  unfold upd_rows. induction l as [|x l IH]; [done|]. cbn. rewrite IH. f_equal. unfold has_sub.
  destruct (Z.eqb_spec (us_id x) (us_id s)) as [->|]; done.
Qed.
Lemma sub_row_put : stored s d -> sub_row (put_sub s d) (us_id s) = Some s.
Proof.
  unfold stored, sub_row, put_sub. cbn. intros H.
  induction (db_subs d) as [|x l IH]; cbn in *; [done|]. unfold has_sub in *.
  destruct (Z.eqb_spec (us_id x) (us_id s)) as [E|E]; cbn; [by rewrite Z.eqb_refl|].
  rewrite (proj2 (Z.eqb_neq _ _) E). apply IH.
  rewrite (proj2 (Z.eqb_neq (us_id s) (us_id x))) in H by congruence. exact H.
Qed.
Lemma wf_subs_put : wf_subs d -> wf_subs (put_sub s d).
Proof.
  intros []. split; [|done|done]. unfold put_sub. cbn.
  unfold unique_key in *. replace (us_id <$> upd_rows (has_sub (us_id s)) (fun _ => s) (db_subs d))
    with (us_id <$> db_subs d); [done|].
  clear. unfold upd_rows. induction (db_subs d) as [|x l IH]; [done|]. cbn. rewrite IH. f_equal. unfold has_sub.
  by destruct (Z.eqb_spec (us_id x) (us_id s)).
Qed.
End PutSub.

Section Exact.
Context (e : Env).

Lemma wp_save_sub s Q d fs tr :
  stored s d ->
  (forall k f, Q (inl (ErrDriver k)) (mkSt d f tr)) -> (forall f, Q (inr tt) (mkSt (put_sub s d) f tr)) ->
  wp (save Subscriptions s) Q e (mkSt d fs tr).
Proof.
  intros Hs Hk Hok. apply wp_save; [exact Hs | done |]. intros f.
  replace (t_set Subscriptions (upd_rows (t_same Subscriptions s) (fun _ => s) (t_get Subscriptions d)) d)
    with (put_sub s d); [apply Hok|].
  unfold put_sub. cbn. f_equal. apply upd_rows_ext; [|done]. intros r. apply Z.eqb_sym.
Qed.

(** A reset keeps the identity, the owner and the size of the subscription. *)
Definition same_sub (s s' : UserSubscription) : Prop :=
  us_id s' = us_id s /\ us_user_id s' = us_user_id s /\ us_amount_total s' = us_amount_total s /\
  (us_amount_used s' = us_amount_used s \/ us_amount_used s' = 0).

Lemma wp_maybeReset sub plan now Q d fs tr :
  stored sub d ->
  (forall err f, Q (inl err) (mkSt d f tr)) ->
  (forall sub' d' f, same_sub sub sub' -> d' = d \/ d' = put_sub sub' d -> Q (inr sub') (mkSt d' f tr)) ->
  wp (maybeResetUserSubscriptionWithPlanTx sub plan now) Q e (mkSt d fs tr).
Proof.
  intros Hs Hk Hok. unfold maybeResetUserSubscriptionWithPlanTx.
  assert (forall f, Q (inr sub) (mkSt d f tr)) as Hsame
    by (intros; apply Hok; [split_and!; auto | by left]).
  assert (forall s' f, same_sub sub s' -> wp (save Subscriptions s' ;; mret s') Q e (mkSt d f tr)) as Hsave.
  { intros s' f Hs'. wp_step. apply wp_save_sub; [apply (stored_same sub); [by destruct Hs' | done] | done |].
    intros f'. wp_step. apply Hok; [done | by right]. }
  wp_step; [wp_step; apply Hsame|]. wp_step; [wp_step; apply Hsame|]. do 2 wp_step. cbv zeta.
  destruct (reset_loop _ _ _ _ _ _ _ _) as [[[adv base] next]|]; [|wp_step; apply Hk].
  do 2 wp_step. cbn beta iota. wp_step; [wp_step; [|wp_step; apply Hsame]|]; apply Hsave; split_and!; cbn; auto.
Qed.

(** What a successful pre-consumption leaves. *)
Definition consumed (rid : string) (u amount : Z) (c : UserSubscription)
  (res : SubscriptionPreConsumeResult) (d' : DB) : Prop :=
  pr_UserSubscriptionId res = us_id c /\ pr_PreConsumed res = amount /\
  pr_AmountTotal res = us_amount_total c /\
  pr_AmountUsedAfter res = i64 (pr_AmountUsedBefore res + amount) /\
  (pr_AmountUsedBefore res = us_amount_used c \/ pr_AmountUsedBefore res = 0) /\
  (0 < us_amount_total c -> pr_AmountUsedAfter res = pr_AmountUsedBefore res + amount /\
                          pr_AmountUsedAfter res <= us_amount_total c) /\
  sub_used d' (us_id c) = pr_AmountUsedAfter res /\
  (exists rec, pre_consume d' rid = Some rec /\ pc_status rec = "consumed"%string /\
   pc_pre_consumed rec = amount /\ pc_user_subscription_id rec = us_id c /\ pc_user_id rec = u) /\
  (exists row, sub_row d' (us_id c) = Some row /\ us_amount_total row = us_amount_total c).

Lemma plan_reads i : respects (keeps (fun d => d)) (getSubscriptionPlanByIdTx i).
Proof. unfold getSubscriptionPlanByIdTx. respects_auto. Qed.

(** The new record of a request that had none. *)
Lemma create_pc_wf r d :
  List.existsb (t_clash PreConsumes r) (db_pre_consumes d) = false -> wf_subs d ->
  wf_subs (d <| db_pre_consumes ::= fun l => l ++ [r] |>).
Proof.
  intros Hc [].
  assert (forall r', In r' (db_pre_consumes d) -> pc_id r' <> pc_id r /\ pc_request_id r' <> pc_request_id r) as Hn.
  { intros r' Hin. destruct (t_clash PreConsumes r r') eqn:E.
    - assert (List.existsb (t_clash PreConsumes r) (db_pre_consumes d) = true) by (apply List.existsb_exists; eauto).
      congruence.
    - cbn in E. apply orb_false_iff in E as [E1%Z.eqb_neq E2%str_eqb_false]. split; congruence. }
  split; cbn; try done; apply app_unique; try done; intros r' Hin; by apply Hn in Hin as [].
Qed.

Lemma consume_first_spec rid u amount now subs : forall d fs tr,
  wf_subs d -> 0 < amount -> pre_consume d rid = None ->
  (forall c, In c subs -> stored c d /\ sub_ok c) ->
  wp (consume_first rid u amount now subs)
   (fun r s' => match r with
                | inl _ => True
                | inr res => wf_subs (st_db s') /\ exists c, In c subs /\ consumed rid u amount c res (st_db s')
                end) e (mkSt d fs tr).
Proof.
  induction subs as [|c subs IH]; intros d fs tr Hwf Ha Hpc Hsubs; cbn [consume_first]; [by wp_step|].
  destruct (Hsubs c) as [Hst Hok]; [by left|].
  wp_step. apply (wp_keeps (fun d => d)); [apply plan_reads|]. intros [err|plan] d0 f0 ->; [done|].
  wp_step. apply wp_maybeReset; [done | done |]. intros sub d1 f1 (Hid & Hus & Htot & Hused) Hd1.
  assert (wf_subs d1 /\ (forall x, stored x d -> stored x d1) /\ pre_consume d1 rid = None) as (Hwf1 & Hst1 & Hpc1).
  { destruct Hd1 as [->| ->]; [done|]. split_and!; [by apply wf_subs_put | | done].
    intros x Hx. by apply stored_put. }
  cbv zeta. wp_step.
  { eapply wp_mono; [apply IH; [done | done | done |]|].
    - intros x Hx. destruct (Hsubs x) as [H1 H2]; [by right|]. auto.
    - intros [err|res] s' H; [done|]. destruct H as [H1 (c' & Hin & Hc)]. split; [done|].
      exists c'. split; [by right | done]. }
  do 2 wp_step. cbn beta iota. do 2 wp_step.
  assert (forall err f, wp (duplicate ← attempt (find_first PreConsumes (fun r => str_eqb (pc_request_id r) rid));
      match duplicate with inl _ => raise err | inr record => replay_result record end)
    (fun r s' => match r with inl _ => True
       | inr res => wf_subs (st_db s') /\ exists c', In c' (c :: subs) /\ consumed rid u amount c' res (st_db s') end)
    e (mkSt d1 f tr)) as Hdup.
  { intros err f. do 2 wp_step. apply wp_find_first; intros; cbn beta iota; [by wp_step..|].
    cbn [t_get PreConsumes] in *. unfold pre_consume, has_pc in Hpc1. congruence. }
  apply wp_create; cbn beta iota; [intros; apply Hdup | intros; apply Hdup |].
  intros f2 Hclash. set (rec := t_assign PreConsumes _ _) in *.
  assert (pc_request_id rec = rid /\ pc_status rec = "consumed"%string /\ pc_pre_consumed rec = amount /\
    pc_user_subscription_id rec = us_id sub /\ pc_user_id rec = u) as (Hr1 & Hr2 & Hr3 & Hr4 & Hr5) by done.
  clearbody rec. set (d2 := t_set PreConsumes _ d1).
  assert (wf_subs d2) as Hwf2 by (by apply create_pc_wf).
  assert (pre_consume d2 rid = Some rec) as Hpc2.
  { unfold pre_consume, d2. cbn. rewrite find_app. unfold pre_consume in Hpc1. rewrite Hpc1. cbn.
    by rewrite (proj2 (has_pc_spec rid rec) Hr1). }
  match goal with |- context [save Subscriptions ?x] => set (sub' := x) end. wp_step.
  assert (stored sub' d2) as Hst2 by (apply (stored_same c sub' d2 Hid), Hst1, Hst).
  apply wp_save_sub; [done | done |]. intros f3. wp_step. cbn [st_db].
  split; [by apply wf_subs_put|]. exists c. split; [by left|].
  pose proof (sub_row_put sub' d2 Hst2) as Hrow. change (us_id sub') with (us_id sub) in Hrow. rewrite Hid in Hrow.
  unfold consumed. cbn [pr_UserSubscriptionId pr_PreConsumed pr_AmountTotal pr_AmountUsedAfter pr_AmountUsedBefore].
  split_and!; [done | done | done | done | done | | | |].
  - intros Hpos. rewrite Htot, (proj2 (Z.ltb_lt 0 _) Hpos) in Heqb. apply Z.ltb_ge in Heqb.
    destruct Hok as [Hmax Hb]. specialize (Hb Hpos). cbn. i64_simpl. lia.
  - unfold sub_used. by rewrite Hrow.
  - exists rec. by rewrite Hr4.
  - exists sub'. split; [done | exact Htot].
Qed.
End Exact.

Lemma preConsume_spec e d fs tr rid u amount :
  wf_subs d -> subs_ok d -> pre_consume d rid = None ->
  wp (PreConsumeUserSubscription rid u amount)
     (fun r s' => match r with
                  | inl _ => True
                  | inr res => wf_subs (st_db s') /\
                      exists c, In c (db_subs d) /\ active_of u (env_now e) c = true /\
                                consumed rid u amount c res (st_db s')
                  end) e (mkSt d fs tr).
Proof.
  intros Hwf Hok Hpc. unfold PreConsumeUserSubscription. do 3 (wp_step; [by wp_step|]).
  apply Z.leb_gt in Heqb1. apply wp_transaction; [done|]. intros f1.
  unfold preConsumeUserSubscriptionTx. wp_step; [by wp_step|]. do 2 wp_step. cbn beta iota. wp_step.
  apply wp_find_opt; [done|]. intros f2. cbn beta iota.
  change (List.find _ (t_get PreConsumes d)) with (pre_consume d rid). rewrite Hpc.
  do 2 wp_step. apply wp_find_all; intros; cbn beta iota; [by wp_step|].
  cbn [t_get Subscriptions]. set (l := List.filter _ (db_subs d)). destruct l as [|c0 l0] eqn:El; [by wp_step|].
  rewrite <- El. eapply wp_mono; [apply consume_first_spec; try done|].
  - intros c Hc%sorted_in. unfold l in Hc. apply filter_In in Hc as [Hc _]. split; [|by apply Hok].
    apply List.existsb_exists. exists c. split; [done | apply Z.eqb_refl].
  - intros [err|res] s' H; [done|]. split; [done|]. intros f3. destruct H as [H (c & Hin & Hc)]. split; [done|].
    exists c. apply sorted_in in Hin. unfold l in Hin. apply filter_In in Hin as [? ?]. done.
Qed.

(** A pre-consumption charges exactly one subscription: a success on a new
    request charges the requested amount to one active subscription of the
    user (reset first, when due), within its total, and records the charge
    under the request id. *)
Theorem preconsume_charges_one e d fs tr rid u amount res s' :
  wf_subs d -> subs_ok d -> pre_consume d rid = None ->
  PreConsumeUserSubscription rid u amount e (mkSt d fs tr) = (inr res, s') ->
  exists c, In c (db_subs d) /\ active_of u (env_now e) c = true /\
            consumed rid u amount c res (st_db s').
Proof.
  intros Hwf Hok Hpc E. exact (proj2 (wp_use _ _ _ _ _ _ (preConsume_spec e d fs tr rid u amount Hwf Hok Hpc) E)).
Qed.

Lemma subs_ok_demo : subs_ok Demo.db.
Proof. intros s [<-|[]]. split; [vm_compute; discriminate | intros _; vm_compute; split; discriminate]. Qed.

Definition demo_preconsume : M SubscriptionPreConsumeResult := PreConsumeUserSubscription "req-5" 1 120.

Lemma preconsume_charges_one_witness :
  exists c, In c (db_subs Demo.db) /\ active_of 1 Demo.now c = true /\
    consumed "req-5" 1 120 c (mkPreConsumeResult 5 120 300 50 170) (Demo.after demo_preconsume Demo.db).
Proof.
  exact (preconsume_charges_one Demo.env Demo.db [] [] "req-5" 1 120 _ (Demo.final demo_preconsume Demo.db)
    Demo.wf_subs_db subs_ok_demo eq_refl ltac:(vm_compute; reflexivity)).
Defined.

(** Idempotence: repeating the pre-consumption of a request, with whatever
    user and amount and however much later, answers with the subscription and
    the amount of the first one and charges nothing. *)
Theorem preconsume_idempotent e1 e2 d fs tr tr2 rid u amount u2 amount2 res s1 :
  wf_subs d -> subs_ok d -> pre_consume d rid = None -> 0 < u2 -> 0 < amount2 ->
  PreConsumeUserSubscription rid u amount e1 (mkSt d fs tr) = (inr res, s1) ->
  exists res2,
    PreConsumeUserSubscription rid u2 amount2 e2 (mkSt (st_db s1) [] tr2) = (inr res2, mkSt (st_db s1) [] tr2) /\
    pr_UserSubscriptionId res2 = pr_UserSubscriptionId res /\ pr_PreConsumed res2 = pr_PreConsumed res /\
    pr_AmountUsedAfter res2 = pr_AmountUsedAfter res.
Proof.
  intros Hwf Hok Hpc Hu2 Ha2 E.
  assert (str_eqb (trim_space rid) "" = false) as Hrid.
  { unfold PreConsumeUserSubscription in E. destruct (u <=? 0); [done|]. by destruct (str_eqb (trim_space rid) ""). }
  destruct (wp_use _ _ _ _ _ _ (preConsume_spec e1 d fs tr rid u amount Hwf Hok Hpc) E)
    as [_ (c & _ & _ & Hid & Hpre & _ & _ & _ & _ & Hused & (rec & Hrec & Hst & Hra & Hrs & _) & (row & Hrow & _))].
  unfold PreConsumeUserSubscription. rewrite (proj2 (Z.leb_gt u2 0)), Hrid, (proj2 (Z.leb_gt amount2 0)) by done.
  eexists. split.
  - apply run_transaction. unfold preConsumeUserSubscriptionTx.
    rewrite (proj2 (Z.leb_gt u2 0)), Hrid, (proj2 (Z.leb_gt amount2 0)) by done. cbn [orb].
    erewrite run_bind by reflexivity. erewrite run_bind by apply run_opt.
    change (List.find _ (t_get PreConsumes (st_db s1))) with (pre_consume (st_db s1) rid). rewrite Hrec.
    unfold replay_result. rewrite Hst. change (str_eqb "consumed" "refunded") with false. cbn iota.
    erewrite run_bind; [reflexivity|]. apply run_first. rewrite Hrs. exact Hrow.
  - cbn. unfold sub_used in Hused. rewrite Hrow in Hused. cbn in Hused.
    rewrite Hid, Hpre, Hra. apply List.find_some in Hrow as [_ Hrow%has_sub_spec]. by rewrite Hrow.
Qed.

Lemma preconsume_idempotent_witness :
  exists res2,
    PreConsumeUserSubscription "req-5" 1 999 Demo.env (mkSt (Demo.after demo_preconsume Demo.db) [] [])
      = (inr res2, mkSt (Demo.after demo_preconsume Demo.db) [] []) /\
    pr_UserSubscriptionId res2 = 5 /\ pr_PreConsumed res2 = 120 /\ pr_AmountUsedAfter res2 = 170.
Proof.
  exact (preconsume_idempotent Demo.env Demo.env Demo.db [] [] [] "req-5" 1 120 1 999
    (mkPreConsumeResult 5 120 300 50 170) (Demo.final demo_preconsume Demo.db)
    Demo.wf_subs_db subs_ok_demo eq_refl ltac:(lia) ltac:(lia) ltac:(vm_compute; reflexivity)).
Defined.

(** *** Refund *)

Lemma postConsume_run e d tr sub delta :
  sub_row d (us_id sub) = Some sub ->
  0 <= us_amount_used sub + delta <= max_int64 ->
  (0 < us_amount_total sub -> us_amount_used sub + delta <= us_amount_total sub) ->
  postConsumeUserSubscriptionDeltaTx (us_id sub) delta e (mkSt d [] tr)
  = (inr tt, mkSt (put_sub (sub <| us_amount_used := us_amount_used sub + delta |>
                                <| us_updated_at := env_now e |>) d) [] tr).
Proof.
  intros Hrow Hb Ht. unfold postConsumeUserSubscriptionDeltaTx.
  erewrite run_bind by (apply run_first; exact Hrow). cbv zeta.
  rewrite i64_small by (unfold in_i64, min_int64; lia). rewrite (proj2 (Z.ltb_ge _ 0)) by lia.
  destruct ((0 <? us_amount_total sub) && _) eqn:E.
  { apply andb_true_iff in E as [?%Z.ltb_lt ?%Z.ltb_lt]. lia. }
  erewrite run_bind by reflexivity. apply save_sub_stored.
  apply List.find_some in Hrow as [Hin _]. apply List.existsb_exists. exists sub.
  split; [exact Hin | apply Z.eqb_refl].
Qed.

Lemma save_pc_run e d tr r :
  wf_subs d -> pre_consume d (pc_request_id r) <> None ->
  (forall r0, pre_consume d (pc_request_id r) = Some r0 -> pc_id r0 = pc_id r) ->
  exists d', save PreConsumes r e (mkSt d [] tr) = (inr tt, mkSt d' [] tr) /\
    db_subs d' = db_subs d /\ pre_consume d' (pc_request_id r) = Some r.
Proof.
  intros Hwf Hne Hid. destruct (pre_consume d (pc_request_id r)) as [r0|] eqn:Hr0; [|done].
  specialize (Hid r0 eq_refl). pose proof (List.find_some _ _ Hr0) as [Hin0 Hk0%has_pc_spec].
  assert (List.existsb (t_same PreConsumes r) (db_pre_consumes d) = true) as Hex.
  { apply List.existsb_exists. exists r0. split; [done|]. cbn. rewrite Hid. apply Z.eqb_refl. }
  assert (forall r', In r' (db_pre_consumes d) -> (pc_id r =? pc_id r') = has_pc (pc_request_id r) r') as Hp.
  { intros r' Hin. destruct (has_pc (pc_request_id r) r') eqn:E.
    - apply has_pc_spec in E.
      pose proof (find_unique pc_request_id has_pc has_pc_spec _ r' _ (wf_pc_requests d Hwf) Hin E) as H.
      unfold pre_consume in Hr0. rewrite Hr0 in H. injection H as <-. rewrite Hid. apply Z.eqb_refl.
    - apply Z.eqb_neq. intros He.
      pose proof (find_unique pc_id (fun i x => pc_id x =? i) (fun i x => Z.eqb_eq _ _) (pc_id r) r' _
        (wf_pc_ids d Hwf) Hin (eq_sym He)) as H1.
      pose proof (find_unique pc_id (fun i x => pc_id x =? i) (fun i x => Z.eqb_eq _ _) (pc_id r) r0 _
        (wf_pc_ids d Hwf) Hin0 Hid) as H2.
      pose proof (eq_trans (eq_sym H1) H2) as [= ->]. apply has_pc_spec in Hk0. congruence. }
  set (l' := List.map (fun r' => if t_same PreConsumes r r' then r else r') (db_pre_consumes d)).
  assert (l' = upd_rows (has_pc (pc_request_id r)) (fun _ => r) (db_pre_consumes d)) as Hl'.
  { unfold l', upd_rows. apply map_ext_in. intros r' Hin. cbn. by rewrite (Hp r' Hin). }
  exists (d <| db_pre_consumes := l' |>). split_and!; [| done |].
  - unfold save, stmt. cbn [st_faults st_db st_trace t_get t_set PreConsumes]. by rewrite Hex.
  - unfold pre_consume. cbn. rewrite Hl'. clear -Hin0 Hk0. unfold upd_rows.
    induction (db_pre_consumes d) as [|x l IH]; [done|]. cbn.
    destruct (has_pc (pc_request_id r) x) eqn:E; cbn.
    + by rewrite (proj2 (has_pc_spec _ r) eq_refl).
    + rewrite E. apply IH. destruct Hin0 as [->|]; [|done]. apply has_pc_spec in Hk0. congruence.
Qed.

(** Round trip: refunding a pre-consumption takes back exactly what it
    charged, marks it refunded, and refunding again changes nothing. *)
Theorem preconsume_refund_roundtrip e1 e2 d fs tr tr2 rid u amount res s1 :
  wf_subs d -> subs_ok d -> pre_consume d rid = None ->
  PreConsumeUserSubscription rid u amount e1 (mkSt d fs tr) = (inr res, s1) -> 0 < pr_AmountTotal res ->
  exists d2,
    RefundSubscriptionPreConsume rid e2 (mkSt (st_db s1) [] tr2) = (inr tt, mkSt d2 [] tr2) /\
    sub_used d2 (pr_UserSubscriptionId res) = pr_AmountUsedBefore res /\
    pc_status <$> pre_consume d2 rid = Some "refunded"%string /\
    RefundSubscriptionPreConsume rid e2 (mkSt d2 [] tr2) = (inr tt, mkSt d2 [] tr2).
Proof.
  intros Hwf Hok Hpc E Hpos.
  assert (str_eqb (trim_space rid) "" = false /\ 0 < amount) as [Hrid Ha].
  { unfold PreConsumeUserSubscription in E. destruct (u <=? 0); [done|].
    destruct (str_eqb (trim_space rid) ""); [done|]. destruct (Z.leb_spec amount 0); [done|]. done. }
  destruct (wp_use _ _ _ _ _ _ (preConsume_spec e1 d fs tr rid u amount Hwf Hok Hpc) E)
    as [Hwf1 (c & Hin & _ & Hid & Hpre & Htot & _ & Hbef & Hfit & Hused & (rec & Hrec & Hst & Hra & Hrs & _) & (row & Hrow & Hrt))].
  destruct (Hok c Hin) as [Hmax Hb]. rewrite Htot in Hpos. specialize (Hb Hpos). specialize (Hfit Hpos).
  assert (us_amount_used row = pr_AmountUsedAfter res) as Hru by (unfold sub_used in Hused; by rewrite Hrow in Hused).
  assert (us_id row = us_id c) as Hri by (by apply List.find_some in Hrow as [_ Hrow%has_sub_spec]).
  set (row' := row <| us_amount_used := us_amount_used row + - amount |> <| us_updated_at := env_now e2 |>).
  set (d1 := put_sub row' (st_db s1)).
  set (rec' := rec <| pc_status := "refunded"%string |> <| pc_updated_at := env_now e2 |>).
  assert (pc_request_id rec = rid) as Hreck by (by apply List.find_some in Hrec as [_ ?%has_pc_spec]).
  assert (pc_request_id rec' = rid) as Hrk by exact Hreck.
  destruct (save_pc_run e2 d1 tr2 rec' (wf_subs_put row' _ Hwf1)) as (d2 & Hsave & Hsubs & Hpc2).
  { rewrite Hrk. change (pre_consume d1 rid) with (pre_consume (st_db s1) rid). by rewrite Hrec. }
  { rewrite Hrk. change (pre_consume d1 rid) with (pre_consume (st_db s1) rid). rewrite Hrec. by intros r0 [= <-]. }
  rewrite Hrk in Hpc2.
  assert (forall d0 r0, pre_consume d0 rid = Some r0 ->
    find_first PreConsumes (fun r => str_eqb (pc_request_id r) rid) e2 (mkSt d0 [] tr2) = (inr r0, mkSt d0 [] tr2)) as Hfind
    by (intros d0 r0 H; apply run_first; exact H).
  exists d2. split_and!.
  - unfold RefundSubscriptionPreConsume. rewrite Hrid. apply run_transaction. unfold refundSubscriptionPreConsumeTx.
    erewrite run_bind by (by apply Hfind). rewrite Hst. change (str_eqb "consumed" "refunded") with false. cbn iota.
    rewrite Hra, (proj2 (Z.ltb_lt 0 amount) Ha). cbn [when]. rewrite i64_small by (unfold in_i64, min_int64, max_int64 in *; lia).
    rewrite Hrs, <- Hri. erewrite run_bind; [|apply postConsume_run; rewrite ?Hri, ?Hru, ?Hrt; [exact Hrow | lia | lia]].
    erewrite run_bind by reflexivity.
    match goal with |- save _ ?r _ _ = _ => replace r with rec' by (unfold rec'; cbn; congruence) end. exact Hsave.
  - rewrite Hid. unfold sub_used, sub_row. rewrite Hsubs.
    pose proof (sub_row_put row' (st_db s1)) as H. unfold sub_row in H. change (us_id row') with (us_id row) in H.
    rewrite Hri in H. unfold d1. rewrite H; [cbn; rewrite Hru; lia|].
    apply List.existsb_exists. exists row. apply List.find_some in Hrow as [Hinr _].
    split; [exact Hinr | apply Z.eqb_refl].
  - by rewrite Hpc2.
  - unfold RefundSubscriptionPreConsume. rewrite Hrid. apply run_transaction. unfold refundSubscriptionPreConsumeTx.
    erewrite run_bind by (apply Hfind; exact Hpc2). reflexivity.
Qed.

Lemma preconsume_refund_roundtrip_witness :
  exists d2,
    RefundSubscriptionPreConsume "req-5" Demo.env (mkSt (Demo.after demo_preconsume Demo.db) [] [])
      = (inr tt, mkSt d2 [] []) /\ sub_used d2 5 = 50.
Proof.
  destruct (preconsume_refund_roundtrip Demo.env Demo.env Demo.db [] [] [] "req-5" 1 120
    (mkPreConsumeResult 5 120 300 50 170) (Demo.final demo_preconsume Demo.db)
    Demo.wf_subs_db subs_ok_demo eq_refl ltac:(vm_compute; reflexivity) ltac:(vm_compute; reflexivity))
    as (d2 & Hr & Hu & _).
  exists d2. split; [exact Hr | exact Hu].
Defined.
