(* ===== verification/Maintenance.v ===== *)
(** * Maintenance: the subscription maintenance task

    [src/service/subscription_reset_task.go]: every minute one run expires due
    subscriptions, resets due quotas, and at most every half hour releases stale
    reservations and cleans up.  Both drains repeat a batch of 300 until a batch
    is not full.  The two process-wide variables are a record; a drain that runs
    out of fuel ends in [ErrDiverges]. *)

From S2P Require Import Prelude Schema Store Logic Frame Ledger Demo Calendar Quota Subscription Reservation ReservationRules.
From stdpp Require Import base numbers option strings list sorting.
From Stdlib Require Import ZArith Lia.
Open Scope Z_scope.

Definition subscriptionResetBatchSize : Z := 300.
Definition subscriptionCleanupInterval : Z := 30 * 60.
Definition billingReservationStaleSeconds : Z := 3600.

(** [subscriptionResetRunning] and [subscriptionCleanupLast]. *)
Record TaskState := mkTaskState { subscriptionResetRunning : bool; subscriptionCleanupLast : Z }.

(** [for { n, err := batch(); if n == 0 break; total += n; if n < size break }] *)
Fixpoint drain (fuel : nat) (batch : M Z) (size total : Z) : M Z :=
  match fuel with
  | O => raise ErrDiverges
  | S fuel' =>
      n ← batch;
      if n =? 0 then mret total else
      if n <? size then mret (total + n) else drain fuel' batch size (total + n)
  end.

(** Failures of the first two are logged only; the window closes when the last succeeds. *)
Definition cleanup (lastCleanup : Z) : M Z :=
  now ← GetTimestamp;
  if now - lastCleanup <? subscriptionCleanupInterval then mret lastCleanup else
  attempt (ReleaseStaleBillingReservations billingReservationStaleSeconds 100) ;;
  attempt (CleanupBillingReservationRecords (7 * 24 * 3600)) ;;
  r ← attempt (CleanupSubscriptionPreConsumeRecords (7 * 24 * 3600));
  mret (match r with inr _ => now | inl _ => lastCleanup end).

Section Task.
(** The order in which Go iterates over the set of user ids. *)
Context (map_order : list Z -> list Z).

(** A failing batch ends the run; the flag is cleared by [defer]. *)
Definition runSubscriptionQuotaResetOnce (fuel : nat) (s : TaskState) : M TaskState :=
  if subscriptionResetRunning s then mret s else
  expired ← attempt (drain fuel (ExpireDueSubscriptions map_order subscriptionResetBatchSize)
                       subscriptionResetBatchSize 0);
  match expired with
  | inl ErrDiverges => raise ErrDiverges
  | inl _ => mret s
  | inr _ =>
      reset ← attempt (drain fuel (ResetDueSubscriptions subscriptionResetBatchSize)
                         subscriptionResetBatchSize 0);
      match reset with
      | inl ErrDiverges => raise ErrDiverges
      | inl _ => mret s
      | inr _ =>
          last ← cleanup (subscriptionCleanupLast s);
          mret (mkTaskState false last)
      end
  end.
End Task.

(** ** Rows that no reset reaches *)

Definition reset_due_row (now : Z) (s : UserSubscription) : bool :=
  (0 <? us_next_reset_time s) && (us_next_reset_time s <=? now) && str_eqb (us_status s) "active".

(** A row that is due for a reset, of a plan that does not reset any more. *)
Definition stuck (e : Env) (d : DB) (s : UserSubscription) : Prop :=
  exists p, 0 < us_plan_id s /\
    (env_plan_cache e (us_plan_id s) = Some p \/
     env_plan_cache e (us_plan_id s) = None /\ List.find (fun p => pl_id p =? us_plan_id s) (db_plans d) = Some p) /\
    NormalizeResetPeriod (pl_quota_reset_period (NormalizeDefaults p)) = SubscriptionResetNever.

Section Stuck.
Context (e : Env) (d : DB) (tr : list effect).

Lemma run_plan s : stuck e d s ->
  exists p, getSubscriptionPlanByIdTx (us_plan_id s) e (mkSt d [] tr) = (inr p, mkSt d [] tr) /\
            NormalizeResetPeriod (pl_quota_reset_period p) = SubscriptionResetNever.
Proof.
  intros (p & Hpos & Hp & Hn). exists (NormalizeDefaults p). split; [|done].
  unfold getSubscriptionPlanByIdTx. rewrite (proj2 (Z.leb_gt _ 0) Hpos). erewrite run_bind by reflexivity.
  destruct Hp as [-> | [-> Hf]]; [done|]. by erewrite run_bind by (by apply run_first).
Qed.

(** The transaction of such a row changes nothing and is counted as a reset. *)
Lemma run_reset_one plan s now :
  In s (db_subs d) -> reset_due_row now s = true ->
  NormalizeResetPeriod (pl_quota_reset_period plan) = SubscriptionResetNever ->
  transaction (reset_one_tx plan now (us_id s)) e (mkSt d [] tr) = (inr 1, mkSt d [] tr).
Proof.
  intros Hin [Hdue _]%andb_true_iff Hn. apply run_transaction. unfold reset_one_tx.
  set (q := fun x => (us_id x =? us_id s) && (0 <? us_next_reset_time x) && (us_next_reset_time x <=? now)).
  destruct (List.find q (db_subs d)) as [locked|] eqn:Hf.
  2:{ pose proof (List.find_none _ _ Hf s Hin) as H. unfold q in H. rewrite Z.eqb_refl in H. cbn in H. congruence. }
  erewrite run_bind by (unfold attempt; erewrite run_first by exact Hf; reflexivity).
  unfold maybeResetUserSubscriptionWithPlanTx. case_match; [done|]. by rewrite Hn.
Qed.

Lemma run_reset_due now l n :
  (forall s, In s l -> In s (db_subs d) /\ reset_due_row now s = true /\ stuck e d s) ->
  reset_due now l n e (mkSt d [] tr) = (inr (n + Z.of_nat (length l)), mkSt d [] tr).
Proof.
  revert n. induction l as [|s l IH]; intros n Hl; cbn [reset_due length].
  - by rewrite Z.add_0_r.
  - destruct (Hl s (or_introl eq_refl)) as (Hin & Hdue & Hst). destruct (run_plan s Hst) as (p & Hp & Hn).
    erewrite run_bind by (unfold attempt; rewrite Hp; reflexivity). cbv beta iota.
    erewrite run_bind by (by apply run_reset_one). rewrite IH by (intros; apply Hl; by right).
    do 2 f_equal. lia.
Qed.

(** A batch of stuck rows is full, and leaves them as they were. *)
Lemma run_full_batch size :
  0 < size ->
  (forall s, In s (db_subs d) -> reset_due_row (env_now e) s = true -> stuck e d s) ->
  size <= rows_count (reset_due_row (env_now e)) (db_subs d) ->
  ResetDueSubscriptions size e (mkSt d [] tr) = (inr size, mkSt d [] tr).
Proof.
  intros Hpos Hst Hn. unfold ResetDueSubscriptions. rewrite (proj2 (Z.leb_gt _ 0) Hpos).
  erewrite run_bind by reflexivity. cbv zeta. erewrite run_bind by reflexivity. cbn [t_get Subscriptions].
  set (due := List.filter (reset_due_row (env_now e)) (db_subs d)).
  change (List.filter _ (db_subs d)) with due. set (l := merge_sort next_reset_order due).
  assert (l ≡ₚ due) as Hperm by apply merge_sort_Permutation.
  assert (length l = length due) as Hlen by (by rewrite Hperm).
  assert (Z.to_nat size <= length l)%nat as Hle.
  { rewrite Hlen. unfold rows_count in Hn. fold due in Hn. lia. }
  rewrite run_reset_due.
  - rewrite length_take, Nat.min_l by done. do 2 f_equal. lia.
  - intros s Hin. assert (In s due) as Hd.
    { apply list_elem_of_In. rewrite <- Hperm. apply list_elem_of_In in Hin. eapply elem_of_take in Hin as (i & Hi & _).
      by eapply list_elem_of_lookup_2. }
    apply filter_In in Hd as [Hs Hdue]. split; [done|]. split; [exact Hdue | by apply Hst].
Qed.

Lemma run_drain_full fuel batch size total :
  0 < size -> batch e (mkSt d [] tr) = (inr size, mkSt d [] tr) ->
  drain fuel batch size total e (mkSt d [] tr) = (inl ErrDiverges, mkSt d [] tr).
Proof.
  intros Hpos Hb. revert total. induction fuel as [|fuel IH]; intros total; [done|]. cbn [drain].
  erewrite run_bind by exact Hb. rewrite (proj2 (Z.eqb_neq size 0)), Z.ltb_irrefl by lia. apply IH.
Qed.
End Stuck.

(** ** The expiry drain ends *)

Definition expire_due (now : Z) (s : UserSubscription) : bool :=
  str_eqb (us_status s) "active" && (0 <? us_end_time s) && (us_end_time s <=? now).
Definition due_count (now : Z) (d : DB) : Z := rows_count (expire_due now) (db_subs d).

Lemma count_upd_out {R} (p q : R -> bool) f (l : list R) :
  (forall r, q r = true -> p r = true /\ p (f r) = false) ->
  rows_count p (upd_rows q f l) = rows_count p l - rows_count q l.
Proof.
  intros Hq. unfold rows_count, upd_rows. induction l as [|r l IH]; [done|]. cbn.
  destruct (q r) eqn:E.
  - destruct (Hq r E) as [-> ->]. cbn [length]. lia.
  - destruct (p r); cbn [length]; lia.
Qed.

(** A step that expires [n] rows, or fails with an error other than a divergence. *)
Definition expires {A} (num : A -> Z) (now : Z) (d : DB) (r : result A) (s' : St) : Prop :=
  match r with
  | inl err => err <> ErrDiverges
  | inr a => 0 <= num a /\ due_count now (st_db s') = due_count now d - num a
  end.

Section Expiry.
Context (e : Env) (map_order : list Z -> list Z).

(** The rest of the transaction changes at most the user's row. *)
Lemma wp_regroup u n d fs tr :
  wp (regroup_expired u n) (fun r s' => db_subs (st_db s') = db_subs d /\
    match r with inl err => err <> ErrDiverges | inr a => fst a = n end) e (mkSt d fs tr).
Proof.
  unfold regroup_expired. apply wp_bind, wp_attempt, wp_find_all; [intros; by apply wp_ret|]. intros fs1.
  destruct (List.rev _) as [|s rest]; [by apply wp_ret|]. unfold getUserGroupByIdTx. apply wp_bind.
  destruct (u <=? 0); [by apply wp_raise|]. apply wp_bind, wp_find_opt; [done|]. intros fs2. apply wp_ret. cbv zeta.
  destruct (_ && _); [by apply wp_ret|]. destruct (_ || _); [by apply wp_ret|].
  apply wp_bind, wp_bind, wp_update; [done|]. intros fs3. by apply wp_ret, wp_ret.
Qed.

Definition expired_row (s : UserSubscription) : UserSubscription :=
  s <| us_status := "expired"%string |> <| us_updated_at := env_now e |>.

Lemma wp_expire_user now u d fs tr :
  wp (expire_user_tx now u) (expires fst now d) e (mkSt d fs tr).
Proof.
  unfold expire_user_tx. do 2 wp_step. cbn beta iota. apply wp_bind, wp_update; [done|]. intros fs1.
  set (q := fun s => (us_user_id s =? u) && str_eqb (us_status s) "active" && (0 <? us_end_time s) && (us_end_time s <=? now)).
  set (d1 := d <| db_subs := upd_rows q expired_row (db_subs d) |>). set (n := rows_count q (db_subs d)).
  change (wp ?c ?Q e _) with (wp c Q e (mkSt d1 fs1 tr)). cbn [t_get Subscriptions]. fold n.
  assert (forall r d2 fs2 tr2, db_subs d2 = db_subs d1 ->
    match r with inl err => err <> ErrDiverges | inr a => fst a = n end ->
    expires (A := Z * string) fst now d r (mkSt d2 fs2 tr2)) as Hok.
  { intros [err|a] d2 fs2 tr2 Hd2; [done|]. cbn. intros ->. split; [apply rows_count_nonneg|]. unfold due_count. rewrite Hd2.
    apply count_upd_out. intros s [[[_ H1]%andb_true_iff H2]%andb_true_iff H3]%andb_true_iff.
    unfold expire_due. by rewrite H1, H2, H3. }
  clearbody d1.
  assert (forall fs2, wp (regroup_expired u n) (expires fst now d) e (mkSt d1 fs2 tr)) as Hrest.
  { intros. eapply wp_mono; [apply wp_regroup|]. intros r [d2 fs3 tr2] [H1 H2]. by apply Hok. }
  apply wp_bind, wp_attempt, wp_find_opt; [by intros|]. intros fs2. destruct (List.find _ _); [by apply wp_ret, Hok | done].
Qed.

Lemma wp_expire_users now l n0 d0 d fs tr :
  0 <= n0 -> due_count now d = due_count now d0 - n0 ->
  wp (expire_users now l n0) (expires (fun x => x) now d0) e (mkSt d fs tr).
Proof.
  revert n0 d fs tr. induction l as [|u l IH]; intros n0 d fs tr Hn Hd; cbn [expire_users]; [by apply wp_ret|].
  apply wp_bind, wp_transaction; [done|]. intros fs1. eapply wp_mono; [apply wp_expire_user|].
  intros [err|[n g]] [d1 fs2 tr1] H; [exact H|]. cbn in H. destruct H as [Hn1 Hd1]. split; [done|]. intros fs3. cbn [st_db st_trace].
  apply wp_bind. unfold refreshSubscriptionUserGroupCache. wp_step; [apply wp_emit|]; apply IH; lia.
Qed.

Lemma wp_expire_batch size d fs tr :
  wp (ExpireDueSubscriptions map_order size) (expires (fun x => x) (env_now e) d) e (mkSt d fs tr).
Proof.
  unfold ExpireDueSubscriptions. cbv zeta. do 2 wp_step. cbn beta iota. apply wp_bind, wp_find_all; [done|]. intros fs1.
  apply wp_expire_users; lia.
Qed.

(** A drain whose full batches use up a budget needs no more rounds than the budget. *)
Lemma wp_drain_budget (batch : M Z) (now : Z) size fuel total d fs tr :
  0 < size ->
  (forall d1 fs1 tr1, wp batch (expires (fun x => x) now d1) e (mkSt d1 fs1 tr1)) ->
  (Z.to_nat (due_count now d) < fuel)%nat ->
  wp (drain fuel batch size total) (fun r _ => r <> inl ErrDiverges) e (mkSt d fs tr).
Proof.
  intros Hpos Hb. revert total d fs tr. induction fuel as [|fuel IH]; intros total d fs tr Hf; [lia|]. cbn [drain].
  apply wp_bind. eapply wp_mono; [apply Hb|]. intros [err|n] [d1 fs1 tr1] H; [cbn in H; congruence|]. cbn in H. destruct H as [Hn Hd].
  case_match; [done|]. case_match; [done|]. apply IH.
  pose proof (rows_count_nonneg (expire_due now) (db_subs d1)). unfold due_count in *. lia.
Qed.
End Expiry.

Module MaintenanceDemo.
(** 300 subscriptions that were to be reset an hour ago, of a plan that an
    administrator has since changed to "never". *)
Definition plan : SubscriptionPlan :=
  Demo.plan <| pl_quota_reset_period := "never"%string |>.
Definition sub (i : Z) : UserSubscription :=
  Demo.sub <| us_id := i |> <| us_next_reset_time := Demo.now - 3600 |>.
Definition db : DB :=
  Demo.db <| db_plans := [plan] |> <| db_subs := List.map (fun i => sub (Z.of_nat i)) (List.seq 1 300) |>.
End MaintenanceDemo.

(** The expiry drain always ends: whatever the driver answers, one round
    more than there are rows due is enough. *)
Theorem expiry_drain_terminates map_order fuel e d fs tr :
  (Z.to_nat (due_count (env_now e) d) < fuel)%nat ->
  fst (drain fuel (ExpireDueSubscriptions map_order subscriptionResetBatchSize) subscriptionResetBatchSize 0 e (mkSt d fs tr))
  <> inl ErrDiverges.
Proof.
  intros Hf. set (c := drain _ _ _ _).
  assert (wp c (fun r _ => r <> inl ErrDiverges) e (mkSt d fs tr)) as H; [|unfold wp in H; by destruct (c e (mkSt d fs tr))].
  apply (wp_drain_budget e _ (env_now e)); [done | intros; apply wp_expire_batch | done].
Qed.

Lemma expiry_drain_terminates_witness :
  fst (drain 1 (ExpireDueSubscriptions (fun l => l) subscriptionResetBatchSize) subscriptionResetBatchSize 0
         Demo.env (mkSt MaintenanceDemo.db [] [])) <> inl ErrDiverges.
Proof.
  apply (expiry_drain_terminates (fun l => l) 1 Demo.env MaintenanceDemo.db [] []). vm_compute. lia.
Defined.

(** C18. The reset drain need not: when nothing is due to expire and a full
    batch of rows is due for a reset that their plans no longer make, every
    round counts them all as reset and changes nothing, so the run never ends,
    for no number of rounds; the cleanup after it is never reached. *)
Theorem reset_drain_diverges map_order fuel e d tr last :
  (0 < fuel)%nat ->
  (forall s, In s (db_subs d) -> expire_due (env_now e) s = false) ->
  (forall s, In s (db_subs d) -> reset_due_row (env_now e) s = true -> stuck e d s) ->
  subscriptionResetBatchSize <= rows_count (reset_due_row (env_now e)) (db_subs d) ->
  map_order [] = [] ->
  runSubscriptionQuotaResetOnce map_order fuel (mkTaskState false last) e (mkSt d [] tr)
  = (inl ErrDiverges, mkSt d [] tr).
Proof.
  intros Hf Hexp Hst Hn Hmap. unfold runSubscriptionQuotaResetOnce. cbn [subscriptionResetRunning].
  assert (ExpireDueSubscriptions map_order subscriptionResetBatchSize e (mkSt d [] tr) = (inr 0, mkSt d [] tr)) as He.
  { unfold ExpireDueSubscriptions. change (subscriptionResetBatchSize <=? 0) with false. cbv zeta.
    erewrite run_bind by reflexivity. erewrite run_bind by reflexivity. cbn [t_get Subscriptions st_db st_trace].
    pose proof (proj2 (rows_count_zero _ _) Hexp) as H0. unfold rows_count in H0.
    change (List.filter _ (db_subs d)) with (List.filter (expire_due (env_now e)) (db_subs d)).
    destruct (List.filter (expire_due (env_now e)) (db_subs d)); [|cbn in H0; lia].
    change (order_by_end []) with (@nil UserSubscription). rewrite take_nil. cbn [List.map List.filter first_seen]. by rewrite Hmap. }
  assert (drain fuel (ExpireDueSubscriptions map_order subscriptionResetBatchSize) subscriptionResetBatchSize 0 e (mkSt d [] tr)
    = (inr 0, mkSt d [] tr)) as Hd.
  { destruct fuel; [lia|]. cbn [drain]. by erewrite run_bind by exact He. }
  erewrite run_bind by (unfold attempt; rewrite Hd; reflexivity). cbv beta iota.
  pose proof (run_drain_full e d tr fuel (ResetDueSubscriptions subscriptionResetBatchSize) subscriptionResetBatchSize 0
    ltac:(done) (run_full_batch e d tr subscriptionResetBatchSize ltac:(done) Hst Hn)) as Hr.
  by erewrite run_bind by (unfold attempt; rewrite Hr; reflexivity).
Qed.

Lemma reset_drain_diverges_witness :
  runSubscriptionQuotaResetOnce (fun l => l) 5 (mkTaskState false 0) Demo.env (mkSt MaintenanceDemo.db [] [])
  = (inl ErrDiverges, mkSt MaintenanceDemo.db [] []).
Proof.
  assert (forall s, In s (db_subs MaintenanceDemo.db) -> exists i, s = MaintenanceDemo.sub i) as Hsub
    by (intros s [i [<- _]]%in_map_iff; by eexists).
  apply (reset_drain_diverges (fun l => l) 5 Demo.env MaintenanceDemo.db [] 0); [lia | | | vm_compute; discriminate | done].
  - intros s Hs. destruct (Hsub s Hs) as [i ->]. vm_compute. reflexivity.
  - intros s Hs _. destruct (Hsub s Hs) as [i ->]. exists MaintenanceDemo.plan. split; [vm_compute; reflexivity|].
    split; [right; split; vm_compute; reflexivity | vm_compute; reflexivity].
Defined.
