(* ===== verification/WildFlowSubmission.v ===== *)
(** * WildFlowSubmission: the lease under which an operation is submitted

    [src/model/wildflow_submission.go].  A worker claims a prepared operation
    with a lease token, begins the submission, and ends it as accepted,
    retryable or recovery required; a reconciler takes over what a dead worker
    left.  Each call is one transaction with a compare-and-swap update. *)

From S2P Require Import Prelude Schema Store WildFlowOperations WildFlowBilling.
From stdpp Require Import base numbers option strings list sorting.
From Stdlib Require Import ZArith Lia.
Open Scope Z_scope.

Definition WildFlowSubmissionPhaseSubmitting := "submitting"%string.
Definition WildFlowSubmissionPhaseRetryable := "retryable"%string.
Definition WildFlowSubmissionPhaseAccepted := "accepted"%string.
Definition WildFlowSubmissionPhaseFailed := "failed"%string.
Definition WildFlowSubmissionPhaseRecoveryRequired := "recovery_required"%string.

Definition ErrWildFlowSubmissionLeaseLost : Err := EText "WildFlow submission lease lost".

Definition blank (s : string) : bool := str_eqb (trim_space s) "".
Definition phase_in (phases : list string) (r : WildFlowOperation) : bool :=
  List.existsb (str_eqb (op_submission_phase r)) phases.

Definition loadWildFlowOperationForSubmission (operationID : string) : M WildFlowOperation :=
  if blank operationID then raise (EText "invalid WildFlow submission operation") else
  find_first Operations (has_operation operationID).

(** [tx.Where("id = ?", operation.ID).First(operation)] *)
Definition reload (operation : WildFlowOperation) : M WildFlowOperation :=
  find_first Operations (fun r => op_id r =? op_id operation).

(** The lease columns. *)
Definition set_lease (phase owner token : string) (expires now : Z) (r : WildFlowOperation) : WildFlowOperation :=
  r <| op_submission_phase := phase |> <| op_submission_owner := owner |>
    <| op_submission_lease_token := token |> <| op_submission_lease_expires_at := expires |>
    <| op_updated_time := now |>.

Definition open_phases : list string := [WildFlowSubmissionPhasePrepared; WildFlowSubmissionPhaseRetryable].

(** The row condition of the claim's update. *)
Definition free_to_claim (now id : Z) (r : WildFlowOperation) : bool :=
  (op_id r =? id) && str_eqb (op_job_id r) "" && str_eqb (op_state r) "submitting" &&
  phase_in open_phases r &&
  (str_eqb (op_submission_lease_token r) "" || (op_submission_lease_expires_at r <=? now)).

Definition ClaimWildFlowOperationSubmission (operationID owner leaseToken : string) (leaseExpiresAt : Z)
  : M (WildFlowOperation * bool) :=
  now ← GetTimestamp;
  if blank operationID || blank owner || (128 <? Z.of_nat (String.length owner)) || blank leaseToken ||
     (64 <? Z.of_nat (String.length leaseToken)) || (leaseExpiresAt <=? now)
  then raise (EText "invalid WildFlow submission lease") else
  transaction (
    operation ← loadWildFlowOperationForSubmission operationID;
    if negb (str_eqb (op_job_id operation) "") || negb (str_eqb (op_state operation) "submitting") ||
       negb (phase_in open_phases operation)
    then mret (operation, false) else
    if (0 <? op_submission_retry_until operation) && (op_submission_retry_until operation <=? now)
    then mret (operation, false) else
    if negb (str_eqb (op_submission_lease_token operation) "") && (now <? op_submission_lease_expires_at operation)
    then mret (operation, false) else
    n ← update Operations (free_to_claim now (op_id operation))
          (set_lease WildFlowSubmissionPhasePrepared owner leaseToken leaseExpiresAt now);
    operation ← reload operation;
    mret (operation, (n =? 1) && str_eqb (op_submission_owner operation) owner &&
                     str_eqb (op_submission_lease_token operation) leaseToken)).

(** A prepared operation whose lease [owner] and [leaseToken] hold at [now]. *)
Definition prepared_for (owner leaseToken : string) (now : Z) (r : WildFlowOperation) : bool :=
  str_eqb (op_state r) "submitting" && str_eqb (op_job_id r) "" &&
  str_eqb (op_submission_phase r) WildFlowSubmissionPhasePrepared &&
  str_eqb (op_submission_owner r) owner && str_eqb (op_submission_lease_token r) leaseToken &&
  (now <? op_submission_lease_expires_at r).

Definition begun (now : Z) (r : WildFlowOperation) : WildFlowOperation :=
  r <| op_submission_phase := WildFlowSubmissionPhaseSubmitting |>
    <| op_submission_attempt ::= fun n => n + 1 |>
    <| op_submission_started_time := now |> <| op_updated_time := now |>.

Definition BeginWildFlowOperationSubmission (operationID owner leaseToken : string) : M WildFlowOperation :=
  now ← GetTimestamp;
  transaction (
    operation ← loadWildFlowOperationForSubmission operationID;
    if negb (prepared_for owner leaseToken now operation) then raise ErrWildFlowSubmissionLeaseLost else
    n ← update Operations (fun r => (op_id r =? op_id operation) && prepared_for owner leaseToken now r) (begun now);
    if negb (n =? 1) then raise ErrWildFlowSubmissionLeaseLost else
    reload operation).

Definition leased_to (owner leaseToken : string) (phases : list string) (r : WildFlowOperation) : bool :=
  phase_in phases r && str_eqb (op_submission_owner r) owner && str_eqb (op_submission_lease_token r) leaseToken.

Definition transitionWildFlowSubmissionLease (operationID owner leaseToken : string) (allowedPhases : list string)
    (updates : WildFlowOperation -> WildFlowOperation) : M WildFlowOperation :=
  if blank operationID || blank owner || blank leaseToken then raise ErrWildFlowSubmissionLeaseLost else
  transaction (
    operation ← loadWildFlowOperationForSubmission operationID;
    if negb (leased_to owner leaseToken allowedPhases operation) then raise ErrWildFlowSubmissionLeaseLost else
    n ← update Operations (fun r => (op_id r =? op_id operation) && leased_to owner leaseToken allowedPhases r) updates;
    if negb (n =? 1) then raise ErrWildFlowSubmissionLeaseLost else
    reload operation).

(** The end of a lease: its columns are cleared. *)
Definition end_lease (phase state errorCode : string) (now : Z) (r : WildFlowOperation) : WildFlowOperation :=
  (set_lease phase "" "" 0 now r) <| op_state := state |> <| op_last_error_code := errorCode |>.

Definition retried (errorCode : string) (retryUntil now : Z) (r : WildFlowOperation) : WildFlowOperation :=
  (end_lease WildFlowSubmissionPhaseRetryable "submitting" errorCode now r)
    <| op_submission_retry_until ::= fun t => if (0 <? t) && (t <? retryUntil) then t else retryUntil |>.
Definition recovered (errorCode : string) (now : Z) : WildFlowOperation -> WildFlowOperation :=
  end_lease WildFlowSubmissionPhaseRecoveryRequired "recovery_required" errorCode now.
Definition accepted (jobID state : string) (now : Z) (r : WildFlowOperation) : WildFlowOperation :=
  (end_lease WildFlowSubmissionPhaseAccepted state "" now r)
    <| op_job_id := jobID |> <| op_submission_retry_until := 0 |>.

Definition MarkWildFlowOperationSubmissionRetryable (operationID owner leaseToken errorCode : string)
    (retryUntil : Z) : M WildFlowOperation :=
  now ← GetTimestamp;
  if retryUntil <=? now then raise (EText "invalid WildFlow submission retry deadline") else
  transitionWildFlowSubmissionLease operationID owner leaseToken
    [WildFlowSubmissionPhasePrepared; WildFlowSubmissionPhaseSubmitting] (retried errorCode retryUntil now).

Definition MarkWildFlowOperationSubmissionRecoveryRequired (operationID owner leaseToken errorCode : string)
  : M WildFlowOperation :=
  now ← GetTimestamp;
  transitionWildFlowSubmissionLease operationID owner leaseToken
    [WildFlowSubmissionPhaseSubmitting] (recovered errorCode now).

Definition CompleteWildFlowOperationSubmission (operationID owner leaseToken jobID state : string)
  : M WildFlowOperation :=
  if blank jobID || blank state then raise (EText "invalid WildFlow submitted job") else
  now ← GetTimestamp;
  transitionWildFlowSubmissionLease operationID owner leaseToken
    [WildFlowSubmissionPhaseSubmitting] (accepted jobID state now).

(** ** Reconciliation *)

Definition awaits_refund (r : WildFlowOperation) : bool :=
  str_eqb (op_billing_state r) WildFlowBillingStateReserved ||
  str_eqb (op_billing_state r) WildFlowBillingStateRefunding.

Definition in_state_phase (state phase : string) (r : WildFlowOperation) : bool :=
  str_eqb (op_state r) state && str_eqb (op_submission_phase r) phase.

(** One candidate's transaction: whether it moved and whether a refund is due.
    A NULL phase is the empty one. *)
Definition reconcile_candidate_tx (operationID : string) (now : Z) : M (bool * bool) :=
  operation ← loadWildFlowOperationForSubmission operationID;
  if in_state_phase "submitting" "" operation then
    update Operations (fun r => (op_id r =? op_id operation) && in_state_phase "submitting" "" r)
      (recovered "legacy_submission_state_unknown" now) ;;
    mret (true, false)
  else if in_state_phase "submitting" WildFlowSubmissionPhaseSubmitting operation &&
          (0 <? op_submission_lease_expires_at operation) && (op_submission_lease_expires_at operation <=? now) then
    update Operations (fun r => (op_id r =? op_id operation) &&
        in_state_phase "submitting" WildFlowSubmissionPhaseSubmitting r &&
        str_eqb (op_submission_lease_token r) (op_submission_lease_token operation) &&
        (op_submission_lease_expires_at r <=? now))
      (recovered "submission_lease_expired" now) ;;
    mret (true, false)
  else if str_eqb (op_state operation) "submitting" && phase_in open_phases operation &&
          (0 <? op_submission_retry_until operation) && (op_submission_retry_until operation <=? now) then
    update Operations (fun r => (op_id r =? op_id operation) && str_eqb (op_state r) "submitting")
      (end_lease WildFlowSubmissionPhaseFailed "failed" "submission_retry_expired" now) ;;
    mret (true, awaits_refund operation)
  else if in_state_phase "failed" WildFlowSubmissionPhaseFailed operation then
    mret (awaits_refund operation, awaits_refund operation)
  else mret (false, false).

(** The refund after the commit, and its audit entry. *)
Definition refund_submission (uuid operationID : string) : M (list Err) :=
  r ← attempt (RefundWildFlowOperationBilling operationID);
  match r with
  | inl err => mret [EWrap ("operation " ++ operationID ++ " submission refund: ") err ""]
  | inr (refunded, _) =>
      if negb (str_eqb (op_billing_state refunded) WildFlowBillingStateRefunded) then mret [] else
      p ← attempt (RecordWildFlowBillingLog uuid refunded LogTypeRefund "WildFlow job refunded");
      mret (match p with
            | inl err => [EWrap ("operation " ++ operationID ++ " refund projection: ") err ""]
            | inr _ => []
            end)
  end.

(** [uuid n] is the claim token of the [n]-th candidate. *)
Fixpoint reconcileWildFlowSubmissionCandidates (uuid : nat -> string) (candidates : list WildFlowOperation)
    (now processed : Z) (errs : list Err) : M (Z * list Err) :=
  match candidates with
  | [] => mret (processed, errs)
  | candidate :: rest =>
      let next := fun n => uuid (S n) in
      r ← attempt (transaction (reconcile_candidate_tx (op_operation_id candidate) now));
      match r with
      | inl err => reconcileWildFlowSubmissionCandidates next rest now processed
          (errs ++ [EWrap ("operation " ++ op_operation_id candidate ++ " submission reconciliation: ") err ""])
      | inr (false, _) => reconcileWildFlowSubmissionCandidates next rest now processed errs
      | inr (true, false) => reconcileWildFlowSubmissionCandidates next rest now (processed + 1) errs
      | inr (true, true) =>
          more ← refund_submission (uuid O) (op_operation_id candidate);
          reconcileWildFlowSubmissionCandidates next rest now (processed + 1) (errs ++ more)
      end
  end.

(** The rows the periodic run looks at. *)
Definition needs_reconciliation (now : Z) (r : WildFlowOperation) : bool :=
  str_eqb (op_job_id r) "" &&
  (in_state_phase "submitting" "" r ||
   (in_state_phase "submitting" WildFlowSubmissionPhaseSubmitting r &&
    (0 <? op_submission_lease_expires_at r) && (op_submission_lease_expires_at r <=? now)) ||
   (str_eqb (op_state r) "submitting" && phase_in open_phases r &&
    (0 <? op_submission_retry_until r) && (op_submission_retry_until r <=? now)) ||
   (in_state_phase "failed" WildFlowSubmissionPhaseFailed r && awaits_refund r)).

Definition ReconcileExpiredWildFlowSubmissionLeases (uuid : nat -> string) (now limit : Z) : M (Z * list Err) :=
  clock ← GetTimestamp;
  let now := if now <=? 0 then clock else now in
  candidates ← find_all Operations (needs_reconciliation now);
  reconcileWildFlowSubmissionCandidates uuid
    (take (Z.to_nat (reconcile_limit limit)) (merge_sort op_updated_order candidates)) now 0 [].

Definition ReconcileWildFlowSubmissionLease (uuid operationID : string) (now : Z) : M (bool * list Err) :=
  if blank operationID then raise (EText "invalid WildFlow submission operation") else
  clock ← GetTimestamp;
  let now := if now <=? 0 then clock else now in
  candidate ← attempt (find_first Operations (has_operation operationID));
  match candidate with
  | inl ErrRecordNotFound => mret (false, [])
  | inl err => raise err
  | inr candidate =>
      '(processed, errs) ← reconcileWildFlowSubmissionCandidates (fun _ => uuid) [candidate] now 0 [];
      mret (processed =? 1, errs)
  end.
