(* ===== verification/WildFlowSubmissionTheorems.v ===== *)
(** * WildFlowSubmissionTheorems: an operation is submitted under one lease *)

From S2P Require Import Prelude Schema Store Logic Frame Ledger Demo Calendar Quota Subscription SubscriptionFacts Reservation ReservationRules WildFlowOperations WildFlowBilling WildFlowFacts WildFlowBooks WildFlowTheorems WildFlowSubmission.
From stdpp Require Import base numbers option strings list sorting.
From Stdlib Require Import ZArith Lia.
Open Scope Z_scope.

(** ** Histories of the submission calls *)

Inductive submission_op :=
  | SClaim (id owner tok : string) (expires : Z)
  | SBegin (id owner tok : string)
  | SRetryable (id owner tok err : string) (retryUntil : Z)
  | SRecovery (id owner tok err : string)
  | SComplete (id owner tok job state : string)
  | SReconcile (uuid : nat -> string) (now limit : Z)
  | SReconcileOne (uuid id : string) (now : Z).

Definition run_submission (o : submission_op) : M unit :=
  match o with
  | SClaim id owner tok expires => ClaimWildFlowOperationSubmission id owner tok expires ;; mret tt
  | SBegin id owner tok => BeginWildFlowOperationSubmission id owner tok ;; mret tt
  | SRetryable id owner tok err retryUntil => MarkWildFlowOperationSubmissionRetryable id owner tok err retryUntil ;; mret tt
  | SRecovery id owner tok err => MarkWildFlowOperationSubmissionRecoveryRequired id owner tok err ;; mret tt
  | SComplete id owner tok job state => CompleteWildFlowOperationSubmission id owner tok job state ;; mret tt
  | SReconcile uuid now limit => ReconcileExpiredWildFlowSubmissionLeases uuid now limit ;; mret tt
  | SReconcileOne uuid id now => ReconcileWildFlowSubmissionLease uuid id now ;; mret tt
  end.

Definition uses_token (tok : string) (o : submission_op) : bool :=
  match o with
  | SBegin _ _ t | SRetryable _ _ t _ _ | SRecovery _ _ t _ | SComplete _ _ t _ _ => str_eqb t tok
  | _ => false
  end.

(** Calls that satisfy [ok], in any order, with any driver outcomes and clocks. *)
Inductive submission_history (ok : submission_op -> Prop) : DB -> DB -> Prop :=
  | sub_nil d : submission_history ok d d
  | sub_cons d o e fs tr d' :
      ok o -> submission_history ok (st_db (snd (run_submission o e (mkSt d fs tr)))) d' -> submission_history ok d d'.

(** ** Rows out of reach

    [P] describes a row that no claim and no reconciliation takes over. *)

Lemma prepared_open owner tok now r : prepared_for owner tok now r = true -> phase_in open_phases r = true.
Proof.
  unfold prepared_for. rewrite !andb_true_iff. intros [[[[[_ _] H] _] _] _]. unfold phase_in. cbn. by rewrite H.
Qed.

Section Reach.
Context (i : Z) (P : WildFlowOperation -> Prop).
Hypothesis P_open : forall r, P r -> phase_in open_phases r = false.
Hypothesis P_blank : forall r, P r -> str_eqb (op_submission_phase r) "" = false.
Hypothesis P_expired : forall r code now, P r -> in_state_phase "submitting" WildFlowSubmissionPhaseSubmitting r = true ->
  P (recovered code now r).
Hypothesis P_refunded : forall r now, P r -> P (refunded_snapshot now r).

Definition reach (d : DB) : Prop :=
  unique_key op_id (db_operations d) /\ exists r, op_row d i = Some r /\ P r.

Local Abbreviation kept c := (hoare reach c (fun _ => True)).

Lemma reach_first p : hoare reach (find_first Operations p) (fun r => op_id r = i -> P r).
Proof.
  apply hoare_find_first. intros d r [Hu (r0 & Hr0 & HP)] Hin _ Hi.
  pose proof (find_unique op_id has_op_id has_op_id_spec i r _ Hu Hin Hi) as H. unfold op_row in Hr0. congruence.
Qed.

Lemma reach_update p f :
  (forall r, op_id (f r) = op_id r) -> (forall r, op_id r = i -> P r -> p r = true -> P (f r)) ->
  kept (update Operations p f).
Proof.
  intros Hid Hf. apply hoare_update. intros d [Hu (r & Hr & HP)]. split; [by apply upd_unique|].
  unfold op_row. cbn [t_set t_get Operations db_operations].
  change (List.map _ (db_operations d)) with (upd_rows p f (db_operations d)).
  rewrite find_upd_stable by (intros x; unfold has_op_id; by rewrite Hid). fold (op_row d i). rewrite Hr. cbn. eexists.
  split; [done|]. destruct (p r) eqn:E; [|done]. apply Hf; [|done..].
  apply has_op_id_spec. exact (proj2 (List.find_some _ _ Hr)).
Qed.

Lemma reach_aside {A} (c : M A) : respects (keeps worth_view) c -> kept c.
Proof.
  intros Hc. apply (hoare_keeps _ worth_view c Hc). intros d d' H [Hu Hr].
  assert (db_operations d' = db_operations d) as E by exact (f_equal snd H). unfold reach, op_row. by rewrite E.
Qed.

Lemma reach_effects {A} (c : M A) : respects (tables (same db_operations)) c -> kept c.
Proof.
  intros Hc e s [Hu Hr]. specialize (Hc e s). unfold tables, same in Hc. unfold reach, op_row. rewrite Hc.
  split; [done|]. by case_match.
Qed.

Lemma reach_other {T} (t : Table T) p f :
  (forall l d, db_operations (t_set t l d) = db_operations d) -> kept (update t p f).
Proof. intros Ht. apply hoare_update. intros d Hd. unfold reach, op_row. by rewrite Ht. Qed.

Lemma reach_tail {A} (c : M A) : kept c -> kept (c ;; mret tt).
Proof. intros Hc. eapply hoare_bind; [exact Hc|]. intros. by apply hoare_ret. Qed.

Lemma reach_load id : hoare reach (loadWildFlowOperationForSubmission id) (fun r => op_id r = i -> P r).
Proof. unfold loadWildFlowOperationForSubmission. case_match; [apply hoare_raise | apply reach_first]. Qed.

Lemma reach_weak {A} (c : M A) Q : hoare reach c Q -> kept c.
Proof. intros H. by eapply hoare_conseq. Qed.

Lemma claim_kept id owner tok expires : kept (ClaimWildFlowOperationSubmission id owner tok expires).
Proof.
  unfold ClaimWildFlowOperationSubmission. eapply hoare_bind; [apply hoare_ask|]. intros now _.
  case_match; [apply hoare_raise|]. apply hoare_transaction. eapply hoare_bind; [apply reach_load|]. intros r Hr.
  do 3 (case_match; [by apply hoare_ret|]). eapply hoare_bind.
  - apply reach_update; [done|]. intros x Hx HP Hp. unfold free_to_claim in Hp. rewrite (P_open x HP), andb_false_r in Hp. done.
  - intros n _. eapply hoare_bind; [apply reach_first|]. intros. by apply hoare_ret.
Qed.

Lemma begin_kept id owner tok : kept (BeginWildFlowOperationSubmission id owner tok).
Proof.
  unfold BeginWildFlowOperationSubmission. eapply hoare_bind; [apply hoare_ask|]. intros now _.
  apply hoare_transaction. eapply hoare_bind; [apply reach_load|]. intros r Hr. case_match; [apply hoare_raise|].
  eapply hoare_bind.
  - apply reach_update; [done|]. intros x Hx HP [_ Hp%prepared_open]%andb_true_iff. by rewrite (P_open x HP) in Hp.
  - intros n _. case_match; [apply hoare_raise|]. eapply reach_weak, reach_first.
Qed.

(** A transition whose token none of the rows out of reach has. *)
Lemma transition_kept id owner tok phases f :
  (forall r, op_id (f r) = op_id r) -> (forall r, P r -> leased_to owner tok phases r = false) ->
  kept (transitionWildFlowSubmissionLease id owner tok phases f).
Proof.
  intros Hid Hno. unfold transitionWildFlowSubmissionLease. case_match; [apply hoare_raise|].
  apply hoare_transaction. eapply hoare_bind; [apply reach_load|]. intros r Hr. case_match; [apply hoare_raise|].
  eapply hoare_bind.
  - apply reach_update; [done|]. intros x Hx HP [_ Hp]%andb_true_iff. by rewrite (Hno x HP) in Hp.
  - intros n _. case_match; [apply hoare_raise|]. eapply reach_weak, reach_first.
Qed.

(** The update that follows a read row touches only that row. *)
Lemma reconcile_tx_kept id now : kept (reconcile_candidate_tx id now).
Proof.
  unfold reconcile_candidate_tx. eapply hoare_bind; [apply reach_load|]. intros r Hr.
  assert (forall (q : WildFlowOperation -> bool) f b, (forall x, op_id (f x) = op_id x) ->
    (forall x, op_id x = i -> op_id r = i -> P x -> q x = true -> P (f x)) ->
    kept (update Operations (fun x => (op_id x =? op_id r) && q x) f ;; mret b : M (bool * bool))) as Hup.
  { intros q f b Hid Hq. eapply hoare_bind; [|intros; by apply hoare_ret]. apply reach_update; [done|].
    intros x Hx HP [E%Z.eqb_eq Hqx]%andb_true_iff. apply Hq; [done | congruence | done..]. }
  destruct (in_state_phase "submitting" "" r) eqn:E1.
  { apply (Hup (in_state_phase "submitting" "")); [done|]. intros x _ _ HP [_ Hb]%andb_true_iff. by rewrite (P_blank x HP) in Hb. }
  case_match.
  { set (q := fun x => in_state_phase "submitting" WildFlowSubmissionPhaseSubmitting x &&
        str_eqb (op_submission_lease_token x) (op_submission_lease_token r) && (op_submission_lease_expires_at x <=? now)).
    apply (hoare_bind _ _ _ (fun _ => True)); [|intros; by apply hoare_ret]. apply reach_update; [done|].
    intros x Hx HP Hq. rewrite !andb_true_iff in Hq. destruct Hq as [[[_ Hq] _] _]. by apply P_expired. }
  case_match.
  { apply (Hup (fun x => str_eqb (op_state x) "submitting")); [done|]. intros x _ Hi _ _.
    rewrite !andb_true_iff in *. destruct H0 as [[[_ Ho] _] _]. by rewrite (P_open r (Hr Hi)) in Ho. }
  case_match; by apply hoare_ret.
Qed.

Lemma reach_read {T} (t : Table T) p : kept (find_first t p).
Proof. by apply hoare_find_first. Qed.

Lemma refund_token_kept r : kept (refund_operation_token r).
Proof.
  unfold refund_operation_token. case_match; [by apply hoare_ret|].
  eapply hoare_bind; [apply hoare_attempt, reach_read|]. intros [err|t] _; [case_match; first [by apply hoare_ret | apply hoare_raise]|].
  eapply hoare_bind; [by apply reach_other|]. intros. by apply hoare_ret.
Qed.

Lemma refund_tx_kept id : kept (refundWildFlowOperationBillingTx id).
Proof.
  unfold refundWildFlowOperationBillingTx, loadWildFlowOperationForBilling.
  assert (forall r ty content A (a : A), kept (ensureWildFlowCanonicalBillingLogTx r ty content ;; mret a)) as Haudit.
  { intros. eapply hoare_bind; [apply reach_aside, audit_aside|]. intros. by apply hoare_ret. }
  eapply hoare_bind; [apply reach_read|]. intros r _. case_match; [apply Haudit|]. case_match; [by apply hoare_ret|].
  eapply hoare_bind; [apply hoare_when; intros _; apply reach_aside, refundSub_aside|]. intros _ _.
  eapply hoare_bind; [apply hoare_when; intros _; apply reach_tail; by apply reach_other|]. intros _ _.
  eapply hoare_bind; [apply refund_token_kept|]. intros key _. eapply hoare_bind; [apply hoare_ask|]. intros now _.
  eapply hoare_bind; [apply reach_update; [done|]; intros; by apply P_refunded|]. intros _ _. cbv zeta. apply Haudit.
Qed.

Lemma refund_kept uuid id : kept (refund_submission uuid id).
Proof.
  assert (kept (RefundWildFlowOperationBilling id)) as Hrefund.
  { unfold RefundWildFlowOperationBilling. eapply hoare_bind; [apply hoare_transaction, refund_tx_kept|].
    intros [[r b] key] _. eapply hoare_bind; [|intros; by apply hoare_ret]. apply hoare_when. intros _. cbv zeta.
    apply reach_effects. unfold syncWildFlowBillingQuotaCache. respects_auto. }
  unfold refund_submission. eapply hoare_bind; [apply hoare_attempt, Hrefund|]. intros [err|[r b]] _; [by apply hoare_ret|].
  case_match; [by apply hoare_ret|]. eapply hoare_bind; [apply hoare_attempt, reach_aside, record_log_aside|].
  intros. by apply hoare_ret.
Qed.

Lemma candidates_kept uuid l now n errs : kept (reconcileWildFlowSubmissionCandidates uuid l now n errs).
Proof.
  revert uuid n errs. induction l as [|r l IH]; intros uuid n errs; cbn [reconcileWildFlowSubmissionCandidates];
    [by apply hoare_ret|].
  eapply hoare_bind; [apply hoare_attempt, hoare_transaction, reconcile_tx_kept|].
  intros [err|[[|] [|]]] _; try apply IH. eapply hoare_bind; [apply refund_kept|]. intros. apply IH.
Qed.

(** Calls that do not hold the lease of the row. *)
Definition spares (o : submission_op) : Prop :=
  match o with
  | SRetryable _ _ t _ _ | SRecovery _ _ t _ | SComplete _ _ t _ _ =>
      forall r, P r -> str_eqb (op_submission_phase r) WildFlowSubmissionPhaseSubmitting = true ->
                op_submission_lease_token r <> t
  | _ => True
  end.

Lemma not_leased owner t phases r :
  (str_eqb (op_submission_phase r) WildFlowSubmissionPhaseSubmitting = true -> op_submission_lease_token r <> t) ->
  P r -> (forall p, In p phases -> p = WildFlowSubmissionPhasePrepared \/ p = WildFlowSubmissionPhaseSubmitting) ->
  leased_to owner t phases r = false.
Proof.
  intros Ht HP Hin. unfold leased_to. destruct (phase_in phases r) eqn:E; [|done].
  unfold phase_in in E. apply List.existsb_exists in E as (p & Hp & Hr). destruct (Hin p Hp) as [->| ->].
  - pose proof (P_open r HP) as Ho. unfold phase_in in Ho. cbn [List.existsb open_phases] in Ho. rewrite Hr in Ho. done.
  - rewrite (proj2 (str_eqb_false _ _) (Ht Hr)). by rewrite andb_false_r.
Qed.

Lemma submission_kept o : spares o -> kept (run_submission o).
Proof.
  intros Hs. destruct o; cbn [run_submission spares] in *.
  - apply reach_tail, claim_kept.
  - apply reach_tail, begin_kept.
  - apply reach_tail. unfold MarkWildFlowOperationSubmissionRetryable. eapply hoare_bind; [apply hoare_ask|]. intros now _.
    case_match; [apply hoare_raise|]. apply transition_kept; [done|]. intros r Hr. apply not_leased; [by apply Hs | done |].
    intros p [<-|[<-|[]]]; auto.
  - apply reach_tail. unfold MarkWildFlowOperationSubmissionRecoveryRequired. eapply hoare_bind; [apply hoare_ask|]. intros now _.
    apply transition_kept; [done|]. intros r Hr. apply not_leased; [by apply Hs | done |]. intros p [<-|[]]; auto.
  - apply reach_tail. unfold CompleteWildFlowOperationSubmission. case_match; [apply hoare_raise|].
    eapply hoare_bind; [apply hoare_ask|]. intros now _.
    apply transition_kept; [done|]. intros r Hr. apply not_leased; [by apply Hs | done |]. intros p [<-|[]]; auto.
  - apply reach_tail. unfold ReconcileExpiredWildFlowSubmissionLeases. eapply hoare_bind; [apply hoare_ask|]. intros clock _.
    cbv zeta. apply (hoare_bind _ _ _ (fun _ => True)); [eapply reach_weak; by apply (hoare_find_all reach Operations _ (fun _ => True))|].
    intros l _. apply candidates_kept.
  - apply reach_tail. unfold ReconcileWildFlowSubmissionLease. case_match; [apply hoare_raise|].
    eapply hoare_bind; [apply hoare_ask|]. intros clock _. cbv zeta.
    eapply hoare_bind; [apply hoare_attempt, reach_read|]. intros [err|r] _; [case_match; first [by apply hoare_ret | apply hoare_raise]|].
    eapply hoare_bind; [apply candidates_kept|]. intros [n errs] _. by apply hoare_ret.
Qed.

Lemma history_kept (ok : submission_op -> Prop) d d' :
  (forall o, ok o -> spares o) -> submission_history ok d d' -> reach d -> reach d'.
Proof.
  intros Hok. induction 1 as [d | d o e fs tr d' Ho _ IH]; [done|]. intros Hd. apply IH.
  exact (proj1 (submission_kept o (Hok o Ho) e (mkSt d fs tr) Hd)).
Qed.
End Reach.

(** An operation whose submission is under way with lease [tok]. *)
Definition submitting_under (tok : string) (r : WildFlowOperation) : Prop :=
  op_state r = "submitting"%string /\ op_job_id r = ""%string /\
  op_submission_phase r = WildFlowSubmissionPhaseSubmitting /\ op_submission_lease_token r = tok.

(** C19. Exclusive submission: while an operation is being submitted under a
    lease, no claims, begins, marks, completions with other tokens and no
    reconciliations, in any order and at any time, submit it again or give it a
    job; at most a reconciliation after the lease moves it to recovery. *)
Theorem submission_exclusive i tok r d d' :
  unique_key op_id (db_operations d) -> op_row d i = Some r -> submitting_under tok r ->
  submission_history (fun o => uses_token tok o = false) d d' ->
  exists r', op_row d' i = Some r' /\ op_job_id r' = ""%string /\
    op_submission_attempt r' = op_submission_attempt r /\
    (submitting_under tok r' \/
     op_submission_phase r' = WildFlowSubmissionPhaseRecoveryRequired /\ op_state r' = "recovery_required"%string).
Proof.
  intros Hu Hr Hs Hh.
  set (P := fun x => op_job_id x = ""%string /\ op_submission_attempt x = op_submission_attempt r /\
    (submitting_under tok x \/
     op_submission_phase x = WildFlowSubmissionPhaseRecoveryRequired /\ op_state x = "recovery_required"%string)).
  assert (reach i P d') as [_ (r' & Hr' & HP)].
  2:{ exists r'. by destruct HP as (? & ? & ?). }
  apply (history_kept i P) with (ok := fun o => uses_token tok o = false) (d := d); try done.
  - intros x (_ & _ & [(_ & _ & Hp & _)|[Hp _]]); unfold phase_in; by rewrite Hp.
  - intros x (_ & _ & [(_ & _ & Hp & _)|[Hp _]]); by rewrite Hp.
  - intros x code now (Hj & Ha & _) _. split; [done|]. split; [done|]. by right.
  - intros o Ho. destruct o; cbn in *; try done; apply str_eqb_false in Ho;
      intros x (_ & _ & [(_ & _ & _ & Ht)|[Hp _]]) Hph; rewrite ?Hp in Hph; done || congruence.
  - split; [done|]. exists r. split; [done|]. split; [by destruct Hs as (_ & ? & _)|]. split; [done | by left].
Qed.

(** An accepted operation keeps its job for good: no history of submission
    calls, with any tokens, submits it again or changes its job. *)
Theorem submission_accepted_final i r d d' :
  unique_key op_id (db_operations d) -> op_row d i = Some r ->
  op_submission_phase r = WildFlowSubmissionPhaseAccepted ->
  submission_history (fun _ => True) d d' ->
  exists r', op_row d' i = Some r' /\ op_submission_phase r' = WildFlowSubmissionPhaseAccepted /\
    op_job_id r' = op_job_id r /\ op_state r' = op_state r /\ op_submission_attempt r' = op_submission_attempt r.
Proof.
  intros Hu Hr Hs Hh.
  set (P := fun x => op_submission_phase x = WildFlowSubmissionPhaseAccepted /\ op_job_id x = op_job_id r /\
    op_state x = op_state r /\ op_submission_attempt x = op_submission_attempt r).
  assert (reach i P d') as [_ (r' & Hr' & HP)]; [|by exists r'].
  apply (history_kept i P) with (ok := fun _ => True) (d := d); try done.
  - intros x (Hp & _). unfold phase_in. by rewrite Hp.
  - intros x (Hp & _). by rewrite Hp.
  - intros x code now (Hp & _) [_ H]%andb_true_iff. rewrite Hp in H. done.
  - intros o _. destruct o; cbn; try done; intros x (Hp & _) Hph; by rewrite Hp in Hph.
  - split; [done|]. by exists r.
Qed.

Module SubmissionDemo.
Definition held : WildFlowOperation :=
  WildDemo.operation <| op_state := "submitting"%string |>
    <| op_submission_phase := WildFlowSubmissionPhaseSubmitting |> <| op_submission_owner := "worker-1"%string |>
    <| op_submission_lease_token := "lease-1"%string |> <| op_submission_lease_expires_at := Demo.now |>.
Definition db : DB := Demo.db <| db_operations := [held] |>.
Definition taken : DB := Demo.after (run_submission (SClaim "op-1" "worker-2" "lease-2" (Demo.now + 60))) db.
Definition reconciled : DB := Demo.after (run_submission (SReconcile (fun _ => "u"%string) 0 10)) taken.

Definition done_op : WildFlowOperation :=
  held <| op_submission_phase := WildFlowSubmissionPhaseAccepted |> <| op_job_id := "job-1"%string |>
    <| op_state := "queued"%string |>.
Definition done_db : DB := Demo.db <| db_operations := [done_op] |>.

(** The dead worker's lease has expired: the row needs recovery. *)
Example reconciled_phase :
  option_map op_submission_phase (op_row reconciled 11) = Some WildFlowSubmissionPhaseRecoveryRequired.
Proof. vm_compute. reflexivity. Qed.
End SubmissionDemo.

Lemma submission_exclusive_witness :
  exists r', op_row SubmissionDemo.reconciled 11 = Some r' /\ op_job_id r' = ""%string.
Proof.
  destruct (submission_exclusive 11 "lease-1" SubmissionDemo.held SubmissionDemo.db SubmissionDemo.reconciled) as (r' & Hr & Hj & _).
  - apply NoDup_singleton.
  - reflexivity.
  - by split_and!.
  - apply (sub_cons _ _ (SClaim "op-1" "worker-2" "lease-2" (Demo.now + 60)) Demo.env [] []); [reflexivity|].
    apply (sub_cons _ _ (SReconcile (fun _ => "u"%string) 0 10) Demo.env [] []); [reflexivity|]. apply sub_nil.
  - exists r'. split; [exact Hr | exact Hj].
Defined.

Lemma submission_accepted_final_witness :
  exists r', op_row (Demo.after (run_submission (SComplete "op-1" "worker-1" "lease-1" "job-2" "queued")) SubmissionDemo.done_db) 11
    = Some r' /\ op_job_id r' = "job-1"%string.
Proof.
  destruct (submission_accepted_final 11 SubmissionDemo.done_op SubmissionDemo.done_db
    (Demo.after (run_submission (SComplete "op-1" "worker-1" "lease-1" "job-2" "queued")) SubmissionDemo.done_db)) as (r' & Hr & _ & Hj & _).
  - apply NoDup_singleton.
  - reflexivity.
  - reflexivity.
  - apply (sub_cons _ _ (SComplete "op-1" "worker-1" "lease-1" "job-2" "queued") Demo.env [] []); [exact I|]. apply sub_nil.
  - exists r'. split; [exact Hr | exact Hj].
Defined.
