(* ===== verification/UserQuota.v ===== *)
(** * UserQuota: direct changes of wallets, keys and usage counters

    [src/model/user.go], [src/model/token.go], [src/model/channel.go] and the
    database halves of [src/model/quota_reserve.go]: the balance changes that do
    not go through a reservation.  In batch mode a change is queued instead
    (an [EffBatch...] effect); the cache update that runs beside it is the
    effect of the user or token hash. *)

From S2P Require Import Prelude Schema Store Calendar Quota Subscription.
From stdpp Require Import base numbers option strings list.
From Stdlib Require Import ZArith Lia.
Open Scope Z_scope.

Definition ErrNegativeQuota : Err := EText "quota 不能为负数！".

(** ** Wallets *)

Definition add_quota (x : Z) (u : User) : User := u <| u_quota ::= fun q => q + x |>.

Definition increaseUserQuota (id quota : Z) : M unit :=
  n ← update Users (user_where (fun u => (u_id u =? id) && (u_quota u <=? i64 (MaxWalletQuota - quota))))
        (add_quota quota);
  if n =? 1 then mret tt else
  count ← count Users (user_where (fun u => u_id u =? id));
  if count =? 0 then raise ErrRecordNotFound else
  raise ErrWalletQuotaLimitExceeded.

Definition decreaseUserQuota (id quota : Z) : M unit :=
  update Users (user_where (fun u => u_id u =? id)) (fun u => u <| u_quota ::= fun q => q - quota |>) ;;
  mret tt.

Definition cacheIncrUserQuota (userId delta : Z) : M unit :=
  redis ← ask env_redis;
  when redis (emit (EffUserQuotaCache userId delta)).

Definition IncreaseUserQuota (id quota : Z) (db : bool) : M unit :=
  if quota <? 0 then raise ErrNegativeQuota else
  if negb (ValidateWalletQuota quota) then raise (EText "wallet quota exceeds 9007199254740991") else
  batch ← ask env_batch;
  if negb db && batch then
    emit (EffBatchUserQuota id quota) ;;
    cacheIncrUserQuota id quota
  else
    increaseUserQuota id quota ;;
    cacheIncrUserQuota id quota.

Definition DecreaseUserQuota (id quota : Z) (db : bool) : M unit :=
  if quota <? 0 then raise ErrNegativeQuota else
  cacheIncrUserQuota id (i64 (- quota)) ;;
  batch ← ask env_batch;
  if negb db && batch then emit (EffBatchUserQuota id (i64 (- quota)))
  else decreaseUserQuota id quota.

Definition DeltaUpdateUserQuota (id delta : Z) : M unit :=
  if delta =? 0 then mret tt else
  if 0 <? delta then IncreaseUserQuota id delta false
  else DecreaseUserQuota id (i64 (- delta)) false.

(** A missing row answers 0. *)
Definition GetUserQuota (id : Z) (fromDB : bool) : M Z :=
  redis ← ask env_redis;
  if negb fromDB && redis then
    cached ← ask env_user_quota_cache;
    lift (cached id)
  else
    user ← find_opt Users (user_where (fun u => u_id u =? id));
    mret (match user with Some u => u_quota u | None => 0 end).

Definition reserveUserQuotaDB (id quota : Z) : M bool :=
  n ← update Users (user_where (fun u => (u_id u =? id) && (quota <=? u_quota u)))
        (fun u => u <| u_quota ::= fun q => q - quota |>);
  mret (n =? 1).

(** ** Keys *)

(** The columns a change of [delta] leaves on a key. *)
Definition move_token (now delta : Z) (t : Token) : Token :=
  t <| tk_remain_quota ::= fun q => q + delta |> <| tk_used_quota ::= fun q => q - delta |>
    <| tk_accessed_time := now |>.

Definition increaseTokenQuota (id quota : Z) : M unit :=
  now ← GetTimestamp;
  update Tokens (token_where (fun t => tk_id t =? id)) (move_token now quota) ;;
  mret tt.

Definition decreaseTokenQuota (id quota : Z) : M unit :=
  now ← GetTimestamp;
  update Tokens (token_where (fun t => tk_id t =? id))
    (fun t => (t <| tk_remain_quota ::= fun q => q - quota |>) <| tk_used_quota ::= fun q => q + quota |>
                <| tk_accessed_time := now |>) ;;
  mret tt.

Definition IncreaseTokenQuota (tokenId : Z) (key : string) (quota : Z) : M unit :=
  if quota <? 0 then raise ErrNegativeQuota else
  redis ← ask env_redis;
  when redis (emit (EffTokenQuotaCacheGuarded tokenId key quota)) ;;
  batch ← ask env_batch;
  if (batch : bool) then emit (EffBatchTokenQuota tokenId quota)
  else increaseTokenQuota tokenId quota.

Definition DecreaseTokenQuota (id : Z) (key : string) (quota : Z) : M unit :=
  if quota <? 0 then raise ErrNegativeQuota else
  redis ← ask env_redis;
  when redis (emit (EffTokenQuotaCacheGuarded id key (i64 (- quota)))) ;;
  batch ← ask env_batch;
  if (batch : bool) then emit (EffBatchTokenQuota id (i64 (- quota)))
  else decreaseTokenQuota id quota.

Definition reserveTokenQuotaDB (id quota : Z) : M bool :=
  now ← GetTimestamp;
  n ← update Tokens (token_where (fun t => (tk_id t =? id) && (quota <=? tk_remain_quota t)))
        (fun t => (t <| tk_remain_quota ::= fun q => q - quota |>) <| tk_used_quota ::= fun q => q + quota |>
                    <| tk_accessed_time := now |>);
  mret (n =? 1).

(** The asynchronous refill of the key cache after the read is not modelled. *)
Definition GetTokenById (id : Z) : M Token :=
  if id =? 0 then raise (EText "id 为空！") else
  find_first Tokens (token_where (fun t => tk_id t =? id)).

(** ** Usage counters: a failing statement is only logged *)

Definition logged {A} (m : M A) : M unit := attempt m ;; mret tt.

Definition count_usage (quota count : Z) (u : User) : User :=
  u <| u_used_quota ::= fun q => q + quota |> <| u_request_count ::= fun c => c + count |>.

Definition updateUserUsedQuotaAndRequestCount (id quota count : Z) : M unit :=
  logged (update Users (user_where (fun u => u_id u =? id)) (count_usage quota count)).

Definition UpdateUserUsedQuotaAndRequestCount (id quota : Z) : M unit :=
  batch ← ask env_batch;
  if (batch : bool) then emit (EffBatchUsedQuota id quota) ;; emit (EffBatchRequestCount id 1)
  else updateUserUsedQuotaAndRequestCount id quota 1.

Definition UpdateUserUsedQuota (id quota : Z) : M unit :=
  batch ← ask env_batch;
  if (batch : bool) then emit (EffBatchUsedQuota id quota)
  else logged (update Users (user_where (fun u => u_id u =? id))
                 (fun u => u <| u_used_quota ::= fun q => q + quota |>)).

Definition updateUserQuotaUsedQuotaAndRequestCount (id quota usedQuota requestCount : Z) : M unit :=
  if (quota =? 0) && (usedQuota =? 0) && (requestCount =? 0) then mret tt else
  logged (update Users (user_where (fun u => u_id u =? id))
            (fun u => count_usage usedQuota requestCount (add_quota quota u))).

Definition add_channel_usage (quota : Z) (c : Channel) : Channel :=
  c <| ch_used_quota ::= fun q => q + quota |>.

Definition updateChannelUsedQuota (id quota : Z) : M unit :=
  logged (update Channels (fun c => ch_id c =? id) (add_channel_usage quota)).

Definition UpdateChannelUsedQuota (id quota : Z) : M unit :=
  batch ← ask env_batch;
  if (batch : bool) then emit (EffBatchChannelUsedQuota id quota)
  else updateChannelUsedQuota id quota.
