(* ===== verification/BillingSession.v ===== *)
(** * BillingSession: the billing of one relayed request

    [src/service/billing_session.go], [src/service/funding_source.go],
    [src/service/billing.go] and the per-call part of [src/service/quota.go].
    A session holds what a request has reserved; its operations are guarded by a
    mutex, so each is one step on the session and the database.  They return the
    session they leave, an error included.  A refund runs in a goroutine of its
    own: [Refund] answers the job, [run_refund] runs it. *)

From S2P Require Import Prelude Schema Store Quota Subscription Reservation UserQuota.
From stdpp Require Import base numbers option strings list pretty.
From Stdlib Require Import ZArith Lia.
Open Scope Z_scope.

Definition BillingSourceWallet := "wallet"%string.
Definition BillingSourceSubscription := "subscription"%string.

(** ** Errors with an HTTP status *)

Definition ErrorCodeInvalidRequest := "invalid_request"%string.
Definition ErrorCodeModelPriceError := "model_price_error"%string.
Definition ErrorCodeQueryDataError := "query_data_error"%string.
Definition ErrorCodeUpdateDataError := "update_data_error"%string.
Definition ErrorCodeInsufficientUserQuota := "insufficient_user_quota"%string.
Definition ErrorCodePreConsumeTokenQuotaFailed := "pre_consume_token_quota_failed"%string.

(** [types.NewAPIError]; every error made here skips the retry. *)
Record NewAPIError := mkAPIError {
  ae_Err : Err;
  ae_errorCode : string;
  ae_StatusCode : Z;
  ae_recordErrorLog : bool
}.

(** A Go [error] of this package: a plain one or an API error. *)
Inductive Error := Plain (e : Err) | Api (e : NewAPIError).

Definition api_error (err : Err) (code : string) : NewAPIError := mkAPIError err code 500 true.
Definition forbidden (err : Err) (code : string) : NewAPIError := mkAPIError err code 403 false.

(** [types.NewError]: an API error inside [err] is kept. *)
Definition NewError (err : Error) (code : string) : NewAPIError :=
  match err with Plain e => api_error e code | Api e => e end.

(** ** The request *)

(** [relaycommon.RelayInfo], as far as billing reads or writes it. *)
Record RelayInfo := mkRelayInfo {
  ri_RequestId : string;
  ri_UserId : Z;
  ri_TokenId : Z;
  ri_TokenKey : string;
  ri_TokenUnlimited : bool;
  ri_IsPlayground : bool;
  ri_BillingPreference : string;       (* UserSetting.BillingPreference *)
  ri_QuotaClamp : option QuotaClamp;
  ri_ChannelId : Z;
  ri_UserQuota : Z;
  ri_FinalPreConsumedQuota : Z;
  ri_BillingSource : string;
  ri_SubscriptionId : Z;
  ri_SubscriptionPreConsumed : Z;
  ri_SubscriptionPostDelta : Z;
  ri_SubscriptionAmountTotal : Z;
  ri_SubscriptionAmountUsedAfterPreConsume : Z;
  ri_SubscriptionPlanId : Z;
  ri_SubscriptionPlanTitle : string
}.
#[export] Instance RelayInfo_eta : Eta RelayInfo :=
  fun r => mkRelayInfo (ri_RequestId r) (ri_UserId r) (ri_TokenId r) (ri_TokenKey r)
    (ri_TokenUnlimited r) (ri_IsPlayground r) (ri_BillingPreference r) (ri_QuotaClamp r)
    (ri_ChannelId r) (ri_UserQuota r) (ri_FinalPreConsumedQuota r) (ri_BillingSource r)
    (ri_SubscriptionId r) (ri_SubscriptionPreConsumed r) (ri_SubscriptionPostDelta r)
    (ri_SubscriptionAmountTotal r) (ri_SubscriptionAmountUsedAfterPreConsume r)
    (ri_SubscriptionPlanId r) (ri_SubscriptionPlanTitle r).

(** ** Funding sources *)

Record SubscriptionFunding := mkSubscriptionFunding {
  sf_requestId : string;
  sf_userId : Z;
  sf_amount : Z;
  sf_subscriptionId : Z;
  sf_preConsumed : Z;
  sf_AmountTotal : Z;
  sf_AmountUsedAfter : Z;
  sf_PlanId : Z;
  sf_PlanTitle : string
}.
#[export] Instance SubscriptionFunding_eta : Eta SubscriptionFunding :=
  fun r => mkSubscriptionFunding (sf_requestId r) (sf_userId r) (sf_amount r) (sf_subscriptionId r)
    (sf_preConsumed r) (sf_AmountTotal r) (sf_AmountUsedAfter r) (sf_PlanId r) (sf_PlanTitle r).

Inductive FundingSource :=
  | OfWallet (userId consumed : Z)               (* WalletFunding *)
  | OfSubscription (s : SubscriptionFunding).

Definition Source (f : FundingSource) : string :=
  match f with OfWallet _ _ => BillingSourceWallet | OfSubscription _ => BillingSourceSubscription end.

Definition funding_Settle (f : FundingSource) (delta : Z) : M unit :=
  if delta =? 0 then mret tt else
  match f with
  | OfWallet userId _ =>
      if 0 <? delta then DecreaseUserQuota userId delta false
      else IncreaseUserQuota userId (i64 (- delta)) false
  | OfSubscription s => PostConsumeUserSubscriptionDelta (sf_subscriptionId s) delta
  end.

(** At most three attempts, whatever the error. *)
Fixpoint refundWithRetry (more : nat) (fn : M unit) : M unit :=
  match more with
  | O => fn
  | S more' =>
      r ← attempt fn;
      match r with
      | inr _ => mret tt
      | inl _ => refundWithRetry more' fn
      end
  end.

Definition funding_Refund (f : FundingSource) : M unit :=
  match f with
  | OfWallet userId consumed =>
      if consumed <=? 0 then mret tt else IncreaseUserQuota userId consumed false
  | OfSubscription s =>
      if sf_preConsumed s <=? 0 then mret tt
      else refundWithRetry 2 (RefundSubscriptionPreConsume (sf_requestId s))
  end.

(** ** Key quota of a request *)

Section KeyCache.
(** What Redis holds under a key's text ([cacheGetTokenByKey]). *)
Context (token_cache : string -> option Token).

Definition GetTokenByKey (key : string) (fromDB : bool) : M Token :=
  redis ← ask env_redis;
  match token_cache key with
  | Some token => if negb fromDB && redis then mret token
                  else find_first Tokens (token_where (fun t => str_eqb (tk_key t) key))
  | None => find_first Tokens (token_where (fun t => str_eqb (tk_key t) key))
  end.

Definition PreConsumeTokenQuota (info : RelayInfo) (quota : Z) : M unit :=
  if quota <? 0 then raise ErrNegativeQuota else
  if (ri_TokenId info <=? 0) && negb (ri_IsPlayground info) then
    token ← GetTokenByKey (ri_TokenKey info) false;
    ReserveTokenQuota (tk_id token) (ri_TokenKey info) quota (tk_unlimited_quota token)
  else ReserveTokenQuota (ri_TokenId info) (ri_TokenKey info) quota (ri_TokenUnlimited info).
End KeyCache.

(** The key's share of a difference. *)
Definition adjust_key (info : RelayInfo) (delta : Z) : M unit :=
  if 0 <? delta then DecreaseTokenQuota (ri_TokenId info) (ri_TokenKey info) delta
  else IncreaseTokenQuota (ri_TokenId info) (ri_TokenKey info) (i64 (- delta)).

(** ** The session *)

Record BillingSession := mkBillingSession {
  bs_relayInfo : RelayInfo;
  bs_funding : FundingSource;
  bs_preConsumedQuota : Z;
  bs_tokenConsumed : Z;
  bs_extraReserved : Z;
  bs_alreadyReserved : bool;
  bs_fundingSettled : bool;
  bs_settled : bool;
  bs_refunded : bool
}.
#[export] Instance BillingSession_eta : Eta BillingSession :=
  fun r => mkBillingSession (bs_relayInfo r) (bs_funding r) (bs_preConsumedQuota r) (bs_tokenConsumed r)
    (bs_extraReserved r) (bs_alreadyReserved r) (bs_fundingSettled r) (bs_settled r) (bs_refunded r).

(** [&BillingSession{relayInfo: ..., funding: ...}] *)
Definition new_session (info : RelayInfo) (funding : FundingSource) : BillingSession :=
  mkBillingSession info funding 0 0 0 false false false false.

Definition is_subscription (f : FundingSource) : bool := str_eqb (Source f) BillingSourceSubscription.
Definition rid (s : BillingSession) : string := ri_RequestId (bs_relayInfo s).
Definition hasReservation (s : BillingSession) : bool := 0 <? bs_preConsumedQuota s.
Definition GetPreConsumedQuota (s : BillingSession) : Z := bs_preConsumedQuota s.

Definition needsRefundLocked (s : BillingSession) : bool :=
  if bs_settled s || bs_refunded s || bs_fundingSettled s then false else
  if 0 <? bs_tokenConsumed s then true else
  match bs_funding s with OfSubscription sub => 0 <? sf_preConsumed sub | OfWallet _ _ => false end.
Definition NeedsRefund := needsRefundLocked.

Definition end_settled (s : BillingSession) : BillingSession := s <| bs_settled := true |>.

(** [SubscriptionPostDelta += int64(delta)] for a subscription. *)
Definition post_delta (delta : Z) (s : BillingSession) : BillingSession :=
  if is_subscription (bs_funding s)
  then s <| bs_relayInfo ::= fun i => i <| ri_SubscriptionPostDelta ::= fun x => i64 (x + delta) |> |>
  else s.

Definition failure {A} (r : result A) : option Err := match r with inl err => Some err | inr _ => None end.

Definition settleWithoutRecord (delta : Z) (s : BillingSession) : M (option Err * BillingSession) :=
  r ← (if bs_fundingSettled s then mret (inr tt) else attempt (funding_Settle (bs_funding s) delta));
  match r with
  | inl err => mret (Some err, s)
  | inr _ =>
      let s := s <| bs_fundingSettled := true |> in
      tokenErr ← (if ri_IsPlayground (bs_relayInfo s) then mret (inr tt)
                  else attempt (adjust_key (bs_relayInfo s) delta));
      mret (failure tokenErr, end_settled (post_delta delta s))
  end.

Definition Settle (actualQuota : Z) (s : BillingSession) : M (option Err * BillingSession) :=
  if bs_settled s then mret (None, s) else
  let delta := i64 (actualQuota - bs_preConsumedQuota s) in
  if delta =? 0 then
    if hasReservation s then
      r ← attempt (SettleBillingReservation (rid s) 0);
      match r with
      | inl err => if is_err err ErrBillingReservationNotFound then mret (None, end_settled s)
                   else mret (Some err, end_settled s)
      | inr _ => mret (None, end_settled s)
      end
    else mret (None, end_settled s)
  else if hasReservation s then
    r ← attempt (SettleBillingReservation (rid s) delta);
    match r with
    | inl err => if is_err err ErrBillingReservationNotFound then settleWithoutRecord delta s
                 else mret (Some err, s)
    | inr _ => mret (None, end_settled (post_delta delta s))
    end
  else settleWithoutRecord delta s.

Definition MarkProviderStarted (s : BillingSession) : M unit :=
  if bs_settled s || bs_refunded s || negb (hasReservation s) then mret tt else
  if bs_alreadyReserved s
  then raise (EWrap ("provider dispatch replay (request=" ++ rid s ++ "): ") ErrBillingReservationStateConflict "")
  else
    r ← attempt (MarkBillingReservationProviderStarted (rid s));
    match r with
    | inl err => raise (EWrap ("mark billing reservation provider_started (request=" ++ rid s ++ "): ") err "")
    | inr _ => mret tt
    end.

(** *** Refund *)

(** What the goroutine of a refund copied out of the session. *)
Record RefundJob := mkRefundJob {
  rj_requestId : string;
  rj_tokenKey : string;
  rj_hasRecord : bool;
  rj_tokenId : Z;
  rj_isPlayground : bool;
  rj_tokenConsumed : Z;
  rj_extraReserved : Z;
  rj_subscriptionId : Z;
  rj_funding : FundingSource
}.

Definition refund_job (s : BillingSession) : RefundJob :=
  let info := bs_relayInfo s in
  mkRefundJob (ri_RequestId info) (ri_TokenKey info) (hasReservation s || bs_alreadyReserved s)
    (ri_TokenId info) (ri_IsPlayground info) (bs_tokenConsumed s) (bs_extraReserved s)
    (ri_SubscriptionId info) (bs_funding s).

Definition Refund (s : BillingSession) : BillingSession * option RefundJob :=
  if bs_settled s || bs_refunded s || negb (needsRefundLocked s) then (s, None)
  else (s <| bs_refunded := true |>, Some (refund_job s)).

Definition RefundUnsent (s : BillingSession) : BillingSession * option RefundJob :=
  if bs_alreadyReserved s then (s, None) else Refund s.

(** Every error of the job is only logged. *)
Definition run_refund (j : RefundJob) : M unit :=
  if rj_hasRecord j then logged (ReleaseBillingReservation (rj_requestId j) (rj_tokenKey j)) else
  logged (funding_Refund (rj_funding j)) ;;
  when ((0 <? rj_extraReserved j) && is_subscription (rj_funding j) && (0 <? rj_subscriptionId j))
    (logged (PostConsumeUserSubscriptionDelta (rj_subscriptionId j) (i64 (- rj_extraReserved j)))) ;;
  when ((0 <? rj_tokenConsumed j) && negb (rj_isPlayground j))
    (logged (IncreaseTokenQuota (rj_tokenId j) (rj_tokenKey j) (rj_tokenConsumed j))).

(** *** Reservation *)

Definition isSubscriptionQuotaError (err : Err) : bool :=
  is_err err ErrNoActiveSubscription || is_err err ErrSubscriptionQuotaInsufficient ||
  str_contains (err_text err) "no active subscription" ||
  str_contains (err_text err) "subscription quota insufficient".

Definition preConsumeFailure (err : Err) : NewAPIError :=
  if is_err err ErrInsufficientUserQuota || is_err err ErrInsufficientTokenQuota || isSubscriptionQuotaError err
  then forbidden err ErrorCodeInsufficientUserQuota
  else api_error err ErrorCodeUpdateDataError.

(** The fields of the request that mirror the session. *)
Definition sync_subscription (sub : SubscriptionFunding) (extra : Z) (info : RelayInfo) : RelayInfo :=
  info <| ri_SubscriptionId := sf_subscriptionId sub |>
       <| ri_SubscriptionPreConsumed := i64 (sf_preConsumed sub + extra) |>
       <| ri_SubscriptionPostDelta := 0 |>
       <| ri_SubscriptionAmountTotal := sf_AmountTotal sub |>
       <| ri_SubscriptionAmountUsedAfterPreConsume := i64 (sf_AmountUsedAfter sub + extra) |>
       <| ri_SubscriptionPlanId := sf_PlanId sub |>
       <| ri_SubscriptionPlanTitle := sf_PlanTitle sub |>.
Definition sync_wallet (info : RelayInfo) : RelayInfo :=
  info <| ri_SubscriptionId := 0 |> <| ri_SubscriptionPreConsumed := 0 |>.
Definition sync_common (s : BillingSession) (info : RelayInfo) : RelayInfo :=
  info <| ri_FinalPreConsumedQuota := bs_preConsumedQuota s |> <| ri_BillingSource := Source (bs_funding s) |>.

Definition syncRelayInfo (s : BillingSession) : BillingSession :=
  s <| bs_relayInfo ::= fun info =>
    match bs_funding s with
    | OfSubscription sub => sync_subscription sub (bs_extraReserved s) (sync_common s info)
    | OfWallet _ _ => sync_wallet (sync_common s info)
    end |>.

(** [funding.consumed = quota], [funding.preConsumed = int64(quota)] *)
Definition funding_consumed (quota : Z) (f : FundingSource) : FundingSource :=
  match f with
  | OfWallet userId _ => OfWallet userId quota
  | OfSubscription sub => OfSubscription (sub <| sf_preConsumed := quota |>)
  end.

Definition reserve_model (info : RelayInfo) (f : FundingSource) (quota : Z) : M bool :=
  match f with
  | OfWallet _ _ =>
      ReserveWalletBillingQuota (ri_RequestId info) (ri_UserId info) (ri_TokenId info)
        (ri_TokenKey info) quota (ri_TokenUnlimited info)
  | OfSubscription _ =>
      '(_, reserved) ← ReserveSubscriptionBillingQuota (ri_RequestId info) (ri_UserId info) (ri_TokenId info)
                         (ri_TokenKey info) quota (ri_TokenUnlimited info);
      mret reserved
  end.

Definition consumed_session (quota : Z) (reserved : bool) (s : BillingSession) : BillingSession :=
  (s <| bs_funding ::= funding_consumed quota |> <| bs_tokenConsumed := quota |>)
    <| bs_alreadyReserved ::= fun b => b || negb reserved |>.

Definition preConsume (quota : Z) (s : BillingSession) : M (NewAPIError + BillingSession) :=
  if 0 <? quota then
    r ← attempt (reserve_model (bs_relayInfo s) (bs_funding s) quota);
    match r with
    | inl err => mret (inl (preConsumeFailure err))
    | inr reserved =>
        mret (inr (syncRelayInfo (consumed_session quota reserved s <| bs_preConsumedQuota := quota |>)))
    end
  else mret (inr (syncRelayInfo (s <| bs_preConsumedQuota := quota |>))).

(** [funding.consumed += delta] of a wallet. *)
Definition funding_grow (delta : Z) (f : FundingSource) : FundingSource :=
  match f with
  | OfWallet userId consumed => OfWallet userId (i64 (consumed + delta))
  | OfSubscription sub => OfSubscription sub
  end.

Definition reserveFunding (delta : Z) (f : FundingSource) : M (Error + FundingSource) :=
  match f with
  | OfWallet userId _ =>
      r ← attempt (DecreaseUserQuota userId delta false);
      mret (match r with
            | inl err => inl (Api (api_error err ErrorCodeUpdateDataError))
            | inr _ => inr (funding_grow delta f)
            end)
  | OfSubscription sub =>
      r ← attempt (PostConsumeUserSubscriptionDelta (sf_subscriptionId sub) delta);
      mret (match r with
            | inl err => inl (Api (forbidden (EText ("订阅额度不足或未配置订阅: " ++ err_text err)) ErrorCodeInsufficientUserQuota))
            | inr _ => inr f
            end)
  end.

Definition rollbackFundingReserve (delta : Z) (f : FundingSource) : M FundingSource :=
  match f with
  | OfWallet userId _ =>
      r ← attempt (IncreaseUserQuota userId delta false);
      mret (match r with inl _ => f | inr _ => funding_grow (i64 (- delta)) f end)
  | OfSubscription sub =>
      logged (PostConsumeUserSubscriptionDelta (sf_subscriptionId sub) (i64 (- delta))) ;;
      mret f
  end.

Section Sessions.
Context (token_cache : string -> option Token).
(** [logger.FormatQuota], the display text of an amount under the display settings. *)
Context (FormatQuota : Z -> string).

Definition reserveToken (delta : Z) (info : RelayInfo) : M (Error + unit) :=
  if (delta <=? 0) || ri_IsPlayground info then mret (inr tt) else
  r ← attempt (PreConsumeTokenQuota token_cache info delta);
  mret (match r with
        | inl err => inl (Api (forbidden err ErrorCodePreConsumeTokenQuotaFailed))
        | inr _ => inr tt
        end).

(** The funding source is left as the attempt changed it. *)
Definition reserveWithoutRecord (delta : Z) (s : BillingSession) : M (option Error * FundingSource) :=
  r ← reserveFunding delta (bs_funding s);
  match r with
  | inl err => mret (Some err, bs_funding s)
  | inr funding =>
      t ← reserveToken delta (bs_relayInfo s);
      match t with
      | inl err => funding ← rollbackFundingReserve delta funding; mret (Some err, funding)
      | inr _ => mret (None, funding)
      end
  end.

Definition grown_session (delta : Z) (s : BillingSession) : BillingSession :=
  syncRelayInfo
    (s <| bs_preConsumedQuota ::= fun q => i64 (q + delta) |>
       <| bs_tokenConsumed ::= fun q => i64 (q + delta) |>
       <| bs_extraReserved ::= fun q => i64 (q + delta) |>).

Definition Reserve (targetQuota : Z) (s : BillingSession) : M (option Error * BillingSession) :=
  if bs_settled s || bs_refunded s || (targetQuota <=? bs_preConsumedQuota s) then mret (None, s) else
  let delta := i64 (targetQuota - bs_preConsumedQuota s) in
  if delta <=? 0 then mret (None, s) else
  r ← attempt (AppendBillingReservation (rid s) delta);
  match r with
  | inr _ => mret (None, grown_session delta s)
  | inl err =>
      if negb (is_err err ErrBillingReservationNotFound) then mret (Some (Plain err), s) else
      '(failed, funding) ← reserveWithoutRecord delta s;
      let s := s <| bs_funding := funding |> in
      match failed with
      | Some err => mret (Some err, s)
      | None => mret (None, grown_session delta s)
      end
  end.

(** *** Creation *)

Definition NormalizeBillingPreference (pref : string) : string :=
  if List.existsb (str_eqb (trim_space pref)) ["subscription_first"; "wallet_first"; "subscription_only"; "wallet_only"]
  then trim_space pref else "subscription_first"%string.

(** A failed attempt leaves the request it was given, [UserQuota] included. *)
Definition tryWallet (preConsumedQuota : Z) (info : RelayInfo) : M ((NewAPIError + BillingSession) * RelayInfo) :=
  q ← attempt (GetUserQuota (ri_UserId info) false);
  match q with
  | inl err => mret (inl (api_error err ErrorCodeQueryDataError), info)
  | inr userQuota =>
      if userQuota <=? 0 then
        mret (inl (forbidden (EText ("用户额度不足, 剩余额度: " ++ FormatQuota userQuota))
                     ErrorCodeInsufficientUserQuota), info)
      else if i64 (userQuota - preConsumedQuota) <? 0 then
        mret (inl (forbidden (EText ("预扣费额度失败, 用户剩余额度: " ++ FormatQuota userQuota ++
                     ", 需要预扣费额度: " ++ FormatQuota preConsumedQuota)) ErrorCodeInsufficientUserQuota), info)
      else
        let info := info <| ri_UserQuota := userQuota |> in
        r ← preConsume preConsumedQuota (new_session info (OfWallet (ri_UserId info) 0));
        mret (r, info)
  end.

Definition trySubscription (preConsumedQuota : Z) (info : RelayInfo) : M (NewAPIError + BillingSession) :=
  let subConsume := if preConsumedQuota <=? 0 then 1 else preConsumedQuota in
  preConsume subConsume
    (new_session info (OfSubscription
       (mkSubscriptionFunding (ri_RequestId info) (ri_UserId info) subConsume 0 0 0 0 0 ""))).

Definition out_of_quota (e : NewAPIError) : bool := str_eqb (ae_errorCode e) ErrorCodeInsufficientUserQuota.

Definition subscription_first (preConsumedQuota : Z) (info : RelayInfo) : M (NewAPIError + BillingSession) :=
  hasSub ← attempt (HasActiveUserSubscription (ri_UserId info));
  match hasSub with
  | inl err => mret (inl (api_error err ErrorCodeQueryDataError))
  | inr false => '(r, _) ← tryWallet preConsumedQuota info; mret r
  | inr true =>
      session ← trySubscription preConsumedQuota info;
      match session with
      | inr s => mret (inr s)
      | inl apiErr =>
          if negb (out_of_quota apiErr) then mret (inl apiErr) else
          allowOverflow ← attempt (UserActiveSubscriptionsAllowWalletOverflow (ri_UserId info));
          match allowOverflow with
          | inl err => mret (inl (api_error err ErrorCodeQueryDataError))
          | inr true => '(r, _) ← tryWallet preConsumedQuota info; mret r
          | inr false => mret (inl apiErr)
          end
      end
  end.

Definition NewBillingSession (info : RelayInfo) (preConsumedQuota : Z) : M (NewAPIError + BillingSession) :=
  let pref := NormalizeBillingPreference (ri_BillingPreference info) in
  if str_eqb pref "subscription_only" then trySubscription preConsumedQuota info
  else if str_eqb pref "wallet_only" then '(r, _) ← tryWallet preConsumedQuota info; mret r
  else if str_eqb pref "wallet_first" then
    '(r, info) ← tryWallet preConsumedQuota info;
    match r with
    | inr s => mret (inr s)
    | inl err => if out_of_quota err then trySubscription preConsumedQuota info else mret (inl err)
    end
  else subscription_first preConsumedQuota info.

Definition PreConsumeBilling (info : RelayInfo) (preConsumedQuota : Z) : M (NewAPIError + BillingSession) :=
  match ri_QuotaClamp info with
  | Some clamp => mret (inl (mkAPIError (clamp_error clamp) ErrorCodeModelPriceError 400 true))
  | None =>
      if preConsumedQuota <? 0
      then mret (inl (mkAPIError (EText ("pre-consume quota cannot be negative: " ++ pretty preConsumedQuota)) ErrorCodeModelPriceError 400 true))
      else NewBillingSession info preConsumedQuota
  end.
End Sessions.

(** ** Billing without a session: [src/service/quota.go], [src/service/billing.go]

    The notifications sent about a low balance are not modelled. *)

Definition UpdateUsedQuotaStats (info : RelayInfo) (quota : Z) : M unit :=
  UpdateUserUsedQuotaAndRequestCount (ri_UserId info) quota ;;
  when (negb (ri_ChannelId info =? 0)) (UpdateChannelUsedQuota (ri_ChannelId info) quota).

Definition ReservePerCallBilling (info : RelayInfo) (quota : Z) : M unit :=
  if quota <=? 0 then mret tt else
  if negb (str_eqb (ri_RequestId info) "") then
    ReserveWalletBillingQuota (ri_RequestId info) (ri_UserId info) (ri_TokenId info)
      (ri_TokenKey info) quota (ri_TokenUnlimited info) ;;
    mret tt
  else
    ReserveUserQuota (ri_UserId info) quota ;;
    if ri_IsPlayground info then mret tt else
    r ← attempt (ReserveTokenQuota (ri_TokenId info) (ri_TokenKey info) quota (ri_TokenUnlimited info));
    match r with
    | inr _ => mret tt
    | inl err =>
        logged (IncreaseUserQuota (ri_UserId info) quota false) ;;
        raise err
    end.

Definition SettlePerCallBilling (info : RelayInfo) (quota : Z) : M unit :=
  if quota <=? 0 then mret tt else
  if str_eqb (ri_RequestId info) "" then UpdateUsedQuotaStats info quota else
  r ← attempt (SettleBillingReservation (ri_RequestId info) (i64 (quota - ri_FinalPreConsumedQuota info)));
  match r with
  | inl err => if is_err err ErrBillingReservationNotFound then UpdateUsedQuotaStats info quota else raise err
  | inr _ => UpdateUsedQuotaStats info quota
  end.

Definition ReleasePerCallBilling (info : RelayInfo) : M unit :=
  if str_eqb (ri_RequestId info) "" then mret tt else
  r ← attempt (ReleaseBillingReservation (ri_RequestId info) (ri_TokenKey info));
  match r with
  | inl err => if is_err err ErrBillingReservationNotFound then mret tt else raise err
  | inr _ => mret tt
  end.

(** The funding half, with the request it leaves, then the key. *)
Definition post_consume_funding (info : RelayInfo) (quota : Z) : M RelayInfo :=
  if str_eqb (ri_BillingSource info) BillingSourceSubscription then
    if ri_SubscriptionId info =? 0 then raise (EText "subscription id is missing") else
    if quota =? 0 then mret info else
    PostConsumeUserSubscriptionDelta (ri_SubscriptionId info) quota ;;
    mret (info <| ri_SubscriptionPostDelta ::= fun x => i64 (x + quota) |>)
  else
    (if 0 <? quota then DecreaseUserQuota (ri_UserId info) quota false
     else IncreaseUserQuota (ri_UserId info) (i64 (- quota)) false) ;;
    mret info.

Definition PostConsumeQuota (info : RelayInfo) (quota : Z) : M RelayInfo :=
  info ← post_consume_funding info quota;
  when (negb (ri_IsPlayground info)) (adjust_key info quota) ;;
  mret info.

(** [relayInfo.Billing] is the session, if one was created. *)
Definition SettleBilling (info : RelayInfo) (billing : option BillingSession) (actualQuota : Z)
  : M (option Err * option BillingSession) :=
  match billing with
  | Some session =>
      '(err, session) ← Settle actualQuota session;
      mret (err, Some session)
  | None =>
      let quotaDelta := i64 (actualQuota - ri_FinalPreConsumedQuota info) in
      if quotaDelta =? 0 then mret (None, None) else
      r ← attempt (PostConsumeQuota info quotaDelta);
      mret (failure r, None)
  end.
