(* ===== verification/TaskOperations.v ===== *)
(** * TaskOperations: [src/model/task_operation.go]

    The durable identity of a video or image task: an operation is reserved once
    per user and idempotency key, its accepted task is attached exactly once, in
    the transaction that settles the request's reservation, and a submission
    whose outcome is unknown is left for recovery. *)

From S2P Require Import Prelude Schema Store Quota Reservation WildFlowOperations WildFlowBilling WildFlowSubmission UserQuota.
From stdpp Require Import base numbers option strings list.
From Stdlib Require Import ZArith Lia.
Open Scope Z_scope.

Definition TaskOperationSubmitting := "task_submitting"%string.
Definition TaskOperationAccepted := "task_accepted"%string.

Definition ErrTaskOperationConflict : Err := EText "idempotency key was used for another request".
Definition ErrTaskOperationState : Err := EText "task operation is not available for attachment".

Definition outcome_unknown := "task_submission_outcome_unknown"%string.

(** ** Reservation *)

Definition abandoned (now : Z) (r : WildFlowOperation) : WildFlowOperation :=
  r <| op_state := "recovery_required"%string |>
    <| op_submission_phase := WildFlowSubmissionPhaseRecoveryRequired |>
    <| op_last_error_code := outcome_unknown |> <| op_updated_time := now |>.

Definition resolveTaskOperationReplay (operation : WildFlowOperation) (digest : string)
  : M (WildFlowOperation * bool) :=
  now ← GetTimestamp;
  if negb (str_eqb (op_request_digest operation) digest) ||
     negb (str_eqb (op_billing_state operation) TaskOperationBillingState) ||
     str_eqb (op_task_id operation) ""
  then raise ErrTaskOperationConflict else
  if str_eqb (op_state operation) TaskOperationSubmitting && (op_submission_lease_expires_at operation <=? now) then
    update Operations (fun r => (op_id r =? op_id operation) && str_eqb (op_state r) TaskOperationSubmitting)
      (abandoned now) ;;
    operation ← reload operation;
    mret (operation, false)
  else mret (operation, false).

Definition valid_candidate (now : Z) (candidate : WildFlowOperation) : bool :=
  (0 <? op_user_id candidate) && negb (str_eqb (op_operation_id candidate) "") &&
  String.prefix "task_" (op_task_id candidate) &&
  (Z.of_nat (String.length (op_idempotency_key_digest candidate)) =? 64) &&
  (Z.of_nat (String.length (op_request_digest candidate)) =? 64) &&
  (now <? op_submission_lease_expires_at candidate).

Definition submitted_candidate (candidate : WildFlowOperation) : WildFlowOperation :=
  candidate <| op_state := TaskOperationSubmitting |> <| op_billing_state := TaskOperationBillingState |>
            <| op_billing_source := "task_host"%string |>
            <| op_submission_phase := WildFlowSubmissionPhaseSubmitting |> <| op_submission_attempt := 1 |>.

(** A failing insert may have lost to a concurrent one. *)
Definition ReserveTaskOperation (candidate : WildFlowOperation) : M (WildFlowOperation * bool) :=
  now ← GetTimestamp;
  if negb (valid_candidate now candidate) then raise (EText "invalid task operation reservation") else
  existing ← GetWildFlowOperationByUserAndKey (op_user_id candidate) (op_idempotency_key_digest candidate);
  match existing with
  | Some existing => resolveTaskOperationReplay existing (op_request_digest candidate)
  | None =>
      r ← attempt (create Operations (operation_BeforeCreate now (submitted_candidate candidate)));
      match r with
      | inr operation => mret (operation, true)
      | inl err =>
          existing ← GetWildFlowOperationByUserAndKey (op_user_id candidate) (op_idempotency_key_digest candidate);
          match existing with
          | None => raise err
          | Some existing => resolveTaskOperationReplay existing (op_request_digest candidate)
          end
      end
  end.

(** ** Attachment *)

Definition can_attach (r : WildFlowOperation) : bool :=
  str_eqb (op_state r) TaskOperationSubmitting ||
  (str_eqb (op_state r) "recovery_required" && str_eqb (op_last_error_code r) outcome_unknown).

Definition attached (quota now : Z) (r : WildFlowOperation) : WildFlowOperation :=
  r <| op_state := TaskOperationAccepted |> <| op_billing_quota := quota |>
    <| op_billing_settled_time := now |> <| op_submission_phase := WildFlowSubmissionPhaseAccepted |>
    <| op_last_error_code := ""%string |> <| op_updated_time := now |>.

(** The operation in memory, whose quota and settlement time the audit reads. *)
Definition billed (quota now : Z) (r : WildFlowOperation) : WildFlowOperation :=
  r <| op_billing_quota := quota |> <| op_billing_settled_time := now |>.

Definition reservation_fits (operation : WildFlowOperation) (task : Task) (reservation : BillingReservationRecord) : bool :=
  (br_user_id reservation =? ta_user_id task) && (br_token_id reservation =? ta_token_id task) &&
  (br_token_id reservation =? op_token_id operation) &&
  str_eqb (br_state reservation) BillingReservationStateProviderStarted &&
  (0 <=? br_amount reservation) && (br_amount reservation <=? MaxQuota).

(** The settlement of the request's reservation; a free request may have none. *)
Definition settle_reservation (operation : WildFlowOperation) (task : Task) : M billingReservationCacheEffect :=
  let requestID := op_request_id operation in
  if str_eqb requestID "" && negb (0 <? ta_quota task) then mret (mkCacheEffect 0 0 0) else
  reservation ← attempt (find_first Reservations (fun r => str_eqb (br_request_id r) requestID));
  match reservation with
  | inl err =>
      if is_err err ErrRecordNotFound && (ta_quota task =? 0) then mret (mkCacheEffect 0 0 0) else raise err
  | inr reservation =>
      if negb (reservation_fits operation task reservation) then raise ErrTaskOperationState else
      settleBillingReservationTx requestID (i64 (ta_quota task - br_amount reservation))
  end.

Definition insert_task_tx (operationID : string) (task : Task) : M (string * billingReservationCacheEffect) :=
  now ← GetTimestamp;
  operation ← find_first Operations (fun r => has_operation operationID r && (op_user_id r =? ta_user_id task));
  if negb (str_eqb (op_task_id operation) (ta_task_id task)) || negb (can_attach operation) ||
     negb (str_eqb (op_billing_state operation) TaskOperationBillingState)
  then raise ErrTaskOperationState else
  n ← update Operations (fun r => (op_id r =? op_id operation) && str_eqb (op_state r) (op_state operation))
        (attached (ta_quota task) now);
  if negb (n =? 1) then raise ErrTaskOperationState else
  effect ← settle_reservation operation task;
  create Tasks task ;;
  ensureWildFlowCanonicalBillingLogTx (billed (ta_quota task) now operation) LogTypeConsume "Image task accepted" ;;
  update Users (user_where (fun u => u_id u =? ta_user_id task)) (count_usage (ta_quota task) 1) ;;
  when (0 <? ta_channel_id task)
    (update Channels (fun c => ch_id c =? ta_channel_id task) (add_channel_usage (ta_quota task)) ;; mret tt) ;;
  mret (op_request_id operation, effect).

Definition InsertTaskForOperation (operationID : string) (task : Task) : M unit :=
  if (ta_user_id task <=? 0) || (ta_quota task <? 0) || (MaxQuota <? ta_quota task)
  then raise ErrTaskOperationState else
  '(requestID, effect) ← transaction (insert_task_tx operationID task);
  effect_apply effect requestID ;;
  export ← ask env_data_export;
  when (bool_decide (is_Some (ta_consumption_log task)) && export) (emit (EffQuotaData (ta_user_id task) (ta_quota task))).

(** ** Lookup and failure *)

Definition GetTaskOperationForUserAndTask (userID : Z) (taskID : string) : M (option WildFlowOperation) :=
  operation ← optional (find_first Operations (fun r =>
    (op_user_id r =? userID) && str_eqb (op_task_id r) taskID &&
    str_eqb (op_billing_state r) TaskOperationBillingState));
  match operation with
  | None => mret None
  | Some operation =>
      '(current, _) ← resolveTaskOperationReplay operation (op_request_digest operation);
      mret (Some current)
  end.

Definition submission_failed (uncertain : bool) (now : Z) (r : WildFlowOperation) : WildFlowOperation :=
  if uncertain then abandoned now r
  else r <| op_state := "task_failed"%string |> <| op_submission_phase := WildFlowSubmissionPhaseFailed |>
         <| op_last_error_code := "task_submission_rejected"%string |> <| op_updated_time := now |>.

Definition RecordTaskOperationSubmissionFailure (operationID : string) (uncertain : bool) : M bool :=
  now ← GetTimestamp;
  n ← update Operations (fun r => has_operation operationID r && str_eqb (op_state r) TaskOperationSubmitting &&
                                  str_eqb (op_billing_state r) TaskOperationBillingState)
        (submission_failed uncertain now);
  mret (n =? 1).
