(* ===== verification/BillingSessionTheorems.v ===== *)
(** * BillingSessionTheorems: what a request pays *)

From S2P Require Import Prelude Calendar Schema Store Logic Frame Ledger Demo Quota Subscription SubscriptionFacts Reservation ReservationRules ReservationSpec ReservationFacts ReservationTheorems UserQuota BillingSession.
From stdpp Require Import base numbers option strings list relations sorting.
From Stdlib Require Import ZArith Lia Floats.SpecFloat.
Open Scope Z_scope.

(** ** What direct balance changes leave alone *)

(** Who exists and is not deleted, and the reservations. *)
Definition accounts (d : DB) :=
  (List.map (fun u => (u_id u, u_deleted u)) (db_users d),
   List.map (fun t => (tk_id t, tk_deleted t)) (db_tokens d), db_reservations d).
Definition direct : DB -> DB -> Prop := same accounts.
#[export] Instance direct_preorder : PreOrder direct := same_preorder accounts.
#[global] Typeclasses Opaque direct.

Lemma map_upd_if {R X} (view : R -> X) (p : R -> bool) f (l : list R) :
  (forall r, view (f r) = view r) ->
  List.map view (List.map (fun r => if p r then f r else r) l) = List.map view l.
Proof. intros Hf. rewrite List.map_map. apply List.map_ext. intros r. by destruct (p r). Qed.

Lemma find_view {R X} (view : R -> X) (p : R -> bool) (q : X -> bool) (l l' : list R) :
  (forall r, p r = q (view r)) -> List.map view l' = List.map view l ->
  option_map view (List.find p l') = option_map view (List.find p l).
Proof.
  intros Hp. revert l'. induction l as [|r l IH]; intros [|r' l'] [=]; [done|]. cbn.
  rewrite !Hp. rewrite H0. destruct (q (view r)); cbn; [by rewrite H0 | by apply IH].
Qed.

Lemma direct_users p f : (forall u, (u_id (f u), u_deleted (f u)) = (u_id u, u_deleted u)) ->
  respects (tables direct) (update Users p f).
Proof.
  intros Hf. apply respects_stmt; [apply _|]. intros d fs tr. unfold tables, direct, same, accounts. cbn.
  by rewrite (map_upd_if (fun u => (u_id u, u_deleted u))).
Qed.
Lemma direct_tokens p f : (forall t, (tk_id (f t), tk_deleted (f t)) = (tk_id t, tk_deleted t)) ->
  respects (tables direct) (update Tokens p f).
Proof.
  intros Hf. apply respects_stmt; [apply _|]. intros d fs tr. unfold tables, direct, same, accounts. cbn.
  by rewrite (map_upd_if (fun t => (tk_id t, tk_deleted t))).
Qed.

Lemma direct_facts d d' : direct d d' ->
  (wf d -> wf d') /\ (forall u, live_user d' u = live_user d u) /\ (forall t, live_token d' t = live_token d t) /\
  forall k, reservation d' k = reservation d k.
Proof.
  intros [= Hu Ht Hr]. split_and!.
  - intros []. split; rewrite ?Hr; try done; unfold unique_key.
    + rewrite <- (List.map_map (fun u => (u_id u, u_deleted u)) fst) in *. rewrite Hu. by rewrite List.map_map.
    + rewrite <- (List.map_map (fun t => (tk_id t, tk_deleted t)) fst) in *. rewrite Ht. by rewrite List.map_map.
  - intros u. pose proof (find_view (fun u => (u_id u, u_deleted u)) (has_user u) (fun x => x.1 =? u) _ _ (fun _ => eq_refl) Hu) as H.
    unfold live_user, user_row. by destruct (List.find _ (db_users d')), (List.find _ (db_users d)); cbn in H; simplify_eq; try congruence.
  - intros t. pose proof (find_view (fun t => (tk_id t, tk_deleted t)) (has_token t) (fun x => x.1 =? t) _ _ (fun _ => eq_refl) Ht) as H.
    unfold live_token, token_row. by destruct (List.find _ (db_tokens d')), (List.find _ (db_tokens d)); cbn in H; simplify_eq; try congruence.
  - intros k. unfold reservation. by rewrite Hr.
Qed.
#[export] Hint Resolve direct_users direct_tokens : respects.

Section Direct.
Lemma direct_cache u x : respects (tables direct) (cacheIncrUserQuota u x).
Proof. unfold cacheIncrUserQuota. respects_auto. Qed.
#[local] Hint Resolve direct_cache : respects.
Lemma direct_increase u x b : respects (tables direct) (IncreaseUserQuota u x b).
Proof. unfold IncreaseUserQuota, increaseUserQuota. respects_auto. Qed.
Lemma direct_decrease u x b : respects (tables direct) (DecreaseUserQuota u x b).
Proof. unfold DecreaseUserQuota, decreaseUserQuota. respects_auto. Qed.
Lemma direct_key info x : respects (tables direct) (adjust_key info x).
Proof.
  unfold adjust_key, DecreaseTokenQuota, IncreaseTokenQuota, decreaseTokenQuota, increaseTokenQuota. respects_auto.
Qed.
Lemma direct_reserve_token cache info x : respects (tables direct) (PreConsumeTokenQuota cache info x).
Proof.
  unfold PreConsumeTokenQuota, GetTokenByKey, ReserveTokenQuota, reserveTokenQuotaTx. respects_auto.
Qed.
End Direct.
#[export] Hint Resolve direct_increase direct_decrease direct_key direct_reserve_token : respects.

Lemma wp_direct {A} (c : M A) Q e d fs tr :
  respects (tables direct) c ->
  (forall r d' fs' tr', direct d d' -> Q r (mkSt d' fs' tr')) -> wp c Q e (mkSt d fs tr).
Proof.
  intros Hc HQ. unfold wp. specialize (Hc e (mkSt d fs tr)). destruct (c e _) as [r [d' fs' tr']]. by apply HQ.
Qed.

(** ** The life of a session among other activity *)

(** The calls that can precede the settlement. *)
Inductive call := CReserve (targetQuota : Z) | CMark | CSettle (actualQuota : Z).

Definition call_fits (c : call) : Prop :=
  match c with CReserve x | CSettle x => go_int x | CMark => True end.

Definition run_call (cache : string -> option Token) (c : call) (s : BillingSession)
  : M (option Error * BillingSession) :=
  match c with
  | CReserve target => Reserve cache target s
  | CMark => r ← attempt (MarkProviderStarted s); mret (Plain <$> failure r, s)
  | CSettle actual => '(err, s) ← Settle actual s; mret (Plain <$> err, s)
  end.

(** A session and the database, with what the session's own calls have added to
    its wallet and key, and whether it was told that its provider may be called. *)
Record Conf := mkConf {
  cf_session : BillingSession;
  cf_db : DB;
  cf_wallet : Z;
  cf_key : Z;
  cf_started : bool
}.

Section Life.
Context (cache : string -> option Token) (k : string) (u t : Z).

(** What everybody else may do between two calls: anything that keeps the user
    and the key alive and leaves the record of the request as it is, or closes
    or deletes it while no provider was started. *)
Definition leaves (d d' : DB) : Prop :=
  wf d' /\ live_user d' u = live_user d u /\ live_token d' t = live_token d t /\
  (reservation d' k = reservation d k \/
   (phase_of d k <> PStarted /\ forall r, reservation d' k = Some r -> is_open r = false)).

Inductive step : Conf -> Conf -> Prop :=
  | step_call c call e fs tr err s' st' :
      call_fits call ->
      run_call cache call (cf_session c) e (mkSt (cf_db c) fs tr) = (inr (err, s'), st') ->
      step c (mkConf s' (st_db st')
                (cf_wallet c + (wallet (st_db st') u - wallet (cf_db c) u))
                (cf_key c + (key_remain (st_db st') t - key_remain (cf_db c) t))
                (cf_started c || match call, err with CMark, None => true | _, _ => false end))
  | step_others c d' :
      leaves (cf_db c) d' ->
      step c (mkConf (cf_session c) d' (cf_wallet c) (cf_key c) (cf_started c)).

(** The session's record is open and agrees with the session. *)
Definition backed (s : BillingSession) (d : DB) (r : BillingReservationRecord) : Prop :=
  reservation d k = Some r /\ is_open r = true /\ br_amount r = bs_preConsumedQuota s /\
  of_wallet r = true /\ br_user_id r = u /\ br_token_id r = t.

(** The record is not there, or closed. *)
Definition lost (d : DB) : Prop := forall r, reservation d k = Some r -> is_open r = false.

Definition sound (s : BillingSession) (d : DB) (w key : Z) (started : bool) : Prop :=
  bs_settled s = true \/
  (rid s = k /\ bs_refunded s = false /\ bs_alreadyReserved s = false /\
   is_subscription (bs_funding s) = false /\
   positive_int (bs_preConsumedQuota s) /\ wf d /\ live_user d u = true /\ live_token d t = true /\
   ((lost d /\ started = false) \/
    exists r, backed s d r /\ w = - bs_preConsumedQuota s /\ key = - bs_preConsumedQuota s /\
      (started = true -> in_state BillingReservationStateProviderStarted r = true))).

Context (Ht : 0 < t) (Hk : k <> ""%string).

(** An event on a wallet record of ours posts its amount to both balances. *)
Lemma event_pays d d' ev a subs :
  wf d -> live_user d u = true -> live_token d t = true ->
  enabled d ev -> same_as subs (apply_event ev a d) d' ->
  of_wallet (event_record ev) = true -> br_user_id (event_record ev) = u -> br_token_id (event_record ev) = t ->
  wallet d' u = wallet d u + event_amount ev /\ key_remain d' t = key_remain d t + event_amount ev /\
  wf d' /\ live_user d' u = true /\ live_token d' t = true /\
  reservation d' (br_request_id (event_record ev)) = Some (event_result ev).
Proof.
  intros Hwf Hlu Hlt Hen Hs Hw Hu Htk. pose proof (event_posted d d' ev a subs Hen Hs) as P.
  destruct (posted_balances _ _ _ _ _ _ P) as (Hbw & Hbk & _).
  specialize (Hbw u). specialize (Hbk t). unfold wallet_side, user_moves, key_moves in *.
  rewrite Hw in *. rewrite Hu in *. rewrite Htk in *. rewrite Z.eqb_refl in *.
  rewrite Hlu in Hbw. rewrite Hlt, (proj2 (Z.ltb_lt 0 t) Ht) in Hbk. cbn in Hbw, Hbk.
  split_and!; [done | done | by apply (event_wf d d' ev a subs) | | |].
  - by rewrite (posted_live_user _ _ _ _ _ _ P).
  - by rewrite (posted_live_token _ _ _ _ _ _ P).
  - rewrite (event_reservation d d' ev a subs Hen Hs). by rewrite str_eqb_refl.
Qed.

Lemma sound_others s d d' w key b : sound s d w key b -> leaves d d' -> sound s d' w key b.
Proof.
  intros [Hs|(? & ? & ? & ? & ? & Hwf & Hlu & Hlt & Hrow)] (Hwf' & Hlu' & Hlt' & Hleft); [by left|].
  right. rewrite Hlu', Hlt'. split_and!; try done.
  destruct Hleft as [Hsame|[Hph Hlost]].
  - destruct Hrow as [[Hl ->]|(r & [Hr Hb] & Hrest)]; [left|right].
    + split; [|done]. intros r Hr. apply Hl. by rewrite <- Hsame.
    + exists r. split; [|done]. split; [by rewrite Hsame | done].
  - left. split; [done|]. destruct Hrow as [[_ ->]|(r & [Hr _] & _ & _ & Hst)]; [done|].
    destruct b; [|done]. destruct Hph. specialize (Hst eq_refl). unfold phase_of. rewrite Hr.
    unfold is_closed, in_state in *. apply str_eqb_true in Hst. by rewrite Hst.
Qed.

Lemma settled_stays c s e st err s' st' :
  bs_settled s = true -> run_call cache c s e st = (inr (err, s'), st') -> s' = s.
Proof.
  intros Hs. destruct c; cbn.
  - unfold Reserve. rewrite Hs. cbn. by intros [= <- <- <-].
  - unfold MarkProviderStarted. rewrite Hs. cbn. by intros [= <- <- <-].
  - unfold Settle. rewrite Hs. cbn. by intros [= <- <- <-].
Qed.
(** What holds after a call, with the balances it moved. *)
Definition kept (d : DB) (w key : Z) (b : bool) (c : call) (r : result (option Error * BillingSession)) (st' : St) : Prop :=
  match r with
  | inl _ => True
  | inr (err, s') =>
      sound s' (st_db st') (w + (wallet (st_db st') u - wallet d u))
        (key + (key_remain (st_db st') t - key_remain d t))
        (b || match c, err with CMark, None => true | _, _ => false end)
  end.

Lemma sound_same s d w key b :
  sound s d w key b -> sound s d (w + (wallet d u - wallet d u)) (key + (key_remain d t - key_remain d t)) (b || false).
Proof. by rewrite !Z.sub_diag, !Z.add_0_r, orb_false_r. Qed.

(** A record that is gone or closed stays so under direct changes. *)
Lemma sound_direct s s' d d' w key w' key' :
  sound s d w key false -> lost d -> direct d d' ->
  bs_relayInfo s' = bs_relayInfo s \/ rid s' = rid s ->
  bs_settled s = false -> bs_refunded s' = bs_refunded s -> bs_alreadyReserved s' = bs_alreadyReserved s ->
  is_subscription (bs_funding s') = is_subscription (bs_funding s) ->
  positive_int (bs_preConsumedQuota s') -> sound s' d' w' key' false.
Proof.
  intros [Hs|(Hrid & Hf & Ha & Hsub & Hpos & Hwf & Hlu & Hlt & _)] Hl Hd Hi Hns Hf' Ha' Hsub' Hpos'; [congruence|].
  destruct (direct_facts _ _ Hd) as (Hwf' & Hlu' & Hlt' & Hr'). right.
  rewrite Hf', Ha', Hsub', Hlu', Hlt'.
  assert (rid s' = k) by (destruct Hi as [Hi|Hi]; unfold rid in *; congruence).
  split_and!; try done; [by apply Hwf'|]. left. split; [|done]. intros r. rewrite Hr'. apply Hl.
Qed.

Lemma backed_wallet s d r : backed s d r -> bills_subscription d k = false.
Proof.
  intros (Hr & _ & _ & Hw & _). unfold bills_subscription. rewrite Hr. unfold of_wallet, of_subscription in *.
  apply str_eqb_true in Hw. by rewrite Hw.
Qed.

Lemma mark_kept s d w key b e fs tr :
  sound s d w key b -> bs_settled s = false -> wp (run_call cache CMark s) (kept d w key b CMark) e (mkSt d fs tr).
Proof.
  intros Hs Hns. pose proof Hs as [?|(Hrid & Hf & Ha & Hsub & Hpos & Hwf & Hlu & Hlt & Hrow)]; [congruence|].
  assert (hasReservation s = true) as Hhas by (apply Z.ltb_lt; apply Hpos).
  cbn [run_call]. unfold MarkProviderStarted. rewrite Hns, Hf, Hhas, Ha, Hrid. cbn [orb negb]. wp_step. wp_step.
  wp_step. wp_step. eapply wp_mono; [apply (Mark_spec e d fs tr Hwf k)|].
  intros [err|[]] [d' fs' tr'] H; cbn beta iota.
  - destruct H as (Hd & _ & _). cbn in Hd. subst d'. do 2 wp_step. cbn. by apply sound_same.
  - do 2 wp_step. destruct H as (o & effs & Hok & Hp & _). cbn [st_db kept failure fmap option_fmap option_map].
    inversion Hok as [r Hr Hst|r Hr]; subst; cbn [performed] in Hp; cbn [st_db] in *.
    + cbn in Hp. subst d'. rewrite !Z.sub_diag, !Z.add_0_r, orb_true_r.
      right. split_and!; try done. right. destruct Hrow as [[Hl _]|(r' & Hb & Hw & Hkk & _)].
      * specialize (Hl _ Hr). unfold is_open in Hl. by rewrite Hst, orb_true_r in Hl.
      * exists r'. split_and!; try done. intros _. destruct Hb as [Hr' _]. rewrite Hr in Hr'. by injection Hr' as <-.
    + destruct Hp as [Hen [a Hsame]]. pose proof Hen as [Hrow' Hres]. cbn in Hrow', Hres.
      assert (br_request_id r = k) as Hrk by (exact (proj2 (row_facts _ _ _ Hr))).
      destruct Hrow as [[Hl _]|(r' & Hb & Hw & Hkk & _)].
      { specialize (Hl _ Hr). unfold is_open in Hl. by rewrite Hres in Hl. }
      pose proof Hb as (Hr' & Hopen & Ham & Hwal & Hru & Hrt). rewrite Hr in Hr'. injection Hr' as <-.
      destruct (event_pays d d' _ a false Hwf Hlu Hlt Hen Hsame Hwal Hru Hrt) as (Hwa & Hke & Hwf' & Hlu' & Hlt' & Hrow2).
      cbn in Hwa, Hke, Hrow2. rewrite Hrk in Hrow2.
      right. split_and!; try done. right. eexists. split; [split; [exact Hrow2 | done]|].
      split; [lia|]. split; [lia | done].
Qed.

Lemma not_found_missing s d x err :
  append_error d k x err -> is_err err ErrBillingReservationNotFound = true ->
  (exists r, backed s d r) -> False.
Proof.
  intros Herr Hnf (r & Hr & _ & _ & Hw & _).
  inversion Herr as [H|? [f H]|H|? _ _|? _ _ _ _|? _ _ _|r' ? Hr' _ Hs]; subst; try done; [congruence|].
  rewrite Hr in Hr'. injection Hr' as <-. unfold of_wallet, of_subscription in *.
  apply str_eqb_true in Hw. by rewrite Hw in Hs.
Qed.

Lemma i64_between a b : go_int a -> go_int b -> i64 (a - b) = a - b.
Proof. unfold go_int. intros Ha Hb. apply i64_small. unfold in_i64, min_int64, max_int64. lia. Qed.

(** The session a reservation of [delta] more leaves. *)
Lemma grown_facts delta s :
  bs_settled (grown_session delta s) = bs_settled s /\ bs_refunded (grown_session delta s) = bs_refunded s /\
  bs_alreadyReserved (grown_session delta s) = bs_alreadyReserved s /\ rid (grown_session delta s) = rid s /\
  bs_funding (grown_session delta s) = bs_funding s /\
  bs_preConsumedQuota (grown_session delta s) = i64 (bs_preConsumedQuota s + delta).
Proof. unfold grown_session, syncRelayInfo, rid. cbn. by destruct (bs_funding s). Qed.

(** Without a record only the wallet and the key are touched, directly. *)
Lemma wp_reserveWithoutRecord delta s Q e d fs tr :
  is_subscription (bs_funding s) = false ->
  (forall failed funding d' fs' tr', direct d d' -> is_subscription funding = false ->
     Q (inr (failed, funding)) (mkSt d' fs' tr')) ->
  wp (reserveWithoutRecord cache delta s) Q e (mkSt d fs tr).
Proof.
  intros Hsub HQ. unfold reserveWithoutRecord. destruct (bs_funding s) as [v c|sub] eqn:Ef; [|done]. cbn [reserveFunding].
  wp_step. wp_step. wp_step. apply wp_direct; [auto with respects|]. intros [err|[]] d1 f1 t1 D1; cbn beta iota.
  { wp_steps. apply HQ; done. }
  wp_step. cbn beta iota. wp_step. unfold reserveToken. destruct (_ || _).
  { wp_steps. by apply HQ. }
  wp_step. wp_step. apply wp_direct; [auto with respects|]. intros [err|[]] d2 f2 t2 D2; cbn beta iota;
    [|wp_steps; apply HQ; [by etrans | done]].
  wp_step. cbn beta iota. cbn [rollbackFundingReserve funding_grow]. wp_step. wp_step. wp_step.
  apply wp_direct; [auto with respects|].
  intros r d3 f3 t3 D3. wp_steps; (apply HQ; [do 2 (etrans; [done|]); done | by destruct r]).
Qed.

Lemma reserve_kept target s d w key b e fs tr :
  go_int target -> sound s d w key b -> bs_settled s = false ->
  wp (run_call cache (CReserve target) s) (kept d w key b (CReserve target)) e (mkSt d fs tr).
Proof.
  intros Hfit Hs Hns. pose proof Hs as [?|(Hrid & Hf & Ha & Hsub & Hpos & Hwf & Hlu & Hlt & Hrow)]; [congruence|].
  cbn [run_call]. unfold Reserve. rewrite Hns, Hf. cbn [orb]. wp_step.
  { wp_step. by apply sound_same. }
  apply Z.leb_gt in Heqb0. unfold positive_int in Hpos. rewrite i64_between by (unfold go_int in *; lia).
  set (delta := target - bs_preConsumedQuota s). rewrite (proj2 (Z.leb_gt delta 0)) by lia.
  assert (i64 (bs_preConsumedQuota s + delta) = target) as Hnew
    by (unfold delta; rewrite i64_small; unfold in_i64, min_int64, max_int64, go_int in *; lia).
  assert (0 < delta /\ delta = target - bs_preConsumedQuota s) as [Hpd Hdd] by (split; [unfold delta; lia | done]).
  clearbody delta. wp_step. wp_step. rewrite Hrid. eapply wp_mono; [apply (Append_spec e d fs tr Hwf k delta)|].
  intros [err|[]] [d' fs' tr'] H; cbn beta iota.
  - destruct H as (Hd & _ & Herr). cbn in Hd. subst d'.
    destruct (is_err err ErrBillingReservationNotFound) eqn:Hnf; cbn [negb]; [|wp_step; by apply sound_same].
    destruct Hrow as [[Hl ->]|(r & Hb & _)]; [|by destruct (not_found_missing s d delta err Herr Hnf (ex_intro _ r Hb))].
    wp_step. apply wp_reserveWithoutRecord; [done|]. intros failed funding d1 f1 t1 D1 Hfsub. cbn beta iota.
    destruct failed as [er|]; wp_step; cbn [kept st_db]; rewrite orb_false_r.
    + eapply (sound_direct s); try done; [by left | cbn; by rewrite Hfsub, Hsub].
    + match goal with |- sound (grown_session _ ?s1) _ _ _ _ => destruct (grown_facts delta s1) as (G1 & G2 & G3 & G4 & G5 & G6) end.
      eapply (sound_direct s); [exact Hs | exact Hl | exact D1 | right; rewrite G4; reflexivity | exact Hns
        | rewrite G2; by rewrite Hf | rewrite G3; reflexivity | rewrite G5; cbn; by rewrite Hfsub, Hsub |].
      rewrite G6. cbn. rewrite Hnew. unfold positive_int, go_int in *. lia.
  - destruct H as (o & effs & Hok & Hp & _). wp_step. cbn [kept st_db]. rewrite orb_false_r.
    inversion Hok as [Hle|r key' Hr]; subst o effs; [lia|]. cbn [performed st_db] in Hp.
    destruct Hp as [Hen [a Hsame]]. pose proof Hen as (Hrow' & Hres & _).
    assert (br_request_id r = k) as Hrk by (exact (proj2 (row_facts _ _ _ Hr))).
    destruct Hrow as [[Hl _]|(r' & Hb & Hw & Hkk & Hst)].
    { specialize (Hl _ Hr). unfold is_open in Hl. cbn in Hres. by rewrite Hres in Hl. }
    pose proof Hb as (Hr' & Hopen & Ham & Hwal & Hru & Hrt). rewrite Hr in Hr'. injection Hr' as <-.
    destruct (event_pays d d' _ a _ Hwf Hlu Hlt Hen Hsame Hwal Hru Hrt) as (Hwa & Hke & Hwf' & Hlu' & Hlt' & Hrow2).
    cbn in Hwa, Hke, Hrow2. rewrite Hrk in Hrow2. destruct (grown_facts delta s) as (G1 & G2 & G3 & G4 & G5 & G6).
    right. rewrite G2, G3, G4, G5, G6, Hnew. split_and!; try done; [unfold positive_int, go_int in *; lia|].
    right. eexists. split; [split; [exact Hrow2|]|].
    + rewrite G6, Hnew. cbn. rewrite Ham, Hnew. done.
    + split; [lia|]. split; [lia|]. intros Hb1. specialize (Hst Hb1). cbn in Hres. unfold in_state in *.
      apply str_eqb_true in Hst. by rewrite Hst in Hres.
Qed.

Lemma wp_settleWithoutRecord delta s Q e d fs tr :
  is_subscription (bs_funding s) = false ->
  (forall err d' fs' tr', direct d d' -> Q (inr (Some err, s)) (mkSt d' fs' tr')) ->
  (forall err s' d' fs' tr', bs_settled s' = true -> Q (inr (err, s')) (mkSt d' fs' tr')) ->
  wp (settleWithoutRecord delta s) Q e (mkSt d fs tr).
Proof.
  intros Hsub Herr Hok. unfold settleWithoutRecord. wp_step.
  assert (forall d' fs' tr', wp (tokenErr ← (if ri_IsPlayground (bs_relayInfo (s <| bs_fundingSettled := true |>)) then mret (inr tt)
                else attempt (adjust_key (bs_relayInfo (s <| bs_fundingSettled := true |>)) delta));
      mret (failure tokenErr, end_settled (post_delta delta (s <| bs_fundingSettled := true |>)))) Q e (mkSt d' fs' tr')) as Hend.
  { intros. wp_step. destruct (ri_IsPlayground _).
    - wp_steps. by apply Hok.
    - wp_step. apply wp_direct; [auto with respects|]. intros. wp_steps. by apply Hok. }
  destruct (bs_fundingSettled s).
  - wp_step. cbn beta iota. apply Hend.
  - wp_step. apply wp_direct.
    { unfold funding_Settle. destruct (bs_funding s); [|done]. respects_auto. }
    intros [err|[]] d1 f1 t1 D1; cbn beta iota; [wp_step; by apply Herr | apply Hend].
Qed.

(** The settlement of a session: it ends settled, or it did not change the
    session, and then the tables only if the record was gone. *)
Lemma settle_cases actual s d w key b e fs tr :
  go_int actual -> sound s d w key b -> bs_settled s = false ->
  wp (Settle actual s) (fun r st' => match r with
    | inl _ => False
    | inr (err, s') =>
        (err <> None /\ (bs_settled s' = true \/
           (s' = s /\ (st_db st' = d \/ (lost d /\ b = false /\ direct d (st_db st')))))) \/
        (err = None /\ bs_settled s' = true /\ (b = true ->
           exists r a, backed s d r /\ enabled d (EvSettled r (actual - bs_preConsumedQuota s) (env_now e)) /\
             same_as false (apply_event (EvSettled r (actual - bs_preConsumedQuota s) (env_now e)) a d) (st_db st')))
    end) e (mkSt d fs tr).
Proof.
  intros Hfit Hs Hns. pose proof Hs as [?|(Hrid & Hf & Ha & Hsub & Hpos & Hwf & Hlu & Hlt & Hrow)]; [congruence|].
  assert (hasReservation s = true) as Hhas by (apply Z.ltb_lt; apply Hpos).
  unfold Settle. rewrite Hns. unfold positive_int in Hpos. rewrite i64_between by (unfold go_int in *; lia). cbv zeta.
  set (delta := actual - bs_preConsumedQuota s). rewrite Hhas, Hrid.
  assert (in_i64 (- delta)) as Hin by (unfold delta, in_i64, min_int64, max_int64, go_int in *; lia).
  (* what an answered settlement did *)
  assert (forall o effs d', settle_ok e d k delta tt o effs -> performed false (bills_subscription d k) o d d' ->
    b = true -> exists r a, backed s d r /\ enabled d (EvSettled r delta (env_now e)) /\
      same_as false (apply_event (EvSettled r delta (env_now e)) a d) d') as Hdone.
  { intros o effs d' Hok Hp ->. destruct Hrow as [[_ ?]|(r & Hb & _ & _ & Hst)]; [done|]. specialize (Hst eq_refl).
    rewrite (backed_wallet s d r Hb) in Hp. pose proof Hb as (Hr & Hopen & _).
    inversion Hok as [r' Hr' Hcl|r' key' Hr']; subst o; rewrite Hr in Hr'; injection Hr' as <-.
    - by rewrite (open_not_closed r Hopen) in Hcl.
    - destruct Hp as [Hen [a Hsame]]. by exists r, a. }
  assert (forall x err, settle_error d k x err -> is_err err ErrBillingReservationNotFound = true -> lost d /\ b = false) as Hmiss.
  { intros x err Herr Hnf. destruct Hrow as [?|(r & (Hr & _ & _ & Hw & _) & _)]; [done|]. exfalso.
    inversion Herr as [?|? [f ?]|H|? _ _ _ _|? _ _ _|r' ? Hr' _ Hs']; subst; try done; [congruence|].
    rewrite Hr in Hr'. injection Hr' as <-. unfold of_wallet, of_subscription in *.
    apply str_eqb_true in Hw. by rewrite Hw in Hs'. }
  destruct (Z.eqb_spec delta 0) as [Hz|Hz].
  - wp_step. wp_step. rewrite <- Hz. eapply wp_mono; [by apply (Settle_spec e d fs tr Hwf k delta)|].
    intros [err|[]] [d' fs' tr'] H; cbn beta iota.
    + destruct H as (Hd & _ & Herr). cbn in Hd. subst d'.
      destruct (is_err err ErrBillingReservationNotFound) eqn:Hnf; wp_step; [right | left].
      * destruct (Hmiss _ _ Herr Hnf) as [_ ->]. by split_and!.
      * split; [done | by left].
    + wp_step. right. split_and!; [done..|]. destruct H as (o & effs & Hok & Hp & _). by apply (Hdone o effs).
  - wp_step. wp_step. eapply wp_mono; [by apply (Settle_spec e d fs tr Hwf k delta)|].
    intros [err|[]] [d' fs' tr'] H; cbn beta iota.
    + destruct H as (Hd & _ & Herr). cbn in Hd. subst d'.
      destruct (is_err err ErrBillingReservationNotFound) eqn:Hnf.
      * destruct (Hmiss _ _ Herr Hnf) as [Hl ->]. apply wp_settleWithoutRecord; [done | |].
        -- intros er d1 f1 t1 D1. left. split; [done|]. right. split; [done|]. by right.
        -- intros er s1 d1 f1 t1 Hs1. destruct er; [left | right]; split_and!; try done. by left.
      * wp_step. left. split; [done|]. right. by split; [|left].
    + wp_step. right. split_and!; [done | done |]. destruct H as (o & effs & Hok & Hp & _). by apply (Hdone o effs).
Qed.

Lemma call_kept c s d w key b e fs tr :
  call_fits c -> sound s d w key b -> bs_settled s = false ->
  wp (run_call cache c s) (kept d w key b c) e (mkSt d fs tr).
Proof.
  intros Hfit Hs Hns. destruct c as [target| |actual].
  - by apply reserve_kept.
  - by apply mark_kept.
  - cbn [run_call]. wp_step. eapply wp_mono; [by eapply settle_cases|].
    intros [?|[err s']] st' H; [done|]. cbn beta iota. wp_step. cbn [kept].
    destruct H as [(_ & [H|(-> & [Hd|(Hl & -> & D)])])|(_ & H & _)]; [by left | | | by left].
    + rewrite Hd. by apply sound_same.
    + rewrite orb_false_r. pose proof Hs as [?|(_ & _ & _ & _ & Hpos & _)]; [congruence|].
      eapply (sound_direct s); try done. by left.
Qed.

Lemma step_sound c c' :
  step c c' -> sound (cf_session c) (cf_db c) (cf_wallet c) (cf_key c) (cf_started c) ->
  sound (cf_session c') (cf_db c') (cf_wallet c') (cf_key c') (cf_started c').
Proof.
  intros [c0 call e fs tr err s' st' Hfit E|c0 d' Hl] Hs; cbn in *; [|by eapply sound_others].
  destruct (bs_settled (cf_session c0)) eqn:Hset.
  - rewrite (settled_stays _ _ _ _ _ _ _ Hset E). by left.
  - exact (wp_use _ _ _ _ _ _ (call_kept call _ _ _ _ _ e fs tr Hfit Hs Hset) E).
Qed.

Lemma steps_sound c c' :
  rtc step c c' -> sound (cf_session c) (cf_db c) (cf_wallet c) (cf_key c) (cf_started c) ->
  sound (cf_session c') (cf_db c') (cf_wallet c') (cf_key c') (cf_started c').
Proof. induction 1; [done|]. intros. by eapply IHrtc, step_sound. Qed.
End Life.

(** ** Creation *)

Section Creation.
Context (FormatQuota : Z -> string) (info : RelayInfo) (q : Z) (e : Env).
Context (Hq : positive_int q).
Abbreviation k := (ri_RequestId info).
Abbreviation u := (ri_UserId info).
Abbreviation t := (ri_TokenId info).

(** A new wallet session holds a record of its own. *)
Definition opened (d : DB) (s : BillingSession) (st : St) : Prop :=
  bs_alreadyReserved s = false -> 0 < t -> wf d ->
  k <> ""%string /\
  sound k u t s (st_db st) (wallet (st_db st) u - wallet d u) (key_remain (st_db st) t - key_remain d t) false.

Lemma reserve_named d fs tr x s' key unl :
  ReserveWalletBillingQuota k u t key q unl e (mkSt d fs tr) = (inr x, s') -> k <> ""%string.
Proof. intros H Hz. unfold ReserveWalletBillingQuota, validateBillingReservationArgs in H. by rewrite Hz in H. Qed.

Lemma tryWallet_opened i d fs tr :
  wf d -> ri_RequestId i = k -> ri_UserId i = u -> ri_TokenId i = t ->
  wp (tryWallet FormatQuota q i) (fun r st' => match r with
    | inl _ => True
    | inr (inl _, _) => st_db st' = d
    | inr (inr s, _) => opened d s st'
    end) e (mkSt d fs tr).
Proof.
  intros Hwf Hk Hu Ht. unfold tryWallet. wp_step. wp_step.
  apply (wp_keeps (fun d => d)); [unfold GetUserQuota; respects_auto|]. intros [err|uq] d1 f1 ->; cbn beta iota; [by wp_step|].
  wp_step; [by wp_step|]. wp_step; [by wp_step|]. wp_step. unfold preConsume.
  unfold positive_int in Hq. rewrite (proj2 (Z.ltb_lt 0 q)) by lia. wp_step. wp_step.
  cbn [reserve_model new_session bs_relayInfo bs_funding]. cbn [ri_RequestId ri_UserId ri_TokenId ri_TokenKey ri_TokenUnlimited].
  rewrite Hk, Hu, Ht.
  destruct (ReserveWalletBillingQuota k u t (ri_TokenKey i) q (ri_TokenUnlimited i) e (mkSt d f1 tr)) as [r st'] eqn:E.
  unfold wp at 1. rewrite E.
  pose proof (wp_use _ _ _ _ _ _ (ReserveWallet_spec e d f1 tr Hwf k u t (ri_TokenKey i) q (ri_TokenUnlimited i)) E) as H.
  destruct r as [err|reserved]; cbn beta iota.
  { wp_steps. by destruct H as (? & _). }
  wp_steps. intros Ha Htp _. split; [by eapply reserve_named|].
  destruct H as (o & effs & Hok & Hp & _).
  inversion Hok as [Hskip|j]; subst o reserved; [done|]. destruct Hp as [Hen [a Hsame]].
  pose proof Hen as (_ & _ & Hres & _ & _ & Hamt & _ & Hcu & Hck).
  specialize (Hcu eq_refl). apply andb_true_iff in Hcu as [Hlu _].
  assert (live_token d t = true) as Hlt.
  { unfold key_covers in Hck. cbn in Hck. rewrite (proj2 (Z.leb_gt t 0) Htp), (proj2 (Z.eqb_neq q 0)) in Hck by lia.
    by apply andb_true_iff in Hck as [? _]. }
  destruct (event_pays u t Htp d (st_db st') _ a false Hwf Hlu Hlt Hen Hsame eq_refl eq_refl eq_refl)
    as (Hwa & Hke & Hwf' & Hlu' & Hlt' & Hrow).
  cbn in Hwa, Hke, Hrow. right. split_and!; try done. right. eexists. split; [split; [exact Hrow|]|].
  - by split_and!.
  - split; [cbn; lia|]. split; [cbn; lia | done].
Qed.

Lemma trySubscription_kind i d fs tr :
  wf d ->
  wp (trySubscription q i) (fun r st' => match r with
    | inl _ => True
    | inr (inl _) => st_db st' = d
    | inr (inr s) => is_subscription (bs_funding s) = true
    end) e (mkSt d fs tr).
Proof.
  intros Hwf. unfold trySubscription. cbv zeta. unfold positive_int in Hq. rewrite (proj2 (Z.leb_gt q 0)) by lia.
  unfold preConsume. rewrite (proj2 (Z.ltb_lt 0 q)) by lia. wp_step. wp_step.
  cbn [reserve_model new_session bs_relayInfo bs_funding]. wp_step.
  eapply wp_mono; [by apply ReserveSubscription_spec|].
  intros [err|[res reserved]] st' H; wp_steps; [by destruct H as (? & _) | done].
Qed.

Lemma new_session_opened d fs tr :
  wf d ->
  wp (NewBillingSession FormatQuota info q) (fun r st' => match r with
    | inr (inr s) => is_subscription (bs_funding s) = false -> opened d s st'
    | _ => True
    end) e (mkSt d fs tr).
Proof.
  intros Hwf. unfold NewBillingSession. cbv zeta.
  assert (forall d' fs' tr' i, d' = d -> wp (trySubscription q i) (fun r st' => match r with
    | inr (inr s) => is_subscription (bs_funding s) = false -> opened d s st'
    | _ => True end) e (mkSt d' fs' tr')) as Hsub.
  { intros d' fs' tr' i ->. eapply wp_mono; [by apply trySubscription_kind|]. intros [|[|s]] st' H; [done..|]. by rewrite H. }
  assert (forall d' fs' tr', d' = d -> wp ('(r, _) ← tryWallet FormatQuota q info; mret r) (fun r st' => match r with
    | inr (inr s) => is_subscription (bs_funding s) = false -> opened d s st'
    | _ => True end) e (mkSt d' fs' tr')) as Hwal.
  { intros d' fs' tr' ->. wp_step. eapply wp_mono; [by apply tryWallet_opened|].
    intros [|[[|s] i]] st' H; [done|..]; wp_steps; done. }
  wp_step; [by apply Hsub|]. wp_step; [by apply Hwal|]. wp_step.
  - wp_step. eapply wp_mono; [by apply tryWallet_opened|]. intros [|[[err|s] i]] [d' fs' tr'] H; cbn beta iota; [done| |].
    + cbn in H. subst d'. wp_step; [by apply Hsub | by wp_step].
    + by wp_step.
  - unfold subscription_first. do 2 wp_step. apply (wp_keeps (fun d => d)); [unfold HasActiveUserSubscription; respects_auto|].
    intros [err|[]] d1 f1 ->; cbn beta iota; [by wp_step | | by apply Hwal].
    wp_step. eapply wp_mono; [by apply trySubscription_kind|]. intros [|[err|s]] [d' fs' tr'] H; cbn beta iota; [done| |].
    + cbn in H. subst d'. wp_step; [by wp_step|]. do 2 wp_step.
      apply (wp_keeps (fun d => d)); [unfold UserActiveSubscriptionsAllowWalletOverflow; respects_auto|].
      intros [err'|[]] d2 f2 ->; cbn beta iota; [by wp_step | by apply Hwal | by wp_step].
    + wp_step. by rewrite H.
Qed.
End Creation.

(** ** The other ledger operations are such activity *)

Section Others.
Context (k : string) (u t : Z).

Lemma leaves_trans d1 d2 d3 : leaves k u t d1 d2 -> leaves k u t d2 d3 -> leaves k u t d1 d3.
Proof.
  intros (_ & Hu1 & Ht1 & H1) (Hwf & Hu2 & Ht2 & H2). split_and!; [done | congruence | congruence |].
  destruct H1 as [H1|[P1 L1]], H2 as [H2|[P2 L2]].
  - left. congruence.
  - right. split; [|done]. unfold phase_of in *. by rewrite <- H1.
  - right. split; [done|]. intros r. rewrite H2. apply L1.
  - by right.
Qed.

Lemma leaves_same d d' : wf d -> same_as true d d' -> leaves k u t d d'.
Proof.
  intros Hwf Hs. destruct (same_balances _ _ Hs) as (_ & _ & _ & Hu & Ht & Hr).
  split_and!; [by apply (same_as_wf true d) | by rewrite Hu | by rewrite Ht |]. left. by apply reservation_ext.
Qed.

Lemma leaves_event d d' ev a subs :
  wf d -> enabled d ev -> same_as subs (apply_event ev a d) d' ->
  (br_request_id (event_record ev) = k -> phase_of d k <> PStarted /\ is_open (event_result ev) = false) ->
  leaves k u t d d'.
Proof.
  intros Hwf Hen Hs Hk. pose proof (event_posted d d' ev a subs Hen Hs) as P.
  split_and!; [by apply (event_wf d d' ev a subs) | by rewrite (posted_live_user _ _ _ _ _ _ P)
              | by rewrite (posted_live_token _ _ _ _ _ _ P) |].
  rewrite (event_reservation d d' ev a subs Hen Hs).
  destruct (str_eqb (br_request_id (event_record ev)) k) eqn:E; [|by left].
  apply str_eqb_true in E. destruct (Hk E) as [Hp Ho]. right. split; [done|]. intros r [= <-]. done.
Qed.

Lemma leaves_contract {A} quiet subs d tr bad ok (r : result A) s' :
  wf d -> contract quiet subs d tr bad ok r s' ->
  (forall v ev effs, ok v (Some ev) effs -> enabled d ev -> br_request_id (event_record ev) <> k) ->
  leaves k u t d (st_db s').
Proof.
  intros Hwf H Hk. destruct r as [err|v].
  - destruct H as (-> & _). by apply leaves_same.
  - destruct H as (o & effs & Hok & Hp & _). destruct o as [ev|]; cbn [performed] in Hp.
    + destruct Hp as [Hen [a Ha]]. eapply leaves_event; [done..|]. intros E. by destruct (Hk _ _ _ Hok Hen).
    + apply leaves_same; [done|]. destruct quiet; [done|]. cbn in Hp. by rewrite Hp.
Qed.

Lemma leaves_released recs d d' now :
  wf d -> ledger_run d (List.map (fun r => EvReleased r now) recs) d' ->
  (forall r, In r recs -> in_state BillingReservationStateReserved r = true) -> leaves k u t d d'.
Proof.
  intros Hwf Hrun. remember (List.map _ recs) as evs eqn:Heq. revert recs Heq.
  induction Hrun as [d|d d1 evs d' Hs Hrun IH|d ev a d1 evs d' Hen Hs Hrun IH]; intros recs Heq Hres.
  - by apply leaves_same.
  - eapply leaves_trans; [by apply leaves_same|]. eapply IH; [by apply (same_as_wf true d) | done | done].
  - destruct recs as [|r recs]; [done|]. injection Heq as -> ->.
    eapply leaves_trans; [|eapply IH; [by apply (event_wf d d1 (EvReleased r now) a true) | done | intros; apply Hres; by right]].
    eapply leaves_event; [done..|]. cbn. intros E. rewrite <- E. destruct Hen as [Hr _]. split; [|done].
    unfold phase_of. cbn in Hr. rewrite Hr. by rewrite (Hres r (or_introl eq_refl)).
Qed.

Definition op_request (o : ledger_op) : option string :=
  match o with
  | OpReserveWallet rid _ _ _ _ _ | OpReserveSubscription rid _ _ _ _ _ | OpAppend rid _ | OpMark rid
  | OpSettle rid _ | OpRelease rid _ | OpReleaseUnsent rid _ => Some rid
  | OpReleaseStale _ _ => None
  end.

Lemma row_request d rid r : reservation d rid = Some r -> rid <> k -> br_request_id r <> k.
Proof. intros Hr. by rewrite (proj2 (row_facts _ _ _ Hr)). Qed.

(** Every operation on another request, and the recovery task. *)
Lemma ledger_op_leaves o e d fs tr :
  wf d -> op_fits d o -> op_request o <> Some k ->
  leaves k u t d (st_db (snd (run_op o e (mkSt d fs tr)))).
Proof.
  intros Hwf Hfit Hk.
  assert (wp (run_op o) (fun _ s' => leaves k u t d (st_db s')) e (mkSt d fs tr)) as H;
    [|unfold wp in H; by destruct (run_op o e _)].
  destruct o as [rid ? ? ? ? ?|rid ? ? ? ? ?|rid ?|rid|rid ?|rid ?|rid ?|older limit]; cbn [run_op op_request] in *;
    try (assert (rid <> k) as Hne by congruence); try apply wp_discard.
  - eapply wp_mono; [by apply ReserveWallet_spec|]. intros r s' H. eapply leaves_contract; [done | exact H |].
    intros v ev effs Hok _. by inversion Hok.
  - eapply wp_mono; [by apply ReserveSubscription_spec|]. intros r s' H. eapply leaves_contract; [done | exact H |].
    intros v ev effs Hok _. by inversion Hok.
  - eapply wp_mono; [by apply Append_spec|]. intros r s' H. eapply leaves_contract; [done | exact H |].
    intros v ev effs Hok _. inversion Hok; subst. by eapply row_request.
  - eapply wp_mono; [by apply Mark_spec|]. intros r s' H. eapply leaves_contract; [done | exact H |].
    intros v ev effs Hok _. inversion Hok; subst. by eapply row_request.
  - eapply wp_mono; [by apply Settle_spec|]. intros r s' H. eapply leaves_contract; [done | exact H |].
    intros v ev effs Hok _. inversion Hok; subst. by eapply row_request.
  - eapply wp_mono; [by apply release_spec|]. intros r s' H. eapply leaves_contract; [done | exact H |].
    intros v ev effs Hok _. inversion Hok; subst. by eapply row_request.
  - eapply wp_mono; [by apply release_spec|]. intros r s' H. eapply leaves_contract; [done | exact H |].
    intros v ev effs Hok _. inversion Hok; subst. by eapply row_request.
  - unfold ReleaseStaleBillingReservations. cbv zeta. do 2 wp_step. cbn beta iota. wp_step.
    apply wp_find_all; [intros; by apply leaves_same|]. intros f1. cbn beta iota. cbn [t_get Reservations].
    set (cutoff := i64 _). set (rows := List.filter (stale_reserved cutoff) (db_reservations d)).
    match goal with |- wp (release_each ?l 0) _ _ _ => set (snapshot := l) end.
    assert (forall r, In r snapshot -> In r (db_reservations d) /\ stale_reserved cutoff r = true) as Hrows
      by (intros r Hr; by apply (snapshot_in updated_order) in Hr).
    eapply wp_mono; [apply release_each_spec; [done | |]|].
    + apply take_unique. eapply perm_unique; [symmetry; apply merge_sort_Permutation|].
      apply filter_unique, wf_requests, Hwf.
    + intros r Hr. apply (find_unique _ _ has_request_spec); [apply wf_requests, Hwf | by apply Hrows | done].
    + intros res s' (recs & Hrun & Hin & _). eapply leaves_released; [done | exact Hrun |].
      intros r Hr. destruct (Hrows r (Hin r Hr)) as [_ Hst]. by apply andb_true_iff in Hst as [? _].
Qed.
End Others.

(** ** What a request pays *)

(** The configuration in which [NewBillingSession] leaves a request. *)
Definition opening (info : RelayInfo) (d0 : DB) (s0 : BillingSession) (st0 : St) : Conf :=
  mkConf s0 (st_db st0) (wallet (st_db st0) (ri_UserId info) - wallet d0 (ri_UserId info))
    (key_remain (st_db st0) (ri_TokenId info) - key_remain d0 (ri_TokenId info)) false.

Section Session.
Context (cache : string -> option Token) (FormatQuota : Z -> string).
Context (info : RelayInfo) (q : Z) (e0 : Env) (f0 : list (option fault)) (tr0 : list effect) (d0 : DB).
Context (s0 : BillingSession) (st0 : St) (c : Conf).
Abbreviation k := (ri_RequestId info).
Abbreviation u := (ri_UserId info).
Abbreviation t := (ri_TokenId info).
Context (Hwf : wf d0) (Hq : positive_int q) (Ht : 0 < t).
Context (Hnew : NewBillingSession FormatQuota info q e0 (mkSt d0 f0 tr0) = (inr (inr s0), st0)).
Context (Hown : bs_alreadyReserved s0 = false) (Hsrc : is_subscription (bs_funding s0) = false).
Context (Hsteps : rtc (step cache k u t) (opening info d0 s0 st0) c).

Lemma session_sound :
  k <> ""%string /\ sound k u t (cf_session c) (cf_db c) (cf_wallet c) (cf_key c) (cf_started c).
Proof.
  pose proof (wp_use _ _ _ _ _ _ (new_session_opened FormatQuota info q e0 Hq d0 f0 tr0 Hwf) Hnew) as H.
  cbn beta iota in H. destruct (H Hsrc Hown Ht Hwf) as [Hk Hs]. split; [done|].
  by apply (steps_sound cache k u t Ht Hk (opening info d0 s0 st0)).
Qed.

(** C8. A request pays what it used: a wallet session that was told to call
    its provider and whose settlement answered without error has taken exactly
    the actual cost, from the wallet and from the key, over its whole life -
    whatever reservations were added before, whatever calls failed on the way,
    and whatever other requests, the recovery task and anybody else did in
    between. *)
Theorem session_charges_actual actual e fs tr s' st' :
  cf_started c = true -> bs_settled (cf_session c) = false -> go_int actual ->
  Settle actual (cf_session c) e (mkSt (cf_db c) fs tr) = (inr (None, s'), st') ->
  cf_wallet c + (wallet (st_db st') u - wallet (cf_db c) u) = - actual /\
  cf_key c + (key_remain (st_db st') t - key_remain (cf_db c) t) = - actual /\
  phase_of (st_db st') k = PClosed.
Proof.
  intros Hst Hns Hfit E. destruct session_sound as [Hk Hs].
  pose proof (wp_use _ _ _ _ _ _ (settle_cases k u t Hk actual _ _ _ _ _ e fs tr Hfit Hs Hns) E) as H.
  cbn beta iota in H. destruct H as [(? & _)|(_ & _ & H)]; [done|].
  destruct (H Hst) as (r & a & Hb & Hen & Hsame).
  pose proof Hs as [?|(_ & _ & _ & _ & Hpos & Hwfc & Hlu & Hlt & Hrow)]; [congruence|].
  pose proof Hb as (Hr & _ & Ham & Hw & Hu & Htk).
  destruct (event_pays u t Ht _ _ _ a false Hwfc Hlu Hlt Hen Hsame Hw Hu Htk) as (Hwa & Hke & _ & _ & _ & Hrow').
  destruct Hrow as [[_ ?]|(r' & _ & Hcw & Hck & _)]; [congruence|].
  cbn in Hwa, Hke, Hrow'. rewrite Hwa, Hke, Hcw, Hck. split_and!; [lia | lia |].
  unfold phase_of. by rewrite <- (proj2 (row_facts _ _ _ Hr)), Hrow'.
Qed.

(** After the provider was started a session cannot reserve more: raising
    its reservation always fails and changes nothing; without a driver failure
    the error is the conflict of the record's state. *)
Theorem reserve_after_start_fails target e fs tr err s' st' :
  cf_started c = true -> bs_settled (cf_session c) = false ->
  go_int target -> bs_preConsumedQuota (cf_session c) < target ->
  Reserve cache target (cf_session c) e (mkSt (cf_db c) fs tr) = (inr (err, s'), st') ->
  err <> None /\ s' = cf_session c /\ st_db st' = cf_db c /\
  (fs = [] -> err = Some (Plain ErrBillingReservationStateConflict)).
Proof.
  intros Hst Hns Hfit Hmore E. destruct session_sound as [Hk Hs].
  pose proof Hs as [?|(Hrid & Hf & _ & _ & Hpos & Hwfc & _ & _ & Hrow)]; [congruence|].
  destruct Hrow as [[_ ?]|(r & Hb & _ & _ & Hstarted)]; [congruence|]. specialize (Hstarted Hst).
  set (delta := target - bs_preConsumedQuota (cf_session c)). assert (0 < delta) as Hd by (unfold delta; lia).
  pose proof (Append_spec e (cf_db c) fs tr Hwfc k delta) as Ha. unfold wp in Ha.
  pose proof (Append_faultless k delta e (mkSt (cf_db c) fs tr)) as Hclean.
  unfold Reserve in E. unfold positive_int in Hpos. rewrite Hns, Hf, i64_between in E by (unfold go_int in *; lia).
  cbn [orb] in E. rewrite (proj2 (Z.leb_gt target _)) in E by lia. fold delta in E. cbv zeta in E.
  rewrite (proj2 (Z.leb_gt delta 0)), Hrid in E by lia. unfold mbind, M_bind, attempt in E.
  destruct (AppendBillingReservation k delta e (mkSt (cf_db c) fs tr)) as [[er|[]] [d1 f1 t1]].
  - destruct Ha as (Hd1 & _ & Herr). cbn in Hd1. subst d1.
    assert (is_err er ErrBillingReservationNotFound = false) as Hnf.
    { destruct (is_err er ErrBillingReservationNotFound) eqn:Hnf; [|done].
      destruct (not_found_missing k u t Hk (cf_session c) (cf_db c) delta er Herr Hnf). by exists r. }
    rewrite Hnf in E. cbn [negb] in E. injection E as <- <- <-. split_and!; try done.
    intros ->. destruct (Hclean eq_refl) as [_ Hno]. destruct Hb as (Hr & Hopen & _ & Hw & _).
    assert (in_state BillingReservationStateReserved r = false) as Hres
      by (unfold in_state in *; apply str_eqb_true in Hstarted; by rewrite Hstarted).
    inversion Herr as [H|? [x H]|H|r' Hr' _|r' Hr' H|r' Hr' H|r' ? Hr' H]; subst;
      try (rewrite Hr in Hr'; injection Hr' as <-); try congruence. by destruct (Hno x).
  - destruct Ha as (o & effs & Hok & Hp & _). exfalso.
    inversion Hok as [Hle|r' key' Hr']; subst o effs; [lia|]. destruct Hp as [(Hrow' & Hres & _) _].
    destruct Hb as (Hr & _). rewrite Hr in Hr'. injection Hr' as <-.
    unfold in_state in *. cbn in Hres. apply str_eqb_true in Hstarted. by rewrite Hstarted in Hres.
Qed.
End Session.

Module SessionDemo.
(** [Demo.env] without Redis. *)
Definition env : Env :=
  mkEnv Demo.now (fixed_zone 0) false false false false true true false (S754_finite false 500000 0)
    (fun _ => None) (fun _ => inl ErrRecordNotFound).
Definition info : RelayInfo :=
  mkRelayInfo "req-1" 1 7 "sk-limited" false false "wallet_only" None 0 0 0 "" 0 0 0 0 0 0 "".
Definition cache (_ : string) : option Token := None.
Definition text (_ : Z) : string := ""%string.

Definition created := NewBillingSession text info 100 env (mkSt Demo.db [] []).
Definition blank_session : BillingSession := new_session info (OfWallet 0 0).
Definition s0 : BillingSession := match fst created with inr (inr s) => s | _ => blank_session end.
Definition start : Conf := opening info Demo.db s0 (snd created).

(** A call, with the driver outcomes [fs]. *)
Definition call_at (cl : call) (fs : list (option fault)) (c : Conf) : Conf :=
  match run_call cache cl (cf_session c) env (mkSt (cf_db c) fs []) with
  | (inr (err, s'), st') =>
      mkConf s' (st_db st') (cf_wallet c + (wallet (st_db st') 1 - wallet (cf_db c) 1))
        (cf_key c + (key_remain (st_db st') 7 - key_remain (cf_db c) 7))
        (cf_started c || match cl, err with CMark, None => true | _, _ => false end)
  | _ => c
  end.
(** An operation of another request. *)
Definition other_at (o : ledger_op) (c : Conf) : Conf :=
  mkConf (cf_session c) (st_db (snd (run_op o env (mkSt (cf_db c) [] [])))) (cf_wallet c) (cf_key c) (cf_started c).

(** 100 reserved, raised to 150; another request reserves; the provider is
    started; a first settlement fails in the driver. *)
Definition raised := call_at (CReserve 150) [] start.
Definition shared := other_at (OpReserveWallet "req-2" 1 8 "sk-open" 200 true) raised.
Definition marked := call_at CMark [] shared.
Definition retried := call_at (CSettle 130) [Some FDriver] marked.

Definition answers (cl : call) (fs : list (option fault)) (c : Conf) : bool :=
  match fst (run_call cache cl (cf_session c) env (mkSt (cf_db c) fs [])) with inr _ => true | inl _ => false end.
Lemma call_step cl fs c : call_fits cl -> answers cl fs c = true -> step cache "req-1" 1 7 c (call_at cl fs c).
Proof.
  intros Hfit H. unfold answers, call_at in *.
  destruct (run_call cache cl (cf_session c) env (mkSt (cf_db c) fs [])) as [[?|[err s']] st'] eqn:E; [done|].
  by eapply step_call.
Qed.
Lemma other_step o c :
  wf (cf_db c) -> op_fits (cf_db c) o -> op_request o <> Some "req-1"%string -> step cache "req-1" 1 7 c (other_at o c).
Proof. intros. apply step_others. by apply ledger_op_leaves. Qed.

Lemma raised_ok : answers (CReserve 150) [] start = true. Proof. by vm_compute. Qed.
Lemma marked_ok : answers CMark [] shared = true. Proof. by vm_compute. Qed.
Lemma retried_ok : answers (CSettle 130) [Some FDriver] marked = true. Proof. by vm_compute. Qed.
Lemma raised_wf : wf (cf_db raised).
Proof. by split; apply (bool_decide_unpack _); vm_compute. Qed.
Lemma small_int x : bool_decide (0 <= x < 2 ^ 63) = true -> go_int x.
Proof. apply bool_decide_eq_true. Qed.

Lemma run : rtc (step cache "req-1" 1 7) start marked /\ rtc (step cache "req-1" 1 7) start retried.
Proof.
  assert (rtc (step cache "req-1" 1 7) start marked) as H.
  { apply (rtc_l _ start raised); [exact (call_step (CReserve 150) [] start (small_int 150 eq_refl) raised_ok)|].
    apply (rtc_l _ raised shared); [by exact (other_step (OpReserveWallet "req-2" 1 8 "sk-open" 200 true) raised raised_wf I ltac:(discriminate))|].
    apply (rtc_l _ shared marked); [exact (call_step CMark [] shared I marked_ok)|]. apply rtc_refl. }
  split; [exact H|].
  exact (rtc_r _ _ _ H (call_step (CSettle 130) [Some FDriver] marked (small_int 130 eq_refl) retried_ok)).
Qed.

Definition settled := Settle 130 (cf_session retried) env (mkSt (cf_db retried) [] []).
Definition late := Reserve cache 180 (cf_session marked) env (mkSt (cf_db marked) [] []).
End SessionDemo.

Lemma session_charges_actual_witness :
  cf_wallet SessionDemo.retried
    + (wallet (st_db (snd SessionDemo.settled)) 1 - wallet (cf_db SessionDemo.retried) 1) = -130.
Proof.
  refine (proj1 (session_charges_actual SessionDemo.cache SessionDemo.text SessionDemo.info 100 SessionDemo.env [] []
    Demo.db SessionDemo.s0 (snd SessionDemo.created) SessionDemo.retried Demo.wf_db _ _ _ _ _
    (proj2 SessionDemo.run) 130 SessionDemo.env [] []
    (match fst SessionDemo.settled with inr (_, s) => s | _ => SessionDemo.s0 end) (snd SessionDemo.settled) _ _ _ _));
    by vm_compute.
Defined.

Lemma reserve_after_start_fails_witness :
  st_db (snd SessionDemo.late) = cf_db SessionDemo.marked.
Proof.
  refine (proj1 (proj2 (proj2 (reserve_after_start_fails SessionDemo.cache SessionDemo.text SessionDemo.info 100 SessionDemo.env [] []
    Demo.db SessionDemo.s0 (snd SessionDemo.created) SessionDemo.marked Demo.wf_db _ _ _ _ _
    (proj1 SessionDemo.run) 180 SessionDemo.env [] []
    (match fst SessionDemo.late with inr (er, _) => er | _ => None end)
    (match fst SessionDemo.late with inr (_, s) => s | _ => SessionDemo.s0 end) (snd SessionDemo.late) _ _ _ _ _))));
    by vm_compute.
Defined.
