(* ===== verification/Tasks.v ===== *)
(** * Tasks: [src/model/task.go]

    The states of an asynchronous task, the queries the polling loop selects
    its work with, and the updates of one task: [UpdateWithStatus], a
    compare-and-swap on the status that writes every column of the copy in
    memory, [UpdateQuota] and the unguarded [TaskBulkUpdateByID]. *)

From S2P Require Import Prelude Schema Store.
From stdpp Require Import base numbers option strings list sorting gmap.
From Stdlib Require Import ZArith Lia.
Open Scope Z_scope.

(** ** States *)

Definition TaskStatusNotStart := "NOT_START"%string.
Definition TaskStatusSubmitted := "SUBMITTED"%string.
Definition TaskStatusQueued := "QUEUED"%string.
Definition TaskStatusInProgress := "IN_PROGRESS"%string.
Definition TaskStatusPersisting := "PERSISTING"%string.
Definition TaskStatusFailure := "FAILURE"%string.
Definition TaskStatusSuccess := "SUCCESS"%string.
Definition TaskStatusUnknown := "UNKNOWN"%string.

Definition TaskRefundLegacyCutoff : Z := 1771718400.

Definition status_in (t : string) (l : list string) : bool := List.existsb (str_eqb t) l.

Definition ToVideoStatus (t : string) : string :=
  if status_in t [TaskStatusNotStart; TaskStatusQueued; TaskStatusSubmitted] then "queued"
  else if status_in t [TaskStatusInProgress; TaskStatusPersisting] then "in_progress"
  else if str_eqb t TaskStatusSuccess then "completed"
  else if str_eqb t TaskStatusFailure then "failed"
  else "unknown".

Definition GetUpstreamTaskID (t : Task) : string :=
  if negb (str_eqb (ta_upstream_task_id t) "") then ta_upstream_task_id t else ta_task_id t.

Definition GetResultURL (t : Task) : string :=
  if negb (str_eqb (ta_result_url t) "") then ta_result_url t else ta_fail_reason t.

(** ** Queries *)

(** A finished task: what [GetAllUnFinishSyncTasks] leaves out. *)
Definition unfinished (t : Task) : bool :=
  negb (str_eqb (ta_progress t) "100%") && negb (str_eqb (ta_status t) TaskStatusFailure) &&
  negb (str_eqb (ta_status t) TaskStatusSuccess).

Definition submit_order (t t' : Task) : Prop := ta_submit_time t <= ta_submit_time t'.
#[export] Instance submit_order_dec : RelDecision submit_order.
Proof. intros t t'. unfold submit_order. apply _. Defined.

(** A query whose error is swallowed answers no rows. *)
Definition rows_or_none {A} (m : M (list A)) : M (list A) :=
  r ← attempt m;
  mret (match r with inr rows => rows | inl _ => [] end).

Definition GetTimedOutUnfinishedTasks (cutoffUnix limit : Z) : M (list Task) :=
  tasks ← rows_or_none (find_all Tasks (fun t =>
    negb (str_eqb (ta_progress t) "100%") &&
    negb (status_in (ta_status t) [TaskStatusFailure; TaskStatusSuccess; TaskStatusPersisting]) &&
    (ta_submit_time t <? cutoffUnix)));
  mret (take (Z.to_nat limit) (merge_sort submit_order tasks)).

(** The table is in primary-key order. *)
Definition GetAllUnFinishSyncTasks (limit : Z) : M (list Task) :=
  tasks ← rows_or_none (find_all Tasks unfinished);
  mret (take (Z.to_nat limit) tasks).

Definition HasUnfinishedSyncTasks : M bool :=
  r ← attempt (find_opt Tasks unfinished);
  mret (match r with inr (Some t) => negb (ta_id t =? 0) | _ => false end).

(** ** Snapshots *)

Record taskSnapshot := mkTaskSnapshot {
  sn_Status : string;
  sn_Progress : string;
  sn_StartTime : Z;
  sn_FinishTime : Z;
  sn_FailReason : string;
  sn_ResultURL : string;
  sn_Data : string;
  sn_PluginState : string;
  sn_PollFailures : Z
}.

Definition Snapshot (t : Task) : taskSnapshot :=
  mkTaskSnapshot (ta_status t) (ta_progress t) (ta_start_time t) (ta_finish_time t) (ta_fail_reason t)
    (ta_result_url t) (ta_data t) (ta_plugin_state t) (ta_poll_failures t).

Definition Equal (s other : taskSnapshot) : bool :=
  str_eqb (sn_Status s) (sn_Status other) && str_eqb (sn_Progress s) (sn_Progress other) &&
  (sn_StartTime s =? sn_StartTime other) && (sn_FinishTime s =? sn_FinishTime other) &&
  str_eqb (sn_FailReason s) (sn_FailReason other) && str_eqb (sn_ResultURL s) (sn_ResultURL other) &&
  str_eqb (sn_Data s) (sn_Data other) && str_eqb (sn_PluginState s) (sn_PluginState other) &&
  (sn_PollFailures s =? sn_PollFailures other).

(** ** Updates *)

Definition UpdateQuota (t : Task) : M unit :=
  if ta_id t =? 0 then raise ErrMissingWhereClause else
  update Tasks (fun r => ta_id r =? ta_id t) (fun r => r <| ta_quota := ta_quota t |>) ;;
  mret tt.

(** The rows [DB.Model(t).Where("status = ?", fromStatus)] selects. *)
Definition cas_target (t : Task) (fromStatus : string) (r : Task) : bool :=
  ((ta_id t =? 0) || (ta_id r =? ta_id t)) && str_eqb (ta_status r) fromStatus.

(** [Select("*").Updates(t)]: every column but the primary key is that of the copy. *)
Definition overwrite (t r : Task) : Task := t <| ta_id := ta_id r |>.

Definition UpdateWithStatus (t : Task) (fromStatus : string) : M bool :=
  n ← update Tasks (cas_target t fromStatus) (overwrite t);
  mret (0 <? n).

(** The columns the callers of [TaskBulkUpdateByID] set. *)
Definition bulk_failed (fail_reason : option string) (t : Task) : Task :=
  match fail_reason with
  | Some reason => (t <| ta_fail_reason := reason |>) <| ta_status := TaskStatusFailure |> <| ta_progress := "100%"%string |>
  | None => (t <| ta_status := TaskStatusFailure |>) <| ta_progress := "100%"%string |>
  end.

Definition TaskBulkUpdateByID (ids : list Z) (fail_reason : option string) : M unit :=
  match ids with
  | [] => mret tt
  | _ => update Tasks (fun t => bool_decide (ta_id t ∈ ids)) (bulk_failed fail_reason) ;; mret tt
  end.

(** ** Snapshots decide what an update would change *)

Lemma Equal_iff t t' : Equal (Snapshot t) (Snapshot t') = true <-> Snapshot t = Snapshot t'.
Proof.
  unfold Equal, Snapshot. simpl. rewrite !andb_true_iff, !str_eqb_true, !Z.eqb_eq.
  split; [intros H; destruct_and?; congruence | intros [=]; split_and!; congruence].
Qed.
