(* ===== verification/TaskBilling.v ===== *)
(** * TaskBilling: [src/service/task_billing.go]

    What a finished task costs: the refund of a failed one, the difference a
    known final price leaves, and the recalculation by tokens.  Also the
    ratios of [src/setting/ratio_setting] and the audit entry of
    [src/model/log.go] these use. *)

From S2P Require Import Prelude Schema Store Quota Subscription TopUp WildFlowBilling UserQuota BillingSession Tasks.
From stdpp Require Import base numbers option strings list gmap.
From Stdlib Require Import ZArith Lia Floats.SpecFloat.
Open Scope Z_scope.

(** ** The source that pays *)

Definition resolveTokenKey (tokenId : Z) : M string :=
  token ← attempt (GetTokenById tokenId);
  mret (match token with inr token => tk_key token | inl _ => ""%string end).

Definition taskIsSubscription (task : Task) : bool :=
  str_eqb (ta_billing_source task) BillingSourceSubscription && (0 <? ta_subscription_id task).

(** [delta > 0] charges, [delta < 0] gives back. *)
Definition taskAdjustFunding (task : Task) (delta : Z) : M unit :=
  if taskIsSubscription task then PostConsumeUserSubscriptionDelta (ta_subscription_id task) delta
  else if 0 <? delta then DecreaseUserQuota (ta_user_id task) delta false
  else IncreaseUserQuota (ta_user_id task) (i64 (- delta)) false.

(** A failing adjustment of the key is only logged. *)
Definition taskAdjustTokenQuota (task : Task) (delta : Z) : M unit :=
  if (ta_token_id task <=? 0) || (delta =? 0) then mret tt else
  tokenKey ← resolveTokenKey (ta_token_id task);
  if str_eqb tokenKey "" then mret tt else
  logged (if 0 <? delta then DecreaseTokenQuota (ta_token_id task) tokenKey delta
          else IncreaseTokenQuota (ta_token_id task) tokenKey (i64 (- delta))).

(** ** The audit entry: [model/log.go]

    The entry itself is an effect; so are the reads of the user's and the key's
    name, whose errors leave the name empty. *)

Definition RecordTaskBillingLog (userId logType quota : Z) : M unit :=
  consume ← ask env_log_consume;
  if (logType =? LogTypeConsume) && negb consume then mret tt else
  emit (EffRecordLog userId logType) ;;
  export ← ask env_data_export;
  when ((logType =? LogTypeConsume) && export) (emit (EffQuotaData userId quota)).

(** ** What submission records on a task: [executeTaskSubmission] of [controller/relay.go] *)

Definition bill_task (info : RelayInfo) (quota : Z) (task : Task) : Task :=
  (task <| ta_billing_source := ri_BillingSource info |>) <| ta_subscription_id := ri_SubscriptionId info |>
       <| ta_token_id := ri_TokenId info |> <| ta_quota := quota |>.

(** ** Refund and settlement *)

(** Answers whether the source was refunded, with the task as it is left. *)
Definition RefundTaskQuota (task : Task) : M (bool * Task) :=
  let quota := ta_quota task in
  if quota =? 0 then mret (true, task) else
  r ← attempt (taskAdjustFunding task (i64 (- quota)));
  match r with
  | inl _ => mret (false, task)
  | inr _ =>
      taskAdjustTokenQuota task (i64 (- quota)) ;;
      UpdateUserUsedQuota (ta_user_id task) (i64 (- quota)) ;;
      UpdateChannelUsedQuota (ta_channel_id task) (i64 (- quota)) ;;
      RecordTaskBillingLog (ta_user_id task) LogTypeRefund quota ;;
      let task := task <| ta_quota := 0 |> in
      logged (UpdateQuota task) ;;
      mret (true, task)
  end.

Definition RecalculateTaskQuota (task : Task) (actualQuota : Z) : M Task :=
  if actualQuota <? 0 then mret task else
  let quotaDelta := i64 (actualQuota - ta_quota task) in
  if quotaDelta =? 0 then mret task else
  r ← attempt (taskAdjustFunding task quotaDelta);
  match r with
  | inl _ => mret task
  | inr _ =>
      taskAdjustTokenQuota task quotaDelta ;;
      let task := task <| ta_quota := actualQuota |> in
      logged (UpdateQuota task) ;;
      UpdateUserUsedQuota (ta_user_id task) quotaDelta ;;
      UpdateChannelUsedQuota (ta_channel_id task) quotaDelta ;;
      (if 0 <? quotaDelta then RecordTaskBillingLog (ta_user_id task) LogTypeConsume quotaDelta
       else RecordTaskBillingLog (ta_user_id task) LogTypeRefund (i64 (- quotaDelta))) ;;
      mret task
  end.

(** ** Ratios: [setting/ratio_setting], [types/price_data.go] *)

(** The run-time tables the prices are read from. *)
Record RatioSettings := mkRatioSettings {
  rs_model_ratio : gmap string float64;
  rs_self_use_mode : bool;
  rs_group_ratio : gmap string float64;
  rs_group_group_ratio : gmap string (gmap string float64)
}.

Definition float_of_Z (z : Z) : float64 := binary_normalize 53 1024 z 0 false.
Definition float_mul : float64 -> float64 -> float64 := SFmul 53 1024.
Definition float_one : float64 := float_of_Z 1.

Definition handleThinkingBudgetModel (name prefix wildcard : string) : string :=
  if String.prefix prefix name && str_contains name "-thinking-" then wildcard else name.

Definition FormatMatchingModelName (name : string) : string :=
  let name :=
    if String.prefix "gemini-2.5-flash-lite" name
    then handleThinkingBudgetModel name "gemini-2.5-flash-lite" "gemini-2.5-flash-lite-thinking-*"
    else if String.prefix "gemini-2.5-flash" name
    then handleThinkingBudgetModel name "gemini-2.5-flash" "gemini-2.5-flash-thinking-*"
    else if String.prefix "gemini-2.5-pro" name
    then handleThinkingBudgetModel name "gemini-2.5-pro" "gemini-2.5-pro-thinking-*"
    else name in
  let name := if String.prefix "gpt-4-gizmo" name then "gpt-4-gizmo-*"%string else name in
  if String.prefix "gpt-4o-gizmo" name then "gpt-4o-gizmo-*"%string else name.

(** 37.5 is the float [75 * 2^-1]. *)
Definition default_model_ratio : float64 := binary_normalize 53 1024 75 (-1) false.

Definition GetModelRatio (settings : RatioSettings) (name : string) : float64 * bool * string :=
  let name := FormatMatchingModelName name in
  match rs_model_ratio settings !! name with
  | None => (default_model_ratio, rs_self_use_mode settings, name)
  | Some ratio => (ratio, true, name)
  end.

Definition GetGroupRatio (settings : RatioSettings) (name : string) : float64 :=
  match rs_group_ratio settings !! name with Some ratio => ratio | None => float_one end.

Definition GetGroupGroupRatio (settings : RatioSettings) (userGroup usingGroup : string) : float64 * bool :=
  match gp ← rs_group_group_ratio settings !! userGroup; gp !! usingGroup with
  | Some ratio => (ratio, true)
  | None => (float_of_Z (-1), false)
  end.

Definition isValidOtherRatio (ratio : float64) : bool :=
  float_gt ratio 0 && match ratio with S754_infinity _ => false | _ => true end.

Definition taskModelName (task : Task) : string :=
  match ta_billing_context task with
  | Some bc => if negb (str_eqb (bc_origin_model_name bc) "") then bc_origin_model_name bc
               else ta_origin_model_name task
  | None => ta_origin_model_name task
  end.

(** The price data of a context: its valid ratios, if there is one. *)
Definition taskBillingContextPriceData (bc : option TaskBillingContext) : option (gmap string float64) :=
  match bc with
  | None => None
  | Some bc =>
      let ratios := filter (fun kv => isValidOtherRatio kv.2 = true) (bc_other_ratios bc) in
      if decide (ratios = ∅) then None else Some ratios
  end.

(** [GetUserById(id, false)]. *)
Definition GetUserById (id : Z) : M User :=
  if id =? 0 then raise (EText "id 为空！") else
  find_first Users (user_where (fun u => u_id u =? id)).

Section ByTokens.
Context (settings : RatioSettings).
(** The order in which a [range] over the ratios visits them. *)
Context (map_order : list (string * float64) -> list (string * float64)).

Definition OtherRatioMultiplier (ratios : gmap string float64) : float64 :=
  List.fold_left (fun multiplier kv =>
      if isValidOtherRatio kv.2 && negb (SFeqb kv.2 float_one) then float_mul multiplier kv.2 else multiplier)
    (map_order (map_to_list ratios)) float_one.

Definition token_price (task : Task) (modelRatio finalGroupRatio : float64) (totalTokens : Z) : Z :=
  let otherMultiplier :=
    match taskBillingContextPriceData (ta_billing_context task) with
    | Some priceData => OtherRatioMultiplier priceData
    | None => float_one
    end in
  QuotaFromFloat (float_mul (float_mul (float_mul (float_of_Z totalTokens) modelRatio) finalGroupRatio) otherMultiplier).

(** The group that prices the task: its own, or its user's. *)
Definition task_group (task : Task) : M string :=
  if negb (str_eqb (ta_group task) "") then mret (ta_group task) else
  user ← attempt (GetUserById (ta_user_id task));
  mret (match user with inr user => u_group user | inl _ => ""%string end).

(** Answers whether the price was settled here. *)
Definition RecalculateTaskQuotaByTokens (task : Task) (totalTokens : Z) : M (bool * Task) :=
  if totalTokens <=? 0 then mret (false, task) else
  let '(modelRatio, hasRatioSetting, _) := GetModelRatio settings (taskModelName task) in
  if negb hasRatioSetting || negb (float_gt modelRatio 0) then mret (false, task) else
  group ← task_group task;
  if str_eqb group "" then mret (false, task) else
  let '(userGroupRatio, hasUserGroupRatio) := GetGroupGroupRatio settings group group in
  let finalGroupRatio := if hasUserGroupRatio then userGroupRatio else GetGroupRatio settings group in
  task ← RecalculateTaskQuota task (token_price task modelRatio finalGroupRatio totalTokens);
  mret (true, task).
End ByTokens.
