(* ===== verification/TaskPolling.v ===== *)
(** * TaskPolling: [src/service/task_polling.go]

    One polling pass over the unfinished tasks: the sweep of tasks that ran out
    of time, the handling of a provider's answer for one task (single and batch
    mode) and of an answer that cannot be used, the resumed persistence of
    generated images, and the billing that follows a terminal transition.

    Every handler works on a copy of the task loaded earlier; the row it meets
    is whatever the table holds by then.  The provider adaptor is an interface;
    the expression engine (expr-lang), the redaction of a JSON body and the
    download of images are parameters. *)

From S2P Require Import Prelude Schema Store Quota Subscription UserQuota BillingSession Tasks TaskBilling.
From stdpp Require Import base numbers option strings list gmap pretty.
From Stdlib Require Import ZArith Lia Floats.SpecFloat.
Open Scope Z_scope.

(** ** Classes of an answer *)

Definition pollClassOK := "ok"%string.
Definition pollClassOtherClient := "other_client"%string.
Definition pollClassNotFound := "not_found"%string.
Definition pollClassAuth := "auth"%string.
Definition pollClassTransient := "transient"%string.
Definition pollClassUnrecognized := "unrecognized"%string.
Definition pollClassHookError := "hook_error"%string.
Definition pollClassTransport := "transport_error"%string.

Definition classifyPollHTTP (statusCode : Z) : string :=
  if (200 <=? statusCode) && (statusCode <? 300) then pollClassOK
  else if (statusCode =? 404) || (statusCode =? 410) then pollClassNotFound
  else if (statusCode =? 401) || (statusCode =? 403) then pollClassAuth
  else if (statusCode =? 429) || (500 <=? statusCode) then pollClassTransient
  else if (400 <=? statusCode) && (statusCode <? 500) then pollClassOtherClient
  else pollClassTransient.

Definition isNonTerminalPollStatus (status : string) : bool :=
  status_in status [TaskStatusNotStart; TaskStatusSubmitted; TaskStatusQueued; TaskStatusInProgress].

Definition knownPollStatus (status : string) : bool :=
  status_in status [TaskStatusNotStart; TaskStatusSubmitted; TaskStatusQueued; TaskStatusInProgress;
                    TaskStatusSuccess; TaskStatusFailure].

Definition pollFailureReason (class : string) (statusCode : Z) (detail : string) : string :=
  let reason := ("poll failed: " ++ class)%string in
  let reason := if 0 <? statusCode then (reason ++ " (HTTP " ++ pretty statusCode ++ ")")%string else reason in
  if negb (str_eqb detail "") then (reason ++ ": " ++ detail)%string else reason.

(** [taskcommon] *)
Definition ProgressSubmitted := "10%"%string.
Definition ProgressQueued := "20%"%string.
Definition ProgressInProgress := "30%"%string.
Definition ProgressComplete := "100%"%string.

Definition FailTaskInfo (reason : string) : TaskInfo := mkTaskInfo TaskStatusFailure reason "" "" 0 0 ∅ "".

(** ** The provider *)

(** What is modelled of [TaskPollingAdaptor].  An answer is its status code and
    its body, or the error of reading it; [ParseNewAPI] is the attempt to read
    the body as this program's own task format. *)
Class TaskPollingAdaptor := {
  FetchTask : Task -> Err + (Z * (Err + string));
  ParseNewAPI : string -> option Task;
  ParseTaskResult : Task -> Z -> string -> Err + TaskInfo;
  AdjustBillingOnComplete : Task -> TaskInfo -> Z;
  (* a Go int *)
  adjust_in_range : forall task result, in_i64 (AdjustBillingOnComplete task result)
}.

(** An item of a batch answer. *)
Record BatchTaskResult := mkBatchTaskResult {
  bt_TaskInfo : TaskInfo;
  bt_SubmitTime : Z;
  bt_StartTime : Z;
  bt_FinishTime : Z;
  bt_Data : option string
}.

(** ** Tiered prices: [pkg/billingexpr/settle.go] *)

Definition float_million : float64 := float_of_Z 1000000.

Definition quotaConversion (exprOutput : float64) (snap : BillingSnapshot) : float64 :=
  if bs_task_usage_billing snap then float_mul exprOutput (bs_quota_per_unit snap)
  else float_mul (SFdiv 53 1024 exprOutput float_million) (bs_quota_per_unit snap).

Section Polling.
Context (settings : RatioSettings).
Context (map_order : list (string * float64) -> list (string * float64)).
(** [RunExprByHashWithRequest] on a request that holds usage facts only: cost and matched tier. *)
Context (RunExpr : string -> string -> gmap string string -> option (float64 * string)).
Context (redactVideoResponseBody : string -> string).
(** [PersistTaskImagesFunc]: its error and the artifacts stored by then. *)
Context (PersistTaskImages : Task -> option Err * gmap string string).
Context (ServerAddress : string).
(** constant.TaskTimeoutMinutes, constant.TaskPollMaxFailures *)
Context (TaskTimeoutMinutes TaskPollMaxFailures : Z).

Definition BuildProxyURL (taskID : string) : string :=
  (ServerAddress ++ "/v1/videos/" ++ taskID ++ "/content")%string.

(** The quota after the group ratio, and the tier. *)
Definition ComputeTieredQuotaWithRequest (snap : BillingSnapshot) (usage : gmap string string)
  : option (Z * string) :=
  '(cost, tier) ← RunExpr (bs_expr_string snap) (bs_expr_hash snap) usage;
  Some (QuotaRound (float_mul (quotaConversion cost snap) (bs_group_ratio snap)), tier).

(** The task with the usage and the tier its price was computed from. *)
Definition with_tier (bc : TaskBillingContext) (snap : BillingSnapshot) (usage : gmap string string)
  (tier : string) (task : Task) : Task :=
  task <| ta_billing_context := Some (bc <| bc_tiered_snapshot :=
    Some ((snap <| bs_usage_facts := usage |>) <| bs_estimated_tier := tier |>) |>) |>.

Definition total_tokens (taskResult : TaskInfo) : Z :=
  if (ti_total_tokens taskResult =? 0) && (0 <? ti_completion_tokens taskResult)
  then ti_completion_tokens taskResult else ti_total_tokens taskResult.

(** Answers whether the final price was settled by usage. *)
Definition settleTaskBillingOnComplete `{TaskPollingAdaptor} (task : Task) (taskResult : TaskInfo) : M (bool * Task) :=
  let by_usage :=
    let actualQuota := AdjustBillingOnComplete task taskResult in
    if 0 <? actualQuota then
      task ← RecalculateTaskQuota task actualQuota;
      mret (true, task)
    else if 0 <? total_tokens taskResult
    then RecalculateTaskQuotaByTokens settings map_order task (total_tokens taskResult)
    else mret (false, task) in
  match ta_billing_context task with
  | None => by_usage
  | Some bc =>
      match bc_tiered_snapshot bc with
      | Some snap =>
          if str_eqb (ta_status task) TaskStatusFailure then mret (false, task) else
          let usageFacts := ti_usage_facts taskResult ∪ bs_usage_facts snap in
          match ComputeTieredQuotaWithRequest snap usageFacts with
          | None => mret (true, task)
          | Some (actualQuota, tier) =>
              task ← RecalculateTaskQuota (with_tier bc snap usageFacts tier task) actualQuota;
              mret (true, task)
          end
      | None => if bc_per_call_billing bc then mret (false, task) else by_usage
      end
  end.

(** The billing of a terminal transition the caller has won. *)
Definition finalize_billing `{TaskPollingAdaptor} (task : Task) (taskResult : TaskInfo) : M unit :=
  '(billingSettled, task) ← settleTaskBillingOnComplete task taskResult;
  if str_eqb (ta_status task) TaskStatusFailure && negb billingSettled && negb (ta_quota task =? 0)
  then RefundTaskQuota task ;; mret tt
  else mret tt.

(** ** The sweep *)

Definition timed_out (now : Z) (reason : string) (task : Task) : Task :=
  (task <| ta_status := TaskStatusFailure |>) <| ta_progress := "100%"%string |> <| ta_finish_time := now |>
       <| ta_fail_reason := reason |>.

Definition isLegacy (task : Task) : bool :=
  (0 <? ta_submit_time task) && (ta_submit_time task <? TaskRefundLegacyCutoff).

Definition timeout_reason : string := ("任务超时（" ++ pretty TaskTimeoutMinutes ++ "分钟）")%string.
Definition legacy_reason : string := "任务超时（旧系统遗留任务，不进行退款，请联系管理员）".

(** A task older than timeout refunds is failed and its quota dropped. *)
Definition sweep_copy (now : Z) (task : Task) : Task :=
  if isLegacy task then (timed_out now legacy_reason task) <| ta_quota := 0 |>
  else timed_out now timeout_reason task.

Definition sweep_task (now : Z) (task : Task) : M unit :=
  won ← attempt (UpdateWithStatus (sweep_copy now task) (ta_status task));
  match won with
  | inr true =>
      if negb (isLegacy task) && negb (ta_quota task =? 0)
      then RefundTaskQuota (sweep_copy now task) ;; mret tt
      else mret tt
  | _ => mret tt
  end.

Definition sweepTimedOutTasks : M unit :=
  if TaskTimeoutMinutes <=? 0 then mret tt else
  now ← GetTimestamp;
  tasks ← GetTimedOutUnfinishedTasks (now - TaskTimeoutMinutes * 60) 100;
  for_each (sweep_task now) tasks.

(** ** Failures of a poll *)

Definition poll_failed (now : Z) (reason : string) (task : Task) : Task :=
  (task <| ta_status := TaskStatusFailure |>) <| ta_progress := ProgressComplete |>
       <| ta_finish_time ::= fun t => if t =? 0 then now else t |> <| ta_fail_reason := reason |>.

Definition failTaskFromPoll `{TaskPollingAdaptor} (task : Task) (fromStatus reason : string) : M unit :=
  now ← GetTimestamp;
  won ← UpdateWithStatus (poll_failed now reason task) fromStatus;
  if negb won then mret tt else
  '(billingSettled, task) ← settleTaskBillingOnComplete (poll_failed now reason task) (FailTaskInfo reason);
  if negb billingSettled && negb (ta_quota task =? 0) then RefundTaskQuota task ;; mret tt else mret tt.

Definition count_failure (task : Task) : Task := task <| ta_poll_failures ::= fun n => n + 1 |>.

Definition recordPollFailure `{TaskPollingAdaptor} (task : Task) (fromStatus class : string)
    (statusCode : Z) (detail : string) : M unit :=
  if (0 <? TaskPollMaxFailures) && (TaskPollMaxFailures <=? ta_poll_failures (count_failure task))
  then failTaskFromPoll (count_failure task) fromStatus (pollFailureReason class statusCode detail)
  else UpdateWithStatus (count_failure task) fromStatus ;; mret tt.

(** ** Images: persisted before the task succeeds *)

Definition persisted (now : Z) (task : Task) : Task :=
  (task <| ta_status := TaskStatusSuccess |>) <| ta_progress := ProgressComplete |> <| ta_finish_time := now |>
       <| ta_image_completion := @None TaskInfo |> <| ta_result_url := BuildProxyURL (ta_task_id task) |>.

Definition resumeTaskImagePersistence `{TaskPollingAdaptor} (task : Task) : M unit :=
  match ta_image_completion task with
  | Some completion =>
      if negb (str_eqb (ta_status task) TaskStatusPersisting) then raise (EText "missing pending image completion") else
      let '(err, artifacts) := PersistTaskImages task in
      let task := task <| ta_stored_artifacts := artifacts |> in
      match err with
      | Some err => UpdateWithStatus task TaskStatusPersisting ;; raise err
      | None =>
          if decide (artifacts = ∅) then raise (EText "image persistence produced no stored artifacts") else
          now ← GetTimestamp;
          won ← UpdateWithStatus (persisted now task) TaskStatusPersisting;
          when won (settleTaskBillingOnComplete (persisted now task) completion ;; mret tt)
      end
  | None => raise (EText "missing pending image completion")
  end.

(** ** One task's answer *)

(** A provider status that cannot be acted on. *)
Definition unusable (statusCode : Z) (parsedStatus : string) : bool :=
  str_eqb parsedStatus TaskStatusUnknown || str_eqb parsedStatus "" || negb (knownPollStatus parsedStatus) ||
  (str_eqb (classifyPollHTTP statusCode) pollClassOtherClient && isNonTerminalPollStatus parsedStatus).

(** What [unrecognizedPollDetail] logs; cut after 512 bytes. *)
Definition unrecognizedPollDetail (reason body : string) : string :=
  let redacted := redactVideoResponseBody body in
  let redacted := if 512 <? Z.of_nat (String.length redacted) then (String.substring 0 512 redacted ++ "…")%string else redacted in
  if str_eqb (trim_space reason) "" then ("body=" ++ redacted)%string else (reason ++ "; body=" ++ redacted)%string.

(** The answer as this program's own format, whose data the task takes over, or as the adaptor reads it. *)
Definition parse_answer `{TaskPollingAdaptor} (task : Task) (statusCode : Z) (body : string) : Task * (Err + TaskInfo) :=
  match ParseNewAPI body with
  | Some t =>
      (task <| ta_data := ta_data t |>,
       inr (mkTaskInfo (ta_status t) (ta_fail_reason t) (GetResultURL t) (ta_progress t) 0 0 ∅ ""))
  | None => (task, ParseTaskResult task statusCode body)
  end.

(** A usable answer ends a run of failures while the task goes on. *)
Definition clear_failures (info : TaskInfo) (task : Task) : Task :=
  if isNonTerminalPollStatus (ti_status info) then task <| ta_poll_failures := 0 |> else task.

(** What a usable answer leaves on the task besides its status. *)
Definition received (body : string) (taskResult : TaskInfo) (task : Task) : Task :=
  let task := task <| ta_data := redactVideoResponseBody body |> in
  let task := if negb (str_eqb (ti_plugin_state taskResult) "")
              then task <| ta_plugin_state := ti_plugin_state taskResult |> else task in
  clear_failures taskResult task.

Definition finish_at (now : Z) (task : Task) : Task :=
  task <| ta_finish_time ::= fun t => if t =? 0 then now else t |>.

Definition result_url (task : Task) (url : string) : string :=
  if String.prefix "data:" url || str_eqb url "" then BuildProxyURL (ta_task_id task) else url.

(** The progress of a failure is complete, whatever the provider says. *)
Definition reported (taskResult : TaskInfo) : TaskInfo :=
  if str_eqb (ti_status taskResult) TaskStatusFailure then taskResult <| ti_progress := ProgressComplete |> else taskResult.

(** The switch on the status. *)
Definition at_status (now : Z) (taskResult : TaskInfo) (task : Task) : Task :=
  let status := ta_status task in
  if str_eqb status TaskStatusSubmitted then task <| ta_progress := ProgressSubmitted |>
  else if str_eqb status TaskStatusQueued then task <| ta_progress := ProgressQueued |>
  else if str_eqb status TaskStatusInProgress then
    (task <| ta_progress := ProgressInProgress |>) <| ta_start_time ::= fun t => if t =? 0 then now else t |>
  else if str_eqb status TaskStatusSuccess then
    (finish_at now (task <| ta_progress := ProgressComplete |>)) <| ta_result_url := result_url task (ti_url taskResult) |>
  else if str_eqb status TaskStatusFailure then
    (finish_at now (task <| ta_progress := ProgressComplete |>)) <| ta_fail_reason := ti_reason taskResult |>
  else task.

Definition advance (now : Z) (taskResult : TaskInfo) (task : Task) : Task :=
  let task := at_status now taskResult (task <| ta_status := ti_status taskResult |>) in
  if negb (str_eqb (ti_progress taskResult) "") then task <| ta_progress := ti_progress taskResult |> else task.

Definition isDone (task : Task) : bool :=
  str_eqb (ta_status task) TaskStatusSuccess || str_eqb (ta_status task) TaskStatusFailure.

Definition awaiting_images (taskResult : TaskInfo) (task : Task) : Task :=
  (task <| ta_image_completion := Some taskResult |>) <| ta_status := TaskStatusPersisting |>
       <| ta_progress := "99%"%string |>.

(** From a usable answer on: the update, and the billing of a transition won. *)
Definition apply_answer `{TaskPollingAdaptor} (snap : taskSnapshot) (taskResult : TaskInfo) (task : Task) : M unit :=
  if str_eqb (ti_status taskResult) TaskStatusSuccess && str_eqb (ta_action task) "image_generation" then
    let task := awaiting_images taskResult task in
    won ← UpdateWithStatus task (sn_Status snap);
    when won (resumeTaskImagePersistence task)
  else
    now ← GetTimestamp;
    let taskResult := reported taskResult in
    let task := advance now taskResult task in
    if isDone task && negb (str_eqb (sn_Status snap) (ta_status task)) then
      won ← attempt (UpdateWithStatus task (sn_Status snap));
      match won with
      | inr true => finalize_billing task taskResult
      | _ => mret tt
      end
    else
      (if negb (Equal snap (Snapshot task)) then logged (UpdateWithStatus task (sn_Status snap)) else mret tt) ;;
      when (isDone task) (finalize_billing task taskResult).

Definition updateVideoSingleTask `{TaskPollingAdaptor} (task : Task) : M unit :=
  let snap := Snapshot task in
  let record := recordPollFailure task (sn_Status snap) in
  match FetchTask task with
  | inl err => record pollClassTransport 0 (err_text err)
  | inr (statusCode, inl err) => record pollClassTransport statusCode (err_text err)
  | inr (statusCode, inr responseBody) =>
      let class := classifyPollHTTP statusCode in
      if str_eqb class pollClassNotFound then
        failTaskFromPoll task (sn_Status snap) ("upstream task not found (HTTP " ++ pretty statusCode ++ ")")%string
      else if str_eqb class pollClassAuth then record pollClassAuth statusCode ""%string
      else if str_eqb class pollClassTransient then record pollClassTransient statusCode ""%string
      else
      let '(task, parsed) := parse_answer task statusCode responseBody in
      match parsed with
      | inl err => recordPollFailure task (sn_Status snap) pollClassHookError statusCode (err_text err)
      | inr taskResult =>
          if unusable statusCode (ti_status taskResult)
          then recordPollFailure task (sn_Status snap) pollClassUnrecognized statusCode
                 (unrecognizedPollDetail (ti_reason taskResult) responseBody)
          else apply_answer snap taskResult (received responseBody taskResult task)
      end
  end.

(** ** An item of a batch answer *)

Definition or_else (v old : string) : string := if negb (str_eqb v "") then v else old.
Definition nonzero_or (v old : Z) : Z := if negb (v =? 0) then v else old.

Definition batch_columns (item : BatchTaskResult) (task : Task) : Task :=
  let info := bt_TaskInfo item in
  (task <| ta_plugin_state ::= or_else (ti_plugin_state info) |>)
       <| ta_status ::= or_else (ti_status info) |>
       <| ta_fail_reason ::= or_else (ti_reason info) |>
       <| ta_submit_time ::= nonzero_or (bt_SubmitTime item) |>
       <| ta_start_time ::= nonzero_or (bt_StartTime item) |>
       <| ta_finish_time ::= nonzero_or (bt_FinishTime item) |>
       <| ta_progress ::= or_else (ti_progress info) |>.

(** A reason makes the task a failure, whatever its status. *)
Definition batch_terminal (info : TaskInfo) (task : Task) : Task :=
  let task := if negb (str_eqb (ti_reason info) "") || str_eqb (ta_status task) TaskStatusFailure
              then (task <| ta_status := TaskStatusFailure |>) <| ta_progress := "100%"%string |> else task in
  if str_eqb (ti_status info) TaskStatusSuccess then task <| ta_progress := "100%"%string |> else task.

Definition batch_payload (item : BatchTaskResult) (task : Task) : Task :=
  (task <| ta_data ::= fun d => default d (bt_Data item) |>) <| ta_result_url ::= or_else (ti_url (bt_TaskInfo item)) |>.

Definition batch_advance (item : BatchTaskResult) (task : Task) : Task :=
  batch_payload item (batch_terminal (bt_TaskInfo item) (batch_columns item (clear_failures (bt_TaskInfo item) task))).

Definition update_batch_item `{TaskPollingAdaptor} (statusCode : Z) (item : BatchTaskResult) (task : Task) : M unit :=
  let snap := Snapshot task in
  let info := bt_TaskInfo item in
  if unusable statusCode (ti_status info)
  then logged (recordPollFailure task (sn_Status snap) pollClassUnrecognized statusCode (ti_reason info))
  else
    let task := batch_advance item task in
    won ← attempt (UpdateWithStatus task (sn_Status snap));
    match won with
    | inr true => when (isDone task && negb (str_eqb (sn_Status snap) (ta_status task))) (finalize_billing task info)
    | _ => mret tt
    end.
End Polling.
