(* ===== verification/TaskFacts.v ===== *)
(** * TaskFacts: the money a finished task moves

    [balance]: a wallet with the changes queued for it.  The billing of a
    terminal transition moves one wallet by at most the quota the task was
    charged, whatever statement fails, and touches the quota column of its own
    row only. *)

From S2P Require Import Prelude Schema Store Logic Frame Ledger Quota Subscription TopUp WildFlowBilling UserQuota BillingSession Tasks TaskBilling TaskPolling.
From stdpp Require Import base numbers option strings list gmap.
From Stdlib Require Import ZArith Lia.
Open Scope Z_scope.

(** ** Balances *)

Definition queued_change (u : Z) (ef : effect) : Z :=
  match ef with EffBatchUserQuota v x => if v =? u then x else 0 | _ => 0 end.

Definition balance (u : Z) (s : St) : Z := wallet (st_db s) u + sum_rows (queued_change u) (st_trace s).

(** A task row but for the quota of row [i]. *)
Definition masked (i : Z) (t : Task) : Task := if ta_id t =? i then t <| ta_quota := 0 |> else t.
Definition other_tasks (i : Z) (d : DB) : list Task := List.map (masked i) (db_tasks d).

(** Neither the balance of [u] nor a task, but for the quota of task [i]. *)
Definition calm (u i : Z) (s s' : St) : Prop :=
  balance u s' = balance u s /\ other_tasks i (st_db s') = other_tasks i (st_db s).

#[export] Instance calm_frame u i : Frame (calm u i).
Proof. split; unfold calm, balance; intros; [done|]. intuition congruence. Qed.

Section Calm.
Context (u i : Z).

Lemma calm_emit ef : queued_change u ef = 0 -> respects (calm u i) (emit ef).
Proof.
  intros H e s. split; [|done]. unfold balance. cbn. rewrite sum_rows_app. cbn. lia.
Qed.

(** A change of user columns other than the quota. *)
Lemma calm_users p f : (forall r, u_id (f r) = u_id r /\ u_quota (f r) = u_quota r) ->
  respects (calm u i) (update Users p f).
Proof.
  intros Hf. apply respects_stmt; [apply _|]. intros d fs tr. split; [|done]. unfold balance, wallet, user_row. cbn.
  f_equal. change (List.map (fun r => if p r then f r else r) (db_users d)) with (upd_rows p f (db_users d)).
  rewrite (find_upd_stable (has_user u) p f) by (intros r; unfold has_user; by rewrite (proj1 (Hf r))).
  destruct (List.find _ _) as [r|]; [|done]. cbn. destruct (p r); [apply Hf | done].
Qed.

Lemma calm_view {A} (c : M A) : respects (keeps (fun d => (db_users d, db_tasks d))) c -> respects (calm u i) c.
Proof.
  intros Hc e s. destruct (Hc e s) as [[= Hu Ht] Htr]. unfold calm, balance, wallet, user_row, other_tasks.
  by rewrite Hu, Ht, Htr.
Qed.

Lemma calm_UpdateQuota t : ta_id t = i -> respects (calm u i) (UpdateQuota t).
Proof.
  intros Hi. unfold UpdateQuota. destruct (ta_id t =? 0); [apply respects_raise; apply _|].
  apply respects_bind; [apply _| |intros; apply respects_ret; apply _].
  apply respects_stmt; [apply _|]. intros d fs tr. split; [done|]. unfold other_tasks. cbn.
  rewrite List.map_map. apply List.map_ext. intros r. unfold masked. rewrite Hi.
  destruct (ta_id r =? i) eqn:E; cbn; by rewrite E.
Qed.
End Calm.
#[export] Hint Resolve calm_UpdateQuota : respects.
#[export] Hint Extern 1 (respects (calm _ _) (emit _)) => (apply calm_emit; reflexivity) : respects.
#[export] Hint Extern 1 (respects (calm _ _) (update Users _ _)) => (apply calm_users; intros; split; reflexivity) : respects.

Section Tails.
Context (u i : Z).

Lemma calm_cache v x : respects (calm u i) (cacheIncrUserQuota v x).
Proof. unfold cacheIncrUserQuota. respects_auto. Qed.
Lemma calm_token task delta : respects (calm u i) (taskAdjustTokenQuota task delta).
Proof.
  unfold taskAdjustTokenQuota, resolveTokenKey, GetTokenById, logged, DecreaseTokenQuota, IncreaseTokenQuota,
    decreaseTokenQuota, increaseTokenQuota.
  respects_auto.
Qed.
Lemma calm_usage v x : respects (calm u i) (UpdateUserUsedQuota v x).
Proof. unfold UpdateUserUsedQuota, logged. respects_auto. Qed.
Lemma calm_channel c x : respects (calm u i) (UpdateChannelUsedQuota c x).
Proof. unfold UpdateChannelUsedQuota, updateChannelUsedQuota, logged. respects_auto. Qed.
Lemma calm_log v ty x : respects (calm u i) (RecordTaskBillingLog v ty x).
Proof. unfold RecordTaskBillingLog. respects_auto. Qed.
Lemma calm_subscription s x : respects (calm u i) (PostConsumeUserSubscriptionDelta s x).
Proof. apply calm_view. unfold PostConsumeUserSubscriptionDelta, postConsumeUserSubscriptionDeltaTx. respects_auto. Qed.
Lemma calm_group task : respects (calm u i) (task_group task).
Proof. unfold task_group, GetUserById. respects_auto. Qed.
End Tails.
#[export] Hint Resolve calm_cache calm_token calm_usage calm_channel calm_log calm_subscription calm_group : respects.

(** ** The source *)

Section Source.
Context (u i : Z).

(** At most [x] more on the balance of [u]; of the tasks only the quota of [i]. *)
Definition gains (x : Z) (s s' : St) : Prop :=
  balance u s' <= balance u s + x /\ other_tasks i (st_db s') = other_tasks i (st_db s).

Lemma gains_calm s s' : calm u i s s' -> gains 0 s s'.
Proof. intros [H1 H2]. split; [lia | done]. Qed.

Lemma gains_trans x y s1 s2 s3 : gains x s1 s2 -> gains y s2 s3 -> gains (x + y) s1 s3.
Proof. intros [H1 H2] [H3 H4]. split; [lia | congruence]. Qed.

Lemma gains_weaken x y s s' : gains x s s' -> x <= y -> gains y s s'.
Proof. intros [H1 H2] H. split; [lia | done]. Qed.

(** A change of one user's row moves its balance by the change or not at all. *)
Lemma gains_wallet v (p : User -> bool) delta x f d fs fs' tr :
  (forall r, p r = true -> u_id r = v) -> (forall r, f r = r <| u_quota ::= fun q => q + delta |>) ->
  (v = u -> delta <= x) -> 0 <= x ->
  gains x (mkSt d fs tr) (mkSt (t_set Users (upd_rows p f (db_users d)) d) fs' tr).
Proof.
  intros Hp Hf Hx H0. split; [|done]. unfold balance, wallet, user_row. cbn.
  rewrite (find_upd_stable (has_user u) p f) by (intros r; by rewrite Hf).
  destruct (List.find _ _) as [r|] eqn:E; cbn; [|lia].
  destruct (p r) eqn:Hpr; [|lia]. rewrite Hf. cbn.
  apply List.find_some in E as [_ E]. apply has_user_spec in E. rewrite (Hp r Hpr) in E. specialize (Hx E). lia.
Qed.

Lemma gains_queued v delta x d fs fs' tr ef :
  (forall y, queued_change y ef = if v =? y then delta else 0) -> (v = u -> delta <= x) -> 0 <= x ->
  gains x (mkSt d fs tr) (mkSt d fs' (tr ++ [ef])).
Proof.
  intros Hq Hx H0. split; [|done]. unfold balance. cbn. rewrite sum_rows_app. cbn. rewrite Hq.
  destruct (Z.eqb_spec v u); lia.
Qed.

(** A calm computation at the end changes nothing. *)
Lemma wp_calm_after {A} x (c : M A) s e s1 :
  respects (calm u i) c -> gains x s s1 -> wp c (fun _ s' => gains x s s') e s1.
Proof.
  intros Hc Hs. unfold wp. specialize (Hc e s1). destruct (c e s1) as [r s2].
  rewrite <- (Z.add_0_r x). eapply gains_trans; [done | by apply gains_calm].
Qed.

Lemma IncreaseUserQuota_gains v q e s : 0 <= q ->
  wp (IncreaseUserQuota v q false) (fun _ s' => gains (if v =? u then q else 0) s s') e s.
Proof.
  intros Hq. destruct s as [d fs tr]. set (x := if v =? u then q else 0).
  assert (0 <= x /\ (v = u -> q <= x)) as [Hx0 Hx] by (unfold x; destruct (Z.eqb_spec v u); lia).
  assert (forall fs', gains x (mkSt d fs tr) (mkSt d fs' tr)) as Hquiet
    by (intros; split; [unfold balance; cbn; lia | done]).
  assert (forall (s s1 : St), gains x s s1 -> wp (cacheIncrUserQuota v q) (fun _ s' => gains x s s') e s1) as Hcache.
  { intros s s1 Hs. apply wp_calm_after; auto with respects. }
  unfold IncreaseUserQuota. rewrite (proj2 (Z.ltb_ge q 0)) by done.
  destruct (negb (ValidateWalletQuota q)); [by apply wp_raise|].
  apply wp_bind, wp_ask. cbn [negb andb]. destruct (env_batch e).
  - apply wp_bind, wp_emit. apply Hcache. by eapply (gains_queued v q).
  - apply wp_bind. unfold increaseUserQuota. apply wp_bind, wp_update; [intros; apply Hquiet|]. intros fs'.
    assert (gains x (mkSt d fs tr) (mkSt (t_set Users (upd_rows (user_where (fun u0 => (u_id u0 =? v) && (u_quota u0 <=? i64 (MaxWalletQuota - q))))
      (add_quota q) (db_users d)) d) fs' tr)) as Hg.
    { apply (gains_wallet v _ q); try done. unfold user_where. intros r Hr.
      repeat (apply andb_true_iff in Hr as [? Hr]). repeat (apply andb_true_iff in H as [? H]). lia. }
    destruct (_ =? 1); [apply wp_ret; by apply Hcache|].
    apply wp_bind, wp_count; [intros; exact Hg|]. intros fs2. destruct (_ =? 0); by apply wp_raise.
Qed.

Lemma DecreaseUserQuota_gains v q e s : 0 <= q < 2 ^ 63 ->
  wp (DecreaseUserQuota v q false) (fun _ s' => gains 0 s s') e s.
Proof.
  intros Hq. unfold DecreaseUserQuota. rewrite (proj2 (Z.ltb_ge q 0)) by lia.
  apply wp_bind. eapply wp_mono; [apply (wp_calm_after 0 _ s); auto with respects; split; [lia | done]|].
  intros [err|[]] [d fs tr] Hs; [done|]. apply wp_bind, wp_ask. cbn [negb andb].
  assert (forall s', gains 0 (mkSt d fs tr) s' -> gains 0 s s') as Ht
    by (intros; by apply (gains_trans 0 0 s (mkSt d fs tr))).
  destruct (env_batch e).
  - apply wp_emit. apply Ht. eapply (gains_queued v (i64 (- q))); i64_simpl; [done | lia | lia].
  - unfold decreaseUserQuota. apply wp_bind, wp_update; [intros; done|]. intros fs'. apply wp_ret. apply Ht.
    apply (gains_wallet v _ (- q)); try done; try lia. unfold user_where. intros r Hr.
    apply andb_true_iff in Hr as [_ Hr]. lia.
Qed.

(** What a change of a task's charge by [delta] gives the balance. *)
Definition given_back (task : Task) (delta : Z) : Z :=
  if negb (taskIsSubscription task) && (ta_user_id task =? u) then Z.max 0 (- delta) else 0.

Lemma taskAdjustFunding_gains task delta e s : - 2 ^ 63 < delta < 2 ^ 63 ->
  wp (taskAdjustFunding task delta) (fun _ s' => gains (given_back task delta) s s') e s.
Proof.
  intros Hd. unfold taskAdjustFunding, given_back. destruct (taskIsSubscription task); cbn [negb andb].
  - apply wp_calm_after; [auto with respects | split; [lia | done]].
  - destruct (Z.ltb_spec 0 delta).
    + eapply wp_mono; [by apply DecreaseUserQuota_gains; lia|]. intros r s' H'. apply (gains_weaken _ _ _ _ H').
      destruct (_ =? u); lia.
    + rewrite i64_small by (unfold in_i64, min_int64, max_int64; lia).
      eapply wp_mono; [apply IncreaseUserQuota_gains; lia|]. intros r s' H'. apply (gains_weaken _ _ _ _ H').
      destruct (_ =? u); lia.
Qed.

(** What a task was charged to [u]'s wallet: the most its end may give back. *)
Definition owed (task : Task) : Z :=
  if negb (taskIsSubscription task) && (ta_user_id task =? u) then ta_quota task else 0.

Lemma owed_nonneg task : go_int (ta_quota task) -> 0 <= owed task.
Proof. unfold owed, go_int. destruct (_ && _); lia. Qed.

Lemma given_back_owed task actual : go_int (ta_quota task) -> 0 <= actual ->
  given_back task (actual - ta_quota task) <= owed task.
Proof. unfold given_back, owed, go_int. destruct (_ && _); lia. Qed.

(** A calm rest of a computation. *)
Lemma wp_then_calm {A B} x (c : M A) (f : A -> M B) s e s1 :
  wp c (fun _ s' => gains x s s') e s1 -> (forall a, respects (calm u i) (f a)) ->
  wp (c ≫= f) (fun _ s' => gains x s s') e s1.
Proof.
  intros Hc Hf. apply wp_bind. eapply wp_mono; [exact Hc|]. intros [err|a] s2 H2; [exact H2|].
  by apply wp_calm_after.
Qed.

Lemma RefundTaskQuota_gains task e s : go_int (ta_quota task) -> ta_id task = i ->
  wp (RefundTaskQuota task) (fun _ s' => gains (owed task) s s') e s.
Proof.
  intros Hq Hi. pose proof (owed_nonneg task Hq). unfold RefundTaskQuota.
  destruct (Z.eqb_spec (ta_quota task) 0); [apply wp_ret; split; [lia | done]|].
  rewrite i64_small by (unfold go_int, in_i64, min_int64, max_int64 in *; lia).
  apply wp_then_calm.
  - apply wp_attempt. unfold go_int in Hq. eapply wp_mono; [by apply taskAdjustFunding_gains; lia|].
    intros r s' H'. apply (gains_weaken _ _ _ _ H'). apply (given_back_owed task 0); unfold go_int; lia.
  - intros r. unfold logged. respects_auto.
Qed.

Lemma RecalculateTaskQuota_gains task actual e s : go_int (ta_quota task) -> ta_id task = i -> in_i64 actual ->
  wp (RecalculateTaskQuota task actual) (fun _ s' => gains (owed task) s s') e s.
Proof.
  intros Hq Hi Ha. pose proof (owed_nonneg task Hq). unfold RecalculateTaskQuota.
  assert (gains (owed task) s s) as Hrefl by (split; [lia | done]).
  destruct (Z.ltb_spec actual 0); [by apply wp_ret|].
  assert (- 2 ^ 63 < actual - ta_quota task < 2 ^ 63) as Hd by (unfold go_int, in_i64, max_int64 in *; lia).
  rewrite i64_small by (unfold in_i64, min_int64, max_int64; lia).
  destruct (_ =? 0); [by apply wp_ret|]. apply wp_then_calm.
  - apply wp_attempt. eapply wp_mono; [by apply taskAdjustFunding_gains|].
    intros r s' H'. apply (gains_weaken _ _ _ _ H'). by apply given_back_owed.
  - intros r. unfold logged. respects_auto.
Qed.
End Source.

Lemma token_price_range map_order task modelRatio groupRatio tokens :
  in_i64 (token_price map_order task modelRatio groupRatio tokens).
Proof.
  unfold token_price, QuotaFromFloat, QuotaFromFloatChecked, saturateQuota.
  match goal with |- in_i64 (saturateQuotaBounded ?v ?op ?hi ?lo).1 =>
    pose proof (saturate_bounds v op hi lo ltac:(unfold MaxQuota, MinQuota; lia)) as H end.
  unfold MaxQuota, MinQuota, in_i64, min_int64, max_int64 in *. lia.
Qed.

(** ** The billing of a terminal transition *)

Section Settlement.
Context (settings : RatioSettings) (map_order : list (string * float64) -> list (string * float64)).
Context (RunExpr : string -> string -> gmap string string -> option (float64 * string)).
Context `{TaskPollingAdaptor} (u i : Z).

(** Settled: at most the charge came back.  Not settled: nothing has moved and the task is as it was. *)
Definition settles (task : Task) (s : St) (r : result (bool * Task)) (s' : St) : Prop :=
  match r with
  | inr (false, task') => task' = task /\ gains u i 0 s s'
  | _ => gains u i (owed u task) s s'
  end.

Lemma settles_quiet task s : settles task s (inr (false, task)) s.
Proof. split; [done|]. split; [lia | done]. Qed.

Lemma settles_recalculate task task' actual e s :
  go_int (ta_quota task) -> ta_id task = i -> in_i64 actual ->
  ta_quota task' = ta_quota task -> ta_id task' = ta_id task -> owed u task' = owed u task ->
  wp (task' ← RecalculateTaskQuota task' actual; mret (true, task')) (settles task s) e s.
Proof.
  intros Hq Hi Ha Eq Ei Eo. apply wp_bind. eapply wp_mono; [apply RecalculateTaskQuota_gains; [by rewrite Eq | by rewrite Ei | done]|].
  rewrite Eo. intros [err|t'] s' Hs; [done | by apply wp_ret].
Qed.

Lemma RecalculateTaskQuotaByTokens_settles task tokens e s : go_int (ta_quota task) -> ta_id task = i ->
  wp (RecalculateTaskQuotaByTokens settings map_order task tokens) (settles task s) e s.
Proof.
  intros Hq Hi. unfold RecalculateTaskQuotaByTokens. destruct (_ <=? 0); [by apply wp_ret, settles_quiet|].
  destruct (GetModelRatio settings (taskModelName task)) as [[ratio has] name].
  destruct (_ || _); [by apply wp_ret, settles_quiet|].
  apply wp_bind. pose proof (calm_group u i task e s) as Hg. unfold wp at 1.
  destruct (task_group task e s) as [[err|group] s1]; cbn in Hg; apply gains_calm in Hg.
  - cbn. apply (gains_weaken _ _ _ _ _ _ Hg). by apply owed_nonneg.
  - destruct (str_eqb group ""); [by apply wp_ret|].
    destruct (GetGroupGroupRatio settings group group) as [groupRatio hasGroup].
    eapply wp_mono; [apply settles_recalculate; [done..| | | | ]; try done; apply token_price_range|].
    intros [err|[[] t']] s' Hs; cbn in Hs |- *; try by (rewrite <- (Z.add_0_l (owed u task)); eapply gains_trans).
    destruct Hs as [-> Hs]. split; [done|]. by apply (gains_trans u i 0 0 s s1).
Qed.

Lemma settle_settles task info e s : go_int (ta_quota task) -> ta_id task = i ->
  wp (settleTaskBillingOnComplete settings map_order RunExpr task info) (settles task s) e s.
Proof.
  intros Hq Hi. unfold settleTaskBillingOnComplete. cbv zeta.
  assert (wp (if 0 <? AdjustBillingOnComplete task info
              then task' ← RecalculateTaskQuota task (AdjustBillingOnComplete task info); mret (true, task')
              else if 0 <? total_tokens info
                   then RecalculateTaskQuotaByTokens settings map_order task (total_tokens info)
                   else mret (false, task)) (settles task s) e s) as Hby.
  { destruct (0 <? AdjustBillingOnComplete task info).
    - apply settles_recalculate; try done. apply adjust_in_range.
    - destruct (0 <? total_tokens info); [by apply RecalculateTaskQuotaByTokens_settles | by apply wp_ret, settles_quiet]. }
  destruct (ta_billing_context task) as [bc|]; [|exact Hby].
  destruct (bc_tiered_snapshot bc) as [snap|]; [|destruct (bc_per_call_billing bc); [by apply wp_ret, settles_quiet | exact Hby]].
  destruct (str_eqb _ _); [by apply wp_ret, settles_quiet|].
  destruct (ComputeTieredQuotaWithRequest RunExpr snap _) as [[actual tier]|] eqn:E.
  - apply settles_recalculate; try done. unfold ComputeTieredQuotaWithRequest in E.
    destruct (RunExpr _ _ _) as [[cost t]|]; [|done]. cbn in E. injection E as <- <-.
    match goal with |- in_i64 (QuotaRound ?v) => pose proof (saturate_bounds (math_Round v) "QuotaRound" MaxQuota MinQuota
      ltac:(unfold MaxQuota, MinQuota; lia)) as Hb end.
    unfold QuotaRound, QuotaRoundChecked, saturateQuota, MaxQuota, MinQuota, in_i64, min_int64, max_int64 in *. lia.
  - apply wp_ret. split; [|done]. pose proof (owed_nonneg u task Hq). lia.
Qed.

(** The refund that follows when nothing was settled. *)
Lemma settle_then_refund task info (refunds : bool -> Task -> bool) e s : go_int (ta_quota task) -> ta_id task = i ->
  (forall t, refunds true t = false) ->
  wp ('(billingSettled, task) ← settleTaskBillingOnComplete settings map_order RunExpr task info;
      if refunds billingSettled task then RefundTaskQuota task ;; mret tt else mret tt)
     (fun _ s' => gains u i (owed u task) s s') e s.
Proof.
  intros Hq Hi Hr. apply wp_bind. eapply wp_mono; [by apply settle_settles|].
  intros [err|[[] t']] s' Hs; cbn in Hs |- *; [done | by rewrite Hr; apply wp_ret |].
  destruct Hs as [-> Hs]. pose proof (owed_nonneg u task Hq).
  destruct (refunds false task); [|apply wp_ret; by apply (gains_weaken u i 0)].
  apply wp_bind. eapply wp_mono; [by apply RefundTaskQuota_gains|].
  intros [err|[b t']] s2 H2; try apply wp_ret; rewrite <- (Z.add_0_l (owed u task)); by eapply gains_trans.
Qed.

Lemma finalize_gains task info e s : go_int (ta_quota task) -> ta_id task = i ->
  wp (finalize_billing settings map_order RunExpr task info) (fun _ s' => gains u i (owed u task) s s') e s.
Proof.
  intros Hq Hi. apply (settle_then_refund task info
    (fun settled t => str_eqb (ta_status t) TaskStatusFailure && negb settled && negb (ta_quota t =? 0))); try done.
  intros t. cbn. by rewrite andb_false_r.
Qed.
End Settlement.
