(* ===== verification/TaskTheorems.v ===== *)
(** * TaskTheorems: polling never pays out more than was charged

    A system of pollers: tasks are accepted, pollers load copies of unfinished
    tasks and handle them later, in any order and from any number of processes,
    with any provider answers and driver failures in between.  The theorem
    bounds what the end of tasks can give back to a wallet. *)

From S2P Require Import Prelude Calendar Schema Store Logic Frame Ledger Demo Quota Subscription UserQuota BillingSession Tasks TaskBilling TaskPolling TaskFacts.
From stdpp Require Import base numbers option strings list gmap relations sorting.
From Stdlib Require Import ZArith Lia Floats.SpecFloat.
Open Scope Z_scope.

(** ** Tasks at stake *)

Definition open_task (t : Task) : bool :=
  negb (str_eqb (ta_status t) TaskStatusFailure) && negb (str_eqb (ta_status t) TaskStatusSuccess).

(** The columns that say who was charged what. *)
Definition bill (t : Task) : Z * Z * string * Z :=
  (ta_user_id t, ta_quota t, ta_billing_source t, ta_subscription_id t).

Definition has_task (i : Z) (t : Task) : bool := ta_id t =? i.
Lemma has_task_spec i t : has_task i t = true <-> ta_id t = i.
Proof. apply Z.eqb_eq. Qed.

Definition stake (u : Z) (t : Task) : Z := if open_task t then owed u t else 0.
Definition at_stake (u : Z) (d : DB) : Z := sum_rows (stake u) (db_tasks d).
(** What a wallet holds and may still get back. *)
Definition exposure (u : Z) (s : St) : Z := balance u s + at_stake u (st_db s).

Definition tasks_ok (d : DB) : Prop :=
  unique_key ta_id (db_tasks d) /\
  forall t, In t (db_tasks d) -> ta_id t <> 0 /\ (open_task t = true -> go_int (ta_quota t)).

(** A copy of a task that was unfinished when it was loaded: as long as the
    row is unfinished it has the copy's bill. *)
Definition copy_ok (d : DB) (c : Task) : Prop :=
  open_task c = true /\ go_int (ta_quota c) /\ ta_id c <> 0 /\ ta_id c ∈ (ta_id <$> db_tasks d) /\
  forall r, In r (db_tasks d) -> ta_id r = ta_id c -> open_task r = true -> bill r = bill c.

(** Finished tasks stay finished, unfinished ones keep their bill. *)
Definition evolves (d d' : DB) : Prop :=
  ta_id <$> db_tasks d' = ta_id <$> db_tasks d /\
  forall r', In r' (db_tasks d') -> open_task r' = true ->
    exists r, In r (db_tasks d) /\ ta_id r = ta_id r' /\ open_task r = true /\ bill r = bill r'.

Lemma evolves_refl d : evolves d d.
Proof. split; [done|]. intros r H1 H2. by exists r. Qed.
Lemma evolves_trans d1 d2 d3 : evolves d1 d2 -> evolves d2 d3 -> evolves d1 d3.
Proof.
  intros [E1 H1] [E2 H2]. split; [congruence|]. intros r3 Hin Ho.
  destruct (H2 r3 Hin Ho) as (r2 & Hin2 & Hi2 & Ho2 & Hb2). destruct (H1 r2 Hin2 Ho2) as (r1 & ? & ? & ? & ?).
  exists r1. split_and!; congruence.
Qed.

Lemma evolves_tasks_ok d d' : evolves d d' -> tasks_ok d -> tasks_ok d'.
Proof.
  intros [Hids Hrows] [Hu Hok]. split; [unfold unique_key in *; congruence|]. intros t Hin. split.
  - assert (ta_id t ∈ (ta_id <$> db_tasks d')) as Hi
      by (apply list_elem_of_fmap; exists t; by rewrite list_elem_of_In).
    rewrite Hids in Hi. apply list_elem_of_fmap in Hi as (r & -> & Hr%list_elem_of_In). by apply Hok.
  - intros Ho. destruct (Hrows t Hin Ho) as (r & Hr & _ & Hro & [= _ <- _ _]). by apply Hok.
Qed.

Lemma evolves_copy d d' c : evolves d d' -> copy_ok d c -> copy_ok d' c.
Proof.
  intros [Hids Hrows] (Ho & Hq & Hi & Hin & Hb). split_and!; [done..|by rewrite Hids |].
  intros r' Hin' Hid Ho'. destruct (Hrows r' Hin' Ho') as (r & Hr & Hid' & Hro & <-). apply Hb; congruence.
Qed.

Lemma owed_bill u t t' : bill t = bill t' -> owed u t = owed u t'.
Proof. unfold bill, owed, taskIsSubscription. by intros [= -> -> -> ->]. Qed.

(** ** The compare-and-swap *)

Section Swap.
Context (u : Z) (d : DB) (Hok : tasks_ok d).

(** The rows a compare-and-swap from a copy can meet. *)
Lemma swap_rows (c t' : Task) :
  copy_ok d c -> ta_id t' = ta_id c ->
  let p := cas_target t' (ta_status c) in let l := db_tasks d in
  (rows_count p l = 0 /\ upd_rows p (overwrite t') l = l) \/
  (rows_count p l = 1 /\ upd_rows p (overwrite t') l = upd_rows (has_task (ta_id c)) (overwrite t') l /\
   exists r, List.find (has_task (ta_id c)) l = Some r /\ open_task r = true /\ bill r = bill c).
Proof.
  intros (Ho & _ & Hi & _ & Hb) Hid p l.
  assert (forall r, p r = has_task (ta_id c) r && str_eqb (ta_status r) (ta_status c)) as Hp.
  { intros r. unfold p, cas_target, has_task. rewrite Hid. by destruct (Z.eqb_spec (ta_id c) 0). }
  rewrite (rows_count_ext p _ l Hp), (upd_rows_ext p _ _ (overwrite t') l Hp (fun _ => eq_refl)).
  destruct (keyed_update _ _ has_task_spec (ta_id c) (fun r => str_eqb (ta_status r) (ta_status c)) (overwrite t') l (proj1 Hok))
    as [(Hn & Hu & _)|(Hn & Hu & r & Hr & Hst)]; [by left|]. right. split_and!; [done..|].
  apply str_eqb_true in Hst. pose proof (List.find_some _ _ Hr) as [Hin Hri]. apply has_task_spec in Hri.
  assert (open_task r = true) as Hro by (unfold open_task in *; by rewrite Hst). exists r. split_and!; auto.
Qed.

(** A won swap replaces one unfinished row. *)
Lemma swap_evolves c t' r :
  List.find (has_task (ta_id c)) (db_tasks d) = Some r -> open_task r = true -> bill r = bill c ->
  (open_task t' = true -> bill t' = bill c) ->
  let d' := t_set Tasks (upd_rows (has_task (ta_id c)) (overwrite t') (db_tasks d)) d in
  evolves d d' /\ at_stake u d' = at_stake u d - owed u c + stake u t' /\
  (forall r', In r' (db_tasks d') -> ta_id r' = ta_id c -> open_task r' = open_task t').
Proof.
  intros Hr Hro Hb Ht' d'. pose proof (List.find_some _ _ Hr) as [Hin Hi]. apply has_task_spec in Hi.
  assert (forall r', In r' (db_tasks d') -> (In r' (db_tasks d) /\ ta_id r' <> ta_id c) \/ r' = overwrite t' r) as Hrows.
  { intros r' Hin'. unfold d' in Hin'. cbn in Hin'. apply in_map_iff in Hin' as (r0 & <- & Hin0).
    destruct (has_task (ta_id c) r0) eqn:E; [right|left; split; [done|]; intros E'; apply has_task_spec in E'; congruence].
    apply has_task_spec in E. f_equal.
    pose proof (find_unique _ _ has_task_spec (ta_id c) r0 (db_tasks d) (proj1 Hok) Hin0 E). congruence. }
  split_and!.
  - split; [unfold d'; cbn; by apply fmap_upd_kept|].
    intros r' Hin' Ho'. destruct (Hrows r' Hin') as [[Hin0 _]| ->]; [by exists r'|].
    exists r. split_and!; try done. change (bill (overwrite t' r)) with (bill t'). rewrite Hb. symmetry. by apply Ht'.
  - unfold at_stake, d'. cbn. change (List.map _ (db_tasks d)) with (upd_rows (has_task (ta_id c)) (overwrite t') (db_tasks d)).
    rewrite (sum_upd_one _ _ has_task_spec (stake u) _ _ (ta_id c) r); [|apply Hok|done|intros ?; by apply has_task_spec].
    rewrite (proj2 (has_task_spec _ _) Hi). change (stake u (overwrite t' r)) with (stake u t').
    assert (stake u r = owed u c) as -> by (unfold stake; rewrite Hro; by apply owed_bill). lia.
  - intros r' Hin' Hid. by destruct (Hrows r' Hin') as [[_ ?]| ->].
Qed.
End Swap.

(** ** Handlers *)

(** The rest of a settlement changes only the quota of a finished row. *)
Lemma masked_row i t t' : masked i t' = masked i t ->
  ta_id t' = ta_id t /\ open_task t' = open_task t /\ (ta_id t <> i -> t' = t).
Proof.
  unfold masked. intros H.
  assert (ta_id t' = ta_id t) as Hid
    by (apply (f_equal ta_id) in H; by destruct (ta_id t' =? i), (ta_id t =? i)).
  split; [done|]. split.
  - apply (f_equal ta_status) in H. unfold open_task. rewrite Hid in H. destruct (ta_id t =? i); cbn in H; by rewrite H.
  - intros Hne. rewrite Hid in H. by rewrite (proj2 (Z.eqb_neq _ _) Hne) in H.
Qed.

Lemma masked_tasks u i d d' :
  other_tasks i d' = other_tasks i d ->
  (forall r, In r (db_tasks d) -> ta_id r = i -> open_task r = false) ->
  at_stake u d' = at_stake u d /\ evolves d d'.
Proof.
  unfold other_tasks, at_stake, evolves. generalize (db_tasks d) as l, (db_tasks d') as l'.
  induction l as [|t l IH]; intros [|t' l'] Hl Hcl; try done. injection Hl as H Hl.
  destruct (IH l') as (IH1 & IH2 & IH3); [done | by intros; apply Hcl; [right|] |].
  destruct (masked_row i t t' H) as (Hid & Ho & Hsame).
  assert (stake u t' = stake u t /\ (open_task t' = true -> bill t = bill t')) as [Hs Hb].
  { destruct (decide (ta_id t = i)) as [Hi|Hi]; [|by rewrite Hsame].
    assert (open_task t = false) as Hc by (apply Hcl; [by left | done]). unfold stake. rewrite Ho, Hc. by split. }
  cbn. split; [lia|]. split; [by rewrite Hid, <- IH2|].
  intros r' [<-|Hin] Hopen.
  - exists t. split_and!; [by left | congruence | congruence | auto].
  - destruct (IH3 r' Hin Hopen) as (r & ? & ? & ? & ?). exists r. split_and!; auto.
Qed.

(** What a handler may do: the exposure of [u] does not grow, tasks evolve. *)
Definition handled (u : Z) (s s' : St) : Prop :=
  exposure u s' <= exposure u s /\ evolves (st_db s) (st_db s').

Lemma db_tasks_same d : t_set Tasks (db_tasks d) d = d.
Proof. by destruct d. Qed.

Lemma handled_refl u s : handled u s s.
Proof. split; [lia | apply evolves_refl]. Qed.
Lemma handled_trans u s1 s2 s3 : handled u s1 s2 -> handled u s2 s3 -> handled u s1 s3.
Proof. intros [? ?] [? ?]. split; [lia | by eapply evolves_trans]. Qed.
Lemma handled_db u d fs fs' tr : handled u (mkSt d fs tr) (mkSt d fs' tr).
Proof. split; [unfold exposure, balance; cbn; lia | apply evolves_refl]. Qed.

(** A copy on which the polling code has worked: same task, same bill. *)
Definition like (c t : Task) : Prop := ta_id t = ta_id c /\ bill t = bill c.

Lemma copy_like d c t : copy_ok d c -> like c t -> open_task t = true -> copy_ok d t.
Proof.
  intros (Ho & Hq & Hi & Hin & Hb) [Hid Hbill] Hot.
  assert (ta_quota t = ta_quota c) as Eq by (unfold bill in Hbill; congruence).
  split_and!; [done | by rewrite Eq | congruence | by rewrite Hid |]. intros r Hr Hri Hro. rewrite Hbill. apply Hb; congruence.
Qed.

Section Handlers.
Context (u : Z).

(** The swap of a working copy: lost or failed, it changes nothing. *)
Definition swapped (c t' : Task) (s : St) (r : result bool) (s' : St) : Prop :=
  match r with
  | inr true =>
      evolves (st_db s) (st_db s') /\ exposure u s' = exposure u s - owed u c + stake u t' /\
      (forall r', In r' (db_tasks (st_db s')) -> ta_id r' = ta_id c -> open_task r' = open_task t')
  | _ => handled u s s'
  end.

Lemma wp_swap c t' e d fs tr :
  tasks_ok d -> copy_ok d c -> ta_id t' = ta_id c -> (open_task t' = true -> bill t' = bill c) ->
  wp (UpdateWithStatus t' (ta_status c)) (swapped c t' (mkSt d fs tr)) e (mkSt d fs tr).
Proof.
  intros Hok Hc Hid Ht'. unfold UpdateWithStatus. apply wp_bind, wp_update; [intros; apply handled_db|]. intros fs'.
  cbn [t_get Tasks]. destruct (swap_rows d Hok c t' Hc Hid) as [(-> & ->)|(-> & -> & r & Hr & Hro & Hb)].
  - apply wp_ret. rewrite (db_tasks_same d). apply handled_db.
  - apply wp_ret. cbn [Z.ltb]. destruct (swap_evolves u d Hok c t' r Hr Hro Hb Ht') as (He & Hst & Hrows).
    cbn [swapped Z.compare]. split; [exact He|]. split; [|exact Hrows].
    unfold exposure. cbn [st_db]. rewrite Hst. unfold balance, wallet, user_row. cbn. lia.
Qed.

Lemma swapped_open c t' s r s' : like c t' -> swapped c t' s r s' -> open_task t' = true -> handled u s s'.
Proof.
  intros [_ Hb] H Ho. destruct r as [err|[]]; try exact H. destruct H as (He & Hx & _). split; [|done].
  unfold stake in Hx. rewrite Ho, (owed_bill u t' c Hb) in Hx. lia.
Qed.

(** A won terminal swap leaves room for the charge of the copy. *)
Lemma swapped_closed c t' s s1 s2 :
  swapped c t' s (inr true) s1 -> open_task t' = false -> gains u (ta_id c) (owed u c) s1 s2 -> handled u s s2.
Proof.
  intros (He & Hx & Hrows) Ho [Hb Hm]. unfold stake in Hx. rewrite Ho in Hx.
  destruct (masked_tasks u (ta_id c) (st_db s1) (st_db s2) Hm) as [Hst He2]; [intros; rewrite Hrows; auto|].
  split; [|by eapply evolves_trans]. unfold exposure in *. lia.
Qed.
End Handlers.

(** Name the task a swap writes. *)
Ltac set_swap t' :=
  match goal with |- wp (UpdateWithStatus ?t _ ≫= _) _ _ _ => set (t' := t) end.

Section Polls.
Context (settings : RatioSettings) (map_order : list (string * float64) -> list (string * float64)).
Context (RunExpr : string -> string -> gmap string string -> option (float64 * string)).
Context (redact : string -> string) (PersistTaskImages : Task -> option Err * gmap string string).
Context (ServerAddress : string) (timeout max_failures : Z) (u : Z).

(** The swap, and what follows a win. *)
Lemma handled_swap {A} c t' (rest : bool -> M A) e d fs tr :
  tasks_ok d -> copy_ok d c -> ta_id t' = ta_id c -> (open_task t' = true -> bill t' = bill c) ->
  (forall s, wp (rest false) (fun _ s' => handled u s s') e s) ->
  (forall s1, swapped u c t' (mkSt d fs tr) (inr true) s1 -> wp (rest true) (fun _ s' => handled u (mkSt d fs tr) s') e s1) ->
  wp (UpdateWithStatus t' (ta_status c) ≫= rest) (fun _ s' => handled u (mkSt d fs tr) s') e (mkSt d fs tr).
Proof.
  intros Hok Hc Hid Hb Hlost Hwon. apply wp_bind. eapply wp_mono; [by apply wp_swap|].
  intros [err|[]] s1 Hs; cbn in Hs; [done | by apply Hwon |].
  eapply wp_mono; [apply Hlost|]. intros r s2 H2. by eapply handled_trans.
Qed.

(** The same when an error of the swap is only logged. *)
Lemma handled_swap_logged {A} c t' (rest : result bool -> M A) e d fs tr :
  tasks_ok d -> copy_ok d c -> ta_id t' = ta_id c -> (open_task t' = true -> bill t' = bill c) ->
  (forall r s, r <> inr true -> wp (rest r) (fun _ s' => handled u s s') e s) ->
  (forall s1, swapped u c t' (mkSt d fs tr) (inr true) s1 -> wp (rest (inr true)) (fun _ s' => handled u (mkSt d fs tr) s') e s1) ->
  wp (attempt (UpdateWithStatus t' (ta_status c)) ≫= rest) (fun _ s' => handled u (mkSt d fs tr) s') e (mkSt d fs tr).
Proof.
  intros Hok Hc Hid Hb Hlost Hwon. apply wp_bind, wp_attempt. eapply wp_mono; [by apply wp_swap|].
  intros r s1 Hs. destruct (decide (r = inr true)) as [->|Hr]; [by apply Hwon|].
  eapply wp_mono; [by apply Hlost|]. intros r2 s2 H2. eapply handled_trans; [|exact H2].
  by destruct r as [err|[]]; [exact Hs | | exact Hs].
Qed.

(** After a won terminal swap, a computation that gives back at most the charge. *)
Lemma wp_closed {A} (m : M A) c t' s s1 e :
  swapped u c t' s (inr true) s1 -> open_task t' = false ->
  wp m (fun _ s2 => gains u (ta_id c) (owed u c) s1 s2) e s1 ->
  wp m (fun _ s2 => handled u s s2) e s1.
Proof. intros Hs Ho Hm. eapply wp_mono; [exact Hm|]. intros r s2 H2. by eapply swapped_closed. Qed.

Lemma copy_facts d c t : copy_ok d c -> like c t ->
  go_int (ta_quota t) /\ ta_id t = ta_id c /\ owed u t = owed u c.
Proof.
  intros (_ & Hq & _) [Hid Hb]. split_and!; [|done|by apply owed_bill].
  assert (ta_quota t = ta_quota c) as -> by (unfold bill in Hb; congruence). done.
Qed.

Lemma sweep_handled c now e d fs tr : tasks_ok d -> copy_ok d c ->
  wp (sweep_task timeout now c) (fun _ s' => handled u (mkSt d fs tr) s') e (mkSt d fs tr).
Proof.
  intros Hok Hc. unfold sweep_task.
  assert (open_task (sweep_copy timeout now c) = false) as Ho by (unfold sweep_copy; by destruct (isLegacy c)).
  apply handled_swap_logged; try done.
  - unfold sweep_copy. by destruct (isLegacy c).
  - congruence.
  - intros [err|[]] s Hr; try done; apply wp_ret, handled_refl.
  - intros s1 Hs. eapply wp_closed; [exact Hs | done |].
    assert (0 <= owed u c) as H0 by (apply owed_nonneg; apply Hc).
    destruct (isLegacy c) eqn:Hl; cbn [negb andb]; [apply wp_ret; split; [lia | done]|].
    destruct (negb _); [|apply wp_ret; split; [lia | done]].
    destruct (copy_facts d c (sweep_copy timeout now c) Hc) as (Hq & Hid & Hw); [unfold sweep_copy; rewrite Hl; by split|].
    rewrite <- Hw. apply wp_bind. eapply wp_mono; [by apply (RefundTaskQuota_gains u (ta_id c))|].
    intros [err|[b t2]] s2 H2; [exact H2 | apply wp_ret, H2].
Qed.

Context `{TaskPollingAdaptor}.
Abbreviation fail_task := (failTaskFromPoll settings map_order RunExpr).
Abbreviation record_failure := (recordPollFailure settings map_order RunExpr max_failures).

Lemma fail_handled c reason e d fs tr : tasks_ok d -> copy_ok d c ->
  wp (fail_task c (ta_status c) reason) (fun _ s' => handled u (mkSt d fs tr) s') e (mkSt d fs tr).
Proof.
  intros Hok Hc. unfold failTaskFromPoll. apply wp_bind, wp_ask.
  set (t' := poll_failed (env_now e) reason c). assert (like c t') as Hlike by done.
  destruct (copy_facts d c t' Hc Hlike) as (Hq & Hid & Hw).
  apply handled_swap; try done.
  - intros s. apply wp_ret, handled_refl.
  - intros s1 Hs. eapply wp_closed; [exact Hs | done |]. cbn [negb]. rewrite <- Hw, <- Hid.
    apply (settle_then_refund settings map_order RunExpr u (ta_id t') t' (FailTaskInfo reason)
      (fun settled t => negb settled && negb (ta_quota t =? 0))); done.
Qed.

Lemma record_handled c class code detail e d fs tr : tasks_ok d -> copy_ok d c ->
  wp (record_failure c (ta_status c) class code detail) (fun _ s' => handled u (mkSt d fs tr) s') e (mkSt d fs tr).
Proof.
  intros Hok Hc. unfold recordPollFailure.
  assert (like c (count_failure c)) as Hl by done.
  destruct (_ && _).
  - apply (fail_handled (count_failure c)); [done|]. apply (copy_like d c); [done | done | by apply Hc].
  - apply handled_swap; try done.
    + intros s. apply wp_ret, handled_refl.
    + intros s1 Hs. apply wp_ret. by apply (swapped_open u c _ _ _ _ Hl Hs), Hc.
Qed.

Lemma resume_handled c e d fs tr : tasks_ok d -> copy_ok d c ->
  wp (resumeTaskImagePersistence settings map_order RunExpr PersistTaskImages ServerAddress c)
     (fun _ s' => handled u (mkSt d fs tr) s') e (mkSt d fs tr).
Proof.
  intros Hok Hc. unfold resumeTaskImagePersistence.
  destruct (ta_image_completion c) as [info|]; [|apply wp_raise, handled_refl].
  destruct (str_eqb (ta_status c) TaskStatusPersisting) eqn:Hst; [|apply wp_raise, handled_refl]. cbn [negb].
  apply str_eqb_true in Hst. rewrite <- Hst. destruct (PersistTaskImages c) as [[err|] artifacts].
  - set_swap t'. assert (like c t') as Hl by done.
    apply (handled_swap c t'); try done.
    + intros s. apply wp_raise, handled_refl.
    + intros s1 Hs. apply wp_raise. by apply (swapped_open u c _ _ _ _ Hl Hs), Hc.
  - destruct (decide _); [apply wp_raise, handled_refl|]. apply wp_bind, wp_ask. cbv zeta.
    set_swap t'. assert (like c t') as Hl by done.
    destruct (copy_facts d c t' Hc Hl) as (Hq & Hid & Hw). apply (handled_swap c t'); try done.
    + intros s. apply wp_ret, handled_refl.
    + intros s1 Hs. eapply wp_closed; [exact Hs | done |]. rewrite <- Hw, <- Hid. cbn [when].
      apply wp_bind. eapply wp_mono; [by apply settle_settles|]. pose proof (owed_nonneg u t' Hq).
      intros [err|[[] t2]] s2 H2; cbn in H2; [done | by apply wp_ret|]. apply wp_ret.
      by apply (gains_weaken u (ta_id t') 0); [apply H2|].
Qed.

(** ** Answers *)

(** Same task and bill, and the same state. *)
Definition alike (c t : Task) : Prop := like c t /\ ta_status t = ta_status c.
Lemma alike_trans c t t' : alike c t -> alike t t' -> alike c t'.
Proof. intros [[] ?] [[] ?]. split; [split|]; congruence. Qed.
Lemma like_trans c t t' : like c t -> like t t' -> like c t'.
Proof. intros [] []. split; congruence. Qed.

Lemma alike_clear info c : alike c (clear_failures info c).
Proof. unfold clear_failures. by destruct (isNonTerminalPollStatus _). Qed.

Lemma like_received body info c : alike c (received redact body info c).
Proof.
  unfold received. cbv zeta. eapply alike_trans; [|apply alike_clear]. by destruct (negb _).
Qed.

Lemma like_at_status now info c : like c (at_status ServerAddress now info c).
Proof.
  unfold at_status. cbv zeta. do 5 (destruct (str_eqb _ _); [by split|]). by split.
Qed.

Lemma like_advance now info c : like c (advance ServerAddress now info c).
Proof.
  unfold advance. destruct (like_at_status now info (c <| ta_status := ti_status info |>)) as [Hi Hb].
  cbv zeta. destruct (negb _); by split.
Qed.

Lemma open_done t : open_task t = negb (isDone t).
Proof. unfold open_task, isDone. by destruct (str_eqb _ _), (str_eqb _ _). Qed.

(** An open copy and a finished one have different states. *)
Lemma open_status t t' : open_task t = true -> isDone t' = true -> str_eqb (ta_status t) (ta_status t') = false.
Proof.
  intros Ho Hd. apply str_eqb_false. intros E. unfold open_task, isDone in *. rewrite E in Ho.
  by destruct (str_eqb _ TaskStatusFailure), (str_eqb _ TaskStatusSuccess).
Qed.

(** The billing of a transition won from a copy. *)
Lemma finalize_handled c t' info s s1 e d : copy_ok d c -> like c t' -> isDone t' = true ->
  swapped u c t' s (inr true) s1 ->
  wp (finalize_billing settings map_order RunExpr t' info) (fun _ s' => handled u s s') e s1.
Proof.
  intros Hc Hl Hd Hs. destruct (copy_facts d c t' Hc Hl) as (Hq & Hid & Hw).
  eapply wp_closed; [exact Hs | by rewrite open_done, Hd |]. rewrite <- Hw. by apply finalize_gains.
Qed.

Abbreviation resume := (resumeTaskImagePersistence settings map_order RunExpr PersistTaskImages ServerAddress).

Lemma swapped_copy c t' d fs tr s1 : copy_ok d c -> like c t' -> open_task t' = true ->
  swapped u c t' (mkSt d fs tr) (inr true) s1 -> copy_ok (st_db s1) t'.
Proof.
  intros Hc Hl Ho (He & _). apply (evolves_copy _ _ _ He). by apply (copy_like d c).
Qed.

Lemma apply_handled c snap info e d fs tr : tasks_ok d -> copy_ok d c -> sn_Status snap = ta_status c ->
  wp (apply_answer settings map_order RunExpr PersistTaskImages ServerAddress snap info c)
     (fun _ s' => handled u (mkSt d fs tr) s') e (mkSt d fs tr).
Proof.
  intros Hok Hc Hsn. unfold apply_answer. rewrite Hsn. destruct (_ && _).
  - cbv zeta. set_swap t'. assert (like c t') as Hl by done. apply (handled_swap c t'); try done.
    + intros s. apply wp_ret, handled_refl.
    + intros s1 Hs. cbn [when]. pose proof (swapped_copy c t' d fs tr s1 Hc Hl eq_refl Hs) as Hc1.
      pose proof (swapped_open u c t' _ _ _ Hl Hs eq_refl) as Hh. destruct s1 as [d1 f1 t1].
      eapply wp_mono; [apply resume_handled; [by eapply evolves_tasks_ok; [apply Hh|] | done]|].
      intros r s2 H2. by eapply handled_trans.
  - apply wp_bind, wp_ask. cbv zeta. set (info' := reported info). set (t' := advance ServerAddress (env_now e) info' c).
    assert (like c t') as Hl by apply like_advance. assert (open_task c = true) as Hoc by apply Hc.
    destruct (isDone t') eqn:Hd.
    + rewrite (open_status c t' Hoc Hd). cbn [negb andb].
      assert (open_task t' = false) as Ho by (by rewrite open_done, Hd).
      apply (handled_swap_logged c t'); try done; [apply Hl | congruence | |].
      * intros [err|[]] s Hr; try done; apply wp_ret, handled_refl.
      * intros s1 Hs. by apply (finalize_handled c t' info' _ _ e d).
    + cbn [andb when]. assert (open_task t' = true) as Ho by (by rewrite open_done, Hd).
      apply wp_bind. destruct (negb (Equal snap (Snapshot t'))); [|apply wp_ret; apply wp_ret, handled_refl].
      apply (wp_mono _ (fun _ s' => handled u (mkSt d fs tr) s')); [|intros [err|a] s2 H2; [exact H2 | apply wp_ret, H2]].
      unfold logged. apply (handled_swap_logged c t'); try done; [apply Hl | intros; apply Hl | |].
      * intros r s _. apply wp_ret, handled_refl.
      * intros s1 Hs. apply wp_ret. by apply (swapped_open u c t' _ _ _ Hl Hs).
Qed.

Lemma poll_handled c e d fs tr : tasks_ok d -> copy_ok d c ->
  wp (updateVideoSingleTask settings map_order RunExpr redact PersistTaskImages ServerAddress max_failures c)
     (fun _ s' => handled u (mkSt d fs tr) s') e (mkSt d fs tr).
Proof.
  intros Hok Hc. unfold updateVideoSingleTask. cbv zeta. change (sn_Status (Snapshot c)) with (ta_status c).
  destruct (FetchTask c) as [err|[code [err|body]]]; [by apply record_handled..|].
  destruct (str_eqb _ _); [by apply fail_handled|]. destruct (str_eqb _ _); [by apply record_handled|].
  destruct (str_eqb _ _); [by apply record_handled|].
  destruct (parse_answer c code body) as [t parsed] eqn:E.
  assert (like c t /\ ta_status t = ta_status c) as [Hl Hst]
    by (unfold parse_answer in E; destruct (ParseNewAPI body); by injection E as <- <-).
  assert (copy_ok d t) as Hct by (apply (copy_like d c); [done..|]; unfold open_task; rewrite Hst; apply Hc).
  rewrite <- Hst. destruct parsed as [err|info]; [by apply record_handled|].
  destruct (unusable _ _); [by apply record_handled|].
  destruct (like_received body info t) as [Hlr Hsr].
  apply apply_handled; [done | | by rewrite Hsr].
  apply (copy_like d t); [done..|]. unfold open_task. rewrite Hsr. apply Hct.
Qed.

Lemma like_batch item c : like c (batch_advance item c).
Proof.
  unfold batch_advance. apply (like_trans _ (batch_columns item (clear_failures (bt_TaskInfo item) c))).
  - apply (like_trans _ (clear_failures (bt_TaskInfo item) c)); [apply alike_clear | done].
  - generalize (batch_columns item (clear_failures (bt_TaskInfo item) c)) as t. intros t.
    apply (like_trans _ (batch_terminal (bt_TaskInfo item) t)); [|done].
    unfold batch_terminal. cbv zeta. destruct (_ || _), (str_eqb (ti_status _) _); by split.
Qed.

Lemma batch_handled c code item e d fs tr : tasks_ok d -> copy_ok d c ->
  wp (update_batch_item settings map_order RunExpr max_failures code item c)
     (fun _ s' => handled u (mkSt d fs tr) s') e (mkSt d fs tr).
Proof.
  intros Hok Hc. unfold update_batch_item. cbv zeta. change (sn_Status (Snapshot c)) with (ta_status c).
  destruct (unusable _ _).
  - unfold logged. apply wp_bind, wp_attempt. eapply wp_mono; [by apply record_handled|]. intros r s' Hs. by apply wp_ret.
  - set (t' := batch_advance item c). pose proof (like_batch item c) as Hl. fold t' in Hl.
    apply (handled_swap_logged c t'); try done; [apply Hl | intros; apply Hl | |].
    + intros [err|[]] s Hr; try done; apply wp_ret, handled_refl.
    + intros s1 Hs. destruct (isDone t') eqn:Hd.
      * rewrite (open_status c t') by (by try apply Hc). cbn [negb andb when]. by apply (finalize_handled c t' _ _ _ e d).
      * apply wp_ret. apply (swapped_open u c t' _ _ _ Hl Hs). by rewrite open_done, Hd.
Qed.
End Polls.

(** ** Any number of pollers *)

(** The tables and the queued changes, the copies pollers hold, and the tasks
    accepted so far. *)
Record Polling := mkPolling {
  po_db : DB;
  po_trace : list effect;
  po_copies : list Task;
  po_accepted : list Task
}.

(** The balance of [u], queued changes included. *)
Definition po_balance (u : Z) (p : Polling) : Z := balance u (mkSt (po_db p) [] (po_trace p)).
Definition charged (u : Z) (p : Polling) : Z := sum_rows (owed u) (po_accepted p).

Section System.
Context (settings : RatioSettings) (map_order : list (string * float64) -> list (string * float64)).
Context (RunExpr : string -> string -> gmap string string -> option (float64 * string)).
Context (redact : string -> string) (PersistTaskImages : Task -> option Err * gmap string string).
Context (ServerAddress : string) (timeout max_failures : Z).

(** What a poller may do with a copy; the provider is any. *)
Inductive handles (c : Task) : M unit -> Prop :=
  | handles_answer (adaptor : TaskPollingAdaptor) :
      handles c (updateVideoSingleTask settings map_order RunExpr redact PersistTaskImages ServerAddress max_failures c)
  | handles_item (adaptor : TaskPollingAdaptor) code item :
      handles c (update_batch_item settings map_order RunExpr max_failures code item c)
  | handles_failure (adaptor : TaskPollingAdaptor) reason :
      handles c (failTaskFromPoll settings map_order RunExpr c (ta_status c) reason)
  | handles_no_answer (adaptor : TaskPollingAdaptor) class code detail :
      handles c (recordPollFailure settings map_order RunExpr max_failures c (ta_status c) class code detail)
  | handles_images (adaptor : TaskPollingAdaptor) :
      handles c (resumeTaskImagePersistence settings map_order RunExpr PersistTaskImages ServerAddress c)
  | handles_sweep now : handles c (sweep_task timeout now c).

(** The queries pollers load their copies with. *)
Inductive loads : M (list Task) -> Prop :=
  | loads_unfinished limit : loads (GetAllUnFinishSyncTasks limit)
  | loads_overdue cutoff limit : loads (GetTimedOutUnfinishedTasks cutoff limit).

Inductive poll_step (p : Polling) : Polling -> Prop :=
  | poll_accept e fs t t' s' :
      ta_id t = 0 -> go_int (ta_quota t) ->
      create Tasks t e (mkSt (po_db p) fs (po_trace p)) = (inr t', s') ->
      poll_step p (mkPolling (st_db s') (st_trace s') (po_copies p) (t' :: po_accepted p))
  | poll_load query e fs tasks s' :
      loads query -> query e (mkSt (po_db p) fs (po_trace p)) = (inr tasks, s') ->
      poll_step p (mkPolling (st_db s') (st_trace s') (tasks ++ po_copies p) (po_accepted p))
  | poll_handle l1 c l2 m e fs :
      po_copies p = l1 ++ c :: l2 -> handles c m ->
      let s' := snd (m e (mkSt (po_db p) fs (po_trace p))) in
      poll_step p (mkPolling (st_db s') (st_trace s') (l1 ++ l2) (po_accepted p))
  | poll_bulk ids reason e fs :
      let s' := snd (TaskBulkUpdateByID ids reason e (mkSt (po_db p) fs (po_trace p))) in
      poll_step p (mkPolling (st_db s') (st_trace s') (po_copies p) (po_accepted p)).

Definition polling_ok (p : Polling) : Prop := tasks_ok (po_db p) /\ Forall (copy_ok (po_db p)) (po_copies p).

(** What the balance may still grow by. *)
Definition potential (u : Z) (p : Polling) : Z := po_balance u p + at_stake u (po_db p) - charged u p.

Lemma handles_handled u c m e d fs tr : tasks_ok d -> copy_ok d c -> handles c m ->
  handled u (mkSt d fs tr) (snd (m e (mkSt d fs tr))).
Proof.
  intros Hok Hc Hm.
  assert (wp m (fun _ s' => handled u (mkSt d fs tr) s') e (mkSt d fs tr)) as H;
    [|unfold wp in H; by destruct (m e _)].
  destruct Hm.
  - by apply poll_handled.
  - by apply batch_handled.
  - by apply fail_handled.
  - by apply record_handled.
  - by apply resume_handled.
  - by apply sweep_handled.
Qed.

(** A handled step from the tables of [p]. *)
Lemma potential_handled u p s' copies :
  polling_ok p -> (forall c, In c copies -> In c (po_copies p)) ->
  (forall fs, handled u (mkSt (po_db p) fs (po_trace p)) s') ->
  let p' := mkPolling (st_db s') (st_trace s') copies (po_accepted p) in
  polling_ok p' /\ potential u p' <= potential u p.
Proof.
  intros [Hok Hc] Hsub Hh p'. destruct (Hh []) as [Hx He]. split.
  - split; [by eapply evolves_tasks_ok|]. rewrite Forall_forall. intros c Hin%list_elem_of_In.
    eapply evolves_copy; [exact He|]. rewrite Forall_forall in Hc. by apply Hc, list_elem_of_In, Hsub.
  - unfold potential, po_balance, charged, exposure, balance in *. cbn in *. lia.
Qed.

Lemma find_all_rows {R} (T : Table R) p e s rows s' :
  rows_or_none (find_all T p) e s = (inr rows, s') ->
  st_db s' = st_db s /\ st_trace s' = st_trace s /\ forall r, In r rows -> In r (t_get T (st_db s)) /\ p r = true.
Proof.
  destruct s as [d [|[k|] fs] tr]; cbn; intros [= <- <-]; split_and!; try done; intros r Hr; by apply filter_In in Hr.
Qed.

Lemma take_rows {R} n (l : list R) r : In r (take n l) -> In r l.
Proof. rewrite <- !list_elem_of_In. intros (i & ? & _)%elem_of_take. by eapply list_elem_of_lookup_2. Qed.

Lemma loads_rows query e s tasks s' : loads query -> query e s = (inr tasks, s') ->
  st_db s' = st_db s /\ st_trace s' = st_trace s /\
  forall t, In t tasks -> In t (db_tasks (st_db s)) /\ open_task t = true.
Proof.
  intros [limit|cutoff limit].
  - unfold GetAllUnFinishSyncTasks, mbind, M_bind. destruct (rows_or_none _ e s) as [[err|rows] s1] eqn:E; [done|].
    intros [= <- <-]. destruct (find_all_rows _ _ _ _ _ _ E) as (H1 & H2 & H3). split_and!; try done.
    intros t Ht%take_rows. destruct (H3 t Ht) as [? Hu]. split; [done|].
    unfold unfinished, open_task in *. by destruct (negb (str_eqb (ta_progress t) _)).
  - unfold GetTimedOutUnfinishedTasks, mbind, M_bind. destruct (rows_or_none _ e s) as [[err|rows] s1] eqn:E; [done|].
    intros [= <- <-]. destruct (find_all_rows _ _ _ _ _ _ E) as (H1 & H2 & H3). split_and!; try done.
    intros t Ht%take_rows. rewrite <- list_elem_of_In, merge_sort_Permutation, list_elem_of_In in Ht.
    destruct (H3 t Ht) as [? Hu]. split; [done|]. unfold open_task.
    apply andb_true_iff in Hu as [[_ Hu]%andb_true_iff _]. cbn in Hu.
    by destruct (str_eqb _ TaskStatusFailure), (str_eqb _ TaskStatusSuccess).
Qed.

Lemma loaded_copy d t : tasks_ok d -> In t (db_tasks d) -> open_task t = true -> copy_ok d t.
Proof.
  intros [Hu Hok] Hin Ho. destruct (Hok t Hin) as [Hi Hq]. split_and!; auto.
  - apply list_elem_of_fmap. exists t. by rewrite list_elem_of_In.
  - intros r Hr Hid _. pose proof (find_unique _ _ has_task_spec (ta_id t) r _ Hu Hr Hid).
    pose proof (find_unique _ _ has_task_spec (ta_id t) t _ Hu Hin eq_refl). congruence.
Qed.

Lemma create_task t e d fs tr t' s' : ta_id t = 0 ->
  create Tasks t e (mkSt d fs tr) = (inr t', s') ->
  t' = t <| ta_id := next_id ta_id (db_tasks d) |> /\ st_trace s' = tr /\
  st_db s' = t_set Tasks (db_tasks d ++ [t']) d.
Proof.
  intros Hi. unfold create, stmt. cbn [st_faults st_db st_trace t_get t_set t_assign Tasks]. unfold assign_id. rewrite Hi. cbn [Z.eqb].
  destruct fs as [|[k|] fs]; [|done|];
    (destruct (List.existsb _ _); [done|]); by intros [= <- <-].
Qed.

Lemma next_id_positive {R} (id : R -> Z) rows : 0 < next_id id rows.
Proof.
  unfold next_id. assert (0 <= List.fold_right (fun r m => Z.max (id r) m) 0 rows); [|lia].
  induction rows; cbn; lia.
Qed.

(** A new row: the copies refer to older ones. *)
Lemma accept_ok u t t' e fs s' p :
  polling_ok p -> ta_id t = 0 -> go_int (ta_quota t) ->
  create Tasks t e (mkSt (po_db p) fs (po_trace p)) = (inr t', s') ->
  let p' := mkPolling (st_db s') (st_trace s') (po_copies p) (t' :: po_accepted p) in
  polling_ok p' /\ potential u p' <= potential u p.
Proof.
  intros [Hok Hc] Hi Hq E p'. destruct (create_task t e _ _ _ _ _ Hi E) as (-> & Htr & Hd).
  set (d := po_db p) in *. set (t' := t <| ta_id := next_id ta_id (db_tasks d) |>) in *.
  assert (ta_id t' = next_id ta_id (db_tasks d)) as Hid by done.
  assert (forall r, In r (db_tasks d) -> ta_id r <> ta_id t') as Hfresh
    by (intros r Hr; rewrite Hid; pose proof (next_id_fresh ta_id (db_tasks d) r Hr); lia).
  assert (db_tasks (st_db s') = db_tasks d ++ [t']) as Hrows by (rewrite Hd; done).
  split; [split|].
  - unfold p', tasks_ok. cbn [po_db]. rewrite Hrows. split; [by apply app_unique; [apply Hok|]|].
    intros r [Hr|[<-|[]]]%in_app_or; [by apply Hok|]. split; [|done].
    rewrite Hid. pose proof (next_id_positive ta_id (db_tasks d)). lia.
  - rewrite Forall_forall in Hc |- *. intros c Hin. destruct (Hc c Hin) as (Ho & Hqc & Hic & Hex & Hb).
    unfold p', copy_ok. cbn [po_db]. rewrite Hrows, fmap_app. split_and!; try done; [by apply elem_of_app; left|].
    intros r [Hr|[<-|[]]]%in_app_or Hri; [by apply Hb|]. exfalso.
    apply list_elem_of_fmap in Hex as (r & Hrc & Hr%list_elem_of_In). apply (Hfresh r Hr). congruence.
  - unfold potential, po_balance, charged, at_stake, balance, wallet, user_row, p'. cbn [po_db po_trace po_accepted st_db st_trace].
    rewrite Hrows, Htr, sum_rows_app, Hd. cbn [sum_rows db_users t_set Tasks].
    change (db_users (t_set Tasks (db_tasks d ++ [t']) d)) with (db_users d).
    fold d. assert (stake u t' <= owed u t'); [|lia].
    unfold stake. destruct (open_task t'); [lia | by apply owed_nonneg].
Qed.

(** Failing tasks in bulk, without a swap, only closes them. *)
Lemma bulk_handled u ids reason e d fs tr : tasks_ok d ->
  handled u (mkSt d fs tr) (snd (TaskBulkUpdateByID ids reason e (mkSt d fs tr))).
Proof.
  intros Hok. unfold TaskBulkUpdateByID. destruct ids as [|i ids]; [apply handled_refl|].
  set (p := fun t => bool_decide (ta_id t ∈ i :: ids)).
  assert (wp (update Tasks p (bulk_failed reason) ;; mret tt) (fun _ s' => handled u (mkSt d fs tr) s') e (mkSt d fs tr)) as H;
    [|unfold wp in H; by destruct ((update Tasks p (bulk_failed reason) ;; mret tt) e (mkSt d fs tr))].
  apply wp_bind, wp_update; [intros; apply handled_db|]. intros fs'. apply wp_ret. cbn [t_get Tasks].
  assert (forall t, ta_id (bulk_failed reason t) = ta_id t /\ open_task (bulk_failed reason t) = false) as Hf
    by (intros t; unfold bulk_failed; by destruct reason).
  split.
  - unfold exposure, balance, wallet, user_row, at_stake. cbn.
    change (List.map _ (db_tasks d)) with (upd_rows p (bulk_failed reason) (db_tasks d)).
    assert (sum_rows (stake u) (upd_rows p (bulk_failed reason) (db_tasks d)) <= sum_rows (stake u) (db_tasks d)); [|lia].
    destruct Hok as [_ Hok]. induction (db_tasks d) as [|t l IH]; [done|]. cbn.
    assert (stake u (if p t then bulk_failed reason t else t) <= stake u t).
    { destruct (p t); [|lia]. unfold stake. rewrite (proj2 (Hf t)). destruct (open_task t) eqn:Ho; [|lia].
      apply owed_nonneg. by apply (Hok t); [left|]. }
    specialize (IH (fun r Hr => Hok r (or_intror Hr))). unfold upd_rows in IH. lia.
  - split; [cbn; apply fmap_upd_kept; intros; apply Hf|]. cbn. intros r' Hin Ho.
    apply in_map_iff in Hin as (r & <- & Hr). destruct (p r); [by rewrite (proj2 (Hf r)) in Ho|]. by exists r.
Qed.

Lemma poll_step_ok u p p' : polling_ok p -> poll_step p p' -> polling_ok p' /\ potential u p' <= potential u p.
Proof.
  intros Hp [e fs t t' s' Hi Hq E|query e fs tasks s' Hl E|l1 c l2 m e fs Hcs Hm s'|ids reason e fs s'].
  - by eapply accept_ok.
  - destruct (loads_rows query e _ _ _ Hl E) as (Hd & Htr & Hin). cbn in Hd, Htr. rewrite Hd, Htr.
    split; [|done]. destruct Hp as [Hok Hc]. split; [done|]. cbn [po_copies po_db]. apply Forall_app. split; [|done].
    rewrite Forall_forall. intros t [Ht Ho]%list_elem_of_In%Hin. by apply loaded_copy.
  - apply potential_handled; [done | |].
    + intros c' Hc'. rewrite Hcs. apply in_app_iff in Hc' as [?|?]; apply in_app_iff; [by left | by right; right].
    + intros fs2. destruct Hp as [Hok Hc]. apply (handled_trans u _ (mkSt (po_db p) fs (po_trace p))); [apply handled_db|].
      apply handles_handled with c; try done. rewrite Hcs, Forall_app, Forall_cons in Hc. by apply Hc.
  - apply potential_handled; [done | done |]. intros fs2.
    apply (handled_trans u _ (mkSt (po_db p) fs (po_trace p))); [apply handled_db|]. apply bulk_handled, Hp.
Qed.

(** C20. The end of asynchronous tasks never pays out more than they were
    charged: whatever tasks are accepted, whatever copies pollers hold and
    however stale, in whatever order they act on them, whatever the providers
    answer and whichever statement fails, the balance of a wallet (with its
    queued changes) exceeds what it was by no more than the charges of the
    tasks that were unfinished at the start and of those accepted since.  In
    particular no charge is refunded twice. *)
Theorem polling_never_overpays u p p' :
  polling_ok p -> rtc poll_step p p' ->
  po_balance u p' <= po_balance u p + at_stake u (po_db p) + (charged u p' - charged u p).
Proof.
  intros Hp Hrun.
  assert (polling_ok p' /\ potential u p' <= potential u p) as [[Hok' _] Hpot].
  { induction Hrun as [p|p1 p2 p3 H12 _ IH]; [by split; [|lia]|].
    destruct (poll_step_ok u p1 p2 Hp H12) as [H2 ?]. destruct (IH H2). split; [done | lia]. }
  assert (0 <= at_stake u (po_db p')); [|unfold potential in Hpot; lia].
  unfold at_stake. destruct Hok' as [_ Hok']. induction (db_tasks (po_db p')) as [|t l IH]; [done|]. cbn.
  assert (0 <= stake u t); [|specialize (IH (fun r Hr => Hok' r (or_intror Hr))); lia].
  unfold stake. destruct (open_task t) eqn:Ho; [|done]. apply owed_nonneg. by apply (Hok' t); [left|].
Qed.
End System.

(** ** A run: two pollers hold a copy of one task *)

Module TaskDemo.
Definition settings : RatioSettings := mkRatioSettings ∅ false ∅ ∅.
Definition order (l : list (string * float64)) : list (string * float64) := l.
Definition no_engine (_ _ : string) (_ : gmap string string) : option (float64 * string) := None.
Definition plain (s : string) : string := s.
Definition no_images (_ : Task) : option Err * gmap string string := (None, ∅).

Lemma zero_in_range : in_i64 0.
Proof. by vm_compute. Qed.
(** A provider that cannot be reached. *)
#[export] Instance unreachable : TaskPollingAdaptor := {|
  FetchTask _ := inl (EText "dial tcp");
  ParseNewAPI _ := None;
  ParseTaskResult _ _ _ := inl (EText "no answer");
  AdjustBillingOnComplete _ _ := 0;
  adjust_in_range _ _ := zero_in_range
|}.

(** A video task of user 1 and key 7, charged 300 from the wallet. *)
Definition task : Task :=
  mkTask 0 "task_1" "51" 1 "default" 5 300 "generate" TaskStatusInProgress "" 1780000000 0 0 "30%" "" "m" ""
    None ∅ "up-1" "" BillingSourceWallet 0 7 "" None "" 0 None.

Definition env : Env :=
  mkEnv 1790000000 (fixed_zone 0) false false false false true true false (S754_finite false 500000 0)
    (fun _ => None) (fun _ => inl ErrRecordNotFound).
Definition at_db (p : Polling) : St := mkSt (po_db p) [] (po_trace p).

Definition start : Polling := mkPolling Demo.db [] [] [].
Definition row : Task := task <| ta_id := 1 |>.
Definition submitted : Polling :=
  mkPolling (t_set Tasks [row] Demo.db) [] [] [row].
Definition loaded : Polling := mkPolling (po_db submitted) [] [row] [row].
Definition loaded_twice : Polling := mkPolling (po_db submitted) [] [row; row] [row].

Abbreviation poll := (updateVideoSingleTask settings order no_engine plain no_images "" 1 row).
Definition answered : Polling :=
  let s' := snd (poll env (at_db loaded_twice)) in mkPolling (st_db s') (st_trace s') [row] [row].
Definition swept : Polling :=
  let s' := snd (sweep_task 1440 1790000000 row env (at_db answered)) in mkPolling (st_db s') (st_trace s') [] [row].

Abbreviation demo_step := (poll_step settings order no_engine plain no_images "" 1440 1).

Lemma race_run : rtc demo_step start swept.
Proof.
  apply (rtc_l _ start submitted).
  { exact (poll_accept _ _ _ _ _ _ _ _ start env [] task row (mkSt (po_db submitted) [] []) eq_refl
      (bool_decide_unpack (0 <= 300 < 2 ^ 63) I) eq_refl). }
  apply (rtc_l _ submitted loaded).
  { exact (poll_load _ _ _ _ _ _ _ _ submitted _ env [] [row] (at_db submitted) (loads_unfinished 100) eq_refl). }
  apply (rtc_l _ loaded loaded_twice).
  { exact (poll_load _ _ _ _ _ _ _ _ loaded _ env [] [row] (at_db loaded) (loads_unfinished 100) eq_refl). }
  apply (rtc_l _ loaded_twice answered).
  { exact (poll_handle _ _ _ _ _ _ _ _ loaded_twice [] row [row] poll env [] eq_refl
      (handles_answer _ _ _ _ _ _ _ _ row unreachable)). }
  apply (rtc_l _ answered swept); [|apply rtc_refl].
  exact (poll_handle _ _ _ _ _ _ _ _ answered [] row [] (sweep_task 1440 1790000000 row) env [] eq_refl
      (handles_sweep _ _ _ _ _ _ _ _ row 1790000000)).
Qed.
Lemma start_ok : polling_ok start.
Proof. split; [split; [apply NoDup_nil_2 | intros t []] | done]. Qed.
End TaskDemo.

(** The task fails once, and is refunded once. *)
Lemma polling_never_overpays_witness :
  po_balance 1 TaskDemo.swept <= po_balance 1 TaskDemo.start + 300 /\ po_balance 1 TaskDemo.swept = po_balance 1 TaskDemo.start + 300.
Proof.
  split; [|by vm_compute].
  exact (polling_never_overpays TaskDemo.settings TaskDemo.order TaskDemo.no_engine TaskDemo.plain TaskDemo.no_images
    "" 1440 1 1 TaskDemo.start TaskDemo.swept TaskDemo.start_ok TaskDemo.race_run).
Defined.
