(* ===== verification/TaskRefunds.v ===== *)
(** * TaskRefunds: what one refund does

    Without a driver failure the refund of a task charged to a wallet returns
    the whole charge and clears it, whatever else is wrong with the key or the
    statistics; a timed-out task gets it once; a task from before refunds were
    kept track of gets none; and a task that a subscription
    paid for gets it from the wrong source. *)

From S2P Require Import Prelude Schema Store Logic Frame Ledger Demo Quota Subscription UserQuota BillingSession BillingSessionTheorems Tasks TaskBilling TaskPolling TaskFacts TaskTheorems.
From stdpp Require Import base numbers option strings list gmap.
From Stdlib Require Import ZArith Lia.
Open Scope Z_scope.

(** A step of bookkeeping: it always ends in a value, spends no driver failure
    it was not given, and moves neither a balance nor a task nor a subscription. *)
Definition books (d : DB) := (db_tasks d, db_subs d).
Definition tidy {A} (u : Z) (c : M A) : Prop :=
  forall e s, st_faults s = [] ->
    (exists a, fst (c e s) = inr a) /\ st_faults (snd (c e s)) = [] /\
    balance u (snd (c e s)) = balance u s /\ books (st_db (snd (c e s))) = books (st_db s).

Lemma tidy_intro {A} u (c : M A) :
  (forall e s, exists a, fst (c e s) = inr a) -> faultless c -> respects (calm u 0) c ->
  respects (tables (same books)) c -> tidy u c.
Proof.
  intros Hv Hf Hc Hb e s Hs. split_and!; [apply Hv | by apply Hf | apply Hc | apply Hb].
Qed.

Lemma logged_value {A} (m : M A) e s : exists a, fst (logged m e s) = inr a.
Proof. exists tt. unfold logged, mbind, M_bind, attempt. by destruct (m e s). Qed.

Section Tidy.
Context (u : Z).

Lemma tidy_token task delta : tidy u (taskAdjustTokenQuota task delta).
Proof.
  apply tidy_intro; [|unfold taskAdjustTokenQuota, resolveTokenKey, GetTokenById, logged, DecreaseTokenQuota,
    IncreaseTokenQuota, decreaseTokenQuota, increaseTokenQuota; faultless_auto| auto with respects |
    unfold taskAdjustTokenQuota, resolveTokenKey, GetTokenById, logged, DecreaseTokenQuota, IncreaseTokenQuota,
    decreaseTokenQuota, increaseTokenQuota; respects_auto].
  intros e s. unfold taskAdjustTokenQuota. destruct (_ || _); [by exists tt|].
  unfold resolveTokenKey, attempt, mbind, M_bind at 1 2. destruct (GetTokenById _ e s) as [[err|tk] s']; cbn.
  - by exists tt.
  - destruct (str_eqb _ _); [by exists tt | apply logged_value].
Qed.

Lemma tidy_usage v x : tidy u (UpdateUserUsedQuota v x).
Proof.
  apply tidy_intro; [|unfold UpdateUserUsedQuota, logged; faultless_auto | auto with respects |
    unfold UpdateUserUsedQuota, logged; respects_auto].
  intros e s. unfold UpdateUserUsedQuota, ask, mbind, M_bind at 1. destruct (env_batch e); [by exists tt | apply logged_value].
Qed.
Lemma tidy_channel v x : tidy u (UpdateChannelUsedQuota v x).
Proof.
  apply tidy_intro; [|unfold UpdateChannelUsedQuota, updateChannelUsedQuota, logged; faultless_auto | auto with respects |
    unfold UpdateChannelUsedQuota, updateChannelUsedQuota, logged; respects_auto].
  intros e s. unfold UpdateChannelUsedQuota, ask, mbind, M_bind at 1. destruct (env_batch e); [by exists tt | apply logged_value].
Qed.
Lemma tidy_log v ty x : tidy u (RecordTaskBillingLog v ty x).
Proof.
  apply tidy_intro; [|unfold RecordTaskBillingLog; faultless_auto | auto with respects |
    unfold RecordTaskBillingLog; respects_auto].
  intros e s. unfold RecordTaskBillingLog, ask, emit, mbind, M_bind, when.
  destruct (_ && _); [by exists tt|]. destruct (_ && _); by exists tt.
Qed.
End Tidy.

Lemma wp_tidy {A B} u (c : M A) (f : A -> M B) Q e s :
  tidy u c -> st_faults s = [] ->
  (forall a s', st_faults s' = [] -> balance u s' = balance u s -> books (st_db s') = books (st_db s) ->
    wp (f a) Q e s') -> wp (c ≫= f) Q e s.
Proof.
  intros Hc Hs HQ. destruct (Hc e s Hs) as ([a Ha] & Hf & Hb & Hk). apply wp_bind. unfold wp at 1.
  destruct (c e s) as [r s']. cbn in *. subst r. by apply HQ.
Qed.

(** ** The refund of a wallet task *)

Definition cleared (t : Task) : Task := t <| ta_quota := 0 |>.

Section Refund.
Context (e : Env) (u q : Z) (d : DB) (tr : list effect).
Context (Hq : positive_int q) (Hmax : ValidateWalletQuota q = true).
Context (Hwf : unique_key u_id (db_users d)) (Hlive : live_user d u = true) (Hroom : wallet d u + q <= MaxWalletQuota).

Lemma run_cache delta s : exists s', cacheIncrUserQuota u delta e s = (inr tt, s') /\
  st_db s' = st_db s /\ st_faults s' = st_faults s /\ balance u s' = balance u s.
Proof.
  unfold cacheIncrUserQuota, ask, when, emit, mbind, M_bind. destruct (env_redis e); [|by exists s].
  eexists. split_and!; [done..|]. unfold balance. cbn. rewrite sum_rows_app. cbn. lia.
Qed.

Lemma run_increase : exists s', IncreaseUserQuota u q false e (mkSt d [] tr) = (inr tt, s') /\
  st_faults s' = [] /\ balance u s' = balance u (mkSt d [] tr) + q /\ books (st_db s') = books d.
Proof.
  unfold positive_int in Hq. unfold IncreaseUserQuota. rewrite (proj2 (Z.ltb_ge q 0)), Hmax by lia. cbn [negb].
  rewrite (run_bind e _ _ (mkSt d [] tr) (env_batch e) (mkSt d [] tr)) by done. cbn [negb andb].
  destruct (env_batch e).
  - rewrite (run_bind e _ _ _ tt (mkSt d [] (tr ++ [EffBatchUserQuota u q]))) by done.
    destruct (run_cache q (mkSt d [] (tr ++ [EffBatchUserQuota u q]))) as (s' & -> & Hd & Hf & Hb).
    exists s'. split_and!; [done | done | | by rewrite Hd]. rewrite Hb. unfold balance. cbn. rewrite sum_rows_app. cbn.
    rewrite Z.eqb_refl. lia.
  - destruct (live_user_some _ _ Hlive) as (r & Hr & Hdel). unfold user_row in Hr.
    pose proof (List.find_some _ _ Hr) as [Hin Hid]. apply has_user_spec in Hid.
    assert (wallet d u = u_quota r) as Hw by (unfold wallet, user_row; by rewrite Hr).
    set (p := user_where (fun u0 => (u_id u0 =? u) && (u_quota u0 <=? i64 (MaxWalletQuota - q)))).
    assert (p r = true) as Hp.
    { unfold p, user_where. rewrite Hdel, Hid, Z.eqb_refl. cbn. apply Z.leb_le.
      unfold ValidateWalletQuota, MaxWalletQuota in *. i64_simpl. lia. }
    assert (forall r', p r' = true -> u_id r' = u) as Hpk.
    { intros r' H. unfold p, user_where in H. apply andb_true_iff in H as [_ [H _]%andb_true_iff]. lia. }
    set (d' := t_set Users (upd_rows p (add_quota q) (db_users d)) d).
    assert (increaseUserQuota u q e (mkSt d [] tr) = (inr tt, mkSt d' [] tr)) as Hrun.
    { unfold increaseUserQuota. rewrite (run_bind e _ _ _ (rows_count p (db_users d)) (mkSt d' [] tr)) by done.
      by rewrite (count_one _ _ has_user_spec p u r _ Hwf Hr Hpk), Hp. }
    rewrite (run_bind e _ _ _ _ _ Hrun).
    destruct (run_cache q (mkSt d' [] tr)) as (s' & -> & Hd & Hf & Hb).
    exists s'. split_and!; [done | done | | by rewrite Hd]. rewrite Hb. unfold balance, d'. cbn [st_db st_trace].
    assert (wallet (t_set Users (upd_rows p (add_quota q) (db_users d)) d) u = wallet d u + q) as ->; [|lia].
    unfold wallet, user_row. cbn [db_users t_set Users].
    change (db_users (t_set Users (upd_rows p (add_quota q) (db_users d)) d)) with (upd_rows p (add_quota q) (db_users d)).
    rewrite (find_upd_stable (has_user u)) by done. by rewrite Hr; cbn; rewrite Hp.
Qed.

Lemma refund_exact task :
  ta_user_id task = u -> ta_quota task = q -> ta_id task <> 0 -> taskIsSubscription task = false ->
  wp (RefundTaskQuota task) (fun r s' =>
    r = inr (true, cleared task) /\ balance u s' = balance u (mkSt d [] tr) + q /\ db_subs (st_db s') = db_subs d /\
    db_tasks (st_db s') = upd_rows (has_task (ta_id task)) cleared (db_tasks d)) e (mkSt d [] tr).
Proof.
  intros Hu Hqq Hid Hsub. unfold positive_int in Hq. unfold RefundTaskQuota. cbv zeta. rewrite Hqq.
  rewrite (proj2 (Z.eqb_neq q 0)) by lia. rewrite i64_small by (unfold in_i64, min_int64, max_int64; lia).
  destruct run_increase as (s1 & Hrun & Hf1 & Hb1 & Hk1).
  assert (taskAdjustFunding task (- q) e (mkSt d [] tr) = (inr tt, s1)) as Hfund.
  { unfold taskAdjustFunding. rewrite Hsub, (proj2 (Z.ltb_ge 0 (- q))), Hu by lia.
    by rewrite i64_small, Z.opp_involutive by (unfold in_i64, min_int64, max_int64; lia). }
  apply wp_bind, wp_attempt. unfold wp at 1. rewrite Hfund.
  apply (wp_tidy u); [apply tidy_token | done |]. intros _ s2 Hf2 Hb2 Hk2.
  apply (wp_tidy u); [apply tidy_usage | done |]. intros _ s3 Hf3 Hb3 Hk3.
  apply (wp_tidy u); [apply tidy_channel | done |]. intros _ s4 Hf4 Hb4 Hk4.
  apply (wp_tidy u); [apply tidy_log | done |]. intros _ s5 Hf5 Hb5 Hk5.
  assert (books (st_db s5) = books d) as Hk by congruence.
  assert (balance u s5 = balance u (mkSt d [] tr) + q) as Hb by congruence.
  destruct s5 as [d5 f5 t5]. cbn in Hf5, Hk, Hb. subst f5. injection Hk as Hkt Hks.
  unfold wp, logged, UpdateQuota, update, attempt, stmt, mbind, M_bind, mret, M_ret. cbn [ta_id].
  rewrite (proj2 (Z.eqb_neq _ 0) Hid). cbn. split_and!; [done | exact Hb | exact Hks | by rewrite Hkt].
Qed.
End Refund.

(** ** A timed-out task *)

Section Timeout.
Context (timeout now : Z) (c : Task) (d : DB) (tr : list effect).
Context (Hok : tasks_ok d) (Hin : In c (db_tasks d)) (Hopen : open_task c = true).

Lemma sweep_win e : wp (UpdateWithStatus (sweep_copy timeout now c) (ta_status c))
  (fun r s' => r = inr true /\
     s' = mkSt (t_set Tasks (upd_rows (has_task (ta_id c)) (overwrite (sweep_copy timeout now c)) (db_tasks d)) d) [] tr)
  e (mkSt d [] tr).
Proof.
  pose proof (loaded_copy d c Hok Hin Hopen) as Hc.
  assert (ta_id (sweep_copy timeout now c) = ta_id c) as Hid by (unfold sweep_copy; by destruct (isLegacy c)).
  destruct (swap_rows d Hok c _ Hc Hid) as [(Hn & _)|(Hn & Hu & _)].
  - exfalso. pose proof (proj1 (rows_count_zero _ _) Hn c Hin) as H. unfold cas_target in H.
    by rewrite Hid, Z.eqb_refl, orb_true_r, str_eqb_refl in H.
  - unfold UpdateWithStatus, update, stmt, wp, mbind, M_bind, mret, M_ret. cbn [st_faults st_db st_trace t_get Tasks].
    change (List.map (fun r => if cas_target (sweep_copy timeout now c) (ta_status c) r then overwrite (sweep_copy timeout now c) r else r)
      (db_tasks d)) with (upd_rows (cas_target (sweep_copy timeout now c) (ta_status c)) (overwrite (sweep_copy timeout now c)) (db_tasks d)).
    rewrite Hu. unfold rows_count in Hn. by rewrite Hn.
Qed.

Abbreviation u := (ta_user_id c).
Abbreviation t' := (sweep_copy timeout now c).

Lemma sweep_first e :
  isLegacy c = false -> taskIsSubscription c = false -> positive_int (ta_quota c) ->
  ValidateWalletQuota (ta_quota c) = true -> unique_key u_id (db_users d) ->
  live_user d u = true -> wallet d u + ta_quota c <= MaxWalletQuota ->
  wp (sweep_task timeout now c) (fun _ s1 =>
    balance u s1 = balance u (mkSt d [] tr) + ta_quota c /\
    db_tasks (st_db s1) = upd_rows (has_task (ta_id c)) cleared (upd_rows (has_task (ta_id c)) (overwrite t') (db_tasks d)))
    e (mkSt d [] tr).
Proof.
  intros Hleg Hsub Hq Hmax Hwf Hlive Hroom. unfold sweep_task. apply wp_bind, wp_attempt.
  eapply wp_mono; [apply sweep_win|]. intros r s' [-> ->]. rewrite Hleg. pose proof Hq as Hq0. unfold positive_int in Hq0.
  rewrite (proj2 (Z.eqb_neq (ta_quota c) 0)) by lia. cbn [negb andb].
  set (d1 := t_set Tasks _ d).
  assert (ta_user_id t' = u /\ ta_quota t' = ta_quota c /\ taskIsSubscription t' = false /\ ta_id t' = ta_id c)
    as (Hu' & Hq' & Hs' & Hi') by (unfold sweep_copy; rewrite Hleg; by split_and!).
  assert (ta_id t' <> 0) as Hi0 by (rewrite Hi'; by apply Hok).
  apply wp_bind. eapply wp_mono; [by apply (refund_exact e u (ta_quota c) d1 tr)|].
  intros r s3 (-> & Hb & _ & Ht). apply wp_ret. rewrite Hi' in Ht. split; [exact Hb | exact Ht].
Qed.

(** What a sweep pays back. *)
Definition sweep_refund : Z := if isLegacy c then 0 else ta_quota c.

Lemma sweep_pays e :
  taskIsSubscription c = false -> positive_int (ta_quota c) -> ValidateWalletQuota (ta_quota c) = true ->
  unique_key u_id (db_users d) -> live_user d u = true -> wallet d u + ta_quota c <= MaxWalletQuota ->
  wp (sweep_task timeout now c) (fun _ s1 =>
    balance u s1 = balance u (mkSt d [] tr) + sweep_refund /\
    db_tasks (st_db s1) = upd_rows (has_task (ta_id c)) cleared (upd_rows (has_task (ta_id c)) (overwrite t') (db_tasks d)))
    e (mkSt d [] tr).
Proof.
  intros. unfold sweep_refund. destruct (isLegacy c) eqn:Hleg; [|by apply sweep_first].
  unfold sweep_task. apply wp_bind, wp_attempt. eapply wp_mono; [apply sweep_win|]. intros r s' [-> ->]. rewrite Hleg. cbn [negb andb].
  apply wp_ret. split; [unfold balance; cbn; by rewrite Z.add_0_r|]. cbn. rewrite upd_rows_compose by done.
  apply upd_rows_ext; [done|]. intros r. unfold sweep_copy, cleared, overwrite. by rewrite Hleg.
Qed.

(** A swap from a state the row has left. *)
Lemma sweep_again d1 now' e' fs tr1 :
  (forall r, In r (db_tasks d1) -> ta_id r = ta_id c -> open_task r = false) ->
  wp (sweep_task timeout now' c) (fun _ s2 => st_db s2 = d1 /\ st_trace s2 = tr1) e' (mkSt d1 fs tr1).
Proof.
  intros Hclosed. set (t2 := sweep_copy timeout now' c).
  assert (ta_id t2 = ta_id c) as Hid2 by (unfold t2, sweep_copy; by destruct (isLegacy c)).
  assert (forall r, In r (db_tasks d1) -> cas_target t2 (ta_status c) r = false) as Hno.
  { intros r Hr. unfold cas_target. rewrite Hid2, (proj2 (Z.eqb_neq (ta_id c) 0)) by (by apply Hok). cbn [orb].
    destruct (Z.eqb_spec (ta_id r) (ta_id c)) as [E|]; [|done]. cbn. apply str_eqb_false. intros Est.
    specialize (Hclosed r Hr E). unfold open_task in *. rewrite Est in Hclosed. congruence. }
  unfold sweep_task. apply wp_bind, wp_attempt. unfold UpdateWithStatus. apply wp_bind, wp_update; [intros; by apply wp_ret|].
  intros fs'. apply wp_ret. cbn [t_get Tasks]. fold t2. rewrite (proj2 (rows_count_zero _ _) Hno), (upd_rows_none _ _ _ Hno), db_tasks_same.
  by apply wp_ret.
Qed.

(** C21. A timed-out task charged to a wallet is refunded exactly once: when no
    statement fails, its user is live and the refund fits under the ceiling of a
    wallet, one sweep fails the task, puts its whole charge back on the wallet -
    nothing for a task from before refunds were kept track of - and clears the
    charge; a second sweep that still holds the old copy, whatever happens to its
    statements, changes nothing. *)
Theorem timed_out_refunded_once e e' fs now' r1 s1 r2 s2 :
  taskIsSubscription c = false -> positive_int (ta_quota c) ->
  ValidateWalletQuota (ta_quota c) = true -> unique_key u_id (db_users d) ->
  live_user d u = true -> wallet d u + ta_quota c <= MaxWalletQuota ->
  sweep_task timeout now c e (mkSt d [] tr) = (r1, s1) ->
  sweep_task timeout now' c e' (mkSt (st_db s1) fs (st_trace s1)) = (r2, s2) ->
  balance u s1 = balance u (mkSt d [] tr) + (if isLegacy c then 0 else ta_quota c) /\
  List.find (has_task (ta_id c)) (db_tasks (st_db s1)) = Some (cleared t') /\
  st_db s2 = st_db s1 /\ st_trace s2 = st_trace s1.
Proof.
  intros Hsub Hq Hmax Hwf Hlive Hroom E1 E2.
  destruct (wp_use _ _ _ _ _ _ (sweep_pays e Hsub Hq Hmax Hwf Hlive Hroom) E1) as [Hb Ht].
  assert (ta_id t' = ta_id c /\ open_task t' = false) as [Hid Hcl] by (unfold sweep_copy; by destruct (isLegacy c)).
  assert (forall r, In r (db_tasks (st_db s1)) -> ta_id r = ta_id c -> open_task r = false) as Hclosed.
  { rewrite Ht. intros r Hr Hri. apply in_map_iff in Hr as (r' & <- & Hr'). apply in_map_iff in Hr' as (r0 & <- & Hr0).
    destruct (has_task (ta_id c) r0) eqn:E.
    - by assert (has_task (ta_id c) (overwrite t' r0) = true) as -> by exact E.
    - rewrite E in Hri. apply has_task_spec in Hri. congruence. }
  split; [exact Hb|]. split; [|exact (wp_use _ _ _ _ _ _ (sweep_again (st_db s1) now' e' fs (st_trace s1) Hclosed) E2)].
  rewrite Ht, !(find_upd_stable (has_task (ta_id c))) by done.
  rewrite (find_unique _ _ has_task_spec (ta_id c) c _ (proj1 Hok) Hin eq_refl). cbn.
  assert (has_task (ta_id c) c = true) as E by (by apply has_task_spec). rewrite E. cbn.
  unfold has_task. cbn. rewrite Z.eqb_refl. unfold overwrite, cleared. rewrite <- Hid. by destruct t'.
Qed.
End Timeout.

(** ** A task a subscription paid for *)

(** The session of a subscription never learns which subscription paid. *)
Lemma preConsume_subscription quota s sub e st s' st' :
  bs_funding s = OfSubscription sub -> sf_subscriptionId sub = 0 ->
  preConsume quota s e st = (inr (inr s'), st') ->
  ri_BillingSource (bs_relayInfo s') = BillingSourceSubscription /\ ri_SubscriptionId (bs_relayInfo s') = 0 /\
  ri_UserId (bs_relayInfo s') = ri_UserId (bs_relayInfo s).
Proof.
  intros Hf Hid. unfold preConsume. destruct (0 <? quota).
  - unfold attempt, mbind, M_bind, mret, M_ret. destruct (reserve_model _ _ _ e st) as [[err|reserved] s1]; [done|].
    intros [= <- <-]. unfold syncRelayInfo, consumed_session. cbn. rewrite Hf. cbn. by rewrite Hid.
  - intros [= <- <-]. unfold syncRelayInfo. cbn. rewrite Hf. cbn. by rewrite Hid.
Qed.

Lemma trySubscription_session q info e st s st' :
  trySubscription q info e st = (inr (inr s), st') ->
  ri_BillingSource (bs_relayInfo s) = BillingSourceSubscription /\ ri_SubscriptionId (bs_relayInfo s) = 0 /\
  ri_UserId (bs_relayInfo s) = ri_UserId info.
Proof. unfold trySubscription. intros H. by eapply preConsume_subscription in H. Qed.

Lemma tryWallet_session text q info e st s info' st' :
  tryWallet text q info e st = (inr (inr s, info'), st') -> is_subscription (bs_funding s) = false.
Proof.
  unfold tryWallet, attempt, mbind, M_bind, mret, M_ret.
  destruct (GetUserQuota _ _ e st) as [[err|quota] s1]; [done|].
  destruct (_ <=? 0); [done|]. destruct (_ <? 0); [done|].
  unfold preConsume. destruct (0 <? q).
  - unfold attempt, mbind, M_bind, mret, M_ret. destruct (reserve_model _ _ _ e s1) as [[err|reserved] s2]; [done|].
    by intros [= <- <- <-].
  - by intros [= <- <- <-].
Qed.

Lemma tryWallet_info text q info e st r info' st' :
  tryWallet text q info e st = (inr (r, info'), st') -> ri_UserId info' = ri_UserId info.
Proof.
  unfold tryWallet, attempt, mbind, M_bind, mret, M_ret.
  destruct (GetUserQuota _ _ e st) as [[err|quota] s1]; [by intros [= <- <- <-]|].
  destruct (_ <=? 0); [by intros [= <- <- <-]|]. destruct (_ <? 0); [by intros [= <- <- <-]|].
  destruct (preConsume _ _ e s1) as [[err|r'] s2]; [done|]. by intros [= <- <- <-].
Qed.

Lemma subscription_session text info q e st s st' :
  NewBillingSession text info q e st = (inr (inr s), st') -> is_subscription (bs_funding s) = true ->
  ri_BillingSource (bs_relayInfo s) = BillingSourceSubscription /\ ri_SubscriptionId (bs_relayInfo s) = 0 /\
  ri_UserId (bs_relayInfo s) = ri_UserId info.
Proof.
  intros E Hs.
  assert (forall st0 info0, ('(r, _) ← tryWallet text q info0; mret r) e st0 = (inr (inr s), st') -> False) as Hw.
  { intros st0 info0 H. unfold mbind, M_bind in H. destruct (tryWallet text q info0 e st0) as [[err|[r i]] s1] eqn:Ew; [done|].
    unfold mret, M_ret in H. injection H as -> _. apply tryWallet_session in Ew. congruence. }
  unfold NewBillingSession in E. cbv zeta in E.
  destruct (str_eqb _ "subscription_only"); [by eapply trySubscription_session|].
  destruct (str_eqb _ "wallet_only"); [destruct (Hw st info E)|].
  destruct (str_eqb _ "wallet_first").
  - unfold mbind, M_bind in E. destruct (tryWallet text q info e st) as [[err|[[err|s0] i]] s1] eqn:Ew; [done | |].
    + destruct (out_of_quota err); [|done]. apply tryWallet_info in Ew. rewrite <- Ew. by eapply trySubscription_session.
    + unfold mret, M_ret in E. injection E as -> _. apply tryWallet_session in Ew. congruence.
  - unfold subscription_first, attempt, mbind at 1, M_bind at 1 in E.
    destruct (HasActiveUserSubscription _ e st) as [[err|[]] s1]; [done | | destruct (Hw _ _ E)].
    unfold mbind at 1, M_bind at 1 in E. destruct (trySubscription q info e s1) as [[err|[apiErr|s0]] s2] eqn:Es; [done | |].
    + destruct (out_of_quota apiErr); [|done]. cbn [negb] in E. unfold mbind at 1, M_bind at 1 in E.
      destruct (UserActiveSubscriptionsAllowWalletOverflow _ e s2) as [[err|[]] s3]; [done | destruct (Hw _ _ E) | done].
    + unfold mret, M_ret in E. injection E as -> <-. by eapply trySubscription_session.
Qed.

(** A task paid by a subscription is refunded to the wallet: the session
    of such a request never records which subscription paid, so the task
    submission records from it is not recognised as a subscription's, and its
    refund adds the charge to the user's wallet and leaves every subscription
    as it is. *)
Theorem subscription_task_refunds_wallet text info q e0 st0 s st1 task e d tr r s' :
  NewBillingSession text info q e0 st0 = (inr (inr s), st1) -> is_subscription (bs_funding s) = true ->
  ta_user_id task = ri_UserId info -> ta_id task <> 0 -> positive_int (ta_quota task) ->
  ValidateWalletQuota (ta_quota task) = true -> unique_key u_id (db_users d) ->
  live_user d (ri_UserId info) = true -> wallet d (ri_UserId info) + ta_quota task <= MaxWalletQuota ->
  RefundTaskQuota (bill_task (bs_relayInfo s) (ta_quota task) task) e (mkSt d [] tr) = (r, s') ->
  ta_billing_source (bill_task (bs_relayInfo s) (ta_quota task) task) = BillingSourceSubscription /\
  balance (ri_UserId info) s' = balance (ri_UserId info) (mkSt d [] tr) + ta_quota task /\
  db_subs (st_db s') = db_subs d.
Proof.
  intros Hnew Hsub Hu Hid Hq Hmax Hwf Hlive Hroom E.
  destruct (subscription_session _ _ _ _ _ _ _ Hnew Hsub) as (Hsrc & Hno & Huser). split; [exact Hsrc|].
  assert (taskIsSubscription (bill_task (bs_relayInfo s) (ta_quota task) task) = false) as Hwallet
    by (unfold taskIsSubscription; cbn; rewrite Hno; by rewrite andb_false_r).
  by destruct (wp_use _ _ _ _ _ _ (refund_exact e _ _ d tr Hq Hmax Hwf Hlive Hroom
    (bill_task (bs_relayInfo s) (ta_quota task) task) Hu eq_refl Hid Hwallet) E) as (_ & ? & ? & _).
Qed.

(** ** Runs *)

Module RefundDemo.
Definition info : RelayInfo :=
  mkRelayInfo "req-s" 1 7 "sk-limited" false false "subscription_only" None 0 0 0 "" 0 0 0 0 0 0 "".
Definition created := NewBillingSession SessionDemo.text info 100 Demo.env (mkSt Demo.db [] []).
Definition session : BillingSession :=
  match fst created with inr (inr s) => s | _ => new_session info (OfWallet 0 0) end.
Definition task : Task := TaskDemo.row <| ta_quota := 100 |>.
Definition refunded := RefundTaskQuota (bill_task (bs_relayInfo session) 100 task) TaskDemo.env (mkSt (st_db (snd created)) [] []).

Definition db : DB := t_set Tasks [TaskDemo.row] Demo.db.
Definition first := sweep_task 1440 1790000000 TaskDemo.row TaskDemo.env (mkSt db [] []).
Definition second := sweep_task 1440 1790000060 TaskDemo.row TaskDemo.env
  (mkSt (st_db (snd first)) [Some FDriver] (st_trace (snd first))).
Lemma tasks_ok_db : tasks_ok db.
Proof.
  split; [apply (bool_decide_unpack _); by vm_compute|]. intros t [<-|[]].
  split; [done|]. intros _. apply (bool_decide_unpack (0 <= 300 < 2 ^ 63)). by vm_compute.
Qed.
Lemma users_ok d : bool_decide (unique_key u_id (db_users d)) = true -> unique_key u_id (db_users d).
Proof. apply bool_decide_eq_true. Qed.
Lemma positive x : bool_decide (0 < x < 2 ^ 63) = true -> positive_int x.
Proof. apply bool_decide_eq_true. Qed.
End RefundDemo.

Lemma timed_out_refunded_once_witness :
  balance 1 (snd RefundDemo.first) = 1300 /\ st_db (snd RefundDemo.second) = st_db (snd RefundDemo.first).
Proof.
  pose proof (timed_out_refunded_once 1440 1790000000 TaskDemo.row RefundDemo.db [] RefundDemo.tasks_ok_db
    (or_introl eq_refl) eq_refl TaskDemo.env TaskDemo.env [Some FDriver] 1790000060
    (fst RefundDemo.first) (snd RefundDemo.first) (fst RefundDemo.second) (snd RefundDemo.second)
    eq_refl (RefundDemo.positive 300 eq_refl) eq_refl (RefundDemo.users_ok RefundDemo.db eq_refl)
    eq_refl (proj1 (Z.leb_le 1300 MaxWalletQuota) eq_refl) (surjective_pairing _) (surjective_pairing _)) as (H1 & _ & H2 & _).
  split; [exact H1 | exact H2].
Defined.

Lemma subscription_task_refunds_wallet_witness :
  balance 1 (snd RefundDemo.refunded) = balance 1 (mkSt (st_db (snd RefundDemo.created)) [] []) + 100 /\
  sub_used (st_db (snd RefundDemo.refunded)) 5 = 150.
Proof.
  split; [|by vm_compute].
  refine (proj1 (proj2 (subscription_task_refunds_wallet SessionDemo.text RefundDemo.info 100 Demo.env (mkSt Demo.db [] [])
    RefundDemo.session (snd RefundDemo.created) RefundDemo.task TaskDemo.env (st_db (snd RefundDemo.created)) []
    (fst RefundDemo.refunded) (snd RefundDemo.refunded)
    _ _ eq_refl _ (RefundDemo.positive 100 eq_refl) eq_refl
    (RefundDemo.users_ok (st_db (snd RefundDemo.created)) _) _ _ (surjective_pairing _)))); by vm_compute.
Defined.
