(* ===== verification/Interleave.v ===== *)
(** * Programs whose statements interleave with those of other processes

    The monad of [Store] runs an operation, or a transaction, without
    interference.  The cluster's housekeeping ([src/model/system_task.go]) uses
    no transactions: several nodes run sequences of single statements against
    the same tables, and crash in between.  Here an operation is a resumption -
    a statement and what to do with its answer - and a configuration is a pool
    of such programs over one shared state.  [safe] is a rely-guarantee
    judgement; [interleaving_sound] carries it to every run of every pool. *)

From stdpp Require Import base numbers option strings list relations.
From Stdlib Require Import ZArith Lia.
From S2P Require Import Prelude Store.

(** What the driver does with a statement: it is executed and answered, it is
    not executed and fails, or it is executed and its answer is lost. *)
Variant delivery := Answered | Refused | Unanswered.

Section Programs.
Context {S : Type}.

Inductive prog (A : Type) : Type :=
  | Done (a : A)
  | Stmt (X : Type) (act : delivery -> S -> X * S) (k : X -> prog A)
  | Fork (child : prog unit) (k : prog A).
Arguments Done {A}. Arguments Stmt {A}. Arguments Fork {A}.

Fixpoint prog_bind {A B : Type} (p : prog A) (f : A -> prog B) : prog B :=
  match p with
  | Done a => f a
  | Stmt X act k => Stmt X act (fun x => prog_bind (k x) f)
  | Fork child k => Fork child (prog_bind k f)
  end.

(** ** One program alone

    The answers the driver gives are listed, and [Answered] after the end of
    the list; the programs it forks are returned. *)
Fixpoint run {A : Type} (p : prog A) (ds : list delivery) (s : S) : A * list (prog unit) * list delivery * S :=
  match p with
  | Done a => (a, [], ds, s)
  | Stmt X act k =>
      let '(x, s') := act (hd Answered ds) s in run (k x) (tl ds) s'
  | Fork child k =>
      let '(a, children, ds', s') := run k ds s in (a, child :: children, ds', s')
  end.

(** The same when nothing fails and nobody is forked. *)
Definition value {A : Type} (p : prog A) (s : S) : A := (run p [] s).1.1.1.
Definition final {A : Type} (p : prog A) (s : S) : S := (run p [] s).2.

Lemma run_bind_quiet {A B : Type} (p : prog A) (f : A -> prog B) s :
  value (prog_bind p f) s = value (f (value p s)) (final p s) /\
  final (prog_bind p f) s = final (f (value p s)) (final p s).
Proof.
  unfold value, final. revert s. induction p as [A a|A X act k IH|A child _ k IH]; intros s; cbn; [done | |].
  - destruct (act Answered s) as [x s']. apply IH.
  - destruct (IH f s) as [H1 H2]. destruct (run (prog_bind k f) [] s) as [[[b cs] ds] s1], (run k [] s) as [[[a cs'] ds'] s2]; cbn in *.
    done.
Qed.

(** ** Pools *)

Record Pool := mkPool { pool_threads : list (prog unit); pool_state : S }.

Section Steps.
Context (tick : S -> S -> Prop) (starts : prog unit -> Prop).

Inductive pool_step : Pool -> Pool -> Prop :=
  | pool_stmt before X act k after s d x s' :
      act d s = (x, s') ->
      pool_step (mkPool (before ++ Stmt X act k :: after) s) (mkPool (before ++ k x :: after) s')
  | pool_fork before child k after s :
      pool_step (mkPool (before ++ Fork child k :: after) s) (mkPool (before ++ k :: child :: after) s)
  | pool_tick l s s' : tick s s' -> pool_step (mkPool l s) (mkPool l s')
  | pool_start p l s : starts p -> pool_step (mkPool l s) (mkPool (p :: l) s)
  | pool_crash before p after s :
      pool_step (mkPool (before ++ p :: after) s) (mkPool (before ++ after) s).
End Steps.

(** A thread at the head of the pool may take one step, or run to its end,
    without interruption. *)
Definition next (p : prog unit) (d : delivery) (s : S) : list (prog unit) * S :=
  match p with
  | Done _ => ([p], s)
  | Stmt X act k => let '(x, s') := act d s in ([k x], s')
  | Fork child k => ([k; child], s)
  end.
Definition has_next (p : prog unit) : bool := match p with Done _ => false | _ => true end.

Lemma thread_step (tick : S -> S -> Prop) (starts : prog unit -> Prop) p d l s :
  has_next p = true -> pool_step tick starts (mkPool (p :: l) s) (mkPool ((next p d s).1 ++ l) (next p d s).2).
Proof.
  destruct p as [a|X act k|child k]; [done | |]; intros _; cbn.
  - destruct (act d s) as [x s'] eqn:E. exact (pool_stmt tick starts [] X act k l s d x s' E).
  - exact (pool_fork tick starts [] child k l s).
Qed.

Lemma thread_run (tick : S -> S -> Prop) (starts : prog unit -> Prop) :
  forall (p : prog unit) ds l s,
  rtc (pool_step tick starts) (mkPool (p :: l) s) (mkPool (Done tt :: rev (run p ds s).1.1.2 ++ l) (run p ds s).2).
Proof.
  fix IH 1. intros [[]|X act k|child k] ds l s; cbn.
  - apply rtc_refl.
  - destruct (act (hd Answered ds) s) as [x s1] eqn:E. eapply rtc_l; [|apply IH].
    exact (pool_stmt tick starts [] X act k l s (hd Answered ds) x s1 E).
  - specialize (IH k ds (child :: l) s). destruct (run k ds s) as [[[a cs] ds'] s2]. eapply rtc_l.
    + exact (pool_fork tick starts [] child k l s).
    + cbn. rewrite <- (assoc_L app). exact IH.
Qed.

(** The pool after its first thread made [n] steps, or ended. *)
Fixpoint advance (n : nat) (c : Pool) : Pool :=
  match n, pool_threads c with
  | Datatypes.S n, p :: l => advance n (mkPool ((next p Answered (pool_state c)).1 ++ l) (next p Answered (pool_state c)).2)
  | _, _ => c
  end.
Lemma advanced tick starts n c : rtc (pool_step tick starts) c (advance n c).
Proof.
  revert c. induction n as [|n IH]; intros [l s]; [apply rtc_refl|]. cbn. destruct l as [|p l]; [apply rtc_refl|].
  etrans; [|apply IH]. destruct (has_next p) eqn:Hp; [by apply rtc_once, (thread_step tick starts p Answered)|].
  destruct p; [apply rtc_refl | done..].
Qed.

(** The pool after one step of its thread number [i], with this delivery. *)
Definition step_at (i : nat) (d : delivery) (c : Pool) : Pool :=
  match drop i (pool_threads c) with
  | p :: l => mkPool (take i (pool_threads c) ++ (next p d (pool_state c)).1 ++ l) (next p d (pool_state c)).2
  | [] => c
  end.
Lemma stepped tick starts i d c : rtc (pool_step tick starts) c (step_at i d c).
Proof.
  destruct c as [l s]. unfold step_at. cbn. destruct (drop i l) as [|p rest] eqn:E; [apply rtc_refl|].
  assert (l = take i l ++ p :: rest) as El by (rewrite <- E; symmetry; apply take_drop).
  rewrite El at 1. destruct p as [a|X act k|child k]; cbn.
  - rewrite <- El. apply rtc_refl.
  - destruct (act d s) as [x s'] eqn:Ea. apply rtc_once. by eapply pool_stmt.
  - apply rtc_once. apply pool_fork.
Qed.

(** The pool after a program was started, run to its end, and removed. *)
Definition after (p : prog unit) (c : Pool) : Pool :=
  mkPool (rev (run p [] (pool_state c)).1.1.2 ++ pool_threads c) (run p [] (pool_state c)).2.
Lemma started (tick : S -> S -> Prop) (starts : prog unit -> Prop) p c : starts p -> rtc (pool_step tick starts) c (after p c).
Proof.
  intros Hp. destruct c as [l s]. eapply rtc_l; [by apply (pool_start _ _ p)|].
  etrans; [apply (thread_run tick starts p [] l s)|]. apply rtc_once. exact (pool_crash _ _ [] _ _ _).
Qed.

(** ** Rely and guarantee *)

Section Safe.
Context (inv : S -> Prop) (rely guar : S -> S -> Prop).

(** Whatever others do between its statements (within [rely]), each statement
    of the program keeps the invariant and stays within [guar]; the answer it
    ends with satisfies [Q] from then on. *)
Fixpoint safe {A : Type} (p : prog A) (Q : A -> S -> Prop) (s : S) : Prop :=
  match p with
  | Done a => forall s', rely s s' -> inv s' -> Q a s'
  | Stmt X act k => forall s' d, rely s s' -> inv s' ->
      let '(x, s'') := act d s' in inv s'' /\ guar s' s'' /\ safe (k x) Q s''
  | Fork child k => safe child (fun _ _ => True) s /\ safe k Q s
  end.

(** A thread: its answer is dropped. *)
Definition thread_safe (p : prog unit) (s : S) : Prop := safe p (fun _ _ => True) s.

Context (Hrefl : reflexive S rely) (Htrans : forall a b c, rely a b -> rely b c -> rely a c).

Lemma safe_mono {A : Type} (p : prog A) (Q Q' : A -> S -> Prop) s :
  (forall a s', rely s s' -> inv s' -> Q a s' -> Q' a s') -> (forall a b, guar a b -> rely a b) ->
  safe p Q s -> safe p Q' s.
Proof.
  intros HQ Hg. revert s HQ. induction p as [A a|A X act k IH|A child _ k IH]; intros s HQ H; cbn in *.
  - eauto.
  - intros s' d Hr Hi. specialize (H s' d Hr Hi). destruct (act d s') as [x s''].
    destruct H as (Hi' & Hg' & Hk). split_and!; [done | done|]. apply (IH x Q); [|done].
    intros a s3 ?. apply HQ. eapply Htrans; [exact Hr|]. eapply Htrans; [by apply Hg | done].
  - destruct H as [Hc Hk]. split; [done|]. eauto.
Qed.

Lemma safe_rely {A : Type} (p : prog A) Q s s' : rely s s' -> safe p Q s -> safe p Q s'.
Proof.
  revert s s'. induction p as [A a|A X act k _|A child IHc k IHk]; intros s s' Hr H; cbn in *.
  - intros s2 ?. apply H. by eapply Htrans.
  - intros s2 d ?. apply H. by eapply Htrans.
  - destruct H. split; eauto.
Qed.

Lemma safe_bind {A B : Type} (p : prog A) (f : A -> prog B) (P : A -> S -> Prop) Q s :
  safe p P s -> (forall a s', rely s s' -> inv s' -> (forall s2, rely s' s2 -> inv s2 -> P a s2) -> safe (f a) Q s') -> (forall a b, guar a b -> rely a b) ->
  inv s -> safe (prog_bind p f) Q s.
Proof.
  intros Hp Hf Hg. revert s Hp Hf. induction p as [A a|A X act k IH|A child _ k IH]; intros s Hp Hf Hi; cbn in *.
  - apply Hf; [apply Hrefl | done | exact Hp].
  - intros s' d Hr Hi'. specialize (Hp s' d Hr Hi'). destruct (act d s') as [x s''].
    destruct Hp as (Hi'' & Hg' & Hk). split_and!; [done | done|]. apply (IH x f P); [done| |done].
    intros a s3 ?. apply Hf. eapply Htrans; [exact Hr|]. eapply Htrans; [by apply Hg | done].
  - destruct Hp as [Hc Hk]. split; [done|]. by apply (IH f P).
Qed.

(** Alone, with whatever failures, the program ends with an answer that
    satisfies its postcondition. *)
Lemma safe_run {A : Type} (p : prog A) (Q : A -> S -> Prop) s ds :
  (forall a b, guar a b -> rely a b) -> safe p Q s -> inv s ->
  let '(a, _, _, s') := run p ds s in Q a s' /\ inv s' /\ rely s s'.
Proof.
  intros Hg. revert s ds. induction p as [A a|A X act k IH|A child _ k IH]; intros s ds Hs Hi; cbn in *.
  - split_and!; [by apply Hs | done | by apply Hrefl].
  - specialize (Hs s (hd Answered ds) (Hrefl s) Hi). destruct (act (hd Answered ds) s) as [x s1].
    destruct Hs as (Hi1 & Hg1 & Hk). specialize (IH x Q s1 (tl ds) Hk Hi1).
    destruct (run (k x) (tl ds) s1) as [[[a cs] ds'] s2]. destruct IH as (? & ? & ?). split_and!; [done | done|].
    eapply Htrans; [by apply Hg | done].
  - destruct Hs as [_ Hk]. specialize (IH Q s ds Hk Hi). by destruct (run k ds s) as [[[a cs] ds'] s2].
Qed.

(** ** Soundness *)

Context (tick : S -> S -> Prop) (starts : prog unit -> Prop).
Context (Hguar : forall a b, guar a b -> rely a b)
  (Htick : forall a b, inv a -> tick a b -> inv b /\ rely a b)
  (Hstarts : forall p s, starts p -> inv s -> thread_safe p s).

Definition pool_safe (c : Pool) : Prop :=
  inv (pool_state c) /\ Forall (fun p => thread_safe p (pool_state c)) (pool_threads c).

Lemma threads_rely l s s' :
  rely s s' -> Forall (fun p => thread_safe p s) l -> Forall (fun p => thread_safe p s') l.
Proof. intros Hr H. eapply Forall_impl; [exact H|]. intros p. by apply safe_rely. Qed.

(** A step is one of the clock or one a program was allowed to take. *)
Lemma pool_step_safe c c' :
  pool_safe c -> pool_step tick starts c c' ->
  pool_safe c' /\
  (pool_state c' = pool_state c \/ tick (pool_state c) (pool_state c') \/ guar (pool_state c) (pool_state c')).
Proof.
  intros [Hi Hl] H. destruct H as [before X act k after s d x s' E|before child k after s|l s s' Ht|p l s Hp|before p after s];
    cbn in *.
  - apply Forall_app in Hl as [Hb [Hp Ha]%Forall_cons]. specialize (Hp s d (Hrefl s) Hi). rewrite E in Hp.
    destruct Hp as (Hi' & Hg & Hk). split; [|by right; right]. split; [done|]. cbn.
    apply Forall_app. split; [|apply Forall_cons; split; [done|]]; (apply threads_rely with s; [by apply Hguar | done]).
  - apply Forall_app in Hl as [Hb [[Hc Hk] Ha]%Forall_cons]. split; [|by left]. split; [done|]. cbn.
    apply Forall_app. split; [done|]. by repeat (apply Forall_cons; split).
  - destruct (Htick s s' Hi Ht) as [Hi' Hr]. split; [|by right; left]. split; [done|]. cbn.
    by apply threads_rely with s.
  - split; [|by left]. split; [done|]. cbn. apply Forall_cons. split; [by apply Hstarts | done].
  - apply Forall_app in Hl as [Hb [_ Ha]%Forall_cons]. split; [|by left]. split; [done|]. cbn. by apply Forall_app.
Qed.

(** Every run of every safe pool stays safe, and its states are related by
    [rely]. *)
Lemma interleaving_sound c c' :
  pool_safe c -> rtc (pool_step tick starts) c c' ->
  pool_safe c' /\ rely (pool_state c) (pool_state c').
Proof.
  intros Hc Hrun. induction Hrun as [c|c1 c2 c3 H12 _ IH]; [split; [done | apply Hrefl]|].
  destruct (pool_step_safe c1 c2 Hc H12) as [Hc2 Hcase]. destruct (IH Hc2) as [Hc3 Hr]. split; [done|].
  eapply Htrans; [|exact Hr]. destruct Hcase as [->|[Ht|Hg]]; [apply Hrefl | | by apply Hguar].
  by apply (Htick _ _ (proj1 Hc)).
Qed.
End Safe.
End Programs.
Arguments prog : clear implicits.
Arguments Pool : clear implicits.
Arguments Done {S A}. Arguments Stmt {S A}. Arguments Fork {S A}.

(** ** Programs that may fail *)

Definition P (S A : Type) : Type := prog S (result A).

#[export] Instance P_ret {S} : MRet (P S) := fun A a => Done (inr a).
#[export] Instance P_bind {S} : MBind (P S) := fun A B f p =>
  prog_bind p (fun r => match r with inl err => Done (inl err) | inr a => f a end).

Definition fail {S A} (err : Err) : P S A := Done (inl err).
(** [v, err := p]: the error becomes a value. *)
Definition attempted {S A} (p : P S A) : P S (result A) := prog_bind p (fun r => Done (inr r)).
(** [_ = p]: a thread, or a call whose answer is dropped. *)
Definition ignored {S A} (p : P S A) : prog S unit := prog_bind p (fun _ => Done tt).

(** One statement: [f] is its effect on the shared state and its answer. *)
Definition sql {S A} (f : S -> result A * S) : P S A :=
  Stmt (result A) (fun d s => match d with
    | Answered => f s
    | Refused => (inl (ErrDriver FDriver), s)
    | Unanswered => (inl (ErrDriver FDriver), snd (f s))
    end) Done.

(** ** Rules for programs that may fail *)

(** A postcondition of the answer, when there is one. *)
Definition answers {S A} (R : A -> S -> Prop) (r : result A) (s : S) : Prop :=
  match r with inl _ => True | inr a => R a s end.
Abbreviation anything := (fun _ _ => True).

Section Rules.
Context {S : Type} (inv : S -> Prop) (rely guar : S -> S -> Prop).
Context (Hrefl : reflexive S rely) (Htrans : forall a b c, rely a b -> rely b c -> rely a c).
Context (Hguar : forall a b, guar a b -> rely a b) (Hkeep : forall s, inv s -> guar s s).

Definition prog_ok {A} (p : P S A) (R : A -> S -> Prop) (s : S) : Prop := safe inv rely guar p (answers R) s.

Lemma rule_ret {A} (a : A) (R : A -> S -> Prop) s : (forall s', rely s s' -> inv s' -> R a s') -> prog_ok (mret a) R s.
Proof. intros H. exact H. Qed.
Lemma rule_fail {A} err (R : A -> S -> Prop) s : prog_ok (fail err) R s.
Proof. by intros s'. Qed.
Lemma rule_bind {A B} (p : P S A) (f : A -> P S B) R R' s :
  prog_ok p R s -> (forall a s', rely s s' -> inv s' -> (forall s2, rely s' s2 -> inv s2 -> R a s2) -> prog_ok (f a) R' s') ->
  inv s -> prog_ok (p ≫= f) R' s.
Proof.
  intros Hp Hf Hi. unfold prog_ok, mbind, P_bind. apply (safe_bind inv rely guar Hrefl Htrans p _ (answers R)); try done.
  intros [err|a] s' Hr Hi' Ha; [by intros ? | by apply Hf].
Qed.
Lemma rule_attempted {A} (p : P S A) (R : A -> S -> Prop) s :
  prog_ok p R s -> inv s -> prog_ok (attempted p) (fun r s' => answers R r s') s.
Proof. intros Hp Hi. unfold prog_ok, attempted. by apply (safe_bind inv rely guar Hrefl Htrans p _ (answers R)). Qed.
Lemma rule_ignored {A} (p : P S A) (R : A -> S -> Prop) s : prog_ok p R s -> inv s -> thread_safe inv rely guar (ignored p) s.
Proof. intros Hp Hi. by apply (safe_bind inv rely guar Hrefl Htrans p _ (answers R)). Qed.
Lemma rule_mono {A} (p : P S A) (R R' : A -> S -> Prop) s :
  (forall a s', R a s' -> R' a s') -> prog_ok p R s -> prog_ok p R' s.
Proof. intros H. apply safe_mono; [done | | done]. intros [err|a] s' _ _; [done | apply H]. Qed.
Lemma rule_seq {A B} (p : P S A) (q : P S B) R s :
  prog_ok p anything s -> (forall s', rely s s' -> inv s' -> prog_ok q R s') -> inv s -> prog_ok (p ;; q) R s.
Proof. intros Hp Hq Hi. eapply rule_bind; [exact Hp | | done]. intros _ s' Hr Hi' _. by apply Hq. Qed.

(** One statement: what it does is allowed, and whenever it is answered the
    postcondition holds from then on. *)
Lemma rule_sql {A} (f : S -> result A * S) (R : A -> S -> Prop) s :
  (forall s', rely s s' -> inv s' -> inv (f s').2 /\ guar s' (f s').2 /\
     forall a s2, (f s').1 = inr a -> rely (f s').2 s2 -> inv s2 -> R a s2) ->
  prog_ok (sql f) R s.
Proof.
  intros H s' d Hr Hi. destruct (H s' Hr Hi) as (Hi' & Hg & HR). pose proof (Hkeep s' Hi).
  destruct d; cbn; [destruct (f s') as [[err|a] s2]; cbn in * | |]; (split; [done|]; split; [done|]); intros s3 ? ?; cbn; eauto.
Qed.
Lemma rule_read {A} (f : S -> result A) (R : A -> S -> Prop) s :
  (forall s' a s2, rely s s' -> inv s' -> f s' = inr a -> rely s' s2 -> inv s2 -> R a s2) ->
  prog_ok (sql (fun s => (f s, s))) R s.
Proof. intros H. apply rule_sql. intros s' Hr Hi. cbn. split_and!; [done | by apply Hkeep|]. intros a s2 E. by apply (H s'). Qed.
End Rules.
