(* ===== verification/Marked.v ===== *)
(** * Invariants that hold until something is marked

    Some protocols are right except for one race, which a ghost mark of the
    state records.  Here: an invariant and an evolution that are claimed only
    while the mark is not set, the judgement [mok] for programs that may fail,
    and its rules, for [Interleave]. *)

From stdpp Require Import base numbers option list relations.
From S2P Require Import Prelude Store Interleave.

(** A statement whose effect and answer never fail: what only a ghost does. *)
Definition note {S A} (f : S -> A * S) : prog S A := Stmt A (fun _ s => f s) Done.

Definition until {S} (mark : S -> bool) (core : S -> Prop) (s : S) : Prop := mark s = false -> core s.
Definition until_step {S} (mark : S -> bool) (grows : relation S) (s s' : S) : Prop :=
  (mark s = true -> mark s' = true) /\ (mark s' = false -> grows s s').

(** The statements of a program keep the invariant, and it answers [R] while
    nothing is marked. *)
Definition mok {S} (mark : S -> bool) (core : S -> Prop) (grows : relation S) {A} (p : P S A) (R : A -> S -> Prop) (s : S) : Prop :=
  prog_ok (until mark core) (until_step mark grows) (until_step mark grows) p (fun a s' => mark s' = false -> R a s') s.

Section Marked.
Context {S : Type} {mark : S -> bool} {core : S -> Prop} {grows : relation S} `{!PreOrder grows}.
Abbreviation inv := (until mark core).
Abbreviation step := (until_step mark grows).
Abbreviation ok := (mok mark core grows).

Lemma mark_before s s' : step s s' -> mark s' = false -> mark s = false.
Proof. intros [H _] E. destruct (mark s); [by rewrite H in E | done]. Qed.
Lemma until_refl : reflexive S step.
Proof. by intros s. Qed.
Lemma until_trans a b c : step a b -> step b c -> step a c.
Proof.
  intros [H1 H2] Hbc. split; [intros; apply Hbc; auto|]. intros E. pose proof (mark_before b c Hbc E) as Eb.
  etrans; [by apply H2 | by apply Hbc].
Qed.
#[export] Instance until_preorder : PreOrder step.
Proof. split; [exact until_refl | exact until_trans]. Qed.
(** A fact of the beginning, at a later statement. *)
Lemma until_later {Q : S -> Prop} s s' :
  (forall a b, grows a b -> Q a -> Q b) -> step s s' -> mark s' = false -> (mark s = false -> Q s) -> Q s'.
Proof. intros Hm He E H. apply (Hm s); [by apply He | by apply H, (mark_before s s')]. Qed.

Lemma mok_ret {A} (a : A) (R : A -> S -> Prop) s :
  (forall s', step s s' -> inv s' -> mark s' = false -> R a s') -> ok (mret a) R s.
Proof. intros H. exact H. Qed.
Lemma mok_fail {A} err (R : A -> S -> Prop) s : ok (fail err) R s.
Proof. by intros s'. Qed.
Lemma mok_bind {A B} (p : P S A) (f : A -> P S B) R R' s :
  ok p R s -> (forall a s', step s s' -> inv s' ->
    (forall s2, step s' s2 -> inv s2 -> mark s2 = false -> R a s2) -> ok (f a) R' s') ->
  inv s -> ok (p ≫= f) R' s.
Proof.
  intros Hp Hf. exact (rule_bind inv step step until_refl until_trans (fun _ _ H => H) p f
    (fun a s' => mark s' = false -> R a s') (fun a s' => mark s' = false -> R' a s') s Hp Hf).
Qed.
Lemma mok_seq {A B} (p : P S A) (q : P S B) R s :
  ok p anything s -> (forall s', step s s' -> inv s' -> ok q R s') -> inv s -> ok (p ;; q) R s.
Proof. intros Hp Hq Hi. eapply mok_bind; [exact Hp | | done]. intros _ s' He Hi' _. by apply Hq. Qed.
Lemma mok_mono {A} (p : P S A) (R R' : A -> S -> Prop) s : (forall a s', R a s' -> R' a s') -> ok p R s -> ok p R' s.
Proof. intros H. eapply (rule_mono inv step step until_trans (fun _ _ H => H)). auto. Qed.
Lemma mok_attempted {A} (p : P S A) R s : ok p R s -> inv s -> ok (attempted p) (fun r s' => answers R r s') s.
Proof.
  intros Hp Hi. eapply (rule_mono inv step step until_trans (fun _ _ H => H));
    [|by apply (rule_attempted inv step step until_refl until_trans (fun _ _ H => H) p (fun a s' => mark s' = false -> R a s'))].
  intros [err|a] s'; cbn; auto.
Qed.
Lemma mok_dropped {A} (p : P S A) R s : ok p R s -> inv s -> ok (attempted p) anything s.
Proof. intros Hp Hi. eapply mok_mono; [|by apply mok_attempted]. done. Qed.
Lemma mok_if {A} (b : bool) (p q : P S A) R s : ok p R s -> ok q R s -> ok (if b then p else q) R s.
Proof. by destruct b. Qed.
Lemma mok_case {A} (b : bool) (p q : P S A) R s : (b = true -> ok p R s) -> (b = false -> ok q R s) -> ok (if b then p else q) R s.
Proof. destruct b; auto. Qed.

(** Threads. *)
Abbreviation thread := (thread_safe inv step step).
Lemma mok_ignored {A} (p : P S A) R s : inv s -> ok p R s -> thread (ignored p) s.
Proof. intros Hi Hp. by eapply (rule_ignored inv step step until_refl until_trans (fun _ _ H => H)). Qed.
Lemma mok_fork {A} (p : P S A) s : (forall s', inv s' -> ok p anything s') -> inv s -> ok (Fork (ignored p) (Done (inr tt))) anything s.
Proof. intros Hp Hi. split; [|by intros s']. by eapply mok_ignored; [|apply Hp]. Qed.
Lemma thread_done s : thread (Done tt) s.
Proof. by intros s'. Qed.
Lemma thread_bind {A} (p : prog S A) (f : A -> prog S unit) (Q : A -> S -> Prop) s :
  safe inv step step p Q s ->
  (forall a s', step s s' -> inv s' -> (forall s2, step s' s2 -> inv s2 -> Q a s2) -> thread (f a) s') ->
  inv s -> thread (prog_bind p f) s.
Proof. intros. by apply (safe_bind inv step step until_refl until_trans p f Q). Qed.
(** What a note changes is right while nothing is marked; its answer too. *)
Lemma note_safe {A} (f : S -> A * S) (Q : A -> S -> Prop) s :
  (forall s', mark (f s').2 = mark s') ->
  (forall s', step s s' -> mark s' = false -> core s' -> core (f s').2 /\ grows s' (f s').2) ->
  (forall s' s2, step s s' -> core s' -> mark s' = false -> grows (f s').2 s2 -> core s2 -> mark s2 = false -> Q (f s').1 s2) ->
  safe inv step step (note f) (fun a s' => mark s' = false -> Q a s') s.
Proof.
  intros Hmark H HQ s' d He Hi. specialize (Hmark s'). specialize (H s' He). specialize (HQ s').
  destruct (f s') as [a s'']. cbn in *.
  assert (step s' s'') as He' by (split; [by rewrite Hmark | intros E; rewrite Hmark in E; by apply H; auto]).
  split_and!; [|done|].
  - intros E. rewrite Hmark in E. by apply H; auto.
  - intros s2 He2 Hi2 E2. pose proof (mark_before _ _ He2 E2) as E1. pose proof E1 as E0. rewrite Hmark in E0. apply (HQ s2); auto. by apply He2.
Qed.
Lemma note_thread (f : S -> unit * S) s :
  (forall s', mark (f s').2 = mark s') ->
  (forall s', step s s' -> mark s' = false -> core s' -> core (f s').2 /\ grows s' (f s').2) -> thread (note f) s.
Proof.
  intros Hmark H. eapply safe_mono; [apply until_trans | | done | apply (note_safe f anything); [exact Hmark | exact H | done]]. done.
Qed.

(** One statement: it cannot clear the mark, and if it does not set it, it keeps
    the invariant. *)
Lemma mok_sql {A} (f : S -> result A * S) (R : A -> S -> Prop) s :
  (forall s', mark s' = true -> mark (f s').2 = true) ->
  (forall s', step s s' -> core s' -> mark s' = false -> mark (f s').2 = false -> core (f s').2 /\ grows s' (f s').2) ->
  (forall s' a s2, step s s' -> core s' -> mark s' = false -> (f s').1 = inr a -> grows (f s').2 s2 -> core s2 -> mark s2 = false -> R a s2) ->
  ok (sql f) R s.
Proof.
  intros Hmark Hstep HR. apply (rule_sql inv step step); [intros; apply until_refl|]. intros s' He Hi.
  assert (step s' (f s').2) as He'.
  { split; [apply Hmark|]. intros E. assert (mark s' = false) as E' by (destruct (mark s') eqn:E2; [by rewrite Hmark in E | done]).
    by apply Hstep; auto. }
  split_and!; [|done|].
  - intros E. pose proof (mark_before _ _ He' E) as E'. by apply Hstep; auto.
  - intros a s2 Ha He2 Hi2 E2. pose proof (mark_before _ _ He2 E2) as E1. pose proof (mark_before _ _ He' E1) as E0.
    eapply (HR s' a s2); auto. by apply He2.
Qed.
Lemma mok_read {A} (f : S -> result A) (R : A -> S -> Prop) s :
  (forall s' a s2, step s s' -> core s' -> mark s' = false -> f s' = inr a -> grows s' s2 -> core s2 -> mark s2 = false -> R a s2) ->
  ok (sql (fun s => (f s, s))) R s.
Proof. intros H. apply mok_sql; cbn; [done | | done]. by intros s' _ Hc _ _. Qed.

(** A pool, from its beginning. *)
Lemma until_reached (tick : S -> S -> Prop) (starts : prog S unit -> Prop) s0 threads s :
  (forall a b, inv a -> tick a b -> inv b /\ step a b) -> (forall p w, starts p -> inv w -> thread p w) -> inv s0 ->
  rtc (pool_step tick starts) (mkPool [] s0) (mkPool threads s) -> inv s.
Proof.
  intros Htick Hstarts Hi Hrun.
  assert (pool_safe inv step step (mkPool [] s0)) as Hs by (split; [done | by apply Forall_nil_2]).
  by destruct (interleaving_sound inv step step until_refl until_trans tick starts (fun _ _ H => H) Htick Hstarts _ _ Hs Hrun) as [[Hi' _] _].
Qed.
End Marked.

(** ** Invariants that nothing spoils *)

Definition never {S : Type} (_ : S) : bool := false.

Section Always.
Context {S : Type} {core : S -> Prop} {grows : relation S} `{!PreOrder grows}.
Abbreviation sure := (mok never core grows).
Abbreviation inv := (until never core).
Abbreviation step := (until_step never grows).

Lemma inv_core w : core w -> inv w.
Proof. by intros H _. Qed.
Lemma core_inv w : inv w -> core w.
Proof. intros H. by apply H. Qed.
Lemma step_grows w w' : step w w' -> grows w w'.
Proof. intros [_ H]. by apply H. Qed.

Lemma always_sql {A} (f : S -> result A * S) (R : A -> S -> Prop) w :
  (forall w1, grows w w1 -> core w1 -> core (f w1).2 /\ grows w1 (f w1).2) ->
  (forall w1 a w2, grows w w1 -> core w1 -> (f w1).1 = inr a -> grows (f w1).2 w2 -> core w2 -> R a w2) ->
  sure (sql f) R w.
Proof.
  intros H HR. apply mok_sql; [done | |].
  - intros w1 He Hc _ _. apply H; [by apply step_grows | done].
  - intros w1 a w2 He Hc _ Ha Hg Hc2 _. apply (HR w1 a w2); auto using step_grows.
Qed.
Lemma always_read {A} (f : S -> result A) (R : A -> S -> Prop) w :
  (forall w1 a w2, grows w w1 -> core w1 -> f w1 = inr a -> grows w1 w2 -> core w2 -> R a w2) ->
  sure (sql (fun w => (f w, w))) R w.
Proof. intros H. apply always_sql; [intros w1 _ Hc; by split | exact H]. Qed.
(** What a program answered is known when the next begins. *)
Lemma always_bind {A B} (p : P S A) (f : A -> P S B) R R' w :
  sure p R w -> (forall a w', grows w w' -> core w' -> R a w' -> sure (f a) R' w') -> core w -> sure (p ≫= f) R' w.
Proof.
  intros Hp Hf Hc. eapply mok_bind; [exact Hp | | by apply inv_core]. intros a w' He Hi Ha.
  apply Hf; [by apply step_grows | by apply core_inv |]. by apply Ha; [apply until_refl | ..].
Qed.
Lemma always_seq {A B} (p : P S A) (q : P S B) R w :
  sure p anything w -> (forall w', grows w w' -> core w' -> sure q R w') -> core w -> sure (p ;; q) R w.
Proof. intros Hp Hq. eapply always_bind; [exact Hp|]. intros _ w' Hg Hc _. by apply Hq. Qed.
Lemma always_try {A} (p : P S A) w : sure p anything w -> core w -> sure (attempted p) anything w.
Proof. intros Hp Hc. by eapply mok_dropped; [|apply inv_core]. Qed.
Lemma always_attempted {A} (p : P S A) R w : sure p R w -> core w -> sure (attempted p) (fun r w' => answers R r w') w.
Proof. intros Hp Hc. by apply mok_attempted; [|apply inv_core]. Qed.
Lemma always_ret {A} (a : A) (R : A -> S -> Prop) w : (forall w', grows w w' -> core w' -> R a w') -> sure (mret a) R w.
Proof. intros H. apply mok_ret. intros w' He Hi _. apply H; [by apply step_grows | by apply core_inv]. Qed.
Lemma always_done {A} (a : A) w : sure (mret a) anything w.
Proof. by apply always_ret. Qed.
Lemma always_fail {A} err (R : A -> S -> Prop) w : sure (fail err) R w.
Proof. apply mok_fail. Qed.
(** With what held before. *)
Lemma always_after {A} (p : P S A) (R R' : A -> S -> Prop) w :
  (forall a w', grows w w' -> core w' -> R a w' -> R' a w') -> sure p R w -> sure p R' w.
Proof.
  intros H. apply safe_mono; [apply until_trans | | done]. intros [err|a] w' He Hi; [done|]. cbn. intros Ha _. apply H; auto using step_grows.
Qed.
End Always.
