(* ===== verification/Focus.v ===== *)
(** * Programs on a part of the state

    A service calls functions of several models, each of which is a program on
    its own part of the state.  [focus] runs a program of [Interleave] on a part;
    what was proved of it there holds of the whole, and it leaves the other parts
    alone. *)

From stdpp Require Import base numbers option list relations.
From S2P Require Import Prelude Store Interleave Marked.

Section Focus.
Context {S T : Type} (get : T -> S) (set : S -> T -> T).

Fixpoint focus {A : Type} (p : prog S A) : prog T A :=
  match p with
  | Done a => Done a
  | Stmt X act k => Stmt X (fun d t => let '(x, s) := act d (get t) in (x, set s t)) (fun x => focus (k x))
  | Fork child k => Fork (focus child) (focus k)
  end.

Context (get_set : forall s t, get (set s t) = s).

(** The invariant of the whole implies that of the part, and asks no more of it. *)
Lemma focus_safe (inv : S -> Prop) (inv' : T -> Prop) (rely guar : S -> S -> Prop) {A : Type} (p : prog S A) (Q : A -> S -> Prop) t :
  (forall t, inv' t -> inv (get t)) -> (forall s t, inv' t -> inv s -> guar (get t) s -> inv' (set s t)) -> safe inv rely guar p Q (get t) ->
  safe inv' (fun t t' => rely (get t) (get t')) (fun t t' => guar (get t) (get t')) (focus p) (fun a t => Q a (get t)) t.
Proof.
  intros Hget Hset. revert t. induction p as [A a|A X act k IH|A child IHc k IHk]; intros t H; cbn in *.
  - intros t' Hr Hi. by apply H; [|apply Hget].
  - intros t' d Hr Hi. specialize (H (get t') d Hr (Hget t' Hi)). destruct (act d (get t')) as [x s]. rewrite get_set.
    destruct H as (Hi' & Hg & Hk). split_and!; [by apply Hset | done|]. apply IH. by rewrite get_set.
  - destruct H. split; [by apply (IHc (fun _ _ => True)) | by apply IHk].
Qed.

(** Of a part it does not touch it changes nothing. *)
Lemma focus_elsewhere {U : Type} (other : T -> U) (inv : T -> Prop) (rely guar : U -> U -> Prop) {A : Type} (p : prog S A) (Q : A -> T -> Prop) t :
  (forall s t, other (set s t) = other t) -> (forall s t, inv t -> inv (set s t)) -> (forall u, guar u u) -> (forall a t, Q a t) ->
  safe inv (fun t t' => rely (other t) (other t')) (fun t t' => guar (other t) (other t')) (focus p) Q t.
Proof.
  intros Ho Hinv Hg HQ. revert t. induction p as [A a|A X act k IH|A child IHc k IHk]; intros t; cbn.
  - intros t' _ _. apply HQ.
  - intros t' d _ Hi. destruct (act d (get t')) as [x s]. rewrite Ho. split_and!; [by apply Hinv | done | by apply IH].
  - split; [by apply IHc | by apply IHk].
Qed.
End Focus.
