(* ===== verification/Topology.v ===== *)
(** * Several Redis instances over one database

    The programs of [Interleave] that use a cache see one state: what is in the
    database and what is in the Redis of their node.  Nodes may share a Redis, or
    have one each, or none ([src/docs/authentication.md]).  A [Cluster] has such a state
    for every Redis; what these have in common, the database, is copied by
    [adopt] from the one a statement was run on to all the others.  What was
    proved of programs on one Redis holds of each one in the cluster, if it also
    survives what nodes on other ones do to the database. *)

From stdpp Require Import base numbers option list relations.
From S2P Require Import Prelude Store Interleave Marked Focus.

Section Topology.
Context {R : Type} `{EqDecision R} {S : Type}.
(** [adopt s t]: the database of [s], the rest of [t]. *)
Context (adopt : S -> S -> S).

Definition Cluster : Type := R -> S.
Definition view (j : R) (t : Cluster) : S := t j.
Definition put (j : R) (s : S) (t : Cluster) : Cluster := fun i => if decide (i = j) then s else adopt s (t i).
(** A program on a node that uses the Redis [j]. *)
Definition on_redis {A : Type} (j : R) (p : prog S A) : prog Cluster A := focus (view j) (put j) p.

Inductive cluster_starts (starts : R -> prog S unit -> Prop) : prog Cluster unit -> Prop :=
| starts_on j p : starts j p -> cluster_starts starts (on_redis j p).
Inductive cluster_tick (tick : S -> S -> Prop) (t : Cluster) : Cluster -> Prop :=
| ticks_on j s : tick (t j) s -> cluster_tick tick t (put j s t).

Lemma put_same j s t : put j s t j = s.
Proof. unfold put. by rewrite decide_True. Qed.
Lemma put_other i j s t : i <> j -> put j s t i = adopt s (t i).
Proof. intros H. unfold put. by rewrite decide_False. Qed.

(** ** Soundness *)

Section Sound.
Context (inv : R -> S -> Prop) (step agree : S -> S -> Prop) `{!PreOrder step} `{!Equivalence agree}.
(** A step on [y], seen from [x]. *)
Definition survives : Prop := forall i j x y y',
  inv i x -> inv j y -> agree y x -> inv j y' -> step y y' ->
  inv i (adopt y' x) /\ step x (adopt y' x) /\ agree y' (adopt y' x).
Context (Hsurvives : survives).

Definition cluster_inv (t : Cluster) : Prop := (forall i, inv i (t i)) /\ (forall i j, agree (t i) (t j)).
Definition cluster_step (t t' : Cluster) : Prop := forall i, step (t i) (t' i).

Lemma cluster_step_refl : reflexive Cluster cluster_step.
Proof. intros t i. reflexivity. Qed.
Lemma cluster_step_trans a b c : cluster_step a b -> cluster_step b c -> cluster_step a c.
Proof. intros H1 H2 i. exact (transitivity (H1 i) (H2 i)). Qed.

Lemma put_sound j s t : cluster_inv t -> inv j s -> step (t j) s -> cluster_inv (put j s t) /\ cluster_step t (put j s t).
Proof.
  intros [Hi Ha] Hs Hstep.
  assert (forall i, inv i (put j s t i) /\ step (t i) (put j s t i) /\ agree s (put j s t i)) as H.
  { intros i. destruct (decide (i = j)) as [->|Hij]; [by rewrite put_same|]. rewrite put_other by done. by apply (Hsurvives i j _ (t j)). }
  split; [split|intros i; apply H]; [intros i; apply H|]. intros i k. transitivity s; [symmetry|]; apply H.
Qed.

Lemma on_redis_safe {A : Type} j (p : prog S A) (Q : A -> S -> Prop) t :
  safe (inv j) step step p Q (t j) -> safe cluster_inv cluster_step cluster_step (on_redis j p) (fun a t' => Q a (t' j)) t.
Proof.
  unfold on_redis. revert t. induction p as [A a|A X act k IH|A child IHc k IHk]; intros t H; cbn in *.
  - intros t' Hr [Hi _]. by apply H.
  - intros t' d Hr Hi. unfold view. specialize (H (t' j) d (Hr j) (proj1 Hi j)). destruct (act d (t' j)) as [x s].
    destruct H as (Hs & Hg & Hk). destruct (put_sound j s t' Hi Hs Hg). split_and!; [done..|]. apply IH. by rewrite put_same.
  - destruct H. split; [by apply (IHc (fun _ _ => True)) | by apply IHk].
Qed.

Context (tick : S -> S -> Prop) (starts : R -> prog S unit -> Prop).
Context (Htick : forall j a b, inv j a -> tick a b -> inv j b /\ step a b).
Context (Hstarts : forall j p s, starts j p -> inv j s -> thread_safe (inv j) step step p s).

Lemma cluster_reached t0 threads t :
  cluster_inv t0 -> rtc (pool_step (cluster_tick tick) (cluster_starts starts)) (mkPool [] t0) (mkPool threads t) -> cluster_inv t.
Proof.
  intros H0 Hrun.
  assert (pool_safe cluster_inv cluster_step cluster_step (mkPool [] t0)) as Hs by (split; [done | by apply Forall_nil_2]).
  refine (proj1 (proj1 (interleaving_sound cluster_inv cluster_step cluster_step cluster_step_refl cluster_step_trans
    (cluster_tick tick) (cluster_starts starts) (fun _ _ H => H) _ _ _ _ Hs Hrun))).
  - intros a b Hi [j s Hj]. destruct (Htick j (a j) s (proj1 Hi j) Hj). by apply put_sound.
  - intros p a [j q Hq] Hi. apply (on_redis_safe j q (fun _ _ => True)). apply Hstarts; [done | apply Hi].
Qed.
Lemma cluster_start s0 : (forall i, inv i s0) -> cluster_inv (fun _ => s0).
Proof. intros H. split; [exact H|]. intros i j. reflexivity. Qed.
End Sound.

(** ** Until something is marked

    The mark is part of what all have in common. *)
Lemma until_survives (mark : S -> bool) (core : R -> S -> Prop) (grows agree : S -> S -> Prop) :
  (forall x y, agree x y -> mark x = mark y) ->
  (forall x y', agree y' (adopt y' x)) ->
  (forall i j x y y', core i x -> core j y -> agree y x -> core j y' -> grows y y' -> core i (adopt y' x) /\ grows x (adopt y' x)) ->
  survives (fun i => until mark (core i)) (until_step mark grows) agree.
Proof.
  intros Hmark Hadopt H i j x y y' Hx Hy Ha Hy' [Hm Hg].
  assert (mark (adopt y' x) = mark y') as E by (symmetry; apply Hmark, Hadopt). pose proof (Hmark _ _ Ha) as Exy.
  assert (mark y' = false -> mark x = false /\ core i (adopt y' x) /\ grows x (adopt y' x)) as H'.
  { intros E'. assert (mark y = false) as Ey by (destruct (mark y); [by rewrite Hm in E' | done]).
    rewrite <- Exy. split; [done|]. apply (H i j x y y'); [apply Hx; congruence | by apply Hy | done | by apply Hy' | by apply Hg]. }
  unfold until, until_step. rewrite E. split_and!; [intros E'; by apply H' | rewrite <- Exy; exact Hm | intros E'; by apply H' | apply Hadopt].
Qed.
End Topology.

(** ** Runs *)

Section Runs.
Context {R : Type} `{EqDecision R} {S : Type} (adopt : S -> S -> S) (tick : S -> S -> Prop) (starts : R -> prog S unit -> Prop).
Abbreviation cluster := (Cluster (R := R) (S := S)).

(** A program is started on a Redis, run to its end, and removed. *)
Definition after_on (j : R) (p : prog S unit) (c : Pool cluster) : Pool cluster := after (on_redis adopt j p) c.
Lemma started_on j p c : starts j p -> rtc (pool_step (cluster_tick adopt tick) (cluster_starts adopt starts)) c (after_on j p c).
Proof. intros H. by apply started, starts_on. Qed.
Definition begin_on (j : R) (p : prog S unit) (c : Pool cluster) : Pool cluster := mkPool (on_redis adopt j p :: pool_threads c) (pool_state c).
Lemma begun_on j p c : starts j p -> rtc (pool_step (cluster_tick adopt tick) (cluster_starts adopt starts)) c (begin_on j p c).
Proof. intros H. destruct c as [l s]. apply rtc_once. by apply pool_start, starts_on. Qed.
Definition tick_on (j : R) (s : S) (c : Pool cluster) : Pool cluster := mkPool (pool_threads c) (put adopt j s (pool_state c)).
Lemma ticked_on j s c : tick (pool_state c j) s -> rtc (pool_step (cluster_tick adopt tick) (cluster_starts adopt starts)) c (tick_on j s c).
Proof. intros H. destruct c as [l t]. apply rtc_once, pool_tick. by apply ticks_on. Qed.
End Runs.
