(* ===== verification/SystemTasks.v ===== *)
(** * System tasks of the cluster ([src/model/system_task.go], [src/service/system_task.go])

    Administrative jobs - cleaning old logs, testing channels, polling - run on
    one node at a time.  A row of [system_tasks] is a job; the unique index on
    its [active_key] allows one unfinished job per type.  A row of
    [system_task_locks] is the lease of the node that runs it.  Nothing here
    runs in a transaction: operations are programs of single statements
    ([Interleave]), and several nodes run them at once. *)

From stdpp Require Import base numbers option strings list gmap.
From Stdlib Require Import ZArith Lia.
From S2P Require Import Prelude Schema Store Interleave.
Open Scope Z_scope.

(** ** Data *)

Definition SystemTaskStatusPending : string := "pending".
Definition SystemTaskStatusRunning : string := "running".
Definition SystemTaskStatusSucceeded : string := "succeeded".
Definition SystemTaskStatusFailed : string := "failed".
Definition SystemTaskTypeLogCleanup : string := "log_cleanup".

Definition ErrSystemTaskLockLost : Err := EText "system task lock lost".

Record SystemTask := mkSystemTask {
  sk_ID : Z;
  sk_TaskID : string;
  sk_Type : string;
  sk_Status : string;
  sk_ActiveKey : option string;
  sk_Payload : string;
  sk_State : string;
  sk_Result : string;
  sk_Error : string;
  sk_LockedBy : string;
  sk_CreatedAt : Z;
  sk_UpdatedAt : Z
}.
#[export] Instance SystemTask_eta : Eta SystemTask :=
  fun r => mkSystemTask (sk_ID r) (sk_TaskID r) (sk_Type r) (sk_Status r) (sk_ActiveKey r) (sk_Payload r)
    (sk_State r) (sk_Result r) (sk_Error r) (sk_LockedBy r) (sk_CreatedAt r) (sk_UpdatedAt r).
#[export] Instance SystemTask_eq_dec : EqDecision SystemTask.
Proof. solve_decision. Defined.

Record SystemTaskLock := mkSystemTaskLock {
  sl_Type : string;
  sl_TaskID : string;
  sl_LockedBy : string;
  sl_LockedUntil : Z;
  sl_UpdatedAt : Z
}.
#[export] Instance SystemTaskLock_eta : Eta SystemTaskLock :=
  fun r => mkSystemTaskLock (sl_Type r) (sl_TaskID r) (sl_LockedBy r) (sl_LockedUntil r) (sl_UpdatedAt r).
#[export] Instance SystemTaskLock_eq_dec : EqDecision SystemTaskLock.
Proof. solve_decision. Defined.

(** What the nodes share: the two tables, the log table, the clock, and how the
    driver counts [RowsAffected] - the rows an UPDATE matched, or (MySQL) only
    those it changed. *)
Record Cluster := mkCluster {
  cl_clock : Z;
  cl_matched_rows : bool;
  cl_tasks : list SystemTask;
  cl_locks : list SystemTaskLock;
  cl_logs : list Log
}.
#[export] Instance Cluster_eta : Eta Cluster :=
  fun s => mkCluster (cl_clock s) (cl_matched_rows s) (cl_tasks s) (cl_locks s) (cl_logs s).

Abbreviation program := (P Cluster).

(** A value of type [any]: [None] is nil, otherwise what [json.Marshal] answers. *)
Definition any : Type := option (result string).
Definition marshalSystemTaskJSON (v : any) : result string :=
  match v with None => inr EmptyString | Some text => text end.

(** ** Statements *)

Definition GetTimestamp : program Z := Stmt _ (fun _ s => (inr (cl_clock s), s)) Done.

Definition affected {R} `{EqDecision R} (matched : bool) (p : R -> bool) (f : R -> R) (rows : list R) : Z :=
  Z.of_nat (length (List.filter (fun r => p r && (matched || negb (bool_decide (f r = r)))) rows)).
Definition upd_where {R} (p : R -> bool) (f : R -> R) (rows : list R) : list R :=
  List.map (fun r => if p r then f r else r) rows.

Definition update_tasks (p : Cluster -> SystemTask -> bool) (f : SystemTask -> SystemTask) : program Z :=
  sql (fun s => (inr (affected (cl_matched_rows s) (p s) f (cl_tasks s)),
                 s <| cl_tasks := upd_where (p s) f (cl_tasks s) |>)).
Definition update_locks (p : SystemTaskLock -> bool) (f : SystemTaskLock -> SystemTaskLock) : program Z :=
  sql (fun s => (inr (affected (cl_matched_rows s) p f (cl_locks s)),
                 s <| cl_locks := upd_where p f (cl_locks s) |>)).
Definition delete_locks (p : SystemTaskLock -> bool) : program unit :=
  sql (fun s => (inr tt, s <| cl_locks := List.filter (fun l => negb (p l)) (cl_locks s) |>)).

(** [First] by primary key, and [Order("id desc").First]; tables are kept in
    the order of their keys. *)
Definition first_task (p : SystemTask -> bool) : program SystemTask :=
  sql (fun s => (match List.find p (cl_tasks s) with Some r => inr r | None => inl ErrRecordNotFound end, s)).
Definition last_task (p : SystemTask -> bool) : program SystemTask :=
  sql (fun s => (match last (List.filter p (cl_tasks s)) with Some r => inr r | None => inl ErrRecordNotFound end, s)).
Definition select_tasks {A} (f : list SystemTask -> A) : program A := sql (fun s => (inr (f (cl_tasks s)), s)).
Definition first_lock (p : SystemTaskLock -> bool) : program SystemTaskLock :=
  sql (fun s => (match List.find p (cl_locks s) with Some l => inr l | None => inl ErrRecordNotFound end, s)).
Definition select_locks (p : SystemTaskLock -> bool) : program (list SystemTaskLock) :=
  sql (fun s => (inr (List.filter p (cl_locks s)), s)).

(** [(nil, nil)] for a missing row. *)
Definition or_nil (p : program SystemTask) : program (option SystemTask) :=
  r ← attempted p;
  match r with
  | inl err => if is_err err ErrRecordNotFound then mret None else fail err
  | inr task => mret (Some task)
  end.

Definition unset_or (n now : Z) : Z := if n =? 0 then now else n.
Definition task_BeforeCreate (now : Z) (task : SystemTask) : SystemTask :=
  (task <| sk_CreatedAt ::= fun t => unset_or t now |>) <| sk_UpdatedAt ::= fun t => unset_or t now |>.

(** The unique indexes: the key, [task_id], and [active_key] where it is not NULL. *)
Definition task_clash (a b : SystemTask) : bool :=
  (sk_ID a =? sk_ID b) || str_eqb (sk_TaskID a) (sk_TaskID b) ||
  match sk_ActiveKey a, sk_ActiveKey b with Some x, Some y => str_eqb x y | _, _ => false end.

Definition create_task (task : SystemTask) : program SystemTask :=
  now ← GetTimestamp;
  sql (fun s =>
    let row := task_BeforeCreate now task <| sk_ID := next_id sk_ID (cl_tasks s) |> in
    if List.existsb (task_clash row) (cl_tasks s) then (inl ErrDuplicatedKey, s)
    else (inr row, s <| cl_tasks ::= fun l => l ++ [row] |>)).

Definition create_lock (lock : SystemTaskLock) : program unit :=
  sql (fun s =>
    if List.existsb (fun l => str_eqb (sl_Type l) (sl_Type lock)) (cl_locks s) then (inl ErrDuplicatedKey, s)
    else (inr tt, s <| cl_locks ::= fun l => l ++ [lock] |>)).

(** ** [src/model/system_task.go] *)

(** [key] is the answer of the random generator. *)
Definition GenerateSystemTaskID (key : result string) : program string :=
  match key with inl err => fail err | inr k => mret ("systask_" ++ k)%string end.

Definition CreateSystemTask (key : result string) (taskType : string) (payload state : any) : program SystemTask :=
  taskID ← GenerateSystemTaskID key;
  match marshalSystemTaskJSON payload with inl err => fail err | inr payloadText =>
  match marshalSystemTaskJSON state with inl err => fail err | inr stateText =>
    create_task (mkSystemTask 0 taskID taskType SystemTaskStatusPending (Some taskType) payloadText stateText "" "" "" 0 0)
  end end.

Definition GetSystemTaskByTaskID (taskID : string) : program (option SystemTask) :=
  or_nil (first_task (fun r => str_eqb (sk_TaskID r) taskID)).

Definition pending (r : SystemTask) : bool := str_eqb (sk_Status r) SystemTaskStatusPending.
Definition running (r : SystemTask) : bool := str_eqb (sk_Status r) SystemTaskStatusRunning.
(** [status IN activeSystemTaskStatuses()]. *)
Definition active (r : SystemTask) : bool := pending r || running r.

Definition GetActiveSystemTask (taskType : string) : program (option SystemTask) :=
  or_nil (last_task (fun r => str_eqb (sk_Type r) taskType && active r)).

Definition FindPendingSystemTasks (taskType : string) (limit : Z) : program (list SystemTask) :=
  let limit := if limit <=? 0 then 1 else limit in
  select_tasks (fun rows =>
    firstn (Z.to_nat limit) (List.filter (fun r => str_eqb (sk_Type r) taskType && pending r) rows)).

Definition type_in (taskTypes : list string) (r : SystemTask) : bool := List.existsb (str_eqb (sk_Type r)) taskTypes.

(** [id IN (SELECT best(id) ... WHERE p GROUP BY type)]. *)
Definition best_of_type (better : Z -> Z -> bool) (p : SystemTask -> bool) (rows : list SystemTask) : list SystemTask :=
  List.filter (fun r => p r && negb (List.existsb (fun x => p x && str_eqb (sk_Type x) (sk_Type r) && better (sk_ID x) (sk_ID r)) rows)) rows.
Definition by_type (rows : list SystemTask) : gmap string SystemTask :=
  List.fold_left (fun m r => <[sk_Type r := r]> m) rows ∅.

Definition FindEarliestPendingSystemTasks (taskTypes : list string) : program (gmap string SystemTask) :=
  match taskTypes with
  | [] => mret ∅
  | _ => select_tasks (fun rows => by_type (best_of_type Z.ltb (fun r => type_in taskTypes r && pending r) rows))
  end.

Definition ListSystemTasks (limit : Z) : program (list SystemTask) :=
  let limit := if limit <=? 0 then 20 else limit in
  let limit := if 100 <? limit then 100 else limit in
  select_tasks (fun rows => firstn (Z.to_nat limit) (rev rows)).

Definition GetLatestSystemTask (taskType : string) : program (option SystemTask) :=
  or_nil (last_task (fun r => str_eqb (sk_Type r) taskType)).

Definition GetLatestSystemTasks (taskTypes : list string) : program (gmap string SystemTask) :=
  match taskTypes with
  | [] => mret ∅
  | _ => select_tasks (fun rows => by_type (best_of_type (fun a b => b <? a) (type_in taskTypes) rows))
  end.

(** *** Leases *)

Definition MarkSystemTaskLeaseExpired (taskID : string) : program unit :=
  now ← GetTimestamp;
  update_tasks (fun _ r => str_eqb (sk_TaskID r) taskID && running r)
    (fun r => (r <| sk_Status := SystemTaskStatusFailed |> <| sk_ActiveKey := @None string |>)
                <| sk_Error := "task lease expired"%string |> <| sk_UpdatedAt := now |>) ;;
  mret tt.

Definition owned_by (taskID lockedBy : string) (l : SystemTaskLock) : bool :=
  str_eqb (sl_TaskID l) taskID && str_eqb (sl_LockedBy l) lockedBy.

Definition ReleaseSystemTaskLock (taskID lockedBy : string) : program unit := delete_locks (owned_by taskID lockedBy).

(** The answer: was the lock acquired, and the task of the lease it took over. *)
Definition acquireSystemTaskLock (taskType taskID lockedBy : string) (now lockUntil : Z) : program (bool * string) :=
  r ← attempted (create_lock (mkSystemTaskLock taskType taskID lockedBy lockUntil now));
  match r with
  | inr _ => mret (true, EmptyString)
  | inl _ =>
      r ← attempted (first_lock (fun l => str_eqb (sl_Type l) taskType));
      match r with
      | inl err => if is_err err ErrRecordNotFound then mret (false, EmptyString) else fail err
      | inr existing =>
          if now <=? sl_LockedUntil existing then mret (false, EmptyString) else
          n ← update_locks (fun l => str_eqb (sl_Type l) taskType && (sl_LockedUntil l <? now))
                (fun l => mkSystemTaskLock (sl_Type l) taskID lockedBy lockUntil now);
          if n =? 0 then mret (false, EmptyString) else mret (true, sl_TaskID existing)
      end
  end.

Definition pending_row (id : Z) (taskType : string) (r : SystemTask) : bool :=
  (sk_ID r =? id) && str_eqb (sk_Type r) taskType && pending r.

(** From the lock to the running row; every failure but the last gives the lock back. *)
Definition claim_locked (task : SystemTask) (id : Z) (taskType runnerID : string) (now : Z) (expiredTaskID : string) :
  program (option SystemTask) :=
  let giving_up {A} (answer : program A) : program A :=
    attempted (ReleaseSystemTaskLock (sk_TaskID task) runnerID) ;; answer in
  r ← attempted (if negb (str_eqb expiredTaskID "") && negb (str_eqb expiredTaskID (sk_TaskID task))
                 then MarkSystemTaskLeaseExpired expiredTaskID else mret tt);
  match r with
  | inl err => giving_up (fail err)
  | inr _ =>
      r ← attempted (update_tasks (fun _ => pending_row id taskType)
            (fun r => (r <| sk_Status := SystemTaskStatusRunning |>) <| sk_LockedBy := runnerID |> <| sk_UpdatedAt := now |>));
      match r with
      | inl err => giving_up (fail err)
      | inr n =>
          if n =? 0 then giving_up (mret None) else
          task ← first_task (fun r => sk_ID r =? id);
          mret (Some task)
      end
  end.

Definition ClaimSystemTask (id : Z) (taskType runnerID : string) (lockUntil : Z) : program (option SystemTask) :=
  now ← GetTimestamp;
  found ← or_nil (first_task (pending_row id taskType));
  match found with
  | None => mret None
  | Some task =>
      '(acquired, expiredTaskID) ← acquireSystemTaskLock taskType (sk_TaskID task) runnerID now lockUntil;
      if negb acquired then mret None else claim_locked task id taskType runnerID now expiredTaskID
  end.

(** [EXISTS (SELECT 1 FROM system_task_locks ...)]: the runner holds the lease. *)
Definition lease_held (s : Cluster) (taskID lockedBy : string) (now : Z) : bool :=
  List.existsb (fun l => owned_by taskID lockedBy l && (now <=? sl_LockedUntil l)) (cl_locks s).
Definition running_row (taskID lockedBy : string) (now : Z) (s : Cluster) (r : SystemTask) : bool :=
  str_eqb (sk_TaskID r) taskID && running r && str_eqb (sk_LockedBy r) lockedBy && lease_held s taskID lockedBy now.

Definition UpdateSystemTaskState (taskID lockedBy : string) (state : any) : program unit :=
  match marshalSystemTaskJSON state with inl err => fail err | inr stateText =>
  now ← GetTimestamp;
  n ← update_tasks (running_row taskID lockedBy now) (fun r => (r <| sk_State := stateText |>) <| sk_UpdatedAt := now |>);
  if 0 <? n then mret tt else
  held ← sql (fun s => (inr (Z.of_nat (length (List.filter (running_row taskID lockedBy now s) (cl_tasks s)))), s));
  if held =? 0 then fail ErrSystemTaskLockLost else mret tt
  end.

Definition RenewSystemTaskLock (taskID lockedBy : string) (lockUntil : Z) : program unit :=
  now ← GetTimestamp;
  n ← update_locks (fun l => owned_by taskID lockedBy l && (now <=? sl_LockedUntil l))
        (fun l => (l <| sl_LockedUntil := lockUntil |>) <| sl_UpdatedAt := now |>);
  if n =? 0 then fail ErrSystemTaskLockLost else mret tt.

Fixpoint each {A} (f : A -> program unit) (l : list A) : program unit :=
  match l with [] => mret tt | x :: l' => f x ;; each f l' end.

Definition expire_lock (now : Z) (lock : SystemTaskLock) : program unit :=
  MarkSystemTaskLeaseExpired (sl_TaskID lock) ;;
  delete_locks (fun l => str_eqb (sl_Type l) (sl_Type lock) && owned_by (sl_TaskID lock) (sl_LockedBy lock) l &&
                         (sl_LockedUntil l <? now)).
Definition ExpireStaleSystemTaskLocks (now : Z) : program unit :=
  locks ← select_locks (fun l => sl_LockedUntil l <? now);
  each (expire_lock now) locks.

Definition FinishSystemTask (taskID lockedBy status : string) (resultPayload : any) (errorMessage : string) : program unit :=
  match marshalSystemTaskJSON resultPayload with inl err => fail err | inr resultText =>
  now ← GetTimestamp;
  n ← update_tasks (running_row taskID lockedBy now)
        (fun r => (r <| sk_Status := status |> <| sk_ActiveKey := @None string |>) <| sk_Result := resultText |>
                    <| sk_Error := errorMessage |> <| sk_UpdatedAt := now |>);
  if n =? 0 then fail ErrSystemTaskLockLost else ReleaseSystemTaskLock taskID lockedBy
  end.
