(* ===== verification/SystemTaskRunner.v ===== *)
(** * The node's side of system tasks ([src/service/system_task.go])

    Enqueueing, the scheduler, the claim pass that starts claimed tasks with
    their heartbeat, one pass of the runner, and the log clean-up task; the
    common end of the handlers of [src/controller/system_task_handlers.go].  A
    handler is an instance of [SystemTaskHandler], the interface of that name;
    its law is the contract written in the comment of the Go interface. *)

From stdpp Require Import base numbers option strings list gmap.
From Stdlib Require Import ZArith Lia.
From S2P Require Import Prelude Schema Store Interleave SystemTasks.
Open Scope Z_scope.

Definition systemTaskLockTTL : Z := 60.
Definition logCleanupBatchSize : Z := 100.
Definition systemTaskSchedulerInterval : Z := 15.
Definition systemTaskStaleLockInterval : Z := 30.

Definition systemTaskLockUntil : program Z := now ← GetTimestamp; mret (i64 (now + systemTaskLockTTL)).

(** ** Enqueueing *)

(** A creation that lost the race answers with the task that won it. *)
Definition create_or_active (key : result string) (taskType : string) (payload state : any) : program (SystemTask * bool) :=
  r ← attempted (CreateSystemTask key taskType payload state);
  match r with
  | inr task => mret (task, true)
  | inl err =>
      activeTask ← attempted (GetActiveSystemTask taskType);
      match activeTask with
      | inr (Some task) => mret (task, false)
      | _ => fail err
      end
  end.

Definition EnqueueSystemTask (key : result string) (taskType : string) (payload : any) : program (SystemTask * bool) :=
  activeTask ← GetActiveSystemTask taskType;
  match activeTask with
  | Some task => mret (task, false)
  | None => create_or_active key taskType payload None
  end.

(** ** The handlers *)

Record Schedule := mkSchedule {
  sched_Enabled : bool;
  sched_Interval : Z;        (* seconds *)
  sched_NewPayload : any
}.

(** What a handler is: its type, what it does with a claimed task, and the
    schedule it may have. *)
Record SystemTaskHandler := mkHandler {
  h_Type : string;
  h_Run : SystemTask -> string -> prog Cluster unit;
  h_schedule : option Schedule
}.

Definition finishSystemTaskHandler (task : SystemTask) (runnerID status : string) (result : any) (runErr : option Err) :
  prog Cluster unit :=
  ignored (FinishSystemTask (sk_TaskID task) runnerID status result
             (match runErr with Some err => err_text err | None => "" end)).

Definition failSystemTask (task : SystemTask) (runnerID : string) (err : Err) : prog Cluster unit :=
  ignored (FinishSystemTask (sk_TaskID task) runnerID SystemTaskStatusFailed None (err_text err)).

(** *** The heartbeat, for as many ticks as fire while the task runs *)

Fixpoint heartbeat (beats : nat) (task : SystemTask) (runnerID : string) : program unit :=
  match beats with
  | O => mret tt
  | S beats =>
      lockUntil ← systemTaskLockUntil;
      RenewSystemTaskLock (sk_TaskID task) runnerID lockUntil ;;
      heartbeat beats task runnerID
  end.

Definition runWithLeaseHeartbeat (beats : nat) (task : SystemTask) (runnerID : string) (fn : prog Cluster unit) :
  prog Cluster unit := Fork (ignored (heartbeat beats task runnerID)) fn.

(** ** The claim pass, over the handlers in the order the map yields them *)

Fixpoint claim_each (beats : nat) (runnerID : string) (pendingTasks : gmap string SystemTask) (handlers : list SystemTaskHandler) :
  program unit :=
  match handlers with
  | [] => mret tt
  | h :: rest =>
      match pendingTasks !! h_Type h with
      | None => claim_each beats runnerID pendingTasks rest
      | Some task =>
          r ← attempted (lockUntil ← systemTaskLockUntil; ClaimSystemTask (sk_ID task) (h_Type h) runnerID lockUntil);
          match r with
          | inr (Some claimedTask) =>
              Fork (runWithLeaseHeartbeat beats claimedTask runnerID (h_Run h claimedTask runnerID))
                   (claim_each beats runnerID pendingTasks rest)
          | _ => claim_each beats runnerID pendingTasks rest
          end
      end
  end.

Definition runSystemTaskClaimPass (beats : nat) (handlers : list SystemTaskHandler) (runnerID : string) : program unit :=
  pendingTasks ← FindEarliestPendingSystemTasks (List.map h_Type handlers);
  claim_each beats runnerID pendingTasks handlers.

(** ** The scheduler *)

Definition due (now : Z) (schedule : Schedule) (latest : option SystemTask) : bool :=
  match latest with
  | None => true
  | Some task => negb (active task) && negb (i64 (now - sk_UpdatedAt task) <? sched_Interval schedule)
  end.

(** The scheduled handlers that are enabled. *)
Fixpoint scheduled (handlers : list SystemTaskHandler) : list (SystemTaskHandler * Schedule) :=
  match handlers with
  | [] => []
  | h :: rest =>
      match h_schedule h with
      | Some schedule => if sched_Enabled schedule then (h, schedule) :: scheduled rest else scheduled rest
      | None => scheduled rest
      end
  end.

Definition schedule_one (keys : string -> result string) (now : Z) (latestTasks : gmap string SystemTask)
    (hs : SystemTaskHandler * Schedule) : program unit :=
  let '(h, schedule) := hs in
  if due now schedule (latestTasks !! h_Type h)
  then r ← attempted (CreateSystemTask (keys (h_Type h)) (h_Type h) (sched_NewPayload schedule) None);
       match r with
       | inr _ => mret tt
       | inl _ => attempted (GetActiveSystemTask (h_Type h)) ;; mret tt
       end
  else mret tt.

Definition runSystemTaskScheduler (keys : string -> result string) (handlers : list SystemTaskHandler) : program unit :=
  now ← GetTimestamp;
  latestTasks ← GetLatestSystemTasks (List.map (fun hs => h_Type hs.1) (scheduled handlers));
  each (schedule_one keys now latestTasks) (scheduled handlers).

(** ** One pass of the runner

    The two times are those of the last scheduler and stale-lock passes. *)
Definition elapsed (now : Z) (before : option Z) (interval : Z) : bool :=
  match before with None => true | Some t => interval <=? now - t end.

Definition runPass (beats : nat) (keys : string -> result string) (handlers : list SystemTaskHandler) (runnerID : string)
    (lastScheduler lastStaleLockCleanup : option Z) : program (option Z * option Z) :=
  now ← GetTimestamp;
  let stale := elapsed now lastStaleLockCleanup systemTaskStaleLockInterval in
  let sched := elapsed now lastScheduler systemTaskSchedulerInterval in
  attempted (if stale then t ← GetTimestamp; ExpireStaleSystemTaskLocks t else mret tt) ;;
  attempted (if sched then runSystemTaskScheduler keys handlers else mret tt) ;;
  attempted (runSystemTaskClaimPass beats handlers runnerID) ;;
  mret (if sched then Some now else lastScheduler, if stale then Some now else lastStaleLockCleanup).

(** ** Cleaning old logs *)

Record LogCleanupPayload := mkLogCleanupPayload { lp_TargetTimestamp : Z; lp_BatchSize : Z }.
Record LogCleanupState := mkLogCleanupState { lc_Total : Z; lc_Processed : Z; lc_Progress : Z; lc_Remaining : Z }.
#[export] Instance LogCleanupState_eta : Eta LogCleanupState :=
  fun r => mkLogCleanupState (lc_Total r) (lc_Processed r) (lc_Progress r) (lc_Remaining r).

Definition logCleanupProgress (processed total : Z) : Z :=
  if total <=? 0 then 100 else
  if processed <=? 0 then 0 else
  if total <=? processed then 100 else
  Z.quot (i64 (processed * 100)) total.

Definition syncLogCleanupStateFromRemaining (state : LogCleanupState) (remaining : Z) : LogCleanupState :=
  let state :=
    if lc_Total state <=? 0 then (state <| lc_Total := remaining |>) <| lc_Processed := 0 |>
    else let processedFromRemaining := i64 (lc_Total state - remaining) in
         if lc_Processed state <? processedFromRemaining then state <| lc_Processed := processedFromRemaining |> else state in
  let state := if lc_Processed state <? 0 then state <| lc_Processed := 0 |> else state in
  (state <| lc_Remaining := remaining |>) <| lc_Progress := logCleanupProgress (lc_Processed state) (lc_Total state) |>.

Definition old (targetTimestamp : Z) (l : Log) : bool := lg_created_at l <? targetTimestamp.

Definition CountOldLog (targetTimestamp : Z) : program Z :=
  sql (fun s => (inr (Z.of_nat (length (List.filter (old targetTimestamp) (cl_logs s)))), s)).

(** [DELETE ... LIMIT n]: some [n] of the matching rows; here the first.  A
    dialect that knows no such limit deletes them all, as with a large [n]. *)
Fixpoint delete_first {R} (n : nat) (p : R -> bool) (rows : list R) : list R :=
  match rows with
  | [] => []
  | r :: rest => if p r then match n with O => rows | S n => delete_first n p rest end else r :: delete_first n p rest
  end.

Section Cleanup.
(** The log database is ClickHouse, whose DELETE has no limit. *)
Context (clickhouse : bool).

Definition delete_batch (targetTimestamp limit : Z) : program Z :=
  sql (fun s =>
    let rest := delete_first (Z.to_nat limit) (old targetTimestamp) (cl_logs s) in
    (inr (Z.of_nat (length (cl_logs s)) - Z.of_nat (length rest)), s <| cl_logs := rest |>)).

Definition DeleteOldLogBatch (targetTimestamp limit : Z) : program Z :=
  let limit := if limit <=? 0 then 100 else limit in
  if clickhouse then
    total ← CountOldLog targetTimestamp;
    if total =? 0 then mret 0 else
    sql (fun s => (inr tt, s <| cl_logs ::= List.filter (fun l => negb (old targetTimestamp l)) |>)) ;;
    mret total
  else delete_batch targetTimestamp limit.

(** The JSON of the payload and of the state. *)
Context (DecodePayload : string -> result LogCleanupPayload) (DecodeState : string -> result LogCleanupState).
Context (MarshalState : LogCleanupState -> result string) (MarshalResult : Z -> result string).

Section Task.
Context (task : SystemTask) (runnerID : string) (target batch : Z).

Definition store (state : LogCleanupState) : program unit :=
  UpdateSystemTaskState (sk_TaskID task) runnerID (Some (MarshalState state)).
(** An error of the log database ends the task as failed. *)
Definition or_failed {A} (p : program A) : program A :=
  r ← attempted p;
  match r with
  | inr a => mret a
  | inl err => prog_bind (failSystemTask task runnerID err) (fun _ => fail err)
  end.

Definition deleted (rowsAffected : Z) (state : LogCleanupState) : LogCleanupState :=
  let processed := i64 (lc_Processed state + rowsAffected) in
  let total := if lc_Total state <? processed then processed else lc_Total state in
  mkLogCleanupState total processed (logCleanupProgress processed total)
    (if rowsAffected <? lc_Remaining state then lc_Remaining state - rowsAffected else 0).

(** The inner loop: delete until nothing remains of the count, or nothing was
    deleted; the answer says whether anything was. *)
Fixpoint delete_rounds (fuel : nat) (progressed : bool) (state : LogCleanupState) : program (bool * LogCleanupState) :=
  match fuel with
  | O => fail ErrDiverges
  | S fuel =>
      if lc_Remaining state <=? 0 then mret (progressed, state) else
      rowsAffected ← or_failed (DeleteOldLogBatch target batch);
      if rowsAffected =? 0 then mret (progressed, state) else
      let state := deleted rowsAffected state in
      store state ;;
      delete_rounds fuel true state
  end.

(** The outer loop: recount until nothing remains. *)
Fixpoint cleanup_rounds (fuel inner : nat) (state : LogCleanupState) : program LogCleanupState :=
  match fuel with
  | O => fail ErrDiverges
  | S fuel =>
      remaining ← or_failed (CountOldLog target);
      let state := syncLogCleanupStateFromRemaining state remaining in
      store state ;;
      if lc_Remaining state =? 0 then mret state else
      '(progressed, state) ← delete_rounds inner false state;
      if negb progressed then or_failed (fail (EText "no log rows were deleted")) else
      cleanup_rounds fuel inner state
  end.

Definition cleanup_finished (state : LogCleanupState) : LogCleanupState :=
  mkLogCleanupState (if lc_Total state <? lc_Processed state then lc_Processed state else lc_Total state)
    (lc_Processed state) 100 0.
End Task.

Definition runLogCleanupTask (fuel inner : nat) (task : SystemTask) (runnerID : string) : prog Cluster unit :=
  ignored (
    let or_failed {A} (r : result A) : program A := or_failed task runnerID (Done r) in
    payload ← or_failed (if str_eqb (sk_Payload task) "" then inr (mkLogCleanupPayload 0 0) else DecodePayload (sk_Payload task));
    if lp_TargetTimestamp payload <=? 0 then or_failed (inl (EText "target timestamp is required")) else
    let batch := if lp_BatchSize payload <=? 0 then logCleanupBatchSize else lp_BatchSize payload in
    state ← or_failed (if str_eqb (sk_State task) "" then inr (mkLogCleanupState 0 0 0 0) else DecodeState (sk_State task));
    state ← cleanup_rounds task runnerID (lp_TargetTimestamp payload) batch fuel inner state;
    let state := cleanup_finished state in
    store task runnerID state ;;
    FinishSystemTask (sk_TaskID task) runnerID SystemTaskStatusSucceeded (Some (MarshalResult (lc_Processed state))) "").

Definition logCleanupHandler (fuel inner : nat) : SystemTaskHandler :=
  mkHandler SystemTaskTypeLogCleanup (runLogCleanupTask fuel inner) None.

Context (MarshalPayload : LogCleanupPayload -> result string).
Definition StartLogCleanupTask (key : result string) (targetTimestamp : Z) : program SystemTask :=
  if targetTimestamp <=? 0 then fail (EText "target timestamp is required") else
  activeTask ← GetActiveSystemTask SystemTaskTypeLogCleanup;
  match activeTask with
  | Some task => mret task
  | None =>
      '(task, _) ← create_or_active key SystemTaskTypeLogCleanup
        (Some (MarshalPayload (mkLogCleanupPayload targetTimestamp logCleanupBatchSize)))
        (Some (MarshalState (mkLogCleanupState 0 0 0 0)));
      mret task
  end.
End Cleanup.
