(* ===== verification/SystemTaskFacts.v ===== *)
(** * What a statement of the system-task code may do

    The invariant of the two tables, the changes one statement may make to a
    row ([row_step]) and to the leases ([leases_kept]), what remains true of a
    row in the long run ([evolves]), and the lemmas that every operation of
    [SystemTasks] and [SystemTaskRunner] stays within them, whatever the other
    nodes do between its statements.

    The section parameter [orphan] is a row that is running without a lease, or
    none: with one, the same lemmas show that no program ever touches it. *)

From stdpp Require Import base numbers option strings list gmap relations.
From Stdlib Require Import ZArith Lia.
From S2P Require Import Prelude Schema Store Interleave SystemTasks SystemTaskRunner.
Open Scope Z_scope.

(** ** Rows *)

Definition same_task (r r' : SystemTask) : Prop :=
  sk_ID r' = sk_ID r /\ sk_TaskID r' = sk_TaskID r /\ sk_Type r' = sk_Type r /\ sk_CreatedAt r' = sk_CreatedAt r.

(** The runner of [r] is written in the lock of [r]. *)
Definition holds_lease (s : Cluster) (r : SystemTask) : Prop :=
  exists l, l ∈ cl_locks s /\ owned_by (sk_TaskID r) (sk_LockedBy r) l = true.

Definition expired (r : SystemTask) : Prop := sk_Error r = "task lease expired"%string /\ sk_Status r = SystemTaskStatusFailed.

(** One statement claims a pending row, writes the state of a running row under
    its lease, or ends a running row: under its lease, or because it expired. *)
Variant row_change (s : Cluster) (r r' : SystemTask) : Prop :=
  | row_claimed : pending r = true -> running r' = true -> sk_ActiveKey r' = sk_ActiveKey r -> row_change s r r'
  | row_state : running r = true -> running r' = true -> sk_ActiveKey r' = sk_ActiveKey r ->
      sk_LockedBy r' = sk_LockedBy r -> holds_lease s r -> row_change s r r'
  | row_ended : running r = true -> active r' = false -> sk_ActiveKey r' = None ->
      sk_LockedBy r' = sk_LockedBy r -> holds_lease s r \/ expired r' -> row_change s r r'.

Definition row_step (s : Cluster) (r r' : SystemTask) : Prop := r' = r \/ same_task r r' /\ row_change s r r'.

(** In the long run. *)
Definition rank (r : SystemTask) : nat := if pending r then 0 else if running r then 1 else 2.
Definition evolves (r r' : SystemTask) : Prop :=
  same_task r r' /\ (rank r <= rank r')%nat /\
  ((1 <= rank r)%nat -> sk_LockedBy r' = sk_LockedBy r) /\ (rank r = 2%nat -> r' = r).

Lemma status_ranks r :
  (pending r = true -> rank r = 0%nat /\ running r = false) /\ (running r = true -> rank r = 1%nat /\ pending r = false) /\
  (active r = false -> rank r = 2%nat).
Proof.
  unfold rank, active, pending, running. destruct (str_eqb (sk_Status r) SystemTaskStatusPending) eqn:E.
  - apply str_eqb_true in E. rewrite E. by vm_compute.
  - by destruct (str_eqb (sk_Status r) SystemTaskStatusRunning).
Qed.

Lemma row_step_evolves s r r' : row_step s r r' -> evolves r r'.
Proof.
  destruct (status_ranks r) as (Hp & Hr & Ha), (status_ranks r') as (Hp' & Hr' & Ha').
  intros [->|[Hsame [H1 H2 _|H1 H2 _ Hl _|H1 H2 _ Hl _]]].
  - split; [done | split; [done | split; done]].
  - destruct (Hp H1) as [E _], (Hr' H2) as [E' _]. unfold evolves. rewrite E, E'. split_and!; [done | lia | lia | lia].
  - destruct (Hr H1) as [E _], (Hr' H2) as [E' _]. unfold evolves. rewrite E, E'. split_and!; [done | lia | done | lia].
  - destruct (Hr H1) as [E _]. specialize (Ha' H2). unfold evolves. rewrite E, Ha'. split_and!; [done | lia | done | lia].
Qed.

Lemma same_task_trans a b c : same_task a b -> same_task b c -> same_task a c.
Proof. unfold same_task. intros (? & ? & ? & ?) (? & ? & ? & ?). split_and!; congruence. Qed.

Lemma tasks_evolve_refl r : evolves r r.
Proof. by split_and!. Qed.
Lemma tasks_evolve_trans a b c : evolves a b -> evolves b c -> evolves a c.
Proof.
  intros (Hs & Hr & Hl & Hf) (Hs' & Hr' & Hl' & Hf'). split; [by eapply same_task_trans|]. split; [lia|]. split.
  - intros. rewrite Hl' by lia. by apply Hl.
  - intros H. specialize (Hf H). subst b. by apply Hf'.
Qed.

(** ** The invariant of the tables *)

(** A row has an [active_key], its type, exactly while it is unfinished. *)
Definition keyed (r : SystemTask) : Prop := sk_ActiveKey r = if active r then Some (sk_Type r) else None.

Definition rows_ok (rows : list SystemTask) : Prop :=
  Forall keyed rows /\ NoDup (omap sk_ActiveKey rows) /\ NoDup (List.map sk_TaskID rows) /\ NoDup (List.map sk_ID rows).
Definition tables_ok (s : Cluster) : Prop := rows_ok (cl_tasks s) /\ NoDup (List.map sl_Type (cl_locks s)).

Lemma row_step_keyed s r r' : row_step s r r' -> keyed r ->
  keyed r' /\ (sk_ActiveKey r' = sk_ActiveKey r \/ sk_ActiveKey r' = None).
Proof.
  destruct (status_ranks r) as (Hp & Hr & _), (status_ranks r') as (_ & Hr' & _). unfold keyed.
  intros [->|[(_ & _ & Hty & _) [H1 H2 Hk|H1 H2 Hk _ _|H1 H2 Hk _ _]]]; [by auto | | |];
    unfold active in *; rewrite ?H1, ?H2, ?Hk, ?Hty, ?orb_true_r, ?orb_true_l; by auto.
Qed.

Lemma rows_ok_step s rows rows' : Forall2 (row_step s) rows rows' -> rows_ok rows -> rows_ok rows'.
Proof.
  intros H (Hk & Ha & Ht & Hi).
  assert (Forall keyed rows' /\ sublist (omap sk_ActiveKey rows') (omap sk_ActiveKey rows)) as [Hk' Hsub].
  { clear Ha Ht Hi. induction H as [|r r' rows rows' Hr H IH]; [done|]. apply Forall_cons in Hk as [Hkr Hk].
    destruct (IH Hk) as [Hk' Hsub], (row_step_keyed s r r' Hr Hkr) as [Hkr' Hcase]. split; [by apply Forall_cons|].
    cbn. destruct Hcase as [->| ->].
    - destruct (sk_ActiveKey r); [by apply sublist_skip | done].
    - destruct (sk_ActiveKey r); [by apply sublist_cons | done]. }
  assert (List.map sk_TaskID rows' = List.map sk_TaskID rows /\ List.map sk_ID rows' = List.map sk_ID rows) as [Et Ei].
  { clear -H. induction H as [|r r' rows rows' [->|[(E1 & E2 & _) _]] H [IH1 IH2]]; cbn; rewrite ?IH1, ?IH2, ?E1, ?E2; done. }
  split_and!; [done | by apply (sublist_NoDup _ _ Ha Hsub) | by rewrite Et | by rewrite Ei].
Qed.

Lemma next_id_above {R} (id : R -> Z) rows x : x ∈ rows -> id x < next_id id rows.
Proof.
  unfold next_id. induction rows as [|r rows IH]; [by intros ?%not_elem_of_nil|].
  intros [->|Hx]%elem_of_cons; cbn; [lia|]. specialize (IH Hx). lia.
Qed.

(** Creating a row: it is pending, with keys no other row has. *)
Lemma rows_ok_create rows row :
  rows_ok rows -> pending row = true -> sk_ActiveKey row = Some (sk_Type row) ->
  List.existsb (task_clash row) rows = false -> rows_ok (rows ++ [row]).
Proof.
  intros (Hk & Ha & Ht & Hi) Hp Hkey Hclash.
  assert (forall x, x ∈ rows -> task_clash row x = false) as Hno.
  { intros x Hx. destruct (task_clash row x) eqn:E; [|done]. rewrite <- Hclash. symmetry. apply existsb_exists. exists x.
    split; [by apply list_elem_of_In | done]. }
  unfold task_clash in Hno. rewrite Hkey in Hno. split_and!.
  - apply Forall_app. split; [done|]. apply Forall_cons. split; [|done]. unfold keyed, active. by rewrite Hp.
  - rewrite omap_app. cbn. rewrite Hkey. apply NoDup_app. split; [done|]. split; [|apply NoDup_singleton].
    intros k Hk1 Hk2%list_elem_of_singleton. subst k. apply list_elem_of_omap in Hk1 as (x & Hx & Ex).
    specialize (Hno x Hx). rewrite Ex, str_eqb_refl, orb_true_r in Hno. done.
  - rewrite map_app. apply NoDup_app. split; [done|]. split; [|apply NoDup_singleton].
    intros k (x & -> & Hx)%list_elem_of_fmap E%list_elem_of_singleton. specialize (Hno x Hx).
    rewrite E, str_eqb_refl, orb_true_r in Hno. done.
  - rewrite map_app. apply NoDup_app. split; [done|]. split; [|apply NoDup_singleton].
    intros k (x & -> & Hx)%list_elem_of_fmap E%list_elem_of_singleton. specialize (Hno x Hx). by rewrite E, Z.eqb_refl in Hno.
Qed.

Lemma key_injective {R K} (f : R -> K) (l : list R) x y :
  NoDup (List.map f l) -> x ∈ l -> y ∈ l -> f x = f y -> x = y.
Proof.
  induction l as [|a l IH]; [by intros _ ?%not_elem_of_nil|]. cbn. intros [Ha Hn]%NoDup_cons Hx Hy E.
  apply elem_of_cons in Hx as [Hx|Hx], Hy as [Hy|Hy]; subst; [done | | |by apply IH]; destruct Ha.
  - rewrite E. by apply (list_elem_of_fmap_2 f).
  - rewrite <- E. by apply (list_elem_of_fmap_2 f).
Qed.

(** ** Rely and guarantee *)

(** A lease that has not run out is not handed to another task or runner. *)
Definition leases_kept (s s' : Cluster) : Prop := forall l l',
  l ∈ cl_locks s -> l' ∈ cl_locks s' -> sl_Type l' = sl_Type l -> cl_clock s <= sl_LockedUntil l ->
  owned_by (sl_TaskID l) (sl_LockedBy l) l' = true.

(** The rows are those there were, changed by [R], and new ones after them. *)
Definition rows_change (R : relation SystemTask) (s s' : Cluster) : Prop :=
  exists rows' new, cl_tasks s' = rows' ++ new /\ Forall2 R (cl_tasks s) rows'.

Definition guar (s s' : Cluster) : Prop :=
  cl_clock s' = cl_clock s /\ leases_kept s s' /\
  exists rows' new, cl_tasks s' = rows' ++ new /\ Forall2 (row_step s) (cl_tasks s) rows' /\
    Forall (fun r => pending r = true) new.
Definition rely (s s' : Cluster) : Prop := cl_clock s <= cl_clock s' /\ rows_change evolves s s'.

Lemma upd_where_Forall2 {R} (Q : R -> R -> Prop) (p : R -> bool) (f : R -> R) (l : list R) :
  (forall r, r ∈ l -> Q r (if p r then f r else r)) -> Forall2 Q l (upd_where p f l).
Proof.
  induction l as [|r l IH]; intros H; [constructor|]. constructor; [apply H; by left|].
  apply IH. intros x Hx. apply H. by right.
Qed.
Lemma Forall2_same {R} (Q : R -> R -> Prop) (l : list R) : (forall r, Q r r) -> Forall2 Q l l.
Proof. intros H. induction l; by constructor. Qed.

Lemma rows_change_refl s : rows_change evolves s s.
Proof.
  exists (cl_tasks s), []. split; [by rewrite app_nil_r|]. apply Forall2_same, tasks_evolve_refl.
Qed.

Lemma rely_refl s : rely s s.
Proof. split; [lia | apply rows_change_refl]. Qed.

Lemma rely_trans a b c : rely a b -> rely b c -> rely a c.
Proof.
  intros [Hc (rows1 & new1 & E1 & H1)] [Hc' (rows2 & new2 & E2 & H2)]. split; [lia|].
  rewrite E1 in H2. apply Forall2_app_inv_l in H2 as (rows2a & rows2b & Ha & Hb & ->).
  exists rows2a, (rows2b ++ new2). split; [by rewrite E2, app_assoc|].
  clear -H1 Ha. revert rows2a Ha. induction H1; intros rows3 Ha; inversion Ha; subst; constructor; eauto using tasks_evolve_trans.
Qed.

Lemma guar_rely s s' : guar s s' -> rely s s'.
Proof.
  intros (Hc & _ & rows' & new & E & H & _). split; [lia|]. exists rows', new. split; [done|].
  eapply Forall2_impl; [exact H|]. intros r r'. apply row_step_evolves.
Qed.

(** Leases are kept when the locks of live leases keep their owner. *)
Lemma guar_same_tasks s s' :
  cl_clock s' = cl_clock s -> leases_kept s s' -> cl_tasks s' = cl_tasks s -> guar s s'.
Proof.
  intros Hc Hl Ht. split_and!; [done | done|]. exists (cl_tasks s), []. rewrite app_nil_r.
  split_and!; [done | | done]. apply Forall2_same. by left.
Qed.
Lemma owned_by_self l : owned_by (sl_TaskID l) (sl_LockedBy l) l = true.
Proof. unfold owned_by. by rewrite !str_eqb_refl. Qed.
Lemma leases_kept_same s s' : tables_ok s -> cl_locks s' = cl_locks s -> leases_kept s s'.
Proof.
  intros [_ Hn] E l l' Hl Hl' Ety _. rewrite E in Hl'. rewrite (key_injective sl_Type _ l l' Hn) by done. apply owned_by_self.
Qed.
Lemma guar_refl s : tables_ok s -> guar s s.
Proof. intros. apply guar_same_tasks; [done | by apply leases_kept_same | done]. Qed.

(** The clock moves on. *)
Definition tick (s s' : Cluster) : Prop := exists t, cl_clock s <= t /\ s' = s <| cl_clock := t |>.

Lemma tick_ok s s' : tables_ok s -> tick s s' -> tables_ok s' /\ rely s s'.
Proof. intros Hok (t & Ht & ->). split; [done|]. split; [done|]. apply (rows_change_refl s). Qed.

#[export] Hint Resolve rely_refl guar_rely : ledger.

(** ** Statements *)

Section Orphan.
Context (orphan : option SystemTask).

(** The orphan runs, and no lease names it. *)
Definition orphaned (s : Cluster) : Prop :=
  match orphan with
  | None => True
  | Some r => r ∈ cl_tasks s /\ running r = true /\ forall l, l ∈ cl_locks s -> sl_TaskID l <> sk_TaskID r
  end.
Definition inv (s : Cluster) : Prop := tables_ok s /\ orphaned s.
Definition foreign (taskID : string) : Prop :=
  match orphan with None => True | Some r => taskID <> sk_TaskID r end.
Definition not_orphan (r : SystemTask) : Prop := match orphan with None => True | Some r' => r <> r' end.

Lemma guar_keep s : inv s -> guar s s.
Proof. intros [Hi _]. by apply guar_refl. Qed.

(** The rules of [Interleave] for this invariant. *)
Definition ok {A : Type} (p : program A) (R : A -> Cluster -> Prop) (s : Cluster) : Prop := prog_ok inv rely guar p R s.
Definition thread (p : prog Cluster unit) (s : Cluster) : Prop := thread_safe inv rely guar p s.

Lemma ok_ret {A} (a : A) (R : A -> Cluster -> Prop) s : (forall s', rely s s' -> inv s' -> R a s') -> ok (mret a) R s.
Proof. apply rule_ret. Qed.
Lemma ok_fail {A} err (R : A -> Cluster -> Prop) s : ok (fail err) R s.
Proof. apply rule_fail. Qed.
Lemma ok_bind {A B} (p : program A) (f : A -> program B) R R' s :
  ok p R s -> (forall a s', rely s s' -> inv s' -> (forall s2, rely s' s2 -> inv s2 -> R a s2) -> ok (f a) R' s') ->
  inv s -> ok (p ≫= f) R' s.
Proof. apply (rule_bind inv rely guar rely_refl rely_trans guar_rely). Qed.
Lemma ok_attempted {A} (p : program A) R s : ok p R s -> inv s -> ok (attempted p) (fun r s' => answers R r s') s.
Proof. apply (rule_attempted inv rely guar rely_refl rely_trans guar_rely). Qed.
Lemma ok_ignored {A} (p : program A) R s : ok p R s -> inv s -> thread (ignored p) s.
Proof. apply (rule_ignored inv rely guar rely_refl rely_trans guar_rely). Qed.

(** A statement that only reads. *)
Lemma ok_read {A} (f : Cluster -> result A) (R : A -> Cluster -> Prop) s :
  (forall s' a s2, rely s s' -> inv s' -> f s' = inr a -> rely s' s2 -> inv s2 -> R a s2) ->
  ok (sql (fun s => (f s, s))) R s.
Proof. apply (rule_read inv rely guar guar_keep). Qed.
Lemma ok_now s : ok GetTimestamp (fun now s' => now <= cl_clock s') s.
Proof. intros s' d Hr Hi. split_and!; [done | by apply guar_refl, Hi|]. intros s2 [Hc _] _. cbn. exact Hc. Qed.

(** A statement that writes, and answers with something nothing is known of. *)
Lemma ok_write {A} (f : Cluster -> result A * Cluster) s :
  (forall s', rely s s' -> inv s' -> inv (f s').2 /\ guar s' (f s').2) -> ok (sql f) anything s.
Proof.
  intros H. apply (rule_sql inv rely guar guar_keep). intros s' Hr Hi. by destruct (H s' Hr Hi).
Qed.

Lemma ok_update_tasks p f s :
  (forall s' r, rely s s' -> inv s' -> r ∈ cl_tasks s' -> p s' r = true -> row_step s' r (f r) /\ not_orphan r) ->
  ok (update_tasks p f) anything s.
Proof.
  intros H. apply ok_write. intros s' Hr Hi. cbn.
  assert (Forall2 (row_step s') (cl_tasks s') (upd_where (p s') f (cl_tasks s'))) as Hrows.
  { apply upd_where_Forall2. intros r Hin. destruct (p s' r) eqn:Ep; [by apply (H s' r Hr Hi Hin Ep) | by left]. }
  destruct Hi as [[Hok Hlocks] Ho]. split; [split; [split|]|].
  - by eapply rows_ok_step.
  - done.
  - unfold orphaned in *. destruct orphan as [r|] eqn:Er; [|done]. destruct Ho as (Hin & Hrun & Hno). split_and!; [|done|done].
    cbn. apply list_elem_of_fmap. exists r. split; [|done]. destruct (p s' r) eqn:Ep; [|done].
    destruct (H s' r Hr) as [_ Hn]; try done; [|unfold not_orphan in Hn; by rewrite Er in Hn].
    split; [done|]. by unfold orphaned; rewrite Er.
  - split_and!; [done | by apply leases_kept_same|]. exists (upd_where (p s') f (cl_tasks s')), []. cbn. by rewrite app_nil_r.
Qed.

Lemma in_upd_where {R} (p : R -> bool) (f : R -> R) l r' :
  r' ∈ upd_where p f l -> exists r, r ∈ l /\ r' = if p r then f r else r.
Proof. intros (r & -> & Hr)%list_elem_of_fmap. by exists r. Qed.

(** Locks change hands only after they ran out. *)
Lemma ok_update_locks p f s :
  (forall s' l, rely s s' -> l ∈ cl_locks s' -> p l = true ->
    sl_Type (f l) = sl_Type l /\ (foreign (sl_TaskID (f l)) \/ sl_TaskID (f l) = sl_TaskID l) /\
    (cl_clock s' <= sl_LockedUntil l -> owned_by (sl_TaskID l) (sl_LockedBy l) (f l) = true)) ->
  ok (update_locks p f) anything s.
Proof.
  intros H. apply ok_write. intros s' Hr Hi. destruct Hi as [[Hok Hlocks] Ho]. cbn.
  assert (forall l, l ∈ cl_locks s' -> sl_Type (if p l then f l else l) = sl_Type l) as Hty.
  { intros l Hl. destruct (p l) eqn:Ep; [|done]. by apply (H s' l Hr Hl Ep). }
  split; [split; [split; [done|]|]|].
  - cbn. unfold upd_where. rewrite map_map.
    rewrite (map_ext_in _ sl_Type) by (intros l Hl; apply Hty; by apply list_elem_of_In). done.
  - unfold orphaned in *. destruct orphan as [r|] eqn:Er; [|done]. destruct Ho as (Hin & Hrun & Hno). split_and!; try done.
    cbn. intros l' (l & Hl & ->)%in_upd_where. destruct (p l) eqn:Ep; [|by apply Hno].
    destruct (H s' l Hr Hl Ep) as (_ & [Hf|Hf] & _); [unfold foreign in Hf; by rewrite Er in Hf | rewrite Hf; by apply Hno].
  - apply guar_same_tasks; [done| |done]. intros l l' Hl (l0 & Hl0 & ->)%in_upd_where Ety Hlive.
    rewrite Hty in Ety by done. rewrite (key_injective sl_Type _ l0 l Hlocks Hl0 Hl Ety).
    destruct (p l) eqn:Ep; [by apply (H s' l Hr Hl Ep) | apply owned_by_self].
Qed.

Lemma ok_delete_locks p s : ok (delete_locks p) anything s.
Proof.
  apply ok_write. intros s' Hr Hi. destruct Hi as [[Hok Hlocks] Ho]. cbn.
  assert (sublist (List.filter (fun l => negb (p l)) (cl_locks s')) (cl_locks s')) as Hsub.
  { clear. induction (cl_locks s') as [|l locks IH]; cbn; [done|]. destruct (p l); cbn; by constructor. }
  assert (forall l, l ∈ List.filter (fun l => negb (p l)) (cl_locks s') -> l ∈ cl_locks s') as Hin.
  { intros l Hl%list_elem_of_In. apply filter_In in Hl as [Hl _]. by apply list_elem_of_In. }
  split; [split; [split; [done|]|]|].
  - cbn. eapply sublist_NoDup; [exact Hlocks|]. by apply (fmap_sublist sl_Type).
  - unfold orphaned in *. destruct orphan as [r|]; [|done]. destruct Ho as (Hr1 & Hrun & Hno). split_and!; try done.
    intros l Hl. by apply Hno, Hin.
  - apply guar_same_tasks; [done| |done]. intros l l' Hl Hl'%Hin Ety _.
    rewrite (key_injective sl_Type _ l' l Hlocks Hl' Hl Ety). apply owned_by_self.
Qed.

Lemma ok_create_lock lock s : foreign (sl_TaskID lock) -> ok (create_lock lock) anything s.
Proof.
  intros Hf. apply ok_write. intros s' Hr Hi.
  destruct (existsb (fun l => str_eqb (sl_Type l) (sl_Type lock)) (cl_locks s')) eqn:E; cbn; [by split; [|apply guar_refl, Hi]|].
  assert (forall l, l ∈ cl_locks s' -> sl_Type l <> sl_Type lock) as Hno.
  { intros l Hl Ety. assert (existsb (fun l => str_eqb (sl_Type l) (sl_Type lock)) (cl_locks s') = true); [|congruence].
    apply existsb_exists. exists l. split; [by apply list_elem_of_In | by apply str_eqb_true]. }
  destruct Hi as [[Hok Hlocks] Ho]. split; [split; [split; [done|]|]|].
  - cbn. rewrite map_app. apply NoDup_app. split; [done|]. split; [|apply NoDup_singleton].
    intros t (l & -> & Hl)%list_elem_of_fmap Ht%list_elem_of_singleton. by apply (Hno l).
  - unfold orphaned in *. destruct orphan as [r|] eqn:Er; [|done]. destruct Ho as (Hin & Hrun & Hl). split_and!; try done.
    cbn. intros l [Hl'|Hl'%list_elem_of_singleton]%elem_of_app; [by apply Hl|]. subst l. unfold foreign in Hf. by rewrite Er in Hf.
  - apply guar_same_tasks; [done| |done]. intros l l' Hl [Hl'|Hl'%list_elem_of_singleton]%elem_of_app Ety _.
    + rewrite (key_injective sl_Type _ l' l Hlocks Hl' Hl Ety). apply owned_by_self.
    + subst l'. by destruct (Hno l Hl).
Qed.

(** No task of the orphan's type can be created. *)
Definition creatable (taskType : string) : Prop :=
  match orphan with None => True | Some r => sk_Type r <> taskType end.

Lemma orphan_clash r row rows :
  rows_ok rows -> r ∈ rows -> running r = true -> sk_ActiveKey row = Some (sk_Type r) -> List.existsb (task_clash row) rows = true.
Proof.
  intros (Hk & _) Hin Hrun Hrow. apply existsb_exists. exists r. split; [by apply list_elem_of_In|].
  rewrite Forall_forall in Hk. specialize (Hk r Hin). unfold keyed, active in Hk. rewrite Hrun, orb_true_r in Hk.
  unfold task_clash. by rewrite Hrow, Hk, str_eqb_refl, orb_true_r.
Qed.

Lemma ok_create_task task s :
  pending task = true -> sk_ActiveKey task = Some (sk_Type task) -> inv s ->
  ok (create_task task) (fun _ _ => creatable (sk_Type task)) s.
Proof.
  intros Hp Hkey Hi0. unfold create_task. eapply ok_bind; [apply ok_now| |done]. intros now s1 _ _ _. clear s Hi0.
  intros s' d Hr Hi. unfold sql.
  set (row := task_BeforeCreate now task <| sk_ID := next_id sk_ID (cl_tasks s') |>).
  assert (guar s' s') as Hrefl by apply guar_refl, Hi.
  destruct (existsb (task_clash row) (cl_tasks s')) eqn:E.
  { destruct d; (split; [done|]; split; [done|]); by intros. }
  set (s2 := s' <| cl_tasks ::= fun l => l ++ [row] |>).
  assert (inv s2 /\ guar s' s2) as [Hi2 Hg2].
  { destruct Hi as [[Hok Hlocks] Ho]. split; [split; [split; [|done]|]|].
    - by apply rows_ok_create.
    - unfold orphaned in *. destruct orphan as [r|]; [|done]. destruct Ho as (Hin & ? & ?). split_and!; try done.
      apply elem_of_app. by left.
    - split_and!; [done | by apply leases_kept_same|]. exists (cl_tasks s'), [row]. split; [done|]. split; [|by constructor].
      apply Forall2_same. by left. }
  assert (creatable (sk_Type task)) as Hc.
  { unfold creatable. destruct orphan as [r|] eqn:Er; [|done]. intros Ety. destruct Hi as [[Hok _] Ho].
    unfold orphaned in Ho. rewrite Er in Ho. destruct Ho as (Hin & Hrun & _).
    rewrite (orphan_clash r row (cl_tasks s')) in E; [done | done | done | done|]. cbn. by rewrite Hkey, Ety. }
  destruct d; [refine (conj Hi2 (conj Hg2 _)) | refine (conj Hi (conj Hrefl _)) | refine (conj Hi2 (conj Hg2 _))]; by intros s3 ? ?.
Qed.

(** ** The operations of [SystemTasks] *)

Lemma ok_mono {A} (p : program A) (R R' : A -> Cluster -> Prop) s :
  (forall a s', R a s' -> R' a s') -> ok p R s -> ok p R' s.
Proof.
  apply (rule_mono inv rely guar rely_trans guar_rely).
Qed.
Lemma ok_any {A} (p : program A) R s : ok p R s -> ok p anything s.
Proof. by apply ok_mono. Qed.
Lemma ok_seq {A B} (p : program A) (q : program B) R s :
  ok p anything s -> (forall s', rely s s' -> inv s' -> ok q R s') -> inv s -> ok (p ;; q) R s.
Proof. apply (rule_seq inv rely guar rely_refl rely_trans guar_rely). Qed.
Lemma ok_done {A} (a : A) s : ok (mret a) anything s.
Proof. by apply ok_ret. Qed.
Hint Resolve ok_done ok_fail : core.

(** The answer of a read that may fail. *)
Lemma ok_attempted_read {A} (f : Cluster -> result A) (R : result A -> Cluster -> Prop) s :
  (forall s' s2, rely s s' -> inv s' -> rely s' s2 -> inv s2 -> R (f s') s2) ->
  (forall s2, R (inl (ErrDriver FDriver)) s2) -> ok (attempted (sql (fun s => (f s, s)))) R s.
Proof.
  intros H Hd s' d Hr Hi. pose proof (guar_refl s' (proj1 Hi)).
  destruct d; cbn; (split; [done|]; split; [done|]); intros s2 Hr2 Hi2; cbn; auto.
Qed.

(** What the orphan has to do with other rows. *)
Lemma pending_foreign s r : inv s -> r ∈ cl_tasks s -> pending r = true -> foreign (sk_TaskID r) /\ not_orphan r.
Proof.
  intros [[(_ & _ & Hids & _) _] Ho] Hin Hp. unfold orphaned, foreign, not_orphan in *. destruct orphan as [o|]; [|done].
  destruct Ho as (Hino & Hrun & _). assert (r <> o) as Hne.
  { intros ->. destruct (status_ranks o) as (_ & H & _). destruct (H Hrun). congruence. }
  split; [|done]. intros E. by apply Hne, (key_injective sk_TaskID (cl_tasks s)).
Qed.
Lemma leased_foreign s l : inv s -> l ∈ cl_locks s -> foreign (sl_TaskID l).
Proof. intros [_ Ho] Hl. unfold orphaned, foreign in *. destruct orphan; [|done]. by apply Ho. Qed.
Lemma held_foreign s r l : inv s -> l ∈ cl_locks s -> owned_by (sk_TaskID r) (sk_LockedBy r) l = true -> not_orphan r.
Proof.
  intros Hi Hl [E _]%andb_prop. apply str_eqb_true in E. pose proof (leased_foreign s l Hi Hl) as Hf.
  unfold foreign, not_orphan in *. destruct orphan; [|done]. congruence.
Qed.
Lemma task_id_foreign r taskID : sk_TaskID r = taskID -> foreign taskID -> not_orphan r.
Proof. unfold foreign, not_orphan. destruct orphan; [|done]. congruence. Qed.

Lemma lease_held_row s r taskID runner now :
  running_row taskID runner now s r = true ->
  running r = true /\ exists l, l ∈ cl_locks s /\ owned_by (sk_TaskID r) (sk_LockedBy r) l = true.
Proof.
  unfold running_row, lease_held. intros [[[E1 Hrun]%andb_prop E2]%andb_prop (l & Hl & [Ho _]%andb_prop)%existsb_exists]%andb_prop.
  apply str_eqb_true in E1, E2. subst. split; [done|]. exists l. split; [by apply list_elem_of_In | done].
Qed.

Lemma ok_mark taskID s : foreign taskID -> inv s -> ok (MarkSystemTaskLeaseExpired taskID) anything s.
Proof.
  intros Hf Hi. eapply ok_bind; [apply ok_now | | done]. intros now s1 _ Hi1 _. apply ok_seq; [|auto|done].
  apply ok_update_tasks. intros s' r _ _ _ [E Hrun]%andb_prop. apply str_eqb_true in E.
  split; [|by eapply task_id_foreign]. right. split; [done|]. apply row_ended; try done. right. done.
Qed.

Lemma ok_release taskID runner s : ok (ReleaseSystemTaskLock taskID runner) anything s.
Proof. apply ok_delete_locks. Qed.

Lemma ok_acquire taskType taskID runner now lockUntil s :
  foreign taskID -> now <= cl_clock s -> inv s ->
  ok (acquireSystemTaskLock taskType taskID runner now lockUntil) (fun r _ => r.2 = EmptyString \/ foreign r.2) s.
Proof.
  intros Hf Hnow Hi. unfold acquireSystemTaskLock.
  eapply ok_bind; [apply ok_attempted; [by apply ok_create_lock | done] | | done].
  intros [err|[]] s1 Hr1 Hi1 _; [|apply ok_ret; auto].
  eapply ok_bind; [| | done].
  { apply (ok_attempted_read _ (fun r _ => match r with inr l => foreign (sl_TaskID l) | inl _ => True end)); [|done].
    intros s' s2 _ Hi' _ _. destruct (find _ _) as [l|] eqn:El; [|done]. apply find_some in El as [Hl _].
    apply (leased_foreign s'); [done | by apply list_elem_of_In]. }
  intros [err2|existing] s2 Hr2 Hi2 Hex; [destruct (is_err _ _); [apply ok_ret; auto | apply ok_fail]|].
  destruct (now <=? sl_LockedUntil existing); [apply ok_ret; auto|].
  eapply ok_bind; [apply ok_update_locks | | done].
  - intros s' l Hr' Hl [Ety Hlt]%andb_prop. split; [done|]. split; [by left|]. intros Hlive. cbn in *.
    destruct Hr1 as [? _], Hr2 as [? _], Hr' as [? _]. apply Z.ltb_lt in Hlt. lia.
  - intros n s3 Hr3 Hi3 _. specialize (Hex s2 (rely_refl s2) Hi2). destruct (n =? 0); apply ok_ret; auto.
Qed.

Lemma ok_claim_locked task id taskType runner now expiredTaskID s :
  expiredTaskID = EmptyString \/ foreign expiredTaskID -> inv s ->
  ok (claim_locked task id taskType runner now expiredTaskID) anything s.
Proof.
  intros Hex Hi. unfold claim_locked.
  assert (forall {A} (answer : program A) s0, inv s0 -> (forall s', inv s' -> ok answer anything s') ->
    ok (attempted (ReleaseSystemTaskLock (sk_TaskID task) runner) ;; answer) anything s0) as Hgive.
  { intros A answer s0 Hi0 Ha. apply ok_seq; [|auto|done]. eapply ok_any, ok_attempted; [apply ok_release | done]. }
  eapply ok_bind; [apply ok_attempted; [|done] | | done].
  { destruct (negb (str_eqb expiredTaskID "") && _) eqn:E; [|auto].
    apply andb_prop in E as [E _]. apply negb_true_iff, str_eqb_false in E. apply ok_mark; [by destruct Hex | done]. }
  intros [err|[]] s1 _ Hi1 _; [apply Hgive; auto|].
  eapply ok_bind; [apply ok_attempted; [|done] | | done].
  { apply ok_update_tasks. intros s' r _ Hi' Hin [_ Hp]%andb_prop. split; [|by apply (pending_foreign s')].
    right. split; [done|]. by apply row_claimed. }
  intros [err|n] s2 _ Hi2 _; [apply Hgive; auto|]. destruct (n =? 0); [apply Hgive; auto|].
  eapply ok_bind; [by apply (ok_read _ anything) | | done]. auto.
Qed.

Lemma ok_or_nil p R s : ok (attempted p) R s -> inv s ->
  ok (or_nil p) (fun o s' => match o with
    | Some task => R (inr task) s'
    | None => exists err, R (inl err) s' /\ is_err err ErrRecordNotFound = true
    end) s.
Proof.
  intros Hp Hi. unfold or_nil. eapply ok_bind; [exact Hp | | done]. intros [err|task] s' _ _ HR.
  - destruct (is_err err ErrRecordNotFound) eqn:E; [|apply ok_fail]. apply ok_ret. eauto.
  - apply ok_ret. auto.
Qed.

Lemma ok_claim id taskType runner lockUntil s : inv s -> ok (ClaimSystemTask id taskType runner lockUntil) anything s.
Proof.
  intros Hi. unfold ClaimSystemTask. eapply ok_bind; [apply ok_now | | done]. intros now s1 _ Hi1 Hnow.
  eapply ok_bind; [apply ok_or_nil; [|done] | | done].
  { apply (ok_attempted_read _ (fun r _ => match r with inr task => foreign (sk_TaskID task) | inl _ => True end)); [|done].
    intros s' s2 _ Hi' _ _. destruct (find _ _) as [r|] eqn:Er; [|done]. apply find_some in Er as [Hr [_ Hp]%andb_prop].
    apply (pending_foreign s'); [done | by apply list_elem_of_In | done]. }
  intros [task|] s2 Hr2 Hi2 Htask; [|auto]. specialize (Htask s2 (rely_refl s2) Hi2).
  eapply ok_bind; [apply ok_acquire; [done | by apply Hnow | done] | | done].
  intros [acquired expiredTaskID] s3 _ Hi3 Hex. specialize (Hex s3 (rely_refl s3) Hi3).
  destruct (negb acquired); [auto|]. by apply ok_claim_locked.
Qed.

Lemma ok_update_state taskID runner state s : inv s -> ok (UpdateSystemTaskState taskID runner state) anything s.
Proof.
  intros Hi. unfold UpdateSystemTaskState. destruct (marshalSystemTaskJSON state) as [err|text]; [apply ok_fail|].
  eapply ok_bind; [apply ok_now | | done]. intros now s1 _ Hi1 _. eapply ok_bind; [apply ok_update_tasks | | done].
  - intros s' r _ Hi' _ (Hrun & l & Hl & Ho)%lease_held_row. split; [|by eapply held_foreign].
    right. split; [done|]. apply row_state; try done. by exists l.
  - intros n s2 _ Hi2 _. destruct (0 <? n); [auto|].
    eapply ok_bind; [by apply (ok_read _ anything) | | done]. intros held s3 _ _ _. destruct (held =? 0); auto.
Qed.

Lemma ok_renew taskID runner lockUntil s : inv s -> ok (RenewSystemTaskLock taskID runner lockUntil) anything s.
Proof.
  intros Hi. unfold RenewSystemTaskLock. eapply ok_bind; [apply ok_now | | done]. intros now s1 _ Hi1 _.
  eapply ok_bind; [apply ok_update_locks | | done].
  - intros s' l _ _ _. split; [done|]. split; [by right|]. intros _. exact (owned_by_self l).
  - intros n s2 _ _ _. destruct (n =? 0); auto.
Qed.

Lemma ok_each {X} (f : X -> program unit) l s :
  (forall x s', In x l -> inv s' -> ok (f x) anything s') -> inv s -> ok (each f l) anything s.
Proof.
  revert s. induction l as [|x l IH]; intros s H Hi; [apply (ok_done tt)|]. apply ok_seq; [apply H; [by left | done] | | done].
  intros s' _ Hi'. apply IH; [|done]. intros y s2 Hy. apply H. by right.
Qed.

Lemma ok_expire_stale now s : inv s -> ok (ExpireStaleSystemTaskLocks now) anything s.
Proof.
  intros Hi. eapply ok_bind; [| | done].
  { apply (ok_read _ (fun locks _ => forall l, In l locks -> foreign (sl_TaskID l))).
    intros s' locks s2 _ Hi' [= <-] _ _ l Hl. apply filter_In in Hl as [Hl _]. apply (leased_foreign s'); [done | by apply list_elem_of_In]. }
  intros locks s1 _ Hi1 Hf. specialize (Hf s1 (rely_refl s1) Hi1). apply ok_each; [|done].
  intros l s' Hl Hi'. apply ok_seq; [apply ok_mark; auto | | done]. intros s2 _ _. apply ok_delete_locks.
Qed.

(** A handler ends a task as succeeded or failed. *)
Definition terminal (status : string) : Prop := status = SystemTaskStatusSucceeded \/ status = SystemTaskStatusFailed.

Lemma ok_finish taskID runner status result msg s :
  terminal status -> inv s -> ok (FinishSystemTask taskID runner status result msg) anything s.
Proof.
  intros Hst Hi. unfold FinishSystemTask. destruct (marshalSystemTaskJSON result) as [err|text]; [apply ok_fail|].
  eapply ok_bind; [apply ok_now | | done]. intros now s1 _ Hi1 _. eapply ok_bind; [apply ok_update_tasks | | done].
  - intros s' r _ Hi' _ (Hrun & l & Hl & Ho)%lease_held_row. split; [|by eapply held_foreign].
    right. split; [done|]. apply row_ended; try done; [by destruct Hst as [->| ->] | left; by exists l].
  - intros n s2 _ Hi2 _. destruct (n =? 0); [auto | apply ok_release].
Qed.

Lemma ok_create key taskType payload state s :
  inv s -> ok (CreateSystemTask key taskType payload state) (fun _ _ => creatable taskType) s.
Proof.
  intros Hi. unfold CreateSystemTask, GenerateSystemTaskID.
  eapply (ok_bind _ _ anything); [destruct key; auto | | done]. intros id s1 _ Hi1 _.
  destruct (marshalSystemTaskJSON payload); [auto|]. destruct (marshalSystemTaskJSON state); [auto|]. by apply ok_create_task.
Qed.

(** The unfinished task of the orphan's type is the orphan. *)
Definition active_answer (taskType : string) (o : option SystemTask) : Prop :=
  match orphan with Some r => sk_Type r = taskType -> o = Some r | None => True end.

Lemma orphan_is_active s taskType r :
  inv s -> orphan = Some r -> sk_Type r = taskType ->
  last (List.filter (fun x => str_eqb (sk_Type x) taskType && active x) (cl_tasks s)) = Some r.
Proof.
  intros [[(Hk & Ha & _ & _) _] Ho] Er Ety. unfold orphaned in Ho. rewrite Er in Ho. destruct Ho as (Hin & Hrun & _).
  assert (forall x, x ∈ cl_tasks s -> str_eqb (sk_Type x) taskType && active x = true -> sk_ActiveKey x = Some taskType) as Hkey.
  { intros x Hx [E Hact]%andb_prop. rewrite Forall_forall in Hk. rewrite (Hk x Hx), Hact. apply str_eqb_true in E. by rewrite E. }
  assert (str_eqb (sk_Type r) taskType && active r = true) as Hrp.
  { unfold active. rewrite Hrun, orb_true_r, andb_true_r. by apply str_eqb_true. }
  revert Hkey Hin Ha. clear -Hrp. induction (cl_tasks s) as [|x rows IH]; intros Hkey Hin Ha; [by apply not_elem_of_nil in Hin|].
  assert (List.filter (fun y => str_eqb (sk_Type y) taskType && active y) (x :: rows) =
    (if str_eqb (sk_Type x) taskType && active x then [x] else []) ++ List.filter (fun y => str_eqb (sk_Type y) taskType && active y) rows) as ->
    by (cbn [List.filter]; by destruct (str_eqb (sk_Type x) taskType && active x)).
  assert (NoDup (omap sk_ActiveKey rows)) as Hrows.
  { change (omap sk_ActiveKey (x :: rows)) with (match sk_ActiveKey x with Some k => k :: omap sk_ActiveKey rows | None => omap sk_ActiveKey rows end) in Ha.
    destruct (sk_ActiveKey x); [by apply NoDup_cons in Ha as [_ ?] | done]. }
  apply elem_of_cons in Hin as [<-|Hin].
  - rewrite Hrp. assert (List.filter (fun y => str_eqb (sk_Type y) taskType && active y) rows = []) as ->; [|done].
    destruct (List.filter _ rows) as [|y l] eqn:E; [done|]. exfalso.
    assert (In y (List.filter (fun y => str_eqb (sk_Type y) taskType && active y) rows)) as [Hy Hyp]%filter_In by (rewrite E; by left).
    cbn in Ha. rewrite (Hkey r (list_elem_of_here _ _) Hrp) in Ha. apply NoDup_cons in Ha as [Hn _]. apply Hn.
    apply list_elem_of_omap. exists y. split; [by apply list_elem_of_In|]. apply Hkey; [|done]. right. by apply list_elem_of_In.
  - rewrite last_app. rewrite IH; [done | |done|done]. intros y Hy. apply Hkey. by right.
Qed.

Lemma ok_get_active taskType s : inv s -> ok (GetActiveSystemTask taskType) (fun o _ => active_answer taskType o) s.
Proof.
  intros Hi. unfold GetActiveSystemTask.
  eapply ok_mono; [|apply (ok_or_nil _ (fun r _ => match r with inr t => active_answer taskType (Some t) | inl err => is_err err ErrRecordNotFound = true -> active_answer taskType None end)); [|done]].
  - intros [t|] s'; [done|]. intros (err & H & E). by apply H.
  - apply ok_attempted_read; [|done]. intros s' s2 _ Hi' _ _. unfold active_answer. destruct orphan as [r|] eqn:Er.
    + destruct (decide (sk_Type r = taskType)) as [Ety|Hne].
      * rewrite (orphan_is_active s' taskType r) by done. done.
      * destruct (last _); cbn; by intros.
    + by destruct (last _).
Qed.
End Orphan.
