(* ===== verification/SystemTaskTheorems.v ===== *)
(** * Any number of nodes: one unfinished task per type, and exclusive leases

    The programs a node runs are safe in the sense of [Interleave]; so are all
    pools of them.  The last part is about a task that is left running without
    a lease. *)

From stdpp Require Import base numbers option strings list gmap relations.
From Stdlib Require Import ZArith Lia.
From S2P Require Import Prelude Schema Store Interleave SystemTasks SystemTaskRunner SystemTaskFacts.
Open Scope Z_scope.

(** ** The contract of a handler

    It does its own work outside the two tables, and touches them only through
    [UpdateSystemTaskState] and [FinishSystemTask] for its own task. *)

Inductive handler_prog (taskID runnerID : string) : forall A : Type, prog Cluster A -> Prop :=
  | hp_done A (a : A) : handler_prog taskID runnerID A (Done a)
  | hp_own A X (act : delivery -> Cluster -> X * Cluster) (k : X -> prog Cluster A) :
      (forall d s, cl_clock (act d s).2 = cl_clock s /\ cl_tasks (act d s).2 = cl_tasks s /\ cl_locks (act d s).2 = cl_locks s) ->
      (forall x, handler_prog taskID runnerID A (k x)) -> handler_prog taskID runnerID A (Stmt X act k)
  | hp_bind A B (p : prog Cluster A) (f : A -> prog Cluster B) :
      handler_prog taskID runnerID A p -> (forall a, handler_prog taskID runnerID B (f a)) ->
      handler_prog taskID runnerID B (prog_bind p f)
  | hp_state state : handler_prog taskID runnerID _ (UpdateSystemTaskState taskID runnerID state)
  | hp_finish status result msg : terminal status ->
      handler_prog taskID runnerID _ (FinishSystemTask taskID runnerID status result msg).

Class LawfulHandler (h : SystemTaskHandler) : Prop :=
  handler_law : forall task runnerID, handler_prog (sk_TaskID task) runnerID unit (h_Run h task runnerID).

(** *** The log clean-up task keeps it *)

Section CleanupLaw.
Context (clickhouse : bool) (DecodePayload : string -> result LogCleanupPayload) (DecodeState : string -> result LogCleanupState).
Context (MarshalState : LogCleanupState -> result string) (MarshalResult : Z -> result string).
Context (task : SystemTask) (runnerID : string).
Abbreviation lawful := (handler_prog (sk_TaskID task) runnerID _).

Lemma lawful_bind {A B} (p : program A) (f : A -> program B) :
  lawful p -> (forall a, lawful (f a)) -> lawful (p ≫= f).
Proof. intros Hp Hf. apply hp_bind; [done|]. intros [err|a]; [apply hp_done | apply Hf]. Qed.
Lemma lawful_attempted {A} (p : program A) : lawful p -> lawful (attempted p).
Proof. intros Hp. apply hp_bind; [done|]. intros r. apply hp_done. Qed.
Lemma lawful_ret {A} (a : A) : lawful (mret a : program A).
Proof. apply hp_done. Qed.
Lemma lawful_fail {A} err : lawful (fail err : program A).
Proof. apply hp_done. Qed.
Lemma lawful_or_failed {A} (p : program A) : lawful p -> lawful (or_failed task runnerID p).
Proof.
  intros Hp. apply lawful_bind; [by apply lawful_attempted|]. intros [err|a]; [|apply hp_done].
  apply hp_bind; [|intros; apply hp_done]. apply hp_bind; [apply hp_finish; by right | intros; apply hp_done].
Qed.
Lemma lawful_logs {A} (f : Cluster -> result A * Cluster) :
  (forall s, cl_clock (f s).2 = cl_clock s /\ cl_tasks (f s).2 = cl_tasks s /\ cl_locks (f s).2 = cl_locks s) -> lawful (sql f).
Proof. intros H. apply hp_own; [|intros; apply hp_done]. intros [] s; cbn; [apply H | done | apply H]. Qed.

Lemma lawful_delete target limit : lawful (DeleteOldLogBatch clickhouse target limit).
Proof.
  unfold DeleteOldLogBatch. destruct clickhouse; [|by apply lawful_logs].
  apply lawful_bind; [by apply lawful_logs|]. intros total. destruct (total =? 0); [apply hp_done|].
  apply lawful_bind; [by apply lawful_logs | intros; apply hp_done].
Qed.

Lemma lawful_delete_rounds target batch fuel progressed state :
  lawful (delete_rounds clickhouse MarshalState task runnerID target batch fuel progressed state).
Proof.
  revert progressed state. induction fuel as [|fuel IH]; intros progressed state; cbn [delete_rounds]; [apply hp_done|].
  destruct (_ <=? 0); [apply hp_done|]. apply lawful_bind; [apply lawful_or_failed, lawful_delete|].
  intros n. destruct (n =? 0); [apply hp_done|]. apply lawful_bind; [apply hp_state | intros; apply IH].
Qed.

Lemma lawful_cleanup_rounds target batch fuel inner state :
  lawful (cleanup_rounds clickhouse MarshalState task runnerID target batch fuel inner state).
Proof.
  revert state. induction fuel as [|fuel IH]; intros state; cbn [cleanup_rounds]; [apply hp_done|].
  apply lawful_bind; [by apply lawful_or_failed, lawful_logs|]. intros n. apply lawful_bind; [apply hp_state|]. intros [].
  destruct (_ =? 0); [apply hp_done|]. apply lawful_bind; [apply lawful_delete_rounds|]. intros [[] state']; cbn [negb]; [apply IH|].
  apply lawful_or_failed, hp_done.
Qed.
End CleanupLaw.

#[export] Instance logCleanup_lawful clickhouse DecodePayload DecodeState MarshalState MarshalResult fuel inner :
  LawfulHandler (logCleanupHandler clickhouse DecodePayload DecodeState MarshalState MarshalResult fuel inner).
Proof.
  intros task runnerID. apply hp_bind; [|intros; apply hp_done].
  apply lawful_bind; [apply lawful_or_failed, hp_done|]. intros payload.
  destruct (lp_TargetTimestamp payload <=? 0); [apply lawful_or_failed, hp_done|].
  apply lawful_bind; [apply lawful_or_failed, hp_done|]. intros state.
  apply lawful_bind; [apply lawful_cleanup_rounds|]. intros state'.
  apply lawful_bind; [apply hp_state|]. intros []. apply hp_finish. by left.
Qed.

(** ** What a node runs *)

Section Nodes.
Context (orphan : option SystemTask).
Abbreviation inv := (inv orphan).
Abbreviation ok := (ok orphan).
Abbreviation thread := (thread orphan).

(** A lawful handler is safe. *)
Lemma handler_safe taskID runnerID A (p : prog Cluster A) s :
  handler_prog taskID runnerID A p -> inv s -> safe inv rely guar p (fun _ _ => True) s.
Proof.
  intros Hp. revert s. induction Hp as [A a|A X act k Hact _ IH|A B p f _ IHp _ IHf|state|status result msg Hst]; intros s Hi.
  - done.
  - intros s' d Hr Hi'. destruct (act d s') as [x s2] eqn:E.
    destruct (Hact d s') as (Hc & Ht & Hl). rewrite E in Hc, Ht, Hl. cbn in *.
    assert (inv s2) as Hi2.
    { destruct Hi' as [Hok Ho]. split; [by unfold tables_ok; rewrite Ht, Hl|]. unfold orphaned in *. by rewrite Ht, Hl. }
    split_and!; [done | | by apply IH]. apply guar_same_tasks; [done | | done]. apply leases_kept_same; [apply Hi' | done].
  - apply (safe_bind inv rely guar rely_refl rely_trans p f (fun _ _ => True)); auto with ledger.
  - eapply safe_mono; [apply rely_trans | | apply guar_rely | by apply (ok_update_state orphan taskID runnerID state)]. done.
  - eapply safe_mono; [apply rely_trans | | apply guar_rely | by apply (ok_finish orphan taskID runnerID status result msg)]. done.
Qed.

Lemma ok_heartbeat beats task runnerID s : inv s -> ok (heartbeat beats task runnerID) (fun _ _ => True) s.
Proof.
  revert s. induction beats as [|beats IH]; intros s Hi; [by apply ok_ret|].
  eapply ok_bind; [| | done].
  { unfold systemTaskLockUntil. eapply (ok_bind _ _ _ _ (fun _ _ => True)); [apply ok_now | | done]. intros. by apply ok_ret. }
  intros lockUntil s1 _ Hi1 _. apply ok_seq; [by apply ok_renew | | done]. intros s2 _ Hi2. by apply IH.
Qed.

Lemma ok_fork {A} child (p : program A) R s : thread child s -> ok p R s -> ok (Fork child p) R s.
Proof. intros H1 H2. by split. Qed.

Lemma ok_claim_each beats runnerID m handlers s :
  Forall LawfulHandler handlers -> inv s -> ok (claim_each beats runnerID m handlers) (fun _ _ => True) s.
Proof.
  revert s. induction handlers as [|h rest IH]; intros s Hh Hi; [by apply ok_ret|].
  apply Forall_cons in Hh as [Hlaw Hrest]. cbn [claim_each]. destruct (m !! h_Type h) as [task|]; [|by apply IH].
  eapply ok_bind; [apply ok_attempted; [|done] | | done].
  { eapply ok_bind; [| |done].
    - unfold systemTaskLockUntil. eapply (ok_bind _ _ _ _ (fun _ _ => True)); [apply ok_now | | done]. intros. by apply ok_ret.
    - intros lockUntil s1 _ Hi1 _. by apply ok_claim. }
  intros [err|[claimed|]] s1 _ Hi1 _; [by apply IH | | by apply IH].
  apply ok_fork; [|by apply IH]. split.
  - eapply ok_ignored; [by apply ok_heartbeat | done].
  - by eapply handler_safe.
Qed.

Lemma ok_claim_pass beats handlers runnerID s :
  Forall LawfulHandler handlers -> inv s -> ok (runSystemTaskClaimPass beats handlers runnerID) (fun _ _ => True) s.
Proof.
  intros Hh Hi. apply (ok_bind _ _ _ (fun _ _ => True)); [| |done].
  - unfold FindEarliestPendingSystemTasks. destruct (List.map h_Type handlers); [by apply ok_ret | by apply (ok_read _ _ (fun _ _ => True))].
  - intros m s1 _ Hi1 _. by apply ok_claim_each.
Qed.

Lemma ok_scheduler keys handlers s : inv s -> ok (runSystemTaskScheduler keys handlers) (fun _ _ => True) s.
Proof.
  intros Hi. eapply ok_bind; [apply ok_now | | done]. intros now s1 _ Hi1 _. apply (ok_bind _ _ _ (fun _ _ => True)); [| |done].
  - unfold GetLatestSystemTasks. destruct (List.map _ _); [by apply ok_ret | by apply (ok_read _ _ (fun _ _ => True))].
  - intros m s2 _ Hi2 _. apply ok_each; [|done]. intros [h schedule] s' _ Hi'. unfold schedule_one.
    destruct (due _ _ _); [|by apply ok_ret]. eapply ok_bind; [apply ok_attempted; [by apply ok_create | done] | | done].
    intros [err|task] s3 _ Hi3 _; [|by apply ok_ret].
    apply ok_seq; [|by intros; apply ok_ret|done]. eapply ok_any, ok_attempted; [by apply ok_get_active | done].
Qed.

Lemma ok_run_pass beats keys handlers runnerID a b s :
  Forall LawfulHandler handlers -> inv s -> ok (runPass beats keys handlers runnerID a b) (fun _ _ => True) s.
Proof.
  intros Hh Hi. eapply ok_bind; [apply ok_now | | done]. intros now s1 _ Hi1 _.
  assert (forall {A} (p : program A) s0, inv s0 -> ok p (fun _ _ => True) s0 -> ok (attempted p) (fun _ _ => True) s0) as Hatt.
  { intros A p s0 Hi0 Hp. eapply ok_any, ok_attempted; [exact Hp | done]. }
  apply ok_seq; [apply Hatt; [done|] | | done].
  { destruct (elapsed _ b _); [|by apply ok_ret]. eapply ok_bind; [apply ok_now | | done]. intros t s2 _ Hi2 _. by apply ok_expire_stale. }
  intros s2 _ Hi2. apply ok_seq; [apply Hatt; [done|] | | done].
  { destruct (elapsed _ a _); [by apply ok_scheduler | by apply ok_ret]. }
  intros s3 _ Hi3. apply ok_seq; [apply Hatt; [done|by apply ok_claim_pass] | | done]. intros. by apply ok_ret.
Qed.

(** An enqueued task is the unfinished one of its type, if there is one. *)
Definition enqueued (taskType : string) (r : SystemTask * bool) : Prop :=
  match orphan with Some o => sk_Type o = taskType -> r = (o, false) | None => True end.

Lemma ok_create_or_active key taskType payload state s :
  inv s -> ok (create_or_active key taskType payload state) (fun r _ => enqueued taskType r) s.
Proof.
  intros Hi. eapply ok_bind; [apply ok_attempted; [by apply ok_create | done] | | done].
  intros [err|task] s1 _ Hi1 Hc; specialize (Hc s1 (rely_refl s1) Hi1); cbn in Hc.
  - eapply ok_bind; [apply ok_attempted; [by apply ok_get_active | done] | | done].
    intros [e2|[task|]] s2 _ Hi2 Hact; [apply ok_fail | | apply ok_fail]. specialize (Hact s2 (rely_refl s2) Hi2). cbn in Hact.
    apply ok_ret. intros _ _ _. unfold enqueued, active_answer in *. destruct orphan; [|done]. intros E. by injection (Hact E) as ->.
  - apply ok_ret. intros _ _ _. unfold enqueued, creatable in *. by destruct orphan.
Qed.

Lemma ok_enqueue key taskType payload s :
  inv s -> ok (EnqueueSystemTask key taskType payload) (fun r _ => enqueued taskType r) s.
Proof.
  intros Hi. eapply ok_bind; [by apply ok_get_active | | done]. intros [task|] s1 _ Hi1 Hact.
  - specialize (Hact s1 (rely_refl s1) Hi1). apply ok_ret. intros _ _ _. unfold enqueued, active_answer in *.
    destruct orphan; [|done]. intros E. by injection (Hact E) as ->.
  - by apply ok_create_or_active.
Qed.

Lemma ok_start_cleanup M1 M2 key target s :
  inv s -> ok (StartLogCleanupTask M1 M2 key target) (fun _ _ => True) s.
Proof.
  intros Hi. unfold StartLogCleanupTask. destruct (target <=? 0); [apply ok_fail|].
  eapply ok_bind; [by apply ok_get_active | | done]. intros [task|] s1 _ Hi1 _; [by apply ok_ret|].
  eapply ok_bind; [by apply ok_create_or_active | | done]. intros [task b] s2 _ _ _. by apply ok_ret.
Qed.
End Nodes.

(** A node may at any time make a pass, and anybody may enqueue a task. *)
Variant node_program (handlers : list SystemTaskHandler) : prog Cluster unit -> Prop :=
  | node_pass beats keys runnerID lastScheduler lastStale :
      node_program handlers (ignored (runPass beats keys handlers runnerID lastScheduler lastStale))
  | node_enqueue key taskType payload : node_program handlers (ignored (EnqueueSystemTask key taskType payload))
  | node_cleanup MarshalState MarshalPayload key target :
      node_program handlers (ignored (StartLogCleanupTask MarshalState MarshalPayload key target)).

Lemma node_program_safe orphan handlers p s :
  Forall LawfulHandler handlers -> node_program handlers p -> inv orphan s -> thread orphan p s.
Proof.
  intros Hh [beats keys runnerID a b|key taskType payload|M1 M2 key target] Hi; eapply ok_ignored; try done.
  - by apply ok_run_pass.
  - by apply ok_enqueue.
  - by apply ok_start_cleanup.
Qed.

(** ** The cluster *)

Abbreviation cluster_step handlers := (pool_step tick (node_program handlers)).

Section Cluster.
Context (handlers : list SystemTaskHandler) (Hlaw : Forall LawfulHandler handlers).

Lemma tick_inv orphan s s' : inv orphan s -> tick s s' -> inv orphan s' /\ rely s s'.
Proof. intros [Hok Ho] Ht. destruct (tick_ok s s' Hok Ht). destruct Ht as (t & _ & ->). by split. Qed.

Lemma cluster_sound orphan c c' :
  pool_safe (inv orphan) rely guar c -> rtc (cluster_step handlers) c c' ->
  pool_safe (inv orphan) rely guar c' /\ rely (pool_state c) (pool_state c').
Proof.
  apply (interleaving_sound (inv orphan) rely guar rely_refl rely_trans tick (node_program handlers) guar_rely (tick_inv orphan)).
  intros p s Hp Hi. by eapply node_program_safe.
Qed.

Lemma idle_safe orphan s : inv orphan s -> pool_safe (inv orphan) rely guar (mkPool [] s).
Proof. by split. Qed.

Lemma rely_row s s' r : rely s s' -> r ∈ cl_tasks s -> exists r', r' ∈ cl_tasks s' /\ evolves r r'.
Proof.
  intros [_ (rows & new & -> & H)] [i Hi]%list_elem_of_lookup. destruct (Forall2_lookup_l _ _ _ _ _ H Hi) as (r' & Hr' & He).
  exists r'. split; [|done]. apply elem_of_app. left. by eapply list_elem_of_lookup_2.
Qed.

(** C22. One at a time: however many nodes make passes over whatever handlers
    that keep the contract, enqueue tasks, lose answers of the database and
    crash between any two statements, there is never more than one unfinished
    task of a type; a task keeps its identity, only moves forward - pending,
    running, finished - keeps the runner that claimed it, and does not change
    any more once it has finished. *)
Theorem system_tasks_one_at_a_time s c c' :
  tables_ok s -> rtc (cluster_step handlers) (mkPool [] s) c -> rtc (cluster_step handlers) c c' ->
  (forall r1 r2, r1 ∈ cl_tasks (pool_state c') -> r2 ∈ cl_tasks (pool_state c') ->
     active r1 = true -> active r2 = true -> sk_Type r1 = sk_Type r2 -> r1 = r2) /\
  (forall r, r ∈ cl_tasks (pool_state c) -> exists r', r' ∈ cl_tasks (pool_state c') /\ evolves r r').
Proof.
  intros Hok H1 H2. destruct (cluster_sound None _ _ (idle_safe None s (conj Hok I)) H1) as [Hs1 _].
  destruct (cluster_sound None _ _ Hs1 H2) as [[[[(Hk & Ha & _) _] _] _] Hr]. split; [|intros r; by apply rely_row].
  intros r1 r2 Hin1 Hin2 A1 A2 Ety. rewrite Forall_forall in Hk.
  pose proof (Hk r1 Hin1) as K1. pose proof (Hk r2 Hin2) as K2. unfold keyed in K1, K2. rewrite A1 in K1. rewrite A2, <- Ety in K2.
  revert Ha Hin1 Hin2 K1 K2. clear. induction (cl_tasks (pool_state c')) as [|r rows IH]; [by intros _ ?%not_elem_of_nil|].
  intros Ha Hin1 Hin2 K1 K2. cbn in Ha. apply elem_of_cons in Hin1 as [<-|Hin1], Hin2 as [<-|Hin2]; [done | | |].
  - rewrite K1 in Ha. apply NoDup_cons in Ha as [Hn _]. destruct Hn. apply list_elem_of_omap. by exists r2.
  - rewrite K2 in Ha. apply NoDup_cons in Ha as [Hn _]. destruct Hn. apply list_elem_of_omap. by exists r1.
  - apply IH; try done. destruct (sk_ActiveKey r); [by apply NoDup_cons in Ha as [_ ?] | done].
Qed.

(** C23. Leases are exclusive and fence writes: in any such history no statement
    hands a lease that has not run out to another task or runner; and a running
    task is only changed while its own runner's lease is in the table, or to
    record that its lease expired. *)
Theorem system_task_lease_exclusive s c c' :
  tables_ok s -> rtc (cluster_step handlers) (mkPool [] s) c -> cluster_step handlers c c' ->
  (forall l l', l ∈ cl_locks (pool_state c) -> l' ∈ cl_locks (pool_state c') -> sl_Type l' = sl_Type l ->
     cl_clock (pool_state c) <= sl_LockedUntil l -> owned_by (sl_TaskID l) (sl_LockedBy l) l' = true) /\
  (forall r, r ∈ cl_tasks (pool_state c) -> running r = true ->
     exists r', r' ∈ cl_tasks (pool_state c') /\ same_task r r' /\
       (r' = r \/ holds_lease (pool_state c) r \/ expired r')).
Proof.
  intros Hok H1 H2. destruct (cluster_sound None _ _ (idle_safe None s (conj Hok I)) H1) as [Hs1 _].
  destruct (pool_step_safe (inv None) rely guar rely_refl rely_trans tick (node_program handlers) guar_rely (tick_inv None)
    (fun p s Hp Hi => node_program_safe None handlers p s Hlaw Hp Hi) c c' Hs1 H2) as [_ Hcase].
  assert (guar (pool_state c) (pool_state c') \/ cl_locks (pool_state c') = cl_locks (pool_state c) /\
    cl_tasks (pool_state c') = cl_tasks (pool_state c)) as [Hg|[El Et]].
  { destruct Hcase as [->|[(t & _ & ->)|Hg]]; [by right | by right | by left]. }
  - destruct Hg as (_ & Hl & rows & new & Et & Hrows & _). split; [exact Hl|]. intros r [i Hi]%list_elem_of_lookup Hrun.
    destruct (Forall2_lookup_l _ _ _ _ _ Hrows Hi) as (r' & Hr' & Hstep). exists r'. split.
    { rewrite Et. apply elem_of_app. left. by eapply list_elem_of_lookup_2. }
    destruct Hstep as [->|[Hsame Hch]]; [split; [by split_and! | by left]|]. split; [done|]. right.
    destruct Hch as [Hp _ _|_ _ _ _ Hh|_ _ _ _ [Hh|He]]; [|by left|by left|by right].
    destruct (status_ranks r) as (_ & Hx & _). destruct (Hx Hrun). congruence.
  - split.
    + apply leases_kept_same; [apply Hs1 | done].
    + intros r Hr _. exists r. rewrite Et. split; [done|]. split; [by split_and! | by left].
Qed.

(** C24. A task left running without a lease is never finished again: no
    history of any nodes ends it or marks it expired, and everybody who
    enqueues a task of its type - whatever statements fail on the way - gets it
    or an error, so that no further task of the type ever runs. *)
Theorem orphan_blocks_its_type s r c ds key payload :
  tables_ok s -> r ∈ cl_tasks s -> running r = true -> (forall l, l ∈ cl_locks s -> sl_TaskID l <> sk_TaskID r) ->
  rtc (cluster_step handlers) (mkPool [] s) c ->
  r ∈ cl_tasks (pool_state c) /\
  match (run (EnqueueSystemTask key (sk_Type r) payload) ds (pool_state c)).1.1.1 with
  | inl _ => True
  | inr answer => answer = (r, false)
  end.
Proof.
  intros Hok Hin Hrun Hno H.
  assert (inv (Some r) s) as Hi by by split; [|split_and!].
  destruct (cluster_sound (Some r) _ _ (idle_safe (Some r) s Hi) H) as [[Hi' _] _].
  split; [by apply Hi'|].
  pose proof (safe_run (inv (Some r)) rely guar rely_refl rely_trans _ _ (pool_state c) ds guar_rely
    (ok_enqueue (Some r) key (sk_Type r) payload (pool_state c) Hi') Hi') as Hrun'.
  destruct (run _ ds (pool_state c)) as [[[[err|a] cs] ds'] s']; cbn; [done|]. destruct Hrun' as (Ha & _). by apply Ha.
Qed.
End Cluster.

(** ** A cluster of two nodes *)

Module ClusterDemo.
Definition decode (_ : string) : result LogCleanupPayload := inr (mkLogCleanupPayload 500 100).
Definition decode_state (_ : string) : result LogCleanupState := inr (mkLogCleanupState 0 0 0 0).
Definition text {A} (_ : A) : result string := inr "{}"%string.
Definition handlers : list SystemTaskHandler := [logCleanupHandler false decode decode_state text text 3 3].
Lemma handlers_lawful : Forall LawfulHandler handlers.
Proof. apply Forall_cons. split; [apply logCleanup_lawful | done]. Qed.

Definition key : result string := inr "k1"%string.
Definition empty : Cluster := mkCluster 1000 true [] [] [].
Lemma empty_ok : tables_ok empty.
Proof. split; [split; [done | split_and!; apply NoDup_nil_2] | apply NoDup_nil_2]. Qed.

Abbreviation steps := (rtc (cluster_step handlers)).
Definition enqueue : prog Cluster unit := ignored (EnqueueSystemTask key SystemTaskTypeLogCleanup None).
Definition pass (node : string) : prog Cluster unit := ignored (runPass 1 (fun _ => key) handlers node None None).
(** A task is enqueued; node a claims it and starts its handler; node b finds nothing. *)
Definition idle : Pool Cluster := mkPool [] empty.
Definition claimed : Pool Cluster := after (pass "a") (after enqueue idle).
Definition watched : Pool Cluster := after (pass "b") claimed.
Lemma to_claimed : steps idle claimed.
Proof.
  etrans; [exact (started _ _ enqueue idle (node_enqueue _ _ _ _))|].
  exact (started _ _ (pass "a") _ (node_pass _ _ _ _ _ _)).
Qed.
Lemma to_watched : steps idle watched.
Proof. etrans; [exact to_claimed|]. exact (started _ _ (pass "b") claimed (node_pass _ _ _ _ _ _)). Qed.

(** The first statement of a third node's pass, 30 seconds later. *)
Definition later : Pool Cluster := mkPool (pass "c" :: pool_threads watched) ((pool_state watched) <| cl_clock := 1030 |>).
Lemma to_later : steps idle later.
Proof.
  etrans; [exact to_watched|]. eapply rtc_l; [|apply rtc_once; exact (pool_start _ _ (pass "c") _ _ (node_pass _ _ _ _ _ _))].
  apply (pool_tick _ _ (pool_threads watched) (pool_state watched)). exists 1030. split; [by vm_compute | done].
Qed.

Definition claimed_row : SystemTask := List.hd (mkSystemTask 0 "" "" "" None "" "" "" "" "" 0 0) (cl_tasks (pool_state later)).
Definition later_on : Pool Cluster :=
  mkPool ((next (pass "c") Answered (pool_state later)).1 ++ pool_threads watched) (next (pass "c") Answered (pool_state later)).2.
Lemma to_later_on : cluster_step handlers later later_on.
Proof. exact (thread_step tick (node_program handlers) (pass "c") Answered (pool_threads watched) (pool_state later) eq_refl). Qed.

(** One pending task; node a claims it, and the answer of the UPDATE that made
    it running is lost: the node gives the lock back and forgets the task. *)
Definition waiting : Cluster := final (EnqueueSystemTask key SystemTaskTypeLogCleanup None) empty.
Definition lost : Cluster := (run (ClaimSystemTask 1 SystemTaskTypeLogCleanup "a" 1060) [Answered; Answered; Answered; Unanswered] waiting).2.
Definition row : SystemTask := List.hd (mkSystemTask 0 "" "" "" None "" "" "" "" "" 0 0) (cl_tasks lost).
Definition much_later : Pool Cluster := after (pass "b") (mkPool [] (lost <| cl_clock := 100000 |>)).
Lemma to_much_later : steps (mkPool [] lost) much_later.
Proof.
  eapply rtc_l; [|exact (started _ _ (pass "b") (mkPool [] (lost <| cl_clock := 100000 |>)) (node_pass _ _ _ _ _ _))].
  apply (pool_tick _ _ []). exists 100000. split; [by vm_compute | done].
Qed.
End ClusterDemo.

Lemma system_tasks_one_at_a_time_witness :
  length (cl_tasks (pool_state ClusterDemo.watched)) = 1%nat /\
  forall r, r ∈ cl_tasks (pool_state ClusterDemo.claimed) -> exists r', r' ∈ cl_tasks (pool_state ClusterDemo.watched) /\ evolves r r'.
Proof.
  split; [by vm_compute|].
  exact (proj2 (system_tasks_one_at_a_time ClusterDemo.handlers ClusterDemo.handlers_lawful ClusterDemo.empty
    ClusterDemo.claimed ClusterDemo.watched ClusterDemo.empty_ok ClusterDemo.to_claimed
    (started _ _ (ClusterDemo.pass "b") ClusterDemo.claimed (node_pass _ _ _ _ _ _)))).
Defined.

Lemma system_task_lease_exclusive_witness :
  List.map sl_LockedBy (cl_locks (pool_state ClusterDemo.later)) = ["a"%string] /\
  exists r', r' ∈ cl_tasks (pool_state ClusterDemo.later_on) /\ same_task ClusterDemo.claimed_row r' /\
    (r' = ClusterDemo.claimed_row \/ holds_lease (pool_state ClusterDemo.later) ClusterDemo.claimed_row \/ expired r').
Proof.
  split; [by vm_compute|].
  apply (proj2 (system_task_lease_exclusive ClusterDemo.handlers ClusterDemo.handlers_lawful ClusterDemo.empty ClusterDemo.later
    ClusterDemo.later_on ClusterDemo.empty_ok ClusterDemo.to_later ClusterDemo.to_later_on)); [vm_compute; by left | by vm_compute].
Defined.

Lemma orphan_blocks_its_type_witness :
  sk_Status ClusterDemo.row = SystemTaskStatusRunning /\
  ClusterDemo.row ∈ cl_tasks (pool_state ClusterDemo.much_later) /\
  value (EnqueueSystemTask ClusterDemo.key SystemTaskTypeLogCleanup None) (pool_state ClusterDemo.much_later) = inr (ClusterDemo.row, false).
Proof.
  destruct (orphan_blocks_its_type ClusterDemo.handlers ClusterDemo.handlers_lawful ClusterDemo.lost ClusterDemo.row
    ClusterDemo.much_later [] ClusterDemo.key None) as [H _].
  - split; [split; [|split_and!] |]; try apply NoDup_singleton; try apply NoDup_nil_2. by apply Forall_cons.
  - by vm_compute; left.
  - by vm_compute.
  - intros l Hl. by apply not_elem_of_nil in Hl.
  - exact ClusterDemo.to_much_later.
  - split; [by vm_compute|]. split; [exact H | by vm_compute].
Defined.
