(* ===== verification/SystemTaskCleanup.v ===== *)
(** * What the log clean-up task does

    Alone with its lease, the task of [SystemTaskRunner.runLogCleanupTask]
    terminates, deletes exactly the rows older than its target, in batches, and
    finishes its row with their number. *)

From stdpp Require Import base numbers option strings list.
From Stdlib Require Import ZArith Lia.
From S2P Require Import Prelude Schema Store Interleave SystemTasks SystemTaskRunner.
Open Scope Z_scope.

(** ** Runs in which no statement fails *)

Definition ends {A} (p : program A) (s : Cluster) (a : A) (s' : Cluster) : Prop :=
  value p s = inr a /\ final p s = s'.

Lemma ends_bind {A B} (p : program A) (f : A -> program B) s a s1 b s2 :
  ends p s a s1 -> ends (f a) s1 b s2 -> ends (p ≫= f) s b s2.
Proof.
  intros [V F] [V' F']. unfold ends, mbind, P_bind.
  destruct (run_bind_quiet p (fun r => match r with inl err => Done (inl err) | inr a => f a end) s) as [-> ->].
  by rewrite V, F.
Qed.
Lemma ends_ret {A} (a : A) s : ends (mret a) s a s.
Proof. done. Qed.
Lemma ends_sql {A} (f : Cluster -> result A * Cluster) s a s' : f s = (inr a, s') -> ends (sql f) s a s'.
Proof. intros E. unfold ends, value, final. cbn. by rewrite E. Qed.
Lemma ends_now s : ends GetTimestamp s (cl_clock s) s.
Proof. done. Qed.
Lemma ends_attempted {A} (p : program A) s a s' : ends p s a s' -> ends (attempted p) s (inr a) s'.
Proof.
  intros [V F]. unfold ends, attempted. destruct (run_bind_quiet p (fun r => Done (inr r : result (result A))) s) as [-> ->]. by rewrite V, F.
Qed.
Lemma ends_or_failed {A} task runnerID (p : program A) s a s' : ends p s a s' -> ends (or_failed task runnerID p) s a s'.
Proof. intros H. eapply ends_bind; [by apply ends_attempted | apply ends_ret]. Qed.

(** ** Batches *)

Section Batches.
Context {R : Type} (p : R -> bool).
Abbreviation matching l := (length (List.filter p l)).
Abbreviation others l := (List.filter (fun r => negb (p r)) l).

Lemma matching_le l : (matching l <= length l)%nat.
Proof. induction l as [|r l IH]; cbn; [done|]. destruct (p r); cbn; lia. Qed.
Lemma no_matching l : matching l = 0%nat -> others l = l.
Proof. induction l as [|r l IH]; cbn; [done|]. destruct (p r); cbn; [done|]. intros H. by rewrite IH. Qed.
Lemma others_none l : matching (others l) = 0%nat.
Proof. induction l as [|r l IH]; cbn; [done|]. destruct (p r) eqn:E; cbn; [done|]. by rewrite E. Qed.

Lemma delete_first_spec n l :
  others (delete_first n p l) = others l /\
  matching (delete_first n p l) = (matching l - n)%nat /\
  (length (delete_first n p l) + (matching l - matching (delete_first n p l)) = length l)%nat.
Proof.
  revert n. induction l as [|r l IH]; intros n; cbn; [done|]. destruct (p r) eqn:E.
  - destruct n as [|n]; cbn; [rewrite E; cbn; split_and!; [done | lia | lia]|]. destruct (IH n) as (H1 & H2 & H3).
    pose proof (matching_le l). split_and!; [done | done | lia].
  - cbn. rewrite E. cbn. destruct (IH n) as (H1 & H2 & H3). split_and!; [by rewrite H1 | done | lia].
Qed.
End Batches.

(** ** The run *)

Section Run.
Context (clickhouse : bool) (DecodePayload : string -> result LogCleanupPayload) (DecodeState : string -> result LogCleanupState).
Context (MarshalState : LogCleanupState -> result string) (MarshalResult : Z -> result string).
Context (task : SystemTask) (runnerID : string) (target batch : Z).
Context (Hmarshal : forall state, exists text, MarshalState state = inr text).

Abbreviation T := (sk_TaskID task).
Definition olds (l : list Log) : Z := Z.of_nat (length (List.filter (old target) l)).
Definition news (l : list Log) : list Log := List.filter (fun x => negb (old target x)) l.

(** The runner holds the lease of the task, and its row is running. *)
Definition working (s : Cluster) : Prop :=
  lease_held s T runnerID (cl_clock s) = true /\
  exists r, In r (cl_tasks s) /\ sk_TaskID r = T /\ running r = true /\ sk_LockedBy r = runnerID.
(** Only the task's row and the logs may change. *)
Definition goes_on (s s' : Cluster) : Prop := working s' /\ cl_locks s' = cl_locks s /\ cl_clock s' = cl_clock s.

Lemma goes_on_trans a b c : goes_on a b -> goes_on b c -> goes_on a c.
Proof. intros (_ & L1 & C1) (W & L2 & C2). split_and!; congruence. Qed.

Lemma in_update {R} (p : R -> bool) (f : R -> R) l r : In r l -> p r = true -> In (f r) (upd_where p f l).
Proof. intros Hin Hp. apply in_map_iff. exists r. by rewrite Hp. Qed.

Lemma store_ends s state : working s ->
  exists s', ends (store MarshalState task runnerID state) s tt s' /\ goes_on s s' /\ cl_logs s' = cl_logs s.
Proof.
  intros (Hheld & r & Hin & Hid & Hrun & Hby). destruct (Hmarshal state) as [text Htext].
  set (p := running_row T runnerID (cl_clock s)).
  set (f := fun r => (r <| sk_State := text |>) <| sk_UpdatedAt := cl_clock s |>).
  assert (forall x, sk_TaskID x = T -> running x = true -> sk_LockedBy x = runnerID -> p s x = true) as Hp.
  { intros x H1 H2 H3. unfold p, running_row. by rewrite H1, H2, H3, Hheld, !str_eqb_refl. }
  set (s' := s <| cl_tasks := upd_where (p s) f (cl_tasks s) |>).
  assert (In (f r) (cl_tasks s')) as Hin' by (apply in_update; auto).
  exists s'. split; [|split; [|done]].
  - unfold store, UpdateSystemTaskState. cbn [marshalSystemTaskJSON]. rewrite Htext.
    eapply ends_bind; [apply ends_now|]. eapply ends_bind; [by apply ends_sql|]. cbv beta. fold p. fold f.
    destruct (0 <? _); [apply ends_ret|].
    eapply ends_bind; [by apply ends_sql|]. cbv beta. fold p. fold s'.
    assert (In (f r) (List.filter (p s') (cl_tasks s'))) as Hf.
    { apply filter_In. split; [done|]. change (p s' (f r)) with (p s r). by apply Hp. }
    revert Hf. destruct (List.filter (p s') (cl_tasks s')); [intros [] | intros _; apply ends_ret].
  - split_and!; [|done|done]. split; [done|]. exists (f r). by split_and!.
Qed.

Lemma count_ends s : ends (CountOldLog target) s (olds (cl_logs s)) s.
Proof. by apply ends_sql. Qed.

(** A batch deletes something if there is anything to delete, and nothing else. *)
Lemma delete_ends s : exists k logs,
  ends (DeleteOldLogBatch clickhouse target batch) s k (s <| cl_logs := logs |>) /\
  news logs = news (cl_logs s) /\ olds logs = olds (cl_logs s) - k /\ 0 <= k /\ (0 < olds (cl_logs s) -> 0 < k).
Proof.
  unfold DeleteOldLogBatch. set (limit := if batch <=? 0 then 100 else batch).
  assert (0 < limit) as Hlim by (unfold limit; destruct (Z.leb_spec batch 0); lia).
  destruct clickhouse.
  - destruct (Z.eqb_spec (olds (cl_logs s)) 0) as [E|E].
    + exists 0, (cl_logs s). split; [|split_and!; [done | lia | lia | lia]].
      eapply ends_bind; [apply count_ends|]. cbv beta. rewrite E. cbn. split; [done|]. by destruct s.
    + exists (olds (cl_logs s)), (news (cl_logs s)). unfold olds in *. split_and!; [|unfold news; by rewrite no_matching by apply others_none| |lia|lia].
      * eapply ends_bind; [apply count_ends|]. cbv beta. unfold olds. rewrite (proj2 (Z.eqb_neq _ _) E).
        eapply ends_bind; [by apply ends_sql | apply ends_ret].
      * unfold news. rewrite others_none. lia.
  - destruct (delete_first_spec (old target) (Z.to_nat limit) (cl_logs s)) as (H1 & H2 & H3).
    exists (Z.of_nat (length (cl_logs s)) - Z.of_nat (length (delete_first (Z.to_nat limit) (old target) (cl_logs s)))),
      (delete_first (Z.to_nat limit) (old target) (cl_logs s)).
    unfold olds, news in *. split; [by apply ends_sql|]. split; [done|]. split_and!; lia.
Qed.

Lemma working_logs s logs : working s -> working (s <| cl_logs := logs |>).
Proof. done. Qed.

(** The inner loop. *)
Lemma delete_rounds_end fuel progressed state s :
  working s -> lc_Remaining state = olds (cl_logs s) -> olds (cl_logs s) < Z.of_nat fuel ->
  0 <= lc_Processed state -> lc_Total state < 2 ^ 63 -> lc_Total state = lc_Processed state + olds (cl_logs s) ->
  exists state' s',
    ends (delete_rounds clickhouse MarshalState task runnerID target batch fuel progressed state) s
      (progressed || (0 <? olds (cl_logs s)), state') s' /\
    goes_on s s' /\ cl_logs s' = news (cl_logs s) /\
    lc_Processed state' = lc_Total state /\ lc_Total state' = lc_Total state.
Proof.
  revert progressed state s. induction fuel as [|fuel IH]; intros progressed state s Hw Hrem Hfuel Hpos Hmax Htot.
  { unfold olds in Hfuel. lia. }
  cbn [delete_rounds]. rewrite Hrem. destruct (Z.leb_spec (olds (cl_logs s)) 0) as [Hz|Hz].
  - assert (olds (cl_logs s) = 0) as E by (unfold olds in *; lia). rewrite E, orb_false_r.
    exists state, s. split_and!; [apply ends_ret | done | | lia | done]. unfold news. rewrite no_matching; [done|]. unfold olds in E. lia.
  - destruct (delete_ends s) as (k & logs & Hend & Hnews & Hold & Hk & Hsome). specialize (Hsome Hz).
    assert (0 <= olds logs) as Hnn by (unfold olds; lia).
    set (s1 := s <| cl_logs := logs |>). set (state1 := deleted k state).
    assert (lc_Processed state1 = lc_Processed state + k) as Hp1.
    { unfold state1, deleted. cbn. apply i64_small. unfold in_i64, min_int64, max_int64. lia. }
    assert (lc_Total state1 = lc_Total state) as Ht1.
    { change (lc_Total state1) with (if lc_Total state <? lc_Processed state1 then lc_Processed state1 else lc_Total state).
      destruct (Z.ltb_spec (lc_Total state) (lc_Processed state1)); lia. }
    destruct (store_ends s1 state1 (working_logs s logs Hw)) as (s2 & Hst & Hgo & Hlogs).
    destruct (IH true state1 s2) as (state' & s' & Hends & Hgo' & Hl & Hp & Ht).
    + apply Hgo.
    + rewrite Hlogs. unfold state1, deleted, s1. cbn. destruct (Z.ltb_spec k (lc_Remaining state)); lia.
    + rewrite Hlogs. cbn. lia.
    + lia.
    + lia.
    + rewrite Hlogs, Ht1, Hp1. cbn. lia.
    + exists state', s'. rewrite Hlogs in Hends, Hl. cbn in Hends, Hl. split_and!.
      * eapply ends_bind; [by apply ends_or_failed|]. cbv beta. rewrite (proj2 (Z.eqb_neq k 0)) by lia.
        eapply ends_bind; [exact Hst|]. rewrite (proj2 (Z.ltb_lt 0 (olds (cl_logs s)))) by lia. rewrite orb_true_r. exact Hends.
      * apply (goes_on_trans _ s1); [split; [by apply working_logs | done]|]. by apply (goes_on_trans _ s2).
      * rewrite Hl. exact Hnews.
      * by rewrite Hp.
      * by rewrite Ht.
Qed.

(** The outer loop, from the state the task is created with: the first round
    deletes, the second counts nothing. *)
Lemma cleanup_rounds_end fuel inner s :
  working s -> (2 <= fuel)%nat -> olds (cl_logs s) < Z.of_nat inner -> olds (cl_logs s) < 2 ^ 63 ->
  exists state s',
    ends (cleanup_rounds clickhouse MarshalState task runnerID target batch fuel inner (mkLogCleanupState 0 0 0 0)) s state s' /\
    goes_on s s' /\ cl_logs s' = news (cl_logs s) /\ lc_Processed state = olds (cl_logs s).
Proof.
  intros Hw Hfuel Hinner Hmax. destruct fuel as [|[|fuel]]; [lia | lia|].
  set (n := olds (cl_logs s)) in *. assert (0 <= n) as Hn by (unfold n, olds; lia).
  set (state1 := syncLogCleanupStateFromRemaining (mkLogCleanupState 0 0 0 0) n).
  assert (lc_Processed state1 = 0 /\ lc_Total state1 = n /\ lc_Remaining state1 = n) as (P1 & T1 & R1) by done.
  destruct (store_ends s state1 Hw) as (s1 & Hst1 & Hgo1 & Hl1).
  cbn [cleanup_rounds]. destruct (Z.eqb_spec n 0) as [E|E].
  - exists state1, s1. split_and!; [|done| |lia].
    + eapply ends_bind; [apply ends_or_failed, count_ends|]. cbv beta. fold n. fold state1.
      eapply ends_bind; [exact Hst1|]. rewrite R1, E. apply ends_ret.
    + rewrite Hl1. unfold news. rewrite no_matching; [done|]. unfold n, olds in E. lia.
  - destruct (delete_rounds_end inner false state1 s1) as (state2 & s2 & Hend2 & Hgo2 & Hl2 & P2 & T2); [by apply Hgo1 | by rewrite Hl1 | by rewrite Hl1 | by rewrite P1 | by rewrite T1 | by rewrite Hl1, T1, P1 |].
    rewrite Hl1 in Hend2, Hl2. fold n in Hend2. rewrite T1 in P2, T2. rewrite (proj2 (Z.ltb_lt 0 n)) in Hend2 by lia.
    assert (olds (cl_logs s2) = 0) as E2 by (rewrite Hl2; unfold olds, news; by rewrite others_none).
    set (state3 := syncLogCleanupStateFromRemaining state2 0).
    assert (lc_Processed state3 = n /\ lc_Remaining state3 = 0) as [P3 R3].
    { unfold state3, syncLogCleanupStateFromRemaining. rewrite (proj2 (Z.leb_gt (lc_Total state2) 0)), Z.sub_0_r by lia.
      rewrite i64_small by (unfold in_i64, min_int64, max_int64; lia). rewrite (proj2 (Z.ltb_ge (lc_Processed state2) (lc_Total state2))) by lia.
      rewrite (proj2 (Z.ltb_ge (lc_Processed state2) 0)) by lia. split; [|done]. cbn. lia. }
    destruct (store_ends s2 state3 (proj1 Hgo2)) as (s3 & Hst3 & Hgo3 & Hl3).
    exists state3, s3. split_and!; [| | |done].
    + eapply ends_bind; [apply ends_or_failed, count_ends|]. cbv beta. fold n. fold state1.
      eapply ends_bind; [exact Hst1|]. rewrite R1, (proj2 (Z.eqb_neq n 0) E). eapply ends_bind; [exact Hend2|]. cbn [orb negb].
      eapply ends_bind; [apply ends_or_failed, count_ends|]. cbv beta. rewrite E2. fold state3.
      eapply ends_bind; [exact Hst3|]. rewrite R3. apply ends_ret.
    + apply (goes_on_trans _ s1); [done|]. by apply (goes_on_trans _ s2).
    + by rewrite Hl3, Hl2.
Qed.

(** The end: the row is finished, the lease given back. *)
Lemma finish_ends s status result text msg :
  working s -> result = Some (inr text) -> status <> SystemTaskStatusRunning ->
  exists s' r, ends (FinishSystemTask T runnerID status result msg) s tt s' /\ cl_logs s' = cl_logs s /\
    In r (cl_tasks s') /\ sk_TaskID r = T /\ sk_Status r = status /\ sk_ActiveKey r = None /\ sk_Result r = text /\ sk_Error r = msg /\
    (forall l, In l (cl_locks s') -> owned_by T runnerID l = false).
Proof.
  intros (Hheld & r & Hin & Hid & Hrun & Hby) -> Hst.
  set (p := running_row T runnerID (cl_clock s)).
  set (f := fun r => (r <| sk_Status := status |> <| sk_ActiveKey := @None string |>) <| sk_Result := text |>
                    <| sk_Error := msg |> <| sk_UpdatedAt := cl_clock s |>).
  assert (p s r = true) as Hp by (unfold p, running_row; by rewrite Hid, Hrun, Hby, Hheld, !str_eqb_refl).
  set (s1 := s <| cl_tasks := upd_where (p s) f (cl_tasks s) |>).
  exists (s1 <| cl_locks := List.filter (fun l => negb (owned_by T runnerID l)) (cl_locks s1) |>), (f r).
  split_and!; try done.
  - unfold FinishSystemTask. cbn [marshalSystemTaskJSON]. eapply ends_bind; [apply ends_now|].
    eapply ends_bind; [by apply ends_sql|]. cbv beta. fold p. fold f. fold s1.
    assert (In r (List.filter (fun x => p s x && (cl_matched_rows s || negb (bool_decide (f x = x)))) (cl_tasks s))) as Hf.
    { apply filter_In. split; [done|]. rewrite Hp. cbn. apply orb_true_iff. right. apply negb_true_iff, bool_decide_eq_false.
      intros E. apply Hst. apply str_eqb_true in Hrun. rewrite <- Hrun, <- E. done. }
    unfold affected. revert Hf. destruct (List.filter _ (cl_tasks s)); [intros [] | intros _].
    by apply ends_sql.
  - by apply in_update.
  - cbn. intros l [_ Hl]%filter_In. by apply negb_true_iff.
Qed.

(** C25. The log clean-up task does its job: started on a running row whose
    lease it holds, with the state the task is created with and a payload that
    decodes to a positive target, it ends - one round more of the inner loop
    than there are old rows is enough, and two of the outer one - having deleted exactly the
    log rows older than the target and no other; its row has succeeded, with
    the number of those rows as its result, and its lease is given back. *)
Theorem log_cleanup_exact fuel inner payload text s :
  working s -> DecodePayload (sk_Payload task) = inr payload -> sk_Payload task <> ""%string ->
  lp_TargetTimestamp payload = target -> 0 < target ->
  (if lp_BatchSize payload <=? 0 then logCleanupBatchSize else lp_BatchSize payload) = batch ->
  DecodeState (sk_State task) = inr (mkLogCleanupState 0 0 0 0) ->
  MarshalResult (olds (cl_logs s)) = inr text ->
  (2 <= fuel)%nat -> olds (cl_logs s) < Z.of_nat inner -> olds (cl_logs s) < 2 ^ 63 ->
  let s' := final (runLogCleanupTask clickhouse DecodePayload DecodeState MarshalState MarshalResult fuel inner task runnerID) s in
  cl_logs s' = List.filter (fun l => negb (old target l)) (cl_logs s) /\
  (exists r, In r (cl_tasks s') /\ sk_TaskID r = T /\ sk_Status r = SystemTaskStatusSucceeded /\ sk_ActiveKey r = None /\
     sk_Result r = text) /\
  (forall l, In l (cl_locks s') -> owned_by T runnerID l = false).
Proof.
  intros Hw Hpay Hne Htarget Hpos Hbatch Hstate Htext Hfuel Hinner Hmax.
  destruct (cleanup_rounds_end fuel inner s Hw Hfuel Hinner Hmax) as (state & s1 & Hround & Hgo1 & Hl1 & Hproc).
  destruct (store_ends s1 (cleanup_finished state) (proj1 Hgo1)) as (s2 & Hst2 & Hgo2 & Hl2).
  destruct (finish_ends s2 SystemTaskStatusSucceeded (Some (MarshalResult (lc_Processed state))) text "" (proj1 Hgo2))
    as (s3 & r & Hfin & Hl3 & Hin & Hid & Hst & Hkey & Hres & _ & Hlocks); [by rewrite Hproc, Htext | done|].
  assert (final (runLogCleanupTask clickhouse DecodePayload DecodeState MarshalState MarshalResult fuel inner task runnerID) s = s3) as ->.
  { unfold runLogCleanupTask, ignored. cbv zeta.
    rewrite (proj2 (run_bind_quiet _ (fun _ => Done tt) s)). change (final (Done tt) ?x) with x.
    refine (proj2 (_ : ends _ s tt s3)).
    rewrite (proj2 (str_eqb_false _ _) Hne), Hpay. eapply ends_bind; [apply ends_or_failed; done|]. cbv beta.
    rewrite Htarget, Hbatch, (proj2 (Z.leb_gt target 0) Hpos).
    eapply ends_bind; [apply ends_or_failed; rewrite Hstate; by destruct (str_eqb _ _)|].
    eapply ends_bind; [exact Hround|]. eapply ends_bind; [exact Hst2 | exact Hfin]. }
  split_and!; [by rewrite Hl3, Hl2, Hl1 | by exists r | done].
Qed.
End Run.

(** ** A run: three rows, two of them old, deleted one at a time *)

Module CleanupDemo.
Definition log (created_at : Z) : Log := mkLog 0 0 created_at 0 "" "" "" "" 0 0 0 0 false 0 0 "" "" "" "" [].
Definition task : SystemTask :=
  mkSystemTask 1 "systask_1" SystemTaskTypeLogCleanup SystemTaskStatusRunning (Some SystemTaskTypeLogCleanup) "payload" "" "" "" "a" 900 1000.
Definition s : Cluster :=
  mkCluster 1000 false [task] [mkSystemTaskLock SystemTaskTypeLogCleanup "systask_1" "a" 1060 1000] [log 100; log 600; log 300].
Definition payload : LogCleanupPayload := mkLogCleanupPayload 500 1.
Definition decode (_ : string) : result LogCleanupPayload := inr payload.
Definition decode_state (_ : string) : result LogCleanupState := inr (mkLogCleanupState 0 0 0 0).
Definition text {A} (_ : A) : result string := inr "{}"%string.
Lemma s_working : working task "a" s.
Proof. split; [reflexivity|]. exists task. split; [by left | done]. Qed.
End CleanupDemo.

Lemma log_cleanup_exact_witness :
  let s' := final (runLogCleanupTask false CleanupDemo.decode CleanupDemo.decode_state CleanupDemo.text CleanupDemo.text 2 3
                     CleanupDemo.task "a") CleanupDemo.s in
  cl_logs s' = [CleanupDemo.log 600] /\
  exists r, In r (cl_tasks s') /\ sk_TaskID r = "systask_1"%string /\ sk_Status r = SystemTaskStatusSucceeded /\ sk_ActiveKey r = None /\
     sk_Result r = "{}"%string.
Proof.
  destruct (log_cleanup_exact false CleanupDemo.decode CleanupDemo.decode_state CleanupDemo.text CleanupDemo.text
    CleanupDemo.task "a" 500 1 (fun _ => ex_intro _ "{}"%string eq_refl) 2 3 CleanupDemo.payload "{}" CleanupDemo.s
    CleanupDemo.s_working eq_refl ltac:(discriminate) eq_refl eq_refl eq_refl eq_refl eq_refl (le_n 2) eq_refl eq_refl) as (H1 & H2 & _).
  split; [exact H1 | exact H2].
Defined.
