(* ===== verification/GoStrings.v ===== *)
(** * Functions of Go's [strings] package that routing uses *)

From stdpp Require Import base strings list.
From Stdlib Require Import ZArith Lia Ascii.
From S2P Require Import Prelude.

Definition comma : Ascii.ascii := ","%char.

(** [strings.Split] by a separator of one byte: always at least one part. *)
Fixpoint Split (sep : Ascii.ascii) (s : string) : list string :=
  match s with
  | EmptyString => [EmptyString]
  | String c s' =>
      if Ascii.eqb c sep then EmptyString :: Split sep s'
      else match Split sep s' with
           | part :: parts => String c part :: parts
           | [] => [String c EmptyString]
           end
  end.


(** [strings.Join]. *)
Fixpoint Join (parts : list string) (sep : string) : string :=
  match parts with
  | [] => EmptyString
  | [part] => part
  | part :: rest => part ++ sep ++ Join rest sep
  end.

Fixpoint trim_left_char (c : Ascii.ascii) (s : string) : string :=
  match s with
  | String c' s' => if Ascii.eqb c' c then trim_left_char c s' else s
  | EmptyString => EmptyString
  end.
(** [strings.Trim] with a cutset of one byte. *)
Definition Trim (s : string) (c : Ascii.ascii) : string :=
  str_rev (trim_left_char c (str_rev (trim_left_char c s) EmptyString)) EmptyString.


Definition HasPrefix (s prefix : string) : bool := String.prefix prefix s.
Definition HasSuffix (s suffix : string) : bool := String.prefix (str_rev suffix EmptyString) (str_rev s EmptyString).
Definition TrimPrefix (s prefix : string) : string := if HasPrefix s prefix then str_drop (String.length prefix) s else s.
Definition TrimSuffix (s suffix : string) : string :=
  if HasSuffix s suffix then String.substring 0 (String.length s - String.length suffix) s else s.

(** [strings.Split] by any separator that is not empty; the length of the
    string is enough fuel, since every separator found shortens it. *)
Fixpoint split_fuel (fuel : nat) (s sep : string) : list string :=
  match fuel with
  | O => [s]
  | S fuel =>
      match String.index 0 sep s with
      | None => [s]
      | Some i => String.substring 0 i s :: split_fuel fuel (str_drop (i + String.length sep) s) sep
      end
  end.
Definition SplitBy (s sep : string) : list string := split_fuel (String.length s) s sep.

(** [strings.Replace(s, old, new, 1)]. *)
Definition ReplaceFirst (s old new : string) : string :=
  match String.index 0 old s with
  | None => s
  | Some i => (String.substring 0 i s ++ new ++ str_drop (i + String.length old) s)%string
  end.

Example Split_comma : Split comma "a,b,,c" = ["a"; "b"; ""; "c"].
Proof. reflexivity. Qed.
Example Trim_comma : Trim ",a,b," comma = "a,b".
Proof. reflexivity. Qed.
Example SplitBy_model : SplitBy "/v1/{model}:gen" "{model}" = ["/v1/"; ":gen"].
Proof. reflexivity. Qed.
Example TrimSuffix_gen : TrimSuffix "gpt:gen" ":gen" = "gpt".
Proof. reflexivity. Qed.
