(* ===== verification/Channels.v ===== *)
(** * Channels and abilities ([src/model/channel.go], [src/model/ability.go])

    A channel is an account at a provider; its abilities are the (group, model)
    pairs it serves, one row each, which the database path of routing reads.  A
    channel may hold several keys, of which each request uses one. *)

From stdpp Require Import base numbers option strings list gmap.
From Stdlib Require Import ZArith Lia.
From S2P Require Import Prelude Schema Store GoStrings.
Open Scope Z_scope.

Definition ChannelStatusEnabled : Z := 1.
Definition ChannelStatusManuallyDisabled : Z := 2.
Definition ChannelStatusAutoDisabled : Z := 3.
Definition ChannelTypeAdvancedCustom : Z := 58.
Definition ChannelTypeTaskPlugin : Z := 61.
Definition MultiKeyModeRandom : string := "random".
Definition MultiKeyModePolling : string := "polling".

Definition newline : Ascii.ascii := Ascii.ascii_of_nat 10.

Definition GetModels (channel : Channel) : list string :=
  if str_eqb (ch_models channel) "" then [] else Split comma (Trim (ch_models channel) comma).
Definition GetGroups (channel : Channel) : list string :=
  if str_eqb (ch_group channel) "" then [] else List.map trim_space (Split comma (Trim (ch_group channel) comma)).
Definition GetPriority (channel : Channel) : Z := default 0 (ch_priority channel).
(** [uint] arithmetic: 64 bits. *)
Definition u64 (z : Z) : Z := z mod 2 ^ 64.
(** [uint] to [int]. *)
Definition GetWeight (channel : Channel) : Z := match ch_weight channel with None => 0 | Some w => i64 w end.
Definition GetAutoBan (channel : Channel) : bool := match ch_auto_ban channel with None => false | Some b => b =? 1 end.

(** ** Keys *)

Section Keys.
(** [json.Unmarshal] into a list of raw values. *)
Context (parse_array : string -> option (list string)).

Definition GetKeys (channel : Channel) : list string :=
  if str_eqb (ch_key channel) "" then [] else
  match ch_keys channel with
  | _ :: _ => ch_keys channel
  | [] =>
      let trimmed := trim_space (ch_key channel) in
      match (if HasPrefix trimmed "[" then parse_array trimmed else None) with
      | Some keys => keys
      | None => Split newline (Trim (ch_key channel) newline)
      end
  end.

Definition key_status (statusList : gmap Z Z) (idx : Z) : Z := default ChannelStatusEnabled (statusList !! idx).
Definition key_enabled (statusList : gmap Z Z) (idx : Z) : bool := key_status statusList idx =? ChannelStatusEnabled.

Definition indexes (keys : list string) : list Z := List.map Z.of_nat (seq 0 (length keys)).
Definition key_at (keys : list string) (idx : Z) : string := nth (Z.to_nat idx) keys EmptyString.

Definition ErrNoAvailableKey (text : string) : Err := EText text.

(** The polling loop: the first enabled index from [start + i] on. *)
Fixpoint poll_keys (n : Z) (statusList : gmap Z Z) (start i : Z) (fuel : nat) : option Z :=
  match fuel with
  | O => None
  | S fuel =>
      let idx := (start + i) mod n in
      if key_enabled statusList idx then Some idx else poll_keys n statusList start (i + 1) fuel
  end.

Definition poll_start (n index : Z) : Z := if (index <? 0) || (n <=? index) then 0 else index.

(** [index] is the polling index that [CacheGetChannelInfo] read, or its error;
    [random] the value of [rand.Intn].  The answer is the key, its index, and
    the channel with its polling index moved on. *)
Definition GetNextEnabledKey (channel : Channel) (index : result Z) (random : Z) : result (string * Z * Channel) :=
  let info := ch_channel_info channel in
  if negb (ci_IsMultiKey info) then inr (ch_key channel, 0, channel) else
  let keys := GetKeys channel in
  match keys with
  | [] => inl (ErrNoAvailableKey "no keys available")
  | _ =>
      let enabledIdx := List.filter (key_enabled (ci_MultiKeyStatusList info)) (indexes keys) in
      match enabledIdx with
      | [] => inl (ErrNoAvailableKey "no enabled keys")
      | first :: _ =>
          if str_eqb (ci_MultiKeyMode info) MultiKeyModeRandom then
            let idx := nth (Z.to_nat random) enabledIdx first in inr (key_at keys idx, idx, channel)
          else if str_eqb (ci_MultiKeyMode info) MultiKeyModePolling then
            match index with
            | inl err => inl err
            | inr index =>
                let n := Z.of_nat (length keys) in
                match poll_keys n (ci_MultiKeyStatusList info) (poll_start n index) 0 (length keys) with
                | Some idx =>
                    inr (key_at keys idx, idx,
                         channel <| ch_channel_info ::= fun i => i <| ci_MultiKeyPollingIndex := (idx + 1) mod n |> |>)
                | None => inr (key_at keys first, first, channel)
                end
            end
          else inr (key_at keys first, first, channel)
      end
  end.

(** ** The status of a channel and of its keys *)

(** [info["status_reason"] = reason; info["status_time"] = now]. *)
Definition set_field (k : string) (v : json_scalar) (o : json_object) : json_object :=
  List.filter (fun kv => negb (str_eqb kv.1 k)) o ++ [(k, v)].
Definition status_info (reason : string) (now : Z) (channel : Channel) : Channel :=
  channel <| ch_other_info ::= fun o => set_field "status_time" (JInt now) (set_field "status_reason" (JStr reason) o) |>.

Definition hasEnabledMultiKey (keys : list string) (statusList : gmap Z Z) : bool :=
  List.existsb (key_enabled statusList) (indexes keys).

Fixpoint index_of (key : string) (keys : list string) (i : Z) : Z :=
  match keys with
  | [] => -1
  | k :: rest => if str_eqb k key then i else index_of key rest (i + 1)
  end.

(** The status list and the disabling records of one key. *)
Definition set_key_status (keyIndex status : Z) (reason : string) (now : Z) (info : ChannelInfo) : ChannelInfo :=
  if status =? ChannelStatusEnabled then info <| ci_MultiKeyStatusList ::= fun m : gmap Z Z => delete keyIndex m |>
  else (info <| ci_MultiKeyStatusList ::= fun m : gmap Z Z => <[keyIndex := status]> m |>)
         <| ci_MultiKeyDisabledReason ::= fun m : gmap Z string => <[keyIndex := reason]> m |>
         <| ci_MultiKeyDisabledTime ::= fun m : gmap Z Z => <[keyIndex := now]> m |>.

Definition handlerMultiKeyUpdate (channel : Channel) (usingKey : string) (status : Z) (reason : string) (now : Z) : Channel :=
  let keys := GetKeys channel in
  match keys with
  | [] => channel <| ch_status := status |>
  | _ =>
      let keyIndex := index_of usingKey keys 0 in
      if keyIndex <? 0 then
        if negb (str_eqb usingKey "") then channel
        else status_info reason now (channel <| ch_status := status |>)
      else
        let channel := channel <| ch_channel_info ::= set_key_status keyIndex status reason now |> in
        if negb (hasEnabledMultiKey keys (ci_MultiKeyStatusList (ch_channel_info channel)))
        then status_info "All keys are disabled" now (channel <| ch_status := ChannelStatusAutoDisabled |>)
        else if status =? ChannelStatusEnabled then channel <| ch_status := ChannelStatusEnabled |>
        else channel
  end.
End Keys.

(** ** Abilities *)

(** The pairs of a channel, each once; [sep] is in no group. *)
Definition pair_seen (seen : list (string * string)) (group model : string) : bool :=
  List.existsb (fun p => str_eqb (p.1 ++ "|" ++ p.2)%string (group ++ "|" ++ model)%string) seen.
Definition ability_of (channel : Channel) (group model : string) : Ability :=
  mkAbility group model (ch_id channel) (ch_status channel =? ChannelStatusEnabled) (ch_priority channel)
    (u64 (GetWeight channel)) (ch_tag channel).

Fixpoint collect_pairs (pairs seen : list (string * string)) : list (string * string) :=
  match pairs with
  | [] => []
  | (group, model) :: rest =>
      if pair_seen seen group model then collect_pairs rest seen
      else (group, model) :: collect_pairs rest ((group, model) :: seen)
  end.
Definition channel_pairs (models groups : list string) : list (string * string) :=
  collect_pairs (List.concat (List.map (fun model => List.map (fun group => (group, model)) groups) models)) [].
Definition abilities_of (channel : Channel) (models : list string) : list Ability :=
  List.map (fun p => ability_of channel p.1 p.2) (channel_pairs models (Split comma (ch_group channel))).

(** [lo.Chunk(abilities, 50)], one INSERT ... ON CONFLICT DO NOTHING each. *)
Fixpoint chunks {A} (fuel n : nat) (l : list A) : list (list A) :=
  match fuel, l with
  | O, _ => []
  | _, [] => []
  | S fuel, _ => firstn n l :: chunks fuel n (skipn n l)
  end.
Definition chunk {A} (n : nat) (l : list A) : list (list A) := chunks (length l) n l.

Definition insert_new (rows : list Ability) (a : Ability) : list Ability :=
  if List.existsb (t_clash Abilities a) rows then rows else rows ++ [a].
Definition insert_chunk (abilities : list Ability) : M unit :=
  stmt (fun d => (inr tt, t_set Abilities (List.fold_left insert_new abilities (t_get Abilities d)) d)).
Definition insert_abilities (abilities : list Ability) : M unit := for_each insert_chunk (chunk 50 abilities).

Definition AddAbilities (channel : Channel) : M unit :=
  insert_abilities (abilities_of channel (Split comma (ch_models channel))).
Definition DeleteAbilities (channel : Channel) : M unit :=
  delete_where Abilities (fun a => ab_channel_id a =? ch_id channel) ;; mret tt.

(** Without a transaction of the caller's it opens its own. *)
Definition UpdateAbilities (channel : Channel) : M unit :=
  transaction (DeleteAbilities channel ;; insert_abilities (abilities_of channel (GetModels channel))).

Definition UpdateAbilityStatus (channelId : Z) (status : bool) : M unit :=
  update Abilities (fun a => ab_channel_id a =? channelId) (fun a => a <| ab_enabled := status |>) ;; mret tt.
Definition has_tag (tag : string) (t : option string) : bool := match t with Some t => str_eqb t tag | None => false end.
Definition UpdateAbilityStatusByTag (tag : string) (status : bool) : M unit :=
  update Abilities (fun a => has_tag tag (ab_tag a)) (fun a => a <| ab_enabled := status |>) ;; mret tt.

Definition channel_Insert (channel : Channel) : M unit := channel ← create Channels channel; AddAbilities channel.
Definition channel_Delete (channel : Channel) : M unit :=
  delete_where Channels (fun c => ch_id c =? ch_id channel) ;; DeleteAbilities channel.

Definition EnableChannelByTag (tag : string) : M unit :=
  update Channels (fun c => has_tag tag (ch_tag c)) (fun c => c <| ch_status := ChannelStatusEnabled |>) ;;
  UpdateAbilityStatusByTag tag true.
Definition DisableChannelByTag (tag : string) : M unit :=
  update Channels (fun c => has_tag tag (ch_tag c)) (fun c => c <| ch_status := ChannelStatusManuallyDisabled |>) ;;
  UpdateAbilityStatusByTag tag false.

(** Rebuilding every ability: the counts of channels done and failed. *)
Definition rebuild_channel (counts : Z * Z) (channel : Channel) : M (Z * Z) :=
  r ← attempt (AddAbilities channel);
  mret (match r with inl _ => (counts.1, counts.2 + 1) | inr _ => (counts.1 + 1, counts.2) end).
Fixpoint rebuild_channels (counts : Z * Z) (l : list Channel) : M (Z * Z) :=
  match l with
  | [] => mret counts
  | c :: rest => counts ← rebuild_channel counts c; rebuild_channels counts rest
  end.
Fixpoint rebuild_chunks (counts : Z * Z) (l : list (list Channel)) : M (Z * Z) :=
  match l with
  | [] => mret counts
  | c :: rest =>
      r ← attempt (delete_where Abilities (fun a => List.existsb (fun ch => ab_channel_id a =? ch_id ch) c));
      match r with
      | inl _ => rebuild_chunks (counts.1, counts.2 + Z.of_nat (length c)) rest
      | inr _ => counts ← rebuild_channels counts c; rebuild_chunks counts rest
      end
  end.
