(* ===== verification/ChannelRouting.v ===== *)
(** * Choosing a channel ([src/model/channel_cache.go], [channel_constraint.go], [channel_satisfy.go], [ability.go], [src/service/channel_select.go])

    The in-memory routing table is built from the channels and abilities tables
    and maps a group and a model to the ids of the channels that serve it.  A
    request picks one at random among those of the highest priority, by weight;
    a retry moves to lower priorities, and for a token of the group "auto" to
    other groups.  Without the memory cache the same choice is made from the
    abilities table. *)

From stdpp Require Import base numbers option strings list gmap.
From Stdlib Require Import ZArith Lia.
From S2P Require Import Prelude Schema Store GoStrings Channels.
Open Scope Z_scope.

(** ** Filters ([src/dto/channel_constraints.go], [src/relaykit/dto/channel_settings.go]) *)

Definition FilterRequestPath : string := "request_path".
Definition FilterTaskPluginIdentity : string := "task_plugin_identity".

Record ChannelFilter := mkChannelFilter {
  cf_Kind : string;
  cf_RequestPath : string;
  cf_TaskPluginKey : string;
  cf_TaskPluginChannelTypes : list Z
}.

Definition advancedCustomModelPlaceholder : string := "{model}".
Definition advancedCustomModelRegexPrefix : string := "re:".

Definition matchAdvancedCustomIncomingPathTemplate (configuredPath requestPath : string) : bool :=
  if negb (str_contains configuredPath advancedCustomModelPlaceholder) then str_eqb configuredPath requestPath else
  match SplitBy configuredPath advancedCustomModelPlaceholder with
  | [before; after] =>
      if negb (HasPrefix requestPath before) || negb (HasSuffix requestPath after) then false else
      let model := TrimSuffix (TrimPrefix requestPath before) after in
      negb (str_eqb model "") && negb (str_contains model "/")
  | _ => false
  end.

Definition matchAdvancedCustomIncomingPath (configuredPath requestPath : string) : bool :=
  matchAdvancedCustomIncomingPathTemplate configuredPath requestPath ||
  (str_contains configuredPath ":generateContent" &&
   matchAdvancedCustomIncomingPathTemplate (ReplaceFirst configuredPath ":generateContent" ":streamGenerateContent") requestPath).

Definition normalizeAdvancedCustomRouteModels (models : list string) : list string :=
  List.filter (fun m => negb (str_eqb m "")) (List.map trim_space models).

Section Filters.
(** [regexp.MatchString]; a pattern that does not compile matches nothing. *)
Context (regexp_match : string -> string -> bool).

Definition matchAdvancedCustomRouteModelRule (rule model : string) : bool :=
  if negb (HasPrefix rule advancedCustomModelRegexPrefix) then str_eqb rule model else
  let pattern := TrimPrefix rule advancedCustomModelRegexPrefix in
  if str_eqb pattern "" then false else regexp_match pattern model.

Definition matchAdvancedCustomRouteModel (models : list string) (model : string) : bool :=
  match normalizeAdvancedCustomRouteModels models with
  | [] => true
  | normalizedModels => List.existsb (fun rule => matchAdvancedCustomRouteModelRule rule model) normalizedModels
  end.

Definition SupportsPathForModel (routes : list AdvancedCustomRoute) (requestPath model : string) : bool :=
  let model := trim_space model in
  List.existsb (fun route => matchAdvancedCustomIncomingPath (trim_space (ar_IncomingPath route)) requestPath &&
                             matchAdvancedCustomRouteModel (ar_Models route) model) routes.

Definition channelMatchesFilter (ch : Channel) (modelName : string) (filter : ChannelFilter) : bool :=
  if str_eqb (cf_Kind filter) FilterRequestPath then
    if str_eqb (cf_RequestPath filter) "" then true else
    if negb (ch_type ch =? ChannelTypeAdvancedCustom) then true else
    match ch_advanced_custom ch with
    | Some config => SupportsPathForModel config (cf_RequestPath filter) modelName
    | None => false
    end
  else if str_eqb (cf_Kind filter) FilterTaskPluginIdentity then
    if ch_type ch =? ChannelTypeTaskPlugin
    then negb (str_eqb (cf_TaskPluginKey filter) "") && str_eqb (ch_task_plugin_key ch) (cf_TaskPluginKey filter)
    else str_eqb (cf_TaskPluginKey filter) "" || List.existsb (Z.eqb (ch_type ch)) (cf_TaskPluginChannelTypes filter)
  else true.

Definition filterEvalOrder : list string := [FilterRequestPath; FilterTaskPluginIdentity].
Definition filtersByKind (filters : list ChannelFilter) (kind : string) : list ChannelFilter :=
  List.filter (fun f => str_eqb (cf_Kind f) kind) filters.

(** The answer, and the kind of the first filter violated. *)
Definition violates (ch : Channel) (modelName : string) (filters : list ChannelFilter) (kind : string) : bool :=
  List.existsb (fun f => negb (channelMatchesFilter ch modelName f)) (filtersByKind filters kind).
Definition ChannelSatisfiesFilters (ch : option Channel) (modelName : string) (filters : list ChannelFilter) : bool * string :=
  match ch with
  | None => (false, EmptyString)
  | Some ch =>
      match List.find (violates ch modelName filters) filterEvalOrder with
      | Some kind => (false, kind)
      | None => (true, EmptyString)
      end
  end.

(** ** The routing table *)

Record ChannelCache := mkChannelCache {
  group2model2channels : gmap string (gmap string (list Z));
  channelsIDM : gmap Z Channel
}.
#[export] Instance ChannelCache_eta : Eta ChannelCache := fun r => mkChannelCache (group2model2channels r) (channelsIDM r).

Definition routed (cache : ChannelCache) (group model : string) : list Z :=
  default [] (group2model2channels cache !! group ≫= fun m => m !! model).

Definition panic {A} (text : string) : result A := inl (EText ("panic: " ++ text)).

(** [newGroup2model2channels[group][model] = append(..., id)]: writing to the
    nil map of an unknown group panics. *)
Definition add_route (id : Z) (routes : gmap string (gmap string (list Z))) (gm : string * string) :
  result (gmap string (gmap string (list Z))) :=
  match routes !! gm.1 with
  | None => panic "assignment to entry in nil map"
  | Some models => inr (<[gm.1 := <[gm.2 := default [] (models !! gm.2) ++ [id]]> models]> routes)
  end.

Fixpoint fold_result {A B} (f : B -> A -> result B) (l : list A) (b : B) : result B :=
  match l with
  | [] => inr b
  | a :: rest => match f b a with inl err => inl err | inr b' => fold_result f rest b' end
  end.

Definition channel_routes (channel : Channel) : list (string * string) :=
  List.concat (List.map (fun group => List.map (fun model => (group, model)) (GetModels channel)) (Split comma (ch_group channel))).
Definition add_channel (routes : gmap string (gmap string (list Z))) (channel : Channel) : result (gmap string (gmap string (list Z))) :=
  if ch_status channel =? ChannelStatusEnabled then fold_result (add_route (ch_id channel)) (channel_routes channel) routes
  else inr routes.

Definition empty_routes (abilities : list Ability) : gmap string (gmap string (list Z)) :=
  List.fold_left (fun m a => <[ab_group a := ∅]> m) abilities ∅.

Definition map_routes (f : list Z -> list Z) (routes : gmap string (gmap string (list Z))) : gmap string (gmap string (list Z)) :=
  (fun models : gmap string (list Z) => f <$> models) <$> routes.

Definition channels_by_id (channels : list Channel) : gmap Z Channel :=
  List.fold_left (fun m c => <[ch_id c := c]> m) channels ∅.

Section Cache.
(** [sort.Slice] by descending priority: some sorted permutation. *)
Context (sort_ids : (Z -> Z) -> list Z -> list Z).
Context (parse_array : string -> option (list string)).

Definition id_priority (channels : gmap Z Channel) (id : Z) : Z :=
  match channels !! id with Some c => GetPriority c | None => 0 end.

(** A polling channel keeps its place in its list of keys. *)
Definition carry_polling (oldChannels : gmap Z Channel) (channel : Channel) : Channel :=
  let info := ch_channel_info channel in
  if negb (ci_IsMultiKey info) then channel else
  let channel := channel <| ch_keys := GetKeys parse_array channel |> in
  if str_eqb (ci_MultiKeyMode info) MultiKeyModePolling then
    match oldChannels !! ch_id channel with
    | Some oldChannel =>
        let oldInfo := ch_channel_info oldChannel in
        if ci_IsMultiKey oldInfo && str_eqb (ci_MultiKeyMode oldInfo) MultiKeyModePolling
        then channel <| ch_channel_info ::= fun i => i <| ci_MultiKeyPollingIndex := ci_MultiKeyPollingIndex oldInfo |> |>
        else channel
    | None => channel
    end
  else channel.

Definition build_channel_cache (channels : list Channel) (abilities : list Ability) (old : ChannelCache) : result ChannelCache :=
  match fold_result add_channel channels (empty_routes abilities) with
  | inl err => inl err
  | inr routes =>
      let byId := channels_by_id channels in
      inr (mkChannelCache (map_routes (sort_ids (id_priority byId)) routes) (carry_polling (channelsIDM old) <$> byId))
  end.

(** A query that fails reads nothing.  [memory] is [MemoryCacheEnabled]. *)
Definition find_or_none {R} (t : Table R) : M (list R) :=
  rows ← attempt (find_all t (fun _ => true)); mret (match rows with inl _ => [] | inr l => l end).
Definition InitChannelCache (memory : bool) (old : ChannelCache) : M ChannelCache :=
  if negb memory then mret old else
  channels ← find_or_none Channels;
  abilities ← find_or_none Abilities;
  lift (build_channel_cache channels abilities old).

(** [running]: the lock of another repair is held. *)
Definition FixAbility (running memory : bool) (old : ChannelCache) : M (Z * Z * ChannelCache) :=
  if running then raise (EText "已经有一个修复任务在运行中，请稍后再试") else
  delete_where Abilities (fun _ => true) ;;
  channels ← find_all Channels (fun _ => true);
  match channels with
  | [] => mret (0, 0, old)
  | _ =>
      counts ← rebuild_chunks (0, 0) (chunk 50 channels);
      cache ← InitChannelCache memory old;
      mret (counts, cache)
  end.
End Cache.

(** [append(channels[:i], channels[i+1:]...)] at the first occurrence. *)
Fixpoint remove_first (id : Z) (ids : list Z) : list Z :=
  match ids with
  | [] => []
  | x :: rest => if x =? id then rest else x :: remove_first id rest
  end.

Definition CacheUpdateChannelStatus (id status : Z) (cache : ChannelCache) : ChannelCache :=
  let cache := cache <| channelsIDM ::= fun m : gmap Z Channel => alter (fun c => c <| ch_status := status |>) id m |> in
  if status =? ChannelStatusEnabled then cache
  else cache <| group2model2channels ::= map_routes (remove_first id) |>.

Definition CacheUpdateChannel (channel : Channel) (cache : ChannelCache) : ChannelCache :=
  cache <| channelsIDM ::= fun m : gmap Z Channel => <[ch_id channel := channel]> m |>.

Definition ErrNoChannel (text : string) : Err := EText text.
Definition CacheGetChannel (cache : ChannelCache) (id : Z) : result Channel :=
  match channelsIDM cache !! id with Some c => inr c | None => inl (ErrNoChannel "channel does not exist") end.
Definition CacheGetChannelInfo (cache : ChannelCache) (id : Z) : result ChannelInfo :=
  match CacheGetChannel cache id with inr c => inr (ch_channel_info c) | inl err => inl err end.

(** ** Candidates *)

Definition candidatePassesKindFilters (ch : option Channel) (modelName kind : string) (filters : list ChannelFilter) : bool :=
  match ch with
  | None => str_eqb kind FilterRequestPath
  | Some ch => List.forallb (channelMatchesFilter ch modelName) filters
  end.

Fixpoint filter_kinds (cache : ChannelCache) (modelName : string) (filters : list ChannelFilter) (kinds : list string)
    (kept : list Z) : list Z * string :=
  match kinds with
  | [] => (kept, EmptyString)
  | kind :: rest =>
      match filtersByKind filters kind with
      | [] => filter_kinds cache modelName filters rest kept
      | kindFilters =>
          let next := List.filter (fun id => candidatePassesKindFilters (channelsIDM cache !! id) modelName kind kindFilters) kept in
          match kept, next with
          | _ :: _, [] => (next, kind)
          | _, _ => filter_kinds cache modelName filters rest next
          end
      end
  end.
Definition filterCandidateIDs (cache : ChannelCache) (ids : list Z) (modelName : string) (filters : list ChannelFilter) : list Z * string :=
  match ids with
  | [] => (ids, EmptyString)
  | _ => filter_kinds cache modelName filters filterEvalOrder ids
  end.

(** ** The weighted choice *)

Definition sum_weights (targetChannels : list Channel) : Z :=
  List.fold_left (fun s c => i64 (s + GetWeight c)) targetChannels 0.

(** The sum after smoothing, its factor and its adjustment. *)
Definition smoothing (targetChannels : list Channel) : Z * Z * Z :=
  let sumWeight := sum_weights targetChannels in
  let n := Z.of_nat (length targetChannels) in
  if sumWeight =? 0 then (i64 (n * 100), 1, 100)
  else if Z.quot sumWeight n <? 10 then (sumWeight, 100, 0)
  else (sumWeight, 1, 0).
Definition total_weight (targetChannels : list Channel) : Z :=
  let '(sumWeight, factor, _) := smoothing targetChannels in i64 (sumWeight * factor).
Definition effective_weight (targetChannels : list Channel) (c : Channel) : Z :=
  let '(_, factor, adjustment) := smoothing targetChannels in i64 (i64 (GetWeight c * factor) + adjustment).

Fixpoint pick_below (weight : Channel -> Z) (randomWeight : Z) (l : list Channel) : option Channel :=
  match l with
  | [] => None
  | c :: rest =>
      let randomWeight := i64 (randomWeight - weight c) in
      if randomWeight <? 0 then Some c else pick_below weight randomWeight rest
  end.

(** [intn] is [rand.Intn], which panics on a bound that is not positive. *)
Definition choose_weighted (intn : Z -> Z) (targetChannels : list Channel) : result (option Channel) :=
  let total := total_weight targetChannels in
  if total <=? 0 then panic "invalid argument to Intn" else
  match pick_below (effective_weight targetChannels) (intn total) targetChannels with
  | Some c => inr (Some c)
  | None => inl (ErrNoChannel "channel not found")
  end.

(** ** The choice by priority *)

Definition insert_desc (x : Z) (l : list Z) : list Z :=
  List.filter (fun y => x <? y) l ++ [x] ++ List.filter (fun y => y <? x) l.
(** The distinct values in descending order. *)
Definition sorted_unique (l : list Z) : list Z := List.fold_right insert_desc [] l.

(** A retry past the last priority stays there. *)
Definition priority_at (priorities : list Z) (retry : Z) : Z :=
  let n := Z.of_nat (length priorities) in
  nth (Z.to_nat (if n <=? retry then n - 1 else retry)) priorities 0.

Definition all_channels (cache : ChannelCache) (ids : list Z) : option (list Channel) :=
  mapM (fun id => channelsIDM cache !! id) ids.

Definition ErrInconsistent : Err := ErrNoChannel "数据库一致性错误，渠道不存在，请联系管理员修复".

Definition choose_by_priority (intn : Z -> Z) (retry : Z) (candidates : list Channel) : result (option Channel) :=
  let targetPriority := priority_at (sorted_unique (List.map GetPriority candidates)) retry in
  let targetChannels := List.filter (fun c => GetPriority c =? targetPriority) candidates in
  match targetChannels with
  | [] => inl (ErrNoChannel "no channel found")
  | _ => choose_weighted intn targetChannels
  end.

(** [normalize] is [ratio_setting.RoutingMatchModelName]. *)
Context (normalize : string -> string).

Definition candidates (cache : ChannelCache) (group model : string) (filters : list ChannelFilter) : list Z :=
  match (filterCandidateIDs cache (routed cache group model) model filters).1 with
  | [] => (filterCandidateIDs cache (routed cache group (normalize model)) model filters).1
  | ids => ids
  end.

(** With the memory cache; [retry] is never negative. *)
Definition GetRandomSatisfiedChannel (intn : Z -> Z) (cache : ChannelCache) (group model : string) (retry : Z)
    (filters : list ChannelFilter) : result (option Channel) :=
  match candidates cache group model filters with
  | [] => inr None
  | [id] => match channelsIDM cache !! id with Some c => inr (Some c) | None => inl ErrInconsistent end
  | ids =>
      match all_channels cache ids with
      | None => inl ErrInconsistent
      | Some channels => choose_by_priority intn retry channels
      end
  end.

Definition IsChannelEnabledForGroupModel (cache : ChannelCache) (group modelName : string) (channelID : Z) : bool :=
  if str_eqb group "" || str_eqb modelName "" || (channelID <=? 0) then false else
  List.existsb (Z.eqb channelID) (routed cache group modelName) ||
  let normalized := normalize modelName in
  negb (str_eqb normalized "") && negb (str_eqb normalized modelName) && List.existsb (Z.eqb channelID) (routed cache group normalized).
Definition IsChannelEnabledForAnyGroupModel (cache : ChannelCache) (groups : list string) (modelName : string) (channelID : Z) : bool :=
  List.existsb (fun g => IsChannelEnabledForGroupModel cache g modelName channelID) groups.

(** ** The choice from the abilities table *)

Definition identityFilterRequiresKey (filters : list ChannelFilter) : bool :=
  List.existsb (fun f => str_eqb (cf_Kind f) FilterTaskPluginIdentity && negb (str_eqb (cf_TaskPluginKey f) "")) filters.

Definition filterAbilitiesByConstraints (abilities : list Ability) (modelName : string) (filters : list ChannelFilter) :
  M (list Ability) :=
  match abilities with
  | [] => mret []
  | _ =>
      r ← attempt (find_all Channels (fun c => List.existsb (fun a => ab_channel_id a =? ch_id c) abilities));
      match r with
      | inl _ => mret (if identityFilterRequiresKey filters then [] else abilities)
      | inr channels =>
          mret (List.filter (fun a =>
            (ChannelSatisfiesFilters (List.find (fun c => ch_id c =? ab_channel_id a) channels) modelName filters).1) abilities)
      end
  end.

Definition ability_priority (a : Ability) : Z := default 0 (ab_priority a).
Definition ability_weight (a : Ability) : Z := i64 (i64 (ab_weight a) + 10).
Definition abilities_total (abilities : list Ability) : Z :=
  i64 (List.fold_left (fun s a => u64 (s + u64 (ab_weight a + 10))) abilities 0).

Fixpoint pick_ability (weight : Z) (l : list Ability) : option Ability :=
  match l with
  | [] => None
  | a :: rest =>
      let weight := i64 (weight - ability_weight a) in
      if weight <=? 0 then Some a else pick_ability weight rest
  end.

(** [ORDER BY priority DESC, weight DESC]. *)
Definition ability_before (a b : Ability) : bool :=
  (ability_priority b <? ability_priority a) ||
  (ability_priority a =? ability_priority b) && (ab_weight b <=? ab_weight a).
Fixpoint insert_ability (a : Ability) (l : list Ability) : list Ability :=
  match l with
  | [] => [a]
  | b :: rest => if ability_before a b then a :: l else b :: insert_ability a rest
  end.

Definition at_priority (abilities : list Ability) (retry : Z) : list Ability :=
  let targetPriority := priority_at (sorted_unique (List.map ability_priority abilities)) retry in
  List.filter (fun a => ability_priority a =? targetPriority) abilities.

Definition GetChannel (intn : Z -> Z) (group model : string) (retry : Z) (filters : list ChannelFilter) : M (option Channel) :=
  rows ← find_all Abilities (fun a => str_eqb (ab_group a) group && str_eqb (ab_model a) model && ab_enabled a);
  abilities ← filterAbilitiesByConstraints (List.fold_right insert_ability [] rows) model filters;
  match at_priority abilities retry with
  | [] => mret None
  | targets =>
      let total := abilities_total targets in
      if total <=? 0 then lift (panic "invalid argument to Intn") else
      let id := match pick_ability (intn total) targets with Some a => ab_channel_id a | None => 0 end in
      channel ← find_first Channels (fun c => ch_id c =? id);
      mret (Some channel)
  end.
End Filters.
