(* ===== verification/ChannelSelect.v ===== *)
(** * Disabling channels, and choosing them across retries ([src/model/channel.go], [src/service/channel_select.go], [src/controller/relay.go])

    [UpdateChannelStatus] changes a channel, or one of its keys, in the memory
    cache and in the database.  [relay_attempts] is the retry loop of [Relay]:
    the distributor chose the first channel, and every retry chooses again. *)

From stdpp Require Import base numbers option strings list gmap.
From Stdlib Require Import ZArith Lia.
From S2P Require Import Prelude Schema Store GoStrings Channels ChannelRouting.
Open Scope Z_scope.

(** ** Status changes *)

Section Status.
Context (parse_array : string -> option (list string)).

(** In the cache: [None] when the caller is to return false. *)
Definition update_cached_status (channelId : Z) (usingKey : string) (status : Z) (reason : string) (now : Z) (cache : ChannelCache) :
  option ChannelCache :=
  match channelsIDM cache !! channelId with
  | None => None
  | Some channelCache =>
      if ci_IsMultiKey (ch_channel_info channelCache) then
        let updated := handlerMultiKeyUpdate parse_array channelCache usingKey status reason now in
        let cache := cache <| channelsIDM ::= fun m : gmap Z Channel => <[channelId := updated]> m |> in
        Some (if ch_status channelCache =? ch_status updated then cache
              else CacheUpdateChannelStatus channelId (ch_status updated) cache)
      else if ch_status channelCache =? status then None
      else Some (CacheUpdateChannelStatus channelId status cache)
  end.

(** The channel as the database is to have it, and whether its status changed. *)
Definition with_status (channel : Channel) (usingKey : string) (status : Z) (reason : string) (now : Z) : Channel * bool :=
  if ci_IsMultiKey (ch_channel_info channel) then
    let updated := handlerMultiKeyUpdate parse_array channel usingKey status reason now in
    (updated, negb (ch_status channel =? ch_status updated))
  else (status_info reason now channel <| ch_status := status |>, true).

Definition saveStatusState (channel : Channel) : M unit :=
  if ch_id channel =? 0 then raise (EText "channel ID is 0") else
  update Channels (fun c => ch_id c =? ch_id channel) (fun c =>
    let c := (c <| ch_status := ch_status channel |>) <| ch_other_info := ch_other_info channel |> in
    if ci_IsMultiKey (ch_channel_info channel) then c <| ch_channel_info := ch_channel_info channel |> else c) ;;
  mret tt.

(** The abilities follow when the function returns, even if the save failed. *)
Definition update_stored_status (channelId : Z) (usingKey : string) (status : Z) (reason : string) : M bool :=
  r ← attempt (find_first Channels (fun c => ch_id c =? channelId));
  match r with
  | inl _ => mret false
  | inr channel =>
      if ch_status channel =? status then mret false else
      now ← GetTimestamp;
      let '(updated, shouldUpdateAbilities) := with_status channel usingKey status reason now in
      saved ← attempt (saveStatusState updated);
      attempt (if shouldUpdateAbilities then UpdateAbilityStatus channelId (status =? ChannelStatusEnabled) else mret tt) ;;
      mret (match saved with inl _ => false | inr _ => true end)
  end.

(** [None]: the memory cache is off. *)
Definition UpdateChannelStatus (cache : option ChannelCache) (channelId : Z) (usingKey : string) (status : Z) (reason : string) :
  M (bool * option ChannelCache) :=
  now ← GetTimestamp;
  match cache with
  | Some c =>
      match update_cached_status channelId usingKey status reason now c with
      | None => mret (false, cache)
      | Some c' => ok ← update_stored_status channelId usingKey status reason; mret (ok, Some c')
      end
  | None => ok ← update_stored_status channelId usingKey status reason; mret (ok, None)
  end.
End Status.

(** ** Retries ([RetryParam]) and the state a request keeps for its groups *)

Record RetryParam := mkRetryParam {
  rp_Retry : option Z;
  rp_resetNextTry : bool
}.
Definition GetRetry (p : RetryParam) : Z := default 0 (rp_Retry p).
Definition SetRetry (retry : Z) (p : RetryParam) : RetryParam := mkRetryParam (Some retry) (rp_resetNextTry p).
Definition ResetRetryNextTry (p : RetryParam) : RetryParam := mkRetryParam (rp_Retry p) true.
Definition IncreaseRetry (p : RetryParam) : RetryParam :=
  if rp_resetNextTry p then mkRetryParam (rp_Retry p) false
  else mkRetryParam (Some (i64 (GetRetry p + 1))) false.

(** [ContextKeyAutoGroupIndex] and [ContextKeyAutoGroup]. *)
Record GroupContext := mkGroupContext {
  gc_AutoGroupIndex : option nat;
  gc_AutoGroup : string
}.

Section Select.
Context (autoGroups : list string) (crossGroupRetry : bool) (RetryTimes : Z) (tokenGroup : string).

(** The loop over the automatic groups from [i] on; [pick] is
    [GetRandomSatisfiedChannel] for the request's model and filters. *)
Fixpoint select_auto (pick : string -> Z -> result (option Channel)) (start i : nat) (groups : list string)
    (p : RetryParam) (ctx : GroupContext) : option Channel * string * RetryParam * GroupContext :=
  match groups with
  | [] => (None, tokenGroup, p, ctx)
  | autoGroup :: rest =>
      let priorityRetry := if (start <? i)%nat then 0 else GetRetry p in
      match pick autoGroup priorityRetry with
      | inr (Some channel) =>
          if crossGroupRetry && (RetryTimes <=? priorityRetry)
          then (Some channel, autoGroup, ResetRetryNextTry (SetRetry 0 p), mkGroupContext (Some (S i)) autoGroup)
          else (Some channel, autoGroup, p, mkGroupContext (Some i) autoGroup)
      | _ => select_auto pick start (S i) rest (SetRetry 0 p) (mkGroupContext (Some (S i)) (gc_AutoGroup ctx))
      end
  end.

Definition CacheGetRandomSatisfiedChannel (pick : string -> Z -> result (option Channel)) (p : RetryParam) (ctx : GroupContext) :
  result (option Channel * string) * RetryParam * GroupContext :=
  if str_eqb tokenGroup "auto" then
    match autoGroups with
    | [] => (inl (EText "auto groups is not enabled"), p, ctx)
    | _ =>
        let start := default 0%nat (gc_AutoGroupIndex ctx) in
        let '(channel, group, p, ctx) := select_auto pick start start (skipn start autoGroups) p ctx in
        (inr (channel, group), p, ctx)
    end
  else match pick tokenGroup (GetRetry p) with
       | inl err => (inl err, p, ctx)
       | inr channel => (inr (channel, tokenGroup), p, ctx)
       end.

(** ** The retry loop of a relayed request

    [picks n] is the choice as the routing table stands at attempt [n], and
    [again n channel left] whether attempt [n] failed in a way that is retried.
    The answer is the channels that were tried. *)
Context (picks : nat -> string -> Z -> result (option Channel)) (again : nat -> Channel -> Z -> bool).

Fixpoint relay_attempts (fuel : nat) (n : nat) (first : option Channel) (p : RetryParam) (ctx : GroupContext) : option (list Channel) :=
  match fuel with
  | O => None
  | S fuel =>
      if RetryTimes <? GetRetry p then Some [] else
      let '(chosen, p, ctx) :=
        match first with
        | Some channel => (Some channel, p, ctx)
        | None =>
            let '(r, p, ctx) := CacheGetRandomSatisfiedChannel (picks n) p ctx in
            (match r with inr (Some channel, _) => Some channel | _ => None end, p, ctx)
        end in
      match chosen with
      | None => Some []
      | Some channel =>
          if again n channel (i64 (RetryTimes - GetRetry p))
          then cons channel <$> relay_attempts fuel (S n) None (IncreaseRetry p) ctx
          else Some [channel]
      end
  end.

(** The distributor chooses with a parameter of its own. *)
Definition relay_request (fuel : nat) : option (list Channel) :=
  let '(r, _, ctx) := CacheGetRandomSatisfiedChannel (picks 0) (mkRetryParam (Some 0) false) (mkGroupContext None "") in
  match r with
  | inr (Some channel, _) => relay_attempts fuel 0 (Some channel) (mkRetryParam (Some 0) false) ctx
  | _ => Some []
  end.
End Select.
