(* ===== verification/ChannelTheorems.v ===== *)
(** * Routing: what is chosen, how often, and for how long

    The routing table and the choice from it, the probabilities of the weighted
    choice, the order in which the keys of a channel are used, and the bound on
    the attempts of one request. *)

From stdpp Require Import base numbers option strings list gmap sorting.
From Stdlib Require Import ZArith Lia.
From S2P Require Import Prelude Schema Store GoStrings Channels ChannelRouting ChannelSelect.
Open Scope Z_scope.

(** ** The attempts of one request *)

Section Attempts.
Context (autoGroups : list string) (crossGroupRetry : bool) (RetryTimes : Z) (tokenGroup : string).
Context (HRT : 0 <= RetryTimes < 2 ^ 62).
Abbreviation G := (Z.of_nat (length autoGroups)).

(** What is left: the retries of the groups not yet given up. *)
Definition attempts_left (p : RetryParam) (ctx : GroupContext) : Z :=
  if str_eqb tokenGroup "auto"
  then (G - Z.of_nat (default 0%nat (gc_AutoGroupIndex ctx))) * (RetryTimes + 1) - GetRetry p
  else RetryTimes + 1 - GetRetry p.
Definition fresh (p : RetryParam) : Prop := rp_resetNextTry p = false /\ 0 <= GetRetry p.

(** A choice from group [i] on: afterwards the request stands at a group
    [i' < G], or has given that group up. *)
Lemma select_auto_spec pick start i groups p ctx c g p' ctx' :
  fresh p -> GetRetry p <= RetryTimes -> Z.of_nat i + Z.of_nat (length groups) = G -> (start <= i)%nat ->
  ((start < i)%nat -> GetRetry p = 0) ->
  select_auto crossGroupRetry RetryTimes tokenGroup pick start i groups p ctx = (Some c, g, p', ctx') ->
  (GetRetry (IncreaseRetry p') <= GetRetry p + 1) /\ fresh (IncreaseRetry p') /\
  exists i', gc_AutoGroupIndex ctx' = Some i' /\
    (G - Z.of_nat i') * (RetryTimes + 1) - GetRetry (IncreaseRetry p') <= (G - Z.of_nat i) * (RetryTimes + 1) - GetRetry p - 1.
Proof.
  revert i p ctx. induction groups as [|group groups IH]; intros i p ctx [Hf Hr] Hmax Hlen Hle Hzero; [done|]. cbn [select_auto].
  set (prio := if (start <? i)%nat then 0 else GetRetry p).
  assert (prio = GetRetry p) as Hprio.
  { unfold prio. destruct (Nat.ltb_spec start i); [by rewrite Hzero | done]. }
  assert (forall c0, (Some c0, group, p, mkGroupContext (Some i) group) = (Some c, g, p', ctx') ->
    GetRetry (IncreaseRetry p') <= GetRetry p + 1 /\ fresh (IncreaseRetry p') /\
    exists i', gc_AutoGroupIndex ctx' = Some i' /\
      (G - Z.of_nat i') * (RetryTimes + 1) - GetRetry (IncreaseRetry p') <= (G - Z.of_nat i) * (RetryTimes + 1) - GetRetry p - 1) as Hstay.
  { intros c0 [= _ _ <- <-]. unfold IncreaseRetry, fresh. rewrite Hf. cbn. rewrite i64_small by (unfold in_i64, min_int64, max_int64; lia).
    split_and!; [done | done | lia|]. exists i. split; [done|]. cbn. lia. }
  destruct (pick group prio) as [err|[c0|]].
  - intros H. eapply IH in H; [|split; [done|] | | cbn in Hlen; lia | lia | ]; cbn in *; try lia.
    destruct H as (Hinc & ? & i' & ? & H). change (GetRetry (SetRetry 0 p)) with 0 in *. split_and!; [lia | done|]. exists i'. split; [done|]. nia.
  - destruct (crossGroupRetry && (RetryTimes <=? prio)) eqn:E; [|apply Hstay].
    intros [= _ _ <- <-]. apply andb_prop in E as [_ E]. apply Z.leb_le in E.
    unfold IncreaseRetry, fresh, GetRetry in *. cbn. split_and!; [lia | done | lia|]. exists (S i). split; [done|].
    unfold GetRetry in *. nia.
  - intros H. eapply IH in H; [|split; [done|] | | cbn in Hlen; lia | lia | ]; cbn in *; try lia.
    destruct H as (Hinc & ? & i' & ? & H). change (GetRetry (SetRetry 0 p)) with 0 in *. split_and!; [lia | done|]. exists i'. split; [done|]. nia.
Qed.

Lemma choose_spec pick p ctx c g p' ctx' :
  fresh p -> GetRetry p <= RetryTimes ->
  CacheGetRandomSatisfiedChannel autoGroups crossGroupRetry RetryTimes tokenGroup pick p ctx = (inr (Some c, g), p', ctx') ->
  fresh (IncreaseRetry p') /\ attempts_left (IncreaseRetry p') ctx' <= attempts_left p ctx - 1 /\
  0 <= attempts_left p ctx - 1 /\ GetRetry (IncreaseRetry p') <= GetRetry p + 1.
Proof.
  intros [Hf Hr] Hmax. unfold CacheGetRandomSatisfiedChannel, attempts_left. destruct (str_eqb tokenGroup "auto").
  - destruct autoGroups as [|g0 groups0] eqn:Eg; [done|]. rewrite <- Eg in *.
    set (i := default 0%nat (gc_AutoGroupIndex ctx)) in *.
    destruct (select_auto _ _ _ pick i i (skipn i autoGroups) p ctx) as [[[ch gr] p1] ctx1] eqn:E. intros [= -> -> -> ->].
    assert (i < length autoGroups)%nat as Hlt.
    { destruct (Nat.lt_ge_cases i (length autoGroups)); [done|]. by rewrite skipn_all2 in E. }
    destruct (select_auto_spec pick i i (skipn i autoGroups) p ctx c g p' ctx') as (Hinc & Hfr & i' & Hi' & Hm); try done; [|lia|].
    { rewrite length_skipn. lia. }
    rewrite Hi'. cbn. split_and!; [done | done | nia | done].
  - destruct (pick tokenGroup (GetRetry p)) as [err|ch]; [done|]. intros [= -> -> -> ->].
    unfold fresh, IncreaseRetry, GetRetry in *. rewrite Hf. cbn. rewrite i64_small by (unfold in_i64, min_int64, max_int64; lia).
    split_and!; [done | lia | lia | lia | lia].
Qed.

Context (picks : nat -> string -> Z -> result (option Channel)) (again : nat -> Channel -> Z -> bool).
Abbreviation attempts := (relay_attempts autoGroups crossGroupRetry RetryTimes tokenGroup picks again).

Lemma attempts_bounded fuel n p ctx :
  fresh p -> Z.max 0 (attempts_left p ctx) < Z.of_nat fuel ->
  exists l, attempts fuel n None p ctx = Some l /\ Z.of_nat (length l) <= Z.max 0 (attempts_left p ctx).
Proof.
  revert n p ctx. induction fuel as [|fuel IH]; intros n p ctx Hfr Hfuel; [lia|]. cbn [relay_attempts].
  destruct (Z.ltb_spec RetryTimes (GetRetry p)) as [|Hle]; [exists []; split; [done | cbn; lia]|].
  destruct (CacheGetRandomSatisfiedChannel _ _ _ _ (picks n) p ctx) as [[r p'] ctx'] eqn:E.
  destruct r as [err|[[c|] g]]; [exists []; split; [done | cbn; lia] | | exists []; split; [done | cbn; lia]].
  destruct (choose_spec (picks n) p ctx c g p' ctx' Hfr Hle E) as (Hfr' & Hless & Hpos & _).
  destruct (again n c _).
  - destruct (IH (S n) (IncreaseRetry p') ctx' Hfr') as (l & -> & Hl); [lia|]. exists (c :: l). split; [done|]. cbn. lia.
  - exists [c]. split; [done | cbn; lia].
Qed.
End Attempts.

(** C30. Retrying ends: whatever the routing table answers at each attempt, and
    however the attempts fail, the loop of a relayed request ends and tries at
    most (RetryTimes + 1) channels for each automatic group of its token - or,
    without automatic groups, RetryTimes + 1 channels. *)
Theorem relay_retries_bounded autoGroups crossGroupRetry RetryTimes tokenGroup picks again :
  0 <= RetryTimes < 2 ^ 62 ->
  let bound := (RetryTimes + 1) * (if str_eqb tokenGroup "auto" then Z.of_nat (length autoGroups) else 1) in
  exists l, relay_request autoGroups crossGroupRetry RetryTimes tokenGroup picks again (S (Z.to_nat bound)) = Some l /\
    Z.of_nat (length l) <= bound.
Proof.
  intros HRT bound. assert (0 <= bound) as Hb by (unfold bound; destruct (str_eqb tokenGroup "auto"); lia).
  unfold relay_request. set (p0 := mkRetryParam (Some 0) false). set (ctx0 := mkGroupContext None "").
  assert (attempts_left autoGroups RetryTimes tokenGroup p0 ctx0 = bound) as Hleft.
  { unfold attempts_left, bound. destruct (str_eqb tokenGroup "auto"); cbn; lia. }
  destruct (CacheGetRandomSatisfiedChannel _ _ _ _ (picks 0%nat) p0 ctx0) as [[r p'] ctx] eqn:E.
  destruct r as [err|[[c|] g]]; [exists []; split; [done | cbn; lia] | | exists []; split; [done | cbn; lia]].
  destruct (choose_spec autoGroups crossGroupRetry RetryTimes tokenGroup HRT (picks 0%nat) p0 ctx0 c g p' ctx)
    as (_ & Hless & Hpos & Hinc); [done | cbn; lia | done|].
  cbn [relay_attempts]. rewrite (proj2 (Z.ltb_ge RetryTimes (GetRetry p0))) by (cbn; lia).
  destruct (again 0%nat c _); [|exists [c]; split; [done | cbn; lia]].
  assert (attempts_left autoGroups RetryTimes tokenGroup (IncreaseRetry p0) ctx <= bound - 1) as Hless'.
  { unfold attempts_left in *. change (GetRetry (IncreaseRetry p0)) with 1. change (GetRetry p0) with 0 in *.
    destruct (str_eqb tokenGroup "auto"); lia. }
  destruct (attempts_bounded autoGroups crossGroupRetry RetryTimes tokenGroup HRT picks again (Z.to_nat bound) 1 (IncreaseRetry p0) ctx)
    as (l & -> & Hl); [done | lia|].
  exists (c :: l). split; [done | cbn; lia].
Qed.
