(* ===== verification/ChannelChoice.v ===== *)
(** * How often each channel is chosen

    The weighted choice subtracts weights from a random draw until the draw is
    used up.  Counting the draws that lead to a channel gives its probability,
    for the routing table and for the choice from the abilities table. *)

From stdpp Require Import base numbers option strings list gmap.
From Stdlib Require Import ZArith Lia.
From S2P Require Import Prelude Schema Store GoStrings Channels ChannelRouting.
Open Scope Z_scope.

(** ** Counting draws *)

(** The number of draws in [0, n) that satisfy [f]. *)
Definition draws (f : Z -> bool) (n : Z) : Z := Z.of_nat (length (List.filter f (seqZ 0 n))).

Lemma filter_length_app {A} (f : A -> bool) l k :
  length (List.filter f (l ++ k)) = (length (List.filter f l) + length (List.filter f k))%nat.
Proof. by rewrite List.filter_app, length_app. Qed.

Lemma filter_all {A} (f : A -> bool) l : (forall x, x ∈ l -> f x = true) -> List.filter f l = l.
Proof.
  induction l as [|a l IH]; intros H; [done|]. cbn. rewrite (H a) by left. f_equal. apply IH. intros x Hx. apply H. by right.
Qed.
Lemma filter_none {A} (f : A -> bool) l : (forall x, x ∈ l -> f x = false) -> List.filter f l = [].
Proof.
  induction l as [|a l IH]; intros H; [done|]. cbn. rewrite (H a) by left. apply IH. intros x Hx. apply H. by right.
Qed.

(** An interval of draws has as many draws as it is long. *)
Lemma draws_interval f n a b :
  0 <= a <= b -> b <= n -> (forall r, 0 <= r < n -> f r = (a <=? r) && (r <? b)) -> draws f n = b - a.
Proof.
  intros Hab Hbn Hf. unfold draws.
  replace n with (a + ((b - a) + (n - b))) by lia. rewrite !seqZ_app by lia.
  rewrite !filter_length_app, (filter_none f (seqZ 0 a)), (filter_all f (seqZ (0 + a) _)), (filter_none f (seqZ (0 + a + (b - a)) _)).
  - rewrite length_seqZ. cbn. lia.
  - intros r Hr%elem_of_seqZ. rewrite Hf by lia. lia.
  - intros r Hr%elem_of_seqZ. rewrite Hf by lia. lia.
  - intros r Hr%elem_of_seqZ. rewrite Hf by lia. lia.
Qed.

(** ** Walking down a list of weights *)

Section Walk.
Context {A : Type} (w : A -> Z).

Fixpoint sum_of (l : list A) : Z := match l with [] => 0 | a :: rest => w a + sum_of rest end.

(** The first element at which the draw is used up. *)
Fixpoint first_below (r : Z) (l : list A) : option A :=
  match l with
  | [] => None
  | a :: rest => if r - w a <? 0 then Some a else first_below (r - w a) rest
  end.

Lemma sum_of_app l k : sum_of (l ++ k) = sum_of l + sum_of k.
Proof. induction l as [|a l IH]; cbn; [done|]. rewrite IH. lia. Qed.

Lemma sum_of_nonneg l : (forall a, a ∈ l -> 0 <= w a) -> 0 <= sum_of l.
Proof.
  induction l as [|a l IH]; intros H; cbn; [done|].
  pose proof (H a ltac:(left)). assert (0 <= sum_of l) by (apply IH; intros; apply H; by right). lia.
Qed.
Lemma sum_of_bounds B l : (forall a, a ∈ l -> 0 <= w a <= B) -> 0 <= sum_of l <= Z.of_nat (length l) * B.
Proof.
  induction l as [|a l IH]; intros H; [cbn; lia|].
  assert (0 <= w a <= B) by (apply H; left). assert (0 <= sum_of l <= Z.of_nat (length l) * B) by (apply IH; intros; apply H; by right).
  cbn [sum_of length]. lia.
Qed.

Lemma first_below_in r l a : first_below r l = Some a -> a ∈ l.
Proof.
  revert r. induction l as [|b l IH]; intros r; cbn; [done|]. destruct (r - w b <? 0).
  - intros [= ->]. left.
  - intros H%IH. by right.
Qed.

Lemma first_below_some r l : 0 <= r < sum_of l -> is_Some (first_below r l).
Proof.
  revert r. induction l as [|b l IH]; intros r Hr; cbn in *; [lia|].
  destruct (Z.ltb_spec (r - w b) 0); [done|]. apply IH. lia.
Qed.

Context (key : A -> Z).
Definition is_key (a : A) (o : option A) : bool := match o with Some b => key b =? key a | None => false end.

Lemma is_key_other a r l : key a ∉ key <$> l -> is_key a (first_below r l) = false.
Proof.
  intros Ha. destruct (first_below r l) as [b|] eqn:E; [|done]. cbn. apply Z.eqb_neq. intros Heq.
  apply Ha. rewrite <- Heq. apply list_elem_of_fmap_2. by eapply first_below_in.
Qed.

(** The draws of an element: the interval after the weights before it. *)
Lemma first_below_interval l1 a l2 r :
  NoDup (key <$> l1 ++ a :: l2) -> (forall b, b ∈ l1 -> 0 <= w b) -> 0 <= w a -> 0 <= r ->
  is_key a (first_below r (l1 ++ a :: l2)) = (sum_of l1 <=? r) && (r <? sum_of l1 + w a).
Proof.
  revert r. induction l1 as [|b l1 IH]; intros r HN Hl Ha Hr; cbn in *; apply NoDup_cons in HN as [Hnot HN].
  - destruct (Z.ltb_spec (r - w a) 0); cbn; [rewrite Z.eqb_refl; lia|]. rewrite is_key_other by done. lia.
  - assert (0 <= w b) by (apply Hl; left). assert (forall c, c ∈ l1 -> 0 <= w c) as Hl' by (intros; apply Hl; by right).
    pose proof (sum_of_nonneg l1 Hl').
    destruct (Z.ltb_spec (r - w b) 0); cbn.
    + replace (key b =? key a) with false; [lia|]. symmetry. apply Z.eqb_neq. intros Heq. apply Hnot.
      rewrite Heq, fmap_app. cbn. set_solver.
    + rewrite IH by (done || lia). lia.
Qed.
End Walk.

(** ** The choice from the routing table *)

(** Weights as an administrator sets them; [GetWeight] is an [int]. *)
Definition modest (l : list Channel) : Prop :=
  Z.of_nat (length l) < 2 ^ 20 /\ forall c, c ∈ l -> 0 <= GetWeight c < 2 ^ 32.

Lemma sum_weights_sum l : modest l -> sum_weights l = sum_of GetWeight l.
Proof.
  intros [Hlen Hw]. unfold sum_weights.
  cut (forall s, 0 <= s -> s + Z.of_nat (length l) * 2 ^ 32 < 2 ^ 62 ->
    List.fold_left (fun s c => i64 (s + GetWeight c)) l s = s + sum_of GetWeight l).
  { intros H. rewrite H; lia. }
  clear Hlen. induction l as [|c l IH]; intros s Hs Hb; cbn [List.fold_left sum_of]; [lia|].
  pose proof (Hw c ltac:(left)). cbn [length] in Hb.
  rewrite i64_small by (unfold in_i64, min_int64, max_int64; lia). rewrite IH; [lia | | lia | lia]. intros. apply Hw. by right.
Qed.

Lemma sum_weights_bounds l : modest l -> 0 <= sum_weights l <= Z.of_nat (length l) * 2 ^ 32.
Proof.
  intros Hm. rewrite sum_weights_sum by done. apply sum_of_bounds. intros c Hc. destruct Hm as [_ Hw]. specialize (Hw c Hc). lia.
Qed.

Lemma sum_of_scaled {A} (w : A -> Z) l f k : sum_of (fun a => w a * f + k) l = sum_of w l * f + Z.of_nat (length l) * k.
Proof. induction l as [|a l IH]; cbn [sum_of length]; [lia|]. rewrite IH. lia. Qed.
Lemma sum_of_ext {A} (w v : A -> Z) l : (forall a, a ∈ l -> w a = v a) -> sum_of w l = sum_of v l.
Proof.
  induction l as [|a l IH]; intros H; cbn; [done|]. rewrite (H a) by left. f_equal. apply IH. intros. apply H. by right.
Qed.

(** The weight each channel ends up with: 100 each when no weight is set. *)
Definition share (l : list Channel) (c : Channel) : Z :=
  if sum_of GetWeight l =? 0 then 100
  else if sum_of GetWeight l / Z.of_nat (length l) <? 10 then GetWeight c * 100 else GetWeight c.

Lemma weights_zero l c : (forall c, c ∈ l -> 0 <= GetWeight c) -> sum_of GetWeight l = 0 -> c ∈ l -> GetWeight c = 0.
Proof.
  intros Hw Hs Hc. induction l as [|b l IH]; [by apply elem_of_nil in Hc|]. cbn in Hs.
  pose proof (Hw b ltac:(left)). pose proof (sum_of_nonneg GetWeight l ltac:(intros; apply Hw; by right)).
  apply elem_of_cons in Hc as [->|Hc]; [lia|]. apply IH; [intros; apply Hw; by right | lia | done].
Qed.

Lemma effective_share l c : modest l -> c ∈ l -> effective_weight l c = share l c.
Proof.
  intros Hm Hc. pose proof (sum_weights_bounds l Hm) as Hb. unfold effective_weight, smoothing, share. rewrite <- sum_weights_sum by done.
  assert (0 <= GetWeight c < 2 ^ 32) by (destruct Hm as [_ Hw]; by apply Hw).
  destruct (Z.eqb_spec (sum_weights l) 0) as [E|E].
  - rewrite (weights_zero l c) by (done || (rewrite <- sum_weights_sum; done) || (intros d Hd; destruct Hm as [_ Hw]; by apply Hw)).
    reflexivity.
  - rewrite Z.quot_div_nonneg by (destruct l; cbn in *; lia).
    destruct (_ / _ <? 10); repeat rewrite i64_small by (repeat rewrite i64_small; unfold in_i64, min_int64, max_int64; lia); lia.
Qed.

Lemma share_bounds l c : modest l -> c ∈ l -> 0 <= share l c <= 2 ^ 40.
Proof.
  intros Hm Hc. assert (0 <= GetWeight c < 2 ^ 32) by (destruct Hm as [_ Hw]; by apply Hw).
  unfold share. destruct (_ =? 0); [lia|]. destruct (_ <? 10); lia.
Qed.

Lemma total_share l : modest l -> total_weight l = sum_of (share l) l.
Proof.
  intros Hm. pose proof (sum_weights_bounds l Hm) as Hb. unfold total_weight, smoothing, share. rewrite <- sum_weights_sum by done.
  assert (Z.of_nat (length l) < 2 ^ 20) by (by destruct Hm).
  destruct (Z.eqb_spec (sum_weights l) 0) as [E|E].
  - rewrite (sum_of_ext _ (fun c => GetWeight c * 0 + 100)) by (intros; lia). rewrite sum_of_scaled.
    repeat rewrite i64_small by (repeat rewrite i64_small; unfold in_i64, min_int64, max_int64; lia). lia.
  - rewrite Z.quot_div_nonneg by (destruct l; cbn in *; lia).
    destruct (_ / _ <? 10).
    + rewrite (sum_of_ext _ (fun c => GetWeight c * 100 + 0)) by (intros; lia). rewrite sum_of_scaled, <- sum_weights_sum by done.
      rewrite i64_small by (unfold in_i64, min_int64, max_int64; lia). lia.
    + rewrite <- sum_weights_sum by done. rewrite i64_small by (unfold in_i64, min_int64, max_int64; lia). lia.
Qed.

Lemma total_positive l : modest l -> l <> [] -> 0 < total_weight l < 2 ^ 62.
Proof.
  intros Hm Hne. pose proof (sum_weights_bounds l Hm) as Hb. assert (Z.of_nat (length l) < 2 ^ 20) by (by destruct Hm).
  assert (0 < Z.of_nat (length l)) by (destruct l; cbn in *; [done | lia]).
  unfold total_weight, smoothing. destruct (Z.eqb_spec (sum_weights l) 0) as [E|E];
    [|destruct (_ <? 10)]; repeat rewrite i64_small by (repeat rewrite i64_small; unfold in_i64, min_int64, max_int64; lia); lia.
Qed.

Lemma pick_below_first w l r :
  (forall c, c ∈ l -> 0 <= w c <= 2 ^ 40) -> 0 <= r < 2 ^ 62 -> pick_below w r l = first_below w r l.
Proof.
  revert r. induction l as [|c l IH]; intros r Hw Hr; cbn; [done|]. pose proof (Hw c ltac:(left)).
  rewrite i64_small by (unfold in_i64, min_int64, max_int64; lia).
  destruct (Z.ltb_spec (r - w c) 0); [done|]. apply IH; [intros; apply Hw; by right | lia].
Qed.

Lemma first_below_ext {A} (w v : A -> Z) l r : (forall a, a ∈ l -> w a = v a) -> first_below w r l = first_below v r l.
Proof.
  revert r. induction l as [|a l IH]; intros r H; cbn; [done|]. rewrite (H a) by left.
  destruct (_ <? 0); [done|]. apply IH. intros. apply H. by right.
Qed.

(** A choice is a walk down the shares, and always ends at a channel. *)
Lemma choose_weighted_walk intn l :
  modest l -> l <> [] -> 0 <= intn (total_weight l) < total_weight l ->
  choose_weighted intn l = inr (first_below (share l) (intn (total_weight l)) l) /\
  is_Some (first_below (share l) (intn (total_weight l)) l).
Proof.
  intros Hm Hne Hr. pose proof (total_positive l Hm Hne) as Ht. unfold choose_weighted.
  rewrite (proj2 (Z.leb_gt (total_weight l) 0)) by lia.
  rewrite pick_below_first; [| |lia].
  2:{ intros c Hc. rewrite effective_share by done. by apply share_bounds. }
  rewrite (first_below_ext _ (share l)) by (intros; by apply effective_share).
  assert (is_Some (first_below (share l) (intn (total_weight l)) l)) as Hs.
  { apply first_below_some. by rewrite <- total_share. }
  split; [|done]. by destruct Hs as [c ->].
Qed.

Lemma draws_ext f g n : (forall r, 0 <= r < n -> f r = g r) -> draws f n = draws g n.
Proof.
  intros H. unfold draws. do 2 f_equal. apply List.filter_ext_in. intros r Hr. apply list_elem_of_In, elem_of_seqZ in Hr. apply H. lia.
Qed.

(** The draws of an element of a walk. *)
Lemma draws_walk {A} (w : A -> Z) (key : A -> Z) l1 a l2 :
  NoDup (key <$> l1 ++ a :: l2) -> (forall b, b ∈ l1 ++ a :: l2 -> 0 <= w b) ->
  draws (fun r => is_key key a (first_below w r (l1 ++ a :: l2))) (sum_of w (l1 ++ a :: l2)) = w a.
Proof.
  intros HN Hw.
  pose proof (sum_of_nonneg w l1 ltac:(intros; apply Hw; set_solver)). pose proof (sum_of_nonneg w l2 ltac:(intros; apply Hw; set_solver)).
  pose proof (Hw a ltac:(set_solver)).
  rewrite (draws_interval _ _ (sum_of w l1) (sum_of w l1 + w a)); [lia | lia | rewrite sum_of_app; cbn; lia|].
  intros r [Hr _]. apply first_below_interval; [done | | done | done]. intros b Hb. apply Hw. set_solver.
Qed.

Definition chosen_by (l : list Channel) (c : Channel) (r : Z) : bool :=
  match choose_weighted (fun _ => r) l with inr o => is_key ch_id c o | inl _ => false end.

(** C28. The weighted choice is fair: every draw leads to one of the channels,
    and the number of draws that lead to a channel is to the number of draws as
    its weight is to the sum of the weights.  When no channel has a weight each
    of them gets 100 draws. *)
Theorem selection_proportional l c :
  modest l -> NoDup (ch_id <$> l) -> c ∈ l ->
  draws (chosen_by l c) (total_weight l) * sum_of GetWeight l = total_weight l * GetWeight c /\
  (sum_of GetWeight l = 0 -> draws (chosen_by l c) (total_weight l) = 100 /\ total_weight l = 100 * Z.of_nat (length l)) /\
  (forall r, 0 <= r < total_weight l -> exists b, b ∈ l /\ choose_weighted (fun _ => r) l = inr (Some b)).
Proof.
  intros Hm HN Hc. assert (l <> []) as Hne by (by intros ->; apply elem_of_nil in Hc).
  assert (draws (chosen_by l c) (total_weight l) = share l c) as ->.
  { rewrite (draws_ext _ (fun r => is_key ch_id c (first_below (share l) r l))).
    - rewrite total_share by done. apply list_elem_of_split in Hc as (l1 & l2 & Heq).
      set (w := share l) in *. assert (forall b, b ∈ l -> 0 <= w b) as Hw by (intros b Hb; apply (share_bounds l b); done).
      clearbody w. subst l. by apply draws_walk.
    - intros r Hr. unfold chosen_by. by destruct (choose_weighted_walk (fun _ => r) l Hm Hne Hr) as [-> _]. }
  split_and!.
  - rewrite total_share by done. unfold share. destruct (Z.eqb_spec (sum_of GetWeight l) 0) as [E|E].
    + rewrite (weights_zero l c) by (done || (intros d Hd; destruct Hm as [_ Hw]; by apply Hw)). lia.
    + destruct (_ <? 10); [|change (sum_of (fun c => GetWeight c) l) with (sum_of GetWeight l); lia].
      rewrite (sum_of_ext (fun c => GetWeight c * 100) (fun c => GetWeight c * 100 + 0)) by (intros; lia). rewrite sum_of_scaled. lia.
  - intros E. rewrite total_share by done. unfold share. rewrite E. cbn.
    rewrite (sum_of_ext _ (fun c => GetWeight c * 0 + 100)) by (intros; lia). rewrite sum_of_scaled. lia.
  - intros r Hr. destruct (choose_weighted_walk (fun _ => r) l Hm Hne Hr) as [-> [b Hb]]. exists b. rewrite Hb.
    split; [by eapply first_below_in | done].
Qed.

(** ** The choice from the abilities table *)

Definition modest_abilities (l : list Ability) : Prop :=
  Z.of_nat (length l) < 2 ^ 20 /\ forall a, a ∈ l -> 0 <= ab_weight a < 2 ^ 32.
Definition ability_share (a : Ability) : Z := ab_weight a + 10.

Lemma ability_weight_share a : 0 <= ab_weight a < 2 ^ 32 -> ability_weight a = ability_share a.
Proof.
  intros H. unfold ability_weight, ability_share. by repeat rewrite i64_small by (repeat rewrite i64_small; unfold in_i64, min_int64, max_int64; lia).
Qed.

Lemma abilities_total_share l : modest_abilities l -> abilities_total l = sum_of ability_share l.
Proof.
  intros [Hlen Hw]. unfold abilities_total.
  cut (forall s, 0 <= s -> s + Z.of_nat (length l) * (2 ^ 32 + 10) < 2 ^ 62 ->
    List.fold_left (fun s a => u64 (s + u64 (ab_weight a + 10))) l s = s + sum_of ability_share l /\ 0 <= sum_of ability_share l <= Z.of_nat (length l) * (2 ^ 32 + 10)).
  { intros H. destruct (H 0) as [-> ?]; [lia | lia|]. apply i64_small. unfold in_i64, min_int64, max_int64. lia. }
  clear Hlen. induction l as [|a l IH]; intros s Hs Hb; cbn [List.fold_left sum_of length] in *; [lia|].
  pose proof (Hw a ltac:(left)). unfold ability_share at 1 3. unfold u64 in *. rewrite !Z.mod_small by (repeat rewrite Z.mod_small; lia).
  destruct (IH ltac:(intros; apply Hw; by right) (s + (ab_weight a + 10))) as [-> ?]; [lia | lia|]. unfold ability_share in *. lia.
Qed.

(** The walk stops one draw early. *)
Lemma pick_ability_walk l r :
  (forall a, a ∈ l -> 0 <= ab_weight a < 2 ^ 32) -> 0 <= r < 2 ^ 62 -> pick_ability r l = first_below ability_share (r - 1) l.
Proof.
  revert r. induction l as [|a l IH]; intros r Hw Hr; cbn; [done|]. pose proof (Hw a ltac:(left)).
  rewrite ability_weight_share by done. assert (10 <= ability_share a <= 2 ^ 32 + 10) as Ha by (unfold ability_share; lia).
  rewrite i64_small by (unfold in_i64, min_int64, max_int64; lia).
  replace (r - 1 - ability_share a <? 0) with (r - ability_share a <=? 0) by lia.
  destruct (Z.leb_spec (r - ability_share a) 0); [done|].
  rewrite IH; [f_equal; lia | intros; apply Hw; by right | lia].
Qed.

Definition ability_chosen (l : list Ability) (a : Ability) (r : Z) : bool :=
  is_key ab_channel_id a (pick_ability r l).

Definition is_nil {A} (l : list A) : bool := match l with [] => true | _ => false end.

Lemma first_draw (w key : Ability -> Z) l1 a l2 :
  NoDup (key <$> l1 ++ a :: l2) -> (forall b, b ∈ l1 ++ a :: l2 -> 0 <= w b) ->
  is_key key a (first_below w (-1) (l1 ++ a :: l2)) = is_nil l1.
Proof.
  intros HN Hw. destruct l1 as [|b l1]; cbn in *.
  - pose proof (Hw a ltac:(left)). rewrite (proj2 (Z.ltb_lt _ 0)) by lia. cbn. apply Z.eqb_refl.
  - pose proof (Hw b ltac:(left)). rewrite (proj2 (Z.ltb_lt _ 0)) by lia. cbn. apply Z.eqb_neq. intros Heq.
    apply NoDup_cons in HN as [Hnot _]. apply Hnot. rewrite Heq, fmap_app. apply elem_of_app. right. left.
Qed.

(** The choice from the abilities table is not fair: each channel is due one
    draw for each unit of its weight and ten more, but the draw is compared with
    zero once it is used up, not once it is exceeded, so the first of several
    channels gets one draw too many and the last one too few. *)
Theorem ability_choice_biased l1 a l2 :
  modest_abilities (l1 ++ a :: l2) -> NoDup (ab_channel_id <$> l1 ++ a :: l2) ->
  abilities_total (l1 ++ a :: l2) = sum_of ability_share (l1 ++ a :: l2) /\
  draws (ability_chosen (l1 ++ a :: l2) a) (abilities_total (l1 ++ a :: l2)) =
    ability_share a + (if is_nil l1 then 1 else 0) - (if is_nil l2 then 1 else 0).
Proof.
  intros Hm HN. split; [by apply abilities_total_share|]. rewrite abilities_total_share by done. destruct Hm as [Hlen Hw].
  assert (forall b, b ∈ l1 ++ a :: l2 -> 10 <= ability_share b <= 2 ^ 32 + 10) as Hs.
  { intros b Hb. pose proof (Hw b Hb). unfold ability_share. lia. }
  assert (forall b, b ∈ l1 ++ a :: l2 -> 0 <= ability_share b) as Hpos by (intros b Hb; pose proof (Hs b Hb); lia).
  pose proof (sum_of_bounds ability_share (2 ^ 32 + 10) (l1 ++ a :: l2) ltac:(intros b Hb; pose proof (Hs b Hb); lia)) as Htot.
  pose proof (sum_of_nonneg ability_share l1 ltac:(intros b Hb; apply Hpos, elem_of_app; by left)) as H1.
  assert ((if is_nil l1 then sum_of ability_share l1 = 0 else True) /\ if is_nil l2 then sum_of ability_share l2 = 0 else 10 <= sum_of ability_share l2) as [Hn1 H2].
  { split; [by destruct l1|]. destruct l2 as [|b l2]; [done|]. cbn [is_nil sum_of].
    pose proof (Hs b ltac:(apply elem_of_app; right; right; left)).
    pose proof (sum_of_nonneg ability_share l2 ltac:(intros c Hc; apply Hpos, elem_of_app; right; right; by right)). lia. }
  pose proof (Hs a ltac:(apply elem_of_app; right; left)) as Ha.
  rewrite (draws_interval _ _ (if is_nil l1 then 0 else sum_of ability_share l1 + 1)
    (sum_of ability_share l1 + ability_share a + if is_nil l2 then 0 else 1)).
  - destruct (is_nil l1), (is_nil l2); lia.
  - destruct (is_nil l1), (is_nil l2); lia.
  - rewrite sum_of_app. cbn [sum_of]. destruct (is_nil l2); lia.
  - intros r Hr. unfold ability_chosen. rewrite pick_ability_walk by (done || lia). rewrite sum_of_app in Hr. cbn [sum_of] in Hr.
    destruct (Z.eq_dec r 0) as [->|].
    + rewrite first_draw by done. destruct (is_nil l1), (is_nil l2); lia.
    + rewrite first_below_interval; [|done | intros b Hb; apply Hpos, elem_of_app; by left | lia | lia].
      destruct (is_nil l1), (is_nil l2); lia.
Qed.
