(* ===== verification/ChannelKeys.v ===== *)
(** * The keys of a channel

    The order in which polling uses the keys of a channel, and when the status
    of a key is the status of its channel. *)

From stdpp Require Import base numbers option strings list gmap.
From Stdlib Require Import ZArith Lia.
From S2P Require Import Prelude Schema Store GoStrings Channels.
Open Scope Z_scope.

(** ** Going round the keys *)

(** The indexes in the order in which a poll from [s] looks at them. *)
Definition order (n s : Z) : list Z := (fun i => i mod n) <$> seqZ s n.

Lemma order_mod n s : 0 < n -> order n (s mod n) = order n s.
Proof.
  intros Hn. unfold order, seqZ. rewrite <- !list_fmap_compose. apply list_fmap_ext. intros _ i _. cbn.
  by rewrite Z.add_mod_idemp_r by lia.
Qed.

(** Starting later rotates the order. *)
Lemma order_rotate n s j : 0 <= j <= n -> 0 < n ->
  order n (s + j) = drop (Z.to_nat j) (order n s) ++ take (Z.to_nat j) (order n s).
Proof.
  intros Hj Hn. unfold order. rewrite <- fmap_drop, <- fmap_take.
  assert (seqZ s n = seqZ s j ++ seqZ (s + j) (n - j)) as Hs by (rewrite <- seqZ_app by lia; f_equal; lia).
  assert (seqZ (s + j) n = seqZ (s + j) (n - j) ++ seqZ (s + n) j) as Hr.
  { replace (s + n) with (s + j + (n - j)) by lia. rewrite <- seqZ_app by lia. f_equal. lia. }
  rewrite Hs, Hr, drop_app_length', take_app_length', fmap_app by (symmetry; apply length_seqZ). f_equal.
  unfold seqZ. rewrite <- !list_fmap_compose. apply list_fmap_ext. intros _ i _. cbn.
  replace (Z.of_nat i + (s + n)) with (Z.of_nat i + s + 1 * n) by lia. by rewrite Z_mod_plus_full.
Qed.

Lemma order_length n s : length (order n s) = Z.to_nat n.
Proof. unfold order. by rewrite length_fmap, length_seqZ. Qed.

Lemma order_perm n s : 0 <= s < n -> order n s ≡ₚ seqZ 0 n.
Proof.
  intros Hs. replace s with (0 + s) by lia. rewrite order_rotate by lia.
  rewrite (Permutation_app_comm (drop _ _)), take_drop. unfold order.
  rewrite <- (list_fmap_id (seqZ 0 n)) at 2. erewrite list_fmap_ext; [reflexivity|].
  intros k i Hi. apply list_elem_of_lookup_2, elem_of_seqZ in Hi. cbn. apply Z.mod_small. lia.
Qed.

(** After looking as far as [x] the next poll starts behind it. *)
Lemma order_next n s l1 x l2 : 0 < n -> order n s = l1 ++ x :: l2 -> order n ((x + 1) mod n) = l2 ++ l1 ++ [x].
Proof.
  intros Hn H. set (j := Z.of_nat (length l1)).
  assert (j + 1 <= n) as Hj.
  { pose proof (order_length n s) as Hlen. rewrite H, length_app in Hlen. cbn in Hlen. lia. }
  assert (x = (s + j) mod n) as ->.
  { assert (order n s !! length l1 = Some x) as Hx by (rewrite H; by apply list_lookup_middle).
    unfold order in Hx. rewrite list_lookup_fmap in Hx. apply fmap_Some in Hx as (i & Hi & ->).
    apply lookup_seqZ in Hi as [-> _]. done. }
  rewrite Z.add_mod_idemp_l by lia. rewrite order_mod by done. replace (s + j + 1) with (s + (j + 1)) by lia.
  rewrite order_rotate by lia. rewrite H. replace (Z.to_nat (j + 1)) with (S (length l1)) by lia.
  rewrite (cons_middle _ l1 l2), app_assoc. rewrite drop_app_length', take_app_length' by (rewrite length_app; cbn; lia). done.
Qed.

Lemma filter_head {A} (f : A -> bool) l x q :
  List.filter f l = x :: q -> exists l1 l2, l = l1 ++ x :: l2 /\ List.filter f l1 = [] /\ List.filter f l2 = q /\ f x = true.
Proof.
  induction l as [|a l IH]; cbn; [done|]. destruct (f a) eqn:E.
  - intros [= -> <-]. by exists [], l.
  - intros (l1 & l2 & -> & H1 & H2 & Hx)%IH. exists (a :: l1), l2. cbn. by rewrite E.
Qed.

Section Polling.
Context (parse_array : string -> option (list string)).

(** The enabled indexes in the order of a poll from [s]. *)
Definition waiting (statusList : gmap Z Z) (n s : Z) : list Z := List.filter (key_enabled statusList) (order n s).

Lemma poll_keys_head n statusList s i fuel :
  poll_keys n statusList s i fuel = head (List.filter (key_enabled statusList) ((fun i => i mod n) <$> seqZ (s + i) (Z.of_nat fuel))).
Proof.
  revert i. induction fuel as [|fuel IH]; intros i; [done|]. rewrite seqZ_cons by lia. cbn.
  destruct (key_enabled _ _); [done|]. rewrite IH. do 4 f_equal; lia.
Qed.

(** One poll takes the head of the queue and puts it at its end. *)
Lemma waiting_next statusList n s x q :
  0 < n -> waiting statusList n s = x :: q -> waiting statusList n ((x + 1) mod n) = q ++ [x].
Proof.
  intros Hn (l1 & l2 & Heq & H1 & H2 & Hx)%filter_head. unfold waiting. rewrite (order_next n s l1 x l2) by done.
  rewrite !List.filter_app, H1, H2. cbn. by rewrite Hx.
Qed.
(** A channel in polling mode whose next poll starts at [s]. *)
Definition polling (keys : list string) (statusList : gmap Z Z) (s : Z) (ch : Channel) : Prop :=
  let info := ch_channel_info ch in
  ci_IsMultiKey info = true /\ ci_MultiKeyMode info = MultiKeyModePolling /\ GetKeys parse_array ch = keys /\
  ci_MultiKeyStatusList info = statusList /\ poll_start (Z.of_nat (length keys)) (ci_MultiKeyPollingIndex info) = s.

(** [k] requests in a row, each with the index its predecessor left. *)
Definition poll (ch : Channel) : result (string * Z * Channel) :=
  GetNextEnabledKey parse_array ch (inr (ci_MultiKeyPollingIndex (ch_channel_info ch))) 0.
Fixpoint polls (k : nat) (ch : Channel) : list (string * Z) :=
  match k with
  | O => []
  | S k => match poll ch with inr (key, idx, ch') => (key, idx) :: polls k ch' | inl _ => [] end
  end.

Definition enabled_keys (keys : list string) (statusList : gmap Z Z) : list (string * Z) :=
  List.map (fun i => (key_at keys i, i)) (List.filter (key_enabled statusList) (indexes keys)).

Lemma poll_start_range n i : 0 < n -> 0 <= poll_start n i < n.
Proof. intros Hn. unfold poll_start. destruct (Z.ltb_spec i 0), (Z.leb_spec n i); cbn; lia. Qed.
Lemma poll_start_id n i : 0 <= i < n -> poll_start n i = i.
Proof. intros Hn. unfold poll_start. destruct (Z.ltb_spec i 0), (Z.leb_spec n i); cbn; lia. Qed.

Lemma indexes_seqZ keys : indexes keys = seqZ 0 (Z.of_nat (length keys)).
Proof.
  unfold indexes, seqZ. rewrite Nat2Z.id. change (@List.map nat Z) with (@fmap list list_fmap nat Z). apply list_fmap_ext. intros. lia.
Qed.

Lemma filter_perm {A} (f : A -> bool) l k : l ≡ₚ k -> List.filter f l ≡ₚ List.filter f k.
Proof.
  induction 1 as [|x l k H IH|x y l|l k m H1 IH1 H2 IH2]; cbn; [done | by destruct (f x); [constructor|] | | by etrans].
  destruct (f x), (f y); by constructor || done.
Qed.

Lemma waiting_perm statusList keys s : 0 <= s < Z.of_nat (length keys) ->
  waiting statusList (Z.of_nat (length keys)) s ≡ₚ List.filter (key_enabled statusList) (indexes keys).
Proof. intros Hs. rewrite indexes_seqZ. by apply filter_perm, order_perm. Qed.

Lemma poll_step keys statusList s ch x q :
  polling keys statusList s ch -> waiting statusList (Z.of_nat (length keys)) s = x :: q ->
  exists ch', poll ch = inr (key_at keys x, x, ch') /\
    polling keys statusList ((x + 1) mod Z.of_nat (length keys)) ch' /\
    waiting statusList (Z.of_nat (length keys)) ((x + 1) mod Z.of_nat (length keys)) = q ++ [x].
Proof.
  intros (Hm & Hmode & Hkeys & Hst & Hs) Hq.
  destruct keys as [|k0 keys0] eqn:Ek; [by unfold waiting, order in Hq|]. rewrite <- Ek in *.
  assert (0 < Z.of_nat (length keys)) as Hn by (subst keys; cbn; lia).
  pose proof (poll_start_range _ (ci_MultiKeyPollingIndex (ch_channel_info ch)) Hn) as Hrange. rewrite Hs in Hrange.
  pose proof (waiting_perm statusList keys s Hrange) as Hperm. rewrite Hq in Hperm.
  destruct (List.filter (key_enabled statusList) (indexes keys)) as [|first rest] eqn:Ef; [by apply Permutation_nil_r in Hperm|].
  pose proof (Z.mod_pos_bound (x + 1) _ Hn) as Hmod.
  eexists. split; [|split].
  - unfold poll, GetNextEnabledKey. rewrite Hm, Hkeys, Hst, Hmode, Ef, Hs. cbn [negb]. rewrite Ek at 1.
    replace (str_eqb MultiKeyModePolling MultiKeyModeRandom) with false by reflexivity. rewrite str_eqb_refl.
    rewrite poll_keys_head, Z.add_0_r. fold (order (Z.of_nat (length keys)) s). fold (waiting statusList (Z.of_nat (length keys)) s).
    by rewrite Hq.
  - unfold polling. cbn. split_and!; [done | done | done | done | by apply poll_start_id].
  - by apply (waiting_next _ _ s).
Qed.

Lemma polls_queue keys statusList q1 q2 r s ch :
  polling keys statusList s ch -> waiting statusList (Z.of_nat (length keys)) s = q1 ++ q2 ->
  exists s' ch', polls (length q1 + r) ch = List.map (fun i => (key_at keys i, i)) q1 ++ polls r ch' /\
    polling keys statusList s' ch' /\ waiting statusList (Z.of_nat (length keys)) s' = q2 ++ q1.
Proof.
  revert q2 s ch. induction q1 as [|x q1 IH]; intros q2 s ch Hp Hq; [exists s, ch; by rewrite app_nil_r|].
  destruct (poll_step _ _ _ _ _ _ Hp Hq) as (ch1 & Hpoll & Hp1 & Hq1). rewrite <- app_assoc in Hq1.
  destruct (IH _ _ _ Hp1 Hq1) as (s' & ch' & Hrest & Hp' & Hq'). exists s', ch'.
  cbn [polls length Nat.add List.map]. rewrite Hpoll, Hrest, Hq', <- app_assoc. by split_and!.
Qed.

(** C29. Polling goes round: requests that follow each other use the enabled keys
    of the channel in one fixed order, each exactly once in every round,
    wherever the saved index points. *)
Theorem polling_round_robin ch keys statusList :
  ci_IsMultiKey (ch_channel_info ch) = true -> ci_MultiKeyMode (ch_channel_info ch) = MultiKeyModePolling ->
  GetKeys parse_array ch = keys -> ci_MultiKeyStatusList (ch_channel_info ch) = statusList ->
  exists round, round ≡ₚ enabled_keys keys statusList /\
    forall m, polls (m * length round) ch = List.concat (replicate m round).
Proof.
  intros Hm Hmode Hkeys Hst. destruct (decide (keys = [])) as [->|Hne].
  { exists []. split; [done|]. intros m. rewrite Nat.mul_0_r. by induction m. }
  set (n := Z.of_nat (length keys)). set (s := poll_start n (ci_MultiKeyPollingIndex (ch_channel_info ch))).
  assert (0 <= s < n) as Hs by (apply poll_start_range; unfold n; destruct keys; [done | cbn; lia]).
  exists (List.map (fun i => (key_at keys i, i)) (waiting statusList n s)). split.
  { apply Permutation_map. by apply waiting_perm. }
  assert (polling keys statusList s ch) as Hp by by split_and!.
  assert (exists q, waiting statusList n s = q) as [q Hq] by eauto. rewrite Hq. clearbody s. clear Hm Hmode Hkeys Hst Hs.
  intros m. revert ch s Hp Hq. induction m as [|m IH]; intros ch s Hp Hq; [done|].
  destruct (polls_queue keys statusList q [] (m * length q) s ch Hp) as (s' & ch' & Hpolls & Hp' & Hq'); [by rewrite app_nil_r|].
  rewrite length_map in *. cbn [Nat.mul replicate List.concat]. rewrite Hpolls. f_equal.
  exact (IH ch' s' Hp' Hq').
Qed.
End Polling.

(** ** Disabling a key *)

Section Disabling.
Context (parse_array : string -> option (list string)).

Definition enabled_indexes (keys : list string) (statusList : gmap Z Z) : list Z :=
  List.filter (key_enabled statusList) (indexes keys).

Lemma nth_in {A} (l : list A) n d : In d l -> In (nth n l d) l.
Proof. intros Hd. by destruct (nth_in_or_default n l d) as [ | ->]. Qed.

(** Whatever the mode, the key that is used is an enabled one. *)
Lemma next_key_enabled ch index random :
  ci_IsMultiKey (ch_channel_info ch) = true ->
  let enabled := enabled_indexes (GetKeys parse_array ch) (ci_MultiKeyStatusList (ch_channel_info ch)) in
  match enabled with
  | [] => exists err, GetNextEnabledKey parse_array ch index random = inl err
  | _ => forall i, index = inr i -> exists idx ch', GetNextEnabledKey parse_array ch index random = inr (key_at (GetKeys parse_array ch) idx, idx, ch') /\ In idx enabled
  end.
Proof.
  intros Hm. cbn zeta. unfold GetNextEnabledKey, enabled_indexes. rewrite Hm. cbn [negb].
  destruct (GetKeys parse_array ch) as [|k0 keys0] eqn:Ek; [by eexists|]. rewrite <- Ek. clear Ek k0 keys0.
  set (keys := GetKeys parse_array ch). set (st := ci_MultiKeyStatusList (ch_channel_info ch)).
  destruct (List.filter (key_enabled st) (indexes keys)) as [|first rest] eqn:Ef; [by eexists|]. intros i ->.
  assert (In first (first :: rest)) as Hfirst by by left.
  destruct (str_eqb _ MultiKeyModeRandom); [|destruct (str_eqb _ MultiKeyModePolling)].
  - do 2 eexists. split; [reflexivity|]. by apply nth_in.
  - destruct (poll_keys _ st _ 0 _) as [idx|] eqn:Ep; [|do 2 eexists; split; [reflexivity | done]].
    do 2 eexists. split; [reflexivity|]. rewrite poll_keys_head in Ep. rewrite Z.add_0_r in Ep.
    fold (order (Z.of_nat (length keys)) (poll_start (Z.of_nat (length keys)) i)) in Ep.
    fold (waiting st (Z.of_nat (length keys)) (poll_start (Z.of_nat (length keys)) i)) in Ep.
    assert (0 < Z.of_nat (length keys)) as Hn by (destruct keys; [done | cbn; lia]).
    pose proof (waiting_perm st keys _ (poll_start_range _ i Hn)) as Hperm.
    apply head_Some_elem_of in Ep. rewrite Hperm, Ef in Ep. by apply list_elem_of_In.
  - do 2 eexists. split; [reflexivity | done].
Qed.

Lemma index_of_at key keys i : 0 <= i -> 0 <= index_of key keys i ->
  exists n, index_of key keys i = i + Z.of_nat n /\ keys !! n = Some key.
Proof.
  revert i. induction keys as [|k keys IH]; intros i Hi; cbn; [lia|].
  destruct (str_eqb k key) eqn:E; [apply str_eqb_true in E as ->; exists 0%nat; split; [lia | done]|].
  intros H. destruct (IH (i + 1) ltac:(lia) H) as (n & -> & Hn). exists (S n). split; [lia | done].
Qed.

Lemma index_of_in key keys i : key ∈ keys -> i <= index_of key keys i.
Proof.
  revert i. induction keys as [|k keys IH]; intros i Hin; [by apply elem_of_nil in Hin|]. cbn.
  destruct (str_eqb k key) eqn:E; [done|]. apply str_eqb_false in E. apply elem_of_cons in Hin as [->|Hin]; [done|].
  specialize (IH (i + 1) Hin). lia.
Qed.

Lemma enabled_in keys st idx : In idx (enabled_indexes keys st) ->
  exists n, idx = Z.of_nat n /\ (n < length keys)%nat /\ key_enabled st idx = true.
Proof.
  unfold enabled_indexes. intros [(n & <- & Hn)%in_map_iff He]%List.filter_In. apply in_seq in Hn. exists n. split_and!; [done | lia | done].
Qed.

Lemma key_at_lookup keys n : (n < length keys)%nat -> keys !! n = Some (key_at keys (Z.of_nat n)).
Proof. intros Hn. unfold key_at. rewrite Nat2Z.id. by destruct (nth_lookup_or_length keys n EmptyString) as [|]; [|lia]. Qed.

Lemma no_enabled keys st : hasEnabledMultiKey keys st = negb (match enabled_indexes keys st with [] => true | _ => false end).
Proof. unfold hasEnabledMultiKey, enabled_indexes. induction (indexes keys) as [|i l IH]; cbn; [done|]. by destruct (key_enabled st i). Qed.

Lemma disable_key ch usingKey status reason now n :
  index_of usingKey (GetKeys parse_array ch) 0 = Z.of_nat n -> status <> ChannelStatusEnabled -> usingKey ∈ GetKeys parse_array ch ->
  let ch1 := ch <| ch_channel_info ::= set_key_status (Z.of_nat n) status reason now |> in
  handlerMultiKeyUpdate parse_array ch usingKey status reason now =
    if negb (hasEnabledMultiKey (GetKeys parse_array ch) (ci_MultiKeyStatusList (ch_channel_info ch1)))
    then status_info "All keys are disabled" now (ch1 <| ch_status := ChannelStatusAutoDisabled |>) else ch1.
Proof.
  intros Hn Hs Hin. cbn zeta. unfold handlerMultiKeyUpdate. rewrite Hn, (proj2 (Z.ltb_ge _ _)), (proj2 (Z.eqb_neq _ _) Hs) by lia.
  destruct (GetKeys parse_array ch); [by apply elem_of_nil in Hin | done].
Qed.

(** Disabling one key of a channel: afterwards either no key is left, the
    channel itself is disabled and asking for a key fails; or the channel keeps
    its status and every further request gets a key, in any mode, which is
    another one.  (The keys of the channel are distinct.) *)
Theorem disabled_key_unused ch usingKey status reason now :
  ci_IsMultiKey (ch_channel_info ch) = true -> status <> ChannelStatusEnabled ->
  NoDup (GetKeys parse_array ch) -> usingKey ∈ GetKeys parse_array ch ->
  let ch' := handlerMultiKeyUpdate parse_array ch usingKey status reason now in
  (ch_status ch' = ChannelStatusAutoDisabled /\ forall index random, exists err, GetNextEnabledKey parse_array ch' index random = inl err) \/
  (ch_status ch' = ch_status ch /\ forall i random, exists key idx ch'',
     GetNextEnabledKey parse_array ch' (inr i) random = inr (key, idx, ch'') /\ key ∈ GetKeys parse_array ch /\ key <> usingKey).
Proof.
  intros Hm Hstatus HN Hin. cbn zeta. set (keys := GetKeys parse_array ch) in *. set (st := ci_MultiKeyStatusList (ch_channel_info ch)).
  destruct (index_of_at usingKey keys 0 ltac:(lia) (index_of_in _ _ _ Hin)) as (n & Hn & Hkey). cbn in Hn.
  set (ch1 := ch <| ch_channel_info ::= set_key_status (Z.of_nat n) status reason now |>).
  assert (ci_MultiKeyStatusList (ch_channel_info ch1) = <[Z.of_nat n := status]> st) as Hst.
  { cbn. unfold set_key_status. by rewrite (proj2 (Z.eqb_neq _ _) Hstatus). }
  assert (ci_IsMultiKey (ch_channel_info ch1) = true) as Hm1.
  { cbn. unfold set_key_status. by rewrite (proj2 (Z.eqb_neq _ _) Hstatus). }
  rewrite (disable_key _ _ _ _ _ n) by done. fold ch1. rewrite no_enabled, negb_involutive. fold keys.
  change (GetKeys parse_array ch) with (GetKeys parse_array ch1) in keys.
  destruct (enabled_indexes keys (ci_MultiKeyStatusList (ch_channel_info ch1))) as [|first rest] eqn:Ee.
  - left. split; [done|]. intros index random. set (ch2 := status_info _ _ _).
    pose proof (next_key_enabled ch2 index random Hm1) as H. cbn zeta in H.
    change (enabled_indexes _ _) with (enabled_indexes keys (ci_MultiKeyStatusList (ch_channel_info ch1))) in H. by rewrite Ee in H.
  - right. split; [done|]. intros i random. pose proof (next_key_enabled ch1 (inr i) random Hm1) as H. cbn zeta in H. fold keys in H.
    rewrite Ee in H. destruct (H i eq_refl) as (idx & ch'' & Hnext & Hidx). rewrite <- Ee in Hidx.
    apply enabled_in in Hidx as (j & -> & Hj & He). apply key_at_lookup in Hj. do 3 eexists. split; [exact Hnext|].
    split; [by eapply list_elem_of_lookup_2|]. intros Heq. rewrite Heq in Hj.
    pose proof (NoDup_lookup _ _ _ _ HN Hj Hkey) as ->. rewrite Hst in He. unfold key_enabled, key_status in He.
    rewrite lookup_insert_eq in He. cbn in He. by apply Z.eqb_eq in He.
Qed.
End Disabling.
