(* ===== verification/ChannelTable.v ===== *)
(** * What the routing table holds

    Building the table, finding the candidates of a request in it, and changing
    it when a channel is disabled, each as a statement about membership. *)

From stdpp Require Import base numbers option strings list gmap sorting.
From Stdlib Require Import ZArith Lia.
From S2P Require Import Prelude Schema Store GoStrings Channels ChannelRouting ChannelChoice.
Open Scope Z_scope.

Abbreviation routes := (gmap string (gmap string (list Z))).

(** The ids under a group and a model. *)
Definition ids_at (r : routes) (group model : string) : list Z := default [] (r !! group ≫= fun m => m !! model).

(** ** Building *)

Definition same_route (gm gm' : string * string) : bool := str_eqb gm.1 gm'.1 && str_eqb gm.2 gm'.2.

Lemma same_route_true gm gm' : same_route gm gm' = true <-> gm = gm'.
Proof.
  destruct gm as [g m], gm' as [g' m']. unfold same_route. rewrite andb_true_iff, !str_eqb_true. cbn. split; [intros [-> ->]; done | by intros [= -> ->]].
Qed.

Lemma add_route_ids id r gm r' g m :
  add_route id r gm = inr r' -> ids_at r' g m = ids_at r g m ++ (if same_route gm (g, m) then [id] else []).
Proof.
  unfold add_route, ids_at. destruct (same_route gm (g, m)) eqn:Es.
  - apply same_route_true in Es as ->. cbn. destruct (r !! g) as [models|]; [|done]. intros [= <-].
    rewrite lookup_insert_eq. cbn. by rewrite lookup_insert_eq.
  - rewrite app_nil_r. destruct gm as [g0 m0]. cbn [fst snd]. destruct (r !! g0) as [models|] eqn:E; [|done]. intros [= <-].
    destruct (decide (g0 = g)) as [->|Hg]; [|by rewrite lookup_insert_ne]. rewrite lookup_insert_eq, E. cbn.
    rewrite lookup_insert_ne; [done|]. intros ->. by rewrite (proj2 (same_route_true _ _)) in Es.
Qed.

Lemma add_routes_in id l r r' g m i :
  fold_result (add_route id) l r = inr r' -> i ∈ ids_at r' g m <-> i ∈ ids_at r g m \/ i = id /\ (g, m) ∈ l.
Proof.
  revert r. induction l as [|gm l IH]; intros r; cbn.
  - intros [= ->]. set_solver.
  - destruct (add_route id r gm) as [|r1] eqn:E; [done|]. intros H. rewrite (IH r1) by done.
    rewrite (add_route_ids _ _ _ _ _ _ E). destruct (same_route gm (g, m)) eqn:Es.
    + apply same_route_true in Es as ->. set_solver.
    + assert (gm <> (g, m)) by (intros ->; by rewrite (proj2 (same_route_true _ _)) in Es). set_solver.
Qed.

(** A channel is routed under each of its groups and models while enabled. *)
Definition routed_under (g m : string) (c : Channel) : Prop :=
  ch_status c = ChannelStatusEnabled /\ g ∈ Split comma (ch_group c) /\ m ∈ GetModels c.

Lemma channel_routes_in g m c : (g, m) ∈ channel_routes c <-> g ∈ Split comma (ch_group c) /\ m ∈ GetModels c.
Proof.
  unfold channel_routes. rewrite list_elem_of_In, in_concat. setoid_rewrite in_map_iff. setoid_rewrite list_elem_of_In. split.
  - intros (l & (g' & <- & Hg) & (m' & [= -> ->] & Hm)%in_map_iff). done.
  - intros [Hg Hm]. exists (List.map (fun m => (g, m)) (GetModels c)). split; [by exists g|]. apply in_map_iff. by exists m.
Qed.

Lemma add_channels_in channels r r' g m i :
  fold_result add_channel channels r = inr r' ->
  i ∈ ids_at r' g m <-> i ∈ ids_at r g m \/ exists c, c ∈ channels /\ ch_id c = i /\ routed_under g m c.
Proof.
  revert r. induction channels as [|c channels IH]; intros r; cbn.
  - intros [= ->]. set_solver.
  - destruct (add_channel r c) as [|r1] eqn:E; [done|]. intros H. rewrite (IH r1) by done.
    assert (i ∈ ids_at r1 g m <-> i ∈ ids_at r g m \/ i = ch_id c /\ routed_under g m c) as ->.
    { unfold add_channel in E. unfold routed_under. destruct (Z.eqb_spec (ch_status c) ChannelStatusEnabled).
      - rewrite (add_routes_in _ _ _ _ _ _ _ E), channel_routes_in. naive_solver.
      - injection E as ->. naive_solver. }
    setoid_rewrite elem_of_cons. naive_solver.
Qed.

Lemma empty_routes_ids abilities g m : ids_at (empty_routes abilities) g m = [].
Proof.
  unfold empty_routes. cut (forall r : routes, ids_at r g m = [] -> ids_at (List.fold_left (fun m a => <[ab_group a := ∅]> m) abilities r) g m = []).
  { intros H. apply H. unfold ids_at. by rewrite lookup_empty. }
  induction abilities as [|a l IH]; intros r Hr; [done|]. cbn. apply IH. unfold ids_at in *.
  destruct (decide (ab_group a = g)) as [<-|]; [rewrite lookup_insert_eq; cbn; by rewrite lookup_empty | by rewrite lookup_insert_ne].
Qed.

Lemma map_routes_ids f r g m : ids_at (map_routes f r) g m = match r !! g ≫= fun m' => m' !! m with Some ids => f ids | None => [] end.
Proof.
  unfold ids_at, map_routes. rewrite lookup_fmap. destruct (r !! g) as [models|]; cbn; [|done]. rewrite lookup_fmap. by destruct (models !! m).
Qed.

Lemma channels_by_id_lookup channels id c :
  NoDup (ch_id <$> channels) -> channels_by_id channels !! id = Some c <-> c ∈ channels /\ ch_id c = id.
Proof.
  unfold channels_by_id.
  cut (forall m : gmap Z Channel, (forall c, c ∈ channels -> m !! ch_id c = None) -> NoDup (ch_id <$> channels) ->
    List.fold_left (fun m c => <[ch_id c := c]> m) channels m !! id = Some c <-> m !! id = Some c \/ c ∈ channels /\ ch_id c = id).
  { intros H HN. rewrite H by (done || (intros; by rewrite lookup_empty)). rewrite lookup_empty. naive_solver. }
  induction channels as [|d channels IH]; intros m Hm HN; cbn; [set_solver|]. cbn in HN. apply NoDup_cons in HN as [Hnot HN].
  rewrite IH; [| |done].
  - destruct (decide (ch_id d = id)) as [<-|Hne].
    + rewrite lookup_insert_eq. rewrite (Hm d) by left. setoid_rewrite elem_of_cons. split.
      * intros [[= ->]|[Hin Hid]]; [right; by split; [left|] | right; split; [by right | done]].
      * intros [|[[->|Hin] Hid]]; [done | by left | by right].
    + rewrite lookup_insert_ne by done. setoid_rewrite elem_of_cons. naive_solver.
  - intros e He. rewrite lookup_insert_ne; [apply Hm; by right|]. intros Heq. apply Hnot. rewrite Heq. by apply list_elem_of_fmap_2.
Qed.

(** ** No channel twice *)

Lemma NoDup_snoc {A} (l : list A) x : NoDup l -> x ∉ l -> NoDup (l ++ [x]).
Proof.
  intros HN Hx. apply NoDup_app. split_and!; [done | | apply NoDup_singleton]. intros y Hy ->%list_elem_of_singleton. done.
Qed.

Lemma add_routes_NoDup id l r r' g m :
  fold_result (add_route id) l r = inr r' -> NoDup l -> NoDup (ids_at r g m) -> id ∉ ids_at r g m -> NoDup (ids_at r' g m).
Proof.
  intros Hfold HN Hr Hid. cut (NoDup (ids_at r' g m) /\ (id ∈ ids_at r' g m -> (g, m) ∈ l)); [by intros []|].
  revert r Hfold Hr Hid HN. induction l as [|gm l IH]; intros r; cbn; [intros [= ->]; by split|].
  destruct (add_route id r gm) as [|r1] eqn:E; [done|]. intros Hfold Hr Hid [Hnot HN]%NoDup_cons.
  pose proof (add_route_ids _ _ _ _ g m E) as Hids. destruct (same_route gm (g, m)) eqn:Es.
  - apply same_route_true in Es as ->. split; [|intros _; left].
    assert (ids_at r' g m = ids_at r1 g m) as ->; [|rewrite Hids; by apply NoDup_snoc].
    clear -Hfold Hnot. revert r1 Hfold. induction l as [|gm l IH]; intros r1; cbn; [by intros [= ->]|].
    destruct (add_route id r1 gm) as [|r2] eqn:E; [done|]. intros Hfold. rewrite (IH ltac:(set_solver) r2 Hfold), (add_route_ids _ _ _ _ g m E).
    destruct (same_route gm (g, m)) eqn:Es; [|by rewrite app_nil_r]. apply same_route_true in Es as ->. exfalso. apply Hnot. left.
  - rewrite app_nil_r in Hids. rewrite <- Hids in Hr, Hid. destruct (IH r1) as [H1 H2]; [done..|]. split; [done|]. intros H. right. by apply H2.
Qed.

(** A channel whose groups and models are all different. *)
Definition distinct_routes (c : Channel) : Prop := NoDup (channel_routes c).

Lemma add_channels_NoDup channels r r' g m :
  fold_result add_channel channels r = inr r' -> NoDup (ch_id <$> channels) -> Forall distinct_routes channels ->
  NoDup (ids_at r g m) -> (forall c, c ∈ channels -> ch_id c ∉ ids_at r g m) -> NoDup (ids_at r' g m).
Proof.
  revert r. induction channels as [|c channels IH]; intros r; cbn; [by intros [= ->]|].
  destruct (add_channel r c) as [|r1] eqn:E; [done|]. intros Hfold [Hnot HN]%NoDup_cons [Hc Hcs]%Forall_cons Hr Hids.
  assert (forall i, i ∈ ids_at r1 g m -> i ∈ ids_at r g m \/ i = ch_id c) as Hin.
  { intros i. unfold add_channel in E. destruct (_ =? _); [|injection E as ->; by left].
    rewrite (add_routes_in _ _ _ _ _ _ _ E). intros [|[]]; [by left | by right]. }
  apply (IH r1); [done | done | done | |].
  - unfold add_channel in E. destruct (_ =? _); [|by injection E as ->].
    eapply add_routes_NoDup; [exact E | done | done | apply Hids; left].
  - intros d Hd [H|Heq]%Hin; [eapply Hids; [by right | done]|]. apply Hnot. rewrite <- Heq. by apply list_elem_of_fmap_2.
Qed.

(** ** Removing a channel *)

Lemma remove_first_in id ids i : NoDup ids -> i ∈ remove_first id ids <-> i ∈ ids /\ i <> id.
Proof.
  induction ids as [|x ids IH]; intros HN; cbn; [set_solver|]. apply NoDup_cons in HN as [Hnot HN].
  destruct (Z.eqb_spec x id) as [->|Hne].
  - rewrite elem_of_cons. split; [|intros [[->|Hi] ?]; done]. intros Hi. split; [by right|]. by intros ->.
  - rewrite !elem_of_cons, IH by done. split; [intros [->|[]]; by auto | intros [[->|] ?]; by auto].
Qed.
Lemma remove_first_NoDup id ids : NoDup ids -> NoDup (remove_first id ids).
Proof.
  induction ids as [|x ids IH]; cbn; [done|]. intros [Hnot HN]%NoDup_cons. destruct (x =? id); [done|].
  apply NoDup_cons. split; [|by apply IH]. rewrite remove_first_in by done. by intros [].
Qed.

(** ** Candidates *)

Section Candidates.
Context (regexp_match : string -> string -> bool).
Abbreviation matches := (channelMatchesFilter regexp_match).

Lemma filter_kinds_in cache modelName filters kinds kept id :
  id ∈ (filter_kinds regexp_match cache modelName filters kinds kept).1 <->
  id ∈ kept /\ forall kind, kind ∈ kinds -> filtersByKind filters kind <> [] ->
    candidatePassesKindFilters regexp_match (channelsIDM cache !! id) modelName kind (filtersByKind filters kind) = true.
Proof.
  revert kept. induction kinds as [|kind kinds IH]; intros kept; cbn [filter_kinds].
  { split; [intros H; split; [done|]; intros k Hk; by apply elem_of_nil in Hk | by intros [H _]]. }
  destruct (filtersByKind filters kind) as [|f fs] eqn:E.
  - rewrite IH. split; intros [Hk H]; (split; [done|]); intros k Hin Hne; [|apply H; [by right | done]].
    apply elem_of_cons in Hin as [->|Hin]; [by rewrite E in Hne | by apply H].
  - set (next := List.filter _ kept).
    assert (forall x, x ∈ next <-> x ∈ kept /\ candidatePassesKindFilters regexp_match (channelsIDM cache !! x) modelName kind (f :: fs) = true) as Hnext.
    { intros x. unfold next. rewrite !list_elem_of_In. apply List.filter_In. }
    assert (id ∈ (filter_kinds regexp_match cache modelName filters kinds next).1 <-> id ∈ kept /\
      forall k, k ∈ kind :: kinds -> filtersByKind filters k <> [] ->
        candidatePassesKindFilters regexp_match (channelsIDM cache !! id) modelName k (filtersByKind filters k) = true) as Hrec.
    { rewrite IH, Hnext. split.
      - intros [[Hk Hp] Hrest]. split; [done|]. intros k [->|Hin]%elem_of_cons; [by rewrite E | by apply Hrest].
      - intros [Hk Hall]. split_and!; [done | rewrite <- E; apply Hall; [left | by rewrite E] | intros k Hin; apply Hall; by right]. }
    destruct kept as [|i0 kept0]; [done|]. destruct next as [|n0 next0] eqn:En; [|done]. cbn. split; [by intros H%elem_of_nil|].
    intros [Hk Hp]. apply Hnext. split; [done|]. rewrite <- E. apply Hp; [left | by rewrite E].
Qed.

Lemma filterCandidateIDs_in cache ids modelName filters id :
  id ∈ (filterCandidateIDs regexp_match cache ids modelName filters).1 <->
  id ∈ ids /\ forall kind, kind ∈ filterEvalOrder -> filtersByKind filters kind <> [] ->
    candidatePassesKindFilters regexp_match (channelsIDM cache !! id) modelName kind (filtersByKind filters kind) = true.
Proof. destruct ids as [|i ids]; [cbn; set_solver | apply filter_kinds_in]. Qed.

(** A filter of any other kind lets every channel pass. *)
Lemma matches_unknown c modelName f :
  cf_Kind f <> FilterRequestPath -> cf_Kind f <> FilterTaskPluginIdentity -> matches c modelName f = true.
Proof. intros H1%str_eqb_false H2%str_eqb_false. unfold channelMatchesFilter. by rewrite H1, H2. Qed.

Lemma filtersByKind_in filters kind f : f ∈ filtersByKind filters kind <-> f ∈ filters /\ cf_Kind f = kind.
Proof. unfold filtersByKind. rewrite !list_elem_of_In, List.filter_In, str_eqb_true. done. Qed.

Lemma passes_all c modelName filters :
  (forall kind, kind ∈ filterEvalOrder -> filtersByKind filters kind <> [] ->
     candidatePassesKindFilters regexp_match (Some c) modelName kind (filtersByKind filters kind) = true) <->
  List.forallb (matches c modelName) filters = true.
Proof.
  rewrite List.forallb_forall. cbn [candidatePassesKindFilters]. split.
  - intros H f Hf%list_elem_of_In.
    destruct (decide (cf_Kind f ∈ filterEvalOrder)) as [Hk|Hk].
    + assert (f ∈ filtersByKind filters (cf_Kind f)) as Hin by by apply filtersByKind_in.
      specialize (H _ Hk). rewrite List.forallb_forall in H. apply H; [by intros Heq; rewrite Heq in Hin; apply elem_of_nil in Hin | by apply list_elem_of_In].
    + apply matches_unknown; intros Heq; apply Hk; rewrite Heq; unfold filterEvalOrder; set_solver.
  - intros H kind _ _. apply List.forallb_forall. intros f Hf%list_elem_of_In%filtersByKind_in. apply H, list_elem_of_In, Hf.
Qed.
End Candidates.

(** ** Priorities *)

Lemma insert_desc_in x l p : p ∈ insert_desc x l <-> p = x \/ p ∈ l.
Proof.
  unfold insert_desc. rewrite !elem_of_app, list_elem_of_singleton, !list_elem_of_In, !List.filter_In, !Z.ltb_lt.
  split; [naive_solver|]. intros [->|Hp]; [by right; left|]. destruct (Z.lt_trichotomy x p) as [|[->|]]; auto.
Qed.

Lemma sorted_unique_in l p : p ∈ sorted_unique l <-> p ∈ l.
Proof. induction l as [|x l IH]; cbn; [done|]. rewrite insert_desc_in, IH, elem_of_cons. done. Qed.

Lemma sorted_filter (f : Z -> bool) l : StronglySorted Z.gt l -> StronglySorted Z.gt (List.filter f l).
Proof.
  induction 1 as [|a l Hs IH Ha]; cbn; [constructor|]. destruct (f a); [|done]. constructor; [done|].
  rewrite Forall_forall in *. intros x Hx%list_elem_of_In%List.filter_In. apply Ha, list_elem_of_In, Hx.
Qed.

Lemma sorted_insert_desc x l : StronglySorted Z.gt l -> StronglySorted Z.gt (insert_desc x l).
Proof.
  intros Hs. unfold insert_desc. apply StronglySorted_app_2; [|by apply sorted_filter|].
  - intros a b Ha Hb. apply list_elem_of_In, List.filter_In in Ha as [_ Ha%Z.ltb_lt].
    apply elem_of_cons in Hb as [->|Hb]; [lia|]. apply list_elem_of_In, List.filter_In in Hb as [_ Hb%Z.ltb_lt]. lia.
  - cbn. constructor; [by apply sorted_filter|]. apply Forall_forall. intros b Hb.
    apply list_elem_of_In, List.filter_In in Hb as [_ Hb%Z.ltb_lt]. lia.
Qed.

Lemma sorted_unique_sorted l : StronglySorted Z.gt (sorted_unique l).
Proof. induction l as [|x l IH]; cbn; [constructor | by apply sorted_insert_desc]. Qed.

(** The priority of a retry is one of the priorities. *)
Lemma priority_at_nth ps retry : 0 <= retry -> ps <> [] -> priority_at ps retry = nth (Nat.min (Z.to_nat retry) (length ps - 1)) ps 0.
Proof.
  intros Hr Hne. assert (0 < length ps)%nat by (destruct ps; [done | cbn; lia]).
  unfold priority_at. f_equal. destruct (Z.leb_spec (Z.of_nat (length ps)) retry); lia.
Qed.
Lemma priority_at_in ps retry : 0 <= retry -> ps <> [] -> priority_at ps retry ∈ ps.
Proof.
  intros Hr Hne. rewrite priority_at_nth by done. apply list_elem_of_In, nth_In. destruct ps; [done | cbn [length]; lia].
Qed.
