(* ===== verification/ChannelRoutingTheorems.v ===== *)
(** * What routing answers

    The choice of a channel in terms of the channels table alone, and what
    disabling a channel does to it. *)

From stdpp Require Import base numbers option strings list gmap sorting.
From Stdlib Require Import ZArith Lia.
From S2P Require Import Prelude Schema Store GoStrings Channels ChannelRouting ChannelSelect ChannelChoice ChannelTable.
Open Scope Z_scope.

Section Routing.
Context (regexp_match : string -> string -> bool) (normalize : string -> string).
Context (sort_ids : (Z -> Z) -> list Z -> list Z) (parse_array : string -> option (list string)).
(** Sorting rearranges. *)
Context (sort_perm : forall priority ids, sort_ids priority ids ≡ₚ ids).

(** The channels that may serve a request for [model], found under [routing]. *)
Definition eligible (filters : list ChannelFilter) (group routing model : string) (c : Channel) : bool :=
  (ch_status c =? ChannelStatusEnabled) && List.existsb (str_eqb group) (Split comma (ch_group c)) &&
  List.existsb (str_eqb routing) (GetModels c) && List.forallb (channelMatchesFilter regexp_match c model) filters.

(** Those of the model itself, or else those of its normalized name. *)
Definition eligible_channels (filters : list ChannelFilter) (group model : string) (channels : list Channel) : list Channel :=
  match List.filter (eligible filters group model model) channels with
  | [] => List.filter (eligible filters group (normalize model) model) channels
  | l => l
  end.

Lemma existsb_str s l : List.existsb (str_eqb s) l = true <-> s ∈ l.
Proof.
  rewrite List.existsb_exists, list_elem_of_In. split; [by intros (t & Ht & <-%str_eqb_true)|]. intros H. exists s. split; [done | apply str_eqb_refl].
Qed.

Lemma eligible_spec filters g m model c :
  eligible filters g m model c = true <-> routed_under g m c /\ List.forallb (channelMatchesFilter regexp_match c model) filters = true.
Proof.
  unfold eligible, routed_under. rewrite !andb_true_iff, !existsb_str, Z.eqb_eq.
  split; [intros [[[] ] ] | intros [[?[]] ?]]; by split_and!.
Qed.

Section Table.
Context (channels : list Channel) (abilities : list Ability) (old cache : ChannelCache).
Context (ids_distinct : NoDup (ch_id <$> channels)).
Context (initialised : build_channel_cache sort_ids parse_array channels abilities old = inr cache).
Abbreviation carried := (carry_polling parse_array (channelsIDM old)).

Lemma table_in g m id : id ∈ routed cache g m <-> exists c, c ∈ channels /\ ch_id c = id /\ routed_under g m c.
Proof.
  revert initialised. unfold build_channel_cache. destruct (fold_result _ _ _) as [|r] eqn:E; [done|]. intros [= <-].
  change (routed _ g m) with (ids_at (map_routes (sort_ids (id_priority (channels_by_id channels))) r) g m).
  pose proof (add_channels_in _ _ _ g m id E) as H. rewrite empty_routes_ids in H.
  rewrite map_routes_ids. unfold ids_at in H. destruct (r !! g ≫= _) as [ids|]; cbn in H.
  - rewrite sort_perm, H. split; [|by right]. by intros [?%elem_of_nil|].
  - split; [by intros ?%elem_of_nil|]. intros Hc. apply H. by right.
Qed.

Lemma carried_id c : ch_id (carried c) = ch_id c.
Proof. unfold carry_polling. repeat case_match; done. Qed.
Lemma carried_priority c : GetPriority (carried c) = GetPriority c.
Proof. unfold carry_polling. repeat case_match; done. Qed.
Lemma carried_weight c : GetWeight (carried c) = GetWeight c.
Proof. unfold carry_polling. repeat case_match; done. Qed.
Lemma carried_matches c model f : channelMatchesFilter regexp_match (carried c) model f = channelMatchesFilter regexp_match c model f.
Proof.
  assert (ch_type (carried c) = ch_type c /\ ch_advanced_custom (carried c) = ch_advanced_custom c /\
          ch_task_plugin_key (carried c) = ch_task_plugin_key c) as (Ht & Ha & Hp) by (unfold carry_polling; repeat case_match; done).
  unfold channelMatchesFilter. by rewrite Ht, Ha, Hp.
Qed.

Lemma table_channel id c' : channelsIDM cache !! id = Some c' <-> exists c, c ∈ channels /\ ch_id c = id /\ c' = carried c.
Proof.
  revert initialised. unfold build_channel_cache. destruct (fold_result _ _ _) as [|r] eqn:E; [done|]. intros [= <-]. cbn [channelsIDM].
  rewrite lookup_fmap, fmap_Some. setoid_rewrite (channels_by_id_lookup channels id _ ids_distinct). split.
  - intros (c & [Hc Hid] & ->). by exists c.
  - intros (c & Hc & Hid & ->). by exists c.
Qed.

Lemma found_in filters g m model id :
  id ∈ (filterCandidateIDs regexp_match cache (routed cache g m) model filters).1 <->
  exists c, c ∈ List.filter (eligible filters g m model) channels /\ ch_id c = id.
Proof.
  rewrite filterCandidateIDs_in, table_in. split.
  - intros [(c & Hc & Hid & Hr) Hp]. exists c. split; [|done]. apply list_elem_of_In, List.filter_In. split; [by apply list_elem_of_In|].
    apply eligible_spec. split; [done|]. assert (channelsIDM cache !! id = Some (carried c)) as Hl by (apply table_channel; by exists c).
    rewrite Hl in Hp. apply passes_all in Hp. rewrite List.forallb_forall in *. intros f Hf. rewrite <- carried_matches. by apply Hp.
  - intros (c & [Hc He]%list_elem_of_In%List.filter_In & Hid). apply list_elem_of_In in Hc. apply eligible_spec in He as [Hr Hf].
    split; [by exists c|]. assert (channelsIDM cache !! id = Some (carried c)) as -> by (apply table_channel; by exists c).
    apply passes_all. rewrite List.forallb_forall in *. intros f Hin. rewrite carried_matches. by apply Hf.
Qed.

Lemma candidates_in filters g model id :
  id ∈ candidates regexp_match normalize cache g model filters <-> exists c, c ∈ eligible_channels filters g model channels /\ ch_id c = id.
Proof.
  unfold candidates, eligible_channels. pose proof (found_in filters g model model) as H1.
  destruct (filterCandidateIDs regexp_match cache (routed cache g model) model filters).1 as [|i ids].
  - destruct (List.filter (eligible filters g model model) channels) as [|c l]; [apply found_in|].
    exfalso. apply (elem_of_nil (ch_id c)), H1. exists c. split; [left | done].
  - destruct (List.filter (eligible filters g model model) channels) as [|c l]; [|apply H1].
    exfalso. destruct (proj1 (H1 i)) as (c & Hc & _); [left | by apply elem_of_nil in Hc].
Qed.

Lemma eligible_in filters g model c : c ∈ eligible_channels filters g model channels -> c ∈ channels.
Proof.
  unfold eligible_channels. destruct (List.filter _ channels) as [|c0 l] eqn:E.
  - intros [Hc _]%list_elem_of_In%List.filter_In. by apply list_elem_of_In.
  - rewrite <- E. intros [Hc _]%list_elem_of_In%List.filter_In. by apply list_elem_of_In.
Qed.

(** The candidates as channels: each eligible channel, as the table keeps it. *)
Lemma all_candidates filters g model ids :
  (forall id, id ∈ ids -> exists c, c ∈ eligible_channels filters g model channels /\ ch_id c = id) ->
  exists l, all_channels cache ids = Some l /\ length l = length ids /\
    (forall c', c' ∈ l <-> exists c, c ∈ eligible_channels filters g model channels /\ ch_id c ∈ ids /\ c' = carried c).
Proof.
  induction ids as [|id ids IH]; intros Hall.
  - exists []. split_and!; [done | done|]. intros c'. split; [by intros ?%elem_of_nil|]. by intros (c & _ & ?%elem_of_nil & _).
  - destruct IH as (l & Hl & Hlen & Hin); [intros; apply Hall; by right|]. destruct (Hall id ltac:(left)) as (c & Hc & Hid).
    assert (channelsIDM cache !! id = Some (carried c)) as Hlook by (apply table_channel; exists c; split; [by eapply eligible_in | done]).
    exists (carried c :: l). unfold all_channels in *. cbn. rewrite Hlook, Hl. split_and!; [done | by cbn; rewrite Hlen|].
    intros c'. rewrite elem_of_cons, Hin. split.
    + intros [->|(d & Hd & Hdin & ->)]; [exists c; split_and!; [done | rewrite Hid; left | done] | exists d; split_and!; [done | by right | done]].
    + intros (d & Hd & [Hdid|Hdin]%elem_of_cons & ->); [|right; by exists d]. left.
      assert (channelsIDM cache !! id = Some (carried d)) as Hlook' by (apply table_channel; exists d; split; [by eapply eligible_in | done]).
      congruence.
Qed.
End Table.

(** Among channels of modest weight there is always a choice, of the priority
    the retry asks for. *)
Lemma choose_by_priority_spec intn retry l :
  (forall total, 0 < total -> 0 <= intn total < total) -> 0 <= retry -> modest l -> l <> [] ->
  exists c, choose_by_priority intn retry l = inr (Some c) /\ c ∈ l /\
    GetPriority c = priority_at (sorted_unique (List.map GetPriority l)) retry.
Proof.
  intros Hintn Hr Hm Hne. unfold choose_by_priority. set (ps := sorted_unique _). set (p := priority_at ps retry).
  assert (forall q, q ∈ ps <-> q ∈ GetPriority <$> l) as Hps by (intros q; apply sorted_unique_in).
  assert (p ∈ ps) as Hp.
  { apply priority_at_in; [done|]. intros Hnil. destruct l as [|c l]; [done|]. apply (elem_of_nil (GetPriority c)).
    rewrite <- Hnil. apply Hps. left. }
  apply Hps, list_elem_of_fmap in Hp as (c0 & Hc0 & Hin0).
  set (targets := List.filter _ l). assert (forall c, c ∈ targets <-> c ∈ l /\ GetPriority c = p) as Htargets.
  { intros c. unfold targets. rewrite !list_elem_of_In, List.filter_In, Z.eqb_eq. done. }
  assert (modest targets) as Hmt.
  { destruct Hm as [Hlen Hw]. split; [|intros c [Hc _]%Htargets; by apply Hw]. pose proof (List.filter_length_le (fun c => GetPriority c =? p) l) as Hle. fold targets in Hle. lia. }
  assert (targets <> []) as Hnet by (intros Hnil; apply (elem_of_nil c0); rewrite <- Hnil; by apply Htargets).
  destruct (choose_weighted_walk intn targets Hmt Hnet) as [Hchoose [c Hc]]; [apply Hintn; by apply total_positive|].
  exists c. rewrite Hc in Hchoose. apply first_below_in, Htargets in Hc as [Hc Hprio].
  split_and!; [by destruct targets | done | done].
Qed.

Lemma sorted_unique_nonempty c l : c ∈ l -> sorted_unique (List.map GetPriority l) <> [].
Proof.
  intros Hc Hnil. apply (elem_of_nil (GetPriority c)). rewrite <- Hnil. apply sorted_unique_in.
  change (List.map GetPriority l) with (GetPriority <$> l). by apply list_elem_of_fmap_2.
Qed.

(** The priorities that a list of channels has, the highest first. *)
Definition descending_priorities (ps : list Z) (l : list Channel) : Prop :=
  StronglySorted Z.gt ps /\ forall p, p ∈ ps <-> p ∈ GetPriority <$> l.

(** C26. Routing is right: once the table is built from the channels, a request
    is answered with a channel exactly when one is eligible - enabled, of the
    request's group, serving its model (or, failing every channel, the
    normalized name of it) and passing every filter.  The channel given is an
    eligible one; its priority is the highest for the first attempt, the next
    lower one for each retry, and the lowest for all further retries. *)
Theorem routing_sound intn channels abilities old cache filters group model retry :
  NoDup (ch_id <$> channels) -> build_channel_cache sort_ids parse_array channels abilities old = inr cache ->
  (forall total, 0 < total -> 0 <= intn total < total) -> 0 <= retry ->
  (forall c, c ∈ channels -> 0 <= GetWeight c < 2 ^ 32) ->
  Z.of_nat (length (candidates regexp_match normalize cache group model filters)) < 2 ^ 20 ->
  let eligible := eligible_channels filters group model channels in
  match GetRandomSatisfiedChannel regexp_match normalize intn cache group model retry filters with
  | inr (Some c') => exists c ps, c ∈ eligible /\ c' = carry_polling parse_array (channelsIDM old) c /\
      descending_priorities ps eligible /\ GetPriority c = nth (Nat.min (Z.to_nat retry) (length ps - 1)) ps 0
  | inr None => eligible = []
  | inl _ => False
  end.
Proof.
  intros HN Hinit Hintn Hr Hw Hlen. cbn zeta.
  pose proof (candidates_in channels abilities old cache HN Hinit filters group model) as Hcand.
  unfold GetRandomSatisfiedChannel. set (ids := candidates _ _ _ _ _ _) in *.
  destruct (all_candidates channels abilities old cache HN Hinit filters group model ids) as (l & Hl & Hlenl & Hin).
  { intros id Hid. by apply Hcand. }
  assert (forall c', c' ∈ l <-> exists c, c ∈ eligible_channels filters group model channels /\ c' = carry_polling parse_array (channelsIDM old) c) as Hin'.
  { intros c'. rewrite Hin. split; [intros (c & ? & _ & ?); by exists c|]. intros (c & Hc & ->). exists c. split_and!; [done | | done]. apply Hcand. by exists c. }
  clear Hin.
  assert (ids <> [] -> l <> []) as Hne by (intros Hids ->; by destruct ids).
  assert (forall c', c' ∈ l -> GetPriority c' = priority_at (sorted_unique (List.map GetPriority l)) retry -> exists c ps,
    c ∈ eligible_channels filters group model channels /\ c' = carry_polling parse_array (channelsIDM old) c /\
    descending_priorities ps (eligible_channels filters group model channels) /\
    GetPriority c = nth (Nat.min (Z.to_nat retry) (length ps - 1)) ps 0) as Hanswer.
  { intros c' Hc' Hprio. pose proof Hc' as (c & Hc & ->)%Hin'. exists c, (sorted_unique (List.map GetPriority l)).
    rewrite carried_priority in Hprio. split_and!; [done | done | | by rewrite Hprio; apply priority_at_nth; [|by eapply sorted_unique_nonempty; apply Hc']].
    split; [apply sorted_unique_sorted|]. intros p. rewrite sorted_unique_in. change (List.map GetPriority l) with (GetPriority <$> l).
    rewrite !list_elem_of_fmap. split.
    - intros (d' & -> & (d & Hd & ->)%Hin'). exists d. by rewrite carried_priority.
    - intros (d & -> & Hd). exists (carry_polling parse_array (channelsIDM old) d). rewrite carried_priority. split; [done|]. apply Hin'. by exists d. }
  assert (modest l) as Hm.
  { split; [lia|]. intros c' (c & Hc & ->)%Hin'. rewrite carried_weight. apply Hw. by eapply eligible_in. }
  destruct ids as [|i [|j ids']] eqn:Eids.
  - destruct (eligible_channels filters group model channels) as [|c rest] eqn:E; [done|].
    exfalso. apply (elem_of_nil (ch_id c)), Hcand. exists c. split; [left | done].
  - cbn in Hl. destruct (channelsIDM cache !! i) as [c'|] eqn:Ei; [|done]. injection Hl as <-. apply Hanswer; [left|].
    rewrite priority_at_nth by done. cbn. by replace (Nat.min _ 0) with 0%nat by lia.
  - rewrite Hl. destruct (choose_by_priority_spec intn retry l) as (c' & -> & Hc' & Hprio); [done | done | done | by apply Hne | by apply Hanswer].
Qed.
(** ** Disabling channels while requests are routed *)

(** What changes the table in memory: the periodic rebuild, a change of a
    channel's or a key's status, and a poll that moves a channel's index. *)
Inductive table_step (cache : ChannelCache) : ChannelCache -> Prop :=
| step_sync channels abilities cache' :
    NoDup (ch_id <$> channels) -> Forall distinct_routes channels ->
    build_channel_cache sort_ids parse_array channels abilities cache = inr cache' -> table_step cache cache'
| step_status id usingKey status reason now cache' :
    update_cached_status parse_array id usingKey status reason now cache = Some cache' -> table_step cache cache'
| step_poll id channel index random key idx channel' :
    channelsIDM cache !! id = Some channel ->
    GetNextEnabledKey parse_array channel index random = inr (key, idx, channel') ->
    table_step cache (cache <| channelsIDM ::= fun m : gmap Z Channel => <[id := channel']> m |>).

(** Each channel is under its id, and each list names known channels once, all
    of them enabled but for those a change is in progress on. *)
Definition routes_ok (changing : Z -> Prop) (cache : ChannelCache) : Prop :=
  (forall id c, channelsIDM cache !! id = Some c -> ch_id c = id) /\
  forall g m, NoDup (routed cache g m) /\
    forall id, id ∈ routed cache g m ->
      exists c, channelsIDM cache !! id = Some c /\ (changing id \/ ch_status c = ChannelStatusEnabled).
Definition table_ok : ChannelCache -> Prop := routes_ok (fun _ => False).

Lemma carried_status old c : ch_status (carry_polling parse_array (channelsIDM old) c) = ch_status c.
Proof. unfold carry_polling. repeat case_match; done. Qed.

Lemma table_sync_ok channels abilities old cache :
  NoDup (ch_id <$> channels) -> Forall distinct_routes channels ->
  build_channel_cache sort_ids parse_array channels abilities old = inr cache -> table_ok cache.
Proof.
  intros HN Hd Hinit. split.
  { intros id c' (c & _ & <- & ->)%(table_channel channels abilities old cache HN Hinit). apply carried_id. }
  intros g m. split.
  - revert Hinit. unfold build_channel_cache. destruct (fold_result _ _ _) as [|r] eqn:E; [done|]. intros [= <-].
    change (routed _ g m) with (ids_at (map_routes (sort_ids (id_priority (channels_by_id channels))) r) g m).
    assert (NoDup (ids_at r g m)) as Hr.
    { eapply add_channels_NoDup; [exact E | done | done | |]; rewrite empty_routes_ids; [constructor | intros c _ ?%elem_of_nil; done]. }
    rewrite map_routes_ids. unfold ids_at in Hr. destruct (r !! g ≫= _); [by rewrite sort_perm | constructor].
  - intros id (c & Hc & Hid & Hen & _)%(table_in channels abilities old cache Hinit).
    exists (carry_polling parse_array (channelsIDM old) c). rewrite carried_status. split; [|by right].
    apply (table_channel channels abilities old cache HN Hinit). by exists c.
Qed.

Lemma remove_routes id cache g m : ids_at (map_routes (remove_first id) (group2model2channels cache)) g m = remove_first id (routed cache g m).
Proof. rewrite map_routes_ids. unfold routed. by destruct (group2model2channels cache !! g ≫= _). Qed.

Definition with_cached_status (id status : Z) (m : gmap Z Channel) : gmap Z Channel :=
  alter (fun c : Channel => c <| ch_status := status |>) id m.

Lemma with_cached_status_ids id status (m : gmap Z Channel) :
  (forall i c, m !! i = Some c -> ch_id c = i) -> forall i c, with_cached_status id status m !! i = Some c -> ch_id c = i.
Proof.
  intros Hids i c. unfold with_cached_status. destruct (decide (id = i)) as [->|]; [|rewrite lookup_alter_ne by done; apply Hids].
  rewrite lookup_alter_eq. intros (c0 & H0%Hids & ->)%fmap_Some. done.
Qed.

(** Changing the status takes a channel off every list. *)
Lemma status_ok id status cache :
  routes_ok (fun i => i = id) cache -> table_ok (CacheUpdateChannelStatus id status cache) /\
  (status <> ChannelStatusEnabled -> forall g m, id ∉ routed (CacheUpdateChannelStatus id status cache) g m).
Proof.
  intros [Hids Hok]. unfold CacheUpdateChannelStatus. change (fun m : gmap Z Channel => alter _ id m) with (with_cached_status id status).
  pose proof (with_cached_status_ids id status _ Hids) as Hids'.
  destruct (Z.eqb_spec status ChannelStatusEnabled) as [->|Hne].
  - split; [|done]. split; [done|]. intros g m. destruct (Hok g m) as [HN Hen]. split; [done|]. intros i Hi.
    destruct (Hen i Hi) as (c & Hc & Hst). cbn. unfold with_cached_status.
    destruct (decide (id = i)) as [->|]; [rewrite lookup_alter_eq, Hc; cbn; eexists; by split; [|right]|].
    rewrite lookup_alter_ne by done. exists c. split; [done|]. destruct Hst as [->|]; [done | by right].
  - match goal with |- table_ok ?x /\ _ => set (cache' := x) end.
    assert (forall g m, routed cache' g m = remove_first id (routed cache g m)) as Hrem by (intros g m; exact (remove_routes id cache g m)).
    split; [split; [done|]; intros g m | intros _ g m]; rewrite Hrem; destruct (Hok g m) as [HN Hen].
    + split; [by apply remove_first_NoDup|]. intros i [Hi Hni]%remove_first_in; [|done]. cbn. unfold with_cached_status.
      rewrite lookup_alter_ne by done. destruct (Hen i Hi) as (c & Hc & [->|]); [done|]. exists c. split; [done | by right].
    + rewrite remove_first_in by done. by intros [].
Qed.

(** Storing a channel back under its id. *)
Lemma insert_ok changing id c cache :
  table_ok cache -> ch_id c = id -> (forall c0, channelsIDM cache !! id = Some c0 -> changing id \/ ch_status c = ch_status c0) ->
  routes_ok changing (cache <| channelsIDM ::= fun m : gmap Z Channel => <[id := c]> m |>).
Proof.
  intros [Hids Hok] Hid Hst. split; cbn.
  - intros i c1. destruct (decide (id = i)) as [->|]; [rewrite lookup_insert_eq; by intros [= <-] | rewrite lookup_insert_ne by done; apply Hids].
  - intros g m. destruct (Hok g m) as [HN Hen]. split; [done|]. intros i Hi. destruct (Hen i Hi) as (c0 & Hc0 & [[]|Hen0]).
    destruct (decide (id = i)) as [->|]; [rewrite lookup_insert_eq; exists c | rewrite lookup_insert_ne by done; exists c0]; (split; [done|]).
    + destruct (Hst c0 Hc0) as [|Heq]; [by left | right; congruence].
    + by right.
Qed.

Lemma handler_id c usingKey status reason now : ch_id (handlerMultiKeyUpdate parse_array c usingKey status reason now) = ch_id c.
Proof. unfold handlerMultiKeyUpdate. repeat case_match; done. Qed.

Lemma next_key_same channel index random key idx channel' :
  GetNextEnabledKey parse_array channel index random = inr (key, idx, channel') ->
  ch_id channel' = ch_id channel /\ ch_status channel' = ch_status channel.
Proof. unfold GetNextEnabledKey. repeat case_match; naive_solver. Qed.

Lemma update_cached_ok id usingKey status reason now cache cache' :
  table_ok cache -> update_cached_status parse_array id usingKey status reason now cache = Some cache' -> table_ok cache'.
Proof.
  intros Hok. unfold update_cached_status. destruct (channelsIDM cache !! id) as [c|] eqn:Ec; [|done].
  pose proof (proj1 Hok _ _ Ec) as Hid. destruct (ci_IsMultiKey (ch_channel_info c)).
  - set (updated := handlerMultiKeyUpdate _ _ _ _ _ _). assert (ch_id updated = id) as Hidu by (by unfold updated; rewrite handler_id).
    destruct (Z.eqb_spec (ch_status c) (ch_status updated)) as [Heq|Hne]; intros [= <-].
    + apply insert_ok; [done | done|]. intros c0. rewrite Ec. intros [= <-]. by right.
    + apply status_ok, insert_ok; [done | done|]. intros ? ?. by left.
  - destruct (_ =? _); [done|]. intros [= <-]. apply status_ok. destruct Hok as [Hids Hok]. split; [done|].
    intros g m. destruct (Hok g m) as [HN Hen]. split; [done|]. intros i (c0 & ? & [[]|])%Hen. exists c0. split; [done | by right].
Qed.

Lemma step_ok cache cache' : table_ok cache -> table_step cache cache' -> table_ok cache'.
Proof.
  intros Hok. destruct 1 as [channels abilities cache' HN Hd Hinit | | id channel index random key idx channel' Hc Hnext].
  - by eapply table_sync_ok.
  - by eapply update_cached_ok.
  - apply next_key_same in Hnext as [Hid Hst]. apply insert_ok; [done | |].
    + rewrite Hid. by eapply (proj1 Hok).
    + intros c0. rewrite Hc. intros [= <-]. by right.
Qed.

Definition no_cache : ChannelCache := mkChannelCache ∅ ∅.

Lemma reachable_ok cache : rtc table_step no_cache cache -> table_ok cache.
Proof.
  intros Hsteps. cut (table_ok no_cache).
  { induction Hsteps as [|x y z Hxy _ IH]; [done|]. intros Hx. apply IH. by eapply step_ok. }
  split; [intros id c; cbn; by rewrite lookup_empty|]. intros g m. unfold routed. cbn. rewrite lookup_empty. cbn. split; [constructor|].
  by intros id ?%elem_of_nil.
Qed.

Lemma pick_below_in w r l c : pick_below w r l = Some c -> c ∈ l.
Proof.
  revert r. induction l as [|d l IH]; intros r; cbn; [done|]. destruct (_ <? 0); [intros [= ->]; left | intros H; right; by eapply IH].
Qed.

(** The channel given is one of the candidates. *)
Lemma chosen_candidate intn cache group model retry filters c :
  GetRandomSatisfiedChannel regexp_match normalize intn cache group model retry filters = inr (Some c) ->
  exists id, id ∈ candidates regexp_match normalize cache group model filters /\ channelsIDM cache !! id = Some c.
Proof.
  unfold GetRandomSatisfiedChannel. set (ids := candidates _ _ _ _ _ _). destruct ids as [|i [|j ids']] eqn:E; [done | |].
  - destruct (channelsIDM cache !! i) eqn:Ei; [|done]. intros [= ->]. exists i. split; [left | done].
  - rewrite <- E. unfold all_channels. destruct (mapM _ ids) as [l|] eqn:El; [|done].
    apply mapM_Some in El. unfold choose_by_priority. destruct (List.filter _ l) as [|t targets] eqn:Et; [done|]. rewrite <- Et.
    unfold choose_weighted. destruct (_ <=? 0); [done|]. destruct (pick_below _ _ _) as [c'|] eqn:Ep; [|done]. intros [= ->].
    apply pick_below_in, list_elem_of_In, List.filter_In in Ep as [Hc%list_elem_of_In _].
    apply list_elem_of_lookup in Hc as (k & Hk). destruct (Forall2_lookup_r _ _ _ _ _ El Hk) as (id & Hid & Hlook).
    exists id. split; [by eapply list_elem_of_lookup_2 | done].
Qed.

Lemma candidates_routed cache group model filters id :
  id ∈ candidates regexp_match normalize cache group model filters -> exists m, id ∈ routed cache group m.
Proof.
  unfold candidates. destruct (filterCandidateIDs _ _ (routed cache group model) _ _).1 as [|i ids] eqn:E.
  - intros [H _]%filterCandidateIDs_in. by eexists.
  - rewrite <- E. intros [H _]%filterCandidateIDs_in. by eexists.
Qed.

(** C27. A disabled channel gets no requests: through every sequence of rebuilds,
    status changes of channels and keys, and polls, the channel that routing
    gives is enabled in memory at that moment - provided that the rebuilds read
    channels that name no group and no model twice.  In particular the change
    that disables a channel takes effect with the next choice. *)
Theorem routed_channels_enabled cache intn group model retry filters c :
  rtc table_step no_cache cache ->
  GetRandomSatisfiedChannel regexp_match normalize intn cache group model retry filters = inr (Some c) ->
  channelsIDM cache !! ch_id c = Some c /\ ch_status c = ChannelStatusEnabled.
Proof.
  intros Hok%reachable_ok (id & (m & Hid)%candidates_routed & Hc)%chosen_candidate.
  pose proof (proj1 Hok _ _ Hc) as Heq. rewrite Heq. split; [done|].
  destruct (proj2 (proj2 Hok group m) id Hid) as (c' & Hc' & [[]|Hen]). congruence.
Qed.
End Routing.
