(* ===== verification/ChannelDemo.v ===== *)
(** * Routing on concrete channels

    Three channels of one provider, two of them of the same priority, and a
    channel with three keys; the concrete instances of the theorems, and a
    channel that stays routed after it is disabled. *)

From stdpp Require Import base numbers option strings list gmap sorting.
From Stdlib Require Import ZArith Lia.
From S2P Require Import Prelude Schema Store GoStrings Channels ChannelRouting ChannelSelect ChannelTheorems ChannelChoice ChannelKeys ChannelTable ChannelRoutingTheorems.
Open Scope Z_scope.

Module ChannelDemo.
Definition plain : ChannelInfo := mkChannelInfo false 0 ∅ ∅ ∅ 0 "".
Definition channel (id weight priority : Z) (models group : string) : Channel :=
  mkChannel id 1 "sk-a" ChannelStatusEnabled (Some weight) models group 0 (Some priority) None [] None plain "" None [].
Definition big : Channel := channel 1 3 10 "gpt-4,gpt-4o" "default,vip".
Definition small : Channel := channel 2 1 10 "gpt-4" "default".
Definition spare : Channel := channel 3 5 0 "gpt-4" "default".
Definition channels : list Channel := [big; small; spare].
Definition parse_array (s : string) : option (list string) := None.
Definition abilities : list Ability := List.concat (List.map (fun c => abilities_of c (GetModels c)) channels).

Definition sort_ids (priority : Z -> Z) (ids : list Z) : list Z :=
  List.filter (fun i => 0 <? priority i) ids ++ List.filter (fun i => negb (0 <? priority i)) ids.
Lemma sort_perm priority ids : sort_ids priority ids ≡ₚ ids.
Proof.
  unfold sort_ids. induction ids as [|i ids IH]; cbn; [done|]. destruct (0 <? priority i); cbn; [by rewrite IH|].
  by rewrite <- Permutation_middle, IH.
Qed.

Definition regexp_match (pattern s : string) : bool := false.
Definition normalize (model : string) : string := model.
Definition table : ChannelCache :=
  match build_channel_cache sort_ids parse_array channels abilities no_cache with inr c => c | inl _ => no_cache end.
Definition choose (cache : ChannelCache) (draw retry : Z) : option Z :=
  match GetRandomSatisfiedChannel regexp_match normalize (fun _ => draw) cache "default" "gpt-4" retry [] with
  | inr (Some c) => Some (ch_id c)
  | _ => None
  end.

Example first_attempt : List.map (fun draw => choose table draw 0) [0; 299; 300; 399] = [Some 1; Some 1; Some 2; Some 2].
Proof. vm_compute. reflexivity. Qed.
Example first_retry : choose table 7 1 = Some 3 /\ choose table 7 9 = Some 3.
Proof. by vm_compute. Qed.

(** ** The attempts of a request *)

Definition pick (n : nat) (group : string) (retry : Z) : result (option Channel) :=
  GetRandomSatisfiedChannel regexp_match normalize (fun _ => 0) table group "gpt-4" retry [].

Lemma relay_retries_bounded_witness :
  exists l, relay_request ["vip"; "default"] true 2 "auto" pick (fun _ _ _ => true) 7 = Some l /\ Z.of_nat (length l) <= 6.
Proof. apply (relay_retries_bounded ["vip"; "default"] true 2 "auto" pick (fun _ _ _ => true)). lia. Defined.

(** ** The choice *)

Lemma modest_pair : modest [big; small].
Proof. split; [vm_compute; done|]. intros c. rewrite !elem_of_cons, elem_of_nil. intros [->|[->|[]]]; vm_compute; split; done. Qed.

Lemma selection_proportional_witness :
  draws (chosen_by [big; small] big) (total_weight [big; small]) * sum_of GetWeight [big; small] =
    total_weight [big; small] * GetWeight big.
Proof.
  destruct (selection_proportional [big; small] big) as [H _]; [exact modest_pair | by apply (bool_decide_unpack _); vm_compute | left | exact H].
Defined.

Definition ability (id weight : Z) : Ability := mkAbility "default" "gpt-4" id true (Some 0) weight None.
Lemma modest_pair_abilities : modest_abilities ([ability 1 0] ++ ability 2 0 :: []).
Proof. split; [vm_compute; done|]. intros c. cbn. rewrite !elem_of_cons, elem_of_nil. intros [->|[->|[]]]; vm_compute; split; done. Qed.

(** Two channels of equal weight: eleven draws of twenty for the first, nine
    for the second. *)
Lemma ability_choice_biased_witness :
  draws (ability_chosen [ability 1 0; ability 2 0] (ability 2 0)) (abilities_total [ability 1 0; ability 2 0]) = 9.
Proof.
  destruct (ability_choice_biased [ability 1 0] (ability 2 0) []) as [_ H]; [exact modest_pair_abilities | by apply (bool_decide_unpack _); vm_compute | exact H].
Defined.

(** ** Keys *)

Definition keys_info (status : gmap Z Z) : ChannelInfo := mkChannelInfo true 3 status ∅ ∅ 2 MultiKeyModePolling.
Definition keyed : Channel :=
  mkChannel 4 1 "k0\nk1\nk2" ChannelStatusEnabled None "gpt-4" "default" 0 None None [] None (keys_info {[1 := 3]}) "" None ["k0"; "k1"; "k2"].

Example keyed_polls : polls parse_array 4 keyed = [("k2", 2); ("k0", 0); ("k2", 2); ("k0", 0)].
Proof. vm_compute. reflexivity. Qed.

Lemma polling_round_robin_witness :
  exists round, round ≡ₚ enabled_keys ["k0"; "k1"; "k2"] {[1 := 3]} /\
    forall m, polls parse_array (m * length round) keyed = List.concat (replicate m round).
Proof. apply (polling_round_robin parse_array keyed); reflexivity. Defined.

Lemma disabled_key_unused_witness :
  let ch' := handlerMultiKeyUpdate parse_array keyed "k2" 3 "401" 1768478400 in
  (ch_status ch' = ChannelStatusAutoDisabled /\ forall index random, exists err, GetNextEnabledKey parse_array ch' index random = inl err) \/
  (ch_status ch' = ch_status keyed /\ forall i random, exists key idx ch'',
     GetNextEnabledKey parse_array ch' (inr i) random = inr (key, idx, ch'') /\ key ∈ GetKeys parse_array keyed /\ key <> "k2").
Proof.
  apply (disabled_key_unused parse_array keyed "k2" 3 "401" 1768478400);
    [reflexivity | done | by apply (bool_decide_unpack _); vm_compute | by apply (bool_decide_unpack _); vm_compute].
Defined.

(** ** The table *)

Lemma table_built : build_channel_cache sort_ids parse_array channels abilities no_cache = inr table.
Proof. vm_compute. reflexivity. Qed.
Lemma channels_distinct : NoDup (ch_id <$> channels).
Proof. by apply (bool_decide_unpack _); vm_compute. Qed.

Definition intn (total : Z) : Z := total - 1.

Lemma routing_sound_witness :
  match GetRandomSatisfiedChannel regexp_match normalize intn table "default" "gpt-4" 1 [] with
  | inr (Some c') => exists c ps, c ∈ eligible_channels regexp_match normalize [] "default" "gpt-4" channels /\
      c' = carry_polling parse_array (channelsIDM no_cache) c /\
      descending_priorities ps (eligible_channels regexp_match normalize [] "default" "gpt-4" channels) /\ GetPriority c = nth (Nat.min (Z.to_nat 1) (length ps - 1)) ps 0
  | inr None => eligible_channels regexp_match normalize [] "default" "gpt-4" channels = []
  | inl _ => False
  end.
Proof.
  apply (routing_sound regexp_match normalize sort_ids parse_array sort_perm intn channels abilities no_cache table [] "default" "gpt-4" 1);
    [exact channels_distinct | exact table_built | unfold intn; intros; lia | lia | | by vm_compute].
  intros c Hc. assert (Forall (fun c => 0 <= GetWeight c < 2 ^ 32) channels) as H by (apply (bool_decide_unpack _); by vm_compute).
  by apply (proj1 (Forall_forall _ _) H).
Defined.

Lemma table_reached : rtc (table_step sort_ids parse_array) no_cache (CacheUpdateChannelStatus 1 ChannelStatusAutoDisabled table).
Proof.
  eapply rtc_l; [eapply (step_sync sort_ids parse_array _ channels abilities); [exact channels_distinct | | exact table_built]|].
  - repeat constructor; apply (bool_decide_unpack _); by vm_compute.
  - apply rtc_once. eapply (step_status _ _ _ 1 "sk-a" ChannelStatusAutoDisabled "quota" 0). vm_compute. reflexivity.
Qed.

Definition without_big : ChannelCache := CacheUpdateChannelStatus 1 ChannelStatusAutoDisabled table.
Lemma routed_channels_enabled_witness :
  channelsIDM without_big !! 2 = Some small /\ ch_status small = ChannelStatusEnabled.
Proof.
  apply (routed_channels_enabled regexp_match normalize sort_ids parse_array sort_perm without_big intn "default" "gpt-4" 0 [] small);
    [exact table_reached | vm_compute; reflexivity].
Defined.

(** ** A model named twice

    Nothing removes duplicates from the models of a channel, and disabling takes
    only the first of them off the list: the channel goes on being chosen until
    the next rebuild. *)
Definition doubled : Channel := channel 5 1 10 "gpt-4,gpt-4" "default".
Definition doubled_table : ChannelCache :=
  match build_channel_cache sort_ids parse_array [doubled] (abilities_of doubled (GetModels doubled)) no_cache with inr c => c | inl _ => no_cache end.

Theorem duplicate_model_stays_routed :
  exists cache c, update_cached_status parse_array 5 "sk-a" ChannelStatusAutoDisabled "quota" 0 doubled_table = Some cache /\
    GetRandomSatisfiedChannel regexp_match normalize intn cache "default" "gpt-4" 0 [] = inr (Some c) /\
    ch_id c = 5 /\ ch_status c = ChannelStatusAutoDisabled.
Proof.
  exists (CacheUpdateChannelStatus 5 ChannelStatusAutoDisabled doubled_table), (doubled <| ch_status := ChannelStatusAutoDisabled |>).
  split_and!; [reflexivity | vm_compute; reflexivity | reflexivity | reflexivity].
Qed.
End ChannelDemo.
