(* ===== verification/UserCache.v ===== *)
(** * The cached user record and its version fence ([src/model/user_auth_cache.go], [src/model/user_cache.go])

    Every request looks up its user in a Redis hash that any node may fill from
    a row it read some time ago.  A change of a user's rights increments the
    row's [auth_version] and publishes it in two more keys - a pending fence
    before the transaction commits, a committed floor after it - which reject
    hashes of an older version.

    The state is that of one user, as the nodes on one Redis see it ([Topology]
    puts several together): his row, the three keys, and five ghost components:
    every row that was ever committed, the highest version whose change was
    reported successful by one of these nodes, the records they handed out,
    whether an update that left the version alone overwrote a right, and whether
    a hard deletion was reported that could not be published.  A statement or
    script is atomic; between two of them anything can happen. *)

From stdpp Require Import base numbers option strings list relations.
From Stdlib Require Import ZArith Lia.
From S2P Require Import Prelude Store Interleave.
Open Scope Z_scope.

Definition userCacheSchemaVersion : Z := 2.
Definition ErrUserAuthCachePending : Err := EText "user authentication state update is pending".
Definition ErrUserAuthVersionConflict : Err := EText "user authentication version update conflicted".

(** The columns of [User] that the cache keeps, and the password hash;
    [us_deleted]: soft deleted. *)
Record UserRow := mkUserRow {
  us_Id : Z;
  us_Group : string;
  us_Email : string;
  us_Quota : Z;
  us_Status : Z;
  us_Role : Z;
  us_Username : string;
  us_Password : string;
  us_Setting : string;
  us_AuthVersion : Z;
  us_deleted : bool
}.
#[export] Instance UserRow_eta : Eta UserRow :=
  fun r => mkUserRow (us_Id r) (us_Group r) (us_Email r) (us_Quota r) (us_Status r) (us_Role r) (us_Username r)
    (us_Password r) (us_Setting r) (us_AuthVersion r) (us_deleted r).

Record UserBase := mkUserBase {
  ub_Id : Z;
  ub_Group : string;
  ub_Email : string;
  ub_Quota : Z;
  ub_Status : Z;
  ub_Role : Z;
  ub_Username : string;
  ub_Setting : string;
  ub_AuthVersion : Z;
  ub_CacheSchema : Z
}.
#[export] Instance UserBase_eta : Eta UserBase :=
  fun r => mkUserBase (ub_Id r) (ub_Group r) (ub_Email r) (ub_Quota r) (ub_Status r) (ub_Role r) (ub_Username r)
    (ub_Setting r) (ub_AuthVersion r) (ub_CacheSchema r).

Definition ToBaseUser (user : UserRow) : UserBase :=
  mkUserBase (us_Id user) (us_Group user) (us_Email user) (us_Quota user) (us_Status user) (us_Role user)
    (us_Username user) (us_Setting user) (us_AuthVersion user) userCacheSchemaVersion.

(** The hash: every field but [Quota] is written by every write. *)
Record UserHash := mkUserHash { uh_fields : UserBase; uh_Quota : option Z }.
#[export] Instance UserHash_eta : Eta UserHash := fun r => mkUserHash (uh_fields r) (uh_Quota r).

Record World := mkWorld {
  w_row : option UserRow;
  w_hash : option UserHash;
  w_pending : option Z;
  w_committed : option Z;
  w_log : list UserRow;          (* ghost: the rows committed so far, the newest first *)
  w_acknowledged : Z;            (* ghost *)
  w_served : list (Z * UserBase); (* ghost: with what was acknowledged when the look-up began *)
  w_overwritten : bool;          (* ghost *)
  w_unpublished : bool           (* ghost: a hard deletion was reported whose publication had failed *)
}.
#[export] Instance World_eta : Eta World :=
  fun r => mkWorld (w_row r) (w_hash r) (w_pending r) (w_committed r) (w_log r) (w_acknowledged r) (w_served r) (w_overwritten r) (w_unpublished r).

Abbreviation program A := (P World A).

(** ** The scripts *)

Definition number (o : option Z) : Z := default 0 o.
Arguments number o : simpl never.
Definition current_version (w : World) : Z := match w_hash w with Some h => ub_AuthVersion (uh_fields h) | None => 0 end.

(** The common beginning: reject what is below a floor, then raise the floor. *)
Definition stale (incoming : Z) (w : World) : bool :=
  (incoming <? number (w_pending w)) || (incoming <? number (w_committed w)) || (incoming <? current_version w).
Definition raise_floor (incoming : Z) (w : World) : World :=
  let w := if number (w_committed w) <? incoming then w <| w_committed := Some incoming |> else w in
  if (0 <? number (w_pending w)) && (number (w_pending w) <=? incoming) then w <| w_pending := @None Z |> else w.

Definition write_script (user : UserBase) (includeQuota : bool) (w : World) : result Z * World :=
  let incoming := ub_AuthVersion user in
  if stale incoming w then (inr 0, w) else
  let w := raise_floor incoming w in
  if negb includeQuota && (match w_hash w with None => true | Some _ => false end) then (inr 1, w) else
  let quota := w_hash w ≫= uh_Quota in
  let quota := match quota with Some q => Some q | None => if includeQuota then Some (ub_Quota user) else None end in
  (inr 1, w <| w_hash := Some (mkUserHash user quota) |>).

Definition fence_script (incoming : Z) (w : World) : result Z * World :=
  (inr 1, if number (w_pending w) <? incoming then w <| w_pending := Some incoming |> else w).
Definition publish_script (incoming : Z) (w : World) : result Z * World := (inr 1, raise_floor incoming w).

(** The fields that are refreshed one at a time. *)
Variant CacheField := FieldGroup | FieldEmail | FieldUsername | FieldSetting.
Definition set_cached_field (f : CacheField) (value : string) (u : UserBase) : UserBase :=
  match f with
  | FieldGroup => u <| ub_Group := value |>
  | FieldEmail => u <| ub_Email := value |>
  | FieldUsername => u <| ub_Username := value |>
  | FieldSetting => u <| ub_Setting := value |>
  end.

(** Only a hash of this very version gets the field. *)
Definition field_script (field : CacheField) (value : string) (incoming : Z) (w : World) : result Z * World :=
  if stale incoming w then (inr 0, w) else
  let version := current_version w in
  let w := raise_floor incoming w in
  match w_hash w with
  | Some h => if version =? incoming
              then (inr 1, w <| w_hash := Some (h <| uh_fields := (set_cached_field field value (uh_fields h)) <| ub_CacheSchema := userCacheSchemaVersion |> |>) |>)
              else (inr 1, w)
  | None => (inr 1, w)
  end.

(** [quota_reserve.go]: a change of the cached quota, and one that needs it. *)
Definition hash_usable (id : Z) (w : World) : option Z :=
  match w_hash w with
  | Some h => if (ub_Id (uh_fields h) =? id) && (ub_CacheSchema (uh_fields h) =? userCacheSchemaVersion) then uh_Quota h else None
  | None => None
  end.
Definition set_cached_quota (q : Z) (w : World) : World :=
  w <| w_hash ::= option_map (fun h : UserHash => h <| uh_Quota := Some q |>) |>.
Definition quota_delta_script (id delta : Z) (w : World) : result Z * World :=
  match hash_usable id w with
  | None => (inr (-1), w)
  | Some q => (inr 1, set_cached_quota (q + delta) w)
  end.
Definition quota_reserve_script (id amount : Z) (w : World) : result Z * World :=
  match hash_usable id w with
  | None => (inr (-1), w)
  | Some q => if q <? amount then (inr 0, w) else (inr 1, set_cached_quota (q - amount) w)
  end.

(** ** The functions *)

Section Functions.
(** [RedisEnabled]. *)
Context (redis : bool).

Definition writeUserCache (user : UserBase) (includeQuota : bool) : program unit :=
  if (ub_Id user <=? 0) || negb redis then mret tt else
  let user := user <| ub_CacheSchema := userCacheSchemaVersion |> in
  if ub_AuthVersion user <=? 0 then fail (EText "invalid user auth version") else
  result ← sql (write_script user includeQuota);
  if result =? 0 then fail ErrUserAuthCachePending else mret tt.

Definition populateUserCache (user : UserRow) : program unit := if negb redis then mret tt else writeUserCache (ToBaseUser user) true.
Definition updateUserCache (user : UserRow) : program unit := if negb redis then mret tt else writeUserCache (ToBaseUser user) false.

(** [MGET] of both keys. *)
Definition floor_of (w : World) : Z := Z.max 0 (Z.max (number (w_pending w)) (number (w_committed w))).
Definition getUserAuthVersionFloor : program Z :=
  if negb redis then mret 0 else sql (fun w => (inr (floor_of w), w)).

(** [HGETALL], decoded; a missing [Quota] is zero. *)
Definition RedisHGetObj : program UserBase :=
  sql (fun w => (match w_hash w with
                 | Some h => inr ((uh_fields h) <| ub_Quota := number (uh_Quota h) |>)
                 | None => inl (EText "key not found in Redis")
                 end, w)).

Definition cacheGetUserBase (userId : Z) : program UserBase :=
  if negb redis then fail (EText "redis is not enabled") else
  userCache ← RedisHGetObj;
  if negb (ub_Id userCache =? userId) || negb (ub_CacheSchema userCache =? userCacheSchemaVersion) || (ub_AuthVersion userCache <=? 0)
  then fail (EText "user cache schema is stale") else
  floor ← getUserAuthVersionFloor;
  if ub_AuthVersion userCache <? floor then fail ErrUserAuthCachePending else mret userCache.

(** [First]: soft-deleted rows are not found. *)
Definition read_live (id : Z) : program UserRow :=
  sql (fun w => (match w_row w with
                 | Some r => if (us_Id r =? id) && negb (us_deleted r) then inr r else inl ErrRecordNotFound
                 | None => inl ErrRecordNotFound
                 end, w)).
Definition GetUserById (id : Z) : program UserRow :=
  if id =? 0 then fail (EText "id 为空！") else read_live id.

Definition GetUserCache (userId : Z) : program UserBase :=
  cached ← attempted (cacheGetUserBase userId);
  match cached with
  | inr userCache => mret userCache
  | inl _ =>
      user ← GetUserById userId;
      if negb redis then mret (ToBaseUser user) else
      floor ← attempted getUserAuthVersionFloor;
      if (match floor with inr floor => us_AuthVersion user <? floor | inl _ => false end) then fail ErrUserAuthCachePending else
      populated ← attempted (populateUserCache user);
      match populated with
      | inl err => if is_err err ErrUserAuthCachePending then fail err else mret (ToBaseUser user)
      | inr _ => mret (ToBaseUser user)
      end
  end.

Definition SetUserAuthVersionFence (userId authVersion : Z) : program unit :=
  if negb redis then mret tt else
  if (userId <=? 0) || (authVersion <=? 0) then fail (EText "invalid user auth fence") else
  _ ← sql (fence_script authVersion); mret tt.
Definition publishCommittedUserAuthVersion (userId authVersion : Z) : program unit :=
  if negb redis then mret tt else
  if (userId <=? 0) || (authVersion <=? 0) then fail (EText "invalid committed user auth version") else
  _ ← sql (publish_script authVersion); mret tt.

Definition PublishUserAuthCache (userId : Z) : program unit :=
  user ← GetUserById userId; updateUserCache user.
Definition invalidateUserCache : program unit :=
  if negb redis then mret tt else sql (fun w => (inr tt, w <| w_hash := @None UserHash |>)).

Definition updateUserCacheFieldAtVersion (userId : Z) (field : CacheField) (value : string) (authVersion : Z) : program unit :=
  if negb redis then mret tt else
  if (userId <=? 0) || (authVersion <=? 0) then fail (EText "invalid user auth version") else
  result ← sql (field_script field value authVersion);
  if result =? 0 then fail ErrUserAuthCachePending else mret tt.
Definition updateUserCacheField (userId : Z) (field : CacheField) (value : string) : program unit :=
  if negb redis then mret tt else
  user ← read_live userId;
  if us_AuthVersion user <=? 0 then fail (EText "invalid user auth version") else
  updateUserCacheFieldAtVersion userId field value (us_AuthVersion user).

(** ** Transactions

    What a transaction wrote becomes visible when it commits: one statement.
    [change] is what the caller's transaction does to the row besides the
    version; with [live] it reads the row back, and fails if it was deleted; a
    hard deletion removes the row. *)

Variant AuthChange := Rewrite (live : bool) (change : UserRow -> UserRow) | Remove.

(** No update of this code touches the id or revives a deleted user. *)
Definition changed_row (c : AuthChange) (next : Z) (r : UserRow) : UserRow :=
  match c with
  | Rewrite _ change =>
      (change r) <| us_Id := us_Id r |> <| us_AuthVersion := next |> <| us_deleted := us_deleted r || us_deleted (change r) |>
  | Remove => r <| us_AuthVersion := next |> <| us_deleted := true |>
  end.
Definition commit_row (hard : bool) (r : UserRow) (w : World) : World :=
  w <| w_row := if hard then @None UserRow else Some r |> <| w_log ::= cons r |>.
Definition is_hard (c : AuthChange) : bool := match c with Remove => true | Rewrite _ _ => false end.
Definition needs_live (c : AuthChange) : bool := match c with Rewrite live _ => live | Remove => false end.

(** The row, also of a deleted user. *)
Definition read_unscoped (userId : Z) : program UserRow :=
  sql (fun w => (match w_row w with
                 | Some r => if us_Id r =? userId then inr r else inl ErrRecordNotFound
                 | None => inl ErrRecordNotFound
                 end, w)).
(** [UPDATE ... WHERE id AND auth_version = ?], the rest of the transaction, and
    its commit: the row as it left it, if the condition held. *)
Definition cas_statement (userId : Z) (expected next : Z) (c : AuthChange) (w : World) : result (option UserRow) * World :=
  match w_row w with
  | Some r => if (us_Id r =? userId) && (us_AuthVersion r =? expected)
              then if needs_live c && us_deleted r then (inl ErrRecordNotFound, w) else
                   (inr (Some (changed_row c next r)), commit_row (is_hard c) (changed_row c next r) w)
              else (inr None, w)
  | None => (inr None, w)
  end.
Definition cas_commit (userId : Z) (expected next : Z) (c : AuthChange) : program (option UserRow) :=
  sql (cas_statement userId expected next c).

Fixpoint increment_attempts (n : nat) (userId : Z) (c : AuthChange) : program UserRow :=
  match n with
  | O => fail ErrUserAuthVersionConflict
  | S n =>
      user ← read_unscoped userId;
      let next := Z.max 1 (us_AuthVersion user) + 1 in
      SetUserAuthVersionFence userId next ;;
      updated ← cas_commit userId (us_AuthVersion user) next c;
      match updated with Some row => mret row | None => increment_attempts n userId c end
  end.
(** [IncrementUserAuthVersionWithTx] inside the caller's transaction. *)
Definition auth_transaction (userId : Z) (c : AuthChange) : program UserRow :=
  if userId <=? 0 then fail (EText "invalid user auth version update") else increment_attempts 3 userId c.

(** A security change: its transaction, then the publication. *)
Definition auth_change (userId : Z) (change : UserRow -> UserRow) : program UserRow :=
  row ← auth_transaction userId (Rewrite false change);
  PublishUserAuthCache userId ;;
  mret row.
Definition BumpUserAuthVersion (userId : Z) : program UserRow := auth_change userId id.

(** Deleting softly, up to the revocation of the sessions. *)
Definition user_delete (userId : Z) : program UserRow :=
  if userId =? 0 then fail (EText "id 为空！") else
  row ← auth_transaction userId (Rewrite false (fun r => r <| us_deleted := true |>));
  publishCommittedUserAuthVersion userId (us_AuthVersion row) ;;
  invalidateUserCache ;;
  mret row.
(** Failures after the commit are only logged.  Of the user; his sessions and his
    keys are deleted in the same transaction. *)
Definition user_HardDelete (userId : Z) : program (UserRow * result unit) :=
  if userId =? 0 then fail (EText "id 为空！") else
  row ← auth_transaction userId Remove;
  published ← attempted (publishCommittedUserAuthVersion userId (us_AuthVersion row));
  attempted invalidateUserCache ;;
  mret (row, published).

(** ** Updates

    An update that decides to leave the version alone, with its commit. *)
Definition kept_version (change : UserRow -> UserRow) (r : UserRow) : UserRow :=
  (change r) <| us_Id := us_Id r |> <| us_AuthVersion := us_AuthVersion r |> <| us_deleted := us_deleted r |>.
Definition same_rights (a b : UserRow) : bool := (us_Status a =? us_Status b) && (us_Role a =? us_Role b).
Definition plain_commit (userId : Z) (change : UserRow -> UserRow) : program UserRow :=
  sql (fun w => match w_row w with
                | Some r => if (us_Id r =? userId) && negb (us_deleted r)
                            then (inr (kept_version change r),
                                  (commit_row false (kept_version change r) w)
                                    <| w_overwritten := w_overwritten w || negb (same_rights (kept_version change r) r) |>)
                            else (inl ErrRecordNotFound, w)
                | None => (inl ErrRecordNotFound, w)
                end).

(** The transaction of both updates: the version is incremented if the row it
    read differs in a right. *)
Definition update_with_tx (userId : Z) (authChanged : UserRow -> bool) (change : UserRow -> UserRow) : program UserRow :=
  current ← read_live userId;
  if authChanged current then auth_transaction userId (Rewrite true change) else plain_commit userId change.

(** [Updates(struct)] writes the fields that are not zero. *)
Definition nonempty (new old : string) : string := if str_eqb new "" then old else new.
Definition nonzero (new old : Z) : Z := if new =? 0 then old else new.
Definition struct_updates (u r : UserRow) : UserRow :=
  r <| us_Group := nonempty (us_Group u) (us_Group r) |> <| us_Email := nonempty (us_Email u) (us_Email r) |>
    <| us_Status := nonzero (us_Status u) (us_Status r) |> <| us_Role := nonzero (us_Role u) (us_Role r) |>
    <| us_Username := nonempty (us_Username u) (us_Username r) |>
    <| us_Password := nonempty (us_Password u) (us_Password r) |>
    <| us_Setting := nonempty (us_Setting u) (us_Setting r) |>.
Definition update_changes_rights (updatePassword : bool) (newUser current : UserRow) : bool :=
  (updatePassword && negb (str_eqb (us_Password current) (us_Password newUser))) ||
  (negb (us_Role newUser =? 0) && negb (us_Role current =? us_Role newUser)) ||
  (negb (us_Status newUser =? 0) && negb (us_Status current =? us_Status newUser)) ||
  (negb (str_eqb (us_Group newUser) "") && negb (str_eqb (us_Group current) (us_Group newUser))).

(** [HashAccountPassword], which draws a salt. *)
Context (hash_password : string -> result string).
Definition with_hash (user : UserRow) (updatePassword : bool) : program UserRow :=
  if updatePassword then
    match hash_password (us_Password user) with inl err => fail err | inr h => mret (user <| us_Password := h |>) end
  else mret user.

Definition UpdateWithTx (user : UserRow) (updatePassword : bool) : program UserRow :=
  newUser ← with_hash user updatePassword;
  update_with_tx (us_Id user) (update_changes_rights updatePassword newUser) (struct_updates newUser).
(** Up to the revocation of the sessions: the row the transaction left is what
    the cache gets. *)
Definition user_Update (user : UserRow) (updatePassword : bool) : program UserRow :=
  row ← UpdateWithTx user updatePassword;
  updateUserCache row ;;
  mret row.

Definition edit_updates (updatePassword : bool) (u r : UserRow) : UserRow :=
  r <| us_Username := us_Username u |> <| us_Group := us_Group u |>
    <| us_Password := if updatePassword then us_Password u else us_Password r |>.
Definition edit_changes_rights (updatePassword : bool) (newUser current : UserRow) : bool :=
  (updatePassword && negb (str_eqb (us_Password current) (us_Password newUser))) ||
  negb (str_eqb (us_Group current) (us_Group newUser)).
Definition EditWithTx (user : UserRow) (updatePassword : bool) : program UserRow :=
  newUser ← with_hash user updatePassword;
  update_with_tx (us_Id user) (edit_changes_rights updatePassword newUser) (edit_updates updatePassword newUser).
Definition user_Edit (user : UserRow) (updatePassword : bool) : program UserRow :=
  row ← EditWithTx user updatePassword;
  updateUserCache row ;;
  mret row.

(** [ClearBinding] of the e-mail address, which no version guards. *)
Definition ClearBinding (userId : Z) : program UserRow :=
  if userId =? 0 then fail (EText "user id is empty") else
  _ ← plain_commit userId (fun r => r <| us_Email := EmptyString |>);
  row ← read_live userId;
  updateUserCache row ;;
  mret row.

(** ** Managing users ([src/controller/user.go]) *)

Definition RoleCommonUser : Z := 1.
Definition RoleAdminUser : Z := 10.
Definition RoleRootUser : Z := 100.
Definition UserStatusEnabled : Z := 1.
Definition UserStatusDisabled : Z := 2.
Variant ManageAction := ActDisable | ActEnable | ActPromote | ActDemote.

Definition canManageTargetRole (myRole targetRole : Z) : bool := (myRole =? RoleRootUser) || (targetRole <? myRole).
(** What the action makes of the row that was read. *)
Definition manage_user (action : ManageAction) (myRole : Z) (user : UserRow) : result UserRow :=
  match action with
  | ActDisable => if us_Role user =? RoleRootUser then inl (EText "user.cannot_disable_root_user")
                  else inr (user <| us_Status := UserStatusDisabled |>)
  | ActEnable => inr (user <| us_Status := UserStatusEnabled |>)
  | ActPromote => if negb (myRole =? RoleRootUser) then inl (EText "user.admin_cannot_promote")
                  else if RoleAdminUser <=? us_Role user then inl (EText "user.already_admin")
                  else inr (user <| us_Role := RoleAdminUser |>)
  | ActDemote => if us_Role user =? RoleRootUser then inl (EText "user.cannot_demote_root_user")
                 else if us_Role user =? RoleCommonUser then inl (EText "user.already_common")
                 else inr (user <| us_Role := RoleCommonUser |>)
  end.
Definition zero_user (id : Z) : UserRow := mkUserRow id "" "" 0 0 0 "" "" "" 0 false.
(** The row is read outside of the transaction that writes it back, and a read
    that fails leaves the empty row.  ([userId] is not zero: with a zero id the
    query has no condition.) *)
Definition ManageUser (userId : Z) (action : ManageAction) (myRole : Z) : program UserRow :=
  found ← attempted (read_unscoped userId);
  let user := match found with inr user => user | inl _ => zero_user userId end in
  if us_Id user =? 0 then fail (EText "user.not_exists") else
  if negb (canManageTargetRole myRole (us_Role user)) then fail (EText "user.no_permission_higher_level") else
  match manage_user action myRole user with
  | inl err => fail err
  | inr user =>
      match action with
      | ActDemote => row ← UpdateWithTx user false; PublishUserAuthCache userId ;; mret row
      | _ => user_Update user false
      end
  end.
(** The user's own invitation code, made when he first asks for it; the code
    itself is not cached. *)
Definition GetAffCode (userId : Z) (has_code : bool) : program unit :=
  user ← GetUserById userId;
  if has_code then mret tt else
  user_Update user false ;; mret tt.
End Functions.
