(* ===== verification/UserCacheFacts.v ===== *)
(** * What each step of the user cache may do

    The invariant of the row, its history and the three keys; how they develop
    ([evolves]); and for every function of [UserCache] that its statements stay
    within both, whatever runs between them. *)

From stdpp Require Import base numbers option strings list relations sorting.
From Stdlib Require Import ZArith Lia.
From S2P Require Import Prelude Store Interleave UserCache.
Open Scope Z_scope.

(** ** The history of the row *)

(** A later row and an earlier one: rights change only with the version, and a
    deletion is not taken back. *)
Definition newer (r older : UserRow) : Prop :=
  us_Id r = us_Id older /\ us_AuthVersion older <= us_AuthVersion r /\
  (us_deleted older = true -> us_deleted r = true) /\
  (us_AuthVersion r = us_AuthVersion older -> us_Status r = us_Status older /\ us_Role r = us_Role older /\ us_deleted r = us_deleted older).

Lemma newer_refl r : newer r r.
Proof. by repeat split. Qed.
Lemma newer_trans a b c : newer a b -> newer b c -> newer a c.
Proof.
  intros (H1 & H2 & H3 & H4) (K1 & K2 & K3 & K4). split_and!; [congruence | lia | auto|].
  intros E. assert (us_AuthVersion a = us_AuthVersion b) as Ea by lia. assert (us_AuthVersion b = us_AuthVersion c) as Eb by lia.
  destruct (H4 Ea) as (? & ? & ?), (K4 Eb) as (? & ? & ?). split_and!; congruence.
Qed.

Definition top (w : World) : Z := match w_log w with r :: _ => us_AuthVersion r | [] => 0 end.

(** The rights in [u] are those of [r]. *)
Definition rights_of (u : UserBase) (r : UserRow) : Prop :=
  ub_Id u = us_Id r /\ ub_AuthVersion u = us_AuthVersion r /\ ub_Status u = us_Status r /\ ub_Role u = us_Role r.
(** They are those of a row that was committed and not deleted. *)
Definition genuine (u : UserBase) (w : World) : Prop :=
  exists r, r ∈ w_log w /\ us_deleted r = false /\ rights_of u r.

Lemma rights_base r : rights_of (ToBaseUser r) r.
Proof. by repeat split. Qed.

Section Facts.
Context (redis : bool) (uid : Z) (Huid : 0 < uid).

Definition inv (w : World) : Prop :=
  StronglySorted newer (w_log w) /\
  (forall r, w_row w = Some r -> head (w_log w) = Some r) /\
  number (w_committed w) <= top w /\
  (forall h, w_hash w = Some h -> genuine (uh_fields h) w /\ ub_AuthVersion (uh_fields h) <= number (w_committed w)) /\
  w_acknowledged w <= top w /\ (redis = true -> w_acknowledged w <= number (w_committed w)) /\
  Forall (fun p => exists r, r ∈ w_log w /\ us_deleted r = false /\ rights_of p.2 r /\ p.1 <= us_AuthVersion r) (w_served w) /\
  Forall (fun r => us_Id r = uid) (w_log w).

Definition evolves (w w' : World) : Prop :=
  (exists l, w_log w' = l ++ w_log w) /\ top w <= top w' /\ number (w_committed w) <= number (w_committed w') /\
  w_acknowledged w <= w_acknowledged w'.

Lemma cache_evolves_refl w : evolves w w.
Proof. split_and!; [by exists [] | lia..]. Qed.
Lemma cache_evolves_trans a b c : evolves a b -> evolves b c -> evolves a c.
Proof.
  intros ([l Hl] & ? & ? & ?) ([k Hk] & ? & ? & ?). split_and!; [|lia..]. exists (k ++ l). by rewrite Hk, Hl, app_assoc.
Qed.
Lemma evolves_log w w' r : evolves w w' -> r ∈ w_log w -> r ∈ w_log w'.
Proof. intros ([l ->] & _) Hr. apply elem_of_app. by right. Qed.
Lemma evolves_genuine w w' u : evolves w w' -> genuine u w -> genuine u w'.
Proof. intros He (r & Hr & ?). exists r. split; [by eapply evolves_log | done]. Qed.

Lemma log_top w r : StronglySorted newer (w_log w) -> r ∈ w_log w -> us_AuthVersion r <= top w.
Proof.
  unfold top. destruct (w_log w) as [|r0 l]; [by intros _ ?%elem_of_nil|]. intros [_ Hf]%StronglySorted_inv [->|Hin]%elem_of_cons; [done|].
  rewrite Forall_forall in Hf. by destruct (Hf r Hin) as (_ & ? & _).
Qed.

(** A step that leaves the row and its history alone. *)
Lemma keys_step w w' :
  inv w -> w_row w' = w_row w -> w_log w' = w_log w -> w_acknowledged w' = w_acknowledged w -> w_served w' = w_served w ->
  number (w_committed w) <= number (w_committed w') <= top w ->
  (forall h, w_hash w' = Some h -> genuine (uh_fields h) w /\ ub_AuthVersion (uh_fields h) <= number (w_committed w')) ->
  inv w' /\ evolves w w'.
Proof.
  intros (H1 & H2 & H3 & H4 & H5 & H6 & H7 & H8) Hrow Hlog Hack Hserved Hc Hh.
  assert (top w' = top w) as Htop by (unfold top; by rewrite Hlog).
  split.
  - unfold inv, genuine in *. rewrite Hrow, Hlog, Hack, Hserved, Htop. split_and!; [done | done | lia | done | done | | done | done].
    intros Hr. specialize (H6 Hr). lia.
  - split_and!; [exists []; by rewrite Hlog | lia | lia | lia].
Qed.

(** A commit: a newer row. *)
Lemma commit_step hard r w r0 :
  inv w -> w_row w = Some r0 -> newer r r0 -> inv (commit_row hard r w) /\ evolves w (commit_row hard r w).
Proof.
  intros (H1 & H2 & H3 & H4 & H5 & H6 & H7 & H8) Hrow Hnew. specialize (H2 r0 Hrow).
  destruct (w_log w) as [|r1 l] eqn:El; [done|]. injection H2 as ->.
  assert (us_AuthVersion r0 <= us_AuthVersion r) as Hv by apply Hnew.
  assert (top w = us_AuthVersion r0) as Htop by (unfold top; by rewrite El).
  assert (evolves w (commit_row hard r w)) as He.
  { split_and!; [exists [r]; cbn; by rewrite El | rewrite Htop; unfold top; cbn; lia | done | done]. }
  assert (top (commit_row hard r w) = us_AuthVersion r) as Htop' by done.
  split; [|done]. unfold inv, genuine. rewrite Htop'. cbn. rewrite El. split_and!.
  - constructor; [done|]. apply StronglySorted_inv in H1 as [_ Hf]. constructor; [done|].
    eapply Forall_impl; [exact Hf|]. intros r'. by apply newer_trans.
  - intros r'. destruct hard; [done|]. by intros [= ->].
  - lia.
  - intros h Hh. destruct (H4 h Hh) as [Hg ?]. split; [|done]. by apply (evolves_genuine _ _ _ He) in Hg; unfold genuine in Hg; cbn in Hg; rewrite El in Hg.
  - lia.
  - done.
  - eapply Forall_impl; [exact H7|]. intros p (r' & Hr' & ?). exists r'. split; [by right | done].
  - apply Forall_cons. split; [|done]. apply Forall_cons in H8 as [<- _]. by destruct Hnew.
Qed.

(** ** The rules of [Interleave] for this invariant *)

Definition cok {A} (p : program A) (R : A -> World -> Prop) (w : World) : Prop := prog_ok inv evolves evolves p R w.

Lemma evolves_keep w : inv w -> evolves w w.
Proof. intros _. apply cache_evolves_refl. Qed.
Lemma cok_ret {A} (a : A) (R : A -> World -> Prop) w : (forall w', evolves w w' -> inv w' -> R a w') -> cok (mret a) R w.
Proof. apply rule_ret. Qed.
Lemma cok_fail {A} err (R : A -> World -> Prop) w : cok (fail err) R w.
Proof. apply rule_fail. Qed.
Lemma cok_bind {A B} (p : program A) (f : A -> program B) R R' w :
  cok p R w -> (forall a w', evolves w w' -> inv w' -> (forall w2, evolves w' w2 -> inv w2 -> R a w2) -> cok (f a) R' w') ->
  inv w -> cok (p ≫= f) R' w.
Proof. apply (rule_bind inv evolves evolves cache_evolves_refl cache_evolves_trans (fun _ _ H => H)). Qed.
Lemma cok_seq {A B} (p : program A) (q : program B) R R' w :
  cok p R w -> (forall w', evolves w w' -> inv w' -> (exists a, forall w2, evolves w' w2 -> inv w2 -> R a w2) -> cok q R' w') ->
  inv w -> cok (p ;; q) R' w.
Proof. intros Hp Hq. apply (cok_bind p (fun _ => q) R); [done|]. intros a w' Hw Hi HR. apply Hq; [done | done | by exists a]. Qed.
Lemma cok_attempted {A} (p : program A) R w : cok p R w -> inv w -> cok (attempted p) (fun r w' => answers R r w') w.
Proof. apply (rule_attempted inv evolves evolves cache_evolves_refl cache_evolves_trans (fun _ _ H => H)). Qed.
Lemma cok_mono {A} (p : program A) (R R' : A -> World -> Prop) w : (forall a w', R a w' -> R' a w') -> cok p R w -> cok p R' w.
Proof. apply (rule_mono inv evolves evolves cache_evolves_trans (fun _ _ H => H)). Qed.
Lemma cok_sql {A} (f : World -> result A * World) (R : A -> World -> Prop) w :
  (forall w', evolves w w' -> inv w' -> inv (f w').2 /\ evolves w' (f w').2 /\
     forall a w2, (f w').1 = inr a -> evolves (f w').2 w2 -> inv w2 -> R a w2) -> cok (sql f) R w.
Proof. apply (rule_sql inv evolves evolves evolves_keep). Qed.
Lemma cok_read {A} (f : World -> result A) (R : A -> World -> Prop) w :
  (forall w' a w2, evolves w w' -> inv w' -> f w' = inr a -> evolves w' w2 -> inv w2 -> R a w2) ->
  cok (sql (fun w => (f w, w))) R w.
Proof. apply (rule_read inv evolves evolves evolves_keep). Qed.

(** ** Scripts *)

Lemma raise_floor_step v w : v <= top w -> inv w -> inv (raise_floor v w) /\ evolves w (raise_floor v w) /\ v <= number (w_committed (raise_floor v w)).
Proof.
  intros Hv Hi. assert (number (w_committed (raise_floor v w)) = Z.max (number (w_committed w)) v) as Hc.
  { unfold raise_floor. destruct (Z.ltb_spec (number (w_committed w)) v), (_ && _); cbn; change (number (Some v)) with v; lia. }
  assert (w_hash (raise_floor v w) = w_hash w) as Hh by (unfold raise_floor; by destruct (_ <? v), (_ && _)).
  destruct (keys_step w (raise_floor v w)) as [H1 H2]; try done; try (unfold raise_floor; by destruct (_ <? v), (_ && _)).
  - rewrite Hc. destruct Hi as (_ & _ & H & _). lia.
  - intros h. rewrite Hh. intros Hh'. destruct Hi as (_ & _ & _ & H & _). destruct (H h Hh') as [? ?]. split; [done | rewrite Hc; lia].
  - split_and!; [done | done | rewrite Hc; lia].
Qed.

Lemma stale_false v w : stale v w = false -> number (w_pending w) <= v /\ number (w_committed w) <= v /\ current_version w <= v.
Proof. unfold stale. rewrite !orb_false_iff, !Z.ltb_ge. naive_solver. Qed.

(** Replacing the hash by a genuine one at the floor. *)
Lemma set_hash_step h w :
  inv w -> genuine (uh_fields h) w -> ub_AuthVersion (uh_fields h) <= number (w_committed w) ->
  inv (w <| w_hash := Some h |>) /\ evolves w (w <| w_hash := Some h |>).
Proof.
  intros Hi Hg Hv. apply keys_step; try done; cbn; [destruct Hi as (_ & _ & ? & _); lia|]. by intros h' [= <-].
Qed.

Lemma genuine_top u w : inv w -> genuine u w -> ub_AuthVersion u <= top w.
Proof. intros [Hs _] (r & Hr & _ & _ & -> & _). by apply log_top. Qed.

Lemma write_script_ok user includeQuota w :
  genuine user w -> cok (sql (write_script user includeQuota)) (fun n w' => n <> 0 -> ub_AuthVersion user <= number (w_committed w')) w.
Proof.
  intros Hg0. apply cok_sql. intros w' Hw Hi. pose proof (evolves_genuine _ _ _ Hw Hg0) as Hg.
  unfold write_script. destruct (stale _ w') eqn:Es; cbn [fst snd].
  { split_and!; [done | apply cache_evolves_refl|]. by intros a w2 [= <-]. }
  destruct (raise_floor_step (ub_AuthVersion user) w') as (Hi1 & He1 & Hv); [by apply genuine_top | done|].
  set (w1 := raise_floor (ub_AuthVersion user) w') in *. destruct (_ && _); cbn [fst snd].
  { split_and!; [done | done|]. intros a w2 _ (_ & _ & Hc & _) _ _. lia. }
  destruct (set_hash_step (mkUserHash user (match w_hash w1 ≫= uh_Quota with Some q => Some q | None => if includeQuota then Some (ub_Quota user) else None end)) w1)
    as [Hi2 He2]; [done | by eapply evolves_genuine | done|].
  split_and!; [done | by eapply cache_evolves_trans|]. intros a w2 _ (_ & _ & Hc & _) _ _. cbn in Hc. lia.
Qed.

Lemma fence_script_ok v w : cok (sql (fence_script v)) anything w.
Proof.
  apply cok_sql. intros w' _ Hi. cbn [fence_script fst snd]. apply and_assoc. split; [|by intros].
  apply keys_step; try done; destruct (_ <? v); cbn; try done; destruct Hi as (_ & _ & ? & H & _); try lia; intros h Hh; by apply H.
Qed.

Lemma publish_script_ok v w : v <= top w -> cok (sql (publish_script v)) (fun _ w' => v <= number (w_committed w')) w.
Proof.
  intros Hv. apply cok_sql. intros w' (_ & Ht & _) Hi. destruct (raise_floor_step v w') as (? & ? & ?); [lia | done|].
  split_and!; [done | done|]. intros a w2 _ (_ & _ & Hc & _) _. cbn in Hc. lia.
Qed.

Lemma set_field_genuine f value u w :
  genuine u w -> genuine ((set_cached_field f value u) <| ub_CacheSchema := userCacheSchemaVersion |>) w.
Proof. intros (r & ? & ? & ?). exists r. by destruct f. Qed.
Lemma set_field_version f value u : ub_AuthVersion (set_cached_field f value u) = ub_AuthVersion u.
Proof. by destruct f. Qed.

Lemma field_script_ok f value v w : v <= top w -> cok (sql (field_script f value v)) anything w.
Proof.
  intros Hv. apply cok_sql. intros w' (_ & Ht & _) Hi. apply and_assoc. split; [|by intros].
  unfold field_script. destruct (stale v w'); [split; [done | apply cache_evolves_refl]|].
  destruct (raise_floor_step v w') as (Hi1 & He1 & _); [lia | done|]. set (w1 := raise_floor v w') in *.
  destruct (w_hash w1) as [h|] eqn:Eh; [|done]. destruct (_ =? v); [|done]. cbn [snd].
  pose proof (proj1 (proj2 (proj2 (proj2 Hi1))) h Eh) as [Hg Hle].
  destruct (set_hash_step (h <| uh_fields := (set_cached_field f value (uh_fields h)) <| ub_CacheSchema := userCacheSchemaVersion |> |>) w1) as [Hi2 He2];
    [done | by apply set_field_genuine | cbn; by rewrite set_field_version|].
  split; [done | by eapply cache_evolves_trans].
Qed.

Lemma set_quota_step q w : inv w -> inv (set_cached_quota q w) /\ evolves w (set_cached_quota q w).
Proof.
  intros Hi. apply keys_step; try done; cbn; destruct Hi as (_ & _ & ? & H & _); [lia|].
  intros h Hh. destruct (w_hash w) as [h0|]; [|done]. injection Hh as <-. exact (H h0 eq_refl).
Qed.
Lemma quota_delta_ok id delta w : cok (sql (quota_delta_script id delta)) anything w.
Proof.
  apply cok_sql. intros w' _ Hi. apply and_assoc. split; [|by intros]. unfold quota_delta_script.
  destruct (hash_usable id w'); [by apply set_quota_step | split; [done | apply cache_evolves_refl]].
Qed.
Lemma quota_reserve_ok id amount w : cok (sql (quota_reserve_script id amount)) anything w.
Proof.
  apply cok_sql. intros w' _ Hi. apply and_assoc. split; [|by intros]. unfold quota_reserve_script.
  destruct (hash_usable id w') as [q|]; [destruct (q <? amount)|]; [|by apply set_quota_step|]; (split; [done | apply cache_evolves_refl]).
Qed.

(** ** Functions *)

(** What the keys and the row guarantee from [w] on about a version that was
    acknowledged. *)
Definition covered (a : Z) (w : World) : Prop := a <= top w /\ (redis = true -> a <= number (w_committed w)).
Lemma covered_evolves a w w' : evolves w w' -> covered a w -> covered a w'.
Proof. intros (_ & Ht & Hc & _) [H1 H2]. split; [lia|]. intros Hr. specialize (H2 Hr). lia. Qed.

Lemma genuine_id u w : inv w -> genuine u w -> ub_Id u = uid.
Proof.
  intros (_ & _ & _ & _ & _ & _ & _ & Hids) (r & Hr & _ & -> & _). rewrite Forall_forall in Hids. by apply Hids.
Qed.

Lemma writeUserCache_ok user includeQuota w :
  inv w -> genuine user w ->
  cok (writeUserCache redis user includeQuota) (fun _ w' => redis = true -> ub_AuthVersion user <= number (w_committed w')) w.
Proof.
  intros Hi Hg. unfold writeUserCache. pose proof (genuine_id user w Hi Hg). destruct (Z.leb_spec (ub_Id user) 0); [lia|].
  destruct redis eqn:Er; cbn [orb negb]; [|apply cok_ret; done].
  destruct (_ <=? 0); [apply cok_fail|]. match goal with |- cok (sql (write_script ?u _) ≫= _) _ _ => set (user' := u) end.
  assert (genuine user' w) as Hg' by (destruct Hg as (r & ? & ? & ?); by exists r).
  eapply cok_bind; [by apply write_script_ok | | done]. intros n w' _ _ HR.
  destruct (Z.eqb_spec n 0) as [|Hn]; [apply cok_fail|]. apply cok_ret. intros w2 Hw Hi2 _. by apply (HR w2).
Qed.

Lemma updateUserCache_ok r w :
  inv w -> r ∈ w_log w -> us_deleted r = false ->
  cok (updateUserCache redis r) (fun _ w' => redis = true -> us_AuthVersion r <= number (w_committed w')) w.
Proof.
  intros Hi Hr Hd. unfold updateUserCache. destruct redis eqn:Er; cbn [negb]; [|by apply cok_ret].
  rewrite <- Er. eapply cok_mono; [|apply (writeUserCache_ok (ToBaseUser r)); [done|]].
  - intros a w' H Hr'. by apply H.
  - exists r. split_and!; [done | done | apply rights_base].
Qed.
Lemma populateUserCache_ok r w : inv w -> r ∈ w_log w -> us_deleted r = false -> cok (populateUserCache redis r) anything w.
Proof.
  intros Hi Hr Hd. unfold populateUserCache. destruct redis eqn:Er; cbn [negb]; [|by apply cok_ret].
  rewrite <- Er. eapply cok_mono; [|apply (writeUserCache_ok (ToBaseUser r)); [done|]]; [done|].
  exists r. split_and!; [done | done | apply rights_base].
Qed.

Lemma floor_ok a w : covered a w -> cok (getUserAuthVersionFloor redis) (fun floor _ => redis = true -> a <= floor) w.
Proof.
  intros Hc. unfold getUserAuthVersionFloor. destruct redis eqn:Er; cbn [negb]; [|by apply cok_ret].
  apply cok_read. intros w' f w2 Hw _ [= <-] _ _ _. apply (covered_evolves a w w' Hw) in Hc as [_ Hc]. specialize (Hc Er).
  unfold floor_of. lia.
Qed.

Lemma floor_any w : cok (getUserAuthVersionFloor redis) anything w.
Proof. unfold getUserAuthVersionFloor. destruct redis; cbn [negb]; [|by apply cok_ret]. by apply cok_read. Qed.

(** The row's part of [covered] lasts. *)
Lemma cok_and_covered {A} a (p : program A) w :
  a <= top w -> cok p (fun _ w' => redis = true -> a <= number (w_committed w')) w -> cok p (fun _ w' => covered a w') w.
Proof.
  intros Ha. unfold cok, prog_ok. apply safe_mono; [apply cache_evolves_trans | | done].
  intros [err|x] w' (_ & Ht & _) _; [done|]. cbn. intros H. split; [lia | done].
Qed.

Lemma cacheGetUserBase_ok a w :
  inv w -> covered a w -> cok (cacheGetUserBase redis uid) (fun u w' => genuine u w' /\ a <= ub_AuthVersion u) w.
Proof.
  intros Hi Hc. unfold cacheGetUserBase. destruct redis eqn:Er; cbn [negb]; [|apply cok_fail]. rewrite <- Er.
  eapply (cok_bind _ _ genuine); [|intros u w1 He1 Hi1 Hg|done].
  { apply cok_read. intros w' u w2 _ Hi' Hu He2 _. destruct (w_hash w') as [h|] eqn:Eh; [|done]. injection Hu as <-.
    destruct (proj1 (proj2 (proj2 (proj2 Hi'))) h Eh) as [(r & ? & ? & ?) _]. exists r. split; [by eapply evolves_log | done]. }
  destruct (_ || _); [apply cok_fail|].
  eapply cok_bind; [apply (floor_ok a); by eapply covered_evolves | | done]. intros f w2 He2 Hi2 Hf.
  destruct (Z.ltb_spec (ub_AuthVersion u) f) as [|Hle]; [apply cok_fail|]. apply cok_ret. intros w3 He3 Hi3.
  split; [apply Hg; [by eapply cache_evolves_trans | done]|]. specialize (Hf w2 (cache_evolves_refl _) Hi2 Er). lia.
Qed.

Lemma read_live_ok a id w :
  a <= top w -> cok (read_live id) (fun r w' => r ∈ w_log w' /\ us_deleted r = false /\ a <= us_AuthVersion r) w.
Proof.
  intros Ha. apply cok_read.
  intros w' r w2 (_ & Ht & _) Hi Hr He2 _. destruct (w_row w') as [r0|] eqn:Er; [|done]. destruct (_ && _) eqn:Ed; [|done]. injection Hr as <-.
  apply andb_prop in Ed as [_ Ed%negb_true_iff]. pose proof (proj1 (proj2 Hi) r0 Er) as Hhead.
  assert (us_AuthVersion r0 = top w') as Hv by (unfold top; destruct (w_log w'); [done | by injection Hhead as ->]).
  assert (r0 ∈ w_log w') as Hin by (destruct (w_log w'); [done | injection Hhead as ->; left]).
  split_and!; [by eapply evolves_log | done | lia].
Qed.

Lemma GetUserById_ok a id w :
  a <= top w -> cok (GetUserById id) (fun r w' => r ∈ w_log w' /\ us_deleted r = false /\ a <= us_AuthVersion r) w.
Proof. intros Ha. unfold GetUserById. destruct (id =? 0); [apply cok_fail | by apply read_live_ok]. Qed.

(** A look-up answers with rights at least as new as anything acknowledged
    before it began. *)
Lemma GetUserCache_ok a w :
  inv w -> covered a w -> cok (GetUserCache redis uid) (fun u w' => genuine u w' /\ a <= ub_AuthVersion u) w.
Proof.
  intros Hi Hc. unfold GetUserCache.
  eapply cok_bind; [apply cok_attempted; [by apply cacheGetUserBase_ok | done] | | done].
  intros [err|u] w1 He1 Hi1 Hcached; [|by apply cok_ret].
  pose proof (covered_evolves a w w1 He1 Hc) as Hc1.
  eapply cok_bind; [apply (GetUserById_ok a uid), Hc1 | | done]. intros r w2 He2 Hi2 Hr.
  assert (forall w', evolves w2 w' -> inv w' -> genuine (ToBaseUser r) w' /\ a <= ub_AuthVersion (ToBaseUser r)) as Hanswer.
  { intros w' He' Hi'. destruct (Hr w' He' Hi') as (? & ? & ?). split; [|done]. exists r. split_and!; [done | done | apply rights_base]. }
  destruct redis eqn:Er; cbn [negb]; [|by apply cok_ret]. rewrite <- Er.
  eapply cok_bind; [apply cok_attempted; [apply floor_any | done] | | done]. intros f w3 He3 Hi3 _.
  destruct (match f with inr _ => _ | inl _ => _ end); [apply cok_fail|].
  assert (forall w', evolves w3 w' -> inv w' -> genuine (ToBaseUser r) w' /\ a <= ub_AuthVersion (ToBaseUser r)) as Hanswer3.
  { intros w' He'. apply Hanswer. by eapply cache_evolves_trans. }
  destruct (Hr w3 He3 Hi3) as (Hin & Hd & _).
  eapply cok_bind; [apply cok_attempted; [by apply populateUserCache_ok | done] | | done].
  intros p w4 He4 Hi4 _. assert (forall w', evolves w4 w' -> inv w' -> genuine (ToBaseUser r) w' /\ a <= ub_AuthVersion (ToBaseUser r)) as Hanswer4.
  { intros w' He'. apply Hanswer3. by eapply cache_evolves_trans. }
  destruct p as [err2|]; [|by apply cok_ret]. destruct (is_err _ _); [apply cok_fail | by apply cok_ret].
Qed.

(** ** Changes *)

(** Publishing covers every version the row had. *)
Lemma PublishUserAuthCache_ok a id w :
  inv w -> a <= top w -> cok (PublishUserAuthCache redis id) (fun _ w' => covered a w') w.
Proof.
  intros Hi Ha. unfold PublishUserAuthCache.
  eapply cok_bind; [by apply GetUserById_ok | | done]. intros r w1 He1 Hi1 Hr. destruct (Hr w1 (cache_evolves_refl _) Hi1) as (Hin & Hd & Hv).
  assert (a <= top w1) as Ha1 by (destruct He1 as (_ & ? & _); lia).
  apply (cok_and_covered a _ w1 Ha1). eapply cok_mono; [|by apply updateUserCache_ok]. intros ? w' H Hr'. specialize (H Hr'). lia.
Qed.
Lemma publishCommitted_ok a id w : inv w -> a <= top w -> cok (publishCommittedUserAuthVersion redis id a) (fun _ w' => covered a w') w.
Proof.
  intros Hi Ha. apply (cok_and_covered a _ w Ha). unfold publishCommittedUserAuthVersion. destruct redis eqn:Er; cbn [negb]; [|by apply cok_ret].
  destruct (_ || _); [apply cok_fail|].
  eapply cok_bind; [by apply publish_script_ok | | done]. intros n w1 _ _ H. apply cok_ret. intros w2 He2 Hi2 _. by apply H.
Qed.
Lemma SetUserAuthVersionFence_ok id v w : inv w -> cok (SetUserAuthVersionFence redis id v) anything w.
Proof.
  intros Hi. unfold SetUserAuthVersionFence. destruct redis; cbn [negb]; [|by apply cok_ret].
  destruct (_ || _); [apply cok_fail|]. eapply cok_bind; [apply fence_script_ok | | done]. intros n w1 _ _ _. by apply cok_ret.
Qed.
Lemma invalidateUserCache_ok w : cok (invalidateUserCache redis) anything w.
Proof.
  unfold invalidateUserCache. destruct redis; cbn [negb]; [|by apply cok_ret]. apply cok_sql. intros w' _ Hi.
  apply and_assoc. split; [|by intros]. apply keys_step; try done. cbn. destruct Hi as (_ & _ & ? & _). lia.
Qed.

(** A changed row is newer than the one it replaces. *)
Lemma changed_newer c next r : us_AuthVersion r < next -> newer (changed_row c next r) r.
Proof.
  intros Hv. destruct c as [live change|]; unfold newer; cbn.
  - split_and!; [done | lia | by intros -> | lia].
  - split_and!; [done | lia | done | lia].
Qed.

Lemma cas_commit_ok id expected next c w :
  expected < next ->
  cok (cas_commit id expected next c) (fun o w' => match o with
    | Some row => row ∈ w_log w' /\ exists r, row = changed_row c next r /\ (needs_live c = true -> us_deleted r = false)
    | None => True
    end) w.
Proof.
  intros Hlt. apply cok_sql. intros w' _ Hi. unfold cas_statement. destruct (w_row w') as [r|] eqn:Er; cbn [fst snd].
  2:{ split_and!; [done | apply cache_evolves_refl|]. by intros a w2 [= <-]. }
  destruct (_ && _) eqn:E; cbn [fst snd].
  2:{ split_and!; [done | apply cache_evolves_refl|]. by intros a w2 [= <-]. }
  apply andb_prop in E as [_ E%Z.eqb_eq]. destruct (needs_live c && us_deleted r) eqn:Ed; cbn [fst snd].
  { split_and!; [done | apply cache_evolves_refl | done]. }
  destruct (commit_step (is_hard c) (changed_row c next r) w' r Hi Er) as [Hi' He']; [apply changed_newer; lia|].
  split_and!; [done | done|]. intros o w2 [= <-] He2 _. split; [eapply evolves_log; [done|]; cbn; left|].
  exists r. split; [done|]. intros Hl. by rewrite Hl in Ed.
Qed.

Lemma read_unscoped_ok id w : cok (read_unscoped id) anything w.
Proof. by apply cok_read. Qed.

Lemma auth_transaction_ok id c w :
  inv w -> cok (auth_transaction redis id c) (fun row w' => row ∈ w_log w' /\
    exists next r, row = changed_row c next r /\ (needs_live c = true -> us_deleted r = false)) w.
Proof.
  unfold auth_transaction. destruct (id <=? 0); [intros; apply cok_fail|]. generalize 3%nat as n. intros n. revert w. induction n as [|n IH]; intros w Hi; cbn [increment_attempts]; [apply cok_fail|].
  eapply cok_bind; [apply read_unscoped_ok | | done]. intros user w1 _ Hi1 _.
  eapply cok_seq; [by apply SetUserAuthVersionFence_ok | | done]. intros w2 _ Hi2 _.
  eapply cok_bind; [apply cas_commit_ok; lia | | done]. intros [row|] w3 _ Hi3 H; [|by apply IH].
  apply cok_ret. intros w4 He4 Hi4. destruct (H w4 He4 Hi4) as (Hin & r & ? & ?). split; [done|]. by eexists _, r.
Qed.

(** What a change reports is covered. *)
Abbreviation reports := (fun row w' => covered (us_AuthVersion row) w').

Lemma log_covered row w : inv w -> row ∈ w_log w -> us_AuthVersion row <= top w.
Proof. intros [Hs _]. by apply log_top. Qed.

Lemma auth_change_ok id change w : inv w -> cok (auth_change redis id change) reports w.
Proof.
  intros Hi. eapply cok_bind; [by apply auth_transaction_ok | | done]. intros row w1 He1 Hi1 Hrow.
  destruct (Hrow w1 (cache_evolves_refl _) Hi1) as [Hin _].
  eapply cok_seq; [apply PublishUserAuthCache_ok; [done | by apply log_covered] | | done].
  intros w2 He2 Hi2 (? & H). apply cok_ret. exact H.
Qed.
Lemma delete_ok id w : inv w -> cok (user_delete redis id) reports w.
Proof.
  intros Hi. unfold user_delete. destruct (id =? 0); [apply cok_fail|]. eapply cok_bind; [by apply auth_transaction_ok | | done]. intros row w1 He1 Hi1 Hrow.
  destruct (Hrow w1 (cache_evolves_refl _) Hi1) as [Hin _].
  eapply cok_seq; [apply publishCommitted_ok; [done | by apply log_covered] | | done]. intros w2 He2 Hi2 (? & H).
  eapply cok_seq; [apply invalidateUserCache_ok | | done]. intros w3 He3 Hi3 _. apply cok_ret.
  intros w4 He4. apply H. by eapply cache_evolves_trans.
Qed.
Lemma HardDelete_ok id w :
  inv w -> cok (user_HardDelete redis id) (fun p w' => match p.2 with inr _ => covered (us_AuthVersion p.1) w' | inl _ => True end) w.
Proof.
  intros Hi. unfold user_HardDelete. destruct (id =? 0); [apply cok_fail|]. eapply cok_bind; [by apply auth_transaction_ok | | done]. intros row w1 He1 Hi1 Hrow.
  destruct (Hrow w1 (cache_evolves_refl _) Hi1) as [Hin _].
  eapply cok_bind; [apply cok_attempted; [apply publishCommitted_ok; [done | by apply log_covered] | done] | | done]. intros p w2 He2 Hi2 H.
  eapply cok_bind; [apply cok_attempted; [apply invalidateUserCache_ok | done] | | done]. intros q w3 He3 Hi3 _. apply cok_ret.
  intros w4 He4 Hi4. cbn. specialize (H w4 (cache_evolves_trans _ _ _ He3 He4) Hi4). by destruct p.
Qed.

Lemma updateField_ok id field value w : inv w -> cok (updateUserCacheField redis id field value) anything w.
Proof.
  intros Hi. unfold updateUserCacheField. destruct redis eqn:Er; cbn [negb]; [|by apply cok_ret].
  eapply cok_bind; [apply (read_live_ok (top w)); done | | done]. intros user w1 _ Hi1 H. destruct (H w1 (cache_evolves_refl _) Hi1) as [Hin _].
  destruct (_ <=? 0); [apply cok_fail|]. unfold updateUserCacheFieldAtVersion. cbn [negb]. destruct (_ || _); [apply cok_fail|].
  eapply cok_bind; [apply field_script_ok; by apply log_covered | | done]. intros n w2 _ _ _. destruct (n =? 0); [apply cok_fail | by apply cok_ret].
Qed.
End Facts.
