(* ===== verification/UserUpdates.v ===== *)
(** * Updates of the user row, in and out of step with the version

    [user_Update] writes back every field of a row that may have been read long
    ago, and increments the version only if the row it finds differs in a right.
    Here: what these functions may do as long as no such write has silently
    overwritten a right, and no hard deletion went unpublished ([excepted]).
    The rules of [UserCacheFacts] carry over to programs that leave the mark
    alone ([quiet]). *)

From stdpp Require Import base numbers option strings list relations sorting.
From Stdlib Require Import ZArith Lia.
From S2P Require Import Prelude Store Interleave Marked UserCache UserCacheFacts.
Open Scope Z_scope.

(** ** Programs that leave the mark alone *)

Definition excepted (w : World) : bool := w_overwritten w || w_unpublished w.

Definition same_mark (w w' : World) : Prop := excepted w' = excepted w.
Definition quiet_at {A} (p : prog World A) (w : World) : Prop :=
  safe (fun _ => True) (fun _ _ => True) same_mark p (fun _ _ => True) w.
Definition quiet {A} (p : program A) : Prop := forall w, quiet_at p w.

Lemma quiet_ret {A} (a : A) : quiet (mret a).
Proof. by intros w w'. Qed.
Lemma quiet_fail {A} err : quiet (fail (A := A) err).
Proof. by intros w w'. Qed.
Lemma quiet_prog_bind {A B} (p : prog World A) (f : A -> prog World B) w :
  quiet_at p w -> (forall a w', quiet_at (f a) w') -> quiet_at (prog_bind p f) w.
Proof. intros Hp Hf. eapply safe_bind; try done. intros a w' _ _ _. apply Hf. Qed.
Lemma quiet_bind {A B} (p : program A) (f : A -> program B) : quiet p -> (forall a, quiet (f a)) -> quiet (p ≫= f).
Proof. intros Hp Hf w. apply quiet_prog_bind; [apply Hp|]. intros [err|a] w'; [done | apply Hf]. Qed.
Lemma quiet_attempted {A} (p : program A) : quiet p -> quiet (attempted p).
Proof. intros Hp w. by apply quiet_prog_bind. Qed.
Lemma quiet_sql {A} (f : World -> result A * World) : (forall w, excepted (f w).2 = excepted w) -> quiet (sql f).
Proof.
  intros H w w' d _ _. specialize (H w'). destruct d; cbn; [destruct (f w') | | destruct (f w')]; by split_and!.
Qed.
Lemma quiet_if {A} (b : bool) (p q : program A) : quiet p -> quiet q -> quiet (if b then p else q).
Proof. by destruct b. Qed.

Create HintDb quiet.
#[export] Hint Resolve quiet_ret quiet_fail quiet_if quiet_attempted : quiet.
#[export] Hint Extern 5 (quiet (_ ≫= _)) => apply quiet_bind; [|intros] : quiet.

Lemma raise_floor_mark v w : excepted (raise_floor v w) = excepted w.
Proof. unfold raise_floor. by destruct (_ <? v), (_ && _). Qed.
Lemma write_script_mark u q w : excepted (write_script u q w).2 = excepted w.
Proof. unfold write_script. destruct (stale _ w); [done|]. destruct (negb q && _); apply raise_floor_mark. Qed.
Lemma field_script_mark f s v w : excepted (field_script f s v w).2 = excepted w.
Proof.
  unfold field_script. destruct (stale v w); [done|]. destruct (w_hash _); [|apply raise_floor_mark].
  destruct (_ =? v); apply raise_floor_mark.
Qed.

Section Quiet.
Context (redis : bool).

Lemma quiet_writeUserCache u q : quiet (writeUserCache redis u q).
Proof.
  unfold writeUserCache. apply quiet_if; [apply quiet_ret|]. apply quiet_if; [apply quiet_fail|].
  apply quiet_bind; [apply quiet_sql, write_script_mark | auto with quiet].
Qed.
Lemma quiet_updateUserCache r : quiet (updateUserCache redis r).
Proof. apply quiet_if; [apply quiet_ret | apply quiet_writeUserCache]. Qed.
Lemma quiet_floor : quiet (getUserAuthVersionFloor redis).
Proof. apply quiet_if; [apply quiet_ret | by apply quiet_sql]. Qed.
Lemma quiet_read_live i : quiet (read_live i).
Proof. by apply quiet_sql. Qed.
Lemma quiet_read_unscoped i : quiet (read_unscoped i).
Proof. by apply quiet_sql. Qed.
Lemma quiet_GetUserById i : quiet (GetUserById i).
Proof. apply quiet_if; [apply quiet_fail | apply quiet_read_live]. Qed.
Lemma quiet_invalidate : quiet (invalidateUserCache redis).
Proof. apply quiet_if; [apply quiet_ret | by apply quiet_sql]. Qed.
Lemma quiet_publish i v : quiet (publishCommittedUserAuthVersion redis i v).
Proof.
  unfold publishCommittedUserAuthVersion. apply quiet_if; [apply quiet_ret|]. apply quiet_if; [apply quiet_fail|].
  apply quiet_bind; [apply quiet_sql, raise_floor_mark | auto with quiet].
Qed.
Lemma quiet_fence i v : quiet (SetUserAuthVersionFence redis i v).
Proof.
  unfold SetUserAuthVersionFence. apply quiet_if; [apply quiet_ret|]. apply quiet_if; [apply quiet_fail|].
  apply quiet_bind; [apply quiet_sql | auto with quiet]. intros w. cbn. by destruct (_ <? v).
Qed.
Lemma quiet_PublishUserAuthCache i : quiet (PublishUserAuthCache redis i).
Proof. apply quiet_bind; [apply quiet_GetUserById | apply quiet_updateUserCache]. Qed.
Lemma cas_statement_mark i e n c w : excepted (cas_statement i e n c w).2 = excepted w.
Proof. unfold cas_statement. destruct (w_row w) as [r|]; [|done]. destruct (_ && _); [|done]. by destruct (needs_live c && _). Qed.
Lemma quiet_cas i e n c : quiet (cas_commit i e n c).
Proof. apply quiet_sql, cas_statement_mark. Qed.
Lemma quiet_auth_transaction i c : quiet (auth_transaction redis i c).
Proof.
  apply quiet_if; [apply quiet_fail|]. generalize 3%nat as n. induction n as [|n IH]; [apply quiet_fail|]. cbn [increment_attempts].
  apply quiet_bind; [apply quiet_read_unscoped|]. intros r. apply quiet_bind; [apply quiet_fence|]. intros _.
  apply quiet_bind; [apply quiet_cas|]. intros [row|]; [apply quiet_ret | exact IH].
Qed.
End Quiet.
#[export] Hint Resolve quiet_writeUserCache quiet_updateUserCache quiet_floor quiet_read_live quiet_read_unscoped quiet_GetUserById
  quiet_invalidate quiet_publish quiet_fence quiet_PublishUserAuthCache quiet_auth_transaction : quiet.

Lemma quiet_PublishAll redis i c : quiet (row ← auth_transaction redis i c; PublishUserAuthCache redis i ;; mret row).
Proof. auto with quiet. Qed.

(** ** As long as no right was silently overwritten *)

Section Updates.
Context (redis : bool) (uid : Z) (Huid : 0 < uid).
Abbreviation inv := (inv redis uid).

#[export] Instance evolves_preorder : PreOrder evolves.
Proof. split; [exact cache_evolves_refl | exact cache_evolves_trans]. Qed.
Abbreviation rights_inv := (until excepted inv).
Abbreviation rights_evolve := (until_step excepted evolves).
Abbreviation vok := (mok excepted inv evolves).

(** What a quiet program was shown to do carries over. *)
Lemma lift_safe {A} (p : prog World A) (Q : A -> World -> Prop) w :
  quiet_at p w -> (excepted w = false -> safe inv evolves evolves p Q w) ->
  safe rights_inv rights_evolve rights_evolve p (fun a w' => excepted w' = false -> Q a w') w.
Proof.
  revert w. unfold quiet_at. induction p as [A a|A X act k IH|A child IHc k IHk]; intros w Hq Hs; cbn in *.
  - intros w' Hw Hi E. apply Hs; [by eapply mark_before | by apply Hw | by apply Hi].
  - intros w' d Hw Hi. specialize (Hq w' d I I). destruct (excepted w') eqn:E.
    + clear Hs. destruct (act d w') as [x w'']. destruct Hq as (_ & Hmark & Hq). unfold same_mark in Hmark. rewrite E in Hmark.
      split_and!; [by intros ?%(eq_trans (eq_sym Hmark)) | by split; rewrite ?Hmark|]. apply IH; [done|]. by rewrite Hmark.
    + assert (excepted w = false) as E0 by (by eapply mark_before). specialize (Hs E0 w' d (proj2 Hw E) (Hi E)).
      destruct (act d w') as [x w'']. destruct Hq as (_ & Hmark & Hq), Hs as (Hi' & He & Hs).
      split_and!; [by intros _ | split; [unfold same_mark in Hmark; congruence | done] | by apply IH].
  - destruct Hq as [Hqc Hqk]. split; [|by apply IHk; [|intros E; apply (Hs E)]].
    eapply safe_mono; [apply until_trans | | by intros | by apply IHc; [|intros E; apply (Hs E)]]. done.
Qed.
Lemma vok_quiet {A} (p : program A) R w : quiet p -> (excepted w = false -> cok redis uid p R w) -> vok p R w.
Proof.
  intros Hq Hs. eapply safe_mono; [apply until_trans | | done | apply (lift_safe p (answers R)); [apply Hq | exact Hs]].
  intros [err|a] w' _ _; [done | cbn; auto].
Qed.

(** ** Updates *)

Abbreviation live_row := (fun row w' => row ∈ w_log w' /\ us_deleted row = false).

Lemma kept_newer change r : same_rights (kept_version change r) r = true -> newer (kept_version change r) r.
Proof.
  unfold same_rights. rewrite andb_true_iff, !Z.eqb_eq. intros [Hs Hr]. unfold newer. cbn in *. split_and!; [done | lia | done|].
  by intros _.
Qed.

Lemma plain_commit_ok i change w : vok (plain_commit i change) live_row w.
Proof.
  apply (rule_sql rights_inv rights_evolve rights_evolve); [intros; apply until_refl|]. intros w' _ Hi.
  destruct (w_row w') as [r|] eqn:Er; cbn [fst snd]; [|split_and!; [done | apply until_refl | done]].
  destruct (_ && _) eqn:E; cbn [fst snd]; [|split_and!; [done | apply until_refl | done]].
  apply andb_prop in E as [_ E%negb_true_iff]. set (row := kept_version change r).
  set (marked := (commit_row false row w') <| w_overwritten := w_overwritten w' || negb (same_rights row r) |>).
  assert (excepted marked = false -> excepted w' = false /\ same_rights row r = true) as Hmark.
  { unfold excepted. cbn. intros [[-> H]%orb_false_iff ->]%orb_false_iff. by apply negb_false_iff in H. }
  assert (excepted w' = true -> excepted marked = true) as Hkeep by (unfold excepted; cbn; by intros [-> | ->]%orb_true_iff; rewrite ?orb_true_r).
  assert (excepted marked = false -> inv marked /\ evolves w' marked) as Hstep.
  { intros [E0 Hsame]%Hmark. apply (commit_step redis uid Huid false row w' r (Hi E0) Er). by apply kept_newer. }
  split_and!; [intros Eo; by apply Hstep | split; [exact Hkeep | intros Eo; by apply Hstep]|].
  intros o w2 [= <-] He2 _ Eo. split; [|done]. eapply evolves_log; [by apply He2|]. cbn. left.
Qed.

Lemma update_with_tx_ok i authChanged change w :
  (forall r, us_deleted (change r) = us_deleted r) -> rights_inv w -> vok (update_with_tx redis i authChanged change) live_row w.
Proof.
  intros Hkeep Hi. eapply (mok_bind _ _ anything); [apply vok_quiet; [auto with quiet | intros E] | | done].
  { eapply cok_mono; [|by apply (read_live_ok redis uid (top w))]. done. }
  intros current w1 _ Hi1 _. destruct (authChanged current); [|apply plain_commit_ok].
  apply vok_quiet; [auto with quiet|]. intros E. eapply cok_mono; [|by apply auth_transaction_ok, Hi1].
  intros row w' (Hin & next & r & -> & Hlive). split; [done|]. cbn. by rewrite Hkeep, (Hlive eq_refl).
Qed.

Abbreviation reported_row := (fun row w' => covered redis (us_AuthVersion row) w').

(** A row that is live in the history is published. *)
Lemma refresh_ok row w :
  rights_inv w -> (forall w2, rights_evolve w w2 -> rights_inv w2 -> excepted w2 = false -> live_row row w2) ->
  vok (updateUserCache redis row ;; mret row) reported_row w.
Proof.
  intros Hi Hrow. apply vok_quiet; [auto with quiet|]. intros E. destruct (Hrow w (until_refl w) Hi E) as [Hin Hd].
  eapply cok_seq; [apply (cok_and_covered redis uid (us_AuthVersion row)); [by eapply log_covered, Hin; apply Hi | by apply updateUserCache_ok; [|apply Hi| |]] | | by apply Hi].
  intros w3 He3 Hi3 (? & Hc). apply cok_ret. exact Hc.
Qed.
Lemma publish_row_ok i row w :
  rights_inv w -> (forall w2, rights_evolve w w2 -> rights_inv w2 -> excepted w2 = false -> live_row row w2) ->
  vok (PublishUserAuthCache redis i ;; mret row) reported_row w.
Proof.
  intros Hi Hrow. apply vok_quiet; [auto with quiet|]. intros E. destruct (Hrow w (until_refl w) Hi E) as [Hin _].
  eapply cok_seq; [apply (PublishUserAuthCache_ok redis uid Huid (us_AuthVersion row)); [by apply Hi | by eapply log_covered, Hin; apply Hi] | | by apply Hi].
  intros w3 He3 Hi3 (? & Hc). apply cok_ret. exact Hc.
Qed.

Section Hashing.
Context (hash_password : string -> result string).

Lemma with_hash_ok user updatePassword w : vok (with_hash hash_password user updatePassword) anything w.
Proof. unfold with_hash. destruct updatePassword; [destruct (hash_password _)|]; [apply mok_fail | by apply mok_ret..]. Qed.
Lemma UpdateWithTx_ok user updatePassword w : rights_inv w -> vok (UpdateWithTx redis hash_password user updatePassword) live_row w.
Proof. intros Hi. eapply mok_bind; [apply with_hash_ok | | done]. intros u w1 _ Hi1 _. by apply update_with_tx_ok. Qed.
Lemma EditWithTx_ok user updatePassword w : rights_inv w -> vok (EditWithTx redis hash_password user updatePassword) live_row w.
Proof. intros Hi. eapply mok_bind; [apply with_hash_ok | | done]. intros u w1 _ Hi1 _. by apply update_with_tx_ok. Qed.
Lemma Update_ok user updatePassword w : rights_inv w -> vok (user_Update redis hash_password user updatePassword) reported_row w.
Proof. intros Hi. eapply mok_bind; [by apply UpdateWithTx_ok | | done]. intros row w1 _ Hi1. by apply refresh_ok. Qed.
Lemma Edit_ok user updatePassword w : rights_inv w -> vok (user_Edit redis hash_password user updatePassword) reported_row w.
Proof. intros Hi. eapply mok_bind; [by apply EditWithTx_ok | | done]. intros row w1 _ Hi1. by apply refresh_ok. Qed.

Lemma read_ok {A} (p : program A) w : quiet p -> (forall w, cok redis uid p anything w) -> vok p anything w.
Proof. intros Hq Hp. by apply vok_quiet. Qed.
Lemma read_live_live i w : vok (read_live i) live_row w.
Proof.
  apply vok_quiet; [auto with quiet|]. intros _. eapply cok_mono; [|by apply (read_live_ok redis uid (top w))]. by intros row w' (? & ? & _).
Qed.

Lemma ClearBinding_ok i w : rights_inv w -> vok (ClearBinding redis i) reported_row w.
Proof.
  intros Hi. unfold ClearBinding. destruct (i =? 0); [apply mok_fail|]. eapply mok_bind; [apply plain_commit_ok | | done].
  intros _ w1 _ Hi1 _. eapply mok_bind; [apply read_live_live | | done]. intros row w2 _ Hi2. by apply refresh_ok.
Qed.
Lemma ManageUser_ok i action myRole w : rights_inv w -> vok (ManageUser redis hash_password i action myRole) reported_row w.
Proof.
  intros Hi. eapply (mok_bind _ _ anything).
  { apply (mok_dropped _ anything); [apply read_ok; [auto with quiet | apply read_unscoped_ok] | done]. }
  2: done.
  intros found w1 _ Hi1 _. cbv zeta. generalize (match found with inr user => user | inl _ => zero_user i end) as user. intros user.
  destruct (us_Id user =? 0); [apply mok_fail|]. destruct (negb _); [apply mok_fail|].
  destruct (manage_user _ _ _) as [err|user']; [apply mok_fail|]. destruct action; try by apply Update_ok.
  eapply mok_bind; [by apply UpdateWithTx_ok | | done]. intros row w2 _ Hi2. by apply publish_row_ok.
Qed.
Lemma GetAffCode_ok i has_code w : rights_inv w -> vok (GetAffCode redis hash_password i has_code) anything w.
Proof.
  intros Hi. eapply (mok_bind _ _ anything); [apply read_ok; [auto with quiet|] | | done].
  { intros w'. eapply cok_mono; [|by apply (GetUserById_ok redis uid (top w'))]. done. }
  intros user w1 _ Hi1 _. destruct has_code; [by apply mok_ret|].
  eapply mok_bind; [by apply Update_ok | | done]. intros row w2 _ _ _. by apply mok_ret.
Qed.
End Hashing.
End Updates.
