(* ===== verification/UserCacheTheorems.v ===== *)
(** * No request runs with rights that were taken away

    The functions of [UserCache] run by any number of nodes on any number of
    Redis instances, their statements interleaved, answers lost, nodes crashing,
    keys expiring: a look-up that begins after a change was reported successful,
    by a node on the same Redis, answers with the rights of that change or of a
    later one. *)

From stdpp Require Import base numbers option strings list relations sorting.
From Stdlib Require Import ZArith Lia.
From S2P Require Import Prelude Store Interleave Marked UserCache UserCacheFacts UserUpdates Focus Topology.
Open Scope Z_scope.

(** ** What a caller sees

    Ghost statements note what was acknowledged when a look-up began, what it
    answered, and which changes were reported successful. *)

Definition look_up (redis : bool) (uid : Z) : prog World unit :=
  prog_bind (note (fun w => (w_acknowledged w, w))) (fun a =>
  prog_bind (GetUserCache redis uid) (fun r =>
  match r with
  | inr u => note (fun w => (tt, w <| w_served ::= cons (a, u) |>))
  | inl _ => Done tt
  end)).

Definition acknowledge (row : UserRow) : prog World unit :=
  note (fun w => (tt, w <| w_acknowledged ::= Z.max (us_AuthVersion row) |>)).
Definition reported (p : program UserRow) : prog World unit :=
  prog_bind p (fun r => match r with inr row => acknowledge row | inl _ => Done tt end).
(** A hard deletion reports success even when its publication failed. *)
Definition acknowledge_hard (row : UserRow) (published : result unit) : prog World unit :=
  note (fun w => (tt, w <| w_acknowledged ::= Z.max (us_AuthVersion row) |>
                        <| w_unpublished ::= orb (match published with inl _ => true | inr _ => false end) |>)).
Definition reported_hard (p : program (UserRow * result unit)) : prog World unit :=
  prog_bind p (fun r => match r with inr (row, published) => acknowledge_hard row published | inl _ => Done tt end).

(** Everything that runs on the state of the user. *)
Inductive actor (redis : bool) (hash : string -> result string) (uid : Z) : prog World unit -> Prop :=
| act_look_up : actor redis hash uid (look_up redis uid)
| act_bump : actor redis hash uid (reported (BumpUserAuthVersion redis uid))
| act_change change : actor redis hash uid (reported (auth_change redis uid change))
| act_update user updatePassword : actor redis hash uid (reported (user_Update redis hash user updatePassword))
| act_edit user updatePassword : actor redis hash uid (reported (user_Edit redis hash user updatePassword))
| act_manage action myRole : actor redis hash uid (reported (ManageUser redis hash uid action myRole))
| act_aff_code has_code : actor redis hash uid (ignored (GetAffCode redis hash uid has_code))
| act_unbind : actor redis hash uid (reported (ClearBinding redis uid))
| act_delete : actor redis hash uid (reported (user_delete redis uid))
| act_hard_delete : actor redis hash uid (reported_hard (user_HardDelete redis uid))
| act_write change : actor redis hash uid (ignored (plain_commit uid change))
| act_publish : actor redis hash uid (ignored (PublishUserAuthCache redis uid))
| act_field field value : actor redis hash uid (ignored (updateUserCacheField redis uid field value))
| act_invalidate : actor redis hash uid (ignored (invalidateUserCache redis))
| act_quota delta : actor redis hash uid (ignored (sql (quota_delta_script uid delta)))
| act_reserve amount : actor redis hash uid (ignored (sql (quota_reserve_script uid amount))).

(** The hash and the pending fence expire; the committed floor does not. *)
Inductive expires (w : World) : World -> Prop :=
| hash_expires : expires w (w <| w_hash := @None UserHash |>)
| fence_expires : expires w (w <| w_pending := @None Z |>).

(** A user whose cache is cold. *)
Definition start (r : UserRow) : World := mkWorld (Some r) None None None [r] 0 [] false false.

(** Nodes on different Redis instances share the row, and the marks; what was
    reported is noted for each Redis. *)
Definition adopt_user (db w : World) : World :=
  mkWorld (w_row db) (w_hash w) (w_pending w) (w_committed w) (w_log db) (w_acknowledged w) (w_served w) (w_overwritten db) (w_unpublished db).
Definition same_user (a b : World) : Prop :=
  (w_row a, w_log a, w_overwritten a, w_unpublished a) = (w_row b, w_log b, w_overwritten b, w_unpublished b).
#[export] Instance same_user_equivalence : Equivalence same_user.
Proof. split; [by intros a | by intros a b | intros a b c H1 H2; by etrans]. Qed.
(** The steps of all nodes, where [redis] says which Redis is enabled; an
    instance that is not is that of the nodes without one. *)
Abbreviation cluster_steps redis hash uid :=
  (rtc (pool_step (cluster_tick adopt_user expires) (cluster_starts adopt_user (fun j => actor (redis j) hash uid)))).

Section Rights.
Context (redis : bool) (hash : string -> result string) (uid : Z) (Huid : 0 < uid).
Abbreviation rights_inv := (until excepted (inv redis uid)).
Abbreviation rights_evolve := (until_step excepted evolves).
Abbreviation safe_thread := (thread_safe rights_inv rights_evolve rights_evolve).
Abbreviation vok := (mok excepted (inv redis uid) evolves).

Lemma cold_start_ok r : us_Id r = uid -> 0 <= us_AuthVersion r -> rights_inv (start r).
Proof.
  intros Hid Hv _. unfold inv, top, start, number. cbn. split; [constructor; [constructor | apply Forall_nil_2]|].
  split; [by intros r' [= ->]|]. repeat (split; [done|]). by apply Forall_singleton.
Qed.

Lemma expires_ok w w' : rights_inv w -> expires w w' -> rights_inv w' /\ rights_evolve w w'.
Proof.
  intros Hi He. assert (excepted w' = excepted w) as Hmark by by destruct He.
  assert (excepted w = false -> inv redis uid w' /\ evolves w w') as H.
  { intros E. specialize (Hi E). destruct He; apply keys_step; try done; cbn; destruct Hi as (_ & _ & ? & H & _); try lia; intros h Hh; by apply H. }
  split; [intros E; rewrite Hmark in E; by apply H | split; [by rewrite Hmark | intros E; rewrite Hmark in E; by apply H]].
Qed.

(** Only what is covered is acknowledged. *)
Lemma acknowledge_safe row w :
  (forall w', rights_evolve w w' -> rights_inv w' -> excepted w' = false -> covered redis (us_AuthVersion row) w') ->
  safe_thread (acknowledge row) w.
Proof.
  intros Hc. apply note_thread; [done|]. intros w' He E Hi. destruct (Hc w' He (fun _ => Hi) E) as [Ht Hr].
  destruct Hi as (H1 & H2 & H3 & H4 & H5 & H6 & H7 & H8). split.
  - unfold inv, genuine in *. cbn. unfold top in *. cbn. split_and!; try done; [lia|]. intros Hredis. specialize (H6 Hredis). specialize (Hr Hredis). lia.
  - split_and!; [by exists [] | done | done | cbn; lia].
Qed.

Lemma acknowledge_hard_safe row published w :
  (forall w', rights_evolve w w' -> rights_inv w' -> excepted w' = false ->
     match published with inr _ => covered redis (us_AuthVersion row) w' | inl _ => True end) ->
  safe_thread (acknowledge_hard row published) w.
Proof.
  intros Hc. destruct published as [err|[]]; [|exact (acknowledge_safe row w Hc)]. intros w' d _ _. cbn.
  unfold until, until_step, excepted. cbn. by rewrite orb_true_r.
Qed.

Lemma reported_safe (p : program UserRow) w :
  rights_inv w -> vok p (fun row w' => covered redis (us_AuthVersion row) w') w -> safe_thread (reported p) w.
Proof.
  intros Hi Hp. eapply thread_bind; [exact Hp | | done]. intros [err|row] w' He Hi' Ha; [apply thread_done|].
  by apply acknowledge_safe.
Qed.

Lemma ignored_quiet {A} (p : program A) w :
  rights_inv w -> quiet p -> (forall w, inv redis uid w -> exists R, cok redis uid p R w) -> safe_thread (ignored p) w.
Proof.
  intros Hi Hq Hp. eapply (mok_ignored p anything); [done|]. apply vok_quiet; [done|]. intros E. destruct (Hp w (Hi E)) as [R HR].
  by eapply cok_mono, HR.
Qed.
Lemma reported_quiet (p : program UserRow) w :
  rights_inv w -> quiet p -> (forall w, inv redis uid w -> cok redis uid p (fun row w' => covered redis (us_AuthVersion row) w') w) ->
  safe_thread (reported p) w.
Proof. intros Hi Hq Hp. apply reported_safe; [done | apply vok_quiet; auto]. Qed.

Lemma quiet_GetUserCache : quiet (GetUserCache redis uid).
Proof.
  unfold GetUserCache. apply quiet_bind; [apply quiet_attempted|intros [err|u]]; [|auto 20 with quiet..].
  - apply quiet_if; [apply quiet_fail|]. apply quiet_bind; [by apply quiet_sql | auto 20 with quiet].
  - apply quiet_bind; [auto with quiet|]. intros r. apply quiet_if; [apply quiet_ret|]. apply quiet_bind; [auto with quiet|]. intros f.
    apply quiet_if; [apply quiet_fail|]. apply quiet_bind; [apply quiet_attempted, quiet_if; auto with quiet|].
    intros [err2|]; [apply quiet_if|]; auto with quiet.
Qed.

Lemma look_up_safe w : rights_inv w -> safe_thread (look_up redis uid) w.
Proof.
  intros Hi. unfold look_up. eapply (thread_bind _ _ (fun a w' => excepted w' = false -> covered redis a w')); [| |done].
  { intros w' d He Hi'. split_and!; [done | apply until_refl|]. intros w2 He2 Hi2 E. pose proof (mark_before _ _ He2 E) as E'.
    apply (covered_evolves redis _ w' w2 (proj2 He2 E)). by destruct (Hi' E') as (_ & _ & _ & _ & ? & ? & _). }
  intros a w1 He1 Hi1 Hc. specialize (Hc w1 (until_refl w1) Hi1).
  eapply thread_bind; [apply (vok_quiet redis uid (GetUserCache redis uid)); [apply quiet_GetUserCache | intros E; exact (GetUserCache_ok redis uid Huid a w1 (Hi1 E) (Hc E))] | | done].
  intros [err|u] w2 He2 Hi2 Hu; [apply thread_done|]. apply note_thread; [done|]. intros w3 He3 E3 Hi3. cbn.
  destruct (Hu w3 He3 (fun _ => Hi3) E3) as [(r & Hr & Hd & Hrights) Ha].
  destruct Hi3 as (H1 & H2 & H3 & H4 & H5 & H6 & H7 & H8). split; [|split_and!; [by exists [] | done | done | done]].
  split_and!; try done. cbn. constructor; [|done]. exists r. cbn. split_and!; try done. destruct Hrights as (_ & <- & _). done.
Qed.

Lemma actor_safe p w : actor redis hash uid p -> rights_inv w -> safe_thread p w.
Proof.
  intros Hp Hi. destruct Hp.
  - by apply look_up_safe.
  - apply reported_quiet; [done | apply quiet_PublishAll | intros; by apply auth_change_ok].
  - apply reported_quiet; [done | apply quiet_PublishAll | intros; by apply auth_change_ok].
  - apply reported_safe; [done | by apply Update_ok].
  - apply reported_safe; [done | by apply Edit_ok].
  - apply reported_safe; [done | by apply ManageUser_ok].
  - eapply mok_ignored; [done | by apply GetAffCode_ok].
  - apply reported_safe; [done | by apply ClearBinding_ok].
  - apply reported_quiet; [done | unfold user_delete; auto 10 with quiet | intros; by apply delete_ok].
  - eapply thread_bind; [apply (vok_quiet redis uid); [unfold user_HardDelete; auto 10 with quiet | intros E; exact (HardDelete_ok redis uid Huid uid w (Hi E))] | | done].
    intros [err|[row published]] w' He Hi' Ha; [apply thread_done|]. by apply acknowledge_hard_safe.
  - eapply mok_ignored; [done | by apply plain_commit_ok].
  - apply ignored_quiet; [done | auto with quiet | intros w0 Hw0; eexists; by apply (PublishUserAuthCache_ok redis uid Huid (top w0))].
  - apply ignored_quiet; [done | | intros; eexists; by apply updateField_ok]. apply quiet_if; [apply quiet_ret|].
    apply quiet_bind; [auto with quiet|]. intros r. apply quiet_if; [apply quiet_fail|]. unfold updateUserCacheFieldAtVersion.
    apply quiet_if; [apply quiet_ret|]. apply quiet_if; [apply quiet_fail|]. apply quiet_bind; [apply quiet_sql, field_script_mark | auto with quiet].
  - apply ignored_quiet; [done | auto with quiet | intros; eexists; by apply invalidateUserCache_ok].
  - apply ignored_quiet; [done | | intros; eexists; by apply quota_delta_ok]. apply quiet_sql. intros w'. unfold quota_delta_script. by destruct (hash_usable _ _).
  - apply ignored_quiet; [done | | intros; eexists; by apply quota_reserve_ok]. apply quiet_sql. intros w'. unfold quota_reserve_script.
    destruct (hash_usable _ _) as [q|]; [by destruct (q <? amount) | done].
Qed.

(** The rows of the history, with the version they carry. *)
Lemma deleted_for_good w r r' :
  StronglySorted newer (w_log w) -> r ∈ w_log w -> r' ∈ w_log w ->
  us_deleted r = true -> us_AuthVersion r <= us_AuthVersion r' -> us_deleted r' = true.
Proof.
  generalize (w_log w) as l. induction l as [|x l IH]; [by intros _ ?%elem_of_nil|].
  intros [Hs Hf]%StronglySorted_inv. rewrite Forall_forall in Hf. intros [->|Hr]%elem_of_cons [->|Hr']%elem_of_cons Hd Hv.
  - done.
  - destruct (Hf r' Hr') as (_ & Hle & _ & Heq). destruct (Heq ltac:(lia)) as (_ & _ & E). congruence.
  - destruct (Hf r Hr) as (_ & _ & Hdel & _). by apply Hdel.
  - by apply IH.
Qed.
End Rights.

(** What a node on another Redis commits. *)
Lemma user_adopts redis redis' uid x y y' :
  inv redis uid x -> same_user y x -> inv redis' uid y' -> evolves y y' -> inv redis uid (adopt_user y' x) /\ evolves x (adopt_user y' x).
Proof.
  intros (_ & _ & X3 & X4 & X5 & X6 & X7 & _) Ha (Y1 & Y2 & _ & _ & _ & _ & _ & Y8) (Hl & Ht & _ & _).
  injection Ha as _ El _ _. assert (top x = top y) as Ex by (unfold top; by rewrite El).
  assert (evolves x (adopt_user y' x)) as He.
  { split_and!; [|change (top x <= top y'); lia|done|done]. destruct Hl as [l Hl]. exists l. cbn. by rewrite Hl, El. }
  split; [|exact He]. split_and!; cbn; try done.
  - change (number (w_committed x) <= top y'). lia.
  - intros h Hh. destruct (X4 h Hh) as [Hg ?]. split; [by apply (evolves_genuine _ _ _ He) | done].
  - change (w_acknowledged x <= top y'). lia.
  - eapply Forall_impl; [exact X7|]. intros p (r & Hr & ?). exists r. split; [by apply (evolves_log _ _ _ He) | done].
Qed.
Lemma user_survives {R : Type} (redis : R -> bool) uid :
  survives adopt_user (fun j => until excepted (inv (redis j) uid)) (until_step excepted evolves) same_user.
Proof.
  apply until_survives; [intros x y H; unfold excepted; by injection H as _ _ -> -> | done|].
  intros i j x y y' Hx _ Ha Hy' Hg. by apply (user_adopts (redis i) (redis j) uid x y y').
Qed.
Lemma users_reached {R : Type} `{EqDecision R} (redis : R -> bool) hash uid r threads (t : R -> World) :
  0 < uid -> us_Id r = uid -> 0 <= us_AuthVersion r ->
  cluster_steps redis hash uid (mkPool [] (fun _ => start r)) (mkPool threads t) -> forall j, until excepted (inv (redis j) uid) (t j).
Proof.
  intros Huid Hid Hv Hrun. refine (proj1 (cluster_reached adopt_user (fun j => until excepted (inv (redis j) uid)) (until_step excepted evolves) same_user
    (user_survives redis uid) expires (fun j => actor (redis j) hash uid) _ _ _ _ _ _ Hrun)).
  - intros j. apply expires_ok.
  - intros j p w Hp. by eapply actor_safe.
  - apply cluster_start; [apply _|]. intros j. by apply cold_start_ok.
Qed.

(** C31. Rights taken away stay away: in every run of any number of nodes on any
    number of Redis instances, a look-up that began when version [a] had been
    reported by a node on the same Redis answers with the status and the role of
    a committed row of that version or a later one; once the deletion of the user
    was reported there, none answers at all.  Lost answers, crashes between any
    two statements, expiring keys, and cache fills delayed for any time do not
    matter.  Two things do: an update that left the version alone and overwrote a
    right meanwhile changed, and a hard deletion that was reported although its
    publication had failed. *)
Theorem revoked_rights_unserved {R : Type} `{EqDecision R} (redis : R -> bool) hash uid r threads (t : R -> World) :
  0 < uid -> us_Id r = uid -> 0 <= us_AuthVersion r ->
  cluster_steps redis hash uid (mkPool [] (fun _ => start r)) (mkPool threads t) ->
  forall j, w_overwritten (t j) = false -> w_unpublished (t j) = false ->
  forall a u, (a, u) ∈ w_served (t j) ->
    a <= ub_AuthVersion u /\
    (exists row, row ∈ w_log (t j) /\ us_deleted row = false /\
       us_AuthVersion row = ub_AuthVersion u /\ us_Status row = ub_Status u /\ us_Role row = ub_Role u) /\
    (forall row, row ∈ w_log (t j) -> us_deleted row = true -> a < us_AuthVersion row).
Proof.
  intros Huid Hid Hv Hrun j E1 E2 a u Hau. assert (excepted (t j) = false) as E by (unfold excepted; by rewrite E1, E2).
  pose proof (users_reached redis hash uid r threads t Huid Hid Hv Hrun j E) as (Hs & _ & _ & _ & _ & _ & Hserved & _).
  rewrite Forall_forall in Hserved. destruct (Hserved _ Hau) as (row & Hrow & Hd & (_ & Hver & Hst & Hrole) & Ha). cbn in *. split_and!.
  - lia.
  - exists row. by split_and!.
  - intros row' Hin' Hd'. destruct (Z.lt_ge_cases a (us_AuthVersion row')) as [|Hge]; [done|].
    rewrite (deleted_for_good (t j) row' row Hs Hin' Hrow Hd') in Hd; [done | lia].
Qed.

(** Two Redis instances.  A look-up on the second fills its cache; one on the
    first misses the cache and reads the enabled user; before it fills the cache
    another node disables him there and reports that; then the look-up goes on,
    and another one follows on each. *)
Module RevocationDemo.
Definition hash (password : string) : result string := inr (password ++ "#")%string.
Definition alice : UserRow := mkUserRow 7 "default" "a@x" 100 1 1 "alice" "pw#" "" 1 false.
Definition disabling : prog World unit := reported (ManageUser true hash 7 ActDisable RoleAdminUser).
Definition redis (_ : bool) : bool := true.
Abbreviation steps := (cluster_steps redis hash 7).

Definition cold : Pool (bool -> World) := mkPool [] (fun _ => start alice).
Definition reading : Pool (bool -> World) := advance 4 (begin_on adopt_user true (look_up true 7) (after_on adopt_user false (look_up true 7) cold)).
Definition disabled : Pool (bool -> World) := after_on adopt_user true disabling reading.
Definition resumed : Pool (bool -> World) := advance 1 disabled.
Definition looked_again : Pool (bool -> World) := after_on adopt_user false (look_up true 7) (after_on adopt_user true (look_up true 7) resumed).
Lemma looks j c : steps c (after_on adopt_user j (look_up true 7) c).
Proof. apply started_on, act_look_up. Qed.
Lemma to_looked_again : steps cold looked_again.
Proof.
  etrans; [apply (looks false)|]. etrans; [apply (begun_on adopt_user expires _ true (look_up true 7)), act_look_up|].
  etrans; [apply (advanced _ _ 4)|]. etrans; [apply (started_on adopt_user expires _ true disabling), act_manage|].
  etrans; [apply (advanced _ _ 1)|]. etrans; [apply (looks true) | apply (looks false)].
Qed.
Definition let_through (j : bool) : list (Z * Z) := List.map (fun p => (p.1, ub_Status p.2)) (w_served (pool_state looked_again j)).
End RevocationDemo.

(** On the first Redis nobody is served any more but as the disabled user; on the
    second one, where nothing was reported, the old rights still are. *)
Lemma revoked_rights_unserved_witness :
  RevocationDemo.let_through true = [(2, 2)] /\ RevocationDemo.let_through false = [(0, 1); (0, 1)] /\
  w_hash (pool_state RevocationDemo.resumed true) = None /\
  forall j a u, (a, u) ∈ w_served (pool_state RevocationDemo.looked_again j) -> a <= ub_AuthVersion u.
Proof.
  split; [by vm_compute|]. split; [by vm_compute|]. split; [by vm_compute|]. intros j a u Hau.
  exact (proj1 (revoked_rights_unserved RevocationDemo.redis RevocationDemo.hash 7 RevocationDemo.alice (pool_threads RevocationDemo.looked_again)
    (pool_state RevocationDemo.looked_again) eq_refl eq_refl (fun H => ltac:(discriminate H))
    RevocationDemo.to_looked_again j ltac:(destruct j; by vm_compute) ltac:(destruct j; by vm_compute) a u Hau)).
Defined.

(** C33. The check of an administrator's rank is skipped when the read of the
    user fails: its error is dropped, the empty row has the role of a guest, and
    an administrator disables the root user. *)
Theorem failed_read_passes_rank_check hash row w :
  w_row w = Some row -> 0 < us_Id row -> us_deleted row = false ->
  us_Role row = RoleRootUser -> us_Status row = UserStatusEnabled ->
  canManageTargetRole RoleAdminUser (us_Role row) = false /\
  value (ManageUser false hash (us_Id row) ActDisable RoleAdminUser) w = inl (EText "user.no_permission_higher_level") /\
  let '(answer, _, _, w') := run (ManageUser false hash (us_Id row) ActDisable RoleAdminUser) [Refused] w in
  exists row', answer = inr row' /\ w_row w' = Some row' /\ us_Status row' = UserStatusDisabled /\ us_Role row' = RoleRootUser.
Proof.
  intros Hrow Hid Hd Hrole Hst. assert ((us_Id row =? 0) = false) as E0 by (apply Z.eqb_neq; lia).
  assert ((us_Id row <=? 0) = false) as E1 by (apply Z.leb_gt; lia).
  split; [by rewrite Hrole|]. split.
  - unfold value. cbn. rewrite Hrow. cbn. rewrite Z.eqb_refl. cbn. rewrite E0. cbn. by rewrite Hrole.
  - cbn. rewrite E0. cbn. rewrite Hrow. cbn. rewrite Z.eqb_refl, Hd. cbn. unfold update_changes_rights. cbn. rewrite Hst. cbn. unfold auth_transaction. rewrite E1. cbn. rewrite Hrow. cbn. rewrite !Z.eqb_refl. cbn. unfold cas_statement. cbn. rewrite Hrow, !Z.eqb_refl. cbn. rewrite Hd. cbn. by eexists.
Qed.

(** A request for the invitation code, about to write back the row it read. *)
Lemma aff_code_reads hash r :
  0 < us_Id r -> us_deleted r = false ->
  exists k, advance 2 (mkPool [ignored (GetAffCode false hash (us_Id r) false)] (start r)) = mkPool [k] (start r) /\
    forall w row, w_row w = Some row -> us_Id row = us_Id r -> us_deleted row = false ->
      w_row (next k Answered w).2 = Some (kept_version (struct_updates r) row) /\
      w_log (next k Answered w).2 = kept_version (struct_updates r) row :: w_log w /\
      w_acknowledged (next k Answered w).2 = w_acknowledged w.
Proof.
  intros Hid Hd. assert ((us_Id r =? 0) = false) as E0 by (apply Z.eqb_neq; lia). eexists. split.
  - unfold GetAffCode, GetUserById. rewrite E0. cbn. rewrite Z.eqb_refl, Hd. cbn. rewrite Z.eqb_refl, Hd. cbn.
    unfold update_changes_rights. rewrite !Z.eqb_refl, !str_eqb_refl, !andb_false_r. reflexivity.
  - intros w row Hrow Hi Hdel. cbn. rewrite Hrow. cbn. by rewrite Hi, Z.eqb_refl, Hdel.
Qed.

(** An administrator disables a common user, undisturbed. *)
Lemma disabling_runs hash r :
  0 < us_Id r -> us_deleted r = false -> us_Status r = UserStatusEnabled -> us_Role r = RoleCommonUser ->
  exists ds row w, run (reported (ManageUser false hash (us_Id r) ActDisable RoleAdminUser)) [] (start r) = (tt, [], ds, w) /\
    w_row w = Some row /\ us_Id row = us_Id r /\ us_deleted row = false /\ row ∈ w_log w /\ us_Status row = UserStatusDisabled /\
    w_acknowledged w = us_AuthVersion row.
Proof.
  intros Hid Hd Hst Hrole. assert ((us_Id r =? 0) = false) as E0 by (apply Z.eqb_neq; lia).
  assert ((us_Id r <=? 0) = false) as E1 by (apply Z.leb_gt; lia). eexists _, _, _. split.
  - cbn. rewrite Z.eqb_refl. cbn. rewrite E0, Hrole. cbn. rewrite Z.eqb_refl, Hd. cbn. unfold update_changes_rights. cbn. rewrite Hst. cbn.
    rewrite orb_true_r. cbn. unfold auth_transaction. rewrite E1. cbn. rewrite Z.eqb_refl. cbn. rewrite !Z.eqb_refl. cbn. rewrite Hd. cbn. reflexivity.
  - cbn. split_and!; try done; [left | cbn; lia].
Qed.

(** C32. The one exception is real: a request for the user's invitation code
    reads his row twice; then an administrator disables him and that is
    reported; then the request writes back the whole row, at the new version. *)
Theorem stale_update_reenables hash r :
  0 < us_Id r -> us_deleted r = false -> us_Status r = UserStatusEnabled -> us_Role r = RoleCommonUser ->
  exists threads w,
    rtc (pool_step expires (actor false hash (us_Id r))) (mkPool [] (start r)) (mkPool threads w) /\
    exists disabled current, disabled ∈ w_log w /\ w_row w = Some current /\
      us_AuthVersion disabled = w_acknowledged w /\ us_Status disabled = UserStatusDisabled /\
      us_AuthVersion current = w_acknowledged w /\ us_Status current = UserStatusEnabled.
Proof.
  intros Hid Hd Hst Hrole.
  destruct (aff_code_reads hash r Hid Hd) as (k & Hreading & Hk).
  destruct (disabling_runs hash r Hid Hd Hst Hrole) as (ds & row & w & Hrun & Hrow & Hi & Hdel & Hin & Hrst & Hack).
  destruct (Hk w row Hrow Hi Hdel) as (H1 & H2 & H3).
  exists ((next k Answered w).1 ++ []), (next k Answered w).2. split.
  - eapply rtc_l; [exact (pool_start _ _ (ignored (GetAffCode false hash (us_Id r) false)) _ _ (act_aff_code _ _ _ _))|].
    etrans; [exact (advanced _ _ 2 _)|]. rewrite Hreading.
    etrans; [exact (started _ _ _ _ (act_manage _ _ _ ActDisable RoleAdminUser))|]. unfold after. cbn [pool_state]. rewrite Hrun.
    exact (advanced _ _ 1 (mkPool [k] w)).
  - exists row, (kept_version (struct_updates r) row). rewrite H1, H2, H3. split_and!; try done; [by right|]. cbn. by rewrite Hst.
Qed.

Module UpdateDemo.
Definition root : UserRow := mkUserRow 1 "default" "" 100 UserStatusEnabled RoleRootUser "root" "pw#" "" 3 false.
End UpdateDemo.

Lemma failed_read_passes_rank_check_witness :
  canManageTargetRole RoleAdminUser RoleRootUser = false /\
  exists row', (run (ManageUser false RevocationDemo.hash 1 ActDisable RoleAdminUser) [Refused] (start UpdateDemo.root)).1.1.1 = inr row' /\
    us_Status row' = UserStatusDisabled.
Proof.
  destruct (failed_read_passes_rank_check RevocationDemo.hash UpdateDemo.root (start UpdateDemo.root) eq_refl eq_refl eq_refl eq_refl eq_refl)
    as (H & _ & row' & Hrun & _ & Hst & _).
  split; [exact H|]. exists row'. split; [exact Hrun | exact Hst].
Defined.

Lemma stale_update_reenables_witness :
  exists threads w, rtc (pool_step expires (actor false RevocationDemo.hash 7)) (mkPool [] (start RevocationDemo.alice)) (mkPool threads w) /\
    exists current, w_row w = Some current /\ us_Status current = UserStatusEnabled.
Proof.
  destruct (stale_update_reenables RevocationDemo.hash RevocationDemo.alice eq_refl eq_refl eq_refl eq_refl)
    as (threads & w & Hrun & _ & current & _ & Hrow & _ & _ & _ & Hst).
  exists threads, w. split; [exact Hrun|]. by exists current.
Defined.
