(* ===== verification/TokenCache.v ===== *)
(** * The cached key and its revocation fence ([src/model/token_cache.go], [src/model/token.go])

    Every request looks up its API key in a Redis hash that any node may fill
    from a row it read some time ago.  Revoking a key raises a fence with an
    epoch and a finite life, changes the row, then deletes the hash and raises
    the fence again in one script; while it lasts no hash is written or trusted.
    Enabling a key again removes the fence, if its epoch is the one that was
    seen before.

    The state is that of one key, as the nodes on one Redis see it ([Topology]
    puts several together): its row, the hash, the two fences and the clock; and
    ghost components: how often the status was changed and when the
    key was last enabled, deleted, and swept from the cache, how many fences
    there have been, which revocation was reported, and what validations
    answered.  A statement or script is atomic; between two of them anything can
    happen. *)

From stdpp Require Import base numbers option strings list relations.
From Stdlib Require Import ZArith Lia.
From S2P Require Import Prelude Store Interleave.
Open Scope Z_scope.

Definition TokenStatusEnabled : Z := 1.
Definition TokenStatusDisabled : Z := 2.
Definition TokenStatusExpired : Z := 3.
Definition TokenStatusExhausted : Z := 4.

Record TokenRow := mkTokenRow {
  ct_Id : Z;
  ct_UserId : Z;
  ct_Key : string;
  ct_Status : Z;
  ct_StatusVersion : Z;
  ct_Name : string;
  ct_AccessedTime : Z;
  ct_ExpiredTime : Z;
  ct_RemainQuota : Z;
  ct_UnlimitedQuota : bool;
  ct_ModelLimitsEnabled : bool;
  ct_ModelLimits : string;
  ct_AllowIps : option string;
  ct_UsedQuota : Z;
  ct_Group : string;
  ct_CrossGroupRetry : bool;
  ct_AutoGroups : string
}.
#[export] Instance TokenRow_eta : Eta TokenRow :=
  fun r => mkTokenRow (ct_Id r) (ct_UserId r) (ct_Key r) (ct_Status r) (ct_StatusVersion r) (ct_Name r) (ct_AccessedTime r)
    (ct_ExpiredTime r) (ct_RemainQuota r) (ct_UnlimitedQuota r) (ct_ModelLimitsEnabled r) (ct_ModelLimits r) (ct_AllowIps r)
    (ct_UsedQuota r) (ct_Group r) (ct_CrossGroupRetry r) (ct_AutoGroups r).

(** A fence: its epoch, and the time it expires. *)
Definition Fence : Type := Z * Z.

Record Keyring := mkKeyring {
  k_clock : Z;
  k_row : TokenRow;
  k_live : bool;                (* not soft deleted *)
  k_hash : option TokenRow;     (* a missing field is zero *)
  k_revoked : option Fence;     (* token:revoked:<hmac> *)
  k_mutating : option Z;        (* token:fence:<hmac> *)
  (* ghost *)
  k_gen : Z;                    (* changes of the status, deletion included *)
  k_enabled_at : Z;             (* the last of them that enabled the key *)
  k_deleted_at : option Z;      (* the one that deleted it *)
  k_swept : Z;                  (* how many there had been when the hash was last swept, *)
  k_swept_at : Z;               (* and when that was *)
  k_births : Z;                 (* revocation fences raised where there was none *)
  k_reported : Z;               (* the newest revocation reported successful *)
  k_served : list (Z * Z);      (* validations: what was reported before, the last enabling at the end *)
  k_late : bool;                (* a row was cached longer after it was read than a fence lives *)
  k_reused : bool               (* a fence was taken for one that had been seen before it *)
}.
#[export] Instance Keyring_eta : Eta Keyring :=
  fun r => mkKeyring (k_clock r) (k_row r) (k_live r) (k_hash r) (k_revoked r) (k_mutating r) (k_gen r) (k_enabled_at r)
    (k_deleted_at r) (k_swept r) (k_swept_at r) (k_births r) (k_reported r) (k_served r) (k_late r) (k_reused r).

Abbreviation program A := (P Keyring A).

(** A row as it was read, with the ghost note of when. *)
Record Snapshot := mkSnapshot { sn_row : TokenRow; sn_gen : Z; sn_time : Z }.

Definition ErrTokenCacheRevocationPending : Err := EText "token cache revocation is pending".
Definition ErrTokenStatusChanged : Err := EText "token status changed concurrently".
Definition ErrTokenNotProvided : Err := EText "token not provided".
Definition ErrTokenInvalid : Err := EText "token invalid".
Definition ErrTokenDisabled : Err := EText "token disabled".
Definition ErrTokenExpired : Err := EText "token expired".
Definition ErrTokenQuotaExhausted : Err := EText "token quota exhausted".
Definition ErrTokenNotFound : Err := EText "token not found".
Definition ErrDatabase : Err := EText "database error".

(** ** The scripts *)

Section Scripts.
(** [RedisKeyCacheSeconds]. *)
Context (cacheSeconds : Z).

Definition tokenRevocationTTLSeconds : Z :=
  let cacheTTL := if cacheSeconds <=? 0 then 60 else cacheSeconds in
  cacheTTL + Z.max cacheTTL 60.
Definition tokenCacheFenceSeconds : Z := 10.

Definition fence_alive (w : Keyring) : bool := match k_revoked w with Some (_, until) => k_clock w <? until | None => false end.
Definition mutating (w : Keyring) : bool := match k_mutating w with Some until => k_clock w <? until | None => false end.
(** [GET] of the fence, '0' if there is none. *)
Definition epoch (w : Keyring) : Z :=
  match k_revoked w with Some (e, until) => if k_clock w <? until then e else 0 | None => 0 end.

Definition raise_fence (w : Keyring) : Keyring :=
  w <| k_revoked := Some (epoch w + 1, k_clock w + tokenRevocationTTLSeconds) |>
    <| k_births ::= fun b => if fence_alive w then b else b + 1 |>.
Definition raise_script (w : Keyring) : result unit * Keyring := (inr tt, raise_fence w).
(** The hash is deleted, and the fence raised in the same script. *)
Definition sweep_script (w : Keyring) : result unit * Keyring :=
  (inr tt, (raise_fence w) <| k_hash := @None TokenRow |> <| k_swept := k_gen w |> <| k_swept_at := k_clock w |>).
Definition release_script (observed births : Z) (w : Keyring) : result bool * Keyring :=
  if negb (epoch w =? observed) then (inr false, w) else
  (inr true, w <| k_revoked := @None Fence |>
               <| k_reused ::= orb (fence_alive w && negb (k_births w =? births)) |>).

Definition write_hash (row : TokenRow) (s : Snapshot) (w : Keyring) : Keyring :=
  w <| k_hash := Some (row <| ct_Key := EmptyString |>) |>
    <| k_late ::= orb (sn_time s + tokenRevocationTTLSeconds <=? k_clock w) |>.
Definition set_script (s : Snapshot) (w : Keyring) : result Z * Keyring :=
  if fence_alive w then (inr 0, w) else (inr 1, write_hash (sn_row s) s w).
(** The version of the status is not among the fields it writes. *)
Definition init_script (s : Snapshot) (w : Keyring) : result Z * Keyring :=
  if mutating w || fence_alive w then (inr 0, w) else
  match k_hash w with
  | Some _ => (inr 2, w)
  | None => (inr 1, write_hash ((sn_row s) <| ct_StatusVersion := 0 |>) s w)
  end.
Definition get_script (w : Keyring) : result (option (option TokenRow)) * Keyring :=
  (inr (if fence_alive w || mutating w then None else Some (k_hash w)), w).

(** [quota_reserve.go]; [HINCRBY] of a key that vanished since its [TTL] was
    read makes a hash of one field. *)
Definition charge_hash (delta : Z) (w : Keyring) : Keyring :=
  w <| k_hash ::= option_map (fun t : TokenRow => t <| ct_RemainQuota ::= Z.add delta |> <| ct_UsedQuota ::= fun q => q - delta |>
                                 <| ct_AccessedTime := k_clock w |>) |>.
Definition token_delta_script (id delta : Z) (w : Keyring) : result Z * Keyring :=
  match k_hash w with
  | Some t => if ct_Id t =? id then (inr 1, charge_hash delta w) else (inr (-1), w)
  | None => (inr (-1), w)
  end.
Definition token_reserve_script (id amount : Z) (w : Keyring) : result Z * Keyring :=
  match k_hash w with
  | Some t => if ct_Id t =? id then if ct_RemainQuota t <? amount then (inr 0, w) else (inr 1, charge_hash (- amount) w) else (inr (-1), w)
  | None => (inr (-1), w)
  end.
Definition empty_token : TokenRow := mkTokenRow 0 0 "" 0 0 "" 0 0 0 false false "" None 0 "" false "".
Definition incr_script (delta : Z) (w : Keyring) : result unit * Keyring :=
  (inr tt, w <| k_hash ::= fun h => Some ((default empty_token h) <| ct_RemainQuota ::= Z.add delta |>) |>).
End Scripts.

(** ** Reading *)

Section Functions.
(** [RedisEnabled]. *)
Context (redis : bool) (cacheSeconds : Z).

Definition now : program Z := sql (fun w => (inr (k_clock w), w)).

(** The live row that satisfies a condition. *)
Definition read_row (cond : TokenRow -> bool) : program Snapshot :=
  sql (fun w => (if k_live w && cond (k_row w) then inr (mkSnapshot (k_row w) (k_gen w) (k_clock w)) else inl ErrRecordNotFound, w)).
Definition id_and_key (id : Z) (key : string) (t : TokenRow) : bool := (ct_Id t =? id) && str_eqb (ct_Key t) key.
Definition id_and_user (id userId : Z) (t : TokenRow) : bool := (ct_Id t =? id) && (ct_UserId t =? userId).

Definition cacheGetTokenByKey (key : string) : program TokenRow :=
  if negb redis then fail (EText "redis is not enabled") else
  raw ← sql get_script;
  match raw with
  | None => fail ErrTokenCacheRevocationPending
  | Some None => fail (EText "key not found in Redis")
  | Some (Some token) =>
      if ct_Id token <=? 0 then fail (EText "token cache is incomplete") else mret (token <| ct_Key := key |>)
  end.

Definition cacheInitToken (s : Snapshot) : program Z :=
  if negb redis then mret 0 else sql (init_script cacheSeconds s).
Definition initTokenCacheFromDatabase (id : Z) (key : string) : program unit :=
  current ← read_row (id_and_key id key); cacheInitToken current ;; mret tt.
Definition cacheSetTokenRespectingRevocation (s : Snapshot) : program unit :=
  result ← sql (set_script cacheSeconds s);
  if result =? 0 then fail ErrTokenCacheRevocationPending else mret tt.
Definition refreshTokenCacheFromDatabase (id : Z) (key : string) : program unit :=
  current ← read_row (id_and_key id key); cacheSetTokenRespectingRevocation current.
Definition cacheDeleteToken : program unit := sql (fun w => (inr tt, w <| k_hash := @None TokenRow |>)).

(** A fill in the background. *)
Definition goTokenCacheFill (id : Z) (key : string) : program unit :=
  Fork (ignored (initTokenCacheFromDatabase id key)) (Done (inr tt)).

Definition GetTokenByKey (key : string) (fromDB : bool) : program TokenRow :=
  cached ← attempted (if negb fromDB && redis then cacheGetTokenByKey key else fail ErrTokenNotFound);
  match cached with
  | inr token => mret token
  | inl _ =>
      s ← read_row (fun t => str_eqb (ct_Key t) key);
      attempted (cacheInitToken s) ;;
      (if redis && fromDB then goTokenCacheFill (ct_Id (sn_row s)) (ct_Key (sn_row s)) else mret tt) ;;
      mret (sn_row s)
  end.
Definition GetTokenById (id : Z) : program TokenRow :=
  if id =? 0 then fail (EText "id 为空！") else
  s ← read_row (fun t => ct_Id t =? id);
  (if redis then goTokenCacheFill (ct_Id (sn_row s)) (ct_Key (sn_row s)) else mret tt) ;;
  mret (sn_row s).
Definition GetTokenByIds (id userId : Z) : program Snapshot :=
  if (id =? 0) || (userId =? 0) then fail (EText "id 或 userId 为空！") else read_row (id_and_user id userId).

(** ** Statuses *)

Definition enabling (status : Z) : bool := status =? TokenStatusEnabled.
(** The row gets a status; the change counts. *)
Definition commit_status (status : Z) (w : Keyring) : Keyring :=
  w <| k_row ::= fun t : TokenRow => t <| ct_Status := status |> |>
    <| k_gen ::= Z.add 1 |>
    <| k_enabled_at := if enabling status then k_gen w + 1 else k_enabled_at w |>.

(** [UPDATE ... SET accessed_time, status] of the row as it was read. *)
Definition SelectUpdate (token : TokenRow) : program unit :=
  sql (fun w => (inr tt, if k_live w && (ct_Id (k_row w) =? ct_Id token)
                         then (commit_status (ct_Status token) w) <| k_row ::= fun t : TokenRow => t <| ct_AccessedTime := ct_AccessedTime token |> |>
                         else w)) ;;
  (if redis then goTokenCacheFill (ct_Id token) (ct_Key token) else mret tt).

Definition invalid (reason : Err) : program TokenRow := fail (EJoin ErrTokenInvalid reason).
(** The token, if the request may proceed. *)
Definition ValidateUserToken (key : string) : program TokenRow :=
  if str_eqb key "" then fail ErrTokenNotProvided else
  found ← attempted (GetTokenByKey key false);
  match found with
  | inl err => if is_err err ErrRecordNotFound then invalid ErrTokenNotFound else fail (EWrap "" ErrDatabase (err_text err))
  | inr token =>
      if ct_Status token =? TokenStatusDisabled then invalid ErrTokenDisabled
      else if ct_Status token =? TokenStatusExpired then invalid ErrTokenExpired
      else if ct_Status token =? TokenStatusExhausted then invalid ErrTokenQuotaExhausted
      else if negb (ct_Status token =? TokenStatusEnabled) then fail ErrTokenInvalid else
      time ← now;
      if negb (ct_ExpiredTime token =? -1) && (ct_ExpiredTime token <? time) then
        (if redis then mret tt else attempted (SelectUpdate (token <| ct_Status := TokenStatusExpired |>)) ;; mret tt) ;;
        invalid ErrTokenExpired
      else if negb (ct_UnlimitedQuota token) && (ct_RemainQuota token <=? 0) then
        (if redis then mret tt else attempted (SelectUpdate (token <| ct_Status := TokenStatusExhausted |>)) ;; mret tt) ;;
        invalid ErrTokenQuotaExhausted
      else mret token
  end.

(** ** Revoking *)

Definition tokenRevocationMaxAttempts : nat := 3.
Fixpoint up_to (n : nat) (p : program unit) (lastErr : result unit) : program unit :=
  match n with
  | O => Done lastErr
  | S n => r ← attempted p; match r with inr _ => mret tt | inl err => up_to n p (inl err) end
  end.
Definition raiseTokenRevocationFence : program unit := up_to tokenRevocationMaxAttempts (sql (raise_script cacheSeconds)) (inr tt).
Definition invalidateTokenCacheNow : program unit :=
  if negb redis then mret tt else up_to tokenRevocationMaxAttempts (sql (sweep_script cacheSeconds)) (inr tt).

Definition pending_unless (what : string) (p : program unit) : program unit :=
  r ← attempted p;
  match r with inr _ => mret tt | inl err => fail (EWrap "" ErrTokenCacheRevocationPending (what ++ err_text err)) end.
(** Both for the one key of this state. *)
Definition raiseTokenRevocationFences (key : string) : program unit :=
  if str_eqb key "" then mret tt else pending_unless ": raise fence failed: " raiseTokenRevocationFence.
Definition revokeTokensCacheCommitted (key : string) : program unit :=
  if str_eqb key "" then mret tt else pending_unless ": delete failed: " invalidateTokenCacheNow.
Definition RevokeTokensCacheRetry (key : string) : program unit :=
  if negb redis then mret tt else raiseTokenRevocationFences key ;; revokeTokensCacheCommitted key.

(** With the ghost count of the fence it belongs to. *)
Definition readRevocationEpoch : program (Z * Z) :=
  if negb redis then mret (0, 0) else sql (fun w => (inr (epoch w, k_births w), w)).
Definition AllowTokenCacheRefresh (observed : Z * Z) : program unit :=
  if negb redis then mret tt else
  released ← sql (release_script observed.1 observed.2);
  if negb released then fail ErrTokenCacheRevocationPending else mret tt.

(** [UPDATE ... WHERE id AND user_id AND status = ? AND status_version = ?] *)
Definition cas_status (token : TokenRow) (previousStatus : Z) : program (option Snapshot) :=
  sql (fun w =>
    if k_live w && id_and_user (ct_Id token) (ct_UserId token) (k_row w) && (ct_Status (k_row w) =? previousStatus) &&
       (ct_StatusVersion (k_row w) =? ct_StatusVersion token)
    then (inr (Some (mkSnapshot (token <| ct_StatusVersion ::= Z.add 1 |>) (k_gen w + 1) (k_clock w))),
          (commit_status (ct_Status token) w) <| k_row ::= fun t : TokenRow => t <| ct_StatusVersion ::= Z.add 1 |> |>)
    else (inr None, w)).

(** The number of its change, when it succeeds. *)
Definition UpdateStatus (token : TokenRow) (previousStatus : Z) : program Z :=
  let revoking := redis && negb (enabling (ct_Status token)) in
  let reenabling := enabling (ct_Status token) && negb (enabling previousStatus) in
  observed ← (if revoking then raiseTokenRevocationFences (ct_Key token) ;; mret (0, 0)
              else if redis && negb (enabling previousStatus) then
                r ← attempted readRevocationEpoch;
                match r with inr e => mret e | inl err => fail (EWrap "" ErrTokenCacheRevocationPending (": read fence failed: " ++ err_text err)) end
              else mret (0, 0));
  updated ← cas_status token previousStatus;
  match updated with
  | None => fail ErrTokenStatusChanged
  | Some s =>
      if revoking then revokeTokensCacheCommitted (ct_Key token) ;; mret (sn_gen s) else
      allowed ← attempted (if reenabling then AllowTokenCacheRefresh observed else mret tt);
      match allowed with
      | inl err => if is_err err ErrTokenCacheRevocationPending then mret (sn_gen s) else fail err
      | inr _ => attempted (if redis then cacheSetTokenRespectingRevocation s else mret tt) ;; mret (sn_gen s)
      end
  end.

(** [DELETE], which sets [deleted_at]. *)
Definition delete_row (id : Z) : program Z :=
  sql (fun w => if k_live w && (ct_Id (k_row w) =? id)
                then (inr (k_gen w + 1), w <| k_live := false |> <| k_gen ::= Z.add 1 |> <| k_deleted_at := Some (k_gen w + 1) |>)
                else (inr (k_gen w), w)).
Definition token_Delete (token : TokenRow) : program Z :=
  (if redis then raiseTokenRevocationFences (ct_Key token) else mret tt) ;;
  if ct_Id token =? 0 then fail ErrMissingWhereClause else
  gen ← delete_row (ct_Id token);
  (if redis then revokeTokensCacheCommitted (ct_Key token) else mret tt) ;;
  mret gen.
Definition DeleteTokenById (id userId : Z) : program Z :=
  if (id =? 0) || (userId =? 0) then fail (EText "id 或 userId 为空！") else
  s ← read_row (id_and_user id userId); token_Delete (sn_row s).

(** ** Editing *)

Definition invalidateTokenCacheForMutation (key : string) : program unit :=
  if negb redis || str_eqb key "" then mret tt else
  sql (fun w => (inr tt, w <| k_mutating := Some (k_clock w + tokenCacheFenceSeconds) |>)) ;;
  cacheDeleteToken.

(** The columns a user edits; the status is not among them. *)
Definition edit_row (new old : TokenRow) : TokenRow :=
  old <| ct_Name := ct_Name new |> <| ct_ExpiredTime := ct_ExpiredTime new |> <| ct_RemainQuota := ct_RemainQuota new |>
      <| ct_UnlimitedQuota := ct_UnlimitedQuota new |> <| ct_ModelLimitsEnabled := ct_ModelLimitsEnabled new |>
      <| ct_ModelLimits := ct_ModelLimits new |> <| ct_AllowIps := ct_AllowIps new |> <| ct_Group := ct_Group new |>
      <| ct_CrossGroupRetry := ct_CrossGroupRetry new |> <| ct_AutoGroups := ct_AutoGroups new |>.
Definition update_row (id : Z) (f : TokenRow -> TokenRow) : program bool :=
  sql (fun w => if k_live w && (ct_Id (k_row w) =? id) then (inr true, w <| k_row ::= f |>) else (inr false, w)).
Definition token_Update (token : TokenRow) : program unit :=
  invalidateTokenCacheForMutation (ct_Key token) ;;
  if ct_Id token =? 0 then fail ErrMissingWhereClause else
  updated ← update_row (ct_Id token) (edit_row token);
  if negb redis || negb updated then mret tt else
  refreshed ← attempted (refreshTokenCacheFromDatabase (ct_Id token) (ct_Key token));
  match refreshed with
  | inl err => if is_err err ErrTokenCacheRevocationPending then mret tt else attempted cacheDeleteToken ;; mret tt
  | inr _ => mret tt
  end.
Definition DisableModelLimits (id : Z) : program unit :=
  token ← GetTokenById id;
  token_Update (token <| ct_ModelLimitsEnabled := false |> <| ct_ModelLimits := EmptyString |>).

(** [controller/token.go], [UpdateToken] with [status_only]: the status alone. *)
Definition UpdateTokenStatus (id userId status : Z) : program Z :=
  s ← GetTokenByIds id userId;
  let token := sn_row s in
  time ← now;
  if enabling status && (ct_Status token =? TokenStatusExpired) && (ct_ExpiredTime token <=? time) && negb (ct_ExpiredTime token =? -1)
  then fail (EText "token.expired_cannot_enable") else
  if enabling status && (ct_Status token =? TokenStatusExhausted) && (ct_RemainQuota token <=? 0) && negb (ct_UnlimitedQuota token)
  then fail (EText "token.exhausted_cannot_enable") else
  UpdateStatus (token <| ct_Status := status |>) (ct_Status token).

(** ** Charging *)

(** The row, then the cache if it holds the key. *)
Definition charge_row (delta time : Z) (t : TokenRow) : TokenRow :=
  t <| ct_RemainQuota ::= Z.add delta |> <| ct_UsedQuota ::= fun q => q - delta |> <| ct_AccessedTime := time |>.
Definition change_token_quota (id delta : Z) : program unit :=
  (if redis then Fork (ignored (sql (token_delta_script id delta))) (Done (inr tt)) else mret tt) ;;
  time ← now;
  _ ← update_row id (charge_row delta time); mret tt.
(** [RedisHIncrBy]. *)
Definition cacheIncrTokenQuota (delta : Z) : program unit :=
  present ← sql (fun w => (inr (match k_hash w with Some _ => true | None => false end), w));
  if negb present then mret tt else sql (incr_script delta).
End Functions.
