(* ===== verification/TokenCacheFacts.v ===== *)
(** * What each step of the key cache may do

    The invariant of the row, the hash and the revocation fence; what only grows
    ([grows]) and what a program that read something may rely on still
    ([stamped], [seen]); and for every function of [TokenCache] that its
    statements stay within both.  All of it holds until a row is cached still
    than a fence lives, or a fence is taken for another ([spoilt]). *)

From stdpp Require Import base numbers option strings list relations.
From Stdlib Require Import ZArith Lia.
From S2P Require Import Prelude Store Interleave Marked TokenCache.
Open Scope Z_scope.

Section Facts.
Context (redis : bool) (cacheSeconds : Z) (key : string) (Hkey : key <> EmptyString).
Abbreviation TTL := (tokenRevocationTTLSeconds cacheSeconds).

Lemma TTL_positive : 0 < TTL.
Proof. unfold tokenRevocationTTLSeconds. destruct (Z.leb_spec cacheSeconds 0); lia. Qed.

(** ** The invariant *)

Definition core (w : Keyring) : Prop :=
  (k_swept w <= k_gen w /\ k_enabled_at w <= k_gen w /\ k_swept_at w <= k_clock w) /\
  (k_live w = true -> enabling (ct_Status (k_row w)) = true -> k_enabled_at w = k_gen w) /\
  (forall h, k_hash w = Some h -> enabling (ct_Status h) = true -> k_swept w <= k_enabled_at w) /\
  (k_swept w <= k_enabled_at w \/ k_swept_at w + TTL <= k_clock w \/
     exists e until, k_revoked w = Some (e, until) /\ k_swept_at w + TTL <= until) /\
  (forall e until, k_revoked w = Some (e, until) -> 1 <= e) /\
  (k_reported w <= k_gen w /\ (redis = true -> k_reported w <= k_swept w)) /\
  Forall (fun p => p.1 <= p.2 <= k_enabled_at w) (k_served w) /\
  (forall d, k_deleted_at w = Some d -> k_live w = false /\ k_enabled_at w < d <= k_gen w) /\
  ct_Key (k_row w) = key.

(** What was read at change [g], at time [r]: before the last sweep, if an older
    change. *)
Definition stamped (g r : Z) (w : Keyring) : Prop :=
  g <= k_gen w /\ r <= k_clock w /\ (g < k_swept w -> r <= k_swept_at w).
(** A fence seen with epoch [e] at change [g]: if it is still there with that
    epoch, nothing was swept since. *)
Definition seen (b e g : Z) (w : Keyring) : Prop :=
  b < k_births w \/
  (b = k_births w /\ match k_revoked w with Some (e', _) => e <= e' /\ (e' = e -> k_swept w <= g) | None => True end).

Definition grows (w w' : Keyring) : Prop :=
  (k_gen w <= k_gen w' /\ k_enabled_at w <= k_enabled_at w' /\ k_swept w <= k_swept w' /\ k_clock w <= k_clock w') /\
  (forall g r, stamped g r w -> stamped g r w') /\
  (forall b e g, seen b e g w -> seen b e g w').

Lemma grows_refl w : grows w w.
Proof. by split_and!; [lia..| |]. Qed.
Lemma grows_trans a b c : grows a b -> grows b c -> grows a c.
Proof. intros (? & H1 & H2) (? & H3 & H4). split; [lia|]. split; intros; [by apply H3, H1 | by apply H4, H2]. Qed.

(** ** Until it is spoilt *)

Definition spoilt (w : Keyring) : bool := k_late w || k_reused w.
#[export] Instance grows_preorder : PreOrder grows.
Proof. split; [exact grows_refl | exact grows_trans]. Qed.
Abbreviation key_inv := (until spoilt core).
Abbreviation key_evolves := (until_step spoilt grows).
(** A program is fine if its statements are, and answers [R] until spoilt. *)
Abbreviation kok := (mok spoilt core grows).

(** ** Statements *)

(** A step that touches neither the fence nor the history, and makes no hash of
    an enabled key. *)
Lemma plain_step w w' :
  core w ->
  (k_clock w', k_live w', k_revoked w', k_gen w', k_enabled_at w', k_deleted_at w', k_swept w', k_swept_at w', k_births w', k_reported w', k_served w') =
  (k_clock w, k_live w, k_revoked w, k_gen w, k_enabled_at w, k_deleted_at w, k_swept w, k_swept_at w, k_births w, k_reported w, k_served w) ->
  ct_Status (k_row w') = ct_Status (k_row w) -> ct_Key (k_row w') = ct_Key (k_row w) ->
  (forall h', k_hash w' = Some h' -> enabling (ct_Status h') = true -> exists h, k_hash w = Some h /\ enabling (ct_Status h) = true) ->
  core w' /\ grows w w'.
Proof.
  intros Hc E Hst Hk Hh. injection E as E1 E2 E3 E4 E5 E6 E7 E8 E9 E10 E11. unfold core, grows, stamped, seen in *.
  rewrite Hst, Hk, E1, E2, E3, E4, E5, E6, E7, E8, E9, E10, E11. split; [|by split_and!].
  destruct Hc as (C1 & C2 & C3 & C4). split; [exact C1|]. split; [exact C2|]. split; [|exact C4].
  intros h' Hh' He. destruct (Hh h' Hh' He) as (h & ? & ?). by eapply C3.
Qed.

Lemma raise_step w : core w -> core (raise_fence cacheSeconds w) /\ grows w (raise_fence cacheSeconds w).
Proof.
  intros (C1 & C2 & C3 & C4 & C5 & [C6 C6'] & C7 & C8 & C9). pose proof TTL_positive. split.
  - unfold core. cbn. split_and!; try done; try lia.
    + right; right. eexists _, _. split; [done|]. lia.
    + intros e until [= <- <-]. unfold epoch. destruct (k_revoked w) as [[e u]|]; [|done]. specialize (C5 e u eq_refl). destruct (_ <? u); lia.
  - split_and!; try done. intros b e g. unfold seen, raise_fence, epoch, fence_alive. cbn.
    destruct (k_revoked w) as [[e' u]|]; [destruct (_ <? u)|]; intros [|[-> H']]; (try by left; lia); right; split; [done | lia].
Qed.

Lemma sweep_step w : core w -> core (sweep_script cacheSeconds w).2 /\ grows w (sweep_script cacheSeconds w).2.
Proof.
  intros Hc. destruct (raise_step w Hc) as [(R1 & R2 & R3 & R4 & R5 & [R6 R6'] & R7 & R8 & R9) _]. destruct Hc as (C1 & C2 & C3 & C4 & C5 & [C6 C6'] & _).
  pose proof TTL_positive. split.
  - unfold core in *. cbn in *. split_and!; try done; try lia.
    right; right. eexists _, _. split; [done|]. lia.
  - split_and!; cbn; try lia.
    + intros g r (? & ? & ?). unfold stamped. cbn. lia.
    + intros b e g. unfold seen, raise_fence, epoch, fence_alive. cbn.
      destruct (k_revoked w) as [[e' u]|]; [destruct (_ <? u)|]; intros [|[-> H']]; (try by left; lia); right; split; [done | lia].
Qed.

(** A fence is removed for what was seen at change [g], before an enabling that
    was change [c]. *)
Lemma release_step e b g c w :
  core w -> (e <> 0 -> seen b e g w) -> g < c <= k_enabled_at w ->
  spoilt (release_script e b w).2 = false -> core (release_script e b w).2 /\ grows w (release_script e b w).2.
Proof.
  intros Hc Hseen Hg. unfold release_script. destruct (Z.eqb_spec (epoch w) e) as [He|]; cbn [negb]; [|intros _; split; [done | apply grows_refl]].
  intros Hs. pose proof Hc as (C1 & C2 & C3 & C4 & C5 & [C6 C6'] & C7 & C8 & C9). split.
  - unfold core. cbn. split_and!; try done; try lia.
    unfold spoilt in Hs. cbn in Hs. unfold epoch, fence_alive, seen in *. destruct (k_revoked w) as [[e' u]|]; [|by destruct C4 as [|[|(? & ? & ? & _)]]; eauto].
    destruct (Z.ltb_spec (k_clock w) u).
    + apply orb_false_iff in Hs as [_ [Hb%negb_false_iff%Z.eqb_eq _]%orb_false_iff]. specialize (C5 e' u eq_refl). subst e'.
      left. destruct Hseen as [|[_ [_ H']]]; [lia | lia|]. specialize (H' eq_refl). lia.
    + destruct C4 as [|[|(? & ? & [= <- <-] & ?)]]; [by left | by right; left | right; left; lia].
  - split_and!; try done. intros b' e' g'. unfold seen. cbn. intros [|[-> _]]; [by left | by right].
Qed.

(** A row as it was read. *)
Definition sound (s : Snapshot) (w : Keyring) : Prop :=
  stamped (sn_gen s) (sn_time s) w /\ (enabling (ct_Status (sn_row s)) = true -> sn_gen s <= k_enabled_at w) /\ ct_Key (sn_row s) = key.
Lemma sound_grows s w w' : grows w w' -> sound s w -> sound s w'.
Proof. intros (? & H1 & _) (Hst & He & ?). split_and!; [by apply H1 | intros E; specialize (He E); lia | done]. Qed.

Lemma write_step row s w :
  core w -> sound s w -> ct_Status row = ct_Status (sn_row s) -> fence_alive w = false ->
  spoilt (write_hash cacheSeconds row s w) = false ->
  core (write_hash cacheSeconds row s w) /\ grows w (write_hash cacheSeconds row s w).
Proof.
  intros (C1 & C2 & C3 & C4 & Crest) ((S1 & S2 & S3) & Hen & _) Hrow Halive Hs. split; [|by split_and!].
  unfold core. cbn. split; [done|]. split; [done|]. split; [|done].
  intros h [= <-]. cbn. rewrite Hrow. intros E. specialize (Hen E). unfold spoilt in Hs. cbn in Hs.
  apply orb_false_iff in Hs as [[Hlate%Z.leb_gt _]%orb_false_iff _]. unfold fence_alive in Halive.
  destruct C4 as [|[|(e & u & Hr & ?)]]; [done | lia|]. rewrite Hr in Halive. apply Z.ltb_ge in Halive. lia.
Qed.

Lemma commit_step_ok status w : core w -> k_live w = true -> core (commit_status status w) /\ grows w (commit_status status w).
Proof.
  intros (C1 & C2 & C3 & C4 & C5 & [C6 C6'] & C7 & C8 & C9) Hlive. unfold core, commit_status. cbn.
  assert (forall d, k_deleted_at w = Some d -> False) as Hd by (intros d Hd; destruct (C8 d Hd); congruence).
  destruct (enabling status) eqn:E; (split; [split_and!; try done; try lia |]).
  all: try (intros; exfalso; by eapply Hd).
  all: try (eapply Forall_impl; [exact C7|]; cbn; lia).
  all: split_and!; cbn; try lia; try done; intros g r (? & ? & ?); unfold stamped; cbn; lia.
Qed.

(** The row changes, but neither status nor key. *)
Lemma row_step (f : TokenRow -> TokenRow) w :
  core w -> (forall t, ct_Status (f t) = ct_Status t /\ ct_Key (f t) = ct_Key t) ->
  core (w <| k_row ::= f |>) /\ grows w (w <| k_row ::= f |>).
Proof. intros Hc Hf. destruct (Hf (k_row w)). apply plain_step; try done. intros h. by exists h. Qed.

Lemma delete_step w :
  core w -> k_live w = true ->
  let w' := w <| k_live := false |> <| k_gen ::= Z.add 1 |> <| k_deleted_at := Some (k_gen w + 1) |> in core w' /\ grows w w'.
Proof.
  intros (C1 & C2 & C3 & C4 & C5 & [C6 C6'] & C7 & C8 & C9) Hlive. unfold core. cbn. split.
  - split_and!; try done; try lia. intros d [= <-]. split; [done | lia].
  - split_and!; cbn; try lia; try done. intros g r (? & ? & ?). unfold stamped. cbn. lia.
Qed.

Lemma clock_step t w : core w -> k_clock w <= t -> core (w <| k_clock := t |>) /\ grows w (w <| k_clock := t |>).
Proof.
  intros (C1 & C2 & C3 & C4 & C5 & C6 & C7 & C8 & C9) Ht. unfold core. cbn. split.
  - split_and!; try done; try lia; try apply C6. destruct C4 as [|[|]]; [by left | right; left; lia | by right; right].
  - split_and!; cbn; try lia; try done. intros g r (? & ? & ?). unfold stamped. cbn. lia.
Qed.

(** ** Functions

    A fact about the state a function starts in is needed only while nothing is
    spoilt. *)

Definition plain (w w' : Keyring) : Prop :=
  (k_clock w', k_live w', k_revoked w', k_gen w', k_enabled_at w', k_deleted_at w', k_swept w', k_swept_at w', k_births w', k_reported w', k_served w') =
  (k_clock w, k_live w, k_revoked w, k_gen w, k_enabled_at w, k_deleted_at w, k_swept w, k_swept_at w, k_births w, k_reported w, k_served w) /\
  (k_late w', k_reused w') = (k_late w, k_reused w) /\
  ct_Status (k_row w') = ct_Status (k_row w) /\ ct_Key (k_row w') = ct_Key (k_row w) /\
  (forall h', k_hash w' = Some h' -> enabling (ct_Status h') = true -> exists h, k_hash w = Some h /\ enabling (ct_Status h) = true).

Lemma plain_refl w : plain w w.
Proof. split_and!; try done. intros h. by exists h. Qed.
Lemma kok_plain {A} (f : Keyring -> result A * Keyring) w : (forall w', plain w' (f w').2) -> kok (sql f) anything w.
Proof.
  intros H. apply mok_sql; [| |done].
  - intros w'. destruct (H w') as (_ & E & _). unfold spoilt. by injection E as -> ->.
  - intros w' _ Hc _ _. destruct (H w') as (E & _ & ? & ? & ?). by apply plain_step.
Qed.

Lemma up_to_ok n (p : program unit) (last : result unit) (R : unit -> Keyring -> Prop) w :
  (match last with inr _ => (0 < n)%nat | inl _ => True end) ->
  (forall w', key_evolves w w' -> key_inv w' -> kok p R w') -> key_inv w -> kok (up_to n p last) R w.
Proof.
  revert last w. induction n as [|n IH]; intros last w Hl Hp Hi; cbn [up_to].
  - destruct last as [err|[]]; [apply mok_fail | lia].
  - eapply mok_bind; [by apply mok_attempted; [apply Hp; [apply until_refl|]|] | | done].
    intros [err|[]] w' He Hi' HR; [|by apply mok_ret]. apply IH; [done | | done]. intros w2 He2. apply Hp. by eapply until_trans.
Qed.
Lemma pending_ok what (p : program unit) (R : unit -> Keyring -> Prop) w : kok p R w -> key_inv w -> kok (pending_unless what p) R w.
Proof.
  intros Hp Hi. eapply mok_bind; [by apply mok_attempted | | done]. intros [err|[]] w' He Hi' HR; [apply mok_fail | by apply mok_ret].
Qed.

(** What revocations that were reported before guarantee from [w] on. *)
Definition upheld (a : Z) (w : Keyring) : Prop := a <= k_gen w /\ (redis = true -> a <= k_swept w).
Lemma upheld_grows a w w' : grows w w' -> upheld a w -> upheld a w'.
Proof. intros (Hg & _) [Ha H]. split; [lia|]. intros E. specialize (H E). lia. Qed.

Lemma raiseFences_ok k w : key_inv w -> kok (raiseTokenRevocationFences cacheSeconds k) anything w.
Proof.
  intros Hi. apply mok_if; [by apply mok_ret|]. apply pending_ok; [|done]. apply up_to_ok; [apply Nat.lt_0_succ | | done]. intros w' _ _.
  apply mok_sql; [by intros | | done]. intros w2 _ Hc _ _. by apply raise_step.
Qed.
Lemma revoke_ok g k w :
  key_inv w -> (spoilt w = false -> k = key /\ g <= k_gen w) ->
  kok (revokeTokensCacheCommitted redis cacheSeconds k) (fun _ w' => redis = true -> g <= k_swept w') w.
Proof.
  intros Hi Hg. unfold revokeTokensCacheCommitted. destruct (str_eqb k "") eqn:E.
  { apply mok_ret. intros w' He _ E'. destruct (Hg (mark_before _ _ He E')) as [-> _]. by apply str_eqb_true in E. }
  apply pending_ok; [|done]. unfold invalidateTokenCacheNow. destruct redis; cbn [negb]; [|by apply mok_ret].
  apply up_to_ok; [apply Nat.lt_0_succ | | done]. intros w' He _. apply mok_sql; [by intros | |].
  - intros w2 _ Hc _ _. by apply sweep_step.
  - intros w2 a w3 He2 _ E2 _ ((_ & _ & Hs & _) & _) _ _ _. cbn in Hs.
    pose proof (until_trans _ _ _ He He2) as He'. destruct (Hg (mark_before _ _ He' E2)) as [_ Hg'].
    destruct He' as [_ He']. destruct (He' E2) as ((? & _) & _). lia.
Qed.

(** A fact of the beginning, at a later statement. *)
Lemma still {Q : Keyring -> Prop} w w' :
  (forall a b, grows a b -> Q a -> Q b) -> key_evolves w w' -> spoilt w' = false -> (spoilt w = false -> Q w) -> Q w'.
Proof. apply until_later. Qed.

Lemma read_row_ok cond a w :
  (spoilt w = false -> a <= k_gen w) -> kok (read_row cond) (fun s w' => sound s w' /\ a <= sn_gen s) w.
Proof.
  intros Ha. apply mok_read. intros w1 s w2 He Hc E1 Hs Hg _ _. destruct (k_live w1) eqn:El; [|done]. destruct (cond (k_row w1)); [|done].
  injection Hs as <-. split.
  - apply (sound_grows _ w1 w2 Hg). destruct Hc as ((C1 & C2 & C3) & Cen & _ & _ & _ & _ & _ & _ & Ck). split_and!; [by split_and!; cbn; lia | | done].
    intros E. by rewrite (Cen El E).
  - cbn. apply (still (Q := fun w => a <= k_gen w) w w1); try done. intros x y ((? & _) & _) ?. lia.
Qed.

(** A script that may write a row into the hash. *)
Lemma kok_write {A} (f : Keyring -> result A * Keyring) row s w :
  (forall w', (f w').2 = w' \/ fence_alive w' = false /\ (f w').2 = write_hash cacheSeconds row s w') ->
  ct_Status row = ct_Status (sn_row s) -> (spoilt w = false -> sound s w) -> kok (sql f) anything w.
Proof.
  intros Hf Hrow Hs. apply mok_sql; [| |done].
  - intros w' E. destruct (Hf w') as [->|[_ ->]]; [done|]. unfold spoilt, write_hash in *. cbn.
    apply orb_true_iff in E as [->| ->]; by rewrite ?orb_true_r.
  - intros w' He Hc E E'. destruct (Hf w') as [E1|[Ha E1]]; rewrite E1 in *; [split; [done | apply grows_refl]|].
    apply write_step; try done. apply (still (Q := sound s) w w'); try done. intros ? ?. apply sound_grows.
Qed.
Lemma init_ok s w : (spoilt w = false -> sound s w) -> kok (cacheInitToken redis cacheSeconds s) anything w.
Proof.
  intros Hs. apply mok_if; [by apply mok_ret|]. apply (kok_write _ ((sn_row s) <| ct_StatusVersion := 0 |>) s); [|done | done].
  intros w'. unfold init_script. destruct (mutating w'); cbn [orb]; [by left|]. destruct (fence_alive w'); [by left|].
  destruct (k_hash w'); [by left | by right].
Qed.
Lemma set_ok s w : key_inv w -> (spoilt w = false -> sound s w) -> kok (cacheSetTokenRespectingRevocation cacheSeconds s) anything w.
Proof.
  intros Hi Hs. eapply mok_bind; [apply (kok_write _ (sn_row s) s) | | done]; [| done | done |].
  - intros w'. unfold set_script. destruct (fence_alive w'); [by left | by right].
  - intros n w' _ _ _. destruct (n =? 0); [apply mok_fail | by apply mok_ret].
Qed.

Lemma read_any_ok cond w : kok (read_row cond) sound w.
Proof. eapply mok_mono; [|by apply (read_row_ok cond (k_gen w))]. by intros s w' [? _]. Qed.

Lemma fill_ok i k w : key_inv w -> kok (initTokenCacheFromDatabase redis cacheSeconds i k) anything w.
Proof.
  intros Hi. eapply mok_bind; [apply read_any_ok | | done]. intros s w1 _ Hi1 Hs.
  apply mok_seq; [apply init_ok, Hs; [apply until_refl | done] | intros; by apply mok_ret | done].
Qed.
Lemma token_refresh_ok i k w : key_inv w -> kok (refreshTokenCacheFromDatabase cacheSeconds i k) anything w.
Proof.
  intros Hi. eapply mok_bind; [apply read_any_ok | | done]. intros s w1 _ Hi1 Hs. apply set_ok; [done | apply Hs; [apply until_refl | done]].
Qed.
Lemma token_drop_ok w : kok cacheDeleteToken anything w.
Proof. apply kok_plain. intros w'. by split_and!. Qed.
Lemma background_ok i k w : key_inv w -> kok (goTokenCacheFill redis cacheSeconds i k) anything w.
Proof. intros Hi. apply mok_fork; [intros; by apply fill_ok | done]. Qed.

(** An enabled key that is found was enabled since [a], if [a] was reported. *)
Abbreviation enabled_since a := (fun t w' => enabling (ct_Status t) = true -> a <= k_enabled_at w').

Lemma cacheGet_ok a k w :
  key_inv w -> (spoilt w = false -> upheld a w) -> kok (cacheGetTokenByKey redis k) (enabled_since a) w.
Proof.
  intros Hi Ha. unfold cacheGetTokenByKey. destruct redis eqn:Er; cbn [negb]; [|apply mok_fail].
  eapply (mok_bind _ _ (fun raw w' => forall t, raw = Some (Some t) -> enabling (ct_Status t) = true -> a <= k_enabled_at w')); [| |done].
  - apply mok_read. intros w1 raw w2 He Hc E1 [= <-] ((_ & Hgrow & _) & _) _ _ t Ht Hen. destruct (_ || _); [done|]. injection Ht as Ht.
    destruct Hc as (_ & _ & C3 & _). specialize (C3 t Ht Hen).
    destruct (still (Q := upheld a) w w1) as [_ H]; try done; [intros ? ?; apply upheld_grows|]. specialize (H Er). lia.
  - intros [[t|]|] w1 _ _ H; [|apply mok_fail..]. destruct (_ <=? 0); [apply mok_fail|]. apply mok_ret.
    intros w2 He2 Hi2 E2. cbn. by apply (H w2).
Qed.

Lemma GetTokenByKey_ok a k fromDB w :
  key_inv w -> (spoilt w = false -> upheld a w) -> kok (GetTokenByKey redis cacheSeconds k fromDB) (enabled_since a) w.
Proof.
  intros Hi Ha. unfold GetTokenByKey.
  eapply mok_bind; [apply mok_attempted; [apply mok_if; [by apply cacheGet_ok | apply mok_fail] | done] | | done].
  intros [err|t] w1 He1 Hi1 Ht; [|by apply mok_ret].
  eapply mok_bind; [apply (read_row_ok _ a) | | done].
  { intros E. destruct (still (Q := upheld a) w w1) as [? _]; try done. intros ? ?. apply upheld_grows. }
  intros s w2 He2 Hi2 Hs. eapply mok_seq; [| |done].
  { apply (mok_dropped _ anything); [apply init_ok | done]. apply Hs; [apply until_refl | done]. }
  intros w3 He3 Hi3. eapply mok_seq; [by apply mok_if; [apply background_ok | apply mok_ret] | | done].
  intros w4 He4 Hi4. apply mok_ret. intros w5 He5 Hi5 E5 Hen. 
  destruct (Hs w5) as [(_ & H & _) ?]; [|done..|].
  { eapply until_trans; [exact He3|]. eapply until_trans; [exact He4 | exact He5]. }
  specialize (H Hen). lia.
Qed.

(** *** Statuses *)

Lemma SelectUpdate_ok token w : key_inv w -> kok (SelectUpdate redis cacheSeconds token) anything w.
Proof.
  intros Hi. apply mok_seq; [|intros; apply mok_if; [by apply background_ok | by apply mok_ret] | done].
  apply mok_sql; [| |done].
  - intros w'. cbn. by destruct (_ && _).
  - intros w' _ Hc _ _. cbn. destruct (_ && _) eqn:E; [|split; [done | apply grows_refl]]. apply andb_prop in E as [E _].
    destruct (commit_step_ok (ct_Status token) w' Hc E) as [Hc1 Hg1].
    destruct (row_step (fun t : TokenRow => t <| ct_AccessedTime := ct_AccessedTime token |>) _ Hc1) as [Hc2 Hg2]; [done|].
    split; [exact Hc2 | eapply grows_trans; [exact Hg1 | exact Hg2]].
Qed.

(** A token that is turned down, its row perhaps updated. *)
Lemma turn_down_ok t status reason (R : TokenRow -> Keyring -> Prop) w :
  key_inv w ->
  kok ((if redis then mret tt else attempted (SelectUpdate redis cacheSeconds (t <| ct_Status := status |>)) ;; mret tt) ;; invalid reason) R w.
Proof.
  intros Hi. apply mok_seq; [|intros; apply mok_fail | done]. apply mok_if; [by apply mok_ret|].
  apply mok_seq; [|intros; by apply mok_ret | done]. by apply (mok_dropped _ anything); [apply SelectUpdate_ok|].
Qed.

Lemma Validate_ok a k w :
  key_inv w -> (spoilt w = false -> upheld a w) -> kok (ValidateUserToken redis cacheSeconds k) (fun _ w' => a <= k_enabled_at w') w.
Proof.
  intros Hi Ha. unfold ValidateUserToken. apply mok_if; [apply mok_fail|].
  eapply mok_bind; [apply mok_attempted; [by apply GetTokenByKey_ok | done] | | done].
  intros [err|t] w1 _ Hi1 Ht; [apply mok_if; apply mok_fail|]. do 3 (apply mok_if; [apply mok_fail|]).
  destruct (ct_Status t =? TokenStatusEnabled) eqn:E; cbn [negb]; [|apply mok_fail].
  eapply (mok_bind _ _ anything); [apply kok_plain; intros; apply plain_refl | | done]. intros time w2 He2 Hi2 _.
  apply mok_if; [by apply turn_down_ok|]. apply mok_if; [by apply turn_down_ok|].
  apply mok_ret. intros w3 He3 Hi3 E3. apply (Ht w3); try done. by eapply until_trans.
Qed.

Lemma cas_ok token previous g w :
  (spoilt w = false -> ct_Key token = key /\ g <= k_gen w) ->
  kok (cas_status token previous) (fun o w' => match o with
    | Some s => sound s w' /\ g < sn_gen s /\ ct_Status (sn_row s) = ct_Status token
    | None => True
    end) w.
Proof.
  intros Hg. apply mok_sql.
  - intros w'. cbn. by destruct (_ && _).
  - intros w' _ Hc _ _. cbn. destruct (_ && _) eqn:E; [|split; [done | apply grows_refl]]. apply andb_prop in E as [[[E _]%andb_prop _]%andb_prop _].
    destruct (commit_step_ok (ct_Status token) w' Hc E) as [Hc1 Hg1].
    destruct (row_step (fun t : TokenRow => t <| ct_StatusVersion ::= Z.add 1 |>) _ Hc1) as [Hc2 Hg2]; [done|].
    split; [exact Hc2 | eapply grows_trans; [exact Hg1 | exact Hg2]].
  - intros w' o w2 He Hc E1. cbn. destruct (_ && _); cbn [fst snd]; intros [= <-] Hgr _ _; [|done].
    destruct (still (Q := fun w => ct_Key token = key /\ g <= k_gen w) w w') as [Hk Hgen]; try done; [intros x y ((? & _) & _) [? ?]; split; [done | lia]|].
    split; [|cbn; split; [lia | done]]. apply (sound_grows _ _ w2 Hgr). destruct Hc as ((C1 & C2 & C3) & _).
    split_and!; [split_and!; cbn; lia | | done]. cbn. intros ->. lia.
Qed.

(** What was seen of the fence. *)
Definition looked (o : Z * Z) (g : Z) (w : Keyring) : Prop := g <= k_gen w /\ (o.1 <> 0 -> seen o.2 o.1 g w).
Lemma looked_grows o g a b : grows a b -> looked o g a -> looked o g b.
Proof. intros ((Hg & _) & _ & Hs) [? H]. split; [lia|]. intros E. by apply Hs, H. Qed.

Lemma readEpoch_ok w : kok (readRevocationEpoch redis) (fun o w' => exists g, looked o g w') w.
Proof.
  apply mok_if; [apply mok_ret; intros w' _ _ _; by exists (k_gen w')|]. apply mok_read. intros w' o w2 _ Hc _ [= <-] Hg _ _.
  exists (k_gen w'). apply (looked_grows _ _ w' w2 Hg). split; [done|]. cbn. unfold epoch, seen. destruct (k_revoked w') as [[e u]|]; [|done].
  destruct (_ <? u); [|done]. intros _. right. split; [done|]. split; [done|]. intros _. by destruct Hc as ((? & _) & _).
Qed.
Lemma Allow_ok o g c w :
  key_inv w -> (spoilt w = false -> looked o g w /\ g < c <= k_enabled_at w) -> kok (AllowTokenCacheRefresh redis o) anything w.
Proof.
  intros Hi Ho. apply mok_if; [by apply mok_ret|]. eapply (mok_bind _ _ anything); [| |done].
  - apply mok_sql; [| |done].
    + intros w' E. unfold release_script. destruct (negb _); [done|]. unfold spoilt in *. cbn. apply orb_true_iff in E as [->| ->]; by rewrite ?orb_true_r.
    + intros w' He Hc E E'. assert (looked o g w' /\ g < c <= k_enabled_at w') as [[? Hl] Hg].
      { apply (still (Q := fun w => looked o g w /\ g < c <= k_enabled_at w) w w'); try done. intros x y Hxy [? ?]. split; [by eapply looked_grows|].
        destruct Hxy as ((_ & ? & _) & _). lia. }
      by apply (release_step o.1 o.2 g c w').
  - intros b w' _ _ _. apply mok_if; [apply mok_fail | by apply mok_ret].
Qed.

Lemma UpdateStatus_ok token previous w :
  key_inv w -> (spoilt w = false -> ct_Key token = key) ->
  kok (UpdateStatus redis cacheSeconds token previous) (fun g w' => enabling (ct_Status token) = false -> upheld g w') w.
Proof.
  intros Hi Hk. unfold UpdateStatus. eapply (mok_bind _ _ (fun o w' => exists g, looked o g w')); [| |done].
  { assert (forall w', key_inv w' -> kok (mret (0, 0)) (fun o w' => exists g, looked o g w') w') as Hnone.
    { intros w' _. apply mok_ret. intros w2 _ _ _. by exists (k_gen w2). }
    apply mok_if; [|apply mok_if; [|by apply Hnone]].
    - apply mok_seq; [by apply raiseFences_ok | intros; by apply Hnone | done].
    - eapply mok_bind; [apply mok_attempted; [apply readEpoch_ok | done] | | done]. intros [err|o] w1 _ _ Ho; [apply mok_fail | by apply mok_ret]. }
  intros o w1 He1 Hi1 Ho.
  assert (forall w', key_evolves w1 w' -> spoilt w' = false -> ct_Key token = key) as Hk'.
  { intros w' He' E'. apply Hk, (mark_before (grows := grows) w w'); [by eapply until_trans | done]. }
  assert (exists g, spoilt w1 = false -> looked o g w1) as [g Hg].
  { destruct (spoilt w1) eqn:E; [by exists 0|]. destruct (Ho w1 (until_refl w1) Hi1 E) as [g Hg]. by exists g. }
  eapply (mok_bind _ _ _ _ w1 (cas_ok token previous g w1 (fun E => conj (Hk' w1 (until_refl w1) E) (proj1 (Hg E))))); [|done].
  intros [s|] w2 He2 Hi2 Hs; [|apply mok_fail].
  assert (spoilt w2 = false -> sound s w2 /\ g < sn_gen s /\ ct_Status (sn_row s) = ct_Status token) as Hs2 by (apply Hs; [apply until_refl | done]).
  destruct (redis && negb (enabling (ct_Status token))) eqn:Erev.
  { eapply mok_bind; [apply (revoke_ok (sn_gen s)); [done | intros E; split; [by apply (Hk' w2) | apply Hs2, E]] | | done].
    intros ? w3 He3 Hi3 Hsw. apply mok_ret. intros w4 He4 Hi4 E4 _. split; [|by apply (Hsw w4)].
    apply (Hs w4); [by eapply until_trans | done..]. }
  eapply (mok_bind _ _ anything); [apply (mok_dropped _ anything); [|done] | | done].
  { destruct (enabling (ct_Status token)) eqn:Een; cbn [andb]; [|by apply mok_ret].
    apply mok_if; [|by apply mok_ret]. apply (Allow_ok o g (sn_gen s)); [done|]. intros E. destruct (Hs2 E) as ((_ & Hen & _) & Hlt & Hst).
    split; [|split; [done | apply Hen; by rewrite Hst]]. eapply still; [intros ? ?; apply looked_grows | exact He2 | done | exact Hg]. }
  intros allowed w3 He3 Hi3 _.
  assert (forall w', key_evolves w3 w' -> spoilt w' = false -> enabling (ct_Status token) = false -> upheld (sn_gen s) w') as Hend.
  { intros w' He' E' Een. split; [|intros Er; by rewrite Er, Een in Erev].
    destruct (still (Q := sound s) w2 w') as [(? & _) _]; [intros ? ?; apply sound_grows | by eapply until_trans | done | intros E; by apply Hs2 | done]. }
  destruct allowed as [err|[]].
  - apply mok_if; [|apply mok_fail]. apply mok_ret. intros w' ? _. by apply Hend.
  - apply mok_seq; [apply (mok_dropped _ anything); [|done] | | done].
    + apply mok_if; [|by apply mok_ret]. apply set_ok; [done|]. intros E.
      eapply still; [intros ? ?; apply sound_grows | exact He3 | done | intros E2; by apply Hs2].
    + intros w4 He4 _. apply mok_ret. intros w' ? _ ?. apply Hend; [by eapply until_trans | done].
Qed.

(** *** Deletion *)

Lemma delete_row_ok i w : kok (delete_row i) (fun g w' => g <= k_gen w') w.
Proof.
  apply mok_sql.
  - intros w'. cbn. by destruct (_ && _).
  - intros w' _ Hc _ _. cbn. destruct (_ && _) eqn:E; [|split; [done | apply grows_refl]]. apply andb_prop in E as [E _]. by apply delete_step.
  - intros w' g w2 _ _ _. cbn. destruct (_ && _); cbn [fst snd]; intros [= <-] ((Hg & _) & _) _ _; cbn in *; lia.
Qed.
Lemma token_Delete_ok token w : key_inv w -> (spoilt w = false -> ct_Key token = key) -> kok (token_Delete redis cacheSeconds token) upheld w.
Proof.
  intros Hi Hk. apply mok_seq; [apply mok_if; [by apply raiseFences_ok | by apply mok_ret] | | done]. intros w1 He1 Hi1.
  apply mok_if; [apply mok_fail|]. eapply mok_bind; [apply delete_row_ok | | done]. intros g w2 He2 Hi2 Hg.
  eapply (mok_bind _ _ (fun _ w' => redis = true -> g <= k_swept w')); [| |done].
  - apply mok_case; [intros _|intros Er; apply mok_ret; intros; congruence]. apply (revoke_ok g); [done|]. intros E. split.
    + apply Hk, (mark_before (grows := grows) w w2); [by eapply until_trans | done].
    + apply Hg; [apply until_refl | done..].
  - intros ? w3 He3 Hi3 Hsw. apply mok_ret. intros w4 He4 Hi4 E4. split; [|by apply (Hsw w4)]. apply (Hg w4); [by eapply until_trans | done..].
Qed.
Lemma DeleteById_ok i userId w : key_inv w -> kok (DeleteTokenById redis cacheSeconds i userId) upheld w.
Proof.
  intros Hi. apply mok_if; [apply mok_fail|]. eapply mok_bind; [apply read_any_ok | | done]. intros s w1 _ Hi1 Hs.
  apply token_Delete_ok; [done|]. intros E. by destruct (Hs w1 (until_refl w1) Hi1 E) as (_ & _ & ?).
Qed.

(** The status of a key, from the dashboard: a revocation is upheld. *)
Lemma UpdateTokenStatus_ok i userId status w :
  key_inv w -> kok (UpdateTokenStatus redis cacheSeconds i userId status) (fun g w' => enabling status = false -> upheld g w') w.
Proof.
  intros Hi. eapply (mok_bind _ _ sound); [apply mok_if; [apply mok_fail | apply read_any_ok] | | done]. intros s w1 _ Hi1 Hs.
  eapply (mok_bind _ _ anything); [apply kok_plain; intros; apply plain_refl | | done]. intros time w2 He2 Hi2 _.
  apply mok_if; [apply mok_fail|]. apply mok_if; [apply mok_fail|].
  apply UpdateStatus_ok; [done|]. intros E. by destruct (Hs w2 He2 Hi2 E) as (_ & _ & ?).
Qed.

(** *** The rest leaves status and fence alone *)

Lemma update_row_ok i (f : TokenRow -> TokenRow) w :
  (forall t, ct_Status (f t) = ct_Status t /\ ct_Key (f t) = ct_Key t) -> kok (update_row i f) anything w.
Proof.
  intros Hf. apply kok_plain. intros w'. cbn. destruct (_ && _); [|apply plain_refl]. destruct (Hf (k_row w')). split_and!; try done.
  intros h. by exists h.
Qed.
Lemma mutation_ok k w : key_inv w -> kok (invalidateTokenCacheForMutation redis k) anything w.
Proof.
  intros Hi. apply mok_if; [by apply mok_ret|]. apply mok_seq; [apply kok_plain | intros; apply token_drop_ok | done].
  intros w'. split_and!; try done. intros h. by exists h.
Qed.
Lemma token_Update_ok token w : key_inv w -> kok (token_Update redis cacheSeconds token) anything w.
Proof.
  intros Hi. apply mok_seq; [by apply mutation_ok | | done]. intros w1 _ Hi1. apply mok_if; [apply mok_fail|].
  eapply (mok_bind _ _ anything); [by apply update_row_ok | | done]. intros b w2 _ Hi2 _. apply mok_if; [by apply mok_ret|].
  eapply (mok_bind _ _ anything); [by apply (mok_dropped _ anything); [apply token_refresh_ok|] | | done]. intros [err|[]] w3 _ Hi3 _; [|by apply mok_ret].
  apply mok_if; [by apply mok_ret|]. apply mok_seq; [by apply (mok_dropped _ anything); [apply token_drop_ok|] | intros; by apply mok_ret | done].
Qed.
Lemma GetTokenById_ok i w : key_inv w -> kok (GetTokenById redis cacheSeconds i) anything w.
Proof.
  intros Hi. apply mok_if; [apply mok_fail|]. eapply mok_bind; [apply read_any_ok | | done]. intros s w1 _ Hi1 _.
  apply mok_seq; [by apply mok_if; [apply background_ok | apply mok_ret] | intros; by apply mok_ret | done].
Qed.
Lemma DisableModelLimits_ok i w : key_inv w -> kok (DisableModelLimits redis cacheSeconds i) anything w.
Proof. intros Hi. eapply mok_bind; [by apply GetTokenById_ok | | done]. intros t w1 _ Hi1 _. by apply token_Update_ok. Qed.
Lemma token_retry_ok k w : key_inv w -> kok (RevokeTokensCacheRetry redis cacheSeconds k) anything w.
Proof.
  intros Hi. apply mok_if; [by apply mok_ret|]. apply mok_seq; [by apply raiseFences_ok | | done]. intros w1 _ Hi1.
  apply mok_if; [by apply mok_ret|]. apply pending_ok; [|done]. apply mok_if; [by apply mok_ret|].
  apply up_to_ok; [apply Nat.lt_0_succ | | done]. intros w' _ _. apply mok_sql; [by intros | | done]. intros w2 _ Hc _ _. by apply sweep_step.
Qed.

Lemma charge_hash_plain delta w : plain w (charge_hash delta w).
Proof. split_and!; try done. cbn. intros h' Hh E. destruct (k_hash w) as [h|]; [|done]. exists h. by injection Hh as <-. Qed.
Lemma token_delta_ok i delta w : kok (sql (token_delta_script i delta)) anything w.
Proof.
  apply kok_plain. intros w'. unfold token_delta_script. destruct (k_hash w') as [t|]; [destruct (_ =? i)|];
    [apply charge_hash_plain | apply plain_refl..].
Qed.
Lemma token_reserve_ok i amount w : kok (sql (token_reserve_script i amount)) anything w.
Proof.
  apply kok_plain. intros w'. unfold token_reserve_script. destruct (k_hash w') as [t|]; [destruct (_ =? i); [destruct (_ <? amount)|]|];
    [apply plain_refl | apply charge_hash_plain | apply plain_refl..].
Qed.
Lemma change_quota_ok i delta w : key_inv w -> kok (change_token_quota redis i delta) anything w.
Proof.
  intros Hi. apply mok_seq; [apply mok_if; [apply mok_fork; [intros; apply token_delta_ok | done] | by apply mok_ret] | | done]. intros w1 _ Hi1.
  eapply (mok_bind _ _ anything); [apply kok_plain; intros; apply plain_refl | | done]. intros time w2 _ Hi2 _.
  apply mok_seq; [by apply update_row_ok | intros; by apply mok_ret | done].
Qed.
Lemma incr_ok delta w : key_inv w -> kok (cacheIncrTokenQuota delta) anything w.
Proof.
  intros Hi. eapply (mok_bind _ _ anything); [apply kok_plain; intros; apply plain_refl | | done]. intros present w1 _ Hi1 _.
  apply mok_if; [by apply mok_ret|]. apply kok_plain. intros w'. split_and!; try done. cbn. intros h' [= <-] E.
  destruct (k_hash w') as [h|]; [by exists h | done].
Qed.
End Facts.
