(* ===== verification/TokenCacheTheorems.v ===== *)
(** * No request runs on a key that was revoked

    The functions of [TokenCache] run by any number of nodes on any number of
    Redis instances, their statements interleaved, answers lost, nodes crashing,
    the clock moving on: a key is accepted only if it was enabled again since
    every revocation that a node on the same Redis had reported when the request
    began.  Two races are excepted: a row written to
    the cache later than a fence lives, and an enabling that takes a new fence
    for the one it saw, which can happen within seconds. *)

From stdpp Require Import base numbers option strings list relations.
From Stdlib Require Import ZArith Lia.
From S2P Require Import Prelude Store Interleave Marked Focus Topology TokenCache TokenCacheFacts.
Open Scope Z_scope.

(** ** What a caller sees *)

(** A request: what was reported when it began, and, if it is let through, the
    last enabling at that moment. *)
Definition accept (redis : bool) (cacheSeconds : Z) (key : string) : prog Keyring unit :=
  prog_bind (note (fun w => (k_reported w, w))) (fun a =>
  prog_bind (ValidateUserToken redis cacheSeconds key) (fun r =>
  match r with
  | inr _ => note (fun w => (tt, w <| k_served ::= cons (a, k_enabled_at w) |>))
  | inl _ => Done tt
  end)).
(** A revocation is reported with the number of its change. *)
Definition report (p : program Z) : prog Keyring unit :=
  prog_bind p (fun r => match r with inr g => note (fun w => (tt, w <| k_reported ::= Z.max g |>)) | inl _ => Done tt end).

(** Everything that runs on the state of the key. *)
Inductive client (redis : bool) (cacheSeconds : Z) : prog Keyring unit -> Prop :=
| client_request key : client redis cacheSeconds (accept redis cacheSeconds key)
| client_revoke id userId status : enabling status = false ->
    client redis cacheSeconds (report (UpdateTokenStatus redis cacheSeconds id userId status))
| client_enable id userId : client redis cacheSeconds (ignored (UpdateTokenStatus redis cacheSeconds id userId TokenStatusEnabled))
| client_delete id userId : client redis cacheSeconds (report (DeleteTokenById redis cacheSeconds id userId))
| client_retry key : client redis cacheSeconds (ignored (RevokeTokensCacheRetry redis cacheSeconds key))
| client_edit token : client redis cacheSeconds (ignored (token_Update redis cacheSeconds token))
| client_limits id : client redis cacheSeconds (ignored (DisableModelLimits redis cacheSeconds id))
| client_find key fromDB : client redis cacheSeconds (ignored (GetTokenByKey redis cacheSeconds key fromDB))
| client_find_id id : client redis cacheSeconds (ignored (GetTokenById redis cacheSeconds id))
| client_remove id : client redis cacheSeconds (ignored (delete_row id))
| client_invalidate key : client redis cacheSeconds (ignored (invalidateTokenCacheForMutation redis key))
| client_quota id delta : client redis cacheSeconds (ignored (change_token_quota redis id delta))
| client_reserve id amount : client redis cacheSeconds (ignored (sql (token_reserve_script id amount)))
| client_incr delta : client redis cacheSeconds (ignored (cacheIncrTokenQuota delta)).

(** The clock moves on, and the hash expires. *)
Inductive elapses (w : Keyring) : Keyring -> Prop :=
| time_passes t : k_clock w <= t -> elapses w (w <| k_clock := t |>)
| hash_expires : elapses w (w <| k_hash := @None TokenRow |>).

(** A new key, at some time. *)
Definition fresh (row : TokenRow) (clock : Z) : Keyring :=
  mkKeyring clock row true None None None 1 (if enabling (ct_Status row) then 1 else 0) None 0 clock 0 0 [] false false.

(** Nodes on different Redis instances share the row and the clock. *)
Definition adopt_key (db w : Keyring) : Keyring :=
  mkKeyring (k_clock db) (k_row db) (k_live db) (k_hash w) (k_revoked w) (k_mutating w) (k_gen db) (k_enabled_at db) (k_deleted_at db)
    (k_swept w) (k_swept_at w) (k_births w) (k_reported w) (k_served w) (k_late db) (k_reused db).
Definition same_key (a b : Keyring) : Prop :=
  (k_clock a, k_row a, k_live a, k_gen a, k_enabled_at a, k_deleted_at a, k_late a, k_reused a) =
  (k_clock b, k_row b, k_live b, k_gen b, k_enabled_at b, k_deleted_at b, k_late b, k_reused b).
#[export] Instance same_key_equivalence : Equivalence same_key.
Proof. split; [by intros a | by intros a b | intros a b c H1 H2; by etrans]. Qed.
(** The steps of all nodes, where [redis] says which Redis is enabled; an
    instance that is not is that of the nodes without one. *)
Abbreviation key_cluster_steps redis cacheSeconds :=
  (rtc (pool_step (cluster_tick adopt_key elapses) (cluster_starts adopt_key (fun j => client (redis j) cacheSeconds)))).

Section Keys.
Context (redis : bool) (cacheSeconds : Z) (key : string) (Hkey : key <> EmptyString).
Abbreviation inv := (until spoilt (core redis cacheSeconds key)).
Abbreviation step := (until_step spoilt grows).
Abbreviation kok := (mok spoilt (core redis cacheSeconds key) grows).
Abbreviation thread := (thread_safe inv step step).

Lemma fresh_ok row clock : ct_Key row = key -> inv (fresh row clock).
Proof.
  intros Hk _. unfold core, fresh. cbn. destruct (enabling (ct_Status row)); split_and!; try done; try lia; left; lia.
Qed.

Lemma elapses_ok w w' : inv w -> elapses w w' -> inv w' /\ step w w'.
Proof.
  intros Hi He. assert (spoilt w' = spoilt w) as Hmark by by destruct He.
  assert (spoilt w = false -> core redis cacheSeconds key w' /\ grows w w') as H.
  { intros E. specialize (Hi E). destruct He; [by apply clock_step | by apply plain_step]. }
  split; [intros E; rewrite Hmark in E; by apply H | split; [by rewrite Hmark | intros E; rewrite Hmark in E; by apply H]].
Qed.

Lemma served_step a w :
  core redis cacheSeconds key w -> a <= k_enabled_at w ->
  core redis cacheSeconds key (w <| k_served ::= cons (a, k_enabled_at w) |>) /\ grows w (w <| k_served ::= cons (a, k_enabled_at w) |>).
Proof.
  intros (C1 & C2 & C3 & C4 & C5 & C6 & C7 & C8 & C9) Ha. split; [|by split_and!]. unfold core. cbn. split_and!; try done; try apply C1; try apply C6.
  constructor; [cbn; lia | done].
Qed.
Lemma reported_step g w :
  core redis cacheSeconds key w -> upheld redis g w ->
  core redis cacheSeconds key (w <| k_reported ::= Z.max g |>) /\ grows w (w <| k_reported ::= Z.max g |>).
Proof.
  intros (C1 & C2 & C3 & C4 & C5 & [C6 C6'] & C7 & C8 & C9) [Hg Hs]. split; [|by split_and!]. unfold core. cbn.
  split_and!; try done; try apply C1; [lia|]. intros E. specialize (C6' E). specialize (Hs E). lia.
Qed.

Lemma accept_safe k w : inv w -> thread (accept redis cacheSeconds k) w.
Proof.
  intros Hi. unfold accept. eapply thread_bind; [apply (note_safe (core := core redis cacheSeconds key) (grows := grows) _ (upheld redis)) | | done].
  - done.
  - by intros w' _ _ Hc.
  - intros w' w2 _ Hc _ Hg _ _. cbn in *. apply (upheld_grows redis _ w' w2 Hg). by destruct Hc as (_ & _ & _ & _ & _ & ? & _).
  - intros a w1 He1 Hi1 Ha. eapply thread_bind; [apply (Validate_ok redis cacheSeconds key a k w1 Hi1); apply Ha; [apply until_refl | done] | | done].
    intros [err|t] w2 He2 Hi2 Hr; [apply thread_done|]. apply note_thread; [done|]. intros w3 He3 E3 Hc. cbn.
    apply served_step; [done|]. exact (Hr w3 He3 (fun _ => Hc) E3).
Qed.
Lemma report_safe (p : program Z) w : inv w -> kok p (upheld redis) w -> thread (report p) w.
Proof.
  intros Hi Hp. eapply thread_bind; [exact Hp | | done]. intros [err|g] w1 He1 Hi1 Hg; [apply thread_done|].
  apply note_thread; [done|]. intros w2 He2 E2 Hc. cbn. apply reported_step; [done|]. exact (Hg w2 He2 (fun _ => Hc) E2).
Qed.

Lemma client_safe p w : client redis cacheSeconds p -> inv w -> thread p w.
Proof.
  intros Hp Hi. destruct Hp as [k|i u status Hstatus| | | | | | | | | | | |].
  - by apply accept_safe.
  - apply report_safe; [done|]. eapply mok_mono; [|by apply UpdateTokenStatus_ok]. intros g w' H. by apply H.
  - eapply mok_ignored; [done | by apply UpdateTokenStatus_ok].
  - apply report_safe; [done | by apply DeleteById_ok].
  - eapply mok_ignored; [done | by apply token_retry_ok].
  - eapply mok_ignored; [done | by apply token_Update_ok].
  - eapply mok_ignored; [done | by apply DisableModelLimits_ok].
  - eapply mok_ignored; [done | apply (GetTokenByKey_ok redis cacheSeconds key (k_reported w)); [done|]]. intros E. specialize (Hi E).
    by destruct Hi as (_ & _ & _ & _ & _ & ? & _).
  - eapply mok_ignored; [done | by apply GetTokenById_ok].
  - eapply mok_ignored; [done | by apply delete_row_ok].
  - eapply mok_ignored; [done | by apply mutation_ok].
  - eapply mok_ignored; [done | by apply change_quota_ok].
  - eapply mok_ignored; [done | by apply token_reserve_ok].
  - eapply mok_ignored; [done | by apply incr_ok].
Qed.
End Keys.

(** What is done to the row by a node on another Redis. *)
Lemma key_survives {R : Type} (redis : R -> bool) cacheSeconds key :
  survives adopt_key (fun j => until spoilt (core (redis j) cacheSeconds key)) (until_step spoilt grows) same_key.
Proof.
  apply until_survives.
  - intros x y H. unfold spoilt. by injection H as _ _ _ _ _ _ -> ->.
  - done.
  - intros i j x y y' ((X1 & X1' & X1'') & X2 & X3 & X4 & X5 & [X6 X6'] & X7 & X8 & X9) _ Ha
      ((Y1 & Y1' & Y1'') & Y2 & _ & _ & _ & _ & _ & Y8 & Y9) ((G1 & G2 & _ & G4) & _).
    injection Ha as E1 _ _ E4 E5 _ _ _. rewrite E4 in G1. rewrite E5 in G2. rewrite E1 in G4. split.
    + unfold core. cbn. split_and!; try done; try lia.
      * intros h Hh He. specialize (X3 h Hh He). lia.
      * destruct X4 as [|[|]]; [left; lia | right; left; lia | by right; right].
      * eapply Forall_impl; [exact X7|]. cbn. lia.
    + split_and!; cbn; try lia; try done. intros g r (? & ? & ?). unfold stamped. cbn. lia.
Qed.
Lemma keys_reached {R : Type} `{EqDecision R} (redis : R -> bool) cacheSeconds row clock threads (t : R -> Keyring) :
  ct_Key row <> EmptyString ->
  key_cluster_steps redis cacheSeconds (mkPool [] (fun _ => fresh row clock)) (mkPool threads t) ->
  forall j, until spoilt (core (redis j) cacheSeconds (ct_Key row)) (t j).
Proof.
  intros Hkey Hrun. refine (proj1 (cluster_reached adopt_key (fun j => until spoilt (core (redis j) cacheSeconds (ct_Key row))) (until_step spoilt grows) same_key
    (key_survives redis cacheSeconds _) elapses (fun j => client (redis j) cacheSeconds) _ _ _ _ _ _ Hrun)).
  - intros j. apply elapses_ok.
  - intros j p w Hp. by apply client_safe.
  - apply cluster_start; [apply _|]. intros j. by apply fresh_ok.
Qed.

(** C34. A revoked key stays out: in every run of any number of nodes on any
    number of Redis instances, a request that is let through has a last enabling
    that came no earlier than any revocation that a node on the same Redis had
    reported when it began, and none is let through after the deletion was
    reported there; whatever answers are lost, nodes crash and hashes expire.
    Excepted are rows cached later than a fence lives, and an enabling that takes
    a new fence for the one it saw. *)
Theorem revoked_key_unusable {R : Type} `{EqDecision R} (redis : R -> bool) cacheSeconds row clock threads (t : R -> Keyring) :
  ct_Key row <> EmptyString ->
  key_cluster_steps redis cacheSeconds (mkPool [] (fun _ => fresh row clock)) (mkPool threads t) ->
  forall j, k_late (t j) = false -> k_reused (t j) = false ->
  forall reported enabled, (reported, enabled) ∈ k_served (t j) ->
    reported <= enabled /\ (forall deleted, k_deleted_at (t j) = Some deleted -> enabled < deleted).
Proof.
  intros Hkey Hrun j Hlate Hreused a e Hin. pose proof (keys_reached redis cacheSeconds row clock threads t Hkey Hrun j) as Hcore.
  unfold until, spoilt in Hcore. rewrite Hlate, Hreused in Hcore. destruct (Hcore eq_refl) as (_ & _ & _ & _ & _ & _ & C7 & C8 & _).
  rewrite Forall_forall in C7. specialize (C7 _ Hin). cbn in C7. split; [lia|]. intros d Hd. destruct (C8 d Hd). lia.
Qed.

(** A key is disabled at 1000; two minutes later, a second before the fence
    expires, one node begins to enable it and looks at the fence; a second after
    the fence expired it has changed the row, and another node deletes the key,
    which raises a new fence to the same epoch; then the first node goes on. *)
Module RevocationRace.
Definition row : TokenRow := mkTokenRow 5 9 "k" TokenStatusEnabled 0 "main" 0 (-1) 100 false false "" None 0 "" false "".
Definition disabling : prog Keyring unit := report (UpdateTokenStatus true 60 5 9 TokenStatusDisabled).
Definition enabling_again : prog Keyring unit := ignored (UpdateTokenStatus true 60 5 9 TokenStatusEnabled).
Definition deleting : prog Keyring unit := report (DeleteTokenById true 60 5 9).
Definition at_time (t : Z) (c : Pool Keyring) : Pool Keyring := mkPool (pool_threads c) ((pool_state c) <| k_clock := t |>).
Definition begin (p : prog Keyring unit) (c : Pool Keyring) : Pool Keyring := mkPool (p :: pool_threads c) (pool_state c).

Abbreviation steps := (rtc (pool_step elapses (client true 60))).
Lemma timed t c : k_clock (pool_state c) <= t -> steps c (at_time t c).
Proof. intros H. destruct c as [l s]. apply rtc_once. apply (pool_tick elapses (client true 60) l s). by apply time_passes. Qed.
Lemma begun p c : client true 60 p -> steps c (begin p c).
Proof. intros H. destruct c as [l s]. apply rtc_once. by apply (pool_start elapses (client true 60) p l s). Qed.

Definition cold : Pool Keyring := mkPool [] (fresh row 1000).
Definition looked_at : Pool Keyring := advance 3 (begin enabling_again (at_time 1119 (after disabling cold))).
Definition key_deleted : Pool Keyring := after deleting (advance 1 (at_time 1121 looked_at)).
Definition readmitted : Pool Keyring := after (accept true 60 "k") (advance 2 key_deleted).
Lemma to_looked_at : steps cold looked_at.
Proof.
  etrans; [exact (started _ _ disabling cold (client_revoke true 60 5 9 TokenStatusDisabled eq_refl))|].
  etrans; [exact (timed 1119 (after disabling cold) ltac:(by vm_compute))|].
  etrans; [exact (begun enabling_again _ (client_enable _ _ _ _))|]. exact (advanced _ _ 3 _).
Qed.
Lemma to_deleted : steps cold key_deleted.
Proof.
  etrans; [exact to_looked_at|]. etrans; [exact (timed 1121 looked_at ltac:(by vm_compute))|].
  etrans; [exact (advanced _ _ 1 _)|]. exact (started _ _ deleting _ (client_delete _ _ _ _)).
Qed.
Lemma to_readmitted : steps cold readmitted.
Proof.
  etrans; [exact to_deleted|]. etrans; [exact (advanced _ _ 2 _)|]. exact (started _ _ (accept true 60 "k") _ (client_request _ _ _)).
Qed.
End RevocationRace.

(** Two Redis instances: the key is used on both, then disabled on the first,
    where it is turned down from then on; the second still has it in its cache. *)
Module TwoRedis.
Definition redis (_ : bool) : bool := true.
Abbreviation steps := (key_cluster_steps redis 60).
Definition cold : Pool (bool -> Keyring) := mkPool [] (fun _ => fresh RevocationRace.row 1000).
Definition use (j : bool) (c : Pool (bool -> Keyring)) : Pool (bool -> Keyring) := after_on adopt_key j (accept true 60 "k") c.
Definition used_again : Pool (bool -> Keyring) :=
  use false (use true (after_on adopt_key true RevocationRace.disabling (use false (use true cold)))).
Lemma uses j c : steps c (use j c).
Proof. apply started_on, client_request. Qed.
Lemma to_used_again : steps cold used_again.
Proof.
  etrans; [apply (uses true)|]. etrans; [apply (uses false)|].
  etrans; [apply (started_on adopt_key elapses _ true RevocationRace.disabling); by apply client_revoke|].
  etrans; [apply (uses true) | apply (uses false)].
Qed.
End TwoRedis.

Lemma revoked_key_unusable_witness :
  k_served (pool_state TwoRedis.used_again true) = [(0, 1)] /\ k_reported (pool_state TwoRedis.used_again true) = 2 /\
  k_served (pool_state TwoRedis.used_again false) = [(0, 1); (0, 1)] /\
  forall j reported enabled, (reported, enabled) ∈ k_served (pool_state TwoRedis.used_again j) -> reported <= enabled.
Proof.
  split; [by vm_compute|]. split; [by vm_compute|]. split; [by vm_compute|]. intros j a e Hin.
  exact (proj1 (revoked_key_unusable TwoRedis.redis 60 RevocationRace.row 1000 (pool_threads TwoRedis.used_again)
    (pool_state TwoRedis.used_again) (fun H => ltac:(discriminate H)) TwoRedis.to_used_again j
    ltac:(destruct j; by vm_compute) ltac:(destruct j; by vm_compute) a e Hin)).
Defined.

(** C35. Epochs start again at one when a fence has expired, so that the epoch an
    enabling saw can be reached by the fence of a deletion it did not see: the
    enabling removes that fence and writes the key back, and the deleted key is
    accepted after its deletion was reported, within seconds of it all. *)
Theorem epoch_reuse_readmits_key :
  exists row clock threads w,
    rtc (pool_step elapses (client true 60)) (mkPool [] (fresh row clock)) (mkPool threads w) /\
    k_live w = false /\ k_late w = false /\
    exists deleted enabled, k_deleted_at w = Some deleted /\ (deleted, enabled) ∈ k_served w /\ enabled < deleted /\
      value (ValidateUserToken true 60 (ct_Key row)) w = inr ((row <| ct_StatusVersion := 2 |>)).
Proof.
  exists RevocationRace.row, 1000, (pool_threads RevocationRace.readmitted), (pool_state RevocationRace.readmitted).
  split; [exact RevocationRace.to_readmitted|]. split; [by vm_compute|]. split; [by vm_compute|].
  exists 4, 3. split; [by vm_compute|]. split; [vm_compute; left|]. by vm_compute.
Qed.

(** The other race: a request reads the row and is delayed; the key is deleted
    and the fence expires; then the request writes what it read to the cache. *)
Module LateFill.
Import RevocationRace.
Definition waiting : Pool Keyring := advance 3 (begin (accept true 60 "k") cold).
Definition written : Pool Keyring := advance 1 (at_time 1121 (after deleting waiting)).
Definition let_in : Pool Keyring := after (accept true 60 "k") written.
Lemma to_let_in : steps cold let_in.
Proof.
  etrans; [exact (begun (accept true 60 "k") cold (client_request _ _ _))|]. etrans; [exact (advanced _ _ 3 _)|].
  etrans; [exact (started _ _ deleting _ (client_delete _ _ _ _))|].
  etrans; [exact (timed 1121 (after deleting waiting) ltac:(by vm_compute))|].
  etrans; [exact (advanced _ _ 1 _)|]. exact (started _ _ (accept true 60 "k") _ (client_request _ _ _)).
Qed.
End LateFill.
Lemma late_fill_readmits_key :
  exists row clock threads w,
    rtc (pool_step elapses (client true 60)) (mkPool [] (fresh row clock)) (mkPool threads w) /\
    k_live w = false /\ k_reused w = false /\ k_deleted_at w = Some 2 /\ (2, 1) ∈ k_served w.
Proof.
  exists RevocationRace.row, 1000, (pool_threads LateFill.let_in), (pool_state LateFill.let_in).
  split; [exact LateFill.to_let_in|]. do 3 (split; [by vm_compute|]). vm_compute. left.
Qed.
