(* ===== verification/Sessions.v ===== *)
(** * Login sessions ([src/model/user_session.go])

    A session is a row, which says whether it is active and which refresh token
    is current, and a Redis hash, which any node may fill from a row it read
    some time ago.  A revocation writes a tombstone over the hash before it
    changes the row and another after it; a fill carries a deadline, taken
    before the row was read, by which the hash it writes expires.

    The state is the table of all sessions, their hashes in one Redis
    ([SessionTopology] is about several), and the clock, in milliseconds; and ghost components: when a row ceased to be active, whether
    a tombstone was written after that, what was reported, what was served and
    which refresh tokens were handed out.  A statement, a script, or a
    transaction without a script in it, is atomic; between two of them anything
    can happen. *)

From stdpp Require Import base numbers option strings list sorting gmap relations.
From Stdlib Require Import ZArith Lia.
From S2P Require Import Prelude Store Interleave.
Open Scope Z_scope.

Definition UserSessionStatusActive : string := "active".
Definition UserSessionStatusRevoking : string := "revoking".
Definition UserSessionStatusRevoked : string := "revoked".
Definition userSessionCacheSchema : Z := 1.
Definition userSessionListLimit : nat := 100.
Definition userSessionRevokeBatchSize : nat := 500.
Definition userSessionCleanupScanLimit : nat := 1000.
Definition userSessionCleanupBatchSize : nat := 500.

Definition ErrUserSessionInvalid : Err := EText "user session is invalid".
Definition ErrUserSessionInactive : Err := EText "user session is inactive".
Definition ErrUserSessionRefreshInvalid : Err := EText "user session refresh token is invalid".
Definition ErrUserSessionRefreshReuse : Err := EText "user session refresh token was reused".
Definition ErrUserSessionLimit : Err := EText "active user session limit reached".
Definition ErrUserSessionIssuanceLimit : Err := EText "user session issuance limit reached".
Definition errUserSessionCacheObservationStale : Err := EText "user session cache observation is stale".

Record UserSession := mkUserSession {
  ss_SID : string;
  ss_UserID : Z;
  ss_Version : Z;
  ss_UserAuthVersion : Z;
  ss_Status : string;
  ss_RefreshHash : string;
  ss_PreviousRefreshHash : string;
  ss_PreviousValidUntil : Z;
  ss_LoginMethod : string;
  ss_IP : string;
  ss_UserAgent : string;
  ss_CreatedAt : Z;
  ss_LastActiveAt : Z;
  ss_ExpiresAt : Z;
  ss_RevokedAt : Z;
  ss_RevokedReason : string
}.
#[export] Instance UserSession_eta : Eta UserSession :=
  fun r => mkUserSession (ss_SID r) (ss_UserID r) (ss_Version r) (ss_UserAuthVersion r) (ss_Status r) (ss_RefreshHash r)
    (ss_PreviousRefreshHash r) (ss_PreviousValidUntil r) (ss_LoginMethod r) (ss_IP r) (ss_UserAgent r) (ss_CreatedAt r)
    (ss_LastActiveAt r) (ss_ExpiresAt r) (ss_RevokedAt r) (ss_RevokedReason r).

(** Databases may pad a [varchar]. *)
Definition AfterFind (session : UserSession) : UserSession := session <| ss_PreviousRefreshHash ::= trim_space |>.

Record userSessionCacheEntry := mkEntry {
  sc_SID : string;
  sc_UserID : Z;
  sc_Version : Z;
  sc_UserAuthVersion : Z;
  sc_Status : string;
  sc_LoginMethod : string;
  sc_IP : string;
  sc_UserAgent : string;
  sc_CreatedAt : Z;
  sc_LastActiveAt : Z;
  sc_ExpiresAt : Z;
  sc_RevokedAt : Z;
  sc_RevokedReason : string;
  sc_CacheSchema : Z
}.
#[export] Instance userSessionCacheEntry_eta : Eta userSessionCacheEntry :=
  fun r => mkEntry (sc_SID r) (sc_UserID r) (sc_Version r) (sc_UserAuthVersion r) (sc_Status r) (sc_LoginMethod r) (sc_IP r)
    (sc_UserAgent r) (sc_CreatedAt r) (sc_LastActiveAt r) (sc_ExpiresAt r) (sc_RevokedAt r) (sc_RevokedReason r) (sc_CacheSchema r).

Definition cacheEntry (s : UserSession) : userSessionCacheEntry :=
  mkEntry (ss_SID s) (ss_UserID s) (ss_Version s) (ss_UserAuthVersion s) (ss_Status s) (ss_LoginMethod s) (ss_IP s)
    (ss_UserAgent s) (ss_CreatedAt s) (ss_LastActiveAt s) (ss_ExpiresAt s) (ss_RevokedAt s) (ss_RevokedReason s) userSessionCacheSchema.
Definition entry_session (e : userSessionCacheEntry) : UserSession :=
  mkUserSession (sc_SID e) (sc_UserID e) (sc_Version e) (sc_UserAuthVersion e) (sc_Status e) "" "" 0 (sc_LoginMethod e) (sc_IP e)
    (sc_UserAgent e) (sc_CreatedAt e) (sc_LastActiveAt e) (sc_ExpiresAt e) (sc_RevokedAt e) (sc_RevokedReason e).

(** One session: its row, and its hash with the time it expires. *)
Record Slot := mkSlot {
  sl_row : option UserSession;
  sl_hash : option (userSessionCacheEntry * Z);
  (* ghost *)
  sl_born : bool;            (* its identifier was used *)
  sl_user : Z;               (* the user, *)
  sl_expires : Z;            (* the [expires_at] *)
  sl_first : string;         (* and the digest it was created with *)
  sl_rotations : nat;        (* rotations of its refresh token *)
  sl_ended : option Z;       (* when its row ceased to be active *)
  sl_sealed : bool;          (* a tombstone was written since *)
  sl_reported : bool;        (* its revocation was reported *)
  sl_unsealed : bool         (* ... when there had been no such tombstone *)
}.
#[export] Instance Slot_eta : Eta Slot :=
  fun r => mkSlot (sl_row r) (sl_hash r) (sl_born r) (sl_user r) (sl_expires r) (sl_first r) (sl_rotations r) (sl_ended r) (sl_sealed r)
    (sl_reported r) (sl_unsealed r).
Definition empty_slot : Slot := mkSlot None None false 0 0 "" 0 None false false false.

(** A request that was let through: which session, when the request began, and
    whether the revocation had been reported then. *)
Record Served := mkServed { sv_sid : string; sv_began : Z; sv_reported : bool }.
(** A refresh token that was handed out, how many rotations there had been when
    the request began, and when that was. *)
Record Handed := mkHanded { hd_sid : string; hd_token : string; hd_rotations : nat; hd_began : Z }.

Record Sessions := mkSessions {
  s_clock : Z;
  s_slots : gmap string Slot;
  (* ghost *)
  s_served : list Served;
  s_handed : list Handed
}.
#[export] Instance Sessions_eta : Eta Sessions := fun r => mkSessions (s_clock r) (s_slots r) (s_served r) (s_handed r).

Abbreviation program A := (P Sessions A).

Definition slot (sid : string) (w : Sessions) : Slot := default empty_slot (s_slots w !! sid).
Definition on_slot (sid : string) (f : Slot -> Slot) (w : Sessions) : Sessions :=
  w <| s_slots := <[sid := f (slot sid w)]> (s_slots w) |>.
Definition row (sid : string) (w : Sessions) : option UserSession := sl_row (slot sid w).
Definition rows (w : Sessions) : list UserSession := omap (fun p => sl_row p.2) (map_to_list (s_slots w)).

(** [time.Now()], and [Unix()] of it. *)
Definition unix (time : Z) : Z := time / 1000.
Definition now : program Z := sql (fun w => (inr (s_clock w), w)).

Definition is_active (s : UserSession) (time : Z) : bool :=
  str_eqb (ss_Status s) UserSessionStatusActive && (ss_RevokedAt s =? 0) && (time <? ss_ExpiresAt s).

(** The orders of queries. *)
Definition sid_le (a b : UserSession) : Prop := String.leb (ss_SID a) (ss_SID b) = true.
#[export] Instance sid_le_dec : RelDecision sid_le := fun a b => decide (String.leb (ss_SID a) (ss_SID b) = true).

Definition by_key (key : UserSession -> Z) (a b : UserSession) : Prop := key a <= key b.
#[export] Instance by_key_dec key : RelDecision (by_key key) := fun a b => decide (key a <= key b).

(** ** The cache *)

(** What Redis shows of a hash. *)
Definition visible (clock : Z) (h : option (userSessionCacheEntry * Z)) : option userSessionCacheEntry :=
  match h with Some (e, until) => if clock <=? until then Some e else None | None => None end.

Definition tombstone (e : userSessionCacheEntry) : bool :=
  str_eqb (sc_Status e) UserSessionStatusRevoking || str_eqb (sc_Status e) UserSessionStatusRevoked.
(** A hash that takes effect, until [until]; a time that passed deletes it. *)
Definition store_entry (e : userSessionCacheEntry) (until : Z) (w : Sessions) : Sessions :=
  on_slot (sc_SID e) (fun s =>
    s <| sl_hash := if until <=? s_clock w then None else Some (e, until) |>
      <| sl_sealed ::= orb (tombstone e && match sl_ended s with Some _ => true | None => false end) |>) w.
Definition write_script (e : userSessionCacheEntry) (redisExpiration : Z) (w : Sessions) : result Z * Sessions :=
  let current := visible (s_clock w) (sl_hash (slot (sc_SID e) w)) in
  let active := str_eqb (sc_Status e) UserSessionStatusActive in
  let current_version := match current with Some c => sc_Version c | None => 0 end in
  if active && match current with Some c => tombstone c | None => false end then (inr 0, w) else
  if sc_Version e <? current_version then (inr 0, w) else
  (inr 1, store_entry e (if active then redisExpiration else s_clock w + redisExpiration) w).

Section Functions.
(** [RedisEnabled]. *)
Context (redis : bool) (cacheSeconds : Z).

Definition userCacheTTLSeconds : Z := if cacheSeconds <=? 0 then 60 else cacheSeconds.
Definition userSessionCacheDeadline : program Z := sql (fun w => (inr (s_clock w + 1000 * userCacheTTLSeconds), w)).

(** [None] is the zero deadline.  In milliseconds, as here, what is positive is at
    least one, so the tests against [time.Millisecond] never succeed. *)
Definition writeUserSessionCache (e : userSessionCacheEntry) (cacheDeadline : option Z) : program unit :=
  if negb redis then mret tt else
  time ← now;
  let sessionExpiresAt := 1000 * sc_ExpiresAt e in
  let sessionTTL := sessionExpiresAt - time in
  let e := e <| sc_CacheSchema := userSessionCacheSchema |> in
  if str_eqb (sc_Status e) UserSessionStatusActive then
    match cacheDeadline with
    | None => fail ErrUserSessionInvalid
    | Some cacheDeadline =>
        if cacheDeadline - time <=? 0 then fail errUserSessionCacheObservationStale else
        if sessionTTL <=? 0 then fail ErrUserSessionInactive else
        let cacheExpiresAt := if sessionExpiresAt <? cacheDeadline then sessionExpiresAt else cacheDeadline in
        if cacheExpiresAt - time <? 1 then fail errUserSessionCacheObservationStale else
        result ← sql (write_script e cacheExpiresAt);
        if result =? 0 then fail ErrUserSessionInactive else
        completedAt ← now;
        if negb (completedAt <? cacheDeadline) then fail errUserSessionCacheObservationStale else
        if negb (completedAt <? sessionExpiresAt) then fail ErrUserSessionInactive else mret tt
    end
  else
    let ttl := Z.min sessionTTL (1000 * userCacheTTLSeconds) in
    let ttl := if ttl <=? 0 then 1000 else ttl in
    result ← sql (write_script e ttl);
    if result =? 0 then fail ErrUserSessionInactive else mret tt.

Definition getUserSessionCache (sid : string) : program userSessionCacheEntry :=
  found ← sql (fun w => (inr (visible (s_clock w) (sl_hash (slot sid w))), w));
  match found with
  | None => fail (EText "key not found in Redis")
  | Some entry =>
      if negb (sc_CacheSchema entry =? userSessionCacheSchema) || negb (str_eqb (sc_SID entry) sid) || (sc_UserID entry <=? 0) ||
         (sc_Version entry <=? 0) || (sc_UserAuthVersion entry <=? 0)
      then fail (EText "user session cache schema is stale") else
      time ← now;
      if negb (is_active (entry_session entry) (unix time)) then fail ErrUserSessionInactive else mret entry
  end.

Definition writeUserSessionDenyFence (session : UserSession) (status : string) (time : Z) (reason : string) : program unit :=
  if negb redis then mret tt else
  writeUserSessionCache ((cacheEntry session) <| sc_Status := status |> <| sc_RevokedAt := time |> <| sc_RevokedReason := reason |>) None.

(** ** Reading *)

(** [First] of the row with this identifier. *)
Definition read_session (sid : string) (cond : UserSession -> bool) : program UserSession :=
  sql (fun w => (match row sid w with
                 | Some s => if cond s then inr (AfterFind s) else inl ErrRecordNotFound
                 | None => inl ErrRecordNotFound
                 end, w)).
Definition of_user (userID : Z) (s : UserSession) : bool := ss_UserID s =? userID.

Definition GetUserSessionBySID (sid : string) : program UserSession :=
  if str_eqb sid "" then fail ErrUserSessionInvalid else read_session sid (fun _ => true).

(** [SELECT count( * )]: the row is still as it was read. *)
Definition same_snapshot (session : UserSession) (time : Z) (s : UserSession) : bool :=
  of_user (ss_UserID session) s && is_active s time && (ss_Version s =? ss_Version session) &&
  (ss_UserAuthVersion s =? ss_UserAuthVersion session).
Definition confirmUserSessionActiveSnapshot (session : UserSession) : program unit :=
  if str_eqb (ss_SID session) "" || (ss_UserID session <=? 0) || (ss_Version session <=? 0) || (ss_UserAuthVersion session <=? 0)
  then fail ErrUserSessionInvalid else
  time ← now;
  count ← sql (fun w => (inr (match row (ss_SID session) w with
                              | Some s => if same_snapshot session (unix time) s then 1 else 0
                              | None => 0 end), w));
  if negb (count =? 1) then fail ErrUserSessionInactive else mret tt.

(** What follows a failed write of an active snapshot. *)
Definition confirm_if_stale (session : UserSession) (written : result unit) : program unit :=
  match written with
  | inl err =>
      if is_err err errUserSessionCacheObservationStale then confirmUserSessionActiveSnapshot session
      else if is_err err ErrUserSessionInactive then fail err else mret tt
  | inr _ => mret tt
  end.
Definition publish_snapshot (session : UserSession) (cacheDeadline : Z) : program unit :=
  written ← attempted (writeUserSessionCache (cacheEntry session) (Some cacheDeadline)); confirm_if_stale session written.

Definition GetUserSessionCached (sid : string) : program UserSession :=
  if str_eqb sid "" then fail ErrUserSessionInvalid else
  cached ← attempted (if redis then getUserSessionCache sid else fail ErrRecordNotFound);
  match cached with
  | inr entry => mret (entry_session entry)
  | inl err =>
      if redis && is_err err ErrUserSessionInactive then fail err else
      cacheDeadline ← userSessionCacheDeadline;
      session ← GetUserSessionBySID sid;
      time ← now;
      if negb (is_active session (unix time)) then
        attempted (if redis then writeUserSessionCache ((cacheEntry session) <| sc_Status := UserSessionStatusRevoked |>) None else mret tt) ;;
        fail ErrUserSessionInactive
      else if redis then publish_snapshot session cacheDeadline ;; mret session
      else mret session
  end.

Definition count_rows (cond : UserSession -> bool) : program Z :=
  sql (fun w => (inr (Z.of_nat (length (List.filter cond (rows w)))), w)).
Definition CountActiveUserSessions (userID time : Z) : program Z :=
  if userID <=? 0 then fail ErrUserSessionInvalid else
  time ← (if time <=? 0 then clock ← now; mret (unix clock) else mret time);
  count_rows (fun s => of_user userID s && str_eqb (ss_Status s) UserSessionStatusActive && (time <? ss_ExpiresAt s)).
Definition CountUserSessionsCreatedSince (userID createdAfter : Z) : program Z :=
  if (userID <? 0) || (createdAfter <=? 0) then fail ErrUserSessionInvalid else
  count_rows (fun s => (createdAfter <? ss_CreatedAt s) && ((userID <=? 0) || of_user userID s)).

(** ** Creating *)

(** [INSERT]; an identifier (a UUID) is not used twice, even after its row was
    deleted. *)
Definition insert_row (row : UserSession) (s : Slot) : Slot :=
  mkSlot (Some row) (sl_hash s) true (ss_UserID row) (ss_ExpiresAt row) (ss_RefreshHash row) (sl_rotations s) (sl_ended s) (sl_sealed s)
    (sl_reported s) (sl_unsealed s).
Definition insert_session (s : UserSession) : program unit :=
  sql (fun w => if sl_born (slot (ss_SID s) w) then (inl ErrDuplicatedKey, w) else
                (inr tt, on_slot (ss_SID s) (insert_row s) w)).
Definition createUserSessionWithTx (session : UserSession) : program UserSession :=
  clock ← now;
  let time := unix clock in
  if str_eqb (ss_SID session) "" || (ss_UserID session <=? 0) || (ss_UserAuthVersion session <=? 0) ||
     str_eqb (ss_RefreshHash session) "" || (ss_ExpiresAt session <=? time) then fail ErrUserSessionInvalid else
  let session := session <| ss_Version ::= fun v => if v <=? 0 then 1 else v |>
    <| ss_Status ::= fun s => if str_eqb s "" then UserSessionStatusActive else s |> in
  if negb (str_eqb (ss_Status session) UserSessionStatusActive) || negb (ss_RevokedAt session =? 0) then fail ErrUserSessionInvalid else
  let session := session <| ss_LastActiveAt ::= fun t => if t =? 0 then time else t |>
    <| ss_CreatedAt ::= fun t => if t =? 0 then time else t |> in
  insert_session session ;; mret session.
Definition publishCreatedUserSession (session : UserSession) (cacheDeadline : Z) : program unit := publish_snapshot session cacheDeadline.
(** The session it fills in. *)
Definition CreateUserSession (session : UserSession) : program UserSession :=
  cacheDeadline ← userSessionCacheDeadline;
  session ← createUserSessionWithTx session;
  publishCreatedUserSession session cacheDeadline ;; mret session.

(** ** Rotating the refresh token *)

(** An [UPDATE] of one row; the number of rows it matched. *)
Definition update_session (sid : string) (cond : UserSession -> bool) (f : Z -> Slot -> Slot) : program Z :=
  sql (fun w => match row sid w with
                | Some s => if cond s then (inr 1, on_slot sid (f (s_clock w)) w) else (inr 0, w)
                | None => (inr 0, w)
                end).
Definition set_row (f : UserSession -> UserSession) (s : Slot) : Slot := s <| sl_row ::= option_map f |>.

Definition rotate_row (nextHash : string) (previousHash : string) (validUntil time : Z) (s : UserSession) : UserSession :=
  s <| ss_PreviousRefreshHash := previousHash |> <| ss_PreviousValidUntil := validUntil |>
    <| ss_RefreshHash := nextHash |> <| ss_LastActiveAt := time |>.
Definition rotate_slot (nextHash previousHash : string) (validUntil time : Z) (_ : Z) (s : Slot) : Slot :=
  (set_row (rotate_row nextHash previousHash validUntil time) s) <| sl_rotations ::= S |>.
Definition revoke_row (time : Z) (reason : string) (s : UserSession) : UserSession :=
  s <| ss_Status := UserSessionStatusRevoked |> <| ss_RevokedAt := time |> <| ss_RevokedReason := reason |>.
Definition end_slot (clock : Z) (s : Slot) : Slot := s <| sl_ended ::= fun e => Some (default clock e) |>.
Definition revoke_slot (time : Z) (reason : string) (clock : Z) (s : Slot) : Slot :=
  end_slot clock (set_row (revoke_row time reason) s).

(** The session, and that its token was rotated already
    ([ErrUserSessionRefreshRace]), if so. *)
Definition RotationAnswer : Type := UserSession * bool.

Definition rotate_once (userID : Z) (sid presentedHash nextHash : string) (time graceSeconds : Z) : program (option RotationAnswer) :=
  cacheDeadline ← userSessionCacheDeadline;
  session ← read_session sid (of_user userID);
  if negb (is_active session time) then fail ErrUserSessionInactive else
  if str_eqb (ss_RefreshHash session) presentedHash then
    affected ← update_session sid (fun s => of_user userID s && is_active s time && str_eqb (ss_RefreshHash s) presentedHash)
                 (rotate_slot nextHash (ss_RefreshHash session) (time + graceSeconds) time);
    if affected =? 0 then mret None else
    let session := rotate_row nextHash (ss_RefreshHash session) (time + graceSeconds) time session in
    publish_snapshot session cacheDeadline ;; mret (Some (session, false))
  else if str_eqb (ss_PreviousRefreshHash session) "" || negb (str_eqb (ss_PreviousRefreshHash session) presentedHash)
  then fail ErrUserSessionRefreshInvalid
  else if time <=? ss_PreviousValidUntil session then mret (Some (session, true))
  else
    writeUserSessionDenyFence session UserSessionStatusRevoking time "refresh_reuse" ;;
    affected ← update_session sid (fun s => of_user userID s && is_active s time) (revoke_slot time "refresh_reuse");
    if affected =? 0 then fail ErrUserSessionInactive else
    attempted (writeUserSessionCache (cacheEntry (revoke_row time "refresh_reuse" session)) None) ;;
    fail ErrUserSessionRefreshReuse.
Fixpoint rotate_attempts (n : nat) (userID : Z) (sid presentedHash nextHash : string) (time graceSeconds : Z) : program RotationAnswer :=
  match n with
  | O => fail ErrUserSessionRefreshInvalid
  | S n =>
      answer ← rotate_once userID sid presentedHash nextHash time graceSeconds;
      match answer with
      | Some answer => mret answer
      | None => rotate_attempts n userID sid presentedHash nextHash time graceSeconds
      end
  end.
(** [grace] in nanoseconds. *)
Definition RotateUserSessionRefresh (userID : Z) (sid presentedHash nextHash : string) (time grace : Z) : program RotationAnswer :=
  if (userID <=? 0) || str_eqb sid "" || str_eqb presentedHash "" || str_eqb nextHash "" || str_eqb presentedHash nextHash
  then fail ErrUserSessionInvalid else
  time ← (if time <=? 0 then clock ← now; mret (unix clock) else mret time);
  let graceSeconds := Z.quot grace 1000000000 in
  if graceSeconds <? 0 then fail ErrUserSessionInvalid else
  rotate_attempts 3 userID sid presentedHash nextHash time graceSeconds.

(** ** Revoking *)

(** [err] is [gorm.ErrRecordNotFound]: no session, and no error. *)
Definition or_absent (p : program UserSession) : program (option UserSession) :=
  found ← attempted p;
  match found with
  | inl err => if is_err err ErrRecordNotFound then mret None else fail err
  | inr s => mret (Some s)
  end.
Definition with_status (status : string) (s : UserSession) : bool := str_eqb (ss_Status s) status.

(** The transaction: the row is read under a lock and revoked if it is active. *)
Definition revoke_transaction (userID : Z) (sid : string) (time : Z) (reason : string) : program bool :=
  sql (fun w => match row sid w with
                | Some current =>
                    if negb (of_user userID current) then (inl ErrRecordNotFound, w)
                    else if is_active current time then (inr true, on_slot sid (revoke_slot time reason (s_clock w)) w)
                    else (inr false, w)
                | None => (inl ErrRecordNotFound, w)
                end).
Definition RevokeUserSession (userID : Z) (sid reason : string) : program bool :=
  if (userID <=? 0) || str_eqb sid "" then fail ErrUserSessionInvalid else
  clock ← now;
  let time := unix clock in
  found ← or_absent (read_session sid (of_user userID));
  match found with
  | None => mret false
  | Some candidate =>
      if negb (is_active candidate time) then mret false else
      writeUserSessionDenyFence candidate UserSessionStatusRevoking time reason ;;
      revoked ← revoke_transaction userID sid time reason;
      (if (revoked : bool) then
         attempted (writeUserSessionCache (cacheEntry (revoke_row time reason candidate)) None) ;; mret tt
       else mret tt) ;;
      mret revoked
  end.

(** Its transaction writes a tombstone between reading the row and changing it;
    here others may come between, as where the lock is a no-op. *)
Definition refresh_hash_valid (presentedHash : string) (time : Z) (s : UserSession) : bool :=
  str_eqb (ss_RefreshHash s) presentedHash ||
  negb (str_eqb (ss_PreviousRefreshHash s) "") && (time <=? ss_PreviousValidUntil s) && str_eqb (ss_PreviousRefreshHash s) presentedHash.
Definition RevokeUserSessionByRefreshHash (sid presentedHash reason : string) : program bool :=
  if str_eqb sid "" || str_eqb presentedHash "" then fail ErrUserSessionInvalid else
  clock ← now;
  let time := unix clock in
  found ← or_absent (read_session sid (fun _ => true));
  match found with
  | None => mret false
  | Some session =>
      if negb (is_active session time) || negb (refresh_hash_valid presentedHash time session) then mret false else
      writeUserSessionDenyFence session UserSessionStatusRevoking time reason ;;
      affected ← update_session sid (with_status UserSessionStatusActive) (revoke_slot time reason);
      if affected =? 1 then
        attempted (writeUserSessionCache (cacheEntry (revoke_row time reason session)) None) ;; mret true
      else mret false
  end.

(** The transaction; the row as it leaves it. *)
Definition advance_row (nextUserAuthVersion time : Z) (s : UserSession) : UserSession :=
  s <| ss_Version ::= Z.add 1 |> <| ss_UserAuthVersion := nextUserAuthVersion |> <| ss_LastActiveAt := time |>.
Definition advance_transaction (userID : Z) (sid : string) (expectedSessionVersion expectedUserAuthVersion nextUserAuthVersion time : Z) : program UserSession :=
  sql (fun w => match row sid w with
                | Some s =>
                    if negb (of_user userID s) then (inl ErrRecordNotFound, w) else
                    if negb (with_status UserSessionStatusActive s) || (ss_ExpiresAt s <=? time) ||
                       negb (ss_Version s =? expectedSessionVersion) || negb (ss_UserAuthVersion s =? expectedUserAuthVersion)
                    then (inl ErrUserSessionInactive, w) else
                    (inr (advance_row nextUserAuthVersion time (AfterFind s)), on_slot sid (set_row (advance_row nextUserAuthVersion time)) w)
                | None => (inl ErrRecordNotFound, w)
                end).
Definition AdvanceUserSessionAuthVersion (userID : Z) (sid : string) (expectedSessionVersion expectedUserAuthVersion nextUserAuthVersion : Z)
  : program UserSession :=
  if (userID <=? 0) || str_eqb sid "" || (expectedSessionVersion <=? 0) || (expectedUserAuthVersion <=? 0) ||
     (nextUserAuthVersion <=? expectedUserAuthVersion) then fail ErrUserSessionInvalid else
  cacheDeadline ← userSessionCacheDeadline;
  clock ← now;
  session ← advance_transaction userID sid expectedSessionVersion expectedUserAuthVersion nextUserAuthVersion (unix clock);
  written ← attempted (writeUserSessionCache (cacheEntry session) (Some cacheDeadline));
  match written with
  | inr _ => mret session
  | inl err =>
      if is_err err errUserSessionCacheObservationStale then confirmUserSessionActiveSnapshot session ;; mret session else fail err
  end.

(** ** Revoking many *)

Fixpoint each {A} (f : A -> program unit) (l : list A) : program unit :=
  match l with [] => mret tt | x :: l => f x ;; each f l end.

(** [ORDER BY sid LIMIT n] *)
Definition first_by_sid (n : nat) (l : list UserSession) : list UserSession := take n (merge_sort sid_le l).
Definition selects (userID : Z) (excludedSID : string) (time : Z) (s : UserSession) : bool :=
  of_user userID s && with_status UserSessionStatusActive s && (time <? ss_ExpiresAt s) &&
  (str_eqb excludedSID "" || negb (str_eqb (ss_SID s) excludedSID)).
Definition find_candidates (userID : Z) (excludedSID : string) (time : Z) : program (list UserSession) :=
  sql (fun w => (inr (map AfterFind (first_by_sid userSessionRevokeBatchSize (List.filter (selects userID excludedSID time) (rows w)))), w)).

(** [sid IN ? AND status = active], and those rows revoked. *)
Definition locked (sids : list string) (s : UserSession) : bool :=
  List.existsb (str_eqb (ss_SID s)) sids && with_status UserSessionStatusActive s.
Definition on_rows (cond : UserSession -> bool) (f : Slot -> Slot) (w : Sessions) : Sessions :=
  w <| s_slots := (fun s : Slot => match sl_row s with Some r => if cond r then f s else s | None => s end) <$> s_slots w |>.
Definition revoke_locked (sids : list string) (time : Z) (reason : string) : program (list UserSession) :=
  sql (fun w => (inr (map AfterFind (List.filter (locked sids) (rows w))), on_rows (locked sids) (revoke_slot time reason (s_clock w)) w)).

(** One round: how many it revoked, if there was any candidate. *)
Definition revoke_round (userID : Z) (excludedSID reason : string) (time : Z) : program (option Z) :=
  candidates ← find_candidates userID excludedSID time;
  match candidates with
  | [] => mret None
  | _ =>
      each (fun c => writeUserSessionDenyFence c UserSessionStatusRevoking time reason) candidates ;;
      revoked ← revoke_locked (map ss_SID candidates) time reason;
      each (fun s => attempted (writeUserSessionCache (cacheEntry (revoke_row time reason s)) None) ;; mret tt) revoked ;;
      mret (Some (Z.of_nat (length revoked)))
  end.
Fixpoint revoke_rounds (fuel : nat) (userID : Z) (excludedSID reason : string) (time total : Z) : program Z :=
  match fuel with
  | O => fail (EText "out of fuel")
  | S fuel =>
      affected ← revoke_round userID excludedSID reason time;
      match affected with
      | None => mret total
      | Some affected => revoke_rounds fuel userID excludedSID reason time (total + affected)
      end
  end.
Definition revokeUserSessions (fuel : nat) (userID : Z) (excludedSID reason : string) : program Z :=
  if userID <=? 0 then fail ErrUserSessionInvalid else
  clock ← now; revoke_rounds fuel userID excludedSID reason (unix clock) 0.
Definition RevokeOtherUserSessions (fuel : nat) (userID : Z) (currentSID reason : string) : program Z :=
  revokeUserSessions fuel userID currentSID reason.
Definition RevokeAllUserSessions (fuel : nat) (userID : Z) (reason : string) : program Z := revokeUserSessions fuel userID "" reason.

(** ** Cleaning up *)

(** [UserSessionRevokedRetentionDays], [UserSessionIssuanceWindowSeconds]. *)
Context (retentionDays issuanceWindow : Z).

Definition expired_before (expiredBefore issuanceCutoff revokedBefore : Z) (s : UserSession) : bool :=
  (ss_ExpiresAt s <? expiredBefore) && (ss_CreatedAt s <=? issuanceCutoff) &&
  (negb (with_status UserSessionStatusRevoked s) || (ss_RevokedAt s <=? 0) || (ss_RevokedAt s <? revokedBefore)).
Definition revoked_before (revokedBefore issuanceCutoff : Z) (s : UserSession) : bool :=
  with_status UserSessionStatusRevoked s && (0 <? ss_RevokedAt s) && (ss_RevokedAt s <? revokedBefore) && (ss_CreatedAt s <=? issuanceCutoff).

Definition delete_slot (clock : Z) (s : Slot) : Slot := end_slot clock (s <| sl_row := @None UserSession |>).
(** [ORDER BY ... LIMIT 1000], the identifiers only. *)
Definition scan (cond : UserSession -> bool) (key : UserSession -> Z) : program (list string) :=
  sql (fun w => (inr (map ss_SID (take userSessionCleanupScanLimit (merge_sort (by_key key) (List.filter cond (rows w))))), w)).
Definition delete_batch (cond : UserSession -> bool) (sids : list string) : program unit :=
  sql (fun w => (inr tt, on_rows (fun s => List.existsb (str_eqb (ss_SID s)) sids && cond s) (delete_slot (s_clock w)) w)).
Fixpoint chunks (rounds n : nat) (sids : list string) : list (list string) :=
  match rounds, sids with
  | S rounds, _ :: _ => take n sids :: chunks rounds n (drop n sids)
  | _, _ => []
  end.
Fixpoint delete_rounds (fuel : nat) (cond : UserSession -> bool) (key : UserSession -> Z) : program unit :=
  match fuel with
  | O => fail (EText "out of fuel")
  | S fuel =>
      sids ← scan cond key;
      match sids with
      | [] => mret tt
      | _ => each (delete_batch cond) (chunks (length sids) userSessionCleanupBatchSize sids) ;; delete_rounds fuel cond key
      end
  end.
Definition deleteExpiredUserSessionsBefore (fuel : nat) (expiredBefore issuanceCutoff revokedBefore : Z) : program unit :=
  delete_rounds fuel (expired_before expiredBefore issuanceCutoff revokedBefore) ss_ExpiresAt.
Definition deleteRevokedUserSessionsBefore (fuel : nat) (revokedBefore issuanceCutoff : Z) : program unit :=
  delete_rounds fuel (revoked_before revokedBefore issuanceCutoff) ss_RevokedAt.

Definition DeleteExpiredUserSessions (fuel : nat) (time : Z) : program unit :=
  time ← (if time <=? 0 then clock ← now; mret (unix clock) else mret time);
  if (retentionDays <=? 0) || (issuanceWindow <=? 0) then fail ErrUserSessionInvalid else
  deleteExpiredUserSessionsBefore fuel time (time - issuanceWindow) (time - retentionDays * 24 * 60 * 60).
Definition DeleteOldRevokedUserSessions (fuel : nat) (time : Z) : program unit :=
  time ← (if time <=? 0 then clock ← now; mret (unix clock) else mret time);
  if (retentionDays <=? 0) || (issuanceWindow <=? 0) then fail ErrUserSessionInvalid else
  deleteRevokedUserSessionsBefore fuel (time - retentionDays * 24 * 60 * 60) (time - issuanceWindow).
End Functions.
