(* ===== verification/SessionFacts.v ===== *)
(** * What each step on a session may do

    The invariant of a session's row, hash and clock; what only grows, and what
    a program that took a deadline or read a row may rely on still; and for every
    function of [Sessions] that its statements stay within both.  A fact about
    the table is one about each of its sessions, so every lemma is about one
    [Slot] and the clock. *)

From stdpp Require Import base numbers option strings list sorting gmap relations.
From Stdlib Require Import ZArith Lia.
From S2P Require Import Prelude Store Interleave Marked Sessions.
Open Scope Z_scope.

Section Facts.
Context (redis : bool) (cacheSeconds : Z).
(** The digest of a secret, and the secret that follows one. *)
Context (hash : string -> string) (next : string -> string -> string).
Abbreviation TTL := (1000 * userCacheTTLSeconds cacheSeconds).

Lemma TTL_second : 1000 <= TTL.
Proof. unfold userCacheTTLSeconds. destruct (Z.leb_spec cacheSeconds 0); lia. Qed.

(** ** The invariant *)

(** No two secrets have the same digest. *)
Definition ideal : Prop := Inj (=) (=) hash.
(** The secret after [n] rotations. *)
Fixpoint link (sid first : string) (n : nat) : string :=
  match n with O => first | S n => next sid (link sid first n) end.

(** When a tombstone written at [c] or later ends, at the earliest. *)
Definition horizon (c : Z) (s : Slot) : Z := Z.min (1000 * sl_expires s) (c + TTL).

Definition row_ok (sid : string) (r : UserSession) (s : Slot) : Prop :=
  ss_SID r = sid /\ sl_born s = true /\ ss_UserID r = sl_user s /\ ss_ExpiresAt r = sl_expires s /\
  (with_status UserSessionStatusActive r = true -> sl_ended s = None) /\
  (ideal -> exists first, sl_first s = hash first /\ ss_RefreshHash r = hash (link sid first (sl_rotations s))).
Definition hash_ok (sid : string) (clock : Z) (e : userSessionCacheEntry) (until : Z) (s : Slot) : Prop :=
  sc_SID e = sid /\ sc_ExpiresAt e = sl_expires s /\
  (tombstone e = true \/
   until <= 1000 * sl_expires s /\ until <= clock + TTL /\ forall c, sl_ended s = Some c -> until <= c + TTL).
Definition entombed (clock c : Z) (s : Slot) : Prop :=
  horizon c s < clock \/ exists e until, sl_hash s = Some (e, until) /\ tombstone e = true /\ horizon c s <= until.
Definition slot_ok (sid : string) (clock : Z) (s : Slot) : Prop :=
  (forall r, sl_row s = Some r -> row_ok sid r s) /\
  (sl_born s = false -> sl_hash s = None /\ sl_ended s = None /\ sl_reported s = false /\ sl_rotations s = O) /\
  (sl_born s = true -> sl_ended s = None -> exists r, sl_row s = Some r /\ with_status UserSessionStatusActive r = true) /\
  (forall e until, sl_hash s = Some (e, until) -> redis = true /\ hash_ok sid clock e until s) /\
  (forall c, sl_ended s = Some c -> c <= clock) /\
  (sl_sealed s = true -> exists c, sl_ended s = Some c /\ entombed clock c s) /\
  (sl_reported s = true -> 1000 * sl_expires s <= clock \/
     exists c, sl_ended s = Some c /\ (redis = true -> sl_sealed s = true \/ sl_unsealed s = true)).

(** How long after its row was changed a session may still be let through. *)
Definition lag : Z := if redis then TTL else 0.
Lemma lag_positive : 0 <= lag.
Proof. pose proof TTL_second. unfold lag. destruct redis; lia. Qed.
(** A request that began at [began] may be let through; the revocation had been
    reported then, or not. *)
Definition served_ok (sid : string) (began : Z) (reported : bool) (w : Sessions) : Prop :=
  began <= s_clock w /\ sl_born (slot sid w) = true /\
  (forall c, sl_ended (slot sid w) = Some c -> began <= c + lag) /\
  (reported = true -> redis = true /\ sl_unsealed (slot sid w) = true).
(** It may be handed the secret. *)
Definition handed_ok (sid secret : string) (rotations : nat) (began : Z) (w : Sessions) : Prop :=
  began <= s_clock w /\ sl_born (slot sid w) = true /\
  (forall c, sl_ended (slot sid w) = Some c -> began <= c) /\
  (ideal -> exists first n, sl_first (slot sid w) = hash first /\ secret = link sid first n /\ (rotations <= n <= sl_rotations (slot sid w))%nat).

Definition core (w : Sessions) : Prop :=
  (forall sid, slot_ok sid (s_clock w) (slot sid w)) /\
  Forall (fun v => served_ok (sv_sid v) (sv_began v) (sv_reported v) w) (s_served w) /\
  Forall (fun h => exists secret, hd_token h = (hd_sid h ++ "." ++ secret)%string /\ handed_ok (hd_sid h) secret (hd_rotations h) (hd_began h) w) (s_handed w).

(** ** What only grows *)

Definition slot_grows (clock : Z) (s s' : Slot) : Prop :=
  (sl_born s = true -> sl_born s' = true /\ sl_user s' = sl_user s /\ sl_expires s' = sl_expires s /\ sl_first s' = sl_first s) /\
  (forall c, sl_ended s = Some c -> sl_ended s' = Some c) /\
  (forall c, sl_ended s = None -> sl_ended s' = Some c -> clock <= c) /\
  (sl_rotations s <= sl_rotations s')%nat /\
  (sl_sealed s = true -> sl_sealed s' = true) /\ (sl_reported s = true -> sl_reported s' = true) /\
  (sl_unsealed s = true -> sl_unsealed s' = true).
Definition grows (w w' : Sessions) : Prop :=
  s_clock w <= s_clock w' /\ forall sid, slot_grows (s_clock w) (slot sid w) (slot sid w').

Lemma slot_grows_refl clock s : slot_grows clock s s.
Proof. by split_and!; auto; intros c -> [=]. Qed.
Lemma slot_grows_trans t t' a b c : t <= t' -> slot_grows t a b -> slot_grows t' b c -> slot_grows t a c.
Proof.
  intros Ht (A1 & A2 & A3 & A4 & A5 & A6 & A7) (B1 & B2 & B3 & B4 & B5 & B6 & B7). split_and!; try lia; auto.
  - intros Hb. destruct (A1 Hb) as (Hb' & <- & <- & <-). by apply B1.
  - intros x Ha Hc. destruct (sl_ended b) as [y|] eqn:E; [|specialize (B3 x eq_refl Hc); lia].
    specialize (A3 y Ha eq_refl). rewrite (B2 y eq_refl) in Hc. by injection Hc as <-.
Qed.
#[export] Instance grows_preorder : PreOrder grows.
Proof.
  split.
  - intros w. split; [lia|]. intros sid. apply slot_grows_refl.
  - intros a b c [? H1] [? H2]. split; [lia|]. intros sid. by eapply slot_grows_trans; [|apply H1|apply H2].
Qed.

Lemma served_grows sid began reported w w' : grows w w' -> served_ok sid began reported w -> served_ok sid began reported w'.
Proof.
  intros [Ht Hg] (H1 & H2 & H3 & H4). destruct (Hg sid) as (G1 & G2 & G3 & _ & _ & _ & G7). pose proof lag_positive.
  split_and!; [lia | by apply G1 | | intros E; destruct (H4 E); auto].
  intros c Hc. destruct (sl_ended (slot sid w)) as [c0|] eqn:E; [|specialize (G3 c eq_refl Hc); lia].
  rewrite (G2 c0 eq_refl) in Hc. injection Hc as <-. by apply H3.
Qed.
Lemma handed_grows sid secret n began w w' : grows w w' -> handed_ok sid secret n began w -> handed_ok sid secret n began w'.
Proof.
  intros [Ht Hg] (H1 & H2 & H3 & H4). destruct (Hg sid) as (G1 & G2 & G3 & G4 & _).
  destruct (G1 H2) as (? & _ & _ & E1). split_and!; [lia | done | |]; cycle 1.
  { intros Hi. destruct (H4 Hi) as (first & k & ? & ? & ?). exists first, k. rewrite E1. split; [done|]. split; [done | lia]. }
  intros c Hc. destruct (sl_ended (slot sid w)) as [c0|] eqn:E; [|specialize (G3 c eq_refl Hc); lia].
  rewrite (G2 c0 eq_refl) in Hc. injection Hc as <-. by apply H3.
Qed.

(** A statement on sessions. *)
Lemma slots_step w w' :
  core w -> s_clock w' = s_clock w -> s_served w' = s_served w -> s_handed w' = s_handed w ->
  (forall sid, slot_ok sid (s_clock w) (slot sid w) ->
     slot_ok sid (s_clock w) (slot sid w') /\ slot_grows (s_clock w) (slot sid w) (slot sid w')) ->
  core w' /\ grows w w'.
Proof.
  intros (H1 & H2 & H3) Ec Es Eh H. assert (grows w w') as Hg by (split; [lia|]; intros sid; by apply H).
  split; [|done]. split_and!.
  - intros sid. rewrite Ec. by apply H.
  - rewrite Es. eapply Forall_impl; [exact H2|]. intros v. by apply served_grows.
  - rewrite Eh. eapply Forall_impl; [exact H3|]. intros v (secret & E & Hv). exists secret. split; [done|]. by eapply handed_grows.
Qed.
Lemma slot_on_slot sid' sid f w : slot sid' (on_slot sid f w) = if decide (sid = sid') then f (slot sid w) else slot sid' w.
Proof.
  unfold slot at 1, on_slot. cbn. destruct (decide (sid = sid')) as [->|]; [by rewrite lookup_insert_eq | by rewrite lookup_insert_ne].
Qed.
Lemma on_slot_step sid f w :
  core w -> (slot_ok sid (s_clock w) (slot sid w) ->
    slot_ok sid (s_clock w) (f (slot sid w)) /\ slot_grows (s_clock w) (slot sid w) (f (slot sid w))) ->
  core (on_slot sid f w) /\ grows w (on_slot sid f w).
Proof.
  intros Hc H. apply slots_step; try done. intros sid' Hs. rewrite slot_on_slot. destruct (decide (sid = sid')) as [<-|]; [by apply H|].
  split; [done | apply slot_grows_refl].
Qed.
Lemma slot_on_rows sid cond f w :
  slot sid (on_rows cond f w) = match row sid w with Some r => if cond r then f (slot sid w) else slot sid w | None => slot sid w end.
Proof. unfold row, slot, on_rows. cbn. rewrite lookup_fmap. by destruct (s_slots w !! sid) as [s|]. Qed.
Lemma on_rows_step cond f w :
  core w -> (forall sid r, row sid w = Some r -> cond r = true -> slot_ok sid (s_clock w) (slot sid w) ->
    slot_ok sid (s_clock w) (f (slot sid w)) /\ slot_grows (s_clock w) (slot sid w) (f (slot sid w))) ->
  core (on_rows cond f w) /\ grows w (on_rows cond f w).
Proof.
  intros Hc H. apply slots_step; try done. intros sid Hs. rewrite slot_on_rows. destruct (row sid w) as [r|] eqn:Er; [|split; [done | apply slot_grows_refl]].
  destruct (cond r) eqn:Ec; [by eapply H | split; [done | apply slot_grows_refl]].
Qed.

(** ** Steps of one session *)

Definition put_entry (clock : Z) (e : userSessionCacheEntry) (until : Z) (s : Slot) : Slot :=
  s <| sl_hash := if until <=? clock then None else Some (e, until) |>
    <| sl_sealed ::= orb (tombstone e && match sl_ended s with Some _ => true | None => false end) |>.

Lemma put_active sid clock e until s :
  slot_ok sid clock s -> redis = true -> sl_born s = true -> sc_SID e = sid -> sc_ExpiresAt e = sl_expires s -> tombstone e = false ->
  (forall c, visible clock (sl_hash s) = Some c -> tombstone c = false) ->
  until <= 1000 * sl_expires s -> until <= clock + TTL -> (forall c, sl_ended s = Some c -> until <= c + TTL) ->
  slot_ok sid clock (put_entry clock e until s) /\ slot_grows clock s (put_entry clock e until s).
Proof.
  intros Hok Hr Hb He1 He2 Ht Hv U1 U2 U3. unfold put_entry. rewrite Ht. split; [|by split_and!; auto; intros c -> [=]].
  pose proof Hok as (C1 & C2 & C3 & C4 & C5 & C6 & C7). split_and!; cbn; try done.
  - by rewrite Hb.
  - intros e' u'. destruct (until <=? clock); [done|]. intros [= <- <-]. split; [done|]. split; [done|]. split; [done|]. by right.
  - intros E. destruct (C6 E) as (c & Hc & Hent). exists c. split; [done|]. left. destruct Hent as [|(e' & u' & Hh & He & Hle)]; [done|].
    unfold horizon in *. cbn. rewrite Hh in Hv. cbn in Hv. destruct (Z.leb_spec clock u'); [|lia]. rewrite (Hv e' eq_refl) in He. done.
Qed.

Lemma put_tombstone sid clock e exp s :
  slot_ok sid clock s -> redis = true -> sl_born s = true -> sc_SID e = sid -> sc_ExpiresAt e = sl_expires s -> tombstone e = true ->
  0 < exp -> 1000 * sl_expires s <= clock + exp \/ TTL <= exp ->
  slot_ok sid clock (put_entry clock e (clock + exp) s) /\ slot_grows clock s (put_entry clock e (clock + exp) s).
Proof.
  intros Hok Hr Hb He1 He2 Ht He Hexp. unfold put_entry. rewrite Ht. destruct (Z.leb_spec (clock + exp) clock); [lia|].
  split; [|by split_and!; auto; try intros c -> [=]; cbn; intros ->; rewrite orb_true_r].
  pose proof Hok as (C1 & C2 & C3 & C4 & C5 & C6 & C7). split_and!; cbn; try done.
  - by rewrite Hb.
  - intros e' u' [= <- <-]. split; [done|]. split; [done|]. split; [done|]. by left.
  - intros E. destruct (sl_ended s) as [c|] eqn:Ec; cbn in E.
    + exists c. split; [done|]. right. exists e, (clock + exp). split_and!; [done..|]. unfold horizon. cbn. specialize (C5 c eq_refl). lia.
    + destruct (C6 E) as (c & [=] & _).
  - intros E. destruct (C7 E) as [|(c & Hc & H')]; [by left|]. right. exists c. split; [done|]. intros R. left. by rewrite Hc.
Qed.

(** A change of an active row that leaves it active. *)
Lemma active_row_step sid clock s r r' n :
  slot_ok sid clock s -> sl_row s = Some r -> with_status UserSessionStatusActive r = true -> ss_SID r' = ss_SID r -> ss_UserID r' = ss_UserID r ->
  ss_ExpiresAt r' = ss_ExpiresAt r -> with_status UserSessionStatusActive r' = true ->
  (ideal -> forall first, sl_first s = hash first -> ss_RefreshHash r = hash (link sid first (sl_rotations s)) ->
     ss_RefreshHash r' = hash (link sid first (sl_rotations s + n)%nat)) ->
  let s' := s <| sl_row := Some r' |> <| sl_rotations ::= Nat.add n |> in slot_ok sid clock s' /\ slot_grows clock s s'.
Proof.
  intros Hok Hr Ha E1 E2 E3 Ea Hh s'. pose proof Hok as (C1 & C2 & C3 & C4 & C5 & C6 & C7).
  destruct (C1 r Hr) as (R1 & R2 & R3 & R4 & R5 & R6). split.
  - split_and!; cbn; try done; [|by rewrite R2|intros; by exists r']. intros r0 [= <-]. split_and!; cbn; try congruence; [intros; by apply R5|].
    intros Hi. destruct (R6 Hi) as (first & ? & ?). exists first. split; [done|]. rewrite Nat.add_comm. by apply Hh.
  - split_and!; cbn; auto; [by intros c -> [=] | lia].
Qed.

(** An active row ends, or a row is deleted. *)
Lemma end_step sid clock s o :
  slot_ok sid clock s -> sl_born s = true ->
  (forall r', o = Some r' -> exists r, sl_row s = Some r /\ ss_SID r' = ss_SID r /\ ss_UserID r' = ss_UserID r /\
     ss_ExpiresAt r' = ss_ExpiresAt r /\ ss_RefreshHash r' = ss_RefreshHash r /\ with_status UserSessionStatusActive r' = false) ->
  let s' := end_slot clock (s <| sl_row := o |>) in slot_ok sid clock s' /\ slot_grows clock s s'.
Proof.
  intros Hok Hb Ho s'. pose proof Hok as (C1 & C2 & C3 & C4 & C5 & C6 & C7). split.
  - split_and!; cbn; try done.
    + intros r' Hr'. destruct (Ho r' Hr') as (r & Hr & E1 & E2 & E3 & E4 & E5). destruct (C1 r Hr) as (R1 & R2 & R3 & R4 & R5 & R6).
      split_and!; cbn; try congruence. by rewrite E4.
    + by rewrite Hb.
    + intros e u Hh. destruct (C4 e u Hh) as (? & H1 & H2 & H3). split; [done|]. split; [done|]. split; [done|].
      destruct H3 as [|(H3 & H4 & H5)]; [by left|]. right. split_and!; cbn; [done | done|]. intros c [= <-].
      destruct (sl_ended s) as [c|]; cbn; [by apply H5 | lia].
    + intros c [= <-]. destruct (sl_ended s) as [c|]; cbn; [by apply C5 | lia].
    + intros E. destruct (C6 E) as (c & -> & Hent). by exists c.
    + intros E. destruct (C7 E) as [|(c & -> & H')]; [by left | by right; exists c].
  - split_and!; cbn; auto.
    + by intros c ->.
    + intros c -> [= <-]. cbn. lia.
Qed.

Lemma insert_step sid clock r first s :
  slot_ok sid clock s -> sl_born s = false -> ss_SID r = sid -> with_status UserSessionStatusActive r = true -> ss_RefreshHash r = hash first ->
  slot_ok sid clock (insert_row r s) /\ slot_grows clock s (insert_row r s).
Proof.
  intros Hok Hb E1 Ea E2. pose proof Hok as (C1 & C2 & C3 & C4 & C5 & C6 & C7). destruct (C2 Hb) as (Eh & Ee & Er & En). split.
  - split_and!; cbn; try done.
    + intros r' [= <-]. split_and!; cbn; try done. intros _. exists first. by rewrite En.
    + intros _ _. by exists r.
    + intros e u. by rewrite Eh.
    + intros E. destruct (C6 E) as (c & Hc & _). congruence.
    + by rewrite Er.
  - split_and!; cbn; auto; [by rewrite Hb | by intros c ->].
Qed.

Lemma slot_later sid clock clock' s : slot_ok sid clock s -> clock <= clock' -> slot_ok sid clock' s.
Proof.
  intros (C1 & C2 & C3 & C4 & C5 & C6 & C7) Ht. split_and!; try done.
  - intros e u Hh. destruct (C4 e u Hh) as (? & H1 & H2 & H3). split; [done|]. split; [done|]. split; [done|].
    destruct H3 as [|(H3 & H4 & H5)]; [by left|]. right. split_and!; [done | lia | done].
  - intros c Hc. specialize (C5 c Hc). lia.
  - intros E. destruct (C6 E) as (c & Hc & Hent). exists c. split; [done|]. destruct Hent as [|]; [left; lia | by right].
  - intros E. destruct (C7 E) as [|]; [left; lia | by right].
Qed.
Lemma session_clock_step t w : core w -> s_clock w <= t -> core (w <| s_clock := t |>) /\ grows w (w <| s_clock := t |>).
Proof.
  intros (H1 & H2 & H3) Ht. assert (grows w (w <| s_clock := t |>)) as Hg by (split; [done|]; intros sid; apply slot_grows_refl).
  split; [|done]. split_and!; cbn.
  - intros sid. by eapply slot_later.
  - eapply Forall_impl; [exact H2|]. intros v. by apply served_grows.
  - eapply Forall_impl; [exact H3|]. intros v (secret & E & Hv). exists secret. split; [done|]. by eapply handed_grows.
Qed.

Definition report_slot (s : Slot) : Slot := s <| sl_reported := true |> <| sl_unsealed ::= orb (redis && negb (sl_sealed s)) |>.
Lemma report_step sid clock s :
  slot_ok sid clock s -> sl_born s = true -> (1000 * sl_expires s <= clock \/ exists c, sl_ended s = Some c) ->
  slot_ok sid clock (report_slot s) /\ slot_grows clock s (report_slot s).
Proof.
  intros (C1 & C2 & C3 & C4 & C5 & C6 & C7) Hb He. split; [|by split_and!; cbn; auto; try intros c -> [=]; intros ->; rewrite orb_true_r].
  split_and!; cbn; try done.
  - by rewrite Hb.
  - intros _. destruct He as [|[c Hc]]; [by left|]. right. exists c. split; [done|]. intros ->. destruct (sl_sealed s); [by left | by right].
Qed.

(** ** Programs *)

Abbreviation sok := (mok never core grows).

(** ** What programs rely on *)

(** The session exists, and expires then. *)
Definition known (sid : string) (expires : Z) (w : Sessions) : Prop :=
  sl_born (slot sid w) = true /\ sl_expires (slot sid w) = expires.
(** The deadline was taken before its row ceased to be active. *)
Definition timely (sid : string) (deadline : Z) (w : Sessions) : Prop :=
  deadline - TTL <= s_clock w /\ forall c, sl_ended (slot sid w) = Some c -> deadline - TTL <= c.

Lemma known_grows sid expires w w' : grows w w' -> known sid expires w -> known sid expires w'.
Proof. intros [_ Hg] [H1 <-]. destruct (Hg sid) as (G1 & _). destruct (G1 H1) as (? & _ & ? & _). done. Qed.
Lemma timely_grows sid d w w' : grows w w' -> timely sid d w -> timely sid d w'.
Proof.
  intros [Ht Hg] [H1 H2]. destruct (Hg sid) as (_ & G2 & G3 & _). split; [lia|]. intros c Hc.
  destruct (sl_ended (slot sid w)) as [c0|] eqn:E; [|specialize (G3 c eq_refl Hc); lia].
  rewrite (G2 c0 eq_refl) in Hc. injection Hc as <-. by apply H2.
Qed.
(** The row, as it was at some moment since [w]. *)
Definition read_since (w : Sessions) (sid : string) (s : UserSession) (w' : Sessions) : Prop :=
  exists w1 r, grows w w1 /\ core w1 /\ grows w1 w' /\ row sid w1 = Some r /\ s = AfterFind r.
Lemma read_since_grows w sid s a b : grows a b -> read_since w sid s a -> read_since w sid s b.
Proof. intros Hg (w1 & r & H1 & H2 & H3 & H4). exists w1, r. split_and!; try apply H4; try done. by etrans. Qed.
Lemma read_known w sid s w' : read_since w sid s w' -> ss_SID s = sid /\ known sid (ss_ExpiresAt s) w'.
Proof.
  intros (w1 & r & _ & (Hs & _) & Hg & Hr & ->). destruct (Hs sid) as (H1 & _). destruct (H1 r Hr) as (E1 & E2 & _ & E3 & _).
  split; [done|]. apply (known_grows _ _ w1); [done|]. by split.
Qed.
Lemma read_timely w sid s d w' : read_since w sid s w' -> with_status UserSessionStatusActive s = true -> d - TTL <= s_clock w -> timely sid d w'.
Proof.
  intros (w1 & r & [? _] & (Hs & _) & Hg & Hr & ->) Ha Hd. destruct (Hs sid) as (H1 & _). destruct (H1 r Hr) as (_ & _ & _ & _ & E & _).
  apply (timely_grows _ _ w1); [done|]. split; [lia|]. intros c. by rewrite (E Ha).
Qed.
Lemma active_status s time : is_active s time = true -> with_status UserSessionStatusActive s = true /\ time < ss_ExpiresAt s.
Proof. unfold is_active, with_status. intros [[-> _]%andb_true_iff E%Z.ltb_lt]%andb_true_iff. done. Qed.

(** ** Statements *)

Lemma now_ok w : sok now (fun t w' => s_clock w <= t <= s_clock w') w.
Proof. apply always_read. intros w1 t w2 [? _] _ [= <-] [? _] _. lia. Qed.
Lemma deadline_ok w : sok (userSessionCacheDeadline cacheSeconds) (fun d w' => s_clock w <= d - TTL <= s_clock w') w.
Proof. apply always_read. intros w1 t w2 [? _] _ [= <-] [? _] _. lia. Qed.
Lemma read_session_ok sid cond w : core w -> sok (read_session sid cond) (fun s w' => read_since w sid s w') w.
Proof.
  intros _. apply always_read. intros w1 s w2 Hg Hc E Hg2 _. destruct (row sid w1) as [r|] eqn:Er; [|done].
  destruct (cond r); [|done]. injection E as <-. by exists w1, r.
Qed.

(** The script, for a snapshot and for a tombstone. *)
Lemma store_put e until w : store_entry e until w = on_slot (sc_SID e) (put_entry (s_clock w) e until) w.
Proof. done. Qed.
Lemma write_active_ok e d w :
  redis = true -> str_eqb (sc_Status e) UserSessionStatusActive = true -> known (sc_SID e) (sc_ExpiresAt e) w -> timely (sc_SID e) d w ->
  sok (sql (write_script e (if 1000 * sc_ExpiresAt e <? d then 1000 * sc_ExpiresAt e else d))) anything w.
Proof.
  intros Hr Ha Hk Ht. apply always_sql; [|done]. intros w1 Hg Hc. unfold write_script. rewrite Ha. cbn [andb].
  destruct (match visible _ _ with Some c => tombstone c | None => false end) eqn:Et; [by split|].
  destruct (_ <? _); [by split|]. cbn [snd]. rewrite store_put.
  destruct (known_grows _ _ w w1 Hg Hk) as [K1 K2]. destruct (timely_grows _ _ w w1 Hg Ht) as [T1 T2].
  apply on_slot_step; [done|]. intros Hs. apply put_active; try done.
  - unfold tombstone. apply str_eqb_true in Ha. by rewrite Ha.
  - intros c Hc'. by rewrite Hc' in Et.
  - rewrite K2. destruct (Z.ltb_spec (1000 * sc_ExpiresAt e) d); lia.
  - destruct (Z.ltb_spec (1000 * sc_ExpiresAt e) d); lia.
  - intros c Hc'. specialize (T2 c Hc'). destruct (Z.ltb_spec (1000 * sc_ExpiresAt e) d); lia.
Qed.
Lemma write_tombstone_ok e exp w :
  redis = true -> tombstone e = true -> known (sc_SID e) (sc_ExpiresAt e) w -> 0 < exp ->
  1000 * sc_ExpiresAt e <= s_clock w + exp \/ TTL <= exp -> sok (sql (write_script e exp)) anything w.
Proof.
  intros Hr Ht Hk He Hexp. apply always_sql; [|done]. intros w1 Hg Hc. unfold write_script.
  assert (str_eqb (sc_Status e) UserSessionStatusActive = false) as ->.
  { unfold tombstone in Ht. apply orb_true_iff in Ht as [->%str_eqb_true| ->%str_eqb_true]; done. }
  cbn [andb]. destruct (_ <? _); [by split|]. cbn [snd]. rewrite store_put.
  destruct (known_grows _ _ w w1 Hg Hk) as [K1 K2]. apply on_slot_step; [done|]. intros Hs.
  apply put_tombstone; try done. rewrite K2. destruct Hg as [? _]. destruct Hexp; [left; lia | by right].
Qed.

(** ** The cache *)

Definition writes (e : userSessionCacheEntry) (deadline : option Z) (w : Sessions) : Prop :=
  known (sc_SID e) (sc_ExpiresAt e) w /\
  (tombstone e = true \/
   str_eqb (sc_Status e) UserSessionStatusActive = true /\ exists d, deadline = Some d /\ timely (sc_SID e) d w).
Lemma write_cache_ok e deadline w : core w -> writes e deadline w -> sok (writeUserSessionCache redis cacheSeconds e deadline) anything w.
Proof.
  intros Hc [Hk Hw]. unfold writeUserSessionCache. apply mok_case; [by intros; apply (always_done tt)|]. intros Hr%negb_false_iff.
  eapply always_bind; [apply now_ok | | done]. intros t w1 Hg Hc1 Ht. pose proof (known_grows _ _ _ _ Hg Hk) as Hk1.
  destruct (str_eqb (sc_Status _) UserSessionStatusActive) eqn:Ea; cbn in Ea.
  - destruct Hw as [Htomb|(_ & d & -> & Htime)].
    { unfold tombstone in Htomb. apply str_eqb_true in Ea. by rewrite Ea in Htomb. }
    repeat (apply mok_if; [apply always_fail|]). eapply (always_bind _ _ anything); [| |done].
    + apply (write_active_ok (e <| sc_CacheSchema := userSessionCacheSchema |>) d); try done. by eapply timely_grows.
    + intros result w2 _ Hc2 _. apply mok_if; [apply always_fail|]. eapply always_bind; [apply now_ok | |done].
      intros c w3 _ _ _. repeat (apply mok_if; [apply always_fail|]). apply (always_done tt).
  - destruct Hw as [Htomb|[Ha _]]; [|cbn in *; congruence]. pose proof TTL_second.
    eapply (always_bind _ _ anything); [|intros ? w2 _ _ _; apply mok_if; [apply always_fail | apply (always_done tt)]|done].
    cbn in Ht. apply write_tombstone_ok; try done; cbn.
    + destruct (Z.leb_spec (Z.min (1000 * sc_ExpiresAt e - t) TTL) 0); lia.
    + destruct (Z.leb_spec (Z.min (1000 * sc_ExpiresAt e - t) TTL) 0); lia.
Qed.
Lemma active_writes s d w : known (ss_SID s) (ss_ExpiresAt s) w -> with_status UserSessionStatusActive s = true -> timely (ss_SID s) d w ->
  writes (cacheEntry s) (Some d) w.
Proof. intros Hk Ha Ht. split; [done|]. right. split; [done|]. by exists d. Qed.
Lemma deny_ok s status t reason w :
  core w -> known (ss_SID s) (ss_ExpiresAt s) w -> status = UserSessionStatusRevoking \/ status = UserSessionStatusRevoked ->
  sok (writeUserSessionDenyFence redis cacheSeconds s status t reason) anything w.
Proof.
  intros Hc Hk Hs. apply mok_if; [apply (always_done tt)|]. apply write_cache_ok; [done|]. split; [done|]. left. by destruct Hs as [-> | ->].
Qed.
Lemma seal_ok s w : core w -> known (ss_SID s) (ss_ExpiresAt s) w -> ss_Status s = UserSessionStatusRevoked ->
  sok (attempted (writeUserSessionCache redis cacheSeconds (cacheEntry s) None)) anything w.
Proof. intros Hc Hk Hs. apply always_try; [|done]. apply write_cache_ok; [done|]. split; [done|]. left. unfold tombstone. cbn. by rewrite Hs. Qed.

Lemma confirm_ok s w : core w -> sok (confirmUserSessionActiveSnapshot s) anything w.
Proof.
  intros Hc. apply mok_if; [apply always_fail|]. eapply always_bind; [apply now_ok | |done]. intros t w1 _ Hc1 _.
  eapply (always_bind _ _ anything); [by apply always_read | |done]. intros n w2 _ _ _. apply mok_if; [apply always_fail | apply (always_done tt)].
Qed.
Lemma confirm_if_ok s r w : core w -> sok (confirm_if_stale s r) anything w.
Proof.
  intros Hc. destruct r as [err|[]]; cbn; [|apply (always_done tt)]. apply mok_if; [by apply confirm_ok|]. apply mok_if; [apply always_fail | apply (always_done tt)].
Qed.
(** A snapshot is written, and confirmed if that came late. *)
Lemma publish_ok s d w : core w -> writes (cacheEntry s) (Some d) w -> sok (publish_snapshot redis cacheSeconds s d) anything w.
Proof.
  intros Hc Hw. eapply (always_bind _ _ anything); [apply always_try; [by apply write_cache_ok | done] | |done]. intros r w1 _ Hc1 _. by apply confirm_if_ok.
Qed.

(** ** Letting a request through *)

Definition pending (sid : string) (began : Z) (reported : bool) (w : Sessions) : Prop :=
  began <= s_clock w /\ (reported = true -> sl_reported (slot sid w) = true).
Lemma pending_grows sid b rep w w' : grows w w' -> pending sid b rep w -> pending sid b rep w'.
Proof. intros [? Hg] [H1 H2]. destruct (Hg sid) as (_ & _ & _ & _ & _ & G & _). split; [lia | auto]. Qed.

Lemma served_by_hash sid b rep e until w :
  core w -> pending sid b rep w -> sl_hash (slot sid w) = Some (e, until) -> s_clock w <= until -> tombstone e = false ->
  s_clock w < 1000 * sc_ExpiresAt e -> served_ok sid b rep w.
Proof.
  intros (Hs & _) [H1 H2] Hh Hu Ht He. destruct (Hs sid) as (C1 & C2 & C3 & C4 & C5 & C6 & C7).
  destruct (C4 e until Hh) as (Hr & E1 & E2 & [|(U1 & U2 & U3)]); [congruence|]. split_and!; [done | | |].
  - destruct (sl_born (slot sid w)); [done|]. destruct (C2 eq_refl) as [? _]. congruence.
  - intros c Hc. specialize (U3 c Hc). unfold lag. rewrite Hr. lia.
  - intros E. split; [done|]. destruct (C7 (H2 E)) as [|(c & Hc & H')]; [lia|]. destruct (H' Hr) as [Hseal|]; [|done].
    destruct (C6 Hseal) as (c' & Hc' & [Hent|(e' & u' & Hh' & Ht' & _)]); [|congruence].
    unfold horizon in Hent. specialize (U3 c' Hc'). lia.
Qed.
Lemma served_by_row sid b rep r w :
  core w -> pending sid b rep w -> row sid w = Some r -> with_status UserSessionStatusActive r = true -> s_clock w < 1000 * ss_ExpiresAt r ->
  served_ok sid b rep w.
Proof.
  intros (Hs & _) [H1 H2] Hr Ha He. destruct (Hs sid) as (C1 & _ & _ & _ & _ & _ & C7). destruct (C1 r Hr) as (_ & Hb & _ & E & En & _).
  split_and!; [done | done | by rewrite (En Ha)|]. intros Er. destruct (C7 (H2 Er)) as [|(c & Hc & _)]; [lia|]. by rewrite (En Ha) in Hc.
Qed.

Lemma unix_later t e : unix t < e -> t < 1000 * e.
Proof. unfold unix. intros H. pose proof (Z.div_mod t 1000). pose proof (Z.mod_pos_bound t 1000). lia. Qed.

Lemma getUserSessionCache_ok sid b rep w :
  core w -> pending sid b rep w -> sok (getUserSessionCache sid) (fun e w' => sc_SID e = sid /\ served_ok sid b rep w') w.
Proof.
  intros Hc Hp. eapply (always_bind _ _ (fun found w' => forall e, found = Some e -> exists w1 until, grows w w1 /\ core w1 /\ grows w1 w' /\
      sl_hash (slot sid w1) = Some (e, until) /\ s_clock w1 <= until)).
  - apply always_read. intros w1 found w2 Hg Hc1 [= <-] Hg2 _ e He. unfold visible in He.
    destruct (sl_hash (slot sid w1)) as [[e' u]|] eqn:Eh; [|done]. destruct (Z.leb_spec (s_clock w1) u); [|done]. injection He as ->.
    exists w1, u. by split_and!.
  - intros [e|] w2 Hg2 Hc2 Hf; [|apply always_fail]. destruct (Hf e eq_refl) as (w1 & u & Hg & Hc1 & Hg1 & Hh & Hu).
    apply mok_if; [apply always_fail|]. eapply always_bind; [apply now_ok | |done]. intros t w3 Hg3 Hc3 Ht.
    apply mok_case; [intros; apply always_fail|]. intros [Ha Hx]%negb_false_iff%active_status. apply unix_later in Hx. cbn in Ha, Hx, Ht.
    assert (grows w1 w3) as Hg13 by (etrans; [exact Hg1|exact Hg3]).
    apply always_ret. intros w4 Hg4 _. assert (sc_SID e = sid) as Esid.
    { destruct Hc1 as (Hs & _). destruct (Hs sid) as (_ & _ & _ & C4 & _). by destruct (C4 e u Hh) as (_ & ? & _). }
    split; [done|]. apply (served_grows sid b rep w1); [by etrans; [|exact Hg4]|]. destruct Hg1 as [? _], Hg3 as [? _].
    apply (served_by_hash sid b rep e u); try done; [by apply (pending_grows sid b rep w) | | lia].
    unfold tombstone, with_status in *. cbn in Ha. apply str_eqb_true in Ha. by rewrite Ha.
  - done.
Qed.

Lemma GetUserSessionCached_ok sid b rep w :
  core w -> pending sid b rep w ->
  sok (GetUserSessionCached redis cacheSeconds sid) (fun s w' => ss_SID s = sid /\ served_ok sid b rep w') w.
Proof.
  intros Hc Hp. apply mok_if; [apply always_fail|].
  eapply (always_bind _ _ (fun r w' => answers (fun e w' => sc_SID e = sid /\ served_ok sid b rep w') r w')); [|intros [err|e] w1 Hg1 Hc1 Hr | done].
  - apply always_attempted; [|done]. apply mok_if; [by apply getUserSessionCache_ok | apply always_fail].
  - apply mok_if; [apply always_fail|]. eapply always_bind; [apply deadline_ok | |done]. intros d w2 Hg2 Hc2 Hd.
    eapply (always_bind _ _ (fun s w' => read_since w2 sid s w')); [| |done].
    { apply mok_if; [apply always_fail | by apply read_session_ok]. }
    intros s w3 Hg3 Hc3 Hs. eapply always_bind; [apply now_ok | |done]. intros t w4 Hg4 Hc4 Ht. cbn in Hd, Ht.
    pose proof (read_since_grows _ _ _ _ _ Hg4 Hs) as Hs4. destruct (read_known _ _ _ _ Hs4) as [Esid Hk].
    apply mok_case.
    { intros _. eapply always_seq; [| intros w5 _ _; apply always_fail | done]. apply always_try; [|done]. apply mok_if; [|apply (always_done tt)].
      apply write_cache_ok; [done|]. split; [by rewrite <- Esid in Hk | by left]. }
    intros [Ha Hx]%negb_false_iff%active_status. apply unix_later in Hx.
    assert (served_ok sid b rep w4) as Hserved.
    { destruct Hs as (w' & r & G1 & C1 & G2 & Hr' & ->). apply (served_grows sid b rep w'); [by etrans|].
      apply (served_by_row sid b rep r); try done; [|destruct G2; cbn in *; lia]. apply (pending_grows sid b rep w); [|done].
      etrans; [exact Hg1|]. by etrans. }
    assert (forall w5, grows w4 w5 -> core w5 -> sok (mret s) (fun s w' => ss_SID s = sid /\ served_ok sid b rep w') w5) as Hend.
    { intros w5 Hg5 _. apply always_ret. intros w6 Hg6 _. split; [done|]. apply (served_grows sid b rep w4); [by etrans | done]. }
    apply mok_if; [|by apply Hend].
    eapply always_seq; [apply (publish_ok s d w4 Hc4) | exact Hend | done].
    apply active_writes; [by rewrite Esid | done | rewrite Esid]. eapply read_timely; [exact Hs4 | done | lia].
  - apply always_ret. intros w2 Hg2 _. destruct Hr as [E Hs]. split; [done|]. by apply (served_grows sid b rep w1).
Qed.

(** ** Creating *)

Lemma insert_row_ok s first d w :
  core w -> ss_RefreshHash s = hash first -> with_status UserSessionStatusActive s = true -> d - TTL <= s_clock w ->
  sok (insert_session s) (fun _ w' => known (ss_SID s) (ss_ExpiresAt s) w' /\ timely (ss_SID s) d w') w.
Proof.
  intros Hc Hh Ha Hd. apply always_sql.
  - intros w1 Hg Hc1. destruct (sl_born (slot (ss_SID s) w1)) eqn:Eb; [by split|]. cbn [snd]. apply on_slot_step; [done|]. intros Hs.
    by apply (insert_step _ _ s first).
  - intros w1 a w2 [? _] Hc1 E Hg2 _. destruct (sl_born (slot (ss_SID s) w1)) eqn:Eb; [done|]. cbn [snd] in Hg2.
    destruct Hc1 as (Hs & _). destruct (Hs (ss_SID s)) as (_ & C2 & _). destruct (C2 Eb) as (_ & Een & _).
    split; [eapply known_grows | eapply timely_grows]; try exact Hg2.
    + unfold known. rewrite slot_on_slot. by destruct (decide (ss_SID s = ss_SID s)).
    + unfold timely. rewrite slot_on_slot. destruct (decide (ss_SID s = ss_SID s)); [|done]. cbn. rewrite Een. split; [lia | done].
Qed.
Lemma Create_ok s first w :
  core w -> ss_RefreshHash s = hash first -> sok (CreateUserSession redis cacheSeconds s) anything w.
Proof.
  intros Hc Hh. eapply always_bind; [apply deadline_ok | |done]. intros d w1 Hg1 Hc1 Hd. cbn in Hd.
  eapply (always_bind _ _ (fun s' w' => writes (cacheEntry s') (Some d) w')); [| |done].
  - eapply always_bind; [apply now_ok | |done]. intros t w2 Hg2 Hc2 _. destruct Hg2 as [? _]. apply mok_if; [apply always_fail|].
    apply mok_case; [intros; apply always_fail|]. intros [Ha%negb_false_iff _]%orb_false_iff.
    eapply always_bind; [by apply (insert_row_ok _ first d); try done; cbn; lia | |done].
    intros _ w3 Hg3 Hc3 [Hk Ht]. apply always_ret. intros w4 Hg4 _.
    apply active_writes; [by eapply known_grows | done | by eapply timely_grows].
  - intros s' w2 _ Hc2 Hw. eapply always_seq; [by apply publish_ok | intros; apply always_done | done].
Qed.

(** ** Rotating *)

Lemma set_row_some (f : UserSession -> UserSession) r s : sl_row s = Some r -> set_row f s = s <| sl_row := Some (f r) |>.
Proof. unfold set_row. destruct s. cbn. by intros ->. Qed.
Lemma row_known sid w r : core w -> row sid w = Some r -> row_ok sid r (slot sid w).
Proof. intros (Hs & _) Hr. destruct (Hs sid) as (H & _). by apply H. Qed.

Lemma update_ok sid cond f w :
  (forall w1 r, grows w w1 -> core w1 -> row sid w1 = Some r -> cond r = true -> slot_ok sid (s_clock w1) (slot sid w1) ->
     slot_ok sid (s_clock w1) (f (s_clock w1) (slot sid w1)) /\ slot_grows (s_clock w1) (slot sid w1) (f (s_clock w1) (slot sid w1))) ->
  sok (update_session sid cond f)
    (fun n w' => n = 0 \/ n = 1 /\ exists w1 r, grows w w1 /\ core w1 /\ row sid w1 = Some r /\ cond r = true /\ grows (on_slot sid (f (s_clock w1)) w1) w') w.
Proof.
  intros Hf. apply always_sql.
  - intros w1 Hg Hc. destruct (row sid w1) as [r|] eqn:Er; [|by split]. destruct (cond r) eqn:Ec; [|by split].
    apply on_slot_step; [done|]. intros Hs. by eapply Hf.
  - intros w1 n w2 Hg Hc E Hg2 _. destruct (row sid w1) as [r|] eqn:Er; [|injection E as <-; by left].
    destruct (cond r) eqn:Ec; injection E as <-; [|by left]. right. split; [done|]. exists w1, r. by split_and!.
Qed.
Lemma revoke_slot_step sid t reason w r :
  core w -> row sid w = Some r -> slot_ok sid (s_clock w) (slot sid w) ->
  slot_ok sid (s_clock w) (revoke_slot t reason (s_clock w) (slot sid w)) /\
  slot_grows (s_clock w) (slot sid w) (revoke_slot t reason (s_clock w) (slot sid w)).
Proof.
  intros Hc Hr Hs. unfold revoke_slot. rewrite (set_row_some _ r) by done. destruct (row_known _ _ _ Hc Hr) as (_ & Hb & _).
  apply end_step; [done | done|]. intros r' [= <-]. by exists r.
Qed.
Definition ended (sid : string) (w : Sessions) : Prop := exists c, sl_ended (slot sid w) = Some c.
Lemma ended_grows sid w w' : grows w w' -> ended sid w -> ended sid w'.
Proof. intros [_ Hg] [c Hc]. destruct (Hg sid) as (_ & G & _). exists c. by apply G. Qed.
Lemma revoke_update_ok sid cond t reason w :
  sok (update_session sid cond (revoke_slot t reason)) (fun n w' => n = 0 \/ n = 1 /\ ended sid w') w.
Proof.
  eapply mok_mono; [|apply update_ok; intros w1 r _ Hc Hr _; by apply (revoke_slot_step _ _ _ _ r)].
  intros n w' [->|(-> & w1 & r & _ & _ & _ & _ & Hg)]; [by left | right]. split; [done|]. eapply ended_grows; [exact Hg|].
  unfold ended. rewrite slot_on_slot. destruct (decide (sid = sid)); [|done]. cbn. eauto.
Qed.

Section Rotation.
Context (sid secret : string).

(** A token handed out: the one after the secret that was presented. *)
Definition hands (rotations : nat) (began : Z) (w : Sessions) : Prop := handed_ok sid (next sid secret) rotations began w.

Lemma rotate_slot_step previous until t w r :
  core w -> row sid w = Some r -> with_status UserSessionStatusActive r = true -> ss_RefreshHash r = hash secret ->
  slot_ok sid (s_clock w) (slot sid w) ->
  let s' := rotate_slot (hash (next sid secret)) previous until t (s_clock w) (slot sid w) in
  slot_ok sid (s_clock w) s' /\ slot_grows (s_clock w) (slot sid w) s'.
Proof.
  intros Hc Hr Ha Hh Hs. unfold rotate_slot. rewrite (set_row_some _ r) by done.
  apply (active_row_step sid (s_clock w) (slot sid w) r _ 1); try done. intros Hi first Ef E. cbn. rewrite Nat.add_1_r. cbn.
  f_equal. f_equal. apply Hi. congruence.
Qed.
Lemma rotated_hands previous until t n b w r :
  core w -> row sid w = Some r -> with_status UserSessionStatusActive r = true -> ss_RefreshHash r = hash secret ->
  b <= s_clock w -> (n <= sl_rotations (slot sid w))%nat ->
  hands n b (on_slot sid (rotate_slot (hash (next sid secret)) previous until t (s_clock w)) w).
Proof.
  intros Hc Hr Ha Hh Hb Hn. destruct (row_known _ _ _ Hc Hr) as (_ & Eb & _ & _ & En & E).
  unfold hands, handed_ok. rewrite slot_on_slot. destruct (decide (sid = sid)); [|done]. cbn.
  split_and!; [done | done | by rewrite (En Ha)|]. intros Hi. destruct (E Hi) as (first & Ef & E'). exists first, (S (sl_rotations (slot sid w))). split; [done|]. split; [|lia]. cbn.
  f_equal. apply Hi. congruence.
Qed.
(** The current token, as read. *)
Lemma current_hands n b s w w' :
  read_since w sid s w' -> with_status UserSessionStatusActive s = true -> ss_RefreshHash s = hash (next sid secret) ->
  b <= s_clock w -> (n <= sl_rotations (slot sid w))%nat -> hands n b w'.
Proof.
  intros (w1 & r & [? Hg] & Hc & Hg2 & Hr & ->) Ha Hh Hb Hn. apply (handed_grows _ _ _ _ w1); [done|].
  destruct (row_known _ _ _ Hc Hr) as (_ & Eb & _ & _ & En & E). destruct (Hg sid) as (_ & _ & _ & Hrot & _).
  split_and!; [lia | done | by rewrite (En Ha)|]. intros Hi. destruct (E Hi) as (first & Ef & E'). exists first, (sl_rotations (slot sid w1)). split; [done|]. split; [|lia].
  apply Hi. cbn in Hh. congruence.
Qed.

Definition rotation_ok (n : nat) (b : Z) (a : RotationAnswer) (w : Sessions) : Prop :=
  ss_SID a.1 = sid /\ (a.2 = false \/ ss_RefreshHash a.1 = hash (next sid secret) -> hands n b w).
Lemma rotation_grows n b a w w' : grows w w' -> rotation_ok n b a w -> rotation_ok n b a w'.
Proof. intros Hg [H1 H2]. split; [done|]. intros E. by eapply handed_grows, H2. Qed.

Lemma rotate_once_ok uid t grace n b w :
  core w -> b <= s_clock w -> (n <= sl_rotations (slot sid w))%nat ->
  sok (rotate_once redis cacheSeconds uid sid (hash secret) (hash (next sid secret)) t grace)
    (fun o w' => match o with Some a => rotation_ok n b a w' | None => True end) w.
Proof.
  intros Hc Hb Hn. eapply always_bind; [apply deadline_ok | |done]. intros d w1 Hg1 Hc1 Hd. cbn in Hd.
  assert (b <= s_clock w1 /\ (n <= sl_rotations (slot sid w1))%nat) as [Hb1 Hn1].
  { destruct Hg1 as [? Hg]. destruct (Hg sid) as (_ & _ & _ & ? & _). lia. }
  eapply always_bind; [by apply read_session_ok | |done]. intros s w2 Hg2 Hc2 Hs. destruct (read_known _ _ _ _ Hs) as [Esid Hk].
  apply mok_case; [intros; apply always_fail|]. intros [Ha _]%negb_false_iff%active_status.
  pose proof (read_timely _ _ _ d _ Hs Ha ltac:(lia)) as Ht.
  apply mok_case; intros Eh.
  - apply str_eqb_true in Eh.
    eapply always_bind; [apply update_ok | |done].
    { intros w3 r _ Hc3 Hr E. apply andb_true_iff in E as [[_ [Hact _]%active_status]%andb_true_iff E%str_eqb_true]. by apply (rotate_slot_step _ _ _ _ r). }
    intros k w3 Hg3 Hc3 Hup. apply mok_case; [intros; by apply always_ret|]. intros Ek%Z.eqb_neq.
    destruct Hup as [->|(-> & w0 & r & Hg0 & Hc0 & Hr & E & Hgrow)]; [done|].
    apply andb_true_iff in E as [[_ [Hact _]%active_status]%andb_true_iff E%str_eqb_true].
    assert (hands n b w3) as Hh3.
    { eapply handed_grows; [exact Hgrow|]. apply (rotated_hands _ _ _ _ _ _ r); try done.
      - destruct Hg2, Hg0. lia.
      - destruct Hg2 as [_ G2], Hg0 as [_ G0]. destruct (G2 sid) as (_ & _ & _ & ? & _), (G0 sid) as (_ & _ & _ & ? & _). lia. }
    eapply always_seq; [apply publish_ok; [done|] | |done].
    + apply active_writes; cbn; rewrite ?Esid; [exact (known_grows _ _ _ _ Hg3 Hk) | done | exact (timely_grows _ _ _ _ Hg3 Ht)].
    + intros w4 Hg4 _. apply always_ret. intros w5 Hg5 _. split; [done|]. intros _. eapply handed_grows; [|exact Hh3]. by etrans.
  - apply mok_if; [apply always_fail|]. apply mok_if.
    + apply always_ret. intros w3 Hg3 _. split; [done|]. intros [|E]; [done|]. cbn in E. eapply handed_grows; [exact Hg3|].
      by eapply current_hands.
    + eapply always_seq; [apply deny_ok; [done | by rewrite Esid | by left] | |done]. intros w3 Hg3 Hc3.
      eapply always_bind; [apply revoke_update_ok | |done]. intros k w4 Hg4 Hc4 _. apply mok_if; [apply always_fail|].
      eapply always_seq; [apply seal_ok; [done | | done] | intros; apply always_fail | done]. cbn. rewrite Esid. eapply known_grows; [|exact Hk]. by etrans.
Qed.
Lemma rotate_attempts_ok k uid t grace n b w :
  core w -> b <= s_clock w -> (n <= sl_rotations (slot sid w))%nat ->
  sok (rotate_attempts redis cacheSeconds k uid sid (hash secret) (hash (next sid secret)) t grace) (rotation_ok n b) w.
Proof.
  revert w. induction k as [|k IH]; intros w Hc Hb Hn; cbn [rotate_attempts]; [apply always_fail|].
  eapply always_bind; [by apply rotate_once_ok | |done]. intros [a|] w1 Hg1 Hc1 Ha.
  - apply always_ret. intros w2 Hg2 _. by eapply rotation_grows.
  - destruct Hg1 as [? Hg]. destruct (Hg sid) as (_ & _ & _ & ? & _). apply IH; [done | lia | lia].
Qed.
Lemma Rotate_ok uid t grace n b w :
  core w -> b <= s_clock w -> (n <= sl_rotations (slot sid w))%nat ->
  sok (RotateUserSessionRefresh redis cacheSeconds uid sid (hash secret) (hash (next sid secret)) t grace) (rotation_ok n b) w.
Proof.
  intros Hc Hb Hn. apply mok_if; [apply always_fail|]. eapply (always_bind _ _ anything); [| |done].
  - apply mok_if; [|by apply always_ret]. eapply always_bind; [apply now_ok | intros; by apply always_ret | done].
  - intros t' w1 Hg1 Hc1 _. apply mok_if; [apply always_fail|]. destruct Hg1 as [? Hg]. destruct (Hg sid) as (_ & _ & _ & ? & _).
    apply rotate_attempts_ok; [done | lia | lia].
Qed.
End Rotation.

(** ** Revoking *)

Lemma or_absent_ok sid cond w :
  core w -> sok (or_absent (read_session sid cond)) (fun o w' => forall s, o = Some s -> read_since w sid s w') w.
Proof.
  intros Hc. eapply (always_bind _ _ (fun r w' => answers (fun s w' => read_since w sid s w') r w')); [| |done].
  - apply always_attempted; [by apply read_session_ok | done].
  - intros [err|s] w1 _ Hc1 Hr; [apply mok_if; [by apply always_ret | apply always_fail]|].
    apply always_ret. intros w2 Hg _ s' [= <-]. by eapply read_since_grows.
Qed.
Lemma revoke_tx_ok uid sid t reason w :
  sok (revoke_transaction uid sid t reason) (fun (revoked : bool) w' => revoked = true -> ended sid w') w.
Proof.
  apply always_sql.
  - intros w1 Hg Hc. destruct (row sid w1) as [r|] eqn:Er; [|by split]. destruct (negb _); [by split|]. destruct (is_active r t); [|by split].
    apply on_slot_step; [done|]. intros Hs. by apply (revoke_slot_step _ _ _ _ r).
  - intros w1 n w2 Hg Hc E Hg2 _. destruct (row sid w1) as [r|] eqn:Er; [|done]. destruct (negb _); [done|].
    destruct (is_active r t); injection E as <-; [|done]. intros _. eapply ended_grows; [exact Hg2|].
    unfold ended. cbn [snd]. rewrite slot_on_slot. destruct (decide (sid = sid)); [|done]. cbn. eauto.
Qed.
Lemma Revoke_ok uid sid reason w :
  core w -> sok (RevokeUserSession redis cacheSeconds uid sid reason) (fun (revoked : bool) w' => revoked = true -> ended sid w') w.
Proof.
  intros Hc. apply mok_if; [apply always_fail|]. eapply always_bind; [apply now_ok | |done]. intros t w1 Hg1 Hc1 _.
  eapply always_bind; [by apply or_absent_ok | |done]. intros [s|] w2 Hg2 Hc2 Hs; [|by apply always_ret].
  destruct (read_known _ _ _ _ (Hs s eq_refl)) as [<- Hk]. apply mok_if; [by apply always_ret|].
  eapply always_seq; [apply deny_ok; [done | done | by left] | |done]. intros w3 Hg3 Hc3.
  eapply always_bind; [apply revoke_tx_ok | |done]. intros revoked w4 Hg4 Hc4 Hr.
  eapply always_seq; [apply mok_if; [|apply (always_done tt)] | |done].
  - eapply always_seq; [apply seal_ok; [done | | done] | intros; apply (always_done tt) | done]. cbn. eapply known_grows; [|exact Hk]. by etrans.
  - intros w5 Hg5 _. apply always_ret. intros w6 Hg6 _ E. eapply ended_grows; [|by apply Hr]. by etrans.
Qed.
Lemma RevokeByHash_ok sid presented reason w :
  core w -> sok (RevokeUserSessionByRefreshHash redis cacheSeconds sid presented reason) (fun (revoked : bool) w' => revoked = true -> ended sid w') w.
Proof.
  intros Hc. apply mok_if; [apply always_fail|]. eapply always_bind; [apply now_ok | |done]. intros t w1 Hg1 Hc1 _.
  eapply always_bind; [by apply or_absent_ok | |done]. intros [s|] w2 Hg2 Hc2 Hs; [|by apply always_ret].
  destruct (read_known _ _ _ _ (Hs s eq_refl)) as [<- Hk]. apply mok_if; [by apply always_ret|].
  eapply always_seq; [apply deny_ok; [done | done | by left] | |done]. intros w3 Hg3 Hc3.
  eapply always_bind; [apply revoke_update_ok | |done]. intros k w4 Hg4 Hc4 Hr. apply mok_case; [|by intros; apply always_ret].
  intros ->%Z.eqb_eq. destruct Hr as [|[_ Hr]]; [done|].
  eapply always_seq; [apply seal_ok; [done | | done] | | done].
  - cbn. eapply known_grows; [|exact Hk]. by etrans.
  - intros w5 Hg5 _. apply always_ret. intros w6 Hg6 _ _. eapply ended_grows; [|exact Hr]. by etrans.
Qed.

(** ** Advancing *)

Lemma Advance_ok uid sid v a a' w : core w -> sok (AdvanceUserSessionAuthVersion redis cacheSeconds uid sid v a a') anything w.
Proof.
  intros Hc. apply mok_if; [apply always_fail|]. eapply always_bind; [apply deadline_ok | |done]. intros d w1 Hg1 Hc1 Hd. cbn in Hd.
  eapply always_bind; [apply now_ok | |done]. intros t w2 [? _] Hc2 _.
  eapply (always_bind _ _ (fun s w' => writes (cacheEntry s) (Some d) w')); [| |done].
  - apply always_sql.
    + intros w3 Hg Hc3. destruct (row sid w3) as [r|] eqn:Er; [|by split]. destruct (negb _); [by split|].
      destruct (negb (with_status UserSessionStatusActive r)) eqn:Ea; [by split|]. apply negb_false_iff in Ea. cbn [orb].
      destruct (_ || _); [by split|]. cbn [snd]. apply on_slot_step; [done|]. intros Hs. rewrite (set_row_some _ r) by done.
      apply (active_row_step sid (s_clock w3) (slot sid w3) r _ 0); try done. intros _ first _ E. cbn. by rewrite Nat.add_0_r.
    + intros w3 s w4 [? _] Hc3 E Hg4 _. destruct (row sid w3) as [r|] eqn:Er; [|done]. destruct (negb _); [done|].
      destruct (negb (with_status UserSessionStatusActive r)) eqn:Ea; [done|]. apply negb_false_iff in Ea. cbn [orb] in *.
      destruct (_ || _); [done|]. injection E as <-. cbn [snd] in Hg4. destruct (row_known _ _ _ Hc3 Er) as (E1 & E2 & _ & E3 & E4 & _).
      apply active_writes; [eapply known_grows; [exact Hg4|] | done | eapply timely_grows; [exact Hg4|]]; cbn; rewrite E1.
      * unfold known. rewrite slot_on_slot. by destruct (decide (sid = sid)).
      * unfold timely. rewrite slot_on_slot. destruct (decide (sid = sid)); [|done]. cbn. rewrite (E4 Ea). split; [lia | done].
  - intros s w3 _ Hc3 Hw. eapply (always_bind _ _ anything); [apply always_try; [by apply write_cache_ok | done] | |done].
    intros [err|[]] w4 _ Hc4 _; [|by apply always_ret]. apply mok_if; [|apply always_fail].
    eapply always_seq; [by apply confirm_ok | intros; by apply always_ret | done].
Qed.

(** ** Revoking many *)

Lemma each_ok {A} (f : A -> program unit) l w :
  core w -> (forall x w', x ∈ l -> grows w w' -> core w' -> sok (f x) anything w') -> sok (each f l) anything w.
Proof.
  revert w. induction l as [|x l IH]; intros w Hc Hf; cbn; [apply (always_done tt)|].
  eapply always_seq; [by apply Hf; [left | |] | |done]. intros w1 Hg1 Hc1. apply IH; [done|]. intros y w2 Hy Hg2. apply Hf; [by right|]. by etrans.
Qed.
Lemma rows_row w s : core w -> s ∈ rows w -> row (ss_SID s) w = Some s.
Proof.
  intros Hc ([sid sl] & Hin & Hr)%list_elem_of_omap. apply elem_of_map_to_list in Hin. cbn in Hr.
  assert (row sid w = Some s) as Hrow by (unfold row, slot; by rewrite Hin).
  destruct (row_known _ _ _ Hc Hrow) as (-> & _). done.
Qed.
Lemma row_rows w sid s : row sid w = Some s -> s ∈ rows w.
Proof.
  unfold row, slot. destruct (s_slots w !! sid) as [sl|] eqn:E; [|done]. cbn. intros Hr. apply list_elem_of_omap.
  exists (sid, sl). split; [by apply elem_of_map_to_list | done].
Qed.
Lemma list_filter_In {A} (f : A -> bool) (l : list A) x : x ∈ List.filter f l <-> x ∈ l /\ f x = true.
Proof. rewrite !list_elem_of_In. apply List.filter_In. Qed.

(** Every row that a query returned was there. *)
Definition all_read (w : Sessions) (l : list UserSession) (w' : Sessions) : Prop := forall s, s ∈ l -> read_since w (ss_SID s) s w'.
Lemma all_read_map w w1 l w' : grows w w1 -> core w1 -> grows w1 w' -> (forall r, r ∈ l -> r ∈ rows w1) -> all_read w (map AfterFind l) w'.
Proof.
  intros Hg Hc Hg' Hl s Hs. apply list_elem_of_fmap in Hs as (r & -> & Hr). exists w1, r. split_and!; try done. apply (rows_row w1 r); [done | by apply Hl].
Qed.
Lemma all_read_grows w l a b : grows a b -> all_read w l a -> all_read w l b.
Proof. intros Hg H s Hs. eapply read_since_grows; [exact Hg | by apply H]. Qed.
(** The query saw no session of the user that was left. *)
Definition none_left (w0 : Sessions) (uid : Z) (excluded : string) (t : Z) (w : Sessions) : Prop :=
  exists w1, grows w0 w1 /\ core w1 /\ grows w1 w /\ forall s, s ∈ rows w1 -> selects uid excluded t s = false.
Lemma none_left_grows w0 w0' uid excluded t w w' : grows w0 w0' -> grows w w' -> none_left w0' uid excluded t w -> none_left w0 uid excluded t w'.
Proof. intros Hg Hg' (w1 & ? & ? & ? & ?). exists w1. split_and!; try done; by etrans. Qed.

Lemma find_candidates_ok uid excluded t w :
  sok (find_candidates uid excluded t) (fun l w' => all_read w l w' /\ (l = [] -> none_left w uid excluded t w')) w.
Proof.
  apply always_read. intros w1 l w2 Hg Hc [= <-] Hg2 _. split.
  - apply (all_read_map w w1); try done. intros r Hr%elem_of_take. destruct Hr as (i & Hr & _). apply list_elem_of_lookup_2 in Hr.
    rewrite merge_sort_Permutation in Hr. by apply list_filter_In in Hr as [? _].
  - intros E. exists w1. do 3 (split; [done|]). intros s Hs. destruct (selects uid excluded t s) eqn:Ef; [|done]. exfalso.
    apply map_eq_nil, (f_equal length) in E. unfold first_by_sid in E. rewrite length_take, merge_sort_Permutation in E.
    destruct (List.filter _ _) as [|x l] eqn:El; [|done]. assert (s ∈ List.filter (selects uid excluded t) (rows w1)) as Hin by by apply list_filter_In.
    rewrite El in Hin. by apply elem_of_nil in Hin.
Qed.
Lemma revoke_locked_ok sids t reason w : core w -> sok (revoke_locked sids t reason) (fun l w' => all_read w l w') w.
Proof.
  intros _. assert (forall w1, core w1 -> core (on_rows (locked sids) (revoke_slot t reason (s_clock w1)) w1) /\
    grows w1 (on_rows (locked sids) (revoke_slot t reason (s_clock w1)) w1)) as H.
  { intros w1 Hc. apply on_rows_step; [done|]. intros sid r Hr _ Hs. by apply (revoke_slot_step _ _ _ _ r). }
  apply always_sql; [intros w1 _ Hc; by apply H|]. intros w1 l w2 Hg Hc [= <-] Hg2 _. destruct (H w1 Hc) as [_ Hg1].
  apply (all_read_map w w1); try done; [by etrans|]. by intros r [? _]%list_filter_In.
Qed.

Lemma revoke_round_ok uid excluded reason t w :
  core w -> sok (revoke_round redis cacheSeconds uid excluded reason t) (fun o w' => o = None -> none_left w uid excluded t w') w.
Proof.
  intros Hc. eapply always_bind; [apply find_candidates_ok | |done]. intros l w1 Hg1 Hc1 [Hl Hnone].
  destruct l as [|c l]; [apply always_ret; intros w2 Hg2 _ _; by eapply none_left_grows, Hnone|].
  eapply always_seq; [apply each_ok; [done|] | |done].
  - intros s w2 Hs Hg2 Hc2. destruct (read_known _ _ _ _ (Hl s Hs)) as [_ Hk]. apply deny_ok; [done | by eapply known_grows | by left].
  - intros w2 Hg2 Hc2. eapply always_bind; [by apply revoke_locked_ok | |done]. intros revoked w3 Hg3 Hc3 Hrev.
    eapply always_seq; [apply each_ok; [done|] | |done].
    + intros s w4 Hs Hg4 Hc4. destruct (read_known _ _ _ _ (Hrev s Hs)) as [_ Hk].
      eapply always_seq; [apply seal_ok; [done | | done] | intros; apply (always_done tt) | done]. cbn. by eapply known_grows.
    + intros w4 _ _. by apply always_ret.
Qed.
Lemma revoke_rounds_ok fuel uid excluded reason t total w :
  core w -> sok (revoke_rounds redis cacheSeconds fuel uid excluded reason t total) (fun _ w' => none_left w uid excluded t w') w.
Proof.
  revert total w. induction fuel as [|fuel IH]; intros total w Hc; cbn [revoke_rounds]; [apply always_fail|].
  eapply always_bind; [by apply revoke_round_ok | |done]. intros [n|] w1 Hg1 Hc1 Hnone.
  - eapply mok_mono; [|by apply IH]. intros a w2. by apply none_left_grows.
  - apply always_ret. intros w2 Hg2 _. by eapply none_left_grows, Hnone.
Qed.

(** A session may be reported gone. *)
Definition gone (sid : string) (w : Sessions) : Prop :=
  sl_born (slot sid w) = true /\ (1000 * sl_expires (slot sid w) <= s_clock w \/ ended sid w).
Lemma gone_grows sid w w' : grows w w' -> gone sid w -> gone sid w'.
Proof.
  intros Hg [Hb He]. pose proof Hg as [? Hgs]. destruct (Hgs sid) as (G1 & _). destruct (G1 Hb) as (? & _ & Ex & _). split; [done|].
  rewrite Ex. destruct He as [|]; [left; lia | right; by eapply ended_grows].
Qed.
(** The sessions a bulk revocation is about. *)
Definition concerns (uid : Z) (excluded sid : string) (w : Sessions) : Prop :=
  sl_born (slot sid w) = true /\ sl_user (slot sid w) = uid /\ (excluded = "" \/ sid <> excluded).
Lemma none_left_gone w0 uid excluded t w sid :
  none_left w0 uid excluded t w -> 1000 * t <= s_clock w0 -> concerns uid excluded sid w0 -> gone sid w.
Proof.
  intros (w1 & Hg & Hc & Hg1 & Hall) Ht (Hb & Hu & Hex). apply (gone_grows sid w1); [done|]. destruct Hg as [? Hg].
  destruct (Hg sid) as (G1 & _). destruct (G1 Hb) as (Hb1 & Hu1 & _). split; [done|]. pose proof Hc as (Hs & _).
  destruct (Hs sid) as (C1 & _ & C3 & _). destruct (sl_ended (slot sid w1)) as [c|] eqn:Ee; [right; by exists c|]. left.
  destruct (C3 Hb1 eq_refl) as (r & Hr & Ha). destruct (C1 r Hr) as (E1 & _ & E2 & E3 & _).
  specialize (Hall r (row_rows _ _ _ Hr)). unfold selects in Hall. rewrite Ha in Hall. unfold of_user in Hall.
  rewrite E2, Hu1, Hu, Z.eqb_refl, E3 in Hall. cbn in Hall. destruct (Z.ltb_spec t (sl_expires (slot sid w1))); [|lia]. cbn in Hall.
  apply orb_false_iff in Hall as [H1%str_eqb_false H2%negb_false_iff%str_eqb_true]. exfalso. destruct Hex; [done | congruence].
Qed.
Lemma unix_le t : 1000 * unix t <= t.
Proof. unfold unix. pose proof (Z.div_mod t 1000). pose proof (Z.mod_pos_bound t 1000). lia. Qed.
Lemma revoke_many_ok fuel uid excluded reason w :
  core w -> sok (revokeUserSessions redis cacheSeconds fuel uid excluded reason)
    (fun _ w' => forall sid, concerns uid excluded sid w -> gone sid w') w.
Proof.
  intros Hc. apply mok_if; [apply always_fail|]. eapply always_bind; [apply now_ok | |done]. intros t w1 Hg1 Hc1 Ht. cbn in Ht.
  eapply mok_mono; [|by apply revoke_rounds_ok]. intros a w2 Hnone sid Hcon. cbn in Hnone.
  eapply none_left_gone; [exact Hnone | pose proof (unix_le t); lia|]. destruct Hg1 as [_ Hg]. destruct Hcon as (Hb & Hu & ?).
  destruct (Hg sid) as (G1 & _). destruct (G1 Hb) as (? & ? & _). split_and!; [done | congruence | done].
Qed.

(** ** Cleaning up *)

Lemma delete_batch_ok cond sids w : sok (delete_batch cond sids) anything w.
Proof.
  apply always_sql; [|done]. intros w1 _ Hc. apply on_rows_step; [done|]. intros sid r Hr _ Hs.
  destruct (row_known _ _ _ Hc Hr) as (_ & Hb & _). by apply end_step.
Qed.
Lemma delete_rounds_ok fuel cond key w : core w -> sok (delete_rounds fuel cond key) anything w.
Proof.
  revert w. induction fuel as [|fuel IH]; intros w Hc; cbn [delete_rounds]; [apply always_fail|].
  eapply (always_bind _ _ anything); [by apply always_read | |done]. intros [|s l] w1 _ Hc1 _; [apply (always_done tt)|].
  eapply always_seq; [apply each_ok; [done|] | |done].
  - intros; apply delete_batch_ok.
  - intros w2 _ Hc2. by apply IH.
Qed.
Lemma clean_ok days window fuel t w :
  core w -> sok (DeleteExpiredUserSessions days window fuel t) anything w /\ sok (DeleteOldRevokedUserSessions days window fuel t) anything w.
Proof.
  intros Hc. assert (forall B (b : bool) (f : Z -> program B) w, core w -> (forall t w', core w' -> sok (f t) anything w') ->
    sok (t ← (if b then clock ← now; mret (unix clock) else mret t); f t) anything w) as H.
  { intros B b f w0 Hc0 Hf. eapply (always_bind _ _ anything); [| |done]; [|intros t' w1 _ Hc1 _; by apply Hf].
    apply mok_if; [|by apply always_ret]. eapply always_bind; [apply now_ok | intros; by apply always_ret | done]. }
  split; (apply H; [done|]); intros t' w' Hc'; (apply mok_if; [apply always_fail|]); by apply delete_rounds_ok.
Qed.
End Facts.
