(* ===== verification/SessionTopology.v ===== *)
(** * Sessions on several Redis instances

    The rows and the clock are one; each Redis has its own hashes, and what was
    reported, served and handed out is noted for each.  What a node on one Redis
    does to the rows keeps the invariant of [SessionFacts] on every other one: a
    hash there goes on to expire within the time a snapshot lives. *)

From stdpp Require Import base numbers option strings list gmap relations.
From Stdlib Require Import ZArith Lia.
From S2P Require Import Prelude Store Interleave Marked Focus Topology Sessions SessionFacts.
Open Scope Z_scope.

Definition adopt_slot (db s : Slot) : Slot :=
  mkSlot (sl_row db) (sl_hash s) (sl_born db) (sl_user db) (sl_expires db) (sl_first db) (sl_rotations db) (sl_ended db) (sl_sealed s)
    (sl_reported s) (sl_unsealed s).
Definition adopt_sessions (db w : Sessions) : Sessions :=
  mkSessions (s_clock db)
    (merge (fun d s => Some (adopt_slot (default empty_slot d) (default empty_slot s))) (s_slots db) (s_slots w))
    (s_served w) (s_handed w).

Definition same_slot (a b : Slot) : Prop :=
  (sl_row a, sl_born a, sl_user a, sl_expires a, sl_first a, sl_rotations a, sl_ended a) =
  (sl_row b, sl_born b, sl_user b, sl_expires b, sl_first b, sl_rotations b, sl_ended b).
Definition same_sessions (a b : Sessions) : Prop := s_clock a = s_clock b /\ forall sid, same_slot (slot sid a) (slot sid b).
#[export] Instance same_sessions_equivalence : Equivalence same_sessions.
Proof.
  split; [by intros a | by intros a b [? H]; split; [|intros sid; symmetry; apply H]|].
  intros a b c [E1 H1] [E2 H2]. split; [congruence|]. intros sid. unfold same_slot in *. by rewrite H1, H2.
Qed.

Lemma slot_adopted sid db w : slot sid (adopt_sessions db w) = adopt_slot (slot sid db) (slot sid w).
Proof. unfold slot. cbn. rewrite lookup_merge. by destruct (s_slots db !! sid), (s_slots w !! sid). Qed.

Section Adopted.
Context (cacheSeconds : Z) (hash : string -> string) (next : string -> string -> string).
Abbreviation slot_ok redis := (slot_ok redis cacheSeconds hash next).
Abbreviation core redis := (core redis cacheSeconds hash next).

(** A session on one Redis, when another node changed its row. *)
Lemma slot_adopts redis redis' sid clock clock' x y y' :
  slot_ok redis sid clock x -> slot_ok redis' sid clock' y' -> same_slot y x -> clock <= clock' -> slot_grows clock y y' ->
  slot_ok redis sid clock' (adopt_slot y' x) /\ slot_grows clock x (adopt_slot y' x).
Proof.
  intros (_ & X2 & _ & X4 & _ & X6 & X7) (Y1 & Y2 & Y3 & _ & Y5 & _) Ha Ht (G1 & G2 & G3 & G4 & _).
  injection Ha as _ Eb Eu Ex Ef En Ee. rewrite Eb, Eu, Ex, Ef in G1. rewrite Ee in G2, G3. rewrite En in G4.
  assert (slot_grows clock x (adopt_slot y' x)) as Hg by by split_and!. split; [|exact Hg].
  assert (sl_hash x = None \/ sl_born x = true) as Hborn by (destruct (sl_born x); [by right | left; by apply X2]).
  split_and!; try done.
  - intros Hb. cbn in Hb. destruct (sl_born x) eqn:E; [by destruct (G1 eq_refl); congruence|]. destruct (Y2 Hb) as (_ & ? & _ & ?).
    destruct (X2 eq_refl) as (? & _ & ? & _). done.
  - intros e until Hh. destruct (X4 e until Hh) as (Hr & E1 & E2 & Hk). split; [exact Hr|].
    destruct Hborn as [|Hb]; [cbn in Hh; congruence|]. destruct (G1 Hb) as (_ & _ & Ex' & _).
    unfold hash_ok. cbn. rewrite Ex'. split; [done|]. split; [done|]. destruct Hk as [|(U1 & U2 & U3)]; [by left|]. right.
    split_and!; [done | lia|]. intros c Hc. destruct (sl_ended x) as [c0|] eqn:E; [|specialize (G3 c eq_refl Hc); lia].
    rewrite (G2 c0 eq_refl) in Hc. by apply U3.
  - intros Hs. destruct (X6 Hs) as (c & Hc & Hent). exists c. cbn. split; [by apply G2|].
    destruct (sl_born x) eqn:E; [|destruct (X2 eq_refl) as (_ & ? & _); congruence]. destruct (G1 eq_refl) as (_ & _ & Ex' & _).
    unfold entombed, horizon. cbn. rewrite Ex'. destruct Hent as [Hent|Hent]; [left; unfold horizon in Hent; lia | by right].
  - intros Hr. cbn. destruct (sl_born x) eqn:E; [|destruct (X2 eq_refl) as (_ & _ & ? & _); cbn in Hr; congruence].
    destruct (G1 eq_refl) as (_ & _ & -> & _). destruct (X7 Hr) as [|(c & Hc & H)]; [left; lia|]. right. exists c. split; [by apply G2 | exact H].
Qed.

Lemma sessions_survive {R : Type} (redis : R -> bool) i j x y y' :
  core (redis i) x -> core (redis j) y -> same_sessions y x -> core (redis j) y' -> grows y y' ->
  core (redis i) (adopt_sessions y' x) /\ grows x (adopt_sessions y' x).
Proof.
  intros (X1 & X2 & X3) _ [Ec Ha] (Y1 & _) [Ht Hg]. rewrite Ec in Ht, Hg.
  assert (forall sid, slot_ok (redis i) sid (s_clock y') (adopt_slot (slot sid y') (slot sid x)) /\
            slot_grows (s_clock x) (slot sid x) (adopt_slot (slot sid y') (slot sid x))) as Hslots.
  { intros sid. eapply slot_adopts; [apply X1 | apply Y1 | apply Ha | done | apply Hg]. }
  assert (grows x (adopt_sessions y' x)) as Hgx by (split; [done|]; intros sid; rewrite slot_adopted; apply Hslots).
  split; [|exact Hgx]. split_and!.
  - intros sid. rewrite slot_adopted. apply Hslots.
  - eapply Forall_impl; [exact X2|]. intros v. by apply served_grows.
  - eapply Forall_impl; [exact X3|]. intros h (secret & E & Hh). exists secret. split; [done|]. by eapply handed_grows.
Qed.
Lemma same_adopted x y' : same_sessions y' (adopt_sessions y' x).
Proof. split; [done|]. intros sid. by rewrite slot_adopted. Qed.
End Adopted.
