(* ===== verification/LoginSessions.v ===== *)
(** * Signing in and staying signed in ([src/service/auth_session.go], [src/service/auth_token.go])

    What the dashboard does with the sessions of [Sessions] and the users of
    [UserCache]: every request presents an access token, which names a session, a
    version of it and a version of the user's rights; a refresh token, which
    changes with every use, gets a new access token; a change of the user's
    rights ends his other sessions ([src/model/user.go]).

    The state is that of all users, each with his row and cache, and that of all
    sessions; the ghost component lists the requests let through. *)

From stdpp Require Import base numbers option strings list sorting gmap relations.
From Stdlib Require Import ZArith Lia.
From S2P Require Import Prelude Store Interleave GoStrings UserCache Sessions Focus.
Open Scope Z_scope.

Definition ErrLoginSessionInvalid : Err := EText "login session is invalid".
Definition ErrLoginSessionRevoked : Err := EText "login session is revoked".
Definition ErrLoginSessionMismatch : Err := EText "login session does not match the expected session".
Definition ErrRefreshTokenInvalid : Err := EText "refresh token is invalid".
Definition ErrRefreshRace : Err := EText "refresh token was already rotated".
Definition ErrAuthTokenInvalid : Err := EText "authentication token is invalid".
Definition ErrAuthTokenExpired : Err := EText "authentication token has expired".

(** In seconds; the replay window in nanoseconds, as it is passed on. *)
Definition AccessTokenTTL : Z := 15 * 60.
Definition LoginSessionTTL : Z := 30 * 24 * 3600.
Definition RefreshReplayWindow : Z := 30 * 1000000000.

Record AuthIdentity := mkAuthIdentity {
  ai_UserID : Z;
  ai_SessionID : string;
  ai_UserAuthVersion : Z;
  ai_SessionVersion : Z
}.
#[export] Instance AuthIdentity_eta : Eta AuthIdentity :=
  fun r => mkAuthIdentity (ai_UserID r) (ai_SessionID r) (ai_UserAuthVersion r) (ai_SessionVersion r).

Record LoginSessionView := mkLoginSessionView {
  lv_SID : string;
  lv_Current : bool;
  lv_LoginMethod : string;
  lv_IP : string;
  lv_UserAgent : string;
  lv_CreatedAt : Z;
  lv_LastActiveAt : Z;
  lv_ExpiresAt : Z
}.
Record AuthBundle := mkAuthBundle {
  ab_AccessToken : string;
  ab_TokenType : string;
  ab_AccessExpiresAt : Z;
  ab_Session : LoginSessionView;
  ab_RefreshToken : string
}.

Record Accounts := mkAccounts {
  a_users : Z -> World;
  a_sessions : Sessions;
  (* ghost: the version of the user's rights that had been reported when the
     request began, and the identity it presented *)
  a_accepted : list (Z * AuthIdentity)
}.
#[export] Instance Accounts_eta : Eta Accounts := fun r => mkAccounts (a_users r) (a_sessions r) (a_accepted r).

Abbreviation program A := (P Accounts A).

Definition get_user (id : Z) (a : Accounts) : World := a_users a id.
Definition set_user (id : Z) (w : World) (a : Accounts) : Accounts :=
  a <| a_users ::= fun users u => if u =? id then w else users u |>.
Definition set_sessions (s : Sessions) (a : Accounts) : Accounts := a <| a_sessions := s |>.
Definition on_user {A} (id : Z) (p : prog World A) : prog Accounts A := focus (get_user id) (set_user id) p.
Definition on_sessions {A} (p : prog Sessions A) : prog Accounts A := focus a_sessions set_sessions p.

(** ** Tokens *)

(** [strings.Cut] by a dot. *)
Definition cut_dot (s : string) : option (string * string) :=
  match String.index 0 "." s with
  | Some i => Some (String.substring 0 i s, str_drop (S i) s)
  | None => None
  end.
Definition truncateAuthMetadata (value : string) (max : nat) : string :=
  let value := trim_space value in
  if (String.length value <=? max)%nat then value else String.substring 0 max value.

Section Tokens.
(** [uuid.Parse] succeeds; [hmac.New(sha256.New, key)] with its input;
    [hex.EncodeToString]; the signature of a JWT with the claims of an identity,
    issued at a time. *)
Context (uuid_ok : string -> bool) (hmac : string -> string -> string) (hex : string -> string)
  (sign : AuthIdentity -> Z -> result string).
(** [common.SessionSecret]. *)
Context (SessionSecret : string).

Definition GenerateHMACWithKey (key data : string) : string := hex (hmac key data).
Definition authSigningKey (purpose : string) : string := hmac SessionSecret ("new-api/auth/" ++ purpose ++ "/v1").
Definition hashRefreshSecret (secret : string) : string := GenerateHMACWithKey (authSigningKey "refresh") secret.
Definition deriveNextRefreshSecret (sid currentSecret : string) : string :=
  GenerateHMACWithKey (authSigningKey "refresh-rotate") (sid ++ "." ++ currentSecret).

Definition splitRefreshToken (raw : string) : option (string * string) :=
  match cut_dot (trim_space raw) with
  | None => None
  | Some (sid, secret) =>
      if str_eqb sid "" || str_eqb secret "" || match String.index 0 "." secret with Some _ => true | None => false end then None
      else if uuid_ok sid then Some (sid, secret) else None
  end.
Definition refreshToken (sid secret : string) : string := sid ++ "." ++ secret.
Definition RefreshTokenSID (rawRefreshToken : string) : option string := option_map fst (splitRefreshToken rawRefreshToken).

Definition IssueAccessToken (identity : AuthIdentity) : program (string * Z) :=
  if (ai_UserID identity <=? 0) || str_eqb (ai_SessionID identity) "" || (ai_UserAuthVersion identity <=? 0) || (ai_SessionVersion identity <=? 0)
  then fail ErrAuthTokenInvalid else
  time ← on_sessions now;
  match sign identity time with inl err => fail err | inr token => mret (token, unix (time + 1000 * AccessTokenTTL)) end.

Definition sessionView (s : UserSession) (current : bool) : LoginSessionView :=
  mkLoginSessionView (ss_SID s) current (ss_LoginMethod s) (ss_IP s) (ss_UserAgent s) (ss_CreatedAt s) (ss_LastActiveAt s) (ss_ExpiresAt s).
Definition identity_of (s : UserSession) : AuthIdentity := mkAuthIdentity (ss_UserID s) (ss_SID s) (ss_UserAuthVersion s) (ss_Version s).
Definition issueAuthBundle (session : UserSession) (rawRefreshToken : string) (current : bool) : program AuthBundle :=
  issued ← IssueAccessToken (identity_of session);
  mret (mkAuthBundle issued.1 "Bearer" issued.2 (sessionView session current) rawRefreshToken).

(** ** Sessions *)

Section Service.
(** [RedisEnabled], the time to live of the caches, the rounds of a bulk
    revocation. *)
Context (redis : bool) (cacheSeconds : Z) (fuel : nat).
(** [UserSessionActiveLimit], [UserSessionIssuanceLimit],
    [UserSessionIssuanceWindowSeconds]. *)
Context (activeLimit issuanceLimit issuanceWindow : Z).

(** Of a new identifier and a random secret, if there is one. *)
Definition newLoginSession (sid : string) (random : result string) (userID authVersion : Z) (loginMethod ip userAgent : string)
  : program (UserSession * string) :=
  match random with
  | inl err => fail err
  | inr secret =>
      clock ← on_sessions now;
      let time := unix clock in
      let method := trim_space loginMethod in
      mret (mkUserSession sid userID 1 authVersion UserSessionStatusActive (hashRefreshSecret secret) "" 0
              (if str_eqb method "" then "unknown" else method) (truncateAuthMetadata ip 64) (truncateAuthMetadata userAgent 512)
              time time (time + LoginSessionTTL) 0 "", secret)
  end.

Definition createLoginSession (sid : string) (random : result string) (userID expectedAuthVersion : Z) (loginMethod ip userAgent : string)
  : program AuthBundle :=
  user ← on_user userID (GetUserCache redis userID);
  if negb (ub_Status user =? UserStatusEnabled) || (ub_AuthVersion user <=? 0) then fail ErrLoginSessionInvalid else
  if (0 <? expectedAuthVersion) && negb (ub_AuthVersion user =? expectedAuthVersion) then fail ErrLoginSessionRevoked else
  clock ← on_sessions now;
  let time := unix clock in
  activeCount ← on_sessions (CountActiveUserSessions userID time);
  if activeLimit <=? activeCount then fail ErrUserSessionLimit else
  issuanceCount ← on_sessions (CountUserSessionsCreatedSince userID (time - issuanceWindow));
  if issuanceLimit <=? issuanceCount then fail ErrUserSessionIssuanceLimit else
  made ← newLoginSession sid random userID (ub_AuthVersion user) loginMethod ip userAgent;
  session ← on_sessions (CreateUserSession redis cacheSeconds made.1);
  issued ← attempted (issueAuthBundle session (refreshToken (ss_SID session) made.2) true);
  match issued with
  | inl err => attempted (on_sessions (RevokeUserSession redis cacheSeconds userID (ss_SID session) "token_issue_failed")) ;; fail err
  | inr bundle => mret bundle
  end.
Definition CreateLoginSession (sid : string) (random : result string) (userID : Z) (loginMethod ip userAgent : string) : program AuthBundle :=
  createLoginSession sid random userID 0 loginMethod ip userAgent.
Definition CreateLoginSessionAtAuthVersion (sid : string) (random : result string) (userID expectedAuthVersion : Z) (loginMethod ip userAgent : string)
  : program AuthBundle :=
  if expectedAuthVersion <=? 0 then fail ErrLoginSessionInvalid
  else createLoginSession sid random userID expectedAuthVersion loginMethod ip userAgent.

(** [session, err := GetUserSessionCached(...)], where an inactive session is a
    revoked one and other errors are [other]. *)
Definition cached_session (sid : string) (other : Err -> Err) : program UserSession :=
  found ← attempted (on_sessions (GetUserSessionCached redis cacheSeconds sid));
  match found with
  | inr session => mret session
  | inl err => fail (if is_err err ErrUserSessionInactive then ErrLoginSessionRevoked else other err)
  end.

Definition ValidateLoginSession (identity : AuthIdentity) : program (UserSession * UserBase) :=
  session ← cached_session (ai_SessionID identity) id;
  clock ← on_sessions now;
  if negb (ss_UserID session =? ai_UserID identity) || negb (is_active session (unix clock)) ||
     negb (ss_Version session =? ai_SessionVersion identity) || negb (ss_UserAuthVersion session =? ai_UserAuthVersion identity)
  then fail ErrLoginSessionRevoked else
  user ← on_user (ai_UserID identity) (GetUserCache redis (ai_UserID identity));
  if negb (ub_Status user =? UserStatusEnabled) || negb (ub_AuthVersion user =? ai_UserAuthVersion identity)
  then fail ErrLoginSessionRevoked else mret (session, user).

Definition ValidateSessionReference (userID : Z) (sid : string) : program AuthIdentity :=
  if (userID <=? 0) || str_eqb (trim_space sid) "" then fail ErrLoginSessionInvalid else
  session ← on_sessions (GetUserSessionCached redis cacheSeconds sid);
  let identity := mkAuthIdentity userID sid (ss_UserAuthVersion session) (ss_Version session) in
  ValidateLoginSession identity ;; mret identity.

Definition advanceCurrentSessionToVersion (identity : AuthIdentity) (nextUserAuthVersion : Z) (reason : string) : program AuthBundle :=
  session ← on_sessions (AdvanceUserSessionAuthVersion redis cacheSeconds (ai_UserID identity) (ai_SessionID identity)
              (ai_SessionVersion identity) (ai_UserAuthVersion identity) nextUserAuthVersion);
  on_sessions (RevokeOtherUserSessions redis cacheSeconds fuel (ai_UserID identity) (ai_SessionID identity) reason) ;;
  issueAuthBundle session "" true.
Definition AdvanceCurrentSessionSecurity (identity : AuthIdentity) (reason : string) : program AuthBundle :=
  row ← on_user (ai_UserID identity) (BumpUserAuthVersion redis (ai_UserID identity));
  advanceCurrentSessionToVersion identity (us_AuthVersion row) reason.
Definition AdvanceCurrentSessionToUserVersion (identity : AuthIdentity) (reason : string) : program AuthBundle :=
  user ← on_user (ai_UserID identity) (GetUserCache redis (ai_UserID identity));
  if negb (ub_Status user =? UserStatusEnabled) || (ub_AuthVersion user <=? ai_UserAuthVersion identity) then fail ErrLoginSessionRevoked
  else advanceCurrentSessionToVersion identity (ub_AuthVersion user) reason.

Definition GetSelfUserById (id : Z) : prog World (result UserRow) := if id =? 0 then fail (EText "id 为空！") else read_live id.

(** The token that was presented, and what it was exchanged for. *)
Definition mismatched (expectedSID sid : string) : bool :=
  let expectedSID := trim_space expectedSID in negb (str_eqb expectedSID "") && negb (str_eqb expectedSID sid).
(** The end of [RefreshLoginSession], for the answer of the rotation. *)
Definition exchange (sid nextSecret ip userAgent : string) (rotation : result RotationAnswer) : program AuthBundle :=
  match rotation with
  | inr (rotated, true) =>
      if str_eqb (hashRefreshSecret nextSecret) (ss_RefreshHash rotated) then issueAuthBundle rotated (refreshToken sid nextSecret) true
      else fail ErrRefreshRace
  | inl err =>
      if is_err err ErrUserSessionRefreshReuse then fail ErrLoginSessionRevoked
      else if is_err err ErrUserSessionRefreshInvalid then fail ErrRefreshTokenInvalid else fail err
  | inr (rotated, false) =>
      issueAuthBundle (rotated <| ss_IP := truncateAuthMetadata ip 64 |> <| ss_UserAgent := truncateAuthMetadata userAgent 512 |>)
        (refreshToken sid nextSecret) true
  end.
Definition refresh_secret (sid secret ip userAgent : string) : program (AuthBundle * UserRow) :=
  session ← cached_session sid (fun _ => ErrRefreshTokenInvalid);
  clock ← on_sessions now;
  if negb (is_active session (unix clock)) then fail ErrLoginSessionRevoked else
  userCache ← on_user (ss_UserID session) (GetUserCache redis (ss_UserID session));
  currentUser ← on_user (ss_UserID session) (GetSelfUserById (ss_UserID session));
  if negb (ub_Status userCache =? UserStatusEnabled) || negb (ub_AuthVersion userCache =? ss_UserAuthVersion session) ||
     negb (us_Status currentUser =? UserStatusEnabled) || negb (us_AuthVersion currentUser =? ss_UserAuthVersion session) then
    attempted (on_sessions (RevokeUserSession redis cacheSeconds (ss_UserID session) (ss_SID session) "user_security_changed")) ;;
    fail ErrLoginSessionRevoked
  else
    let nextSecret := deriveNextRefreshSecret sid secret in
    clock ← on_sessions now;
    rotation ← attempted (on_sessions (RotateUserSessionRefresh redis cacheSeconds (ss_UserID session) sid (hashRefreshSecret secret)
                 (hashRefreshSecret nextSecret) (unix clock) RefreshReplayWindow));
    bundle ← exchange sid nextSecret ip userAgent rotation;
    mret (bundle, currentUser).
Definition RefreshLoginSession (rawRefreshToken expectedSID ip userAgent : string) : program (AuthBundle * UserRow) :=
  match splitRefreshToken rawRefreshToken with
  | None => fail ErrRefreshTokenInvalid
  | Some (sid, secret) =>
      if mismatched expectedSID sid then fail ErrLoginSessionMismatch else refresh_secret sid secret ip userAgent
  end.
Definition RevokeByRefreshToken (rawRefreshToken expectedSID reason : string) : program bool :=
  match splitRefreshToken rawRefreshToken with
  | None => mret false
  | Some (sid, secret) =>
      if mismatched expectedSID sid then fail ErrLoginSessionMismatch
      else on_sessions (RevokeUserSessionByRefreshHash redis cacheSeconds sid (hashRefreshSecret secret) reason)
  end.

(** ** Listing *)

(** [ORDER BY last_active_at DESC, created_at DESC] *)
Definition newest_first (a b : UserSession) : Prop :=
  ss_LastActiveAt b < ss_LastActiveAt a \/ (ss_LastActiveAt b = ss_LastActiveAt a /\ ss_CreatedAt b <= ss_CreatedAt a).
#[local] Instance newest_first_dec : RelDecision newest_first := fun a b => ltac:(unfold newest_first; apply _).
Definition listed (userID authVersion time : Z) (s : UserSession) : bool :=
  of_user userID s && (ss_UserAuthVersion s =? authVersion) && with_status UserSessionStatusActive s && (time <? ss_ExpiresAt s).
Definition find_sessions (n : nat) (cond : UserSession -> bool) : prog Sessions (result (list UserSession)) :=
  sql (fun w => (inr (map AfterFind (take n (merge_sort newest_first (List.filter cond (rows w))))), w)).
(** Zero if there is no such user. *)
Definition auth_version_of (userID : Z) : prog World (result Z) :=
  sql (fun w => (inr (match w_row w with Some r => if (us_Id r =? userID) && negb (us_deleted r) then us_AuthVersion r else 0 | None => 0 end), w)).
Definition ListActiveUserSessions (userID : Z) (currentSID : string) (time : Z) : program (list UserSession) :=
  if userID <=? 0 then fail ErrUserSessionInvalid else
  time ← (if time <=? 0 then clock ← on_sessions now; mret (unix clock) else mret time);
  authVersion ← on_user userID (auth_version_of userID);
  if authVersion <=? 0 then fail ErrUserSessionInvalid else
  current ← (if str_eqb currentSID "" then mret []
             else on_sessions (find_sessions 1 (fun s => listed userID authVersion time s && str_eqb (ss_SID s) currentSID)));
  others ← on_sessions (find_sessions (userSessionListLimit - length current)
             (fun s => listed userID authVersion time s && (str_eqb currentSID "" || negb (str_eqb (ss_SID s) currentSID))));
  mret (current ++ others).
Definition ListLoginSessions (userID : Z) (currentSID : string) : program (list LoginSessionView) :=
  clock ← on_sessions now;
  sessions ← ListActiveUserSessions userID currentSID (unix clock);
  mret (map (fun s => sessionView s (str_eqb (ss_SID s) currentSID)) sessions).

(** ** Changes of rights, in full ([src/model/user.go])

    Each ends the user's sessions after what [UserCache] says of it. *)

Context (hash_password : string -> result string).

Definition end_sessions (userId : Z) (reason : string) : program unit :=
  _ ← on_sessions (RevokeAllUserSessions redis cacheSeconds fuel userId reason); mret tt.
Definition Update (user : UserRow) (updatePassword : bool) : program UserRow :=
  previousAuthVersion ← on_user (us_Id user) (auth_version_of (us_Id user));
  row ← on_user (us_Id user) (user_Update redis hash_password user updatePassword);
  (if previousAuthVersion <? us_AuthVersion row then end_sessions (us_Id user) "user_security_changed" else mret tt) ;; mret row.
Definition Edit (user : UserRow) (updatePassword : bool) : program UserRow :=
  previousAuthVersion ← on_user (us_Id user) (auth_version_of (us_Id user));
  row ← on_user (us_Id user) (user_Edit redis hash_password user updatePassword);
  (if previousAuthVersion <? us_AuthVersion row then end_sessions (us_Id user) "user_security_changed" else mret tt) ;; mret row.
Definition Delete (userId : Z) : program UserRow :=
  if userId =? 0 then fail (EText "id 为空！") else
  row ← on_user userId (row ← auth_transaction redis userId (Rewrite false (fun r => r <| us_deleted := true |>));
                        publishCommittedUserAuthVersion redis userId (us_AuthVersion row) ;; mret row);
  end_sessions userId "user_deleted" ;;
  on_user userId (invalidateUserCache redis) ;;
  mret row.
(** The transaction that deletes the user deletes the rows of his sessions
    ([deleteUserAuthenticationData]); they get no tombstone.  What fails after it
    is only logged. *)
Definition hard_delete_statement (userId expected next : Z) (a : Accounts) : result (option UserRow) * Accounts :=
  let '(answer, w) := cas_statement userId expected next Remove (get_user userId a) in
  let a := set_user userId w a in
  match answer with
  | inr (Some _) => (answer, set_sessions (on_rows (of_user userId) (delete_slot (s_clock (a_sessions a))) (a_sessions a)) a)
  | _ => (answer, a)
  end.
Fixpoint hard_delete_attempts (n : nat) (userId : Z) : program UserRow :=
  match n with
  | O => fail ErrUserAuthVersionConflict
  | S n =>
      user ← on_user userId (read_unscoped userId);
      let next := Z.max 1 (us_AuthVersion user) + 1 in
      on_user userId (SetUserAuthVersionFence redis userId next) ;;
      updated ← sql (hard_delete_statement userId (us_AuthVersion user) next);
      match updated with Some row => mret row | None => hard_delete_attempts n userId end
  end.
Definition HardDelete (userId : Z) : program (UserRow * result unit) :=
  if userId =? 0 then fail (EText "id 为空！") else
  row ← (if userId <=? 0 then fail (EText "invalid user auth version update") else hard_delete_attempts 3 userId);
  published ← attempted (on_user userId (publishCommittedUserAuthVersion redis userId (us_AuthVersion row)));
  attempted (on_user userId (invalidateUserCache redis)) ;;
  mret (row, published).
(** [ResetUserPasswordByEmail], of the user it found. *)
Definition reset_password (userId : Z) (password : string) : program UserRow :=
  match hash_password password with
  | inl err => fail err
  | inr h =>
      row ← on_user userId (auth_change redis userId (fun r => r <| us_Password := h |>));
      end_sessions userId "password_reset" ;; mret row
  end.
End Service.
End Tokens.

(** ** Answers *)

Definition authSessionErrorCode (err : Err) : Z * string :=
  if is_err err ErrUserSessionLimit then (409, "AUTH_SESSION_LIMIT"%string)
  else if is_err err ErrUserSessionIssuanceLimit then (429, "AUTH_SESSION_ISSUANCE_LIMIT"%string)
  else if is_err err ErrLoginSessionMismatch then (409, "AUTH_SESSION_MISMATCH"%string)
  else if is_err err ErrRefreshRace then (409, "AUTH_REFRESH_RACE"%string)
  else if is_err err ErrAuthTokenExpired then (401, "AUTH_TOKEN_EXPIRED"%string)
  else if is_err err ErrLoginSessionRevoked then (401, "AUTH_SESSION_REVOKED"%string)
  else if is_err err ErrRefreshTokenInvalid || is_err err ErrAuthTokenInvalid then (401, "AUTH_UNAUTHORIZED"%string)
  else (500, "AUTH_INTERNAL_ERROR"%string).
