(* ===== verification/SessionClients.v ===== *)
(** * Everything that runs on sessions

    The requests to the dashboard, with ghost notes of what had been reported
    when each began and what it answered; all other functions of [LoginSessions],
    and everything that runs on users.  Every one of them stays within the
    invariant of [SessionFacts], so that every run does. *)

From stdpp Require Import base numbers option strings list gmap relations.
From Stdlib Require Import ZArith Lia.
From S2P Require Import Prelude Store Interleave Marked UserCache UserCacheFacts UserUpdates UserCacheTheorems Sessions SessionFacts Focus Topology SessionTopology LoginSessions.
Open Scope Z_scope.

(** ** What a caller sees *)

Section Callers.
Context (uuid_ok : string -> bool) (hmac : string -> string -> string) (hex : string -> string) (sign : AuthIdentity -> Z -> result string)
  (SessionSecret : string) (redis : bool) (cacheSeconds : Z).

(** What had been reported when a request began: of the session, and of the
    rights of the user. *)
Record Begun := mkBegun { bg_clock : Z; bg_reported : bool; bg_rotations : nat; bg_acknowledged : Z }.
Definition begun (sid : string) (userID : Z) (a : Accounts) : Begun :=
  let s := slot sid (a_sessions a) in
  mkBegun (s_clock (a_sessions a)) (sl_reported s) (sl_rotations s) (w_acknowledged (a_users a userID)).

(** A request with an access token. *)
Definition note_accepted (identity : AuthIdentity) (b : Begun) (a : Accounts) : unit * Accounts :=
  (tt, a <| a_sessions ::= fun w => w <| s_served ::= cons (mkServed (ai_SessionID identity) (bg_clock b) (bg_reported b)) |> |>
         <| a_accepted ::= cons (bg_acknowledged b, identity) |>).
Definition access (identity : AuthIdentity) : prog Accounts unit :=
  prog_bind (note (fun a => (begun (ai_SessionID identity) (ai_UserID identity) a, a))) (fun b =>
  prog_bind (ValidateLoginSession redis cacheSeconds identity) (fun r =>
  match r with inr _ => note (note_accepted identity b) | inl _ => Done tt end)).

(** A refresh: the token that was handed out. *)
Definition note_handed (sid token : string) (b : Begun) (a : Accounts) : unit * Accounts :=
  (tt, a <| a_sessions ::= fun w => w <| s_handed ::= cons (mkHanded sid token (bg_rotations b) (bg_clock b)) |>
                                      <| s_served ::= cons (mkServed sid (bg_clock b) (bg_reported b)) |> |>).
Definition refresh (raw expectedSID ip userAgent : string) : prog Accounts unit :=
  let sid := default EmptyString (RefreshTokenSID uuid_ok raw) in
  prog_bind (note (fun a => (begun sid 0 a, a))) (fun b =>
  prog_bind (RefreshLoginSession uuid_ok hmac hex sign SessionSecret redis cacheSeconds raw expectedSID ip userAgent) (fun r =>
  match r with
  | inr (bundle, _) => note (note_handed sid (ab_RefreshToken bundle) b)
  | inl _ => Done tt
  end)).

(** The revocation of sessions is reported. *)
Definition note_gone (sids : string -> bool) (a : Accounts) : unit * Accounts :=
  (tt, a <| a_sessions ::= fun w => w <| s_slots ::= map_imap (fun sid s => Some (if sids sid then report_slot redis s else s)) |> |>).
Definition report_revoked (sid : string) (p : program bool) : prog Accounts unit :=
  prog_bind p (fun r => match r with inr true => note (note_gone (str_eqb sid)) | _ => Done tt end).
(** All sessions of the user, but one. *)
Definition concerned (userID : Z) (excludedSID : string) (a : Accounts) : string -> bool :=
  fun sid => let s := slot sid (a_sessions a) in
    sl_born s && (sl_user s =? userID) && (str_eqb excludedSID "" || negb (str_eqb sid excludedSID)).
(** That they, as there were when it began, are ended. *)
Definition report_bulk {A} (userID : Z) (excludedSID : string) (p : program A) (after : A -> prog Accounts unit) : prog Accounts unit :=
  prog_bind (note (fun a => (concerned userID excludedSID a, a))) (fun sids =>
  prog_bind p (fun r => match r with inr x => prog_bind (note (note_gone sids)) (fun _ => after x) | inl _ => Done tt end)).
(** A change of a user's rights is reported; a hard deletion is even when its
    publication failed. *)
Definition report_rights (userID : Z) (row : UserRow) : prog Accounts unit := on_user userID (acknowledge row).
Definition report_hard (userID : Z) (p : program (UserRow * result unit)) : prog Accounts unit :=
  prog_bind p (fun r => match r with inr (row, published) => on_user userID (acknowledge_hard row published) | inl _ => Done tt end).
End Callers.

(** Everything that runs. *)
Section Clients.
Context (uuid_ok : string -> bool) (hmac : string -> string -> string) (hex : string -> string) (sign : AuthIdentity -> Z -> result string)
  (SessionSecret : string) (redis : bool) (cacheSeconds : Z) (hash_password : string -> result string).

Inductive dashboard : prog Accounts unit -> Prop :=
| dash_access identity : dashboard (access redis cacheSeconds identity)
| dash_refresh raw expectedSID ip userAgent :
    dashboard (refresh uuid_ok hmac hex sign SessionSecret redis cacheSeconds raw expectedSID ip userAgent)
| dash_reference userID sid : dashboard (ignored (ValidateSessionReference redis cacheSeconds userID sid))
| dash_sign_in limit issuance window sid random userID version method ip userAgent :
    dashboard (ignored (createLoginSession hmac hex sign SessionSecret redis cacheSeconds limit issuance window sid random userID version method ip userAgent))
| dash_revoke userID sid reason : dashboard (report_revoked redis sid (on_sessions (RevokeUserSession redis cacheSeconds userID sid reason)))
| dash_log_out raw expectedSID reason sid secret : splitRefreshToken uuid_ok raw = Some (sid, secret) ->
    dashboard (report_revoked redis sid (RevokeByRefreshToken uuid_ok hmac hex SessionSecret redis cacheSeconds raw expectedSID reason))
| dash_revoke_others fuel userID sid reason :
    dashboard (report_bulk redis userID sid (on_sessions (RevokeOtherUserSessions redis cacheSeconds fuel userID sid reason)) (fun _ => Done tt))
| dash_revoke_all fuel userID reason :
    dashboard (report_bulk redis userID "" (on_sessions (RevokeAllUserSessions redis cacheSeconds fuel userID reason)) (fun _ => Done tt))
| dash_advance fuel identity reason :
    dashboard (report_bulk redis (ai_UserID identity) (ai_SessionID identity)
                 (AdvanceCurrentSessionSecurity sign redis cacheSeconds fuel identity reason) (fun _ => Done tt))
| dash_advance_to fuel identity reason :
    dashboard (report_bulk redis (ai_UserID identity) (ai_SessionID identity)
                 (AdvanceCurrentSessionToUserVersion sign redis cacheSeconds fuel identity reason) (fun _ => Done tt))
| dash_reset fuel userID password :
    dashboard (report_bulk redis userID "" (reset_password redis cacheSeconds fuel hash_password userID password) (report_rights userID))
| dash_delete fuel userID : dashboard (report_bulk redis userID "" (Delete redis cacheSeconds fuel userID) (report_rights userID))
| dash_hard_delete userID : dashboard (report_hard userID (HardDelete redis userID))
| dash_update fuel user updatePassword :
    dashboard (prog_bind (Update redis cacheSeconds fuel hash_password user updatePassword)
                 (fun r => match r with inr row => report_rights (us_Id user) row | inl _ => Done tt end))
| dash_edit fuel user updatePassword :
    dashboard (prog_bind (Edit redis cacheSeconds fuel hash_password user updatePassword)
                 (fun r => match r with inr row => report_rights (us_Id user) row | inl _ => Done tt end))
| dash_list userID sid : dashboard (ignored (ListLoginSessions userID sid))
| dash_clean_expired days window fuel time : dashboard (ignored (on_sessions (DeleteExpiredUserSessions days window fuel time)))
| dash_clean_revoked days window fuel time : dashboard (ignored (on_sessions (DeleteOldRevokedUserSessions days window fuel time)))
| dash_user userID p : actor redis hash_password userID p -> dashboard (on_user userID p).

(** The clock of Redis and of the nodes moves on; keys of users expire. *)
Inductive passes (a : Accounts) : Accounts -> Prop :=
| clock_passes t : s_clock (a_sessions a) <= t -> passes a (a <| a_sessions ::= fun w => w <| s_clock := t |> |>)
| user_expires userID w : expires (a_users a userID) w -> passes a (set_user userID w a).
End Clients.

(** No sessions yet. *)
Definition no_sessions (users : Z -> World) (clock : Z) : Accounts := mkAccounts users (mkSessions clock ∅ [] []) [].

(** Nodes on different Redis instances. *)
Definition adopt_accounts (db a : Accounts) : Accounts :=
  mkAccounts (fun id => adopt_user (a_users db id) (a_users a id)) (adopt_sessions (a_sessions db) (a_sessions a)) (a_accepted a).
Section Clusters.
Context (uuid_ok : string -> bool) (hmac : string -> string -> string) (hex : string -> string) (sign : AuthIdentity -> Z -> result string)
  (SessionSecret : string) (cacheSeconds : Z) (hash_password : string -> result string).
(** What nodes run, where [redis] says which Redis is enabled; an instance that
    is not is that of the nodes without one. *)
Definition dashboards {R : Type} (redis : R -> bool) (j : R) : prog Accounts unit -> Prop :=
  dashboard uuid_ok hmac hex sign SessionSecret (redis j) cacheSeconds hash_password.
Definition dashboard_steps {R : Type} `{EqDecision R} (redis : R -> bool) : Pool (R -> Accounts) -> Pool (R -> Accounts) -> Prop :=
  rtc (pool_step (cluster_tick adopt_accounts passes) (cluster_starts adopt_accounts (dashboards redis))).
End Clusters.

(** ** The sessions, whatever happens to the users *)

Section SessionSide.
Context (uuid_ok : string -> bool) (hmac : string -> string -> string) (hex : string -> string) (sign : AuthIdentity -> Z -> result string)
  (SessionSecret : string) (redis : bool) (cacheSeconds : Z) (hash_password : string -> result string).
Abbreviation hash := (hashRefreshSecret hmac hex SessionSecret).
Abbreviation next := (deriveNextRefreshSecret hmac hex SessionSecret).

Abbreviation s_core := (core redis cacheSeconds hash next).
Abbreviation s_ok := (mok never s_core grows).
Definition acore (a : Accounts) : Prop := s_core (a_sessions a).
Definition agrows (a b : Accounts) : Prop := grows (a_sessions a) (a_sessions b).
#[local] Instance agrows_preorder : PreOrder agrows.
Proof. split; [intros a; apply grows_preorder|]. intros a b c. apply grows_preorder. Qed.
Abbreviation aok := (mok never acore agrows).
Abbreviation athread := (thread_safe (until never acore) (until_step never agrows) (until_step never agrows)).

Lemma on_sessions_ok {A} (p : P Sessions A) R a : s_ok p R (a_sessions a) -> aok (on_sessions p) (fun x a' => R x (a_sessions a')) a.
Proof.
  intros Hp.
  apply (safe_mono (until never acore) (until_step never agrows) (until_step never agrows) until_trans (on_sessions p)
    (fun x a' => answers (fun y s => never s = false -> R y s) x (a_sessions a'))); [by intros [err|x] a' _ _ | done|].
  exact (focus_safe a_sessions set_sessions (fun _ _ => eq_refl) (until never s_core) (until never acore) (until_step never grows)
    (until_step never grows) p (answers (fun y s => never s = false -> R y s)) a (fun _ H => H) (fun _ _ _ H _ => H) Hp).
Qed.
Lemma on_sessions_any {A} (p : P Sessions A) R a : s_ok p R (a_sessions a) -> aok (on_sessions p) anything a.
Proof. intros Hp. apply (on_sessions_ok p anything). by eapply mok_mono, Hp. Qed.
Lemma on_user_ok {A} userID (p : P World A) a : aok (on_user userID p) anything a.
Proof.
  refine (focus_elsewhere (get_user userID) (set_user userID) a_sessions (until never acore) (until_step never grows) (until_step never grows)
    p (answers (fun _ a' => never a' = false -> True)) a (fun _ _ => eq_refl) (fun _ _ H => H) (fun _ => until_refl _) _).
  by intros [err|x] a'.
Qed.
Lemma on_user_thread userID (p : prog World unit) a : athread (on_user userID p) a.
Proof.
  exact (focus_elsewhere (get_user userID) (set_user userID) a_sessions (until never acore) (until_step never grows) (until_step never grows)
    p (fun _ _ => True) a (fun _ _ => eq_refl) (fun _ _ H => H) (fun _ => until_refl _) (fun _ _ => I)).
Qed.

Lemma anow_ok a : aok (on_sessions now) (fun t a' => s_clock (a_sessions a) <= t <= s_clock (a_sessions a')) a.
Proof. exact (on_sessions_ok now _ a (now_ok _ _ _ _ _)). Qed.
Lemma issue_ok s raw current a : acore a -> aok (issueAuthBundle sign s raw current) (fun b _ => ab_RefreshToken b = raw) a.
Proof.
  intros Hc. eapply (always_bind _ _ anything); [| |done].
  - apply mok_if; [apply always_fail|]. eapply always_bind; [apply anow_ok | |done]. intros t a1 _ _ _.
    destruct (sign _ t) as [err|token]; [apply always_fail | by apply always_ret].
  - intros issued a1 _ _ _. by apply always_ret.
Qed.

Definition apending (sid : string) (b : Begun) (a : Accounts) : Prop := pending sid (bg_clock b) (bg_reported b) (a_sessions a).
Lemma cached_session_ok sid other b a :
  acore a -> apending sid b a ->
  aok (cached_session redis cacheSeconds sid other)
    (fun s a' => ss_SID s = sid /\ served_ok redis cacheSeconds sid (bg_clock b) (bg_reported b) (a_sessions a')) a.
Proof.
  intros Hc Hp. eapply always_bind; [apply always_attempted; [apply on_sessions_ok, GetUserSessionCached_ok; [exact Hc | exact Hp] | done] | |done].
  intros [err|s] a1 _ _ Hs; [apply always_fail|]. apply always_ret. intros a2 Hg _. destruct Hs as [? Hs]. split; [done|].
  by eapply served_grows; [exact Hg|].
Qed.
Lemma Validate_session_ok identity b a :
  acore a -> apending (ai_SessionID identity) b a ->
  aok (ValidateLoginSession redis cacheSeconds identity)
    (fun _ a' => served_ok redis cacheSeconds (ai_SessionID identity) (bg_clock b) (bg_reported b) (a_sessions a')) a.
Proof.
  intros Hc Hp. eapply always_bind; [by apply cached_session_ok | |done]. intros s a1 _ Hc1 [_ Hs].
  eapply always_bind; [apply anow_ok | |done]. intros t a2 Hg2 Hc2 _. apply mok_if; [apply always_fail|].
  eapply always_bind; [apply on_user_ok | |done]. intros u a3 Hg3 _ _. apply mok_if; [apply always_fail|].
  apply always_ret. intros a4 Hg4 _. eapply served_grows; [|exact Hs]. etrans; [exact Hg2|]. etrans; [exact Hg3 | exact Hg4].
Qed.

(** ** Refreshing *)

Definition handed_token (sid token : string) (b : Begun) (a : Accounts) : Prop :=
  exists secret, token = (sid ++ "." ++ secret)%string /\
    handed_ok hash next sid secret (bg_rotations b) (bg_clock b) (a_sessions a).
Lemma handed_token_grows sid token b a a' : agrows a a' -> handed_token sid token b a -> handed_token sid token b a'.
Proof. intros Hg (secret & ? & H). exists secret. split; [done|]. by eapply handed_grows. Qed.

Lemma exchange_ok sid secret ip userAgent b r a :
  acore a ->
  (forall x, r = inr x -> rotation_ok hash next sid secret (bg_rotations b) (bg_clock b) x (a_sessions a)) ->
  aok (exchange hmac hex sign SessionSecret sid (next sid secret) ip userAgent r) (fun bundle a' => handed_token sid (ab_RefreshToken bundle) b a') a.
Proof.
  intros Hc Hr.
  assert (forall s a, acore a -> hands hash next sid secret (bg_rotations b) (bg_clock b) (a_sessions a) ->
    aok (issueAuthBundle sign s (refreshToken sid (next sid secret)) true) (fun bundle a' => handed_token sid (ab_RefreshToken bundle) b a') a) as Hissue.
  { intros s a0 Hc0 Hh. eapply always_after; [|by apply issue_ok]. intros bundle a1 Hg1 _ ->. exists (next sid secret). split; [done|].
    by eapply handed_grows. }
  destruct r as [err|[rotated [|]]]; cbn [exchange].
  - repeat (apply mok_if; [apply always_fail|]). apply always_fail.
  - apply mok_case; [|intros; apply always_fail]. intros E%str_eqb_true. apply Hissue; [done|]. apply (Hr _ eq_refl). by right.
  - apply Hissue; [done|]. apply (Hr _ eq_refl). by left.
Qed.
Lemma refresh_secret_ok sid secret ip userAgent b a :
  acore a -> apending sid b a -> (bg_rotations b <= sl_rotations (slot sid (a_sessions a)))%nat ->
  aok (refresh_secret hmac hex sign SessionSecret redis cacheSeconds sid secret ip userAgent)
    (fun r a' => handed_token sid (ab_RefreshToken r.1) b a' /\
       served_ok redis cacheSeconds sid (bg_clock b) (bg_reported b) (a_sessions a')) a.
Proof.
  intros Hc [Hb Hp] Hn. eapply always_bind; [by apply (cached_session_ok sid _ b) | |done]. intros s a1 Hg1 Hc1 [_ Hs].
  eapply always_bind; [apply anow_ok | |done]. intros t a2 Hg2 Hc2 _. apply mok_if; [apply always_fail|].
  eapply always_bind; [apply on_user_ok | |done]. intros u a3 Hg3 Hc3 _.
  eapply always_bind; [apply on_user_ok | |done]. intros row a4 Hg4 Hc4 _. apply mok_if.
  { eapply always_seq; [apply always_try; [eapply on_sessions_any; by apply Revoke_ok|done] | intros; apply always_fail | done]. }
  eapply always_bind; [apply anow_ok | |done]. intros t2 a5 Hg5 Hc5 _.
  assert (agrows a a5) as Hg by (repeat (etrans; [eassumption|]); reflexivity).
  eapply always_bind; [apply always_attempted; [apply on_sessions_ok|done] | |done].
  { apply (Rotate_ok redis cacheSeconds hash next sid secret _ _ _ (bg_rotations b) (bg_clock b)); [done | destruct Hg; lia|].
    destruct Hg as [_ Hg]. destruct (Hg sid) as (_ & _ & _ & ? & _). lia. }
  intros r a6 Hg6 Hc6 Hr. eapply always_bind; [apply (exchange_ok sid secret ip userAgent b r); [done|] | |done].
  { intros x ->. exact Hr. }
  intros bundle a7 Hg7 Hc7 Hh. apply always_ret. intros a8 Hg8 _. split; [by eapply handed_token_grows|].
  eapply served_grows; [|exact Hs]. assert (agrows a1 a8) as H by (repeat (etrans; [eassumption|]); reflexivity). exact H.
Qed.
Lemma Refresh_ok sid raw expectedSID ip userAgent b a :
  sid = default EmptyString (RefreshTokenSID uuid_ok raw) ->
  acore a -> apending sid b a -> (bg_rotations b <= sl_rotations (slot sid (a_sessions a)))%nat ->
  aok (RefreshLoginSession uuid_ok hmac hex sign SessionSecret redis cacheSeconds raw expectedSID ip userAgent)
    (fun r a' => handed_token sid (ab_RefreshToken r.1) b a' /\
       served_ok redis cacheSeconds sid (bg_clock b) (bg_reported b) (a_sessions a')) a.
Proof.
  unfold RefreshTokenSID, RefreshLoginSession. intros Hsid Hc Hp Hn. destruct (splitRefreshToken uuid_ok raw) as [[s secret]|]; [|apply always_fail].
  cbn in Hsid. subst s. apply mok_if; [apply always_fail|]. by apply refresh_secret_ok.
Qed.

(** ** The other functions *)

Lemma sign_in_ok limit issuance window sid random userID version method ip userAgent a :
  acore a -> aok (createLoginSession hmac hex sign SessionSecret redis cacheSeconds limit issuance window sid random userID version method ip userAgent) anything a.
Proof.
  intros Hc. eapply always_bind; [apply on_user_ok | |done]. intros u a1 _ Hc1 _. repeat (apply mok_if; [apply always_fail|]).
  eapply always_bind; [apply anow_ok | |done]. intros t a2 _ Hc2 _.
  assert (forall cond a, acore a -> aok (on_sessions (count_rows cond)) anything a) as Hcount.
  { intros cond a0 _. apply (on_sessions_ok _ anything). by apply always_read. }
  eapply (always_bind _ _ anything); [| |done].
  { apply (on_sessions_ok _ anything). apply mok_if; [apply always_fail|]. eapply (always_bind _ _ anything); [| |done].
    - apply mok_if; [|by apply always_ret]. eapply always_bind; [apply now_ok | intros; by apply always_ret | done].
    - intros; by apply always_read. }
  intros n a3 _ Hc3 _. apply mok_if; [apply always_fail|]. eapply (always_bind _ _ anything); [| |done].
  { apply (on_sessions_ok _ anything). apply mok_if; [apply always_fail|]. by apply always_read. }
  intros n2 a4 _ Hc4 _. apply mok_if; [apply always_fail|].
  eapply (always_bind _ _ (fun m _ => exists first, ss_RefreshHash m.1 = hash first)); [| |done].
  { destruct random as [err|secret]; [apply always_fail|]. eapply always_bind; [apply anow_ok | |done]. intros t5 a5 _ _ _.
    apply always_ret. intros a6 _ _. by exists secret. }
  intros made a5 _ Hc5 [first Hf]. eapply (always_bind _ _ anything); [apply (on_sessions_ok _ anything); by apply (Create_ok _ _ _ _ _ first) | |done].
  intros s a6 _ Hc6 _. eapply (always_bind _ _ anything); [apply always_try; [|done] | |done].
  { eapply mok_mono; [|by apply issue_ok]. done. }
  intros [err|bundle] a7 _ Hc7 _; [|by apply always_ret].
  eapply always_seq; [apply always_try; [|done] | intros; apply always_fail | done]. eapply on_sessions_any; by apply Revoke_ok.
Qed.
Lemma reference_ok userID sid a : acore a -> aok (ValidateSessionReference redis cacheSeconds userID sid) anything a.
Proof.
  intros Hc. apply mok_if; [apply always_fail|].
  assert (forall sid a, apending sid (mkBegun (s_clock (a_sessions a)) false 0 0) a) as Hp by done.
  eapply (always_bind _ _ anything); [eapply on_sessions_any, GetUserSessionCached_ok; [exact Hc | exact (Hp sid a)] | |done].
  intros s a1 _ Hc1 _. eapply always_seq; [eapply mok_mono; [|exact (Validate_session_ok (mkAuthIdentity _ _ _ _) _ _ Hc1 (Hp sid a1))]; done | intros; by apply always_ret | done].
Qed.
Lemma list_ok userID sid a : acore a -> aok (ListLoginSessions userID sid) anything a.
Proof.
  intros Hc. eapply always_bind; [apply anow_ok | |done]. intros t a1 _ Hc1 _.
  assert (forall n cond a, aok (on_sessions (find_sessions n cond)) anything a) as Hfind.
  { intros n cond a0. apply (on_sessions_ok _ anything). by apply always_read. }
  eapply (always_bind _ _ anything); [| intros; by apply always_ret |done]. apply mok_if; [apply always_fail|].
  eapply (always_bind _ _ anything); [| |done].
  { apply mok_if; [|by apply always_ret]. eapply always_bind; [apply anow_ok | intros; by apply always_ret | done]. }
  intros t2 a2 _ Hc2 _. eapply always_bind; [apply on_user_ok | |done]. intros v a3 _ Hc3 _. apply mok_if; [apply always_fail|].
  eapply (always_bind _ _ anything); [by apply mok_if; [apply always_ret|] | |done]. intros l a4 _ Hc4 _.
  eapply (always_bind _ _ anything); [apply Hfind | intros; by apply always_ret | done].
Qed.

(** ** Ending many *)

(** All sessions of the user, but one, are gone. *)
Definition all_gone (userID : Z) (excludedSID : string) (a a' : Accounts) : Prop :=
  forall sid, concerns userID excludedSID sid (a_sessions a) -> gone sid (a_sessions a').
Lemma concerns_grows userID excluded sid w w' : grows w w' -> concerns userID excluded sid w -> concerns userID excluded sid w'.
Proof. intros [_ Hg] (Hb & Hu & He). destruct (Hg sid) as (G1 & _). destruct (G1 Hb) as (? & ? & _). split_and!; [done | congruence | done]. Qed.
Lemma all_gone_grows userID excluded a b c d : agrows a b -> agrows c d -> all_gone userID excluded b c -> all_gone userID excluded a d.
Proof. intros H1 H2 H sid Hc. eapply gone_grows; [exact H2|]. apply H. by eapply concerns_grows. Qed.

Lemma bulk_ok fuel userID excluded reason a :
  acore a -> aok (on_sessions (revokeUserSessions redis cacheSeconds fuel userID excluded reason)) (fun _ a' => all_gone userID excluded a a') a.
Proof. intros Hc. exact (on_sessions_ok _ _ a (revoke_many_ok redis cacheSeconds hash next fuel userID excluded reason _ Hc)). Qed.
Lemma end_sessions_ok fuel userID reason a :
  acore a -> aok (end_sessions redis cacheSeconds fuel userID reason) (fun _ a' => all_gone userID "" a a') a.
Proof.
  intros Hc. eapply always_bind; [by apply bulk_ok | |done]. intros n a1 _ _ H. apply always_ret. intros a2 Hg _.
  by eapply all_gone_grows; [reflexivity | exact Hg|].
Qed.
Lemma advance_to_ok fuel identity version reason a :
  acore a -> aok (advanceCurrentSessionToVersion sign redis cacheSeconds fuel identity version reason)
    (fun _ a' => all_gone (ai_UserID identity) (ai_SessionID identity) a a') a.
Proof.
  intros Hc. eapply (always_bind _ _ anything); [eapply on_sessions_any; by apply Advance_ok | |done]. intros s a1 Hg1 Hc1 _.
  eapply always_bind; [by apply bulk_ok | |done]. intros n a2 Hg2 Hc2 H. eapply always_after; [|by apply issue_ok].
  intros b a3 Hg3 _ _. by eapply all_gone_grows; [exact Hg1 | exact Hg3|].
Qed.
Lemma advance_security_ok fuel identity reason a :
  acore a -> aok (AdvanceCurrentSessionSecurity sign redis cacheSeconds fuel identity reason)
    (fun _ a' => all_gone (ai_UserID identity) (ai_SessionID identity) a a') a.
Proof.
  intros Hc. eapply always_bind; [apply on_user_ok | |done]. intros row a1 Hg1 Hc1 _. eapply always_after; [|by apply advance_to_ok].
  intros b a2 _ _ H. by eapply all_gone_grows; [exact Hg1 | reflexivity|].
Qed.
Lemma advance_user_version_ok fuel identity reason a :
  acore a -> aok (AdvanceCurrentSessionToUserVersion sign redis cacheSeconds fuel identity reason)
    (fun _ a' => all_gone (ai_UserID identity) (ai_SessionID identity) a a') a.
Proof.
  intros Hc. eapply always_bind; [apply on_user_ok | |done]. intros u a1 Hg1 Hc1 _. apply mok_if; [apply always_fail|].
  eapply always_after; [|by apply advance_to_ok]. intros b a2 _ _ H. by eapply all_gone_grows; [exact Hg1 | reflexivity|].
Qed.
Lemma reset_ok fuel userID password a :
  acore a -> aok (reset_password redis cacheSeconds fuel hash_password userID password) (fun _ a' => all_gone userID "" a a') a.
Proof.
  intros Hc. unfold reset_password. destruct (hash_password password) as [err|h]; [apply always_fail|].
  eapply always_bind; [apply on_user_ok | |done]. intros row a1 Hg1 Hc1 _. eapply always_bind; [by apply end_sessions_ok | |done].
  intros x a2 _ _ H. apply always_ret. intros a3 Hg3 _. by eapply all_gone_grows; [exact Hg1 | exact Hg3|].
Qed.
Lemma delete_user_ok fuel userID a : acore a -> aok (Delete redis cacheSeconds fuel userID) (fun _ a' => all_gone userID "" a a') a.
Proof.
  intros Hc. apply mok_if; [apply always_fail|]. eapply always_bind; [apply on_user_ok | |done]. intros row a1 Hg1 Hc1 _.
  eapply always_bind; [by apply end_sessions_ok | |done]. intros x a2 Hg2 Hc2 H.
  eapply always_seq; [apply on_user_ok | |done]. intros a3 Hg3 _. apply always_ret. intros a4 Hg4 _.
  eapply all_gone_grows; [exact Hg1 | by etrans; [exact Hg3|exact Hg4] | exact H].
Qed.
Lemma hard_statement_ok userID expected version a : acore a -> aok (sql (hard_delete_statement userID expected version)) anything a.
Proof.
  intros _. apply always_sql; [|done]. intros a1 _ Hc. unfold hard_delete_statement. destruct (cas_statement _ _ _ _ _) as [[err|[row|]] w]; cbn [snd].
  - split; [exact Hc | apply grows_preorder].
  - apply (on_rows_step redis cacheSeconds hash next); [exact Hc|]. intros sid r Hr _ Hs.
    destruct (row_known _ _ _ _ _ _ _ Hc Hr) as (_ & Hb & _). by apply end_step.
  - split; [exact Hc | apply grows_preorder].
Qed.
Lemma hard_delete_ok userID a : acore a -> aok (HardDelete redis userID) anything a.
Proof.
  intros Hc. apply mok_if; [apply always_fail|]. eapply (always_bind _ _ anything); [| |done].
  - apply mok_if; [apply always_fail|]. revert a Hc. generalize 3%nat as n. induction n as [|n IH]; intros a Hc; [apply always_fail|]. cbn [hard_delete_attempts].
    eapply always_bind; [apply on_user_ok | |done]. intros user a1 _ Hc1 _. eapply always_seq; [apply on_user_ok | |done]. intros a2 _ Hc2.
    eapply always_bind; [by apply hard_statement_ok | |done]. intros [row|] a3 _ Hc3 _; [by apply always_ret | by apply IH].
  - intros row a1 _ Hc1 _. eapply (always_bind _ _ anything); [apply always_try; [apply on_user_ok | done] | |done]. intros published a2 _ Hc2 _.
    eapply always_seq; [apply always_try; [apply on_user_ok | done] | intros; by apply always_ret | done].
Qed.
Lemma change_ok fuel userID (p : P World UserRow) reason (b : Z) a :
  acore a ->
  aok (previousAuthVersion ← on_user userID (auth_version_of userID);
       row ← on_user userID p;
       (if previousAuthVersion <? us_AuthVersion row then end_sessions redis cacheSeconds fuel userID reason else mret tt) ;; mret row) anything a.
Proof.
  intros Hc. eapply always_bind; [apply on_user_ok | |done]. intros v a1 _ Hc1 _. eapply always_bind; [apply on_user_ok | |done].
  intros row a2 _ Hc2 _. eapply always_seq; [|intros; by apply always_ret | done]. apply mok_if; [|by apply always_ret].
  eapply mok_mono; [|by apply end_sessions_ok]. done.
Qed.

(** ** Threads *)

(** A note on the sessions. *)
Lemma athread_note (f : Accounts -> unit * Accounts) a :
  (forall a', agrows a a' -> acore a' -> acore (f a').2 /\ agrows a' (f a').2) -> athread (note f) a.
Proof. intros H. apply note_thread; [done|]. intros a' He _ Hc. apply H; [by apply step_grows | done]. Qed.
Lemma athread_bind {A} (p : P Accounts A) (f : result A -> prog Accounts unit) R a :
  aok p R a -> (forall r a', agrows a a' -> acore a' -> answers R r a' -> athread (f r) a') -> acore a -> athread (prog_bind p f) a.
Proof.
  intros Hp Hf Hc. eapply thread_bind; [exact Hp | | by intros _]. intros r a' He Hi Hr. apply Hf; [by apply step_grows | by apply Hi|].
  specialize (Hr a' (until_refl a') Hi). destruct r as [err|x]; [done | by apply Hr].
Qed.
(** A note of what is the case when a request begins. *)
Lemma athread_begin {B} (f : Accounts -> B) (Q : B -> Accounts -> Prop) (k : B -> prog Accounts unit) a :
  (forall a', acore a' -> Q (f a') a') -> (forall b a' a'', agrows a' a'' -> Q b a' -> Q b a'') ->
  (forall b a', acore a' -> Q b a' -> athread (k b) a') -> acore a -> athread (prog_bind (note (fun a => (f a, a))) k) a.
Proof.
  intros Hf HQ Hk Hc. eapply (thread_bind _ _ (fun b a' => never a' = false -> Q b a')); [| | by intros _].
  - apply (note_safe (core := acore) (grows := agrows)); [done | by intros | ]. intros a' a2 _ Hc' _ Hg _ _. cbn. eapply HQ; [exact Hg | by apply Hf].
  - intros b a' _ Hi Hb. apply Hk; [by apply Hi|]. by apply Hb; [apply until_refl|..].
Qed.

Lemma begun_pending sid userID a : acore a -> apending sid (begun sid userID a) a /\ (bg_rotations (begun sid userID a) <= sl_rotations (slot sid (a_sessions a)))%nat.
Proof. intros _. by split; [split|]. Qed.
Lemma begun_grows sid b a a' :
  agrows a a' -> apending sid b a /\ (bg_rotations b <= sl_rotations (slot sid (a_sessions a)))%nat ->
  apending sid b a' /\ (bg_rotations b <= sl_rotations (slot sid (a_sessions a')))%nat.
Proof.
  intros Hg [H1 H2]. split; [by eapply pending_grows|]. destruct Hg as [_ Hg]. destruct (Hg sid) as (_ & _ & _ & ? & _). lia.
Qed.

Lemma push_served sid b w :
  s_core w -> served_ok redis cacheSeconds sid (bg_clock b) (bg_reported b) w ->
  let w' := w <| s_served ::= cons (mkServed sid (bg_clock b) (bg_reported b)) |> in s_core w' /\ grows w w'.
Proof. intros (H1 & H2 & H3) Hs w'. split; [|split; [cbn; lia | intros; apply slot_grows_refl]]. split_and!; [done | by constructor | done]. Qed.
Lemma push_handed sid token b a :
  acore a -> handed_token sid token b a ->
  let w := a_sessions a in let w' := w <| s_handed ::= cons (mkHanded sid token (bg_rotations b) (bg_clock b)) |> in s_core w' /\ grows w w'.
Proof.
  intros (H1 & H2 & H3) (secret & E & Hh) w w'. split; [|split; [cbn; lia | intros; apply slot_grows_refl]].
  split_and!; [done | done|]. constructor; [|done]. by exists secret.
Qed.
Lemma access_safe identity a : acore a -> athread (access redis cacheSeconds identity) a.
Proof.
  apply (athread_begin _ (fun b a => apending (ai_SessionID identity) b a)).
  - intros a' _. by split.
  - intros b a' a'' Hg. by apply pending_grows.
  - intros b a' Hc Hp. eapply athread_bind; [by apply Validate_session_ok | |done].
    intros [err|r] a2 _ Hc2 Hr; [apply thread_done|]. apply athread_note. intros a3 Hg3 Hc3.
    apply (push_served _ _ (a_sessions a3)); [done|]. by eapply served_grows.
Qed.
Lemma refresh_safe raw expectedSID ip userAgent a :
  acore a -> athread (refresh uuid_ok hmac hex sign SessionSecret redis cacheSeconds raw expectedSID ip userAgent) a.
Proof.
  unfold refresh. remember (default EmptyString (RefreshTokenSID uuid_ok raw)) as sid eqn:Hsid.
  apply (athread_begin _ (fun b a => apending sid b a /\ (bg_rotations b <= sl_rotations (slot sid (a_sessions a)))%nat)).
  - intros a'. apply begun_pending.
  - intros b a' a''. apply begun_grows.
  - intros b a' Hc [Hp Hn]. eapply athread_bind; [by apply (Refresh_ok sid) | |done].
    intros [err|[bundle row]] a2 _ Hc2 Hr; [apply thread_done|]. destruct Hr as [Hh Hs]. apply athread_note. intros a3 Hg3 Hc3.
    assert (handed_token sid (ab_RefreshToken bundle) b a3) as Hh3 by by eapply handed_token_grows.
    destruct (push_handed _ _ _ _ Hc3 Hh3) as [Hc4 Hg4].
    destruct (push_served sid b _ Hc4) as [Hc5 Hg5]; [eapply served_grows; [|exact Hs]; by etrans|].
    split; [exact Hc5 | by etrans].
Qed.

Lemma slot_noted sids sid a :
  slot sid (a_sessions (note_gone redis sids a).2) =
  if sids sid then match s_slots (a_sessions a) !! sid with Some s => report_slot redis s | None => empty_slot end else slot sid (a_sessions a).
Proof.
  unfold slot. cbn. rewrite map_lookup_imap. destruct (s_slots (a_sessions a) !! sid) as [s|]; cbn; by destruct (sids sid).
Qed.
Lemma gone_step sids a :
  acore a -> (forall sid, sids sid = true -> gone sid (a_sessions a)) -> acore (note_gone redis sids a).2 /\ agrows a (note_gone redis sids a).2.
Proof.
  intros Hc Hg. apply slots_step; try done. intros sid Hs. rewrite slot_noted. destruct (sids sid) eqn:E; [|split; [done | apply slot_grows_refl]].
  destruct (Hg sid E) as [Hb He]. unfold ended, slot in *. destruct (s_slots (a_sessions a) !! sid) as [s|]; [|done].
  by apply report_step.
Qed.
Lemma report_revoked_safe sid (p : program bool) a :
  acore a -> aok p (fun (revoked : bool) a' => revoked = true -> gone sid (a_sessions a')) a -> athread (report_revoked redis sid p) a.
Proof.
  intros Hc Hp. eapply athread_bind; [exact Hp | |done]. intros [err|[|]] a1 _ Hc1 Hr; [apply thread_done | | apply thread_done].
  apply athread_note. intros a2 Hg2 Hc2. apply gone_step; [done|]. intros s <-%str_eqb_true. eapply gone_grows; [exact Hg2 | by apply Hr].
Qed.
Lemma ended_gone sid w : s_core w -> ended sid w -> gone sid w.
Proof.
  intros (Hs & _) He. split; [|by right]. destruct He as [c Hc]. destruct (Hs sid) as (_ & C2 & _).
  destruct (sl_born (slot sid w)); [done|]. destruct (C2 eq_refl) as (_ & ? & _). congruence.
Qed.
Lemma ended_answer sid (p : P Sessions bool) a :
  acore a -> s_ok p (fun (revoked : bool) w => revoked = true -> ended sid w) (a_sessions a) ->
  aok (on_sessions p) (fun (revoked : bool) a' => revoked = true -> gone sid (a_sessions a')) a.
Proof.
  intros Hc Hp. eapply always_after; [|exact (on_sessions_ok _ _ a Hp)]. intros r a' _ Hc' H E. apply ended_gone; [exact Hc' | by apply H].
Qed.
Lemma report_bulk_safe {A} userID excluded (p : program A) after a :
  acore a -> (forall a, acore a -> aok p (fun _ a' => all_gone userID excluded a a') a) -> (forall x a, athread (after x) a) ->
  athread (report_bulk redis userID excluded p after) a.
Proof.
  intros Hc Hp Hafter. revert Hc.
  apply (athread_begin _ (fun sids a => forall sid, sids sid = true -> concerns userID excluded sid (a_sessions a))).
  - intros a' _ sid. unfold concerned. intros [[Hb Hu%Z.eqb_eq]%andb_true_iff He]%andb_true_iff. split_and!; [done | done|].
    apply orb_true_iff in He as [?%str_eqb_true|?%negb_true_iff%str_eqb_false]; auto.
  - intros sids a' a'' Hg H sid Hs. eapply concerns_grows; [exact Hg | by apply H].
  - intros sids a' Hc' Hsids. eapply athread_bind; [by apply Hp | |done]. intros [err|x] a2 _ Hc2 Hr; [apply thread_done|].
    eapply (thread_bind _ _ (fun _ _ => True)); [|by intros; apply Hafter | by intros _]. apply athread_note. intros a3 Hg3 Hc3.
    apply gone_step; [done|]. intros sid Hs. eapply gone_grows; [exact Hg3|]. by apply Hr, Hsids.
Qed.

Lemma dashboard_safe p a :
  dashboard uuid_ok hmac hex sign SessionSecret redis cacheSeconds hash_password p -> acore a -> athread p a.
Proof.
  intros Hp Hc. assert (forall {A} (p : program A), aok p anything a -> athread (ignored p) a) as Hign.
  { intros A q Hq. by eapply mok_ignored; [intros _|]. }
  destruct Hp.
  - by apply access_safe.
  - by apply refresh_safe.
  - apply Hign. by apply reference_ok.
  - apply Hign. by apply sign_in_ok.
  - apply report_revoked_safe; [done|]. apply ended_answer; [done | by apply Revoke_ok].
  - apply report_revoked_safe; [done|]. unfold RevokeByRefreshToken. rewrite H. apply mok_if; [apply always_fail|].
    apply ended_answer; [done | by apply RevokeByHash_ok].
  - apply report_bulk_safe; [done | intros; by apply bulk_ok | intros; apply thread_done].
  - apply report_bulk_safe; [done | intros; by apply bulk_ok | intros; apply thread_done].
  - apply report_bulk_safe; [done | intros; by apply advance_security_ok | intros; apply thread_done].
  - apply report_bulk_safe; [done | intros; by apply advance_user_version_ok | intros; apply thread_done].
  - apply report_bulk_safe; [done | intros; by apply reset_ok | intros; apply on_user_thread].
  - apply report_bulk_safe; [done | intros; by apply delete_user_ok | intros; apply on_user_thread].
  - eapply (athread_bind _ _ anything); [by apply hard_delete_ok | | done]. intros [err|[row published]] a1 _ _ _; [apply thread_done | apply on_user_thread].
  - eapply (athread_bind _ _ anything); [by apply change_ok | | done]. intros [err|row] a1 _ _ _; [apply thread_done | apply on_user_thread].
  - eapply (athread_bind _ _ anything); [by apply change_ok | | done]. intros [err|row] a1 _ _ _; [apply thread_done | apply on_user_thread].
  - apply Hign. by apply list_ok.
  - apply Hign. eapply on_sessions_any. by apply clean_ok.
  - apply Hign. eapply on_sessions_any. by apply clean_ok.
  - apply on_user_thread.
Qed.
Lemma passes_ok a a' : acore a -> passes a a' -> acore a' /\ agrows a a'.
Proof. intros Hc [t Ht|userID w _]; [by apply session_clock_step|]. split; [exact Hc | apply grows_preorder]. Qed.
Lemma no_sessions_ok users clock : acore (no_sessions users clock).
Proof.
  unfold acore, no_sessions, core. cbn. split_and!; [|constructor..]. intros sid. unfold slot. cbn. rewrite lookup_empty. cbn.
  split_and!; cbn; try done.
Qed.

End SessionSide.

(** The sessions on every Redis, in every run. *)
Section Reached.
Context (uuid_ok : string -> bool) (hmac : string -> string -> string) (hex : string -> string) (sign : AuthIdentity -> Z -> result string)
  (SessionSecret : string) (cacheSeconds : Z) (hash_password : string -> result string).
Context {R : Type} `{EqDecision R} (redis : R -> bool).
Abbreviation sessions_ok j := (acore hmac hex SessionSecret (redis j) cacheSeconds).

Definition same_of_sessions (a b : Accounts) : Prop := same_sessions (a_sessions a) (a_sessions b).
#[local] Instance same_of_sessions_equivalence : Equivalence same_of_sessions.
Proof. split; [intros a | intros a b | intros a b c]; apply same_sessions_equivalence. Qed.
#[local] Instance agrows_order : PreOrder agrows.
Proof. split; [intros a | intros a b c]; apply grows_preorder. Qed.
Lemma dashboards_survive : survives adopt_accounts (fun j => until never (sessions_ok j)) (until_step never agrows) same_of_sessions.
Proof.
  apply until_survives; [done | intros x y'; apply same_adopted|]. intros i j x y y'. apply (sessions_survive cacheSeconds _ _ redis).
Qed.
Lemma sessions_reached users clock threads (t : R -> Accounts) :
  dashboard_steps uuid_ok hmac hex sign SessionSecret cacheSeconds hash_password redis
    (mkPool [] (fun _ => no_sessions users clock)) (mkPool threads t) -> forall j, sessions_ok j (t j).
Proof.
  intros Hrun j. refine (proj1 (cluster_reached adopt_accounts _ _ same_of_sessions dashboards_survive passes
    (dashboards uuid_ok hmac hex sign SessionSecret cacheSeconds hash_password redis) _ _ _ _ _ _ Hrun) j eq_refl).
  - intros i b c Hb Hbc. destruct (passes_ok hmac hex SessionSecret (redis i) cacheSeconds b c (Hb eq_refl) Hbc) as [H1 H2].
    split; [intros _; exact H1 | split; [done | intros _; exact H2]].
  - intros i p b Hp Hb. eapply dashboard_safe; [exact Hp | by apply Hb].
  - apply cluster_start; [apply _|]. intros i _. apply no_sessions_ok.
Qed.
End Reached.
