(* ===== verification/SessionRights.v ===== *)
(** * Access tokens and the user's rights

    The other half of a request's check: an access token carries the version of
    its user's rights.  Here the state of one user, whatever happens to sessions
    and to other users: what [UserCacheFacts] says of the user goes on to hold,
    and a token that is accepted is no older than any change reported when the
    request began. *)

From stdpp Require Import base numbers option strings list gmap relations.
From Stdlib Require Import ZArith Lia.
From S2P Require Import Prelude Store Interleave Marked UserCache UserCacheFacts UserUpdates UserCacheTheorems Sessions SessionFacts Focus Topology SessionTopology LoginSessions SessionClients.
Open Scope Z_scope.

Create HintDb calm.

Section UserSide.
Context (uuid_ok : string -> bool) (hmac : string -> string -> string) (hex : string -> string) (sign : AuthIdentity -> Z -> result string)
  (SessionSecret : string) (redis : bool) (cacheSeconds : Z) (hash_password : string -> result string).
Context (uid : Z) (Huid : 0 < uid).

Abbreviation rights := (UserCacheFacts.inv redis uid).
Abbreviation user_ok := (mok excepted rights evolves).
Abbreviation rights_inv := (until excepted rights).

Definition accepted_ok (p : Z * AuthIdentity) : Prop := ai_UserID p.2 = uid -> p.1 <= ai_UserAuthVersion p.2.
Definition ucore (a : Accounts) : Prop := rights (a_users a uid) /\ Forall accepted_ok (a_accepted a).
Definition umark (a : Accounts) : bool := excepted (a_users a uid).
Definition ugrows (a b : Accounts) : Prop := evolves (a_users a uid) (a_users b uid).
#[local] Instance ugrows_preorder : PreOrder ugrows.
Proof. split; [intros a; apply cache_evolves_refl|]. intros a b c. apply cache_evolves_trans. Qed.
Abbreviation uok := (mok umark ucore ugrows).
Abbreviation uinv := (until umark ucore).
Abbreviation ustep := (until_step umark ugrows).
Abbreviation uthread := (thread_safe uinv ustep ustep).

Lemma uinv_rights a : uinv a -> rights_inv (a_users a uid).
Proof. intros H E. by apply (H E). Qed.

(** ** Programs on the user, and elsewhere *)

Lemma get_set_uid w a : get_user uid (set_user uid w a) = w.
Proof. unfold get_user, set_user. cbn. by rewrite Z.eqb_refl. Qed.
Lemma set_uid_inv w a : uinv a -> rights_inv w -> until_step excepted evolves (a_users a uid) w -> uinv (set_user uid w a).
Proof.
  intros Ha Hw [Hmark _] E. unfold umark in E. change (a_users (set_user uid w a) uid) with (get_user uid (set_user uid w a)) in E.
  rewrite get_set_uid in E. split; [change (rights (get_user uid (set_user uid w a))); rewrite get_set_uid; by apply Hw|].
  apply Ha. unfold umark. destruct (excepted (a_users a uid)); [by rewrite Hmark in E | done].
Qed.
Lemma uid_safe {A} (p : prog World A) (Q : A -> World -> Prop) a :
  safe rights_inv (until_step excepted evolves) (until_step excepted evolves) p Q (a_users a uid) ->
  safe uinv ustep ustep (on_user uid p) (fun x a' => Q x (a_users a' uid)) a.
Proof. exact (focus_safe (get_user uid) (set_user uid) get_set_uid rights_inv uinv _ _ p Q a uinv_rights set_uid_inv). Qed.
Lemma uok_user {A} (p : P World A) R a : user_ok p R (a_users a uid) -> uok (on_user uid p) (fun x a' => R x (a_users a' uid)) a.
Proof.
  intros Hp. eapply safe_mono; [apply until_trans | | done | apply (uid_safe p _ a Hp)]. by intros [err|x] a' _ _.
Qed.
Lemma set_other id w a : id <> uid -> a_users (set_user id w a) uid = a_users a uid.
Proof. intros H. unfold set_user. cbn. by destruct (Z.eqb_spec uid id). Qed.
Lemma elsewhere {A} id (p : prog World A) (Q : A -> Accounts -> Prop) a :
  id <> uid -> (forall x a', Q x a') -> safe uinv ustep ustep (on_user id p) Q a.
Proof.
  intros H HQ. refine (focus_elsewhere (get_user id) (set_user id) (fun a => a_users a uid) uinv (until_step excepted evolves)
    (until_step excepted evolves) p Q a (fun w a => set_other id w a H) _ (fun _ => until_refl _) HQ).
  intros w b. unfold until, umark, ucore. by rewrite set_other.
Qed.
Lemma on_sessions_safe {A} (p : prog Sessions A) (Q : A -> Accounts -> Prop) a : (forall x a', Q x a') -> safe uinv ustep ustep (on_sessions p) Q a.
Proof.
  intros HQ. exact (focus_elsewhere a_sessions set_sessions (fun a => a_users a uid) uinv (until_step excepted evolves)
    (until_step excepted evolves) p Q a (fun _ _ => eq_refl) (fun _ _ H => H) (fun _ => until_refl _) HQ).
Qed.

(** ** Programs that do no harm *)

Definition calm {A} (p : program A) : Prop := forall a, uinv a -> uok p anything a.
Lemma calm_ret {A} (x : A) : calm (mret x).
Proof. intros a _. by apply mok_ret. Qed.
Lemma calm_fail {A} err : calm (fail (A := A) err).
Proof. intros a _. apply mok_fail. Qed.
Lemma calm_bind {A B} (p : program A) (f : A -> program B) : calm p -> (forall x, calm (f x)) -> calm (p ≫= f).
Proof. intros Hp Hf a Ha. eapply mok_bind; [by apply Hp | | done]. intros x a' _ Ha' _. by apply Hf. Qed.
Lemma calm_attempted {A} (p : program A) : calm p -> calm (attempted p).
Proof. intros Hp a Ha. eapply mok_dropped; [by apply Hp | done]. Qed.
Lemma calm_if {A} (b : bool) (p q : program A) : calm p -> calm q -> calm (if b then p else q).
Proof. by destruct b. Qed.
Lemma calm_sessions {A} (p : P Sessions A) : calm (on_sessions p).
Proof. intros a _. apply on_sessions_safe. by intros [err|x]. Qed.
Lemma calm_user {A} id (p : P World A) : (id = uid -> forall w, rights_inv w -> user_ok p anything w) -> calm (on_user id p).
Proof.
  intros Hp a Ha. destruct (decide (id = uid)) as [->|]; [by apply (uok_user p anything), Hp, uinv_rights | apply elsewhere; [done | by intros [err|x]]].
Qed.
#[local] Hint Resolve calm_ret calm_fail calm_attempted calm_if calm_sessions : calm.
#[local] Hint Extern 1 (calm (_ ≫= _)) => (apply calm_bind; [|intros]) : calm.

Lemma acknowledged_covered w : rights w -> covered redis (w_acknowledged w) w.
Proof. by intros (_ & _ & _ & _ & ? & ? & _). Qed.
Lemma GetUserCache_user_ok ack w :
  (excepted w = false -> rights w /\ covered redis ack w) -> user_ok (GetUserCache redis uid) (fun u _ => ack <= ub_AuthVersion u) w.
Proof.
  intros Hw. apply vok_quiet; [apply quiet_GetUserCache|]. intros E. destruct (Hw E).
  eapply cok_mono; [|by apply (GetUserCache_ok redis uid Huid ack)]. by intros u w' [_ Hu].
Qed.
Lemma calm_GetUserCache id : calm (on_user id (GetUserCache redis id)).
Proof.
  apply calm_user. intros -> w Hw. eapply mok_mono; [|apply (GetUserCache_user_ok (w_acknowledged w))]; [done|].
  intros E. split; [by apply Hw | by apply acknowledged_covered, Hw].
Qed.
Lemma calm_self id : calm (on_user id (GetSelfUserById id)).
Proof.
  apply calm_user. intros -> w Hw. apply mok_if; [apply mok_fail|]. eapply mok_mono; [|by apply read_live_live]. done.
Qed.
Lemma calm_version id : calm (on_user id (auth_version_of id)).
Proof. apply calm_user. intros -> w Hw. apply mok_read. done. Qed.
#[local] Hint Resolve calm_GetUserCache calm_self calm_version : calm.

Lemma calm_issue s raw current : calm (issueAuthBundle sign s raw current).
Proof.
  apply calm_bind; [|auto with calm]. apply calm_if; [auto with calm|]. apply calm_bind; [auto with calm|]. intros t.
  destruct (sign _ t); auto with calm.
Qed.
Lemma calm_cached sid other : calm (cached_session redis cacheSeconds sid other).
Proof. apply calm_bind; [auto with calm|]. intros [err|s]; auto with calm. Qed.
#[local] Hint Resolve calm_issue calm_cached : calm.

Lemma calm_create limit issuance window sid random userID version method ip userAgent :
  calm (createLoginSession hmac hex sign SessionSecret redis cacheSeconds limit issuance window sid random userID version method ip userAgent).
Proof.
  unfold createLoginSession. apply calm_bind; [auto with calm|]. intros u. repeat (apply calm_if; [auto with calm|]).
  apply calm_bind; [auto with calm|]. intros t. apply calm_bind; [auto with calm|]. intros n. apply calm_if; [auto with calm|].
  apply calm_bind; [auto with calm|]. intros n2. apply calm_if; [auto with calm|]. apply calm_bind.
  - unfold newLoginSession. destruct random; auto with calm.
  - intros made. apply calm_bind; [auto with calm|]. intros s. apply calm_bind; [auto with calm|]. intros [err|b]; auto with calm.
Qed.
Lemma calm_Validate identity : calm (ValidateLoginSession redis cacheSeconds identity).
Proof.
  apply calm_bind; [auto with calm|]. intros s. apply calm_bind; [auto with calm|]. intros t. apply calm_if; [auto with calm|].
  apply calm_bind; [auto with calm|]. intros u. auto with calm.
Qed.
Lemma calm_reference userID sid : calm (ValidateSessionReference redis cacheSeconds userID sid).
Proof.
  apply calm_if; [auto with calm|]. apply calm_bind; [auto with calm|]. intros s. apply calm_bind; [apply calm_Validate | auto with calm].
Qed.
Lemma calm_refresh raw expectedSID ip userAgent :
  calm (RefreshLoginSession uuid_ok hmac hex sign SessionSecret redis cacheSeconds raw expectedSID ip userAgent).
Proof.
  unfold RefreshLoginSession. destruct (splitRefreshToken uuid_ok raw) as [[sid secret]|]; [|auto with calm]. apply calm_if; [auto with calm|].
  apply calm_bind; [auto with calm|]. intros s. apply calm_bind; [auto with calm|]. intros t. apply calm_if; [auto with calm|].
  apply calm_bind; [auto with calm|]. intros u. apply calm_bind; [auto with calm|]. intros row. apply calm_if; [auto 10 with calm|].
  apply calm_bind; [auto with calm|]. intros t2. apply calm_bind; [auto with calm|]. intros r. apply calm_bind; [|auto with calm].
  destruct r as [err|[rotated [|]]]; cbn [exchange]; auto with calm.
Qed.
Lemma calm_log_out raw expectedSID reason : calm (RevokeByRefreshToken uuid_ok hmac hex SessionSecret redis cacheSeconds raw expectedSID reason).
Proof. unfold RevokeByRefreshToken. destruct (splitRefreshToken uuid_ok raw) as [[sid secret]|]; auto with calm. Qed.
Lemma calm_advance_to fuel identity version reason : calm (advanceCurrentSessionToVersion sign redis cacheSeconds fuel identity version reason).
Proof. unfold advanceCurrentSessionToVersion. auto 10 with calm. Qed.
Lemma calm_end fuel id reason : calm (end_sessions redis cacheSeconds fuel id reason).
Proof. unfold end_sessions. auto with calm. Qed.
#[local] Hint Resolve calm_advance_to calm_end : calm.
Lemma calm_advance fuel identity reason : calm (AdvanceCurrentSessionSecurity sign redis cacheSeconds fuel identity reason).
Proof.
  apply calm_bind; [|auto with calm]. apply calm_user. intros -> w Hw. eapply (mok_mono _ (fun _ _ => True)); [done|].
  apply vok_quiet; [apply quiet_PublishAll|]. intros E. eapply cok_mono; [|by apply auth_change_ok; [|apply Hw]]. done.
Qed.
Lemma calm_advance_version fuel identity reason : calm (AdvanceCurrentSessionToUserVersion sign redis cacheSeconds fuel identity reason).
Proof. apply calm_bind; [auto with calm|]. intros u. auto with calm. Qed.
Lemma calm_list userID sid : calm (ListLoginSessions userID sid).
Proof.
  apply calm_bind; [auto with calm|]. intros t. apply calm_bind; [|auto with calm]. apply calm_if; [auto with calm|].
  apply calm_bind; [auto with calm|]. intros t2. apply calm_bind; [auto with calm|]. intros v. apply calm_if; [auto with calm|].
  apply calm_bind; [auto with calm|]. intros l. apply calm_bind; auto with calm.
Qed.

(** ** Programs that report a change *)

(** If it was this user's, the version it answers is covered. *)
Definition reports_version (id : Z) (row : UserRow) (a : Accounts) : Prop :=
  id = uid -> covered redis (us_AuthVersion row) (a_users a uid).
Lemma reports_user id (p : P World UserRow) a :
  (id = uid -> user_ok p (fun row w => covered redis (us_AuthVersion row) w) (a_users a uid)) -> uok (on_user id p) (reports_version id) a.
Proof.
  intros Hp. destruct (decide (id = uid)) as [->|].
  - eapply mok_mono; [|apply (uok_user p _ a (Hp eq_refl))]. by intros row a' H _.
  - apply elsewhere; [done|]. by intros [err|x].
Qed.
Lemma reports_then id (p : program UserRow) (q : UserRow -> program unit) a :
  uinv a -> uok p (reports_version id) a -> (forall row, calm (q row)) -> uok (row ← p; q row ;; mret row) (reports_version id) a.
Proof.
  intros Ha Hp Hq. eapply mok_bind; [exact Hp | | done]. intros row a1 He1 Hi1 Hr. eapply mok_seq; [by apply Hq | | done].
  intros a2 He2 Hi2. apply mok_ret. intros a3 He3 Hi3 E. apply Hr; [by eapply until_trans | done | done].
Qed.
Lemma reset_reports fuel id password a :
  uinv a -> uok (reset_password redis cacheSeconds fuel hash_password id password) (reports_version id) a.
Proof.
  intros Ha. unfold reset_password. destruct (hash_password password) as [err|h]; [apply mok_fail|]. apply reports_then; [done | | auto with calm].
  apply reports_user. intros ->. apply vok_quiet; [apply quiet_PublishAll|]. intros E. apply auth_change_ok; [done|]. by apply uinv_rights.
Qed.
Lemma deleted_reports id w :
  rights_inv w -> user_ok (row ← auth_transaction redis id (Rewrite false (fun r => r <| us_deleted := true |>));
                           publishCommittedUserAuthVersion redis id (us_AuthVersion row) ;; mret row)
                    (fun row w' => covered redis (us_AuthVersion row) w') w.
Proof.
  intros Hw. apply vok_quiet; [auto 10 with quiet|]. intros E.
  eapply cok_bind; [by apply auth_transaction_ok; [|apply Hw] | | by apply Hw]. intros row w1 He1 Hi1 Hrow.
  destruct (Hrow w1 (cache_evolves_refl _) Hi1) as [Hin _].
  eapply cok_seq; [apply publishCommitted_ok; [exact Hi1 | by eapply log_covered, Hin] | | done]. intros w2 He2 Hi2 (? & Hcov).
  apply cok_ret. exact Hcov.
Qed.
Lemma calm_invalidate id : calm (on_user id (invalidateUserCache redis)).
Proof.
  apply calm_user. intros -> w Hw. apply vok_quiet; [auto with quiet|]. intros E. by apply invalidateUserCache_ok.
Qed.
Lemma delete_reports fuel id a : uinv a -> uok (Delete redis cacheSeconds fuel id) (reports_version id) a.
Proof.
  intros Ha. apply mok_if; [apply mok_fail|]. eapply mok_bind; [apply reports_user; intros ->; by apply deleted_reports, uinv_rights | | done].
  intros row a1 He1 Hi1 Hr. eapply mok_seq; [by apply calm_end | | done]. intros a2 He2 Hi2.
  eapply mok_seq; [by apply calm_invalidate | | done]. intros a3 He3 Hi3. apply mok_ret. intros a4 He4 Hi4 E.
  apply Hr; [|done|done]. eapply until_trans; [exact He2|]. by eapply until_trans.
Qed.
Lemma change_reports fuel id (p : P World UserRow) reason a :
  (forall w, rights_inv w -> user_ok p (fun row w' => covered redis (us_AuthVersion row) w') w) -> uinv a ->
  uok (previousAuthVersion ← on_user id (auth_version_of id);
       row ← on_user id p;
       (if previousAuthVersion <? us_AuthVersion row then end_sessions redis cacheSeconds fuel id reason else mret tt) ;; mret row) (reports_version id) a.
Proof.
  intros Hp Ha. eapply mok_bind; [by apply calm_version | | done]. intros v a1 He1 Hi1 _. apply reports_then; [done | | auto with calm].
  apply reports_user. intros ->. by apply Hp, uinv_rights.
Qed.

(** *** A hard deletion *)

Lemma cas_statement_ok expected version c w :
  expected < version -> rights w ->
  let '(o, w') := cas_statement uid expected version c w in
  rights w' /\ evolves w w' /\ forall row, o = inr (Some row) -> row ∈ w_log w'.
Proof.
  intros Hlt Hw. unfold cas_statement.
  assert (forall o : result (option UserRow), (forall row, o <> inr (Some row)) -> rights w /\ evolves w w /\ forall row, o = inr (Some row) -> row ∈ w_log w) as Hsame.
  { intros o Ho. split; [exact Hw|]. split; [apply cache_evolves_refl|]. intros row ->. by destruct (Ho row). }
  destruct (w_row w) as [r|] eqn:Er; [|by apply Hsame]. destruct (_ && _) eqn:E; [|by apply Hsame].
  apply andb_prop in E as [_ E%Z.eqb_eq]. destruct (needs_live c && us_deleted r); [by apply Hsame|].
  destruct (commit_step redis uid Huid (is_hard c) (changed_row c version r) w r Hw Er) as [H1 H2]; [apply changed_newer; lia|].
  split; [done|]. split; [done|]. intros row [= <-]. left.
Qed.
(** What it does to this user, and to the list of the accepted. *)
Lemma hard_statement_user id expected version a :
  a_accepted (hard_delete_statement id expected version a).2 = a_accepted a /\
  if decide (id = uid) then
    ((hard_delete_statement id expected version a).1, a_users (hard_delete_statement id expected version a).2 uid) =
    cas_statement uid expected version Remove (a_users a uid)
  else a_users (hard_delete_statement id expected version a).2 uid = a_users a uid.
Proof.
  unfold hard_delete_statement, get_user. destruct (decide (id = uid)) as [->|Hid].
  - destruct (cas_statement _ _ _ _ _) as [[err|[row|]] w]; cbn; by rewrite Z.eqb_refl.
  - destruct (cas_statement _ _ _ _ _) as [[err|[row|]] w]; cbn; by destruct (Z.eqb_spec uid id).
Qed.
Lemma hard_statement_rights id expected version a :
  expected < version ->
  uok (sql (hard_delete_statement id expected version)) (fun o a' => id = uid -> forall row, o = Some row -> row ∈ w_log (a_users a' uid)) a.
Proof.
  intros Hlt. apply mok_sql.
  - intros a' E. unfold umark in *. destruct (hard_statement_user id expected version a') as [_ Hu]. destruct (decide (id = uid)); [|by rewrite Hu].
    rewrite <- E, <- (cas_statement_mark uid expected version Remove (a_users a' uid)), <- Hu. done.
  - intros a' _ [Hc Hacc] _ _. destruct (hard_statement_user id expected version a') as [Ea Hu]. unfold ucore, ugrows. rewrite Ea.
    destruct (decide (id = uid)); [|by rewrite Hu; split; [|apply cache_evolves_refl]].
    pose proof (cas_statement_ok expected version Remove (a_users a' uid) Hlt Hc) as H. rewrite <- Hu in H. by destruct H as (? & ? & _); split.
  - intros a' o a2 _ [Hc _] _ Eo Hg _ _ -> row ->. destruct (hard_statement_user uid expected version a') as [_ Hu]. rewrite decide_True in Hu by done.
    pose proof (cas_statement_ok expected version Remove (a_users a' uid) Hlt Hc) as H. rewrite <- Hu in H. destruct H as (_ & _ & H).
    eapply evolves_log; [exact Hg|]. by apply H.
Qed.

(** If it was this user's, the version it answers is covered, or was not
    published. *)
Definition reports_hard (id : Z) (p : UserRow * result unit) (a : Accounts) : Prop :=
  id = uid -> match p.2 with inr _ => covered redis (us_AuthVersion p.1) (a_users a uid) | inl _ => True end.
Lemma calm_read id : calm (on_user id (read_unscoped id)).
Proof. apply calm_user. intros -> w Hw. by apply mok_read. Qed.
Lemma calm_fence id v : calm (on_user id (SetUserAuthVersionFence redis id v)).
Proof. apply calm_user. intros -> w Hw. apply vok_quiet; [auto with quiet|]. intros E. by apply SetUserAuthVersionFence_ok, Hw. Qed.
Lemma hard_attempts_rights n id a :
  uinv a -> uok (hard_delete_attempts redis n id) (fun row a' => id = uid -> row ∈ w_log (a_users a' uid)) a.
Proof.
  revert a. induction n as [|n IH]; intros a Ha; [apply mok_fail|]. cbn [hard_delete_attempts].
  eapply mok_bind; [by apply calm_read | | done]. intros user a1 _ Hi1 _. eapply mok_seq; [by apply calm_fence | | done]. intros a2 _ Hi2.
  eapply mok_bind; [apply hard_statement_rights; lia | | done]. intros [row|] a3 _ Hi3 H; [|by apply IH].
  apply mok_ret. intros a4 He4 Hi4 E Eid. by apply (H a4).
Qed.
Lemma publish_reports id v a :
  uinv a -> (umark a = false -> id = uid -> v <= top (a_users a uid)) ->
  uok (on_user id (publishCommittedUserAuthVersion redis id v)) (fun _ a' => id = uid -> covered redis v (a_users a' uid)) a.
Proof.
  intros Ha Hv. destruct (decide (id = uid)) as [->|Hid]; [|apply elsewhere; [done|]; intros [err|x]; [done|]; by intros ? _ ?].
  eapply mok_mono; [|apply (uok_user _ (fun _ w => covered redis v w))]; [by intros ? a' ? _|].
  apply vok_quiet; [auto with quiet|]. intros E. apply publishCommitted_ok; [by apply (Ha E) | by apply Hv].
Qed.
Lemma hard_delete_reports id a : uinv a -> uok (HardDelete redis id) (reports_hard id) a.
Proof.
  intros Ha. apply mok_if; [apply mok_fail|]. eapply mok_bind; [apply mok_if; [apply mok_fail | by apply hard_attempts_rights] | | done].
  intros row a1 He1 Hi1 Hrow. eapply (mok_bind _ _ (fun p a' => reports_hard id (row, p) a')); [| |done].
  - eapply mok_mono; [|apply mok_attempted; [|done]; apply publish_reports; [done|]].
    + intros [err|[]] a' H Eid; cbn in *; [done | by apply H].
    + intros E Eid. apply log_covered with (redis := redis) (uid := uid); [by apply (Hi1 E)|]. by apply (Hrow a1); [apply until_refl|..].
  - intros p a2 He2 Hi2 Hp. eapply mok_seq; [eapply mok_dropped; [by apply calm_invalidate | done] | | done]. intros a3 He3 Hi3.
    apply mok_ret. intros a4 He4 Hi4 E. apply Hp; [by eapply until_trans | done | done].
Qed.

(** ** Threads *)

Lemma calm_ignored {A} (p : program A) a : uinv a -> calm p -> uthread (ignored p) a.
Proof. intros Ha Hp. eapply mok_ignored; [done | by apply Hp]. Qed.
Lemma note_elsewhere {A} (f : Accounts -> A * Accounts) a :
  (forall a', a_users (f a').2 = a_users a' /\ a_accepted (f a').2 = a_accepted a') -> safe uinv ustep ustep (note f) (fun _ _ => True) a.
Proof.
  intros Hf a' d He Hi. specialize (Hf a'). destruct (f a') as [x a'']. cbn in Hf. destruct Hf as [E1 E2].
  assert (forall b, umark a'' = b -> umark a' = b) as Hm by (unfold umark; by rewrite E1).
  split_and!; [intros E; unfold ucore; rewrite E1, E2; by apply Hi, Hm | split; [unfold umark; by rewrite E1 | unfold ugrows; rewrite E1; intros _; apply cache_evolves_refl] | done].
Qed.
Lemma report_rights_safe id row a :
  uinv a -> (umark a = false -> reports_version id row a) -> uthread (report_rights id row) a.
Proof.
  intros Ha Hr. destruct (decide (id = uid)) as [->|]; [|by apply elsewhere].
  apply (uid_safe (acknowledge row) (fun _ _ => True)). apply acknowledge_safe. intros w' He _ E.
  pose proof (mark_before _ _ He E) as E0. apply (covered_evolves redis _ (a_users a uid)); [by apply He|]. by apply Hr.
Qed.
Lemma report_hard_safe id row published a :
  uinv a -> (umark a = false -> reports_hard id (row, published) a) -> uthread (on_user id (acknowledge_hard row published)) a.
Proof.
  intros Ha Hr. destruct (decide (id = uid)) as [->|]; [|by apply elsewhere].
  apply (uid_safe (acknowledge_hard row published) (fun _ _ => True)). apply acknowledge_hard_safe. intros w' He _ E.
  specialize (Hr (mark_before _ _ He E) eq_refl). destruct published as [err|[]]; [done|].
  apply (covered_evolves redis _ (a_users a uid)); [by apply He | exact Hr].
Qed.
Lemma answered_rights id (p : program UserRow) a :
  uinv a -> uok p (reports_version id) a ->
  uthread (prog_bind p (fun r => match r with inr row => report_rights id row | inl _ => Done tt end)) a.
Proof.
  intros Ha Hp. eapply thread_bind; [exact Hp | | done]. intros [err|row] a1 He1 Hi1 Hr; [apply thread_done|].
  apply report_rights_safe; [done|]. intros E. exact (Hr a1 (until_refl a1) Hi1 E).
Qed.
Lemma report_bulk_calm {A} id excluded (p : program A) (R : A -> Accounts -> Prop) after a :
  uinv a -> (forall a, uinv a -> uok p R a) ->
  (forall x a, uinv a -> (forall a', ustep a a' -> uinv a' -> umark a' = false -> R x a') -> uthread (after x) a) ->
  uthread (report_bulk redis id excluded p after) a.
Proof.
  intros Ha Hp Hafter. eapply thread_bind; [by apply note_elsewhere | | done]. intros sids a1 _ Hi1 _.
  eapply thread_bind; [by apply Hp | | done]. intros [err|x] a2 He2 Hi2 Hr; [apply thread_done|].
  eapply thread_bind; [by apply note_elsewhere | | done]. intros [] a3 He3 Hi3 _. apply Hafter; [done|].
  intros a4 He4 Hi4 E. apply Hr; [by eapply until_trans | done | done].
Qed.
Lemma report_revoked_calm sid (p : program bool) a : uinv a -> calm p -> uthread (report_revoked redis sid p) a.
Proof.
  intros Ha Hp. eapply thread_bind; [by apply Hp | | done]. intros [err|[|]] a1 _ _ _; [apply thread_done | | apply thread_done].
  by apply note_elsewhere.
Qed.

(** A request is accepted only with the version that was reported. *)
Definition fit (identity : AuthIdentity) (ack : Z) (a : Accounts) : Prop :=
  ai_UserID identity = uid -> covered redis ack (a_users a uid).
Lemma Validate_rights_ok identity ack a :
  uinv a -> (umark a = false -> fit identity ack a) ->
  uok (ValidateLoginSession redis cacheSeconds identity) (fun _ _ => accepted_ok (ack, identity)) a.
Proof.
  intros Ha Hfit. unfold accepted_ok. cbn. eapply mok_bind; [by apply calm_cached | | done]. intros s a1 He1 Hi1 _.
  eapply mok_bind; [by apply calm_sessions | | done]. intros t a2 He2 Hi2 _. apply mok_if; [apply mok_fail|].
  eapply (mok_bind _ _ (fun u _ => ai_UserID identity = uid -> ack <= ub_AuthVersion u)); [| |done].
  - destruct (decide (ai_UserID identity = uid)) as [E|E].
    + rewrite E. eapply mok_mono; [|apply (uok_user _ (fun u _ => ack <= ub_AuthVersion u)), GetUserCache_user_ok]; [by intros u a' ? _|].
      intros E2. assert (ustep a a2) as He by by eapply until_trans. split; [by apply Hi2|].
      eapply covered_evolves; [by apply He|]. apply Hfit; [by eapply mark_before | done].
    + apply elsewhere; [done|]. intros [err|u]; [done|]. by intros ? _ ?.
  - intros u a3 He3 Hi3 Hu. apply mok_case; [intros; apply mok_fail|]. intros [_ Ev%negb_false_iff%Z.eqb_eq]%orb_false_iff.
    apply mok_ret. intros a4 He4 Hi4 E4 E. rewrite <- Ev. by apply (Hu a4).
Qed.
Lemma access_rights_safe identity a : uinv a -> uthread (access redis cacheSeconds identity) a.
Proof.
  intros Ha. unfold access.
  eapply (thread_bind _ _ (fun b a' => umark a' = false -> fit identity (bg_acknowledged b) a')); [| |done].
  - apply (note_safe (core := ucore) (grows := ugrows)); [done | by intros|]. intros a' a2 _ Hc _ Hg _ _ E. cbn. rewrite E.
    apply (covered_evolves redis _ (a_users a' uid)); [done|]. by apply acknowledged_covered, Hc.
  - intros b a1 He1 Hi1 Hb. eapply thread_bind; [apply (Validate_rights_ok identity (bg_acknowledged b)); [done|]; intros E; apply Hb; [apply until_refl | done..] | | done].
    intros [err|x] a2 He2 Hi2 Hx; [apply thread_done|]. apply note_thread; [done|]. intros a3 He3 E3 Hc3. cbn in Hx.
    split; [|apply cache_evolves_refl]. destruct Hc3 as [H1 H2]. split; [exact H1|]. cbn. constructor; [|exact H2].
    apply (Hx a3 He3); [by intros _|done].
Qed.

Lemma dashboard_rights_safe p a :
  dashboard uuid_ok hmac hex sign SessionSecret redis cacheSeconds hash_password p -> uinv a -> uthread p a.
Proof.
  intros Hp Ha. destruct Hp.
  - by apply access_rights_safe.
  - eapply thread_bind; [by apply note_elsewhere | | done]. intros b a1 _ Hi1 _. eapply thread_bind; [by apply calm_refresh | | done].
    intros [err|[bundle row]] a2 _ _ _; [apply thread_done | by apply note_elsewhere].
  - apply calm_ignored; [done | apply calm_reference].
  - apply calm_ignored; [done | apply calm_create].
  - apply report_revoked_calm; [done | auto with calm].
  - apply report_revoked_calm; [done | apply calm_log_out].
  - apply (report_bulk_calm _ _ _ anything); [done | apply calm_sessions | intros; apply thread_done].
  - apply (report_bulk_calm _ _ _ anything); [done | apply calm_sessions | intros; apply thread_done].
  - apply (report_bulk_calm _ _ _ anything); [done | apply calm_advance | intros; apply thread_done].
  - apply (report_bulk_calm _ _ _ anything); [done | apply calm_advance_version | intros; apply thread_done].
  - apply (report_bulk_calm _ _ _ (reports_version userID)); [done | intros; by apply reset_reports|].
    intros row a1 Hi1 Hr. apply report_rights_safe; [done|]. by apply Hr; [apply until_refl|].
  - apply (report_bulk_calm _ _ _ (reports_version userID)); [done | intros; by apply delete_reports|].
    intros row a1 Hi1 Hr. apply report_rights_safe; [done|]. by apply Hr; [apply until_refl|].
  - eapply thread_bind; [by apply hard_delete_reports | | done]. intros [err|[row published]] a1 _ Hi1 Hr; [apply thread_done|].
    apply report_hard_safe; [done|]. intros E. exact (Hr a1 (until_refl a1) Hi1 E).
  - apply answered_rights; [done|]. apply change_reports; [|done]. intros; by apply Update_ok.
  - apply answered_rights; [done|]. apply change_reports; [|done]. intros; by apply Edit_ok.
  - apply calm_ignored; [done | apply calm_list].
  - apply calm_ignored; [done | apply calm_sessions].
  - apply calm_ignored; [done | apply calm_sessions].
  - destruct (decide (userID = uid)) as [->|]; [|by apply elsewhere]. apply (uid_safe p (fun _ _ => True)).
    eapply actor_safe; [done | eassumption | by apply uinv_rights].
Qed.
Lemma passes_rights_ok a a' : uinv a -> passes a a' -> uinv a' /\ ustep a a'.
Proof.
  intros Ha [t _|id w Hw].
  - split; [exact Ha | split; [done | intros _; apply cache_evolves_refl]].
  - destruct (decide (id = uid)) as [->|Hid].
    + destruct (expires_ok redis uid _ _ (uinv_rights _ Ha) Hw) as [Hi He]. split; [by apply set_uid_inv|].
      unfold until_step, umark, ugrows. change (a_users (set_user uid w a) uid) with (get_user uid (set_user uid w a)). by rewrite get_set_uid.
    + unfold until, until_step, umark, ugrows, ucore. rewrite set_other by done. split; [exact Ha | split; [done | intros _; apply cache_evolves_refl]].
Qed.
Lemma no_sessions_rights users clock r :
  users uid = start r -> us_Id r = uid -> 0 <= us_AuthVersion r -> uinv (no_sessions users clock).
Proof.
  intros Hu Hid Hv E. split; [|constructor]. unfold no_sessions, umark in *. cbn in *. rewrite Hu in *. by apply cold_start_ok.
Qed.
End UserSide.

(** The user on every Redis, in every run. *)
Section Reached.
Context (uuid_ok : string -> bool) (hmac : string -> string -> string) (hex : string -> string) (sign : AuthIdentity -> Z -> result string)
  (SessionSecret : string) (cacheSeconds : Z) (hash_password : string -> result string).
Context {R : Type} `{EqDecision R} (redis : R -> bool) (uid : Z) (Huid : 0 < uid).

Definition same_of_user (a b : Accounts) : Prop := same_user (a_users a uid) (a_users b uid).
#[local] Instance same_of_user_equivalence : Equivalence same_of_user.
Proof. split; [intros a | intros a b | intros a b c]; apply same_user_equivalence. Qed.
#[local] Instance ugrows_order : PreOrder (ugrows uid).
Proof. split; [intros a; apply cache_evolves_refl | intros a b c; apply cache_evolves_trans]. Qed.
Lemma rights_survive : survives adopt_accounts (fun j => until (umark uid) (ucore (redis j) uid)) (until_step (umark uid) (ugrows uid)) same_of_user.
Proof.
  apply until_survives; [intros x y H; unfold umark, excepted; by injection H as _ _ -> -> | done|].
  intros i j x y y' [X1 X2] [Y1 _] Ha [Y1' _] Hg.
  destruct (user_adopts (redis i) (redis j) uid (a_users x uid) (a_users y uid) (a_users y' uid)) as [H1 H2]; [done..|].
  split; [by split | exact H2].
Qed.
Lemma rights_reached users clock r threads (t : R -> Accounts) :
  users uid = start r -> us_Id r = uid -> 0 <= us_AuthVersion r ->
  dashboard_steps uuid_ok hmac hex sign SessionSecret cacheSeconds hash_password redis
    (mkPool [] (fun _ => no_sessions users clock)) (mkPool threads t) -> forall j, until (umark uid) (ucore (redis j) uid) (t j).
Proof.
  intros Hu Hid Hv Hrun. refine (proj1 (cluster_reached adopt_accounts _ _ same_of_user rights_survive passes
    (dashboards uuid_ok hmac hex sign SessionSecret cacheSeconds hash_password redis) _ _ _ _ _ _ Hrun)).
  - intros i. apply passes_rights_ok.
  - intros i p b Hp. by eapply dashboard_rights_safe.
  - apply cluster_start; [apply _|]. intros i. by eapply no_sessions_rights.
Qed.
End Reached.
