(* ===== verification/SessionTheorems.v ===== *)
(** * No request runs on a session that was ended

    The functions of [LoginSessions] run by any number of nodes on any number of
    Redis instances, together with everything that runs on users and whatever
    else is done to sessions, their statements interleaved, answers lost, nodes
    crashing, the clock moving on: which sessions are let through, and which
    refresh tokens are handed out. *)

From stdpp Require Import base numbers option strings list gmap relations.
From Stdlib Require Import ZArith Lia Ascii.
From S2P Require Import Prelude Store Interleave Marked UserCache UserCacheFacts UserUpdates UserCacheTheorems Sessions SessionFacts Focus Topology SessionTopology LoginSessions SessionClients SessionRights.
Open Scope Z_scope.

(** C36. An ended session stays ended, as far as the caches allow: in every run
    of any number of nodes on any number of Redis instances, no request is let
    through that began after the session's revocation had been reported by a node
    on the same Redis, except where the tombstone that follows the revocation had
    not been written there when it was reported; and whatever fails, and on
    whatever Redis, none is that began longer than a cached snapshot lives after
    the session's row was changed, or, on a node without Redis, at all after it. *)
Theorem ended_session_unserved {R : Type} `{EqDecision R} uuid_ok hmac hex sign SessionSecret cacheSeconds hash_password (redis : R -> bool) users clock threads t :
  dashboard_steps uuid_ok hmac hex sign SessionSecret cacheSeconds hash_password redis
    (mkPool [] (fun _ => no_sessions users clock)) (mkPool threads t) ->
  forall j v, v ∈ s_served (a_sessions (t j)) ->
    (sv_reported v = true -> redis j = true /\ sl_unsealed (slot (sv_sid v) (a_sessions (t j))) = true) /\
    (forall c, sl_ended (slot (sv_sid v) (a_sessions (t j))) = Some c ->
       sv_began v <= c + if redis j then 1000 * userCacheTTLSeconds cacheSeconds else 0).
Proof.
  intros Hrun j v Hv. destruct (sessions_reached _ _ _ _ _ _ _ redis users clock threads t Hrun j) as (_ & Hserved & _).
  rewrite Forall_forall in Hserved. by destruct (Hserved v Hv) as (_ & _ & ? & ?).
Qed.

(** C37. Refresh tokens form one chain: if no two secrets have the same digest,
    every refresh token handed out in any run, by nodes on any number of Redis
    instances, is the one the session's first token leads to after as many steps
    as the token had been rotated at some moment of the request that got it; so
    simultaneous refreshes of one token get the same successor, a token that had
    been replaced before is never handed out again, and none is to a request that
    began after the session's row was revoked, even where caches do not know
    yet. *)
Theorem refresh_tokens_chained {R : Type} `{EqDecision R} uuid_ok hmac hex sign SessionSecret cacheSeconds hash_password (redis : R -> bool) users clock threads t :
  Inj (=) (=) (hashRefreshSecret hmac hex SessionSecret) ->
  dashboard_steps uuid_ok hmac hex sign SessionSecret cacheSeconds hash_password redis
    (mkPool [] (fun _ => no_sessions users clock)) (mkPool threads t) ->
  forall j h, h ∈ s_handed (a_sessions (t j)) ->
    let s := slot (hd_sid h) (a_sessions (t j)) in
    (exists first n, sl_first s = hashRefreshSecret hmac hex SessionSecret first /\
       hd_token h = refreshToken (hd_sid h) (link (deriveNextRefreshSecret hmac hex SessionSecret) (hd_sid h) first n) /\
       (hd_rotations h <= n <= sl_rotations s)%nat) /\
    (forall c, sl_ended s = Some c -> hd_began h <= c).
Proof.
  intros Hinj Hrun j h Hh s. destruct (sessions_reached _ _ _ _ _ _ _ redis users clock threads t Hrun j) as (_ & _ & Hhanded).
  rewrite Forall_forall in Hhanded. destruct (Hhanded h Hh) as (secret & Etoken & _ & _ & Hended & Hchain). split; [|done].
  destruct (Hchain Hinj) as (first & n & E1 & -> & Hn). by exists first, n.
Qed.

(** C38. An access token dies with the rights it was made for: in every run of
    any number of nodes on any number of Redis instances, a request that is
    accepted carries a version of its user's rights no older than any change - of
    a password, a role, a status, a group, or the user's deletion - that a node on
    the same Redis had reported when the request began; unless an update that
    left the version alone overwrote a right, or a hard deletion was reported
    although its publication had failed. *)
Theorem old_access_token_refused {R : Type} `{EqDecision R} uuid_ok hmac hex sign SessionSecret cacheSeconds hash_password (redis : R -> bool) users clock uid r threads t :
  0 < uid -> users uid = start r -> us_Id r = uid -> 0 <= us_AuthVersion r ->
  dashboard_steps uuid_ok hmac hex sign SessionSecret cacheSeconds hash_password redis
    (mkPool [] (fun _ => no_sessions users clock)) (mkPool threads t) ->
  forall j, w_overwritten (a_users (t j) uid) = false -> w_unpublished (a_users (t j) uid) = false ->
  forall reported identity, (reported, identity) ∈ a_accepted (t j) -> ai_UserID identity = uid -> reported <= ai_UserAuthVersion identity.
Proof.
  intros Huid Hu Hid Hv Hrun j E1 E2 reported identity Hin Ei.
  destruct (rights_reached uuid_ok hmac hex sign SessionSecret cacheSeconds hash_password redis uid Huid users clock r threads t Hu Hid Hv Hrun j)
    as [_ Hall]; [unfold umark, excepted; by rewrite E1, E2|]. rewrite Forall_forall in Hall. exact (Hall _ Hin Ei).
Qed.

(** C39. The sessions and their caches are well formed in every state that a run
    reaches, on every Redis: a row is found under its own identifier, of the user
    and with the expiry it was created with, and it is active exactly until it is
    ended; a hash is one of that session, is there only with Redis, and is either
    a tombstone or expires no later than the session, and within the time a
    snapshot lives. *)
Theorem sessions_well_formed {R : Type} `{EqDecision R} uuid_ok hmac hex sign SessionSecret cacheSeconds hash_password (redis : R -> bool) users clock threads t :
  dashboard_steps uuid_ok hmac hex sign SessionSecret cacheSeconds hash_password redis
    (mkPool [] (fun _ => no_sessions users clock)) (mkPool threads t) ->
  forall j sid, let s := slot sid (a_sessions (t j)) in
    (forall r, sl_row s = Some r ->
       ss_SID r = sid /\ ss_UserID r = sl_user s /\ ss_ExpiresAt r = sl_expires s /\
       (ss_Status r = UserSessionStatusActive <-> sl_ended s = None)) /\
    (forall e until, sl_hash s = Some (e, until) ->
       redis j = true /\ sl_born s = true /\ sc_SID e = sid /\ sc_ExpiresAt e = sl_expires s /\
       (tombstone e = true \/
        until <= 1000 * sc_ExpiresAt e /\ until <= s_clock (a_sessions (t j)) + 1000 * userCacheTTLSeconds cacheSeconds)).
Proof.
  intros Hrun j sid s. destruct (sessions_reached _ _ _ _ _ _ _ redis users clock threads t Hrun j) as (Hslots & _).
  destruct (Hslots sid) as (C1 & C2 & C3 & C4 & _). fold s in C1, C2, C3, C4. split.
  - intros r Hr. destruct (C1 r Hr) as (E1 & Hb & E2 & E3 & Hactive & _). do 3 (split; [done|]). split.
    + intros E. apply Hactive. by apply str_eqb_true.
    + intros He. destruct (C3 Hb He) as (r' & Hr' & Ha). rewrite Hr in Hr'. injection Hr' as <-. by apply str_eqb_true in Ha.
  - intros e until He. destruct (C4 e until He) as (Hredis & E1 & E2 & Hkind). split; [done|]. split.
    { destruct (sl_born s); [done|]. destruct (C2 eq_refl) as [H _]. congruence. }
    do 2 (split; [done|]). destruct Hkind as [|(H1 & H2 & _)]; [by left | right]. by rewrite E2.
Qed.

(** ** Concrete runs

    One user, one session, Redis, and caches that live a minute. *)
Module SessionDemo.
(** A digest that is easy to invert: every byte is turned by half its range. *)
Definition turn (c : ascii) : ascii := ascii_of_nat ((nat_of_ascii c + 128) mod 256).
Fixpoint hex (s : string) : string := match s with EmptyString => EmptyString | String c s => String (turn c) (hex s) end.
Definition hmac (key data : string) : string := key ++ ":" ++ data.
Definition uuid_ok (s : string) : bool := true.
Definition sign (identity : AuthIdentity) (time : Z) : result string := inr "jwt"%string.
Definition hash_password (password : string) : result string := inr (password ++ "#")%string.
Lemma turn_turn c : turn (turn c) = c.
Proof. by destruct c as [[] [] [] [] [] [] [] []]. Qed.
Lemma hex_hex s : hex (hex s) = s.
Proof. induction s as [|c s IH]; cbn; [done | by rewrite turn_turn, IH]. Qed.
Lemma hash_inj : Inj (=) (=) (hashRefreshSecret hmac hex "key").
Proof.
  intros x y H. unfold hashRefreshSecret, GenerateHMACWithKey in H. apply (f_equal hex) in H. rewrite !hex_hex in H. by apply (inj _) in H.
Qed.

Definition user : UserRow := mkUserRow 7 "default" "a@x" 100 1 1 "alice" "pw#" "" 1 false.
Definition users (id : Z) : World := start (user <| us_Id := id |>).
Definition clock : Z := 1000000000.
Definition cold : Pool Accounts := mkPool [] (no_sessions users clock).
Abbreviation client := (dashboard uuid_ok hmac hex sign "key" true 60 hash_password).
Abbreviation steps := (rtc (pool_step passes client)).

Definition identity : AuthIdentity := mkAuthIdentity 7 "s1" 1 1.
Definition signing_in : prog Accounts unit :=
  ignored (createLoginSession hmac hex sign "key" true 60 50 100 86400 "s1" (inr "secret"%string) 7 0 "password" "10.0.0.1" "browser").
Definition visiting : prog Accounts unit := access true 60 identity.
Definition revoking : prog Accounts unit := report_revoked true "s1" (on_sessions (RevokeUserSession true 60 7 "s1" "user_revoked")).
Definition refreshing : prog Accounts unit := refresh uuid_ok hmac hex sign "key" true 60 "s1.secret" "" "10.0.0.1" "browser".
Definition resetting : prog Accounts unit := report_bulk true 7 "" (reset_password true 60 5 hash_password 7 "new") (report_rights 7).
Lemma signing_in_client : client signing_in. Proof. apply dash_sign_in. Qed.
Lemma visiting_client : client visiting. Proof. apply dash_access. Qed.
Lemma revoking_client : client revoking. Proof. apply dash_revoke. Qed.
Lemma refreshing_client : client refreshing. Proof. apply dash_refresh. Qed.
Lemma resetting_client : client resetting. Proof. apply dash_reset. Qed.

Definition at_time (t : Z) (c : Pool Accounts) : Pool Accounts :=
  mkPool (pool_threads c) ((pool_state c) <| a_sessions ::= fun w => w <| s_clock := t |> |>).
Definition begin (p : prog Accounts unit) (c : Pool Accounts) : Pool Accounts := mkPool (p :: pool_threads c) (pool_state c).
Fixpoint steps_at (i n : nat) (c : Pool Accounts) : Pool Accounts :=
  match n with O => c | S n => steps_at i n (step_at i Answered c) end.
Lemma retimed t c : s_clock (a_sessions (pool_state c)) <= t -> steps c (at_time t c).
Proof. intros H. destruct c as [l s]. apply rtc_once, pool_tick. by constructor. Qed.
Lemma begun_at p c : client p -> steps c (begin p c).
Proof. intros H. destruct c as [l s]. apply rtc_once. by apply (pool_start passes client p l s). Qed.
Lemma stepped_at i n c : steps c (steps_at i n c).
Proof. revert c. induction n as [|n IH]; intros c; cbn; [apply rtc_refl|]. etrans; [apply stepped | apply IH]. Qed.

Definition signed_in : Pool Accounts := after signing_in cold.
Lemma to_signed_in : steps cold signed_in. Proof. exact (started _ _ _ _ signing_in_client). Qed.
End SessionDemo.

(** Two Redis instances. *)
Module Nodes.
Import SessionDemo.
Definition redis (_ : bool) : bool := true.
Abbreviation steps := (dashboard_steps uuid_ok hmac hex sign "key" 60 hash_password redis).
Definition cold : Pool (bool -> Accounts) := mkPool [] (fun _ => no_sessions users SessionDemo.clock).
Definition on (j : bool) (p : prog Accounts unit) (c : Pool (bool -> Accounts)) : Pool (bool -> Accounts) := after_on adopt_accounts j p c.
Lemma ran j p c : client p -> steps c (on j p c).
Proof. intros H. by apply started_on. Qed.
Definition later (t : Z) (c : Pool (bool -> Accounts)) : Pool (bool -> Accounts) :=
  tick_on adopt_accounts true ((pool_state c true) <| a_sessions ::= fun w => w <| s_clock := t |> |>) c.
Lemma passed t c : s_clock (a_sessions (pool_state c true)) <= t -> steps c (later t c).
Proof. intros H. apply ticked_on. by constructor. Qed.

Definition signed_in : Pool (bool -> Accounts) := on true signing_in cold.
Definition visited : Pool (bool -> Accounts) := on false visiting (on true visiting signed_in).
Definition revoked : Pool (bool -> Accounts) := on false visiting (on true visiting (on true revoking visited)).
Definition converged : Pool (bool -> Accounts) := on false visiting (later (SessionDemo.clock + 61000) revoked).
Definition refreshed : Pool (bool -> Accounts) := on false refreshing (on true refreshing signed_in).
Definition reset : Pool (bool -> Accounts) := on true visiting (on true resetting visited).
Lemma to_nodes_signed_in : steps cold signed_in. Proof. exact (ran true _ _ signing_in_client). Qed.
Lemma to_visited : steps cold visited.
Proof. etrans; [exact to_nodes_signed_in|]. etrans; [exact (ran true _ _ visiting_client) | exact (ran false _ _ visiting_client)]. Qed.
Lemma to_revoked : steps cold revoked.
Proof.
  etrans; [exact to_visited|]. etrans; [exact (ran true _ _ revoking_client)|].
  etrans; [exact (ran true _ _ visiting_client) | exact (ran false _ _ visiting_client)].
Qed.
Lemma to_converged : steps cold converged.
Proof. etrans; [exact to_revoked|]. etrans; [exact (passed (SessionDemo.clock + 61000) revoked ltac:(by vm_compute)) | exact (ran false _ _ visiting_client)]. Qed.
Lemma to_refreshed : steps cold refreshed.
Proof. etrans; [exact to_nodes_signed_in|]. etrans; [exact (ran true _ _ refreshing_client) | exact (ran false _ _ refreshing_client)]. Qed.
Lemma to_reset : steps cold reset.
Proof. etrans; [exact to_visited|]. etrans; [exact (ran true _ _ resetting_client) | exact (ran true _ _ visiting_client)]. Qed.

Abbreviation sessions_on c j := (a_sessions (pool_state c j)).
End Nodes.

(** Its row is kept, and its hash is a tombstone. *)
Lemma sessions_well_formed_witness :
  let s := slot "s1" (Nodes.sessions_on Nodes.revoked true) in
  option_map ss_Status (sl_row s) = Some UserSessionStatusRevoked /\ option_map (fun h => tombstone h.1) (sl_hash s) = Some true /\
  (forall r, sl_row s = Some r -> ss_SID r = "s1"%string).
Proof.
  split; [by vm_compute|]. split; [by vm_compute|]. intros r Hr.
  exact (proj1 (proj1 (sessions_well_formed SessionDemo.uuid_ok SessionDemo.hmac SessionDemo.hex SessionDemo.sign "key" 60 SessionDemo.hash_password
    Nodes.redis SessionDemo.users SessionDemo.clock (pool_threads Nodes.revoked) (pool_state Nodes.revoked) Nodes.to_revoked true "s1") r Hr)).
Defined.

(** The session is used on both Redis instances and revoked on the first, where
    it is refused at once; on the second one its snapshot is still served, until
    that has expired. *)
Lemma ended_session_unserved_witness :
  s_served (Nodes.sessions_on Nodes.revoked true) = [mkServed "s1" SessionDemo.clock false] /\
  s_served (Nodes.sessions_on Nodes.revoked false) = [mkServed "s1" SessionDemo.clock false; mkServed "s1" SessionDemo.clock false] /\
  s_served (Nodes.sessions_on Nodes.converged false) = s_served (Nodes.sessions_on Nodes.revoked false) /\
  sl_ended (slot "s1" (Nodes.sessions_on Nodes.converged false)) = Some SessionDemo.clock /\
  forall v, v ∈ s_served (Nodes.sessions_on Nodes.converged false) -> sv_began v <= SessionDemo.clock + 60000.
Proof.
  do 4 (split; [by vm_compute|]). intros v Hv.
  assert (sv_sid v = "s1"%string) as Esid.
  { vm_compute in Hv. apply elem_of_cons in Hv as [->|Hv]; [done|]. by apply list_elem_of_singleton in Hv as ->. }
  exact (proj2 (ended_session_unserved SessionDemo.uuid_ok SessionDemo.hmac SessionDemo.hex SessionDemo.sign "key" 60 SessionDemo.hash_password
    Nodes.redis SessionDemo.users SessionDemo.clock (pool_threads Nodes.converged) (pool_state Nodes.converged) Nodes.to_converged false v Hv)
    SessionDemo.clock ltac:(rewrite Esid; by vm_compute)).
Defined.

(** The same token is refreshed on both, and the answers are the same. *)
Lemma refresh_tokens_chained_witness :
  map (fun h => (hd_token h, hd_rotations h)) (s_handed (Nodes.sessions_on Nodes.refreshed true)) =
    [(refreshToken "s1" (deriveNextRefreshSecret SessionDemo.hmac SessionDemo.hex "key" "s1" "secret"), 0%nat)] /\
  map (fun h => (hd_token h, hd_rotations h)) (s_handed (Nodes.sessions_on Nodes.refreshed false)) =
    [(refreshToken "s1" (deriveNextRefreshSecret SessionDemo.hmac SessionDemo.hex "key" "s1" "secret"), 1%nat)] /\
  forall j h, h ∈ s_handed (Nodes.sessions_on Nodes.refreshed j) ->
    forall c, sl_ended (slot (hd_sid h) (Nodes.sessions_on Nodes.refreshed j)) = Some c -> hd_began h <= c.
Proof.
  split; [by vm_compute|]. split; [by vm_compute|]. intros j h Hh.
  exact (proj2 (refresh_tokens_chained SessionDemo.uuid_ok SessionDemo.hmac SessionDemo.hex SessionDemo.sign "key" 60 SessionDemo.hash_password
    Nodes.redis SessionDemo.users SessionDemo.clock (pool_threads Nodes.refreshed) (pool_state Nodes.refreshed) SessionDemo.hash_inj
    Nodes.to_refreshed j h Hh)).
Defined.

(** A request is let through, the password is reset, and the next request with
    the same access token is not. *)
Lemma old_access_token_refused_witness :
  a_accepted (pool_state Nodes.visited true) = [(0, SessionDemo.identity)] /\
  a_accepted (pool_state Nodes.reset true) = [(0, SessionDemo.identity)] /\
  w_acknowledged (a_users (pool_state Nodes.reset true) 7) = 2 /\
  forall reported identity, (reported, identity) ∈ a_accepted (pool_state Nodes.reset true) -> ai_UserID identity = 7 ->
    reported <= ai_UserAuthVersion identity.
Proof.
  do 3 (split; [by vm_compute|]).
  exact (old_access_token_refused SessionDemo.uuid_ok SessionDemo.hmac SessionDemo.hex SessionDemo.sign "key" 60 SessionDemo.hash_password
    Nodes.redis SessionDemo.users SessionDemo.clock 7 SessionDemo.user (pool_threads Nodes.reset) (pool_state Nodes.reset)
    eq_refl eq_refl eq_refl (fun H => ltac:(discriminate H)) Nodes.to_reset true eq_refl eq_refl).
Defined.

(** A request misses the cache; a revocation writes its first tombstone; five
    seconds later the request takes its deadline and reads the row; then the row
    is revoked, and the second tombstone is lost, which is only logged; when the
    first has expired, the request writes what it read. *)
Module LostTombstone.
Import SessionDemo.
Definition later : Z := clock + 61000.
Definition missed : Pool Accounts := steps_at 0 2 (begin visiting (at_time later signed_in)).
Definition fenced : Pool Accounts := steps_at 0 4 (begin revoking missed).
Definition row_read : Pool Accounts := steps_at 1 3 (at_time (later + 5000) fenced).
Definition row_revoked : Pool Accounts := steps_at 0 2 row_read.
Definition seal_lost : Pool Accounts := step_at 0 Refused row_revoked.
Definition untold : Pool Accounts := steps_at 0 1 seal_lost.
Definition filled : Pool Accounts := steps_at 1 12 (at_time (later + 60001) untold).
Definition let_in : Pool Accounts := after visiting (at_time (later + 62000) filled).
Lemma to_missed : steps cold missed.
Proof.
  etrans; [exact to_signed_in|]. etrans; [exact (retimed later signed_in ltac:(by vm_compute))|].
  etrans; [exact (begun_at visiting _ visiting_client)|]. exact (stepped_at 0 2 _).
Qed.
Lemma to_fenced : steps cold fenced.
Proof. etrans; [exact to_missed|]. etrans; [exact (begun_at revoking missed revoking_client)|]. exact (stepped_at 0 4 _). Qed.
Lemma to_row_read : steps cold row_read.
Proof. etrans; [exact to_fenced|]. etrans; [exact (retimed (later + 5000) fenced ltac:(by vm_compute))|]. exact (stepped_at 1 3 _). Qed.
Lemma to_untold : steps cold untold.
Proof.
  etrans; [exact to_row_read|]. unfold untold, seal_lost, row_revoked. etrans; [apply (stepped_at 0 2)|].
  etrans; [apply (stepped passes client 0 Refused)|]. apply (stepped_at 0 1).
Qed.
Lemma to_filled : steps cold filled.
Proof. etrans; [exact to_untold|]. etrans; [exact (retimed (later + 60001) untold ltac:(by vm_compute))|]. exact (stepped_at 1 12 _). Qed.
Lemma to_served_twice : steps cold let_in.
Proof.
  etrans; [exact to_filled|]. etrans; [exact (retimed (later + 62000) filled ltac:(by vm_compute))|].
  exact (started _ _ visiting _ visiting_client).
Qed.
Lemma served_late : s_served (a_sessions (pool_state let_in)) = [mkServed "s1" (later + 62000) true; mkServed "s1" later false].
Proof. by vm_compute. Qed.
End LostTombstone.

(** C40. The exception is real: when the second tombstone is lost, the request
    that read the row between the two outlives the first, and writes the session
    back to the cache as active; a request that begins almost a minute after the
    revocation was reported is let through. *)
Theorem lost_tombstone_serves_ended_session :
  exists threads a v c,
    rtc (pool_step passes (dashboard SessionDemo.uuid_ok SessionDemo.hmac SessionDemo.hex SessionDemo.sign "key" true 60 SessionDemo.hash_password))
      (mkPool [] (no_sessions SessionDemo.users SessionDemo.clock)) (mkPool threads a) /\
    v ∈ s_served (a_sessions a) /\ sv_reported v = true /\
    sl_ended (slot (sv_sid v) (a_sessions a)) = Some c /\ c + 55000 < sv_began v.
Proof.
  exists (pool_threads LostTombstone.let_in), (pool_state LostTombstone.let_in), (mkServed "s1" (LostTombstone.later + 62000) true), (LostTombstone.later + 5000).
  split; [exact LostTombstone.to_served_twice|]. split; [rewrite LostTombstone.served_late; left|]. split; [done|]. by vm_compute.
Qed.
